(* ===== verification/_CoqProject ===== *)
-Q . S2P
Prelude.v
Inflights.v
Types.v
Errors.v
Util.v
Progress.v
Quorum.v
Tracker.v
ConfChange.v
Storage.v
MemStorage.v
Unstable.v
ReadOnly.v
Config.v
RaftLog.v
RaftLogProps.v
RaftCore.v
RaftSend.v
LogSafety.v
Fragments.v
Raft.v
NodeInv.v
NodeStart.v
NodeSafety.v
Elections.v
NodeLog.v
NodeMoves.v
NodeCalm.v
CommitRule.v
Cluster.v
LogMatching.v
Termination.v
RawNode.v
RawNodeProps.v
Bytes.v
Capnp.v
Record.v
WalIndex.v
Disk.v
Metadata.v
Segment.v
SegmentProps.v
SegmentManager.v
SnapshotFile.v
SnapshotProps.v
Wal.v
WalLog.v
WalProps.v
WalRead.v
WalRecovery.v
WalOps.v
WalSnapshots.v
WalStorage.v
WalMemory.v
WalExamples.v
Json.v
ProposalTracker.v
StateMachine.v
KvStore.v
ReadyProcessor.v
ReadyProps.v
KvLog.v
Raftor.v
RaftorProps.v
KvHttp.v
KvCli.v
Rpc.v
Transport.v
KvMain.v
MinimalNode.v
