(* ===== verification/Prelude.v ===== *)
(** * A verification library for raftpp

    raftpp is a Raft library in C++: a deterministic core ([lib/core]) that
    turns messages, ticks and acknowledgements of persistence into messages and
    log entries to persist and to apply, and a server around it ([lib/raftor])
    with a write-ahead log, a transport, a driver and an event loop, and
    example programs ([examples]), among them a replicated key-value store.
    This library models these parts and proves what makes them correct.  Below,
    [core/x.cc] is [src/lib/core/x.cc], [core/x.h] is
    [src/include/raftpp/core/x.h], and likewise for [raftor] and [wal].

    ** How the code is modelled

    A class is a [Record] of its fields, a method that changes the object an
    element of the state monad [M], a [const] method a function.  A call
    returns, or it aborts ([outcome]): a failed assertion or [PANIC] is
    [Panic], an access outside a vector or to an absent value is [Undefined].
    Errors of the code ([Result<T>]) are values ([Result]).  Integers are
    elements of [Z] with the arithmetic modulo 2^64 or 2^32 written out.
    Loops that are not structural carry fuel and abort with [NoFuel] when it is
    used up; what the fuel is and why it is enough is said below.

    Code that is not in the repository is a parameter, an instance of a class
    with its documented behaviour as laws: [Types.Env] (iteration order of hash
    containers, [std::sort], random draws, sizes and encoding of messages,
    CRC), [Record.Crc], [Capnp.Serializable] and [Metadata.Capnp] (Cap'n Proto
    reads back what it wrote, within the reader's traversal limit),
    [Segment.Platform] (the io_uring library) and [Disk.Io]: the answer of the
    operating system to the [n]-th call, which may be success, an error, an
    interruption or a partial transfer; [ReadyProcessor.DriverCodec] (encodings
    of the driver's messages), [ProposalTracker.MapOrder] (iteration order),
    [StateMachine.StateMachine] (the user's state machine), [Raftor.StdIo]
    (temporary files) and [Raftor.Runtime] (the clock); for the examples,
    [Json.JsonLib], [KvHttp.HttpLib] and [KvCli.HttpClient].

    ** The core

    - [Types], [Errors], [Util]: messages, entries, errors and their text
      ([proto/raftpp.capnp], [core/error.h], [core/error.cc]); size limit of a
      batch, continuity, entry checksum ([core/util.cc],
      [raftor/entry_checksum.h]).
    - [Inflights], [Progress]: the window of unacknowledged appends and the
      state of replication to one peer ([core/inflights.cc],
      [core/progress.cc]).
    - [Quorum], [Tracker], [ConfChange]: committed index and vote result of
      majority and joint configurations, the progress tracker, configuration
      changes and their restoration ([core/majority_conf.cc],
      [core/joint_conf.cc], [core/progress_tracker.cc], [core/tracker_conf.cc],
      [core/conf_changer.cc], [core/conf_restore.cc]).
    - [Storage]: the interface [core/storage.h] as a class, with laws over an
      abstract log ([LogView]).  [MemStorage] ([core/memory_storage.cc]) and
      [WalStorage] are instances; everything above the interface is proved for
      any instance.
    - [Unstable], [RaftLog], [RaftLogProps]: the log of a node
      ([core/unstable_log.cc], [core/raft_log.cc]) and its operations described
      on the abstract log.
    - [ReadOnly], [Config]: pending reads and options ([core/read_only.cc],
      [core/raft_config.cc]).
    - [RaftCore], [RaftSend]: the state all roles share and the sending of
      appends and snapshots ([core/raft_core.cc]).
    - [Raft]: the node ([core/raft.cc]), with [LogSafety], [NodeInv],
      [NodeStart], [NodeSafety] and [Termination] on its invariant,
      [Elections] on what a node knows of its elections, [NodeLog] and
      [NodeMoves] on a call as a sequence of moves of the abstract protocol,
      [NodeCalm] and [CommitRule] on what a node commits and why, and
      [Cluster] and [LogMatching] on many nodes with messages between them;
      [Fragments] has the pieces of logs that nodes and messages hold.
    - [RawNode], [RawNodeProps]: the [Ready]/[Advance] protocol
      ([core/raw_node.cc]), and what a [Ready] and an [Advance] hand out.

    ** The write-ahead log ([lib/raftor/wal])

    - [Bytes], [Capnp], [Record]: bytes and little-endian layout, the wrappers
      of [core/capnp_util.h], checksummed records ([wal/record.cc],
      [wal/crc32c.cc]).  The host is little endian.
    - [WalIndex]: positions of entries ([wal/wal_index.cc]).
    - [Disk]: the files of one directory and the system calls on them
      ([wal/env.cc]), with the rules [wp] for total correctness of programs
      that make such calls.
    - [Metadata]: the metadata file ([wal/metadata_store.cc]).
    - [Segment], [SegmentProps], [SegmentManager]: segment files, both I/O
      backends, file names, the map of segments ([wal/segment.cc],
      [wal/segment_manager.cc]).
    - [SnapshotFile], [SnapshotProps]: the snapshot file ([wal/wal.cc]).
    - [Wal]: appending, reading, compaction, snapshots, recovery
      ([wal/wal.cc]).  [WalLog] gives the records in the segments, [WalProps]
      the invariant [wal_ok] between files, index and buffer; [WalRead],
      [WalRecovery], [WalOps] and [WalSnapshots] describe the operations on the
      log ([log]) it represents.
    - [WalStorage], [WalMemory]: the storage on the log
      ([wal/wal_storage.cc]), and its writes next to those of [MemStorage].
    - [WalExamples]: concrete logs, instances of the theorems, and runs that
      show defects.

    ** The server ([lib/raftor])

    - [ProposalTracker]: callbacks that wait for their result, and the queues
      through which requests come in ([raftor/proposal_tracker.cc]).
    - [StateMachine]: the interface [raftor/state_machine.h] as a class, and
      the mock as an instance ([raftor/mock_state_machine.cc]).
    - [ReadyProcessor], [ReadyProps]: what the driver does with a [Ready]
      ([raftor/ready_processor.cc], [raftor/metadata_change.h]).  The storage
      is the one of the node's log, written through [Storage.WritableStorage],
      which [MemStorage] and [WalStorage] implement; [MemStorage] discharges
      the laws the driver relies on, and [WalMemory] shows what [WalStorage]
      needs to behave like it.
    - [Raftor], [RaftorProps]: configuration, bootstrap, construction, event
      loop, requests, snapshots and shutdown ([raftor/raftor.cc],
      [raftor/raftor_config.h], [raftor/std_runtime.cc]).  What a poll of the
      transport delivers is an argument.
    - [Rpc]: frames, handshakes and addresses, peer bookkeeping, the transport
      that drops everything ([raftor/rpc/codec.cc],
      [raftor/rpc/peer_manager.cc], [raftor/rpc/noop_transport.cc]).
    - [Transport]: the queues and the RPC loop of the network transport
      ([raftor/rpc/capnp_transport.cc]); what Cap'n Proto RPC does is an
      argument of each round.

    ** The examples ([examples])

    - [Json]: the values of the JSON library, and the laws of its parser and
      printer.
    - [KvStore], [KvLog]: the key-value store as an instance of the state
      machine interface ([kvstore/kv_store_state_machine.cc]), and the store
      under the driver of [ReadyProcessor].
    - [KvHttp]: the HTTP server ([kvstore/http_server.cc]).
    - [KvCli], [KvMain]: the client and the server program
      ([kvstore/cli_options.cc], [kvstore/cli.cc], [kvstore/main.cc]).
    - [MinimalNode]: the smallest program ([minimal_node/main.cc]).

    ** What is shown

    Quorums: the committed index is the largest acknowledged by a quorum; the
    winner of an election has the vote of a peer that acknowledged it; quorums
    before and after a configuration change overlap; changes keep the tracker
    consistent, a joint configuration can be left, a saved configuration is
    restored; group commit.

    Log: [MaybeAppend], [FindConflictByTerm] and [NextEntriesSince] on the
    abstract log; append messages are pieces of the sender's log.

    Node: from the constructor on and along every sequence of calls the
    invariant holds, terms do not decrease, votes are kept, committed entries
    are final; every call ends.  A leader commits only entries of its own term
    that a quorum of its voters acknowledged in that term, and any other node
    only what a message tells it.  A run is a sequence of calls that return;
    callers pass messages with indexes and terms within the bounds of
    [input_ok], and the 64-bit counters have room for the run ([total]).

    Cluster: no term has two leaders, for nodes that crash and start again from
    their stored hard state, over a network that loses, repeats, delays and
    reorders messages, when grants are delivered as they were sent and the
    voters do not change during the run.  When entries too are delivered as they
    were sent, snapshots end at a position of a stored log and batching is off,
    the logs match: a common entry makes two logs equal up to it.

    Containers: ring buffer, progress, read queue, index and address book
    against plain lists, queues and maps.

    Write-ahead log: for every behaviour of the system calls, [Append],
    [ReadEntries], [SaveHardState], [Compact] and snapshots do on the
    represented log what they should or report a failure that stems from a
    failed call; saving metadata and replacing the snapshot are atomic;
    opening a directory gives back the log that was left there, also when
    records are cut off at the ends of segments; the storage on top of it
    meets the laws the core relies on, and its writes have the outcome and leave
    the log that those of the storage in memory do.  A hard state is saved
    safely while the current segment has room ([room_for]); on a full segment
    the save loses the way to its entries
    ([WalOps.hard_state_roll_loses_segment]).

    Driver: the state machine is given the committed log, each entry once and
    in order, across snapshots and any cut into rounds that succeed; messages
    leave after the log, the term and the vote they speak of are stored, for any
    storage that meets the laws of [WritableStorage].  These theorems are about
    rounds that start without a pending snapshot behind which entries wait
    ([clean]); in the other case [Process] loses these entries
    ([ReadyProps.snapshot_round_loses_entries]).

    Server: what [Create] returns starts from the stored log, with the state
    machine restored from the local snapshot; every request is
    answered exactly once, at the latest by [Stop]; a fatal error is final; a
    snapshot carries what the state machine wrote.

    Transport: frames survive a stream; the queues stay within their limits
    and keep the order of each peer's messages.

    Examples: the data of the key-value store are what the committed commands
    make of them, and a snapshot restores them; a put over HTTP reaches the
    store; the routes that read and delete a key always fail; the loop that
    reads the list of peers splits it at its commas, and lists of peers and
    command lines are read back as they are written.

    ** Fuel and bounds

    [FindConflictByTerm] and the scans of the log get one unit per index;
    [SendAppendAggressively] one per place in the window; an election nests at
    most once (a pre-election that is won at once starts the election), so
    [Campaign] has fuel 2.  [Termination.handle_ends] shows that no call of a
    node uses up its fuel.  Transfers of the snapshot file get one unit per
    byte and call that may be interrupted ([io_patience] bounds interruptions
    in a row); replaying a segment one per byte.  The specifications of the
    write-ahead log are total: they include that the calls return.  File names
    limit a log to a million segments.  Draining a request queue gets one unit
    per request, since nothing is queued meanwhile; reading the temporary file
    back one per byte, and so do the loops over a snapshot and over the list
    of peers.

    ** Not modelled

    - Locks and threads: each method of a class that holds its mutex is one
      step, and the RPC loop of the transport is a sequence of rounds.  Data
      races and destructors are left out, and so are the waiting of
      [ProposeSync] and [ReadIndexSync] beyond the race for the result
      ([Raftor.sync_return]) and the test hooks of [raftor/std_runtime.cc].
    - The loss of data that was written and not synced: a crash is modelled by
      the files it leaves ([WalRecovery.left_behind]), with torn records at the
      ends of segments.
    - Logs of a cluster with batched appends: a follower can then acknowledge
      entries it does not have ([RaftSend.batching_acknowledges_missing_entries]).
      That nodes never commit different entries is not shown.  Elections across
      a change of the voters rest on the overlap of their quorums, shown in
      [ConfChange].
    - What the standard library does at its limits: a [reserve] of more than
      the largest size aborts, deadlines do not overflow, the iteration order of
      a hash set is a function of the set, and a submission to io_uring that
      fails has no effect.
    - Logging, tracing, metrics, assertions' texts and usage texts: output
      without effect on the state above. *)

From Stdlib Require Export ZArith Lia Ascii String.
From stdpp Require Export base gmap sets list strings sorting.

#[global] Open Scope Z_scope.

(** ** Machine integers

    [uint64_t] and [size_t] values are integers of [Z] in [[0, 2^64)].
    Arithmetic that C++ does modulo 2^64 is written with [+!] and [-!]. *)

Definition two64 : Z := 18446744073709551616.
Definition u64max : Z := 18446744073709551615.
Definition u64 (x : Z) : Z := x mod two64.
Definition is_u64 (x : Z) : Prop := 0 <= x < two64.

Declare Scope u64_scope.
Delimit Scope u64_scope with u64.
Notation "a +! b" := (u64 (a + b)) (at level 50, left associativity) : u64_scope.
Notation "a -! b" := (u64 (a - b)) (at level 50, left associativity) : u64_scope.
#[global] Open Scope u64_scope.

(** [v.size()] of a vector or a list. *)
Abbreviation zlen l := (Z.of_nat (length l)).

(** ** Outcomes and the state monad

    A call either returns or aborts: [PANIC] and a failed [ASSERT] call
    [std::abort], an access outside a vector or a read of an absent value is
    undefined behaviour, and [NoFuel] marks a model loop that ran out of fuel
    (the termination theorems show it does not arise). *)

Inductive fault :=
| Panic (msg : string)
| Undefined
| NoFuel.

Inductive outcome (A : Type) :=
| Ret (a : A)
| Abort (f : fault).
Arguments Ret {A} a.
Arguments Abort {A} f.

Definition obind {A B} (m : outcome A) (k : A -> outcome B) : outcome B :=
  match m with
  | Ret a => k a
  | Abort f => Abort f
  end.

(** A method of an object with state [S] that returns an [A]. *)
Definition M (S A : Type) := S -> outcome (A * S).

Definition ret {S A} (a : A) : M S A := fun s => Ret (a, s).

Definition bind {S A B} (m : M S A) (k : A -> M S B) : M S B :=
  fun s => match m s with
           | Ret (a, s') => k a s'
           | Abort f => Abort f
           end.

(** The object itself. *)
Definition get {S} : M S S := fun s => Ret (s, s).

Definition gets {S A} (f : S -> A) : M S A := fun s => Ret (f s, s).

(** A [const] method, which may abort but leaves the object alone. *)
Definition getsO {S A} (f : S -> outcome A) : M S A :=
  fun s => match f s with
           | Ret a => Ret (a, s)
           | Abort e => Abort e
           end.

Definition modify {S} (f : S -> S) : M S unit := fun s => Ret (tt, f s).

Definition abort {S A} (f : fault) : M S A := fun _ => Abort f.

(** A method of a member object, run on the member. *)
Definition zoom {S T A} (view : S -> T) (put : T -> S -> S) (m : M T A) : M S A :=
  fun s => match m (view s) with
           | Ret (a, t) => Ret (a, put t s)
           | Abort f => Abort f
           end.

Definition when {S} (b : bool) (m : M S unit) : M S unit := if b then m else ret tt.

Definition oassert (b : bool) (msg : string) : outcome unit :=
  if b then Ret tt else Abort (Panic msg).

Definition assert {S} (b : bool) (msg : string) : M S unit :=
  if b then ret tt else abort (Panic msg).

(** [for (x : l) body]. *)
Fixpoint foreach {S X} (l : list X) (body : X -> M S unit) : M S unit :=
  match l with
  | [] => ret tt
  | x :: l' => bind (body x) (fun _ => foreach l' body)
  end.

(** [while (cond_and_body) {}]. *)
Fixpoint whileM {S} (fuel : nat) (body : M S bool) : M S unit :=
  match fuel with
  | O => abort NoFuel
  | S n => bind body (fun b : bool => if b then whileM n body else ret tt)
  end.

Declare Scope monad_scope.
Delimit Scope monad_scope with monad.
Notation "'let!' x ':=' c 'in' k" := (bind c (fun x => k))
  (at level 10, x pattern, c at level 100, k at level 200) : monad_scope.
Notation "'let?' x ':=' c 'in' k" := (obind c (fun x => k))
  (at level 10, x pattern, c at level 100, k at level 200) : monad_scope.
Notation "c ;;; k" := (bind c (fun _ => k))
  (at level 199, right associativity) : monad_scope.
#[global] Open Scope monad_scope.

(** ** Record update

    [r <| f := v |>] is [r] with field [f] replaced.  A record type gives its
    eta expansion as an [Eta] instance; the setter of each field is computed
    from it. *)

Class Eta (R : Type) := eta : R -> R.
Class Setter {R T : Type} (p : R -> T) := upd : (T -> T) -> R -> R.
Arguments upd {R T} p {_} f r.

Ltac solve_setter :=
  lazymatch goal with
  | |- @Setter ?R ?T ?p =>
      let h := constr:(ltac:(typeclasses eauto) : Eta R) in
      let f := fresh "f" in
      let r := fresh "r" in
      unfold Setter; intros f r;
      let e := eval hnf in (@eta R h r) in
      let e := eval pattern (p r) in e in
      lazymatch e with
      | ?g _ => let t := eval cbv beta in (g (f (p r))) in exact t
      end
  end.

#[export] Hint Extern 1 (Setter _) => solve_setter : typeclass_instances.

Notation "r <| p := v |>" := (upd p (fun _ => v) r)
  (at level 1, left associativity, p at level 0, format "r  <| p  :=  v |>").

(** Assignment to a field of the object a method runs on. *)
Notation "'set!' p ':=' v" := (modify (fun this => this <| p := v |>))
  (at level 10, p at level 0, v at level 100) : monad_scope.

(** Two updates of the same field are equal when the new values are. *)
Ltac upd_eq :=
  match goal with
  | |- upd _ (fun _ => ?x) _ = upd _ (fun _ => ?y) _ => let E := fresh in assert (x = y) as E; [|by rewrite E]
  end.

(** ** Lemmas on machine integers *)

Lemma u64_id x : is_u64 x -> u64 x = x.
Proof. intros H. apply Z.mod_small, H. Qed.

Lemma u64_range x : is_u64 (u64 x).
Proof. apply Z.mod_pos_bound. reflexivity. Qed.

Lemma u64max_two64 : u64max = two64 - 1.
Proof. reflexivity. Qed.

Lemma u64_add_l x y : u64 (u64 x + y) = u64 (x + y).
Proof. apply Z.add_mod_idemp_l. discriminate. Qed.

Lemma u64_sub_l x y : u64 (u64 x - y) = u64 (x - y).
Proof. apply Zminus_mod_idemp_l. Qed.

(** [u64_simpl] removes the wrap-around where the bounds in the context show
    that nothing wraps. *)
Ltac u64_simpl :=
  repeat match goal with
    | |- context [u64 ?x] =>
        rewrite (u64_id x) by (unfold is_u64, two64, u64max in *; lia)
    | H : context [u64 ?x] |- _ =>
        rewrite (u64_id x) in H by (unfold is_u64, two64, u64max in *; lia)
    end.

Ltac u64_lia := u64_simpl; unfold is_u64, two64, u64max in *; lia.

(** ** Lemmas on the monad *)

Lemma bind_Ret {S A B} (m : M S A) (k : A -> M S B) s r :
  bind m k s = Ret r <-> exists a s1, m s = Ret (a, s1) /\ k a s1 = Ret r.
Proof.
  unfold bind. destruct (m s) as [[a s1]|f].
  - split; [eauto|]. intros (a' & s' & [= <- <-] & H). exact H.
  - split; [discriminate|]. intros (a' & s' & H & _). discriminate.
Qed.

Lemma bind_run {S A B} (m : M S A) (k : A -> M S B) s a s1 :
  m s = Ret (a, s1) -> bind m k s = k a s1.
Proof. unfold bind. intros ->. reflexivity. Qed.

Lemma bind_get {S B} (k : S -> M S B) s : bind get k s = k s s.
Proof. reflexivity. Qed.

Lemma bind_gets {S A B} (f : S -> A) (k : A -> M S B) s : bind (gets f) k s = k (f s) s.
Proof. reflexivity. Qed.

Lemma bind_modify {S B} (f : S -> S) (k : unit -> M S B) s : bind (modify f) k s = k tt (f s).
Proof. reflexivity. Qed.

Lemma bind_ret {S A B} (a : A) (k : A -> M S B) s : bind (ret a) k s = k a s.
Proof. reflexivity. Qed.

Lemma bind_bind {S A B C} (m : M S A) (f : A -> M S B) (g : B -> M S C) s :
  bind (bind m f) g s = bind m (fun a => bind (f a) g) s.
Proof. unfold bind. destruct (m s) as [[]|]; reflexivity. Qed.

Create Rewrite HintDb monad.
#[export] Hint Rewrite @bind_get @bind_gets @bind_modify @bind_ret @bind_bind : monad.

(** [msteps] runs the reads and assignments at the head of a method. *)
Ltac msteps := unfold when; repeat (progress (autorewrite with monad; cbv beta)).

Lemma obind_Ret {A B} (m : outcome A) (k : A -> outcome B) r :
  obind m k = Ret r <-> exists a, m = Ret a /\ k a = Ret r.
Proof.
  unfold obind. destruct m as [a|f].
  - split; [eauto|]. intros (a' & [= <-] & H). exact H.
  - split; [discriminate|]. intros (a' & H & _). discriminate.
Qed.

Lemma zoom_Ret {S T A} get put (m : M T A) (s : S) r :
  zoom get put m s = Ret r <->
  exists a t, m (get s) = Ret (a, t) /\ r = (a, put t s).
Proof.
  unfold zoom. destruct (m (get s)) as [[a t]|f].
  - split; [intros [= <-]; eauto|]. intros (a' & t' & [= <- <-] & ->). reflexivity.
  - split; [discriminate|]. intros (a' & t' & H & _). discriminate.
Qed.

Lemma getsO_Ret {S A} (f : S -> outcome A) s r :
  getsO f s = Ret r <-> exists a, f s = Ret a /\ r = (a, s).
Proof.
  unfold getsO. destruct (f s).
  - split; [intros [= <-]; eauto|]. intros (a' & [= <-] & ->). reflexivity.
  - split; [discriminate|]. intros (a' & H & _). discriminate.
Qed.

Lemma assert_Ret {S} b msg (s : S) r :
  assert b msg s = Ret r <-> b = true /\ r = (tt, s).
Proof. unfold assert, ret, abort. destruct b; split; [intros [= <-]; auto|intros [_ ->]; auto|discriminate|intros [[=] _]]. Qed.

Lemma oassert_Ret b msg r : oassert b msg = Ret r <-> b = true.
Proof. unfold oassert. destruct r, b; split; congruence. Qed.

(** [mdestr] turns "this run returned" hypotheses into the runs of its parts. *)
Ltac mdestr1 :=
  match goal with
  | H : bind _ _ _ = Ret _ |- _ =>
      let E := fresh "E" in apply bind_Ret in H as (? & ? & E & H)
  | H : obind _ _ = Ret _ |- _ =>
      let E := fresh "E" in apply obind_Ret in H as (? & E & H)
  | H : zoom _ _ _ _ = Ret _ |- _ =>
      let E := fresh "E" in apply zoom_Ret in H as (? & ? & H & E)
  | H : getsO _ _ = Ret _ |- _ =>
      let E := fresh "E" in apply getsO_Ret in H as (? & H & E)
  | H : assert _ _ _ = Ret _ |- _ =>
      let E := fresh "E" in apply assert_Ret in H as (H & E)
  | H : oassert _ _ = Ret _ |- _ => apply oassert_Ret in H
  | H : ret _ _ = Ret _ |- _ => unfold ret in H
  | H : gets _ _ = Ret _ |- _ => unfold gets in H
  | H : get _ = Ret _ |- _ => unfold get in H
  | H : modify _ _ = Ret _ |- _ => unfold modify in H
  | H : abort _ _ = Ret _ |- _ => discriminate H
  | H : Abort _ = Ret _ |- _ => discriminate H
  | H : Ret _ = Ret _ |- _ => injection H as H
  | H : _ = (_, _) |- _ => injection H as ?; subst
  | H : (_, _) = _ |- _ => injection H as ?; subst
  end.
Ltac mdestr := repeat (mdestr1; subst); subst.

(** [pres R m]: every run of [m] that returns relates the states before and
    after it by [R]. *)
Definition pres {S A} (R : S -> S -> Prop) (m : M S A) : Prop :=
  forall s a s', m s = Ret (a, s') -> R s s'.

(** [triple P m Q]: partial-correctness triple. *)
Definition triple {S A} (P : S -> Prop) (m : M S A) (Q : A -> S -> Prop) : Prop :=
  forall s a s', P s -> m s = Ret (a, s') -> Q a s'.

Create HintDb pres.

Section Pres.
Context {S : Type} (R : S -> S -> Prop) `{!PreOrder R}.

Lemma pres_ret {A} (a : A) : pres R (ret a).
Proof. intros s a' s' [= <- <-]. reflexivity. Qed.

Lemma pres_bind {A B} (m : M S A) (k : A -> M S B) :
  pres R m -> (forall a, pres R (k a)) -> pres R (bind m k).
Proof.
  intros Hm Hk s b s'' H. apply bind_Ret in H as (a & s' & H1 & H2).
  transitivity s'; [eapply Hm|eapply Hk]; eassumption.
Qed.

Lemma pres_get : pres R get.
Proof. intros s a' s' [= <- <-]. reflexivity. Qed.

Lemma pres_gets {A} (f : S -> A) : pres R (gets f).
Proof. intros s a' s' [= <- <-]. reflexivity. Qed.

Lemma pres_getsO {A} (f : S -> outcome A) : pres R (getsO f).
Proof. intros s a s' H. apply getsO_Ret in H as (? & _ & [= -> ->]). reflexivity. Qed.

Lemma pres_modify (f : S -> S) : (forall s, R s (f s)) -> pres R (modify f).
Proof. intros H s a s' [= <- <-]. apply H. Qed.

Lemma pres_abort {A} f : pres R (@abort S A f).
Proof. intros s a s' [=]. Qed.

Lemma pres_assert b msg : pres R (assert b msg).
Proof. intros s a s' H. apply assert_Ret in H as (_ & [= -> ->]). reflexivity. Qed.

Lemma pres_if {A} (b : bool) (m1 m2 : M S A) :
  pres R m1 -> pres R m2 -> pres R (if b then m1 else m2).
Proof. destruct b; auto. Qed.

Lemma pres_when b (m : M S unit) : pres R m -> pres R (when b m).
Proof. destruct b; [auto|]. intros _. apply pres_ret. Qed.

Lemma pres_foreach {X} (l : list X) (body : X -> M S unit) :
  (forall x, pres R (body x)) -> pres R (foreach l body).
Proof.
  intros H. induction l as [|x l IH]; simpl; [apply pres_ret|].
  apply pres_bind; auto.
Qed.

Lemma pres_while n (body : M S bool) : pres R body -> pres R (whileM n body).
Proof.
  intros H. induction n as [|n IH]; simpl; [apply pres_abort|].
  apply pres_bind; [exact H|]. intros []; [exact IH|apply pres_ret].
Qed.

Lemma pres_zoom {T A} (get : S -> T) put (m : M T A) :
  (forall s t a, m (get s) = Ret (a, t) -> R s (put t s)) -> pres R (zoom get put m).
Proof. intros H s a s' E. apply zoom_Ret in E as (? & ? & E & [= -> ->]). eauto. Qed.
End Pres.

(** What a call returns may matter for the rest. *)
Lemma pres_bind_post {S A B} (R : S -> S -> Prop) `{!PreOrder R} (m : M S A) (k : A -> M S B) (Q : A -> Prop) :
  pres R m -> (forall s a s', m s = Ret (a, s') -> Q a) -> (forall a, Q a -> pres R (k a)) -> pres R (bind m k).
Proof.
  intros Hm HQ Hk s b s' E. apply bind_Ret in E as (a & s1 & E1 & E). etransitivity; [by eapply Hm|]. eapply Hk; [by eapply HQ|done].
Qed.

#[export] Hint Resolve pres_ret pres_bind pres_get pres_gets pres_getsO pres_abort pres_assert
  pres_if pres_when pres_foreach pres_while : pres.

(** [pres_tac] follows the structure of a method; [pres_leaf] may be given to
    close what the hints do not. *)
Ltac pres_step :=
  match goal with
  | |- pres _ (let '(_, _) := ?x in _) => destruct x
  | |- pres _ (bind _ _) => apply pres_bind; [typeclasses eauto| |intros ?]
  | |- pres _ (when _ _) => apply pres_when; [typeclasses eauto|]
  | |- pres _ (foreach _ _) => apply pres_foreach; [typeclasses eauto|intros ?]
  | |- pres _ (if ?b then _ else _) => destruct b
  | |- pres _ (match ?x with _ => _ end) => destruct x
  | |- pres _ (ret _) => apply pres_ret; typeclasses eauto
  | |- pres _ get => apply pres_get; typeclasses eauto
  | |- pres _ (gets _) => apply pres_gets; typeclasses eauto
  | |- pres _ (getsO _) => apply pres_getsO; typeclasses eauto
  | |- pres _ (abort _) => apply pres_abort
  | |- pres _ (assert _ _) => apply pres_assert; typeclasses eauto
  end.
Ltac pres_tac leaf := repeat first [pres_step | leaf].

(** [ends m s]: the run of [m] from [s] does not run out of fuel. *)
Definition ends {S A} (m : M S A) (s : S) : Prop := m s <> Abort NoFuel.

Lemma ends_Ret {S A} (m : M S A) s r : m s = Ret r -> ends m s.
Proof. unfold ends. by intros ->. Qed.

Lemma ends_bind {S A B} (m : M S A) (k : A -> M S B) s :
  ends m s -> (forall a s', m s = Ret (a, s') -> ends (k a) s') -> ends (bind m k) s.
Proof.
  unfold ends, bind. intros Hm Hk. destruct (m s) as [[a s']|f]; [by apply Hk|]. congruence.
Qed.

Lemma ends_getsO {S A} (f : S -> outcome A) s : f s <> Abort NoFuel -> ends (getsO f) s.
Proof. unfold ends, getsO. destruct (f s); [done|]. congruence. Qed.

Lemma ends_zoom {S T A} (view : S -> T) put (m : M T A) s : ends m (view s) -> ends (zoom view put m) s.
Proof. unfold ends, zoom. destruct (m (view s)) as [[]|]; [done|]. congruence. Qed.

Lemma obind_ends {A B} (m : outcome A) (k : A -> outcome B) :
  m <> Abort NoFuel -> (forall a, m = Ret a -> k a <> Abort NoFuel) -> obind m k <> Abort NoFuel.
Proof. destruct m; cbn; [auto|]. congruence. Qed.

(** [nofuel m]: no run of [m] runs out of fuel. *)
Definition nofuel {S A} (m : M S A) : Prop := forall s, ends m s.

Lemma nofuel_bind {S A B} (m : M S A) (k : A -> M S B) : nofuel m -> (forall a, nofuel (k a)) -> nofuel (bind m k).
Proof. intros Hm Hk s. apply ends_bind; [apply Hm|]. intros a s' _. apply Hk. Qed.

Lemma nofuel_foreach {S X} (l : list X) (body : X -> M S unit) : (forall x, nofuel (body x)) -> nofuel (foreach l body).
Proof. intros H. induction l as [|x l IH]; cbn [foreach]; [done|]. by apply nofuel_bind. Qed.

Lemma nofuel_zoom {S T A} (view : S -> T) put (m : M T A) : nofuel m -> nofuel (zoom view put m).
Proof. intros H s. apply ends_zoom, H. Qed.

Lemma nofuel_getsO {S A} (f : S -> outcome A) : (forall s, f s <> Abort NoFuel) -> nofuel (getsO f).
Proof. intros H s. apply ends_getsO, H. Qed.

Lemma nofuel_assert {S} b msg : nofuel (S := S) (assert b msg).
Proof. intros s. by destruct b. Qed.

Lemma oassert_ends b msg : oassert b msg <> Abort NoFuel.
Proof. by destruct b. Qed.

(** [nofuel_tac leaf] follows the structure of a method or of an outcome. *)
Ltac nofuel_step :=
  match goal with
  | |- nofuel (let '(_, _) := ?x in _) => destruct x
  | |- nofuel (bind _ _) => apply nofuel_bind; [|intros ?]
  | |- nofuel (foreach _ _) => apply nofuel_foreach; intros ?
  | |- nofuel (zoom _ _ _) => apply nofuel_zoom
  | |- nofuel (getsO _) => apply nofuel_getsO; intros ?
  | |- nofuel (when ?b _) => destruct b; unfold when
  | |- nofuel (assert _ _) => apply nofuel_assert
  | |- nofuel (if ?b then _ else _) => destruct b
  | |- nofuel (match ?x with _ => _ end) => destruct x
  | |- nofuel (ret _) => intros ?; discriminate
  | |- nofuel get => intros ?; discriminate
  | |- nofuel (gets _) => intros ?; discriminate
  | |- nofuel (modify _) => intros ?; discriminate
  | |- nofuel (abort _) => intros ?; discriminate
  | |- obind _ _ <> Abort NoFuel => apply obind_ends; [|intros ? ?]
  | |- oassert _ _ <> Abort NoFuel => apply oassert_ends
  | |- (let '(_, _) := ?x in _) <> Abort NoFuel => destruct x
  | |- (if ?b then _ else _) <> Abort NoFuel => destruct b
  | |- (match ?x with _ => _ end) <> Abort NoFuel => destruct x
  | |- Ret _ <> _ => discriminate
  | |- Abort _ <> _ => discriminate
  end.
Ltac nofuel_tac leaf := repeat first [nofuel_step | leaf].

(** A loop whose body decreases a measure ends. *)
Lemma ends_while {S} (I : S -> Prop) (measure : S -> Z) (body : M S bool) :
  (forall s, I s -> 0 <= measure s) -> (forall s, I s -> ends body s) ->
  (forall s b s', I s -> body s = Ret (b, s') -> I s' /\ (b = true -> measure s' < measure s)) ->
  forall n s, I s -> measure s < Z.of_nat n -> ends (whileM n body) s.
Proof.
  intros Hpos Hends Hstep n. induction n as [|n IH]; intros s Hs Hn; [specialize (Hpos s Hs); lia|].
  cbn [whileM]. apply ends_bind; [by apply Hends|]. intros b s' E. destruct (Hstep s b s' Hs E) as [Hs' Hm].
  destruct b; [|by eapply ends_Ret]. apply IH; [done|]. specialize (Hm eq_refl). lia.
Qed.

(** ** Finite sets *)

(** [set_point k] proves a relation between finite sets by looking at one
    element, which is [k] or not. *)
Ltac set_point k :=
  set_unfold;
  let x := fresh "x" in intros x;
  repeat match goal with H : forall _ : Z, _ |- _ => specialize (H x) end;
  destruct (decide (x = k)); subst; tauto.

(** ** Lists indexed by machine integers *)

(** [v[i]] with an index of type [size_t]: out of range is undefined. *)
Definition vec_at {A} (l : list A) (i : Z) : outcome A :=
  match l !! Z.to_nat i with
  | Some x => if 0 <=? i then Ret x else Abort Undefined
  | None => Abort Undefined
  end.

Lemma vec_at_Ret {A} (l : list A) i x :
  vec_at l i = Ret x <-> 0 <= i /\ l !! Z.to_nat i = Some x.
Proof.
  unfold vec_at. destruct (l !! Z.to_nat i) as [y|] eqn:E.
  - destruct (Z.leb_spec 0 i); split.
    + intros [= ->]. auto.
    + intros [_ [= ->]]. auto.
    + discriminate.
    + lia.
  - split; [discriminate|]. intros [_ [=]].
Qed.

Lemma vec_at_lt {A} (l : list A) i : 0 <= i < zlen l -> exists x, vec_at l i = Ret x.
Proof.
  intros H. destruct (lookup_lt_is_Some_2 l (Z.to_nat i)) as [x Hx]; [lia|].
  exists x. apply vec_at_Ret. auto with lia.
Qed.

Lemma vec_at_ends {A} (l : list A) i : vec_at l i <> Abort NoFuel.
Proof. unfold vec_at. destruct (l !! _); [|done]. by destruct (0 <=? i). Qed.

(** ** Lemmas on strings *)

Lemma string_app_length (a b : string) : String.length (a +:+ b) = (String.length a + String.length b)%nat.
Proof. induction a as [|x a IH]; [done|]. exact (f_equal S IH). Qed.
