(* ===== verification/Inflights.v ===== *)
(** * Inflights: the window of unacknowledged appends

    Model of [lib/core/inflights.cc].  The class keeps a ring buffer in a
    lazily allocated vector; [buffer_cap_] is [buffer_.capacity()], which the
    code tests to know whether the buffer is allocated.  [DEBUG_ASSERT] is
    modelled as in a debug build.  The theorems show that the ring buffer
    implements a bounded queue with a delayed capacity change
    ([Window]), that no operation reads or writes outside the buffer, and that
    the only abort is [Add] on a full window. *)

From S2P Require Import Prelude.

Record Inflights := mkInflights {
  start_ : Z;
  count_ : Z;
  buffer_ : list Z;
  buffer_cap_ : Z;
  capacity_ : Z;
  incoming_capacity_ : option Z
}.
#[export] Instance Inflights_eta : Eta Inflights := fun f =>
  mkInflights (start_ f) (count_ f) (buffer_ f) (buffer_cap_ f) (capacity_ f)
    (incoming_capacity_ f).

(** [Inflights::Inflights(capacity)] *)
Definition new (capacity : Z) : Inflights := mkInflights 0 0 [] 0 capacity None.

(** [buffer_ = std::vector(); buffer_.reserve(n)] *)
Definition fresh_buffer (n : Z) (f : Inflights) : Inflights :=
  f <| buffer_ := [] |> <| buffer_cap_ := n |>.

(** The two [insert] calls that linearise a wrapped window; an iterator past
    the end of the vector is undefined. *)
Definition unwrap_buffer (f : Inflights) : outcome (list Z) :=
  let n := (count_ f -! (capacity_ f -! start_ f)) in
  if (start_ f <=? zlen (buffer_ f)) && (n <=? zlen (buffer_ f))
  then Ret (drop (Z.to_nat (start_ f)) (buffer_ f) ++ take (Z.to_nat n) (buffer_ f))
  else Abort Undefined.

Definition SetCapacity (incoming_capacity : Z) : M Inflights unit :=
  let! f := get in
  if capacity_ f =? incoming_capacity then set! incoming_capacity_ := None
  else if capacity_ f <? incoming_capacity then
    (if (start_ f +! count_ f) <=? capacity_ f then
       when (0 <? buffer_cap_ f)
         (set! buffer_cap_ := Z.max (buffer_cap_ f) incoming_capacity)
     else
       assert (capacity_ f =? zlen (buffer_ f)) "capacity_ == buffer_.size()" ;;;
       let! buffer := getsO unwrap_buffer in
       set! buffer_ := buffer ;;;
       set! buffer_cap_ := incoming_capacity ;;;
       set! start_ := 0) ;;;
    set! capacity_ := incoming_capacity ;;;
    set! incoming_capacity_ := None
  else if count_ f =? 0 then
    set! capacity_ := incoming_capacity ;;;
    set! incoming_capacity_ := None ;;;
    set! start_ := 0 ;;;
    when (0 <? buffer_cap_ f) (modify (fresh_buffer incoming_capacity))
  else set! incoming_capacity_ := Some incoming_capacity.

Definition Reset : M Inflights unit :=
  set! count_ := 0 ;;;
  set! start_ := 0 ;;;
  modify (fresh_buffer 0) ;;;
  let! f := get in
  match incoming_capacity_ f with
  | Some c => set! capacity_ := c ;;; set! incoming_capacity_ := None
  | None => ret tt
  end.

(** The loop of [FreeTo]: [n] is [count_ - i], so the guard [i < count_] is
    [n > 0]. *)
Fixpoint FreeTo_loop (n : nat) (to : Z) (f : Inflights) (i idx : Z) : outcome (Z * Z) :=
  match n with
  | O => Ret (i, idx)
  | S n' =>
      let? b := vec_at (buffer_ f) idx in
      if to <? b then Ret (i, idx)
      else
        let idx1 := idx +! 1 in
        let idx2 := if capacity_ f <=? idx1 then idx1 -! capacity_ f else idx1 in
        FreeTo_loop n' to f (i +! 1) idx2
  end.

Definition FreeTo (to : Z) : M Inflights unit :=
  let! f := get in
  if count_ f =? 0 then ret tt
  else
    let! first := getsO (fun f => vec_at (buffer_ f) (start_ f)) in
    if to <? first then ret tt
    else
      let! (i, idx) := getsO (fun f =>
        FreeTo_loop (Z.to_nat (count_ f)) to f 0 (start_ f)) in
      set! count_ := (count_ f -! i) ;;;
      set! start_ := idx ;;;
      let! f := get in
      if count_ f =? 0 then
        match incoming_capacity_ f with
        | Some incoming_cap =>
            set! start_ := 0 ;;;
            set! capacity_ := incoming_cap ;;;
            modify (fresh_buffer incoming_cap) ;;;
            set! incoming_capacity_ := None
        | None => ret tt
        end
      else ret tt.

Definition FreeFirstOne : M Inflights unit :=
  let! f := get in
  if 0 <? count_ f then
    let! start := getsO (fun f => vec_at (buffer_ f) (start_ f)) in
    FreeTo start
  else ret tt.

Definition Full (f : Inflights) : bool :=
  if count_ f =? capacity_ f then true
  else match incoming_capacity_ f with
       | Some c => c <=? count_ f
       | None => false
       end.

Definition Add (inflight : Z) : M Inflights unit :=
  let! f := get in
  if Full f then abort (Panic "inflights full")
  else
    (if buffer_cap_ f =? 0 then
       assert (count_ f =? 0) "count_ == 0" ;;;
       assert (start_ f =? 0) "start_ == 0" ;;;
       assert (bool_decide (incoming_capacity_ f = None)) "!incoming_capacity_.has_value()" ;;;
       modify (fresh_buffer (capacity_ f))
     else ret tt) ;;;
    let! f := get in
    let next := start_ f +! count_ f in
    let next := if capacity_ f <=? next then next -! capacity_ f else next in
    assert (next <=? zlen (buffer_ f)) "next <= buffer_.size()" ;;;
    (if next =? zlen (buffer_ f) then set! buffer_ := (buffer_ f ++ [inflight])
     else set! buffer_ := <[Z.to_nat next := inflight]> (buffer_ f)) ;;;
    set! count_ := (count_ f +! 1).

Definition Count (f : Inflights) : Z := count_ f.
Definition BufferSize (f : Inflights) : Z := buffer_cap_ f.
Definition buffer_is_allocated (f : Inflights) : bool := 0 <? buffer_cap_ f.

(** ** The abstract window *)

Record Window := mkWindow {
  w_items : list Z;
  w_cap : Z;
  w_incoming : option Z
}.

Definition w_new (cap : Z) : Window := mkWindow [] cap None.

Definition w_full (w : Window) : bool :=
  (zlen (w_items w) =? w_cap w) ||
  match w_incoming w with Some c => c <=? zlen (w_items w) | None => false end.

Definition w_add (x : Z) (w : Window) : Window :=
  mkWindow (w_items w ++ [x]) (w_cap w) (w_incoming w).

(** A drained window takes over a pending capacity. *)
Definition w_settle (w : Window) : Window :=
  match w_items w, w_incoming w with
  | [], Some c => mkWindow [] c None
  | _, _ => w
  end.

Arguments w_settle : simpl never.

Fixpoint drop_acked (to : Z) (l : list Z) : list Z :=
  match l with
  | [] => []
  | x :: l' => if to <? x then l else drop_acked to l'
  end.

Definition w_free_to (to : Z) (w : Window) : Window :=
  w_settle (mkWindow (drop_acked to (w_items w)) (w_cap w) (w_incoming w)).

Definition w_free_first (w : Window) : Window :=
  match w_items w with
  | [] => w
  | x :: _ => w_free_to x w
  end.

Definition w_set_capacity (n : Z) (w : Window) : Window :=
  if n <? w_cap w then w_settle (mkWindow (w_items w) (w_cap w) (Some n))
  else mkWindow (w_items w) n None.

Definition w_reset (w : Window) : Window :=
  w_settle (mkWindow [] (w_cap w) (w_incoming w)).

(** The contents of the ring: [count_] elements from [start_], wrapping to the
    beginning of the buffer. *)
Definition contents (f : Inflights) : list Z :=
  take (Z.to_nat (count_ f)) (drop (Z.to_nat (start_ f)) (buffer_ f) ++ buffer_ f).

Definition window (f : Inflights) : Window :=
  mkWindow (contents f) (capacity_ f) (incoming_capacity_ f).

Inductive op :=
| OpSetCapacity (n : Z)
| OpReset
| OpFreeTo (to : Z)
| OpFreeFirstOne
| OpAdd (x : Z).

Definition run (o : op) : M Inflights unit :=
  match o with
  | OpSetCapacity n => SetCapacity n
  | OpReset => Reset
  | OpFreeTo to => FreeTo to
  | OpFreeFirstOne => FreeFirstOne
  | OpAdd x => Add x
  end.

Definition w_run (o : op) (w : Window) : option Window :=
  match o with
  | OpSetCapacity n => Some (w_set_capacity n w)
  | OpReset => Some (w_reset w)
  | OpFreeTo to => Some (w_free_to to w)
  | OpFreeFirstOne => Some (w_free_first w)
  | OpAdd x => if w_full w then None else Some (w_add x w)
  end.

(** Capacities the code can be given. *)
Definition op_ok (o : op) : Prop :=
  match o with OpSetCapacity n => 0 <= n < 2 ^ 62 | _ => True end.

(** The representation invariant. *)
Record wf (f : Inflights) : Prop := {
  wf_start : 0 <= start_ f <= zlen (buffer_ f);
  wf_count : 0 <= count_ f <= capacity_ f;
  wf_cap : capacity_ f < 2 ^ 62;
  wf_size : zlen (buffer_ f) <= capacity_ f;
  wf_wrap : start_ f + count_ f <= zlen (buffer_ f) \/
            zlen (buffer_ f) = capacity_ f;
  wf_start_lt : start_ f = 0 \/ start_ f < capacity_ f;
  wf_alloc : buffer_cap_ f = 0 /\ zlen (buffer_ f) = 0 \/
             capacity_ f <= buffer_cap_ f /\ 0 < buffer_cap_ f;
  wf_incoming : forall c, incoming_capacity_ f = Some c ->
                0 < count_ f /\ 0 <= c < capacity_ f
}.

(** ** The ring segment *)

Definition seg (b : list Z) (s n : nat) : list Z := take n (drop s b ++ b).

Lemma contents_seg f : contents f = seg (buffer_ f) (Z.to_nat (start_ f)) (Z.to_nat (count_ f)).
Proof. reflexivity. Qed.

Lemma seg_length b s n : (s <= length b)%nat -> (n <= length b)%nat -> length (seg b s n) = n.
Proof. intros Hs Hn. unfold seg. rewrite length_take, length_app, length_drop. lia. Qed.

Lemma seg_lookup b s n k : (s <= length b)%nat -> (n <= length b)%nat ->
  seg b s n !! k =
    if decide (k < n)%nat
    then b !! (if decide (s + k < length b)%nat then s + k else s + k - length b)%nat
    else None.
Proof.
  intros Hs Hn. unfold seg. case_decide as Hk.
  - rewrite lookup_take_lt by lia. case_decide.
    + rewrite lookup_app_l, lookup_drop by (rewrite length_drop; lia). done.
    + rewrite lookup_app_r by (rewrite length_drop; lia).
      f_equal. rewrite length_drop. lia.
  - apply lookup_ge_None. rewrite length_take. lia.
Qed.

(** One step of the ring: the segment of length [S n] at [s] is the element at
    [s] followed by the segment at the next position. *)
Lemma seg_cons b s n c x : b !! s = Some x -> (n < length b)%nat ->
  (s + S n <= length b)%nat \/ length b = c -> (s < c)%nat -> (length b <= c)%nat ->
  seg b s (S n) = x :: seg b (if decide (c <= s + 1) then s + 1 - c else s + 1)%nat n.
Proof.
  intros Hx Hn Hw Hc Hb. unfold seg.
  rewrite (drop_S _ x) by done. simpl. f_equal.
  case_decide; [|f_equal; f_equal; f_equal; lia].
  assert (length b <= S s)%nat by (apply lookup_lt_Some in Hx; lia).
  rewrite (drop_ge b (S s)) by done. simpl.
  destruct Hw as [Hw|Hw].
  - assert (n = 0)%nat by lia. subst n. done.
  - replace (s + 1 - c)%nat with 0%nat by (apply lookup_lt_Some in Hx; lia).
    rewrite drop_0, take_app_le by lia. done.
Qed.

Lemma seg_nil b s : seg b s 0 = [].
Proof. reflexivity. Qed.

(** Linear segment: nothing wraps. *)
Lemma seg_linear b s n : (s + n <= length b)%nat -> seg b s n = take n (drop s b).
Proof. intros H. unfold seg. rewrite take_app_le; [done|]. rewrite length_drop. lia. Qed.

Lemma seg_push b s n x : (s + n = length b)%nat ->
  seg (b ++ [x]) s (S n) = seg b s n ++ [x].
Proof.
  intros H. rewrite !seg_linear by (rewrite ?length_app; simpl; lia).
  rewrite drop_app_le by lia.
  rewrite !take_ge by (rewrite ?length_app, length_drop; simpl; lia). done.
Qed.

Lemma seg_insert b s n x p : (s <= length b)%nat -> (n < length b)%nat ->
  p = (if decide (s + n < length b) then s + n else s + n - length b)%nat ->
  seg (<[p := x]> b) s (S n) = seg b s n ++ [x].
Proof.
  intros Hs Hn ->. apply list_eq. intros k.
  rewrite seg_lookup by (rewrite ?length_insert; lia).
  rewrite length_insert.
  destruct (decide (k < n)%nat) as [Hk|Hk].
  - rewrite lookup_app_l by (rewrite seg_length; lia).
    rewrite seg_lookup by lia.
    rewrite (decide_True (P := (k < n)%nat)), (decide_True (P := (k < S n)%nat)) by lia.
    apply list_lookup_insert_ne. repeat case_decide; lia.
  - rewrite lookup_app_r by (rewrite seg_length; lia).
    rewrite seg_length by lia.
    destruct (decide (k = n)) as [->|].
    + rewrite Nat.sub_diag, (decide_True (P := (n < S n)%nat)) by lia. simpl.
      apply list_lookup_insert_eq. repeat case_decide; lia.
    + rewrite decide_False by lia.
      symmetry. apply lookup_ge_None. simpl. lia.
Qed.

Lemma drop_acked_suffix to l : exists k, drop_acked to l = drop k l /\ (k <= length l)%nat.
Proof.
  induction l as [|x l (k & IH & Hk)]; simpl; [exists 0%nat; auto|].
  destruct (to <? x); [exists 0%nat; split; [done|lia]|]. exists (S k). split; [done|lia].
Qed.

Lemma contents_length f : wf f -> zlen (contents f) = count_ f.
Proof.
  intros W. rewrite contents_seg, seg_length; destruct W; lia.
Qed.

Lemma wf_new c : 0 <= c < 2 ^ 62 -> wf (new c).
Proof. intros H. constructor; simpl; try lia; try discriminate. Qed.

(** A window segment inside a buffer: what [FreeTo] keeps while it walks. *)
Definition in_ring (b : list Z) (c s n : Z) : Prop :=
  0 <= s /\ 0 <= n <= zlen b /\ zlen b <= c < 2 ^ 62 /\
  (s = 0 \/ s < c) /\ s <= zlen b /\
  (s + n <= zlen b \/ zlen b = c).

Lemma wf_in_ring f : wf f -> in_ring (buffer_ f) (capacity_ f) (start_ f) (count_ f).
Proof. intros []. unfold in_ring. lia. Qed.

Lemma FreeTo_loop_spec to f n i idx :
  in_ring (buffer_ f) (capacity_ f) idx (Z.of_nat n) -> 0 <= i -> i + Z.of_nat n < 2 ^ 62 ->
  exists k idx', (k <= n)%nat /\
    FreeTo_loop n to f i idx = Ret (i + Z.of_nat k, idx') /\
    in_ring (buffer_ f) (capacity_ f) idx' (Z.of_nat (n - k)) /\
    seg (buffer_ f) (Z.to_nat idx') (n - k) =
      drop_acked to (seg (buffer_ f) (Z.to_nat idx) n).
Proof.
  revert i idx. induction n as [|n IH]; intros i idx Hr Hi Hin.
  - exists 0%nat, idx. repeat split; try apply Hr; try lia. simpl. f_equal. f_equal. lia.
  - simpl. destruct (vec_at_lt (buffer_ f) idx) as [x Hx]; [unfold in_ring in Hr; lia|].
    rewrite Hx. simpl. apply vec_at_Ret in Hx as [Hidx Hx].
    rewrite (seg_cons _ _ _ (Z.to_nat (capacity_ f)) x Hx) by (unfold in_ring in Hr; lia).
    simpl. destruct (to <? x) eqn:Hto.
    + exists 0%nat, idx. split; [lia|]. split; [f_equal; f_equal; lia|].
      split; [exact Hr|]. rewrite Nat.sub_0_r.
      apply seg_cons; [done| |unfold in_ring in Hr; lia..]. unfold in_ring in Hr; lia.
    + set (idx' := if capacity_ f <=? (idx +! 1) then (idx +! 1) -! capacity_ f else idx +! 1).
      assert (Hidx' : idx' = if decide (capacity_ f <= idx + 1) then idx + 1 - capacity_ f else idx + 1).
      { unfold in_ring in Hr. subst idx'. u64_simpl. case_decide; destruct (Z.leb_spec (capacity_ f) (idx + 1)); u64_lia. }
      destruct (IH (i +! 1) idx') as (k & idx'' & Hk & E & Hr' & Hseg).
      { unfold in_ring in *. rewrite Hidx'. case_decide; lia. }
      { unfold in_ring in Hr. u64_lia. }
      { unfold in_ring in Hr. u64_lia. }
      exists (S k), idx''. split; [lia|]. rewrite E. split.
      { unfold in_ring in Hr. u64_simpl. f_equal. f_equal. lia. }
      split; [exact Hr'|]. simpl. rewrite Hseg. f_equal. f_equal.
      rewrite Hidx'. unfold in_ring in Hr. do 2 case_decide; lia.
Qed.

(** ** Each operation implements its abstract counterpart *)

Definition refines (m : M Inflights unit) (w : Window -> Window) : Prop :=
  forall f, wf f -> exists f', m f = Ret (tt, f') /\ wf f' /\ window f' = w (window f).

(** Runs the straight-line parts of an operation. *)
Ltac step_ops :=
  unfold bind, get, gets, getsO, modify, ret, when, assert, abort, upd, fresh_buffer; simpl.

Lemma contents_nil f : count_ f = 0 -> contents f = [].
Proof. intros H. unfold contents. rewrite H. reflexivity. Qed.

Lemma w_settle_ne w : w_items w <> [] -> w_settle w = w.
Proof. unfold w_settle. destruct (w_items w); [done|]. destruct (w_incoming w); done. Qed.

Lemma contents_ne f : wf f -> 0 < count_ f -> contents f <> [].
Proof. intros W H E. apply contents_length in W. rewrite E in W. simpl in W. lia. Qed.

Lemma wf_count_0_incoming f : wf f -> count_ f = 0 -> incoming_capacity_ f = None.
Proof.
  intros W H. destruct (incoming_capacity_ f) as [c|] eqn:E; [|done].
  apply (wf_incoming f W) in E. lia.
Qed.

Lemma refines_FreeTo to : refines (FreeTo to) (w_free_to to).
Proof.
  intros f W. unfold FreeTo. step_ops.
  destruct (Z.eqb_spec (count_ f) 0) as [H0|H0].
  { exists f. split; [done|]. split; [done|]. unfold window, w_free_to, w_settle. simpl.
    rewrite contents_nil, wf_count_0_incoming by done. done. }
  pose proof (wf_in_ring f W) as Hr.
  destruct (vec_at_lt (buffer_ f) (start_ f)) as [x Hx].
  { destruct W; lia. }
  rewrite Hx. apply vec_at_Ret in Hx as [_ Hx].
  assert (Hc : contents f = x :: tail (contents f)).
  { rewrite contents_seg. destruct (Z.to_nat (count_ f)) as [|n] eqn:En; [destruct W; lia|].
    rewrite (seg_cons _ _ _ (Z.to_nat (capacity_ f)) x Hx); destruct W; try lia. done. }
  destruct (to <? x) eqn:Hto.
  { exists f. split; [done|]. split; [done|]. unfold window, w_free_to. simpl.
    rewrite Hc. simpl. rewrite Hto. rewrite w_settle_ne by done. done. }
  destruct (FreeTo_loop_spec to f (Z.to_nat (count_ f)) 0 (start_ f))
    as (k & idx & Hk & E & Hr' & Hseg); [rewrite Z2Nat.id by (destruct W; lia); done|lia|destruct W; lia|].
  rewrite Z.add_0_l in E. rewrite E. rewrite <- contents_seg in Hseg. simpl.
  assert (Hcnt : count_ f -! Z.of_nat k = Z.of_nat (Z.to_nat (count_ f) - k)).
  { destruct W. u64_simpl. lia. }
  rewrite Hcnt. unfold in_ring in Hr'.
  destruct (Z.eqb_spec (Z.of_nat (Z.to_nat (count_ f) - k)) 0) as [Hz|Hz];
    [destruct (incoming_capacity_ f) as [c|] eqn:Einc|].
  - eexists. split; [reflexivity|].
    pose proof (wf_incoming f W c Einc). split.
    { destruct W. constructor; simpl; try lia; try discriminate. }
    unfold window, w_free_to. simpl. rewrite <- Hseg, Einc.
    replace (Z.to_nat (count_ f) - k)%nat with 0%nat by lia. done.
  - eexists. split; [reflexivity|]. split.
    { destruct W. constructor; simpl; try lia; try congruence. }
    unfold window, w_free_to. simpl. rewrite <- Hseg, Einc.
    replace (Z.to_nat (count_ f) - k)%nat with 0%nat by lia. done.
  - eexists. split; [reflexivity|].
    assert (W' : wf (f <| count_ := Z.of_nat (Z.to_nat (count_ f) - k) |> <| start_ := idx |>)).
    { destruct W. constructor; simpl; try lia. intros c Hc'. apply wf_incoming0 in Hc'. lia. }
    split; [exact W'|].
    unfold window, w_free_to. simpl. rewrite <- Hseg.
    rewrite w_settle_ne; simpl.
    + f_equal. rewrite contents_seg. simpl. f_equal. lia.
    + intros Hn. apply (f_equal length) in Hn. rewrite seg_length in Hn; simpl in Hn; lia.
Qed.

Lemma refines_FreeFirstOne : refines FreeFirstOne w_free_first.
Proof.
  intros f W. unfold FreeFirstOne. step_ops.
  destruct (Z.ltb_spec 0 (count_ f)) as [H|H].
  - destruct (vec_at_lt (buffer_ f) (start_ f)) as [x Hx]; [destruct W; lia|].
    rewrite Hx. apply vec_at_Ret in Hx as [_ Hx].
    destruct (refines_FreeTo x f W) as (f' & E & W' & Hw).
    exists f'. split; [exact E|]. split; [exact W'|]. rewrite Hw.
    unfold w_free_first. simpl.
    destruct (contents f) as [|y l] eqn:Hc; [by apply contents_ne in Hc|].
    enough (y = x) by congruence. apply (f_equal head) in Hc. simpl in Hc.
    rewrite contents_seg in Hc. destruct (Z.to_nat (count_ f)) as [|n] eqn:En; [lia|].
    rewrite (seg_cons _ _ _ (Z.to_nat (capacity_ f)) x Hx) in Hc; destruct W; try lia.
    simpl in Hc. congruence.
  - exists f. split; [done|]. split; [done|]. unfold w_free_first. simpl.
    rewrite contents_nil by (destruct W; lia). done.
Qed.

Lemma refines_Reset : refines Reset w_reset.
Proof.
  intros f W. unfold Reset. step_ops.
  destruct (incoming_capacity_ f) as [c|] eqn:Einc; eexists; (split; [reflexivity|]).
  - pose proof (wf_incoming f W c Einc).
    split; [destruct W; constructor; simpl; try lia; discriminate|].
    unfold window, w_reset, w_settle. simpl. rewrite Einc. done.
  - split; [destruct W; constructor; simpl; try lia; congruence|].
    unfold window, w_reset, w_settle. simpl. rewrite Einc. done.
Qed.

Lemma Full_window f : wf f -> Full f = w_full (window f).
Proof.
  intros W. unfold Full, w_full. simpl. rewrite contents_length by done.
  destruct (count_ f =? capacity_ f); done.
Qed.

(** Writing the next slot of the ring, in a buffer that is allocated. *)
Lemma Add_slot f x :
  wf f -> count_ f < capacity_ f ->
  capacity_ f <= buffer_cap_ f /\ 0 < buffer_cap_ f ->
  let next := start_ f +! count_ f in
  let next := if capacity_ f <=? next then next -! capacity_ f else next in
  let b := if next =? zlen (buffer_ f) then buffer_ f ++ [x]
           else <[Z.to_nat next := x]> (buffer_ f) in
  let f' := f <| buffer_ := b |> <| count_ := count_ f + 1 |> in
  next <= zlen (buffer_ f) /\ wf f' /\ contents f' = contents f ++ [x].
Proof.
  intros W Hlt Ha next0 next b f'.
  assert (Hn : next = if decide (capacity_ f <= start_ f + count_ f)
                      then start_ f + count_ f - capacity_ f else start_ f + count_ f).
  { subst next next0. destruct W. u64_simpl.
    case_decide; destruct (Z.leb_spec (capacity_ f) (start_ f + count_ f)); u64_lia. }
  assert (Hle : next <= zlen (buffer_ f)) by (rewrite Hn; destruct W; case_decide; lia).
  split; [exact Hle|].
  destruct (Z.eqb_spec next (zlen (buffer_ f))) as [He|He].
  - assert (Hsc : start_ f + count_ f = zlen (buffer_ f))
      by (rewrite Hn in He; destruct W; case_decide; lia).
    assert (zlen (buffer_ f) < capacity_ f) by (rewrite Hn in He; destruct W; case_decide; lia).
    subst f' b. split.
    + destruct W. constructor; simpl; rewrite ?length_app; simpl; try lia.
      intros c Hc. apply wf_incoming0 in Hc. lia.
    + rewrite !contents_seg. simpl.
      replace (Z.to_nat (count_ f + 1)) with (S (Z.to_nat (count_ f))) by (destruct W; lia).
      apply seg_push. destruct W; lia.
  - assert (count_ f < zlen (buffer_ f)) by (rewrite Hn in He, Hle; destruct W; case_decide; lia).
    subst f' b. split.
    + destruct W. constructor; simpl; rewrite ?length_insert; simpl; try lia;
        try (rewrite Hn in *; case_decide; lia).
      intros c Hc. apply wf_incoming0 in Hc. lia.
    + rewrite !contents_seg. simpl.
      replace (Z.to_nat (count_ f + 1)) with (S (Z.to_nat (count_ f))) by (destruct W; lia).
      apply seg_insert; [destruct W; lia..|].
      rewrite Hn in *. destruct W. do 2 case_decide; lia.
Qed.

(** The state in which [Add] writes its slot: the buffer is allocated. *)
Definition Add_alloc (f : Inflights) : Inflights :=
  if buffer_cap_ f =? 0 then fresh_buffer (capacity_ f) f else f.

Lemma Add_alloc_ok f : wf f -> count_ f < capacity_ f ->
  let g := Add_alloc f in
  wf g /\ contents g = contents f /\ capacity_ g = capacity_ f /\
  incoming_capacity_ g = incoming_capacity_ f /\ count_ g = count_ f /\
  capacity_ g <= buffer_cap_ g /\ 0 < buffer_cap_ g.
Proof.
  intros W Hlt. unfold Add_alloc. destruct (Z.eqb_spec (buffer_cap_ f) 0) as [Hb|Hb].
  - assert (count_ f = 0) by (destruct W; lia). unfold fresh_buffer, upd. simpl.
    split; [|rewrite !contents_nil by done; destruct W; simpl; repeat split; lia].
    destruct W. constructor; simpl; try lia. intros c Hc. apply wf_incoming0 in Hc. lia.
  - split; [exact W|]. destruct W. repeat split; lia.
Qed.

Lemma Add_spec x f : wf f ->
  if w_full (window f) then Add x f = Abort (Panic "inflights full")
  else exists f', Add x f = Ret (tt, f') /\ wf f' /\ window f' = w_add x (window f).
Proof.
  intros W. rewrite <- Full_window by done. unfold Add.
  rewrite (bind_run _ _ f f f eq_refl).
  destruct (Full f) eqn:Hfull; [done|].
  assert (Hlt : count_ f < capacity_ f).
  { unfold Full in Hfull. destruct (Z.eqb_spec (count_ f) (capacity_ f)); [done|]. destruct W; lia. }
  destruct (Add_alloc_ok f W Hlt) as (Wg & Hc & Hcap & Hinc & Hcnt & Ha).
  rewrite (bind_run _ _ f tt (Add_alloc f)); cycle 1.
  { unfold Add_alloc. destruct (Z.eqb_spec (buffer_cap_ f) 0) as [Hb|Hb]; [|done].
    assert (count_ f = 0 /\ start_ f = 0) as [H1 H2] by (destruct W; lia).
    rewrite bool_decide_true by (apply wf_count_0_incoming; done).
    rewrite H1, H2. done. }
  rewrite (bind_run _ _ _ (Add_alloc f) (Add_alloc f) eq_refl).
  revert Wg Hc Hcap Hinc Hcnt Ha. generalize (Add_alloc f). intros g Wg Hc Hcap Hinc Hcnt Ha.
  pose proof (Add_slot g x Wg ltac:(lia) Ha) as (Hle & W' & Hc'). revert Hle W' Hc'.
  set (next := if capacity_ g <=? _ then _ else _). intros Hle W' Hc'.
  step_ops. destruct (Z.leb_spec next (zlen (buffer_ g))); [|lia].
  rewrite (u64_id (count_ g + 1)) by (destruct W; unfold is_u64, two64; lia).
  unfold ret. destruct (next =? zlen (buffer_ g)); eexists; (split; [reflexivity|]);
    (split; [exact W'|]); unfold window, w_add; simpl; rewrite Hcap, Hinc, <- Hc;
    f_equal; exact Hc'.
Qed.

(** Growing a wrapped window linearises it. *)
Lemma unwrap_buffer_ok f : wf f -> capacity_ f < start_ f + count_ f ->
  unwrap_buffer f = Ret (contents f) /\ capacity_ f = zlen (buffer_ f).
Proof.
  intros W H. assert (Hs : zlen (buffer_ f) = capacity_ f) by (destruct W; lia).
  split; [|lia]. unfold unwrap_buffer.
  assert (Hn : count_ f -! (capacity_ f -! start_ f) = count_ f - (capacity_ f - start_ f))
    by (destruct W; u64_simpl; lia).
  rewrite Hn. destruct (Z.leb_spec (start_ f) (zlen (buffer_ f))); [|destruct W; lia].
  destruct (Z.leb_spec (count_ f - (capacity_ f - start_ f)) (zlen (buffer_ f))); [|destruct W; lia].
  simpl. f_equal. unfold contents.
  rewrite take_app_ge by (rewrite length_drop; destruct W; lia).
  f_equal. f_equal. rewrite length_drop. destruct W. lia.
Qed.

Lemma refines_SetCapacity n : 0 <= n < 2 ^ 62 -> refines (SetCapacity n) (w_set_capacity n).
Proof.
  intros Hn f W. unfold SetCapacity. rewrite (bind_run _ _ f f f eq_refl).
  unfold w_set_capacity. simpl.
  destruct (Z.eqb_spec (capacity_ f) n) as [He|He].
  { destruct (Z.ltb_spec n (capacity_ f)); [lia|]. step_ops.
    eexists. split; [reflexivity|]. split; [|unfold window; simpl; rewrite <- He; done].
    destruct W. constructor; simpl; try lia. discriminate. }
  destruct (Z.ltb_spec (capacity_ f) n) as [Hl|Hl].
  - destruct (Z.ltb_spec n (capacity_ f)); [lia|].
    rewrite (u64_id (start_ f + count_ f)) by (destruct W; unfold is_u64, two64; lia).
    destruct (Z.leb_spec (start_ f + count_ f) (capacity_ f)) as [Hw|Hw].
    + step_ops. assert (start_ f + count_ f <= zlen (buffer_ f)) by (destruct W; lia).
      destruct (Z.ltb_spec 0 (buffer_cap_ f)); (eexists; split; [reflexivity|]);
        (split; [destruct W; constructor; simpl; try lia; discriminate|done]).
    + destruct (unwrap_buffer_ok f W Hw) as [Eu Hs]. step_ops.
      rewrite (proj2 (Z.eqb_eq _ _) Hs). simpl. rewrite Eu.
      eexists. split; [reflexivity|].
      pose proof (contents_length f W) as Hcl. split.
      * destruct W; constructor; simpl; try lia; discriminate.
      * unfold window. simpl. f_equal. rewrite contents_seg. simpl.
        rewrite seg_linear, drop_0 by lia. apply take_ge. lia.
  - destruct (Z.ltb_spec n (capacity_ f)); [|lia].
    destruct (Z.eqb_spec (count_ f) 0) as [Hc|Hc].
    + step_ops. destruct (Z.ltb_spec 0 (buffer_cap_ f)); (eexists; split; [reflexivity|]);
        (split; [destruct W; constructor; simpl; try lia; discriminate|]);
        unfold window, w_settle; simpl; rewrite !contents_nil by done; done.
    + step_ops. eexists. split; [reflexivity|]. split.
      * destruct W; constructor; simpl; try lia. intros c [= <-]. lia.
      * rewrite w_settle_ne; [done|]. apply contents_ne; [done|destruct W; lia].
Qed.

(** The acknowledged prefix: with increasing contents, [FreeTo] drops exactly
    the entries that are not above [to]. *)
Lemma drop_acked_filter to l : StronglySorted Z.lt l ->
  drop_acked to l = filter (fun x => to < x) l.
Proof.
  induction 1 as [|x l Hs IH Hf]; [done|]. simpl. rewrite filter_cons.
  destruct (Z.ltb_spec to x) as [H|H].
  - rewrite decide_True by lia. f_equal.
    clear IH Hs. induction Hf as [|y l Hy Hf IH]; [done|].
    rewrite filter_cons_True by lia. f_equal. exact IH.
  - rewrite decide_False by lia. exact IH.
Qed.

(** C29: Every operation on the ring buffer of in-flight messages returns and does
    what the same operation does to a plain list with a capacity; adding to a
    full window aborts, and the buffer stays well formed. *)
Theorem inflights_refines_window o f : wf f -> op_ok o ->
  match w_run o (window f) with
  | Some w => exists f', run o f = Ret (tt, f') /\ wf f' /\ window f' = w
  | None => run o f = Abort (Panic "inflights full")
  end.
Proof.
  intros W Ho. destruct o as [n| |to| |x]; simpl.
  - exact (refines_SetCapacity n Ho f W).
  - exact (refines_Reset f W).
  - exact (refines_FreeTo to f W).
  - exact (refines_FreeFirstOne f W).
  - pose proof (Add_spec x f W) as H. destruct (w_full (window f)); exact H.
Qed.

(** A window of capacity 2 that has wrapped: entries 11 and 12 are in flight,
    12 in the first slot. *)
Definition wrapped_window : Inflights := mkInflights 1 2 [12; 11] 2 2 None.

Lemma wrapped_window_wf : wf wrapped_window.
Proof. constructor; simpl; try lia; discriminate. Defined.

Lemma inflights_refines_window_witness :
  exists f', run (OpFreeTo 11) wrapped_window = Ret (tt, f') /\ wf f' /\
             window f' = mkWindow [12] 2 None.
Proof. exact (inflights_refines_window (OpFreeTo 11) wrapped_window wrapped_window_wf I). Defined.
