(* ===== verification/Types.v ===== *)
(** * Data exchanged by the components

    Errors ([include/raftpp/core/error.h]), the Cap'n Proto structs of
    [proto/raftpp.capnp] as records, the enumerations of
    [include/raftpp/core], the helpers of [lib/core/util.cc], and the
    parameters of the model: the behaviour of code that is not in the
    repository (Cap'n Proto, crc32c, the random device) or that C++ leaves
    unspecified (the iteration order of unordered containers, the order
    [std::sort] gives to equivalent elements). *)

From S2P Require Import Prelude.

(** ** Errors *)

Inductive StorageErrorCode :=
| Compacted | Unavailable | LogTemporarilyUnavailable | SnapshotOutOfDate
| SnapshotTemporarilyUnavailable
| MetadataFileTooSmall | InvalidMetadataHeader | MetadataCrcMismatch
| HardStateParseError | ConfStateParseError | PeerAddressBookParseError
| CurrentSegmentNotFound | SegmentNotOpen | InvalidSegmentHeader
| IoUringNotBuilt | IoUringNotLinux | IoUringInitFailed | IoUringProbeMissingOp
| CorruptEntryRecord | EntryParseError | ZeroEntriesInSlice.

Inductive RaftErrorCode :=
| StepLocalMsg | StepPeerNotFound | ProposalDropped | RequestSnapshotDropped
| ChecksumMismatch | AlreadyStarted | ShuttingDown | LostLeadership
| IncompatibleStorage | ConfChangeParseError.

Inductive RpcErrorCode :=
| AddressPortMissing | AddressPortInvalid | AddressPortOutOfRange | BindFailed
| ListenFailed | UdpBindFailed | UdpRecvStartFailed | ConnectionClosed
| InvalidMagic | HeaderParseFailed | HandshakeParseFailed | PayloadParseFailed
| HandshakeTooShort | HandshakeInvalidMagic | HandshakeBufferTooSmall
| MessageTooLarge | Timeout.

Inductive ConfigErrorCode :=
| InvalidNodeId | HeartbeatTickTooSmall | ElectionTickTooSmall
| MaxInflightMessagesTooSmall | LeaseBasedReadRequiresCheckQuorum
| ListenAddressEmpty | DataDirectoryEmpty | NodeIdNotInInitialPeers.

Inductive ConfChangeErrorCode :=
| LearnersNextMustBeEmpty | AutoLeaveMustBeFalse | ConfigAlreadyJoint
| ZeroVoterConfigJoint | LeaveNonJointConfig | RemovedAllVoters
| CannotApplySimpleInJointConfig | MultipleVotersChangedWithoutJoint.

(** [RaftErrorInner]; the formatted text of a message is kept up to its
    format string. *)
Inductive RaftError :=
| EStorage (ec : StorageErrorCode)
| EStorageOther (message : string)
| ERaft (ec : RaftErrorCode)
| ERpc (ec : RpcErrorCode)
| EInvalidConfig (message : string)
| EConfChange (message : string)
| EFatal (message : string)
| EConfig (ec : ConfigErrorCode)
| EConfChangeCode (ec : ConfChangeErrorCode).

#[export] Instance StorageErrorCode_eq_dec : EqDecision StorageErrorCode.
Proof. solve_decision. Defined.
#[export] Instance RaftErrorCode_eq_dec : EqDecision RaftErrorCode.
Proof. solve_decision. Defined.
#[export] Instance RpcErrorCode_eq_dec : EqDecision RpcErrorCode.
Proof. solve_decision. Defined.
#[export] Instance ConfigErrorCode_eq_dec : EqDecision ConfigErrorCode.
Proof. solve_decision. Defined.
#[export] Instance ConfChangeErrorCode_eq_dec : EqDecision ConfChangeErrorCode.
Proof. solve_decision. Defined.
#[export] Instance RaftError_eq_dec : EqDecision RaftError.
Proof. solve_decision. Defined.

Inductive Result (A : Type) :=
| Ok (a : A)
| Err (e : RaftError).
Arguments Ok {A} a.
Arguments Err {A} e.

#[export] Instance Result_eq_dec {A} `{EqDecision A} : EqDecision (Result A).
Proof. solve_decision. Defined.

(** [RaftError::Is(StorageErrorCode)] *)
Definition is_storage (e : RaftError) (ec : StorageErrorCode) : bool :=
  bool_decide (e = EStorage ec).

(** [Unwrap] aborts on an error. *)
Definition Unwrap {A} (r : Result A) : outcome A :=
  match r with
  | Ok a => Ret a
  | Err _ => Abort (Panic "Unwrap")
  end.

(** Code that returns early with the error of a callee. *)
Definition rbind {A B} (r : Result A) (k : A -> Result B) : Result B :=
  match r with
  | Ok a => k a
  | Err e => Err e
  end.

(** A loop whose body may return early with an error. *)
Fixpoint foreachR {X} (l : list X) (body : X -> Result unit) : Result unit :=
  match l with
  | [] => Ok tt
  | x :: l' => rbind (body x) (fun _ => foreachR l' body)
  end.

Notation "'let*' x ':=' c 'in' k" := (rbind c (fun x => k))
  (at level 10, x pattern, c at level 100, k at level 200) : monad_scope.

(** ** Methods that return early with the error of a callee *)

Definition mrbind {S A B} (m : M S (Result A)) (k : A -> M S (Result B)) : M S (Result B) :=
  bind m (fun r => match r with Ok a => k a | Err e => ret (Err e) end).

Notation "'try!' x ':=' c 'in' k" := (mrbind c (fun x => k))
  (at level 10, x pattern, c at level 100, k at level 200) : monad_scope.

Definition rok {S A} (a : A) : M S (Result A) := ret (Ok a).
Definition rfail {S A} (e : RaftError) : M S (Result A) := ret (Err e).

(** A loop whose body may return early with an error. *)
Fixpoint foreachM {S X} (l : list X) (body : X -> M S (Result unit)) : M S (Result unit) :=
  match l with
  | [] => rok tt
  | x :: l' => try! _ := body x in foreachM l' body
  end.

(** ** Identifiers *)

Definition kInvalidIndex : Z := 0.
Definition kInvalidId : Z := 0.

(** ** Log entries *)

Inductive EntryType := EntryNormal | EntryConfChange | EntryConfChangeV2.

Record Entry := mkEntry {
  e_type : EntryType;
  e_term : Z;
  e_index : Z;
  e_data : string;
  e_context : string;
  e_checksum : Z
}.
#[export] Instance Entry_eta : Eta Entry := fun e =>
  mkEntry (e_type e) (e_term e) (e_index e) (e_data e) (e_context e) (e_checksum e).

(** [capnp_util::make<msg::Entry>()] *)
Definition empty_entry : Entry := mkEntry EntryNormal 0 0 "" "" 0.

(** ** Configurations and snapshots *)

Record ConfState := mkConfState {
  cs_voters : list Z;
  cs_learners : list Z;
  cs_voters_outgoing : list Z;
  cs_learners_next : list Z;
  cs_auto_leave : bool
}.
Definition empty_conf_state : ConfState := mkConfState [] [] [] [] false.

Record SnapshotMetadata := mkSnapshotMetadata {
  sm_conf_state : ConfState;
  sm_index : Z;
  sm_term : Z
}.

Record Snapshot := mkSnapshot {
  sn_data : string;
  sn_meta : SnapshotMetadata
}.
Definition empty_snapshot : Snapshot :=
  mkSnapshot "" (mkSnapshotMetadata empty_conf_state 0 0).
Definition sn_index (s : Snapshot) : Z := sm_index (sn_meta s).
Definition sn_term (s : Snapshot) : Z := sm_term (sn_meta s).

Record HardState := mkHardState {
  hs_term : Z;
  hs_vote : Z;
  hs_commit : Z
}.
#[export] Instance HardState_eta : Eta HardState := fun h =>
  mkHardState (hs_term h) (hs_vote h) (hs_commit h).
Definition empty_hard_state : HardState := mkHardState 0 0 0.

Record RaftState := mkRaftState {
  rs_hard_state : HardState;
  rs_conf_state : ConfState
}.
#[export] Instance RaftState_eta : Eta RaftState := fun r =>
  mkRaftState (rs_hard_state r) (rs_conf_state r).

Inductive ConfChangeTransition := CCAuto | CCImplicit | CCExplicit.
Inductive ConfChangeType := AddNode | RemoveNode | AddLearnerNode.

Record ConfChangeSingle := mkCCS {
  ccs_type : ConfChangeType;
  ccs_node_id : Z
}.

Record ConfChangeV2 := mkCCV2 {
  cc_transition : ConfChangeTransition;
  cc_changes : list ConfChangeSingle;
  cc_context : string
}.
Definition empty_conf_change_v2 : ConfChangeV2 := mkCCV2 CCAuto [] "".

(** ** Messages *)

Inductive MessageType :=
| MsgHup | MsgBeat | MsgPropose | MsgAppend | MsgAppendResponse
| MsgRequestVote | MsgRequestVoteResponse | MsgSnapshot | MsgHeartbeat
| MsgHeartbeatResponse | MsgUnreachable | MsgSnapStatus | MsgCheckQuorum
| MsgTransferLeader | MsgTimeoutNow | MsgReadIndex | MsgReadIndexResp
| MsgRequestPreVote | MsgRequestPreVoteResponse.

Record Message := mkMessage {
  m_type : MessageType;
  m_to : Z;
  m_from : Z;
  m_term : Z;
  m_log_term : Z;
  m_index : Z;
  m_entries : list Entry;
  m_commit : Z;
  m_commit_term : Z;
  m_snapshot : Snapshot;
  m_request_snapshot : Z;
  m_reject : bool;
  m_reject_hint : Z;
  m_context : string;
  m_priority : Z
}.
#[export] Instance Message_eta : Eta Message := fun m =>
  mkMessage (m_type m) (m_to m) (m_from m) (m_term m) (m_log_term m) (m_index m)
    (m_entries m) (m_commit m) (m_commit_term m) (m_snapshot m) (m_request_snapshot m)
    (m_reject m) (m_reject_hint m) (m_context m) (m_priority m).

(** [capnp_util::make<msg::Message>()]: every field at its default. *)
Definition empty_message : Message :=
  mkMessage MsgHup 0 0 0 0 0 [] 0 0 empty_snapshot 0 false 0 "" 0.

#[export] Instance EntryType_eq_dec : EqDecision EntryType.
Proof. solve_decision. Defined.
#[export] Instance Entry_eq_dec : EqDecision Entry.
Proof. solve_decision. Defined.
#[export] Instance ConfState_eq_dec : EqDecision ConfState.
Proof. solve_decision. Defined.
#[export] Instance SnapshotMetadata_eq_dec : EqDecision SnapshotMetadata.
Proof. solve_decision. Defined.
#[export] Instance Snapshot_eq_dec : EqDecision Snapshot.
Proof. solve_decision. Defined.
#[export] Instance HardState_eq_dec : EqDecision HardState.
Proof. solve_decision. Defined.
#[export] Instance ConfChangeTransition_eq_dec : EqDecision ConfChangeTransition.
Proof. solve_decision. Defined.
#[export] Instance ConfChangeType_eq_dec : EqDecision ConfChangeType.
Proof. solve_decision. Defined.
#[export] Instance ConfChangeSingle_eq_dec : EqDecision ConfChangeSingle.
Proof. solve_decision. Defined.
#[export] Instance ConfChangeV2_eq_dec : EqDecision ConfChangeV2.
Proof. solve_decision. Defined.
#[export] Instance MessageType_eq_dec : EqDecision MessageType.
Proof. solve_decision. Defined.

Definition mt_eqb (a b : MessageType) : bool := bool_decide (a = b).

(** ** Acknowledged indexes *)

Record Index := mkIndex {
  i_index : Z;
  i_group_id : Z
}.

(** [AckedIndexer::AckedIndex] *)
Definition AckedIndexer := Z -> option Index.

(** ** Parameters of the model

    - [iter]: the order in which a range-for visits an unordered set, or the
      keys of an unordered map, is any enumeration of it;
    - [sort_desc]: [std::sort] by decreasing index, not stable;
    - [draw]: the [n]-th draw of [std::uniform_int_distribution(lo, hi)];
    - [entry_bytes]: the length of a serialised entry;
    - [cc_encode], [cc_decode]: [capnp_util::toString] and [fromString] on
      [ConfChangeV2] ([None] when it throws);
    - [crc_extend]: [crc32c::Extend]. *)
Class Env := {
  iter : gset Z -> list Z;
  iter_perm X : iter X ≡ₚ elements X;
  sort_desc : list Index -> list Index;
  sort_desc_perm l : sort_desc l ≡ₚ l;
  sort_desc_sorted l : StronglySorted (fun a b => i_index b <= i_index a) (sort_desc l);
  draw : nat -> Z -> Z -> Z;
  draw_range n lo hi : lo <= hi -> lo <= draw n lo hi <= hi;
  entry_bytes : Entry -> Z;
  entry_bytes_range e : 0 < entry_bytes e < 2 ^ 32;
  cc_encode : ConfChangeV2 -> string;
  cc_decode : string -> option ConfChangeV2;
  cc_decode_encode cc : cc_decode (cc_encode cc) = Some cc;
  cc_encode_ne cc : cc_encode cc <> ""%string;
  crc_extend : Z -> string -> Z
}.

(** The visits of a range-for over an unordered map. *)
Definition iter_map `{Env} {A} (m : gmap Z A) : list (Z * A) :=
  omap (fun k => (fun a => (k, a)) <$> m !! k) (iter (dom m)).

Lemma rbind_Ok {A B} (r : Result A) (k : A -> Result B) b :
  rbind r k = Ok b <-> exists a, r = Ok a /\ k a = Ok b.
Proof.
  destruct r as [a|e]; simpl.
  - split; [eauto|]. intros (a' & [= <-] & E). exact E.
  - split; [discriminate|]. intros (a' & E & _). discriminate.
Qed.

(** ** An environment

    A concrete environment, used to evaluate the model in the witnesses:
    containers iterate in the order of stdpp's [elements], sorting is a merge
    sort, every draw is the lower bound, and configuration changes are encoded
    through their [Countable] numbering. *)

#[export] Instance ConfChangeTransition_countable : Countable ConfChangeTransition.
Proof.
  refine (inj_countable' (fun t => match t with CCAuto => 0%nat | CCImplicit => 1%nat | CCExplicit => 2%nat end)
    (fun n => match n with 0%nat => CCAuto | 1%nat => CCImplicit | _ => CCExplicit end) _).
  by intros [].
Defined.

#[export] Instance ConfChangeType_countable : Countable ConfChangeType.
Proof.
  refine (inj_countable' (fun t => match t with AddNode => 0%nat | RemoveNode => 1%nat | AddLearnerNode => 2%nat end)
    (fun n => match n with 0%nat => AddNode | 1%nat => RemoveNode | _ => AddLearnerNode end) _).
  by intros [].
Defined.

#[export] Instance ConfChangeSingle_countable : Countable ConfChangeSingle.
Proof.
  refine (inj_countable' (fun c => (ccs_type c, ccs_node_id c)) (fun p => mkCCS p.1 p.2) _).
  by intros [].
Defined.

#[export] Instance ConfChangeV2_countable : Countable ConfChangeV2.
Proof.
  refine (inj_countable' (fun c => (cc_transition c, cc_changes c, cc_context c))
    (fun p => mkCCV2 p.1.1 p.1.2 p.2) _).
  by intros [].
Defined.

Fixpoint pos_to_string (p : positive) : string :=
  match p with
  | xH => "1"
  | xO q => String "0"%char (pos_to_string q)
  | xI q => String "1"%char (pos_to_string q)
  end.

Fixpoint string_to_pos (s : string) : option positive :=
  match s with
  | EmptyString => None
  | String "1"%char EmptyString => Some xH
  | String "0"%char s' => match string_to_pos s' with Some q => Some (xO q) | None => None end
  | String "1"%char s' => match string_to_pos s' with Some q => Some (xI q) | None => None end
  | _ => None
  end.

Lemma pos_to_string_ne p : pos_to_string p <> ""%string.
Proof. by destruct p. Qed.

Lemma string_to_pos_to_string p : string_to_pos (pos_to_string p) = Some p.
Proof.
  induction p as [p IH|p IH|]; [| |done]; simpl; rewrite IH; [|done].
  destruct (pos_to_string p) eqn:E; [|done]. by apply pos_to_string_ne in E.
Qed.

Definition index_ge (a b : Index) : Prop := i_index b <= i_index a.
#[export] Instance index_ge_dec a b : Decision (index_ge a b).
Proof. unfold index_ge. apply _. Defined.
#[export] Instance index_ge_total : Total index_ge.
Proof. intros a b. unfold index_ge. lia. Qed.
#[export] Instance index_ge_trans : Transitive index_ge.
Proof. intros a b c. unfold index_ge. lia. Qed.

#[export] Program Instance plain_env : Env := {|
  iter X := elements X;
  sort_desc l := merge_sort index_ge l;
  draw n lo hi := lo;
  entry_bytes e := Z.min (2 ^ 32 - 1)
    (40 + Z.of_nat (String.length (e_data e)) + Z.of_nat (String.length (e_context e)));
  cc_encode cc := pos_to_string (encode cc);
  cc_decode s := match string_to_pos s with Some p => decode p | None => None end;
  crc_extend c s := c + Z.of_nat (String.length s)
|}.
Next Obligation. done. Qed.
Next Obligation. intros l. apply merge_sort_Permutation. Qed.
Next Obligation. intros l. apply (StronglySorted_merge_sort index_ge). Qed.
Next Obligation. cbn. lia. Qed.
Next Obligation. intros e. cbn. lia. Qed.
Next Obligation. intros cc. simpl. rewrite string_to_pos_to_string. apply decode_encode. Qed.
Next Obligation. intros cc. apply pos_to_string_ne. Qed.
