(* ===== verification/Errors.v ===== *)
(** * The text of errors

    [format_as] of the error codes in [include/raftpp/core/error.h] and
    [RaftError::ToString] of [lib/core/error.cc].  What a client of the server
    sees of an error is this text. *)

From S2P Require Import Prelude Types.

Open Scope string_scope.

Definition format_as_StorageErrorCode (ec : StorageErrorCode) : string :=
  match ec with
  | Compacted => "Compacted"
  | Unavailable => "Unavailable"
  | LogTemporarilyUnavailable => "LogTemporarilyUnavailable"
  | SnapshotOutOfDate => "SnapshotOutOfDate"
  | SnapshotTemporarilyUnavailable => "SnapshotTemporarilyUnavailable"
  | MetadataFileTooSmall => "MetadataFileTooSmall"
  | InvalidMetadataHeader => "InvalidMetadataHeader"
  | MetadataCrcMismatch => "MetadataCrcMismatch"
  | HardStateParseError => "HardStateParseError"
  | ConfStateParseError => "ConfStateParseError"
  | PeerAddressBookParseError => "PeerAddressBookParseError"
  | CurrentSegmentNotFound => "CurrentSegmentNotFound"
  | SegmentNotOpen => "SegmentNotOpen"
  | InvalidSegmentHeader => "InvalidSegmentHeader"
  | IoUringNotBuilt => "IoUringNotBuilt"
  | IoUringNotLinux => "IoUringNotLinux"
  | IoUringInitFailed => "IoUringInitFailed"
  | IoUringProbeMissingOp => "IoUringProbeMissingOp"
  | CorruptEntryRecord => "CorruptEntryRecord"
  | EntryParseError => "EntryParseError"
  | ZeroEntriesInSlice => "ZeroEntriesInSlice"
  end.

Definition format_as_RaftErrorCode (ec : RaftErrorCode) : string :=
  match ec with
  | StepLocalMsg => "StepLocalMsg"
  | StepPeerNotFound => "StepPeerNotFound"
  | ProposalDropped => "ProposalDropped"
  | RequestSnapshotDropped => "RequestSnapshotDropped"
  | ChecksumMismatch => "ChecksumMismatch"
  | AlreadyStarted => "AlreadyStarted"
  | ShuttingDown => "ShuttingDown"
  | LostLeadership => "LostLeadership"
  | IncompatibleStorage => "IncompatibleStorage"
  | ConfChangeParseError => "ConfChangeParseError"
  end.

Definition format_as_RpcErrorCode (ec : RpcErrorCode) : string :=
  match ec with
  | AddressPortMissing => "AddressPortMissing"
  | AddressPortInvalid => "AddressPortInvalid"
  | AddressPortOutOfRange => "AddressPortOutOfRange"
  | BindFailed => "BindFailed"
  | ListenFailed => "ListenFailed"
  | UdpBindFailed => "UdpBindFailed"
  | UdpRecvStartFailed => "UdpRecvStartFailed"
  | ConnectionClosed => "ConnectionClosed"
  | InvalidMagic => "InvalidMagic"
  | HeaderParseFailed => "HeaderParseFailed"
  | HandshakeParseFailed => "HandshakeParseFailed"
  | PayloadParseFailed => "PayloadParseFailed"
  | HandshakeTooShort => "HandshakeTooShort"
  | HandshakeInvalidMagic => "HandshakeInvalidMagic"
  | HandshakeBufferTooSmall => "HandshakeBufferTooSmall"
  | MessageTooLarge => "MessageTooLarge"
  | Timeout => "Timeout"
  end.

Definition format_as_ConfigErrorCode (ec : ConfigErrorCode) : string :=
  match ec with
  | InvalidNodeId => "InvalidNodeId"
  | HeartbeatTickTooSmall => "HeartbeatTickTooSmall"
  | ElectionTickTooSmall => "ElectionTickTooSmall"
  | MaxInflightMessagesTooSmall => "MaxInflightMessagesTooSmall"
  | LeaseBasedReadRequiresCheckQuorum => "LeaseBasedReadRequiresCheckQuorum"
  | ListenAddressEmpty => "ListenAddressEmpty"
  | DataDirectoryEmpty => "DataDirectoryEmpty"
  | NodeIdNotInInitialPeers => "NodeIdNotInInitialPeers"
  end.

Definition format_as_ConfChangeErrorCode (ec : ConfChangeErrorCode) : string :=
  match ec with
  | LearnersNextMustBeEmpty => "LearnersNextMustBeEmpty"
  | AutoLeaveMustBeFalse => "AutoLeaveMustBeFalse"
  | ConfigAlreadyJoint => "ConfigAlreadyJoint"
  | ZeroVoterConfigJoint => "ZeroVoterConfigJoint"
  | LeaveNonJointConfig => "LeaveNonJointConfig"
  | RemovedAllVoters => "RemovedAllVoters"
  | CannotApplySimpleInJointConfig => "CannotApplySimpleInJointConfig"
  | MultipleVotersChangedWithoutJoint => "MultipleVotersChangedWithoutJoint"
  end.

(** [ToStringVisitor] *)
Definition ToString (e : RaftError) : string :=
  match e with
  | EStorage ec => "storage error: " +:+ format_as_StorageErrorCode ec
  | EStorageOther message => "other storage error: " +:+ message
  | ERaft ec => "raft error: " +:+ format_as_RaftErrorCode ec
  | EInvalidConfig message => "invalid config error: " +:+ message
  | EConfChange message => "conf change error: " +:+ message
  | EFatal message => "fatal error: " +:+ message
  | ERpc ec => "rpc error: " +:+ format_as_RpcErrorCode ec
  | EConfig ec => "config error: " +:+ format_as_ConfigErrorCode ec
  | EConfChangeCode ec => "conf change error: " +:+ format_as_ConfChangeErrorCode ec
  end.

(** ** No two errors read alike *)

#[export] Instance format_as_StorageErrorCode_inj : Inj (=) (=) format_as_StorageErrorCode.
Proof. intros [] []; done. Qed.
#[export] Instance format_as_RaftErrorCode_inj : Inj (=) (=) format_as_RaftErrorCode.
Proof. intros [] []; done. Qed.
#[export] Instance format_as_RpcErrorCode_inj : Inj (=) (=) format_as_RpcErrorCode.
Proof. intros [] []; done. Qed.
#[export] Instance format_as_ConfigErrorCode_inj : Inj (=) (=) format_as_ConfigErrorCode.
Proof. intros [] []; done. Qed.
#[export] Instance format_as_ConfChangeErrorCode_inj : Inj (=) (=) format_as_ConfChangeErrorCode.
Proof. intros [] []; done. Qed.

Lemma string_app_cancel (a b c : string) : a +:+ b = a +:+ c -> b = c.
Proof. induction a as [|x a IH]; [done|]. intros [= E]. by apply IH. Qed.

(** A refused configuration change carries a code or a message; their texts
    have the same prefix. *)
Definition same_refusal (e1 e2 : RaftError) : Prop :=
  exists ec, e1 = EConfChange (format_as_ConfChangeErrorCode ec) /\ e2 = EConfChangeCode ec.

(** The text of an error determines it, except for a message that is the name
    of a code. *)
Lemma ToString_determines e1 e2 : ToString e1 = ToString e2 -> e1 = e2 \/ same_refusal e1 e2 \/ same_refusal e2 e1.
Proof.
  destruct e1, e2; intros E; try discriminate E; apply string_app_cancel in E;
    first [left; congruence | left; f_equal; by apply (inj _) in E | right; left; eexists; split; [by rewrite E|done]
          | right; right; eexists; split; [by rewrite E|done]].
Qed.
