(* ===== verification/Util.v ===== *)
(** * Entry helpers

    Model of [lib/core/util.cc] and [include/raftpp/raftor/entry_checksum.h]:
    the size bound on a batch of entries, the continuity test used to batch
    appends, and the entry checksum. *)

From S2P Require Import Prelude Types.

Section Util.
Context `{Env}.

Definition slen (s : string) : Z := Z.of_nat (String.length s).

Definition EntryApproximateSize (ent : Entry) : Z :=
  u64 (slen (e_data ent) + slen (e_context ent) + 12).

(** The loop of [LimitSize], returning [keep_count]. *)
Fixpoint LimitSize_loop (entries : list Entry) (max total keep_count : Z) : Z :=
  match entries with
  | [] => keep_count
  | entry :: rest =>
      let entry_size := entry_bytes entry in
      if keep_count =? 0 then LimitSize_loop rest max (total +! entry_size) (keep_count +! 1)
      else if max <? (total +! entry_size) then keep_count
      else LimitSize_loop rest max (total +! entry_size) (keep_count +! 1)
  end.

Definition LimitSize (entries : list Entry) (max : option Z) : list Entry :=
  if zlen entries <=? 1 then entries
  else match max with
       | None => entries
       | Some max =>
           if max =? u64max then entries
           else
             let keep_count := LimitSize_loop entries max 0 0 in
             if keep_count <? zlen entries then take (Z.to_nat keep_count) entries
             else entries
       end.

Definition IsContinuousEntries (message : Message) (entries : list Entry) : bool :=
  match last (m_entries message), entries with
  | Some e, e' :: _ => (e_index e +! 1) =? e_index e'
  | _, _ => true
  end.

(** ** Checksums *)

Definition IsChecksumExemptEntry (e : Entry) : bool :=
  bool_decide (e_type e = EntryNormal) && (slen (e_data e) =? 0) && (slen (e_context e) =? 0).

Definition entry_type_code (t : EntryType) : Z :=
  match t with EntryNormal => 0 | EntryConfChange => 1 | EntryConfChangeV2 => 2 end.

(** The four bytes of a [uint32_t] in memory (little endian). *)
Definition u32_bytes (x : Z) : string :=
  String (ascii_of_nat (Z.to_nat (Z.land x 255)))
  (String (ascii_of_nat (Z.to_nat (Z.land (Z.shiftr x 8) 255)))
  (String (ascii_of_nat (Z.to_nat (Z.land (Z.shiftr x 16) 255)))
  (String (ascii_of_nat (Z.to_nat (Z.land (Z.shiftr x 24) 255))) ""))).

Definition ComputeEntryChecksum (e : Entry) : Z :=
  let crc := crc_extend 0 (u32_bytes (entry_type_code (e_type e))) in
  let crc := crc_extend crc (e_context e) in
  crc_extend crc (e_data e).

Definition SetEntryChecksum (e : Entry) : Entry :=
  e <| e_checksum := ComputeEntryChecksum e |>.

(** ** Properties *)

(** The bytes of a batch. *)
Definition batch_bytes (l : list Entry) : Z := foldr (fun e n => entry_bytes e + n) 0 l.

Lemma batch_bytes_app l k : batch_bytes (l ++ k) = batch_bytes l + batch_bytes k.
Proof. induction l as [|e l IH]; simpl; [done|]. rewrite IH. lia. Qed.

Lemma batch_bytes_bound l : 0 <= batch_bytes l <= zlen l * 2 ^ 32.
Proof.
  induction l as [|e l IH]; simpl; [lia|]. pose proof (entry_bytes_range e). lia.
Qed.

(** After [done_] entries with total size [total] have been kept, the loop
    keeps the longest further prefix that fits. *)
Lemma LimitSize_loop_spec rest : forall max total keep,
  0 < keep -> keep + zlen rest < 2 ^ 31 -> 0 <= total <= keep * 2 ^ 32 ->
  exists k, (k <= length rest)%nat /\
    LimitSize_loop rest max total keep = keep + Z.of_nat k /\
    (k = 0%nat \/ total + batch_bytes (take k rest) <= max) /\
    (k = length rest \/ max < total + batch_bytes (take (S k) rest)).
Proof.
  induction rest as [|e rest IH]; intros max total keep Hk Hl Ht; simpl.
  { exists 0%nat. simpl. repeat split; [lia|lia|by left|by left]. }
  pose proof (entry_bytes_range e) as He. simpl in Hl.
  destruct (Z.eqb_spec keep 0); [lia|].
  rewrite !(u64_id (total + entry_bytes e)) by (unfold is_u64, two64; lia).
  destruct (Z.ltb_spec max (total + entry_bytes e)) as [Hm|Hm].
  - exists 0%nat. repeat split; [lia|lia|by left|right; simpl; lia].
  - rewrite (u64_id (keep + 1)) by (unfold is_u64, two64; lia).
    destruct (IH max (total + entry_bytes e) (keep + 1)) as (k & Hk' & E & H1 & H2); [lia..|].
    exists (S k). split; [simpl; lia|]. split; [rewrite E; lia|]. split.
    + right. simpl. destruct H1 as [->|H1]; simpl; lia.
    + destruct H2 as [->|H2]; [by left|right]. simpl. simpl in H2. lia.
Qed.

Lemma LimitSize_loop_count rest : forall max total keep,
  0 < keep -> keep + zlen rest < two64 ->
  exists k, (k <= length rest)%nat /\ LimitSize_loop rest max total keep = keep + Z.of_nat k.
Proof.
  induction rest as [|e rest IH]; intros max total keep Hk Hl; cbn [LimitSize_loop].
  { exists 0%nat. cbn. lia. }
  cbn [length] in Hl. destruct (Z.eqb_spec keep 0); [lia|]. destruct (max <? _).
  - exists 0%nat. lia.
  - rewrite (u64_id (keep + 1)) by (unfold is_u64; lia).
    destruct (IH max (total +! entry_bytes e) (keep + 1)) as (k & Hk' & E); [lia..|].
    exists (S k). cbn [length]. lia.
Qed.

(** Every result of [LimitSize] is a prefix that keeps at least one entry. *)
Lemma LimitSize_prefix entries max : zlen entries < two64 ->
  exists k, (k <= length entries)%nat /\ LimitSize entries max = take k entries /\
    (entries = [] \/ (0 < k)%nat) /\ (max = None -> k = length entries).
Proof.
  intros Hl. unfold LimitSize.
  assert (Hall : exists k, (k <= length entries)%nat /\ entries = take k entries /\
    (entries = [] \/ (0 < k)%nat) /\ (max = None -> k = length entries)).
  { exists (length entries). rewrite take_ge by lia. split; [lia|]. split; [done|].
    split; [|done]. destruct entries; [by left|right; simpl; lia]. }
  destruct (Z.leb_spec (zlen entries) 1); [done|].
  destruct max as [max|]; [|done]. destruct (max =? u64max); [done|].
  destruct (Z.ltb_spec (LimitSize_loop entries max 0 0) (zlen entries)) as [Hlt|]; [|done].
  destruct entries as [|e rest]; [done|]. simpl in *.
  rewrite (u64_id (0 + 1)) in * by done.
  destruct (LimitSize_loop_count rest max (0 +! entry_bytes e) (0 + 1)) as (k & Hk & E); [lia..|].
  rewrite E in *. exists (Z.to_nat (0 + 1 + Z.of_nat k)). split; [lia|]. split; [done|].
  split; [right; lia|done].
Qed.

(** [LimitSize] keeps the longest non-empty prefix of the entries whose
    serialised size stays within the limit; a first entry that is too large is
    kept alone. *)
Theorem LimitSize_longest_fitting_prefix entries max : zlen entries < 2 ^ 31 -> max < u64max ->
  exists k, LimitSize entries (Some max) = take k entries /\ (k <= length entries)%nat /\
    (entries = [] \/ (0 < k)%nat) /\
    ((k <= 1)%nat \/ batch_bytes (take k entries) <= max) /\
    (k = length entries \/ max < batch_bytes (take (S k) entries)).
Proof.
  intros Hl Hm. unfold LimitSize. destruct (Z.leb_spec (zlen entries) 1) as [H1|H1].
  { exists (length entries). rewrite take_ge by lia. split; [done|]. split; [lia|].
    split; [destruct entries; [by left|right; simpl; lia]|]. split; [left; lia|by left]. }
  destruct (Z.eqb_spec max u64max); [lia|].
  destruct entries as [|e rest]; [simpl in H1; lia|]. simpl LimitSize_loop.
  pose proof (entry_bytes_range e). simpl in Hl.
  rewrite (u64_id (0 + entry_bytes e)), (u64_id (0 + 1)) by (unfold is_u64, two64; lia).
  destruct (LimitSize_loop_spec rest max (0 + entry_bytes e) (0 + 1)) as (k & Hk & E & Hfit & Hmax); [lia..|].
  rewrite E. exists (S k). split.
  { destruct (Z.ltb_spec (0 + 1 + Z.of_nat k) (zlen (e :: rest))) as [|Hge].
    - f_equal. lia.
    - simpl in Hge. rewrite take_ge by (simpl; lia). done. }
  split; [simpl; lia|]. split; [right; lia|]. split.
  - destruct Hfit as [->|Hfit]; [left; lia|right]. simpl. lia.
  - destruct Hmax as [->|Hmax]; [by left|right]. simpl. simpl in Hmax. lia.
Qed.
End Util.

Definition three_entries : list Entry :=
  [mkEntry EntryNormal 1 1 "a" "" 0; mkEntry EntryNormal 1 2 "b" "" 0; mkEntry EntryNormal 1 3 "c" "" 0].

Lemma LimitSize_longest_fitting_prefix_witness :
  exists k, LimitSize three_entries (Some 90) = take k three_entries /\ (k <= 3)%nat /\
    (three_entries = [] \/ (0 < k)%nat) /\
    ((k <= 1)%nat \/ batch_bytes (take k three_entries) <= 90) /\
    (k = 3%nat \/ 90 < batch_bytes (take (S k) three_entries)).
Proof. apply (LimitSize_longest_fitting_prefix three_entries 90); reflexivity. Defined.
