(* ===== verification/Progress.v ===== *)
(** * Progress: what the leader knows about one peer

    Model of [lib/core/progress.cc].  The theorems show that every operation
    keeps the representation invariant ([matched_ < next_idx_], a well-formed
    inflights window) and what the acknowledgement and rejection handlers do
    to [matched_] and [next_idx_], wrap-around included. *)

From S2P Require Import Prelude Types Inflights.

Inductive ProgressState := Probe | Replicate | PSnapshot.

#[export] Instance ProgressState_eq_dec : EqDecision ProgressState.
Proof. solve_decision. Defined.

Record Progress := mkProgress {
  matched_ : Z;
  next_idx_ : Z;
  state_ : ProgressState;
  paused_ : bool;
  pending_snapshot_ : Z;
  pending_request_snapshot_ : Z;
  recent_active_ : bool;
  inflights_ : Inflights;
  commit_group_id_ : Z;
  committed_index_ : Z
}.
#[export] Instance Progress_eta : Eta Progress := fun p =>
  mkProgress (matched_ p) (next_idx_ p) (state_ p) (paused_ p) (pending_snapshot_ p)
    (pending_request_snapshot_ p) (recent_active_ p) (inflights_ p) (commit_group_id_ p)
    (committed_index_ p).

(** [Progress::Progress(next_idx, max_inflight)] *)
Definition new (next_idx max_inflight : Z) : Progress :=
  mkProgress 0 next_idx Probe false 0 0 false (Inflights.new max_inflight) 0 0.

Definition on_inflights {A} (m : M Inflights A) : M Progress A :=
  zoom inflights_ (fun i p => p <| inflights_ := i |>) m.

Definition Reset (next_idx : Z) : M Progress unit :=
  set! matched_ := 0 ;;;
  set! next_idx_ := next_idx ;;;
  set! state_ := Probe ;;;
  set! paused_ := false ;;;
  set! pending_snapshot_ := 0 ;;;
  set! pending_request_snapshot_ := 0 ;;;
  set! recent_active_ := false ;;;
  on_inflights Inflights.Reset.

Definition ResetState (state : ProgressState) : M Progress unit :=
  set! paused_ := false ;;;
  set! pending_snapshot_ := 0 ;;;
  set! state_ := state ;;;
  on_inflights Inflights.Reset.

Definition BecomeProbe : M Progress unit :=
  let! p := get in
  if bool_decide (state_ p = PSnapshot) then
    let pending_snapshot := pending_snapshot_ p in
    ResetState Probe ;;;
    set! next_idx_ := Z.max (matched_ p +! 1) (pending_snapshot +! 1)
  else
    ResetState Probe ;;;
    set! next_idx_ := (matched_ p +! 1).

Definition BecomeReplicate : M Progress unit :=
  ResetState Replicate ;;;
  modify (fun p => p <| next_idx_ := matched_ p +! 1 |>).

Definition BecomeSnapshot (snapshot_idx : Z) : M Progress unit :=
  ResetState PSnapshot ;;;
  set! pending_snapshot_ := snapshot_idx.

Definition IsSnapshotCaughtUp (p : Progress) : bool :=
  bool_decide (state_ p = PSnapshot) && (pending_snapshot_ p <=? matched_ p).

Definition Resume : M Progress unit := set! paused_ := false.

Definition Pause : M Progress unit := set! paused_ := true.

Definition UpdateCommitted (committed_index : Z) : M Progress unit :=
  let! p := get in
  when (committed_index_ p <? committed_index) (set! committed_index_ := committed_index).

Definition MaybeUpdate (n : Z) : M Progress bool :=
  let! p := get in
  let need_update := matched_ p <? n in
  when need_update (set! matched_ := n ;;; Resume) ;;;
  let! p := get in
  when (next_idx_ p <? (n +! 1)) (set! next_idx_ := (n +! 1)) ;;;
  ret need_update.

Definition OptimisticUpdate (n : Z) : M Progress unit := set! next_idx_ := (n +! 1).

Definition UpdateState (last : Z) : M Progress unit :=
  let! p := get in
  match state_ p with
  | Probe => Pause
  | Replicate => OptimisticUpdate last ;;; on_inflights (Inflights.Add last)
  | PSnapshot => abort (Panic "updating progress state in unhandled state")
  end.

Definition SnapshotFailure : M Progress unit := set! pending_snapshot_ := 0.

Definition IsPaused (p : Progress) : bool :=
  match state_ p with
  | Probe => paused_ p
  | Replicate => Inflights.Full (inflights_ p)
  | PSnapshot => true
  end.

Definition MaybeDecTo (rejected match_hint request_snapshot : Z) : M Progress bool :=
  let! p := get in
  if bool_decide (state_ p = Replicate) then
    if (rejected <? matched_ p) ||
       ((rejected =? matched_ p) && (request_snapshot =? kInvalidIndex)) then ret false
    else
      (if request_snapshot =? kInvalidIndex then set! next_idx_ := (matched_ p +! 1)
       else set! pending_request_snapshot_ := request_snapshot) ;;;
      ret true
  else if ((next_idx_ p =? 0) || negb ((next_idx_ p -! 1) =? rejected)) &&
          (request_snapshot =? kInvalidIndex) then ret false
  else
    (if request_snapshot =? kInvalidIndex then
       set! next_idx_ := Z.min rejected (match_hint +! 1) ;;;
       let! q := get in
       when (next_idx_ q <? (matched_ q +! 1)) (set! next_idx_ := (matched_ q +! 1))
     else
       when (pending_request_snapshot_ p =? kInvalidIndex)
         (set! pending_request_snapshot_ := request_snapshot)) ;;;
    Resume ;;;
    ret true.

Definition SetCommitGroupID (group_id : Z) : M Progress unit :=
  set! commit_group_id_ := group_id.

(** [ProgressMap::AckedIndex] *)
Definition AckedIndex (m : gmap Z Progress) : AckedIndexer := fun voter =>
  match m !! voter with
  | Some p => Some (mkIndex (matched_ p) (commit_group_id_ p))
  | None => None
  end.

(** ** Properties *)

Record wf (p : Progress) : Prop := {
  wf_matched : 0 <= matched_ p;
  wf_next : matched_ p < next_idx_ p < two64;
  wf_pending : 0 <= pending_snapshot_ p < u64max;
  wf_inflights : Inflights.wf (inflights_ p)
}.

Lemma Inflights_Reset_run f : Inflights.wf f ->
  exists f', Inflights.Reset f = Ret (tt, f') /\ Inflights.wf f' /\ Inflights.count_ f' = 0.
Proof.
  intros W. destruct (refines_Reset f W) as (f' & E & W' & Hw). exists f'. split; [done|].
  split; [done|]. rewrite <- contents_length by done.
  apply (f_equal w_items) in Hw. simpl in Hw. rewrite Hw.
  unfold w_reset, w_settle. simpl. by destruct (incoming_capacity_ f).
Qed.

Lemma progress_wf_new next cap : 0 < next < two64 -> 0 <= cap < 2 ^ 62 -> wf (new next cap).
Proof.
  intros Hn Hc. constructor; simpl; [unfold u64max; lia..|]. by apply Inflights.wf_new.
Qed.

(** Runs [inflights_.Reset()] in the middle of an operation. *)
Lemma on_inflights_run {A} (m : M Inflights A) p q a i :
  inflights_ p = q -> m q = Ret (a, i) -> on_inflights m p = Ret (a, p <| inflights_ := i |>).
Proof. unfold on_inflights, zoom. intros -> ->. reflexivity. Qed.

Lemma ResetState_spec st p : wf p -> exists i,
  ResetState st p = Ret (tt, p <| paused_ := false |> <| pending_snapshot_ := 0 |>
                               <| state_ := st |> <| inflights_ := i |>) /\
  Inflights.wf i /\ Inflights.count_ i = 0.
Proof.
  intros W. destruct (Inflights_Reset_run _ (wf_inflights p W)) as (i & E & Wi & Hc).
  exists i. split; [|done]. unfold ResetState. msteps. by rewrite (on_inflights_run _ _ (inflights_ p) tt i).
Qed.

Lemma Reset_any next p : Inflights.wf (inflights_ p) -> exists i,
  Reset next p = Ret (tt, mkProgress 0 next Probe false 0 0 false i
                            (commit_group_id_ p) (committed_index_ p)) /\
  Inflights.wf i /\ Inflights.count_ i = 0.
Proof.
  intros W. destruct (Inflights_Reset_run _ W) as (i & E & Wi & Hc).
  exists i. split; [|done]. unfold Reset. msteps. by rewrite (on_inflights_run _ _ (inflights_ p) tt i).
Qed.

Lemma Reset_spec next p : wf p -> exists i,
  Reset next p = Ret (tt, mkProgress 0 next Probe false 0 0 false i
                            (commit_group_id_ p) (committed_index_ p)) /\
  Inflights.wf i /\ Inflights.count_ i = 0.
Proof. intros W. apply Reset_any, W. Qed.

Lemma BecomeReplicate_spec p : wf p -> exists p',
  BecomeReplicate p = Ret (tt, p') /\ wf p' /\ state_ p' = Replicate /\
  next_idx_ p' = matched_ p + 1 /\ matched_ p' = matched_ p /\ Inflights.count_ (inflights_ p') = 0.
Proof.
  intros W. unfold BecomeReplicate.
  destruct (ResetState_spec Replicate p W) as (i & E & Wi & Hc).
  rewrite (bind_run _ _ _ _ _ E). eexists. split; [reflexivity|].
  unfold upd. simpl. rewrite u64_id by (destruct W; u64_lia).
  split; [|by auto]. destruct W. constructor; simpl; [lia|lia|unfold u64max; lia|done].
Qed.

Lemma BecomeProbe_spec p : wf p -> exists p',
  BecomeProbe p = Ret (tt, p') /\ wf p' /\ state_ p' = Probe /\ paused_ p' = false /\
  matched_ p' = matched_ p /\ Inflights.count_ (inflights_ p') = 0 /\
  next_idx_ p' = (if bool_decide (state_ p = PSnapshot)
                  then Z.max (matched_ p + 1) (pending_snapshot_ p + 1) else matched_ p + 1).
Proof.
  intros W. unfold BecomeProbe. rewrite (bind_run _ _ p p p eq_refl).
  destruct (ResetState_spec Probe p W) as (i & E & Wi & Hc).
  case_bool_decide; rewrite (bind_run _ _ _ _ _ E); (eexists; split; [reflexivity|]);
    unfold upd; simpl.
  all: rewrite !u64_id by (destruct W; u64_lia).
  all: (split; [|by auto]); destruct W; constructor; simpl; [lia|u64_lia|unfold u64max; lia|done].
Qed.

(** Operations that only move [matched_] and [next_idx_]. *)
Lemma wf_move p p' : wf p -> matched_ p <= matched_ p' -> matched_ p' < next_idx_ p' < two64 ->
  pending_snapshot_ p' = pending_snapshot_ p -> inflights_ p' = inflights_ p -> wf p'.
Proof. intros [] H1 H2 H3 H4. constructor; rewrite ?H3, ?H4; (lia || done). Qed.

Lemma MaybeUpdate_run n p : wf p -> 0 <= n < u64max ->
  exists p', MaybeUpdate n p = Ret (matched_ p <? n, p') /\ wf p' /\
    matched_ p' = Z.max (matched_ p) n /\ next_idx_ p' = Z.max (next_idx_ p) (n + 1) /\
    paused_ p' = (if matched_ p <? n then false else paused_ p) /\
    inflights_ p' = inflights_ p /\ state_ p' = state_ p.
Proof.
  intros W Hn. unfold MaybeUpdate, Resume. msteps. rewrite !(u64_id (n + 1)) by u64_lia.
  pose proof (wf_next p W). unfold u64max, two64 in *.
  destruct (Z.ltb_spec (matched_ p) n); msteps; cbn; destruct (Z.ltb_spec (next_idx_ p) (n + 1));
    msteps; (eexists; split; [reflexivity|]); (split; [apply (wf_move p); cbn; unfold two64; (done || lia)|]);
    cbn; repeat split; lia.
Qed.

(** The acknowledgement floor: [next_idx_] never falls to an index the peer is
    known to have. *)
Definition dec_next (p : Progress) (rejected match_hint : Z) : Z :=
  if bool_decide (state_ p = Replicate) then matched_ p + 1
  else Z.max (Z.min rejected (match_hint +! 1)) (matched_ p + 1).

Lemma MaybeDecTo_run rejected match_hint request_snapshot p :
  wf p -> is_u64 rejected ->
  exists b p', MaybeDecTo rejected match_hint request_snapshot p = Ret (b, p') /\
  wf p' /\ matched_ p' = matched_ p /\
  (if b then next_idx_ p' = (if request_snapshot =? kInvalidIndex
                             then dec_next p rejected match_hint else next_idx_ p)
   else p' = p).
Proof.
  intros W Hr. unfold MaybeDecTo, Resume, dec_next, kInvalidIndex. msteps.
  pose proof (wf_next p W). pose proof (wf_matched p W).
  rewrite !(u64_id (matched_ p + 1)) by u64_lia.
  pose proof (u64_range (match_hint + 1)) as Hh. unfold is_u64, two64 in *.
  case_bool_decide as Hs.
  - destruct (_ || _); [by exists false, p|].
    destruct (Z.eqb_spec request_snapshot 0); msteps; (do 2 eexists; split; [reflexivity|]); cbn;
      (split; [apply (wf_move p); cbn; unfold two64; (done || lia)|done]).
  - destruct (_ && _); [by exists false, p|].
    destruct (Z.eqb_spec request_snapshot 0); msteps; cbn.
    + rewrite (u64_id (matched_ p + 1)) by (unfold is_u64, two64; lia).
      destruct (Z.ltb_spec (Z.min rejected (match_hint +! 1)) (matched_ p + 1)); msteps;
        (do 2 eexists; split; [reflexivity|]); cbn;
        (split; [apply (wf_move p); cbn; unfold two64; (done || lia)|split; [done|lia]]).
    + destruct (pending_request_snapshot_ p =? 0); msteps; (do 2 eexists; split; [reflexivity|]); cbn;
        (split; [apply (wf_move p); cbn; unfold two64; (done || lia)|done]).
Qed.

Lemma UpdateState_replicate last p :
  wf p -> state_ p = Replicate -> IsPaused p = false -> matched_ p <= last < u64max ->
  exists p', UpdateState last p = Ret (tt, p') /\ wf p' /\ state_ p' = Replicate /\
    matched_ p' = matched_ p /\ next_idx_ p' = last + 1 /\
    pending_request_snapshot_ p' = pending_request_snapshot_ p /\
    window (inflights_ p') = w_add last (window (inflights_ p)).
Proof.
  intros W Hs Hp Hl. unfold UpdateState. msteps. rewrite Hs. unfold OptimisticUpdate. msteps.
  unfold IsPaused in Hp. rewrite Hs in Hp.
  pose proof (Add_spec last _ (wf_inflights p W)) as HA.
  rewrite <- Full_window, Hp in HA by apply W. destruct HA as (i & E & Wi & Hw).
  rewrite (on_inflights_run _ _ (inflights_ p) tt i) by done.
  eexists. split; [reflexivity|]. cbn. rewrite u64_id by (pose proof (wf_matched p W); u64_lia).
  split; [|by auto 6]. destruct W. constructor; cbn; unfold two64, u64max in *; (done || lia).
Qed.

(** The public operations, as one type, with what their callers guarantee. *)
Inductive pop :=
| PReset (next : Z) | PBecomeProbe | PBecomeReplicate | PBecomeSnapshot (i : Z)
| PResume | PPause | PUpdateCommitted (i : Z) | PMaybeUpdate (n : Z)
| PMaybeDecTo (rejected hint request : Z) | PUpdateState (last : Z) | PSnapshotFailure
| PSetCommitGroupID (g : Z).

Definition prun (o : pop) : M Progress unit :=
  match o with
  | PReset n => Reset n
  | PBecomeProbe => BecomeProbe
  | PBecomeReplicate => BecomeReplicate
  | PBecomeSnapshot i => BecomeSnapshot i
  | PResume => Resume
  | PPause => Pause
  | PUpdateCommitted i => UpdateCommitted i
  | PMaybeUpdate n => MaybeUpdate n ;;; ret tt
  | PMaybeDecTo r h q => MaybeDecTo r h q ;;; ret tt
  | PUpdateState last => UpdateState last
  | PSnapshotFailure => SnapshotFailure
  | PSetCommitGroupID g => SetCommitGroupID g
  end.

Definition pop_ok (p : Progress) (o : pop) : Prop :=
  match o with
  | PReset n => 0 < n < two64
  | PBecomeSnapshot i => 0 <= i < u64max
  | PMaybeUpdate n => 0 <= n < u64max
  | PMaybeDecTo r _ _ => is_u64 r
  | PUpdateState last => IsPaused p = false /\ matched_ p <= last < u64max
  | _ => True
  end.

(** C30: Every operation on a peer's progress, called as the code calls it,
    returns and keeps the progress well formed: [matched < next] within 64
    bits, a bounded snapshot index, a well-formed inflights window. *)
Theorem progress_operations_keep_wf o p : wf p -> pop_ok p o ->
  exists p', prun o p = Ret (tt, p') /\ wf p'.
Proof.
  intros W Ho. destruct o as [n| | |i| | |i|n|r h q|last| |g]; cbn [prun pop_ok] in *.
  - destruct (Reset_spec n p W) as (i & E & Wi & _). rewrite E. eexists. split; [reflexivity|].
    constructor; cbn; (unfold u64max; lia) || done.
  - destruct (BecomeProbe_spec p W) as (p' & E & W' & _). eauto.
  - destruct (BecomeReplicate_spec p W) as (p' & E & W' & _). eauto.
  - unfold BecomeSnapshot. destruct (ResetState_spec PSnapshot p W) as (f & E & Wf & _).
    rewrite (bind_run _ _ _ _ _ E). eexists. split; [reflexivity|].
    destruct W. constructor; cbn; (lia || done).
  - eexists. split; [reflexivity|]. destruct W. constructor; cbn; (lia || done).
  - eexists. split; [reflexivity|]. destruct W. constructor; cbn; (lia || done).
  - unfold UpdateCommitted. msteps. destruct (_ <? _); (eexists; split; [reflexivity|]);
      destruct W; constructor; cbn; (lia || done).
  - destruct (MaybeUpdate_run n p W Ho) as (p' & E & W' & _). rewrite (bind_run _ _ _ _ _ E). eauto.
  - destruct (MaybeDecTo_run r h q p W Ho) as (b & p' & E & W' & _). rewrite (bind_run _ _ _ _ _ E). eauto.
  - destruct Ho as [Hp Hl]. destruct (state_ p) eqn:Hs.
    + unfold UpdateState. msteps. rewrite Hs. eexists. split; [reflexivity|].
      destruct W. constructor; cbn; (lia || done).
    + destruct (UpdateState_replicate last p W Hs Hp Hl) as (p' & E & W' & _). eauto.
    + unfold IsPaused in Hp. by rewrite Hs in Hp.
  - eexists. split; [reflexivity|]. destruct W. constructor; cbn; (unfold u64max; lia) || done.
  - eexists. split; [reflexivity|]. destruct W. constructor; cbn; (lia || done).
Qed.

(** A rejection moves a probing peer's [next] down to a value still above
    [matched], never up; a rejection that is not about [next - 1] is stale and
    ignored, and one above [matched] strictly decreases [next]. *)
Theorem MaybeDecTo_probe_progress rejected match_hint p :
  wf p -> is_u64 rejected -> state_ p <> Replicate ->
  exists b p', MaybeDecTo rejected match_hint kInvalidIndex p = Ret (b, p') /\
    (b = true <-> rejected = next_idx_ p - 1) /\
    matched_ p' = matched_ p /\ matched_ p < next_idx_ p' <= next_idx_ p /\
    (b = true -> matched_ p < rejected -> next_idx_ p' < next_idx_ p).
Proof.
  intros W Hr Hs. destruct (MaybeDecTo_run rejected match_hint kInvalidIndex p W Hr)
    as (b & p' & E & W' & Hm & Hb).
  exists b, p'. split; [exact E|].
  assert (Hbn : b = true <-> rejected = next_idx_ p - 1).
  { revert E. unfold MaybeDecTo. msteps. rewrite bool_decide_false by done.
    pose proof (wf_next p W). pose proof (wf_matched p W).
    rewrite (u64_id (next_idx_ p - 1)) by u64_lia.
    destruct (Z.eqb_spec (next_idx_ p) 0); [lia|]. cbn [orb]. rewrite Z.eqb_refl.
    destruct (Z.eqb_spec (next_idx_ p - 1) rejected); cbn [negb andb].
    - intros E. mdestr. split; [lia|done].
    - intros E. mdestr. split; [done|lia]. }
  split; [exact Hbn|]. split; [exact Hm|].
  pose proof (wf_next p' W'). rewrite Hm in *.
  destruct b; [|subst; split; [lia|done]].
  simpl in Hb. unfold dec_next in Hb. rewrite bool_decide_false in Hb by done.
  pose proof (wf_next p W). destruct Hbn as [Hbn _]. specialize (Hbn eq_refl). split; intros; lia.
Qed.

(** A replicating peer that has acknowledged index 3 and was sent up to 7. *)
Definition sample_progress : Progress :=
  mkProgress 3 8 Probe false 0 0 true (Inflights.new 4) 0 3.

Lemma sample_progress_wf : wf sample_progress.
Proof. constructor; [cbn; lia|cbn; unfold two64; lia|cbn; unfold u64max; lia|]. by apply Inflights.wf_new. Defined.

Lemma progress_operations_keep_wf_witness :
  exists p', prun (PMaybeUpdate 5) sample_progress = Ret (tt, p') /\ wf p'.
Proof.
  apply (progress_operations_keep_wf (PMaybeUpdate 5) sample_progress sample_progress_wf).
  cbn. unfold u64max. lia.
Defined.

Lemma MaybeDecTo_probe_progress_witness :
  exists b p', MaybeDecTo 7 4 kInvalidIndex sample_progress = Ret (b, p') /\
    (b = true <-> 7 = next_idx_ sample_progress - 1) /\
    matched_ p' = matched_ sample_progress /\
    matched_ sample_progress < next_idx_ p' <= next_idx_ sample_progress /\
    (b = true -> matched_ sample_progress < 7 -> next_idx_ p' < next_idx_ sample_progress).
Proof.
  apply (MaybeDecTo_probe_progress 7 4 sample_progress sample_progress_wf); [|done].
  unfold is_u64, two64. lia.
Defined.
