(* ===== verification/Quorum.v ===== *)
(** * Quorums

    Model of [lib/core/majority_conf.cc] and [lib/core/joint_conf.cc]: the
    committed index of a majority and of a joint configuration (with and
    without group commit), vote counting, and the theorems that make them
    quorums: the committed index is the largest acknowledged by a majority,
    and any two winning sets of a configuration share a voter. *)

From S2P Require Import Prelude Types.

Inductive VoteResult := VotePending | VoteLost | VoteWon.

#[export] Instance VoteResult_eq_dec : EqDecision VoteResult.
Proof. solve_decision. Defined.

Definition majority (total : Z) : Z := total / 2 + 1.

Section Quorum.
Context `{Env}.

(** The scan for a second commit group; [inl] is its early return. *)
Fixpoint group_scan (matched : list Index) (quorum_commit_index checked_group_id : Z)
    (single_group : bool) : (Z * bool) + bool :=
  match matched with
  | [] => inr single_group
  | m :: rest =>
      if i_group_id m =? 0 then group_scan rest quorum_commit_index checked_group_id false
      else if checked_group_id =? 0 then
        group_scan rest quorum_commit_index (i_group_id m) single_group
      else if checked_group_id =? i_group_id m then
        group_scan rest quorum_commit_index checked_group_id single_group
      else inl (Z.min (i_index m) quorum_commit_index, true)
  end.

(** [x.value_or(Index{0, 0})] *)
Definition acked (l : AckedIndexer) (voter : Z) : Index :=
  default (mkIndex 0 0) (l voter).

(** [MajorityConfig::CommittedIndex]; [voters] is the set itself. *)
Definition MajorityCommittedIndex (voters : gset Z) (use_group_commit : bool)
    (l : AckedIndexer) : outcome (Z * bool) :=
  if bool_decide (voters = ∅) then Ret (u64max, true)
  else
    let matched := sort_desc (acked l <$> iter voters) in
    let quorum := majority (zlen matched) in
    let? quorum_index := vec_at matched (quorum - 1) in
    if negb use_group_commit then Ret (i_index quorum_index, false)
    else
      match group_scan matched (i_index quorum_index) (i_group_id quorum_index) true with
      | inl r => Ret r
      | inr true => Ret (i_index quorum_index, false)
      | inr false =>
          let? back := vec_at matched (zlen matched - 1) in
          Ret (i_index back, false)
      end.

(** [MajorityConfig::GetVoteResult] *)
Definition MajorityGetVoteResult (voters : gset Z) (check : Z -> option bool) : VoteResult :=
  if bool_decide (voters = ∅) then VoteWon
  else
    let '(yes, missing) := foldl (fun '(yes, missing) voter =>
      match check voter with
      | Some true => (yes + 1, missing)
      | Some false => (yes, missing)
      | None => (yes, missing + 1)
      end) (0, 0) (iter voters) in
    let q := majority (Z.of_nat (size voters)) in
    if q <=? yes then VoteWon
    else if q <=? yes + missing then VotePending
    else VoteLost.
End Quorum.

Record JointConfiguration := mkJoint {
  incoming_ : gset Z;
  outgoing_ : gset Z
}.
#[export] Instance JointConfiguration_eta : Eta JointConfiguration := fun j =>
  mkJoint (incoming_ j) (outgoing_ j).

Section Joint.
Context `{Env}.

Definition JointCommittedIndex (j : JointConfiguration) (use_group_commit : bool)
    (l : AckedIndexer) : outcome (Z * bool) :=
  let? (i_idx, i_use_group_commit) := MajorityCommittedIndex (incoming_ j) use_group_commit l in
  let? (o_idx, o_use_group_commit) := MajorityCommittedIndex (outgoing_ j) use_group_commit l in
  Ret (Z.min i_idx o_idx, i_use_group_commit && o_use_group_commit).

Definition JointGetVoteResult (j : JointConfiguration) (check : Z -> option bool) : VoteResult :=
  match MajorityGetVoteResult (incoming_ j) check, MajorityGetVoteResult (outgoing_ j) check with
  | VoteWon, VoteWon => VoteWon
  | VoteLost, _ => VoteLost
  | _, VoteLost => VoteLost
  | _, _ => VotePending
  end.

Definition JointClear (j : JointConfiguration) : JointConfiguration := mkJoint ∅ ∅.

Definition JointContains (j : JointConfiguration) (id : Z) : bool :=
  bool_decide (id ∈ incoming_ j) || bool_decide (id ∈ outgoing_ j).

Definition JointIsSingleton (j : JointConfiguration) : bool :=
  bool_decide (outgoing_ j = ∅) && bool_decide (size (incoming_ j) = 1%nat).

Definition JointIDs (j : JointConfiguration) : gset Z := incoming_ j ∪ outgoing_ j.

(** ** Specification *)

(** The voters that have acknowledged index [i]. *)
Definition ackers (voters : gset Z) (l : AckedIndexer) (i : Z) : gset Z :=
  filter (fun v => i <= i_index (acked l v)) voters.

Definition is_quorum (voters Q : gset Z) : Prop :=
  Q ⊆ voters /\ majority (Z.of_nat (size voters)) <= Z.of_nat (size Q).

(** How many of a list of acknowledgements reach [i]. *)
Definition reach (i : Z) (l : list Index) : nat := length (filter (fun m => i <= i_index m) l).

(** Two voters of different commit groups have acknowledged index [i]. *)
Definition two_groups (voters : gset Z) (l : AckedIndexer) (i : Z) : Prop :=
  exists v w, v ∈ ackers voters l i /\ w ∈ ackers voters l i /\
    i_group_id (acked l v) <> 0 /\ i_group_id (acked l w) <> 0 /\
    i_group_id (acked l v) <> i_group_id (acked l w).

(** The voters that granted, rejected or did not answer. *)
Definition yes_of (voters : gset Z) (check : Z -> option bool) : gset Z :=
  filter (fun v => check v = Some true) voters.
Definition no_of (voters : gset Z) (check : Z -> option bool) : gset Z :=
  filter (fun v => check v = Some false) voters.
Definition missing_of (voters : gset Z) (check : Z -> option bool) : gset Z :=
  filter (fun v => check v = None) voters.

(** Filling in every missing vote. *)
Definition fill (check : Z -> option bool) : Z -> option bool := fun v =>
  match check v with Some b => Some b | None => Some true end.

(** A set that is a quorum of both halves; an empty half imposes nothing. *)
Definition joint_quorum (j : JointConfiguration) (Q : gset Z) : Prop :=
  (incoming_ j = ∅ \/ is_quorum (incoming_ j) (Q ∩ incoming_ j)) /\
  (outgoing_ j = ∅ \/ is_quorum (outgoing_ j) (Q ∩ outgoing_ j)).
End Joint.

(** ** Counting *)

Lemma elements_filter_perm (P : Z -> Prop) `{!forall x, Decision (P x)} (X : gset Z) :
  elements (filter P X) ≡ₚ filter P (elements X).
Proof.
  apply NoDup_Permutation.
  - apply NoDup_elements.
  - apply NoDup_filter, NoDup_elements.
  - intros x. rewrite elem_of_elements, elem_of_filter, list_elem_of_filter, elem_of_elements. done.
Qed.

Lemma size_filter_elements (P : Z -> Prop) `{!forall x, Decision (P x)} (X : gset Z) :
  size (filter P X) = length (filter P (elements X)).
Proof. rewrite <- elements_filter_perm. done. Qed.

Lemma length_filter_perm {A} (P : A -> Prop) `{!forall x, Decision (P x)} (l k : list A) :
  l ≡ₚ k -> length (filter P l) = length (filter P k).
Proof. intros E. by rewrite E. Qed.

Lemma length_filter_fmap {A B} (f : A -> B) (P : B -> Prop) `{!forall x, Decision (P x)} (l : list A) :
  length (filter P (f <$> l)) = length (filter (fun x => P (f x)) l).
Proof.
  induction l as [|x l IH]; [done|]. rewrite fmap_cons, !filter_cons.
  case_decide; simpl; by rewrite IH.
Qed.

Lemma filter_none {A} (P : A -> Prop) `{!forall x, Decision (P x)} (l : list A) :
  Forall (fun x => ~ P x) l -> filter P l = [].
Proof. induction 1 as [|x l Hx _ IH]; [done|]. by rewrite filter_cons_False. Qed.

(** Position [k] of a decreasing list: at least [k + 1] elements reach it, at
    most [k] exceed it. *)
Lemma sorted_position (l : list Index) k x :
  StronglySorted (fun a b => i_index b <= i_index a) l -> l !! k = Some x ->
  (k < reach (i_index x) l)%nat /\ forall i, i_index x < i -> (reach i l <= k)%nat.
Proof.
  unfold reach. intros Hs. revert k. induction Hs as [|y l Hs IH Hf]; intros k Hk; [done|].
  destruct k as [|k]; simpl in Hk.
  - injection Hk as ->. split.
    + rewrite filter_cons_True by lia. simpl. lia.
    + intros i Hi. rewrite filter_none; [simpl; lia|].
      constructor; [lia|]. eapply Forall_impl; [exact Hf|]. simpl. lia.
  - destruct (IH k Hk) as [IH1 IH2].
    assert (Hy : i_index x <= i_index y).
    { rewrite Forall_lookup in Hf. exact (Hf k x Hk). }
    split.
    + rewrite filter_cons_True by lia. simpl. lia.
    + intros i Hi. rewrite filter_cons. specialize (IH2 i Hi). case_decide; simpl; lia.
Qed.

Lemma majority_pos n : 0 <= n -> 1 <= majority n.
Proof. intros Hn. unfold majority. pose proof (Z.div_pos n 2 Hn). lia. Qed.

Lemma majority_le n : 0 < n -> majority n <= n.
Proof. intros Hn. unfold majority. pose proof (Z.div_lt n 2). lia. Qed.

Lemma majority_twice n : n < 2 * majority n.
Proof. unfold majority. pose proof (Z.div_mod n 2 ltac:(lia)). pose proof (Z.mod_pos_bound n 2). lia. Qed.

Section QuorumProofs.
Context `{Env}.

Lemma size_pos (X : gset Z) : X <> ∅ -> (0 < size X)%nat.
Proof. intros HX. assert (size X <> 0%nat); [|lia]. rewrite size_empty_iff. by unfold_leibniz. Qed.

(** The list the code sorts counts the acknowledgements of each index. *)
Lemma ackers_count voters l i :
  size (ackers voters l i) = reach i (sort_desc (acked l <$> iter voters)).
Proof.
  unfold ackers, reach. rewrite size_filter_elements.
  rewrite (length_filter_perm _ _ _ (sort_desc_perm _)), length_filter_fmap.
  by rewrite (length_filter_perm _ _ _ (iter_perm voters)).
Qed.

Lemma matched_length voters l :
  length (sort_desc (acked l <$> iter voters)) = size voters.
Proof. by rewrite sort_desc_perm, length_fmap, iter_perm. Qed.

(** The quorum position is in range. *)
Lemma quorum_position voters l : voters <> ∅ ->
  exists x, vec_at (sort_desc (acked l <$> iter voters))
              (majority (zlen (sort_desc (acked l <$> iter voters))) - 1) = Ret x.
Proof.
  intros Hv. apply vec_at_lt. rewrite matched_length. apply size_pos in Hv.
  pose proof (majority_pos (Z.of_nat (size voters))). pose proof (majority_le (Z.of_nat (size voters))). lia.
Qed.

Lemma quorum_position_spec voters l x :
  vec_at (sort_desc (acked l <$> iter voters))
    (majority (zlen (sort_desc (acked l <$> iter voters))) - 1) = Ret x ->
  is_quorum voters (ackers voters l (i_index x)) /\
  forall i, i_index x < i -> ~ is_quorum voters (ackers voters l i).
Proof.
  intros E. apply vec_at_Ret in E as [Hp E].
  apply sorted_position in E as [H1 H2]; [|apply sort_desc_sorted].
  rewrite matched_length in *. unfold is_quorum. split.
  - split; [unfold ackers; set_solver|]. rewrite ackers_count. lia.
  - intros i Hi [_ Hq]. specialize (H2 i Hi). rewrite ackers_count in Hq. lia.
Qed.

Lemma MajorityCommittedIndex_spec voters l : voters <> ∅ ->
  exists r, MajorityCommittedIndex voters false l = Ret (r, false) /\
    is_quorum voters (ackers voters l r) /\
    forall i, r < i -> ~ is_quorum voters (ackers voters l i).
Proof.
  intros Hv. unfold MajorityCommittedIndex. rewrite bool_decide_false by done.
  destruct (quorum_position voters l Hv) as [x Hx]. rewrite Hx. simpl.
  exists (i_index x). split; [done|]. by apply quorum_position_spec.
Qed.

Lemma ackers_mono X l i k : i <= k -> ackers X l k ⊆ ackers X l i.
Proof. intros Hik v. unfold ackers. rewrite !elem_of_filter. intros []. split; [lia|done]. Qed.

Lemma quorum_mono X Q Q' : is_quorum X Q -> Q ⊆ Q' -> Q' ⊆ X -> is_quorum X Q'.
Proof.
  intros [_ HQ] Hs HX. split; [done|]. apply subseteq_size in Hs. lia.
Qed.

(** ** Group commit *)

Lemma group_scan_inl ms q c sg r b : group_scan ms q c sg = inl (r, b) ->
  b = true /\ exists pre m post c', ms = pre ++ m :: post /\ r = Z.min (i_index m) q /\
    i_group_id m <> 0 /\ c' <> 0 /\ c' <> i_group_id m /\
    (forall x, x ∈ pre -> i_group_id x = 0 \/ i_group_id x = c') /\
    (c <> 0 -> c' = c) /\ (c = 0 -> exists x, x ∈ pre /\ i_group_id x = c').
Proof.
  revert c sg. induction ms as [|m ms IH]; intros c sg E; simpl in E; [done|].
  destruct (Z.eqb_spec (i_group_id m) 0) as [Hm|Hm].
  - apply IH in E as (-> & pre & m' & post & c' & -> & ?). split; [done|].
    exists (m :: pre), m', post, c'. set_solver.
  - destruct (Z.eqb_spec c 0) as [Hc|Hc].
    + apply IH in E as (-> & pre & m' & post & c' & -> & ?). split; [done|].
      exists (m :: pre), m', post, c'. set_solver.
    + destruct (Z.eqb_spec c (i_group_id m)) as [Hg|Hg].
      * apply IH in E as (-> & pre & m' & post & c' & -> & ?). split; [done|].
        exists (m :: pre), m', post, c'. set_solver.
      * injection E as <- <-. split; [done|]. exists [], m, ms, c. set_solver.
Qed.

Lemma group_scan_inr ms q c sg b : group_scan ms q c sg = inr b ->
  b = sg && forallb (fun x => negb (i_group_id x =? 0)) ms /\
  exists c', (forall x, x ∈ ms -> i_group_id x = 0 \/ i_group_id x = c') /\ (c <> 0 -> c' = c).
Proof.
  revert c sg. induction ms as [|m ms IH]; intros c sg E; simpl in E.
  - injection E as <-. split; [by rewrite andb_true_r|]. exists c. set_solver.
  - simpl. destruct (Z.eqb_spec (i_group_id m) 0) as [Hm|Hm].
    + apply IH in E as (-> & c' & ?). split; [by rewrite andb_false_r|]. exists c'. set_solver.
    + destruct (Z.eqb_spec c 0) as [Hc|Hc]; [|destruct (Z.eqb_spec c (i_group_id m)); [|done]];
        apply IH in E as (-> & c' & ?); (split; [done|]); exists c'; set_solver.
Qed.

Lemma matched_elem voters l m :
  m ∈ sort_desc (acked l <$> iter voters) <-> exists v, v ∈ voters /\ acked l v = m.
Proof.
  rewrite (sort_desc_perm (acked l <$> iter voters)), list_elem_of_fmap.
  setoid_rewrite (iter_perm voters). setoid_rewrite elem_of_elements. naive_solver.
Qed.

Lemma sorted_app (l1 l2 : list Index) x y :
  StronglySorted (fun a b => i_index b <= i_index a) (l1 ++ l2) ->
  x ∈ l1 -> y ∈ l2 -> i_index y <= i_index x.
Proof.
  induction l1 as [|z l1 IH]; [set_solver|]. simpl. intros Hs Hx Hy.
  apply StronglySorted_inv in Hs as [Hs Hf]. apply elem_of_cons in Hx as [->|Hx]; [|by apply IH].
  rewrite Forall_forall in Hf. apply Hf. set_solver.
Qed.

(** The voter at the quorum position is a voter. *)
Lemma quorum_position_voter voters l k x :
  vec_at (sort_desc (acked l <$> iter voters)) k = Ret x -> exists v, v ∈ voters /\ acked l v = x.
Proof. intros E. apply vec_at_Ret in E as [_ E]. eapply matched_elem, list_elem_of_lookup_2, E. Qed.

(** The scan found a second group: its index is the best one both groups and
    a quorum have acknowledged. *)
Lemma group_found voters l q r :
  vec_at (sort_desc (acked l <$> iter voters))
    (majority (zlen (sort_desc (acked l <$> iter voters))) - 1) = Ret q ->
  group_scan (sort_desc (acked l <$> iter voters)) (i_index q) (i_group_id q) true = inl (r, true) ->
  (is_quorum voters (ackers voters l r) /\ two_groups voters l r) /\
  forall i, r < i -> ~ (is_quorum voters (ackers voters l i) /\ two_groups voters l i).
Proof.
  intros Eq E. apply group_scan_inl in E as (_ & pre & m & post & c & Em & -> & Hm & Hc & Hcm & Hpre & Hc1 & Hc2).
  destruct (quorum_position_spec _ _ _ Eq) as [Q Mx].
  pose proof (sort_desc_sorted (acked l <$> iter voters)) as Hs. rewrite Em in Hs.
  assert (Hin : forall x, x ∈ pre ++ m :: post <-> exists v, v ∈ voters /\ acked l v = x).
  { intros x. rewrite <- Em. apply matched_elem. }
  destruct (proj1 (Hin m) ltac:(set_solver)) as (vm & Hvm & Am).
  split; [split|].
  - eapply quorum_mono; [exact Q|apply ackers_mono; lia|unfold ackers; set_solver].
  - assert (Hw : exists w, w ∈ voters /\ i_group_id (acked l w) = c /\
                 Z.min (i_index m) (i_index q) <= i_index (acked l w)).
    { destruct (Z.eq_dec (i_group_id q) 0) as [Hq|Hq].
      - destruct (Hc2 Hq) as (x & Hx & Gx). destruct (proj1 (Hin x) ltac:(set_solver)) as (w & Hw & Aw).
        exists w. rewrite Aw. split; [done|]. split; [done|].
        pose proof (sorted_app pre (m :: post) x m Hs Hx ltac:(set_solver)). lia.
      - destruct (quorum_position_voter _ _ _ _ Eq) as (w & Hw & Aw). exists w. rewrite Aw.
        rewrite (Hc1 Hq). split; [done|]. split; [done|lia]. }
    destruct Hw as (w & Hw & Gw & Iw). exists vm, w. unfold ackers. rewrite !elem_of_filter, Am, Gw.
    repeat split; done || lia.
  - intros i Hi [Qi (v & w & Hv & Hw & Gv & Gw & Gne)].
    apply elem_of_filter in Hv as [Iv Hv]. apply elem_of_filter in Hw as [Iw Hw].
    assert (Hiq : i <= i_index q) by (destruct (Z.le_gt_cases i (i_index q)); [done|exfalso; by eapply Mx]).
    assert (Hp : forall u, u ∈ voters -> i <= i_index (acked l u) -> acked l u ∈ pre).
    { intros u Hu Iu. pose proof (proj2 (Hin (acked l u)) (ex_intro _ u (conj Hu eq_refl))) as Hu'.
      apply elem_of_app in Hu' as [?|Hu']; [done|exfalso].
      pose proof (sorted_app (pre ++ [m]) post m (acked l u)) as Hl. rewrite <- app_assoc in Hl.
      apply elem_of_cons in Hu' as [Hu'|Hu']; [rewrite Hu' in Iu; lia|].
      specialize (Hl Hs ltac:(set_solver) Hu'). lia. }
    destruct (Hpre _ (Hp v Hv Iv)); [done|]. destruct (Hpre _ (Hp w Hw Iw)); [done|]. congruence.
Qed.

(** ** Votes *)

Lemma vote_fold (check : Z -> option bool) l y m :
  foldl (fun '(yes, missing) voter =>
      match check voter with
      | Some true => (yes + 1, missing)
      | Some false => (yes, missing)
      | None => (yes, missing + 1)
      end) (y, m) l =
  (y + zlen (filter (fun v => check v = Some true) l),
   m + zlen (filter (fun v => check v = None) l)).
Proof.
  revert y m. induction l as [|v l IH]; intros y m; [simpl; f_equal; lia|].
  simpl. rewrite !filter_cons. destruct (check v) as [[]|] eqn:E; rewrite IH;
    rewrite ?decide_True, ?decide_False by congruence; simpl; f_equal; lia.
Qed.

Lemma MajorityGetVoteResult_eq voters check : voters <> ∅ ->
  MajorityGetVoteResult voters check =
    if majority (Z.of_nat (size voters)) <=? Z.of_nat (size (yes_of voters check)) then VoteWon
    else if majority (Z.of_nat (size voters)) <=?
            Z.of_nat (size (yes_of voters check)) + Z.of_nat (size (missing_of voters check))
    then VotePending else VoteLost.
Proof.
  intros Hv. unfold MajorityGetVoteResult. rewrite bool_decide_false by done.
  rewrite vote_fold. unfold yes_of, missing_of. rewrite !size_filter_elements.
  rewrite !(length_filter_perm _ _ _ (iter_perm voters)). done.
Qed.

Lemma MajorityWon voters check :
  MajorityGetVoteResult voters check = VoteWon <->
  voters = ∅ \/ is_quorum voters (yes_of voters check).
Proof.
  destruct (decide (voters = ∅)) as [->|Hv].
  - unfold MajorityGetVoteResult. rewrite bool_decide_true by done. split; auto.
  - rewrite MajorityGetVoteResult_eq by done. unfold is_quorum.
    destruct (Z.leb_spec (majority (Z.of_nat (size voters))) (Z.of_nat (size (yes_of voters check)))) as [Hq|Hq].
    + split; [|done]. intros _. right. split; [unfold yes_of; set_solver|done].
    + split; [by destruct (_ <=? _)|]. intros [?|[_ ?]]; [done|lia].
Qed.

(** Two quorums of the same voters meet. *)
Lemma quorum_intersection voters Q1 Q2 :
  is_quorum voters Q1 -> is_quorum voters Q2 -> exists v, v ∈ Q1 /\ v ∈ Q2.
Proof.
  intros [H1 S1] [H2 S2]. destruct (decide (Q1 ∩ Q2 = ∅)) as [E|E].
  - exfalso. assert (size (Q1 ∪ Q2) <= size voters)%nat by (apply subseteq_size; set_solver).
    rewrite size_union in * by set_solver.
    pose proof (majority_twice (Z.of_nat (size voters))). lia.
  - apply set_choose_L in E as [v Hv]. exists v. set_solver.
Qed.

Lemma ackers_restrict U X l i : X ⊆ U -> ackers U l i ∩ X = ackers X l i.
Proof.
  intros HX. apply set_eq. intros v. unfold ackers.
  rewrite elem_of_intersection, !elem_of_filter. set_solver.
Qed.

Lemma ackers_quorum_mono X l i k : i <= k ->
  X = ∅ \/ is_quorum X (ackers X l k) -> X = ∅ \/ is_quorum X (ackers X l i).
Proof.
  intros Hik [?|Q]; [by left|right]. apply (quorum_mono _ _ _ Q); [by apply ackers_mono|].
  unfold ackers. set_solver.
Qed.

(** The half of a joint configuration: its committed index is the largest with
    a quorum of acknowledgements, and an empty half never limits. *)
Lemma half_committed X l : (forall v, i_index (acked l v) <= u64max) ->
  exists r b, MajorityCommittedIndex X false l = Ret (r, b) /\ r <= u64max /\
    (X = ∅ \/ is_quorum X (ackers X l r)) /\
    forall i, r < i -> i <= u64max -> ~ (X = ∅ \/ is_quorum X (ackers X l i)).
Proof.
  intros Hb. destruct (decide (X = ∅)) as [->|HX].
  - exists u64max, true. unfold MajorityCommittedIndex. rewrite bool_decide_true by done.
    split; [done|]. split; [lia|]. split; [by left|]. intros. lia.
  - destruct (MajorityCommittedIndex_spec X l HX) as (r & E & Q & Mx).
    exists r, false. split; [exact E|]. split.
    + destruct Q as [_ Q]. pose proof (majority_pos (Z.of_nat (size X))).
      destruct (decide (ackers X l r = ∅)) as [Ha|Ha].
      * rewrite Ha, size_empty in Q. lia.
      * apply set_choose_L in Ha as [v Hv]. apply elem_of_filter in Hv as [Hv _].
        specialize (Hb v). lia.
    + split; [by right|]. intros i Hi _ [?|?]; [done|]. by eapply Mx.
Qed.

(** Acknowledgements of index [i] by a joint quorum. *)
Lemma joint_quorum_ackers j l i :
  joint_quorum j (ackers (JointIDs j) l i) <->
  (incoming_ j = ∅ \/ is_quorum (incoming_ j) (ackers (incoming_ j) l i)) /\
  (outgoing_ j = ∅ \/ is_quorum (outgoing_ j) (ackers (outgoing_ j) l i)).
Proof.
  unfold joint_quorum. rewrite !ackers_restrict by (unfold JointIDs; set_solver). done.
Qed.


Lemma JointWon j check :
  JointGetVoteResult j check = VoteWon <->
  joint_quorum j (yes_of (JointIDs j) check).
Proof.
  unfold joint_quorum.
  assert (Hr : forall X, X ⊆ JointIDs j -> yes_of (JointIDs j) check ∩ X = yes_of X check).
  { intros X HX. apply set_eq. intros v. unfold yes_of.
    rewrite elem_of_intersection, !elem_of_filter. set_solver. }
  rewrite !Hr by (unfold JointIDs; set_solver). rewrite <- !MajorityWon.
  unfold JointGetVoteResult.
  destruct (MajorityGetVoteResult (incoming_ j) check), (MajorityGetVoteResult (outgoing_ j) check);
    intuition congruence.
Qed.

Lemma joint_quorum_intersection j Q1 Q2 : incoming_ j <> ∅ ->
  joint_quorum j Q1 -> joint_quorum j Q2 -> exists v, v ∈ Q1 /\ v ∈ Q2.
Proof.
  intros Hj [[?|H1] _] [[?|H2] _]; [done..|].
  destruct (quorum_intersection _ _ _ H1 H2) as (v & Hv1 & Hv2). exists v. set_solver.
Qed.

(** With group commit or without it, a committed index has a quorum. *)
Lemma MajorityCommitted_quorum X g l r b : MajorityCommittedIndex X g l = Ret (r, b) -> X = ∅ \/ is_quorum X (ackers X l r).
Proof.
  unfold MajorityCommittedIndex. destruct (bool_decide_reflect (X = ∅)) as [|HX]; [by left|]. intros E. right. revert E.
  destruct (quorum_position X l HX) as [q Eq]. rewrite Eq. cbn. pose proof (proj1 (quorum_position_spec _ _ _ Eq)) as Hq.
  destruct g; cbn; [|by intros [= <- _]]. destruct (group_scan _ _ _ _) as [[r' b']|[]] eqn:Eg.
  - intros [= <- _]. pose proof Eg as Eg'. apply group_scan_inl in Eg' as (-> & _). by apply (group_found _ _ _ _ Eq).
  - by intros [= <- _].
  - destruct (vec_at _ (zlen _ - 1)) as [back|] eqn:Eb; [|done]. cbn. intros [= <- _]. apply vec_at_Ret in Eb as [Hp Eb].
    apply sorted_position in Eb as [Hk _]; [|apply sort_desc_sorted].
    split; [unfold ackers; set_solver|]. rewrite ackers_count. rewrite matched_length in *. pose proof (size_pos X HX).
    pose proof (majority_le (Z.of_nat (size X))). lia.
Qed.

Lemma JointCommitted_quorum j g l r b : JointCommittedIndex j g l = Ret (r, b) -> joint_quorum j (ackers (JointIDs j) l r).
Proof.
  unfold JointCommittedIndex. destruct (MajorityCommittedIndex (incoming_ j) g l) as [[ri bi]|] eqn:Ei; [|done].
  cbn. destruct (MajorityCommittedIndex (outgoing_ j) g l) as [[ro bo]|] eqn:Eo; [|done]. cbn. intros [= <- _]. apply joint_quorum_ackers.
  split; [apply (ackers_quorum_mono _ _ _ ri)|apply (ackers_quorum_mono _ _ _ ro)]; lia || by eapply MajorityCommitted_quorum.
Qed.

(** C6: An election won in a configuration has the vote of a peer that has
    acknowledged the committed index of that configuration, with group commit
    or without it. *)
Theorem won_election_sees_committed_index j g l check r b :
  incoming_ j <> ∅ -> JointCommittedIndex j g l = Ret (r, b) -> JointGetVoteResult j check = VoteWon ->
  exists v, check v = Some true /\ r <= i_index (acked l v).
Proof.
  intros Hj Hc Hw. apply JointWon in Hw. apply JointCommitted_quorum in Hc.
  destruct (joint_quorum_intersection j _ _ Hj Hw Hc) as (v & H1 & H2).
  apply elem_of_filter in H1 as [H1 _]. apply elem_of_filter in H2 as [H2 _]. eauto.
Qed.

Lemma size_yes_fill X check :
  size (yes_of X (fill check)) = (size (yes_of X check) + size (missing_of X check))%nat.
Proof.
  rewrite <- size_union.
  - f_equal. apply set_eq. intros v. unfold yes_of, missing_of, fill.
    rewrite elem_of_union, !elem_of_filter. destruct (check v) as [[]|]; naive_solver.
  - intros v. unfold yes_of, missing_of. rewrite !elem_of_filter. naive_solver congruence.
Qed.

Lemma yes_fill_mono X check check' :
  (forall v, check v <> None -> check' v = check v) ->
  yes_of X check' ⊆ yes_of X (fill check).
Proof.
  intros He v. unfold yes_of, fill. rewrite !elem_of_filter. intros [Hv ?]. split; [|done].
  specialize (He v). destruct (check v) as [b|]; [|done]. rewrite He in Hv by done. done.
Qed.

Lemma MajorityLost X check :
  MajorityGetVoteResult X check = VoteLost <->
  MajorityGetVoteResult X (fill check) <> VoteWon.
Proof.
  rewrite MajorityWon. destruct (decide (X = ∅)) as [->|HX].
  - unfold MajorityGetVoteResult. rewrite bool_decide_true by done. naive_solver.
  - rewrite MajorityGetVoteResult_eq by done. unfold is_quorum. rewrite size_yes_fill.
    pose proof (size_pos X HX) as Hp.
    destruct (Z.leb_spec (majority (Z.of_nat (size X))) (Z.of_nat (size (yes_of X check)))).
    + split; [done|]. intros Hn. exfalso. apply Hn. right. split; [unfold yes_of; set_solver|lia].
    + destruct (Z.leb_spec (majority (Z.of_nat (size X)))
        (Z.of_nat (size (yes_of X check)) + Z.of_nat (size (missing_of X check)))).
      * split; [done|]. intros Hn. exfalso. apply Hn. right. split; [unfold yes_of; set_solver|lia].
      * split; [|done]. intros _ [?|[_ ?]]; [done|lia].
Qed.

(** A vote is won exactly when the granting voters form a quorum, and lost
    exactly when no further votes could still win it. *)
Theorem vote_result_decided j check :
  (JointGetVoteResult j check = VoteWon <-> joint_quorum j (yes_of (JointIDs j) check)) /\
  (JointGetVoteResult j check = VoteLost <->
     forall check', (forall v, check v <> None -> check' v = check v) ->
     JointGetVoteResult j check' <> VoteWon).
Proof.
  split; [apply JointWon|].
  assert (Hl : JointGetVoteResult j check = VoteLost <->
    MajorityGetVoteResult (incoming_ j) check = VoteLost \/
    MajorityGetVoteResult (outgoing_ j) check = VoteLost).
  { unfold JointGetVoteResult.
    destruct (MajorityGetVoteResult (incoming_ j) check), (MajorityGetVoteResult (outgoing_ j) check);
      intuition congruence. }
  assert (Hw : forall c, JointGetVoteResult j c = VoteWon <->
    MajorityGetVoteResult (incoming_ j) c = VoteWon /\ MajorityGetVoteResult (outgoing_ j) c = VoteWon).
  { intros c. unfold JointGetVoteResult.
    destruct (MajorityGetVoteResult (incoming_ j) c), (MajorityGetVoteResult (outgoing_ j) c);
      intuition congruence. }
  rewrite Hl, !MajorityLost. split.
  - intros Hf check' He Hc. rewrite Hw, !MajorityWon in Hc. rewrite !MajorityWon in Hf.
    assert (Hm : forall X, X = ∅ \/ is_quorum X (yes_of X check') ->
                 X = ∅ \/ is_quorum X (yes_of X (fill check))).
    { intros X [?|Q]; [by left|right]. apply (quorum_mono _ _ _ Q); [by apply yes_fill_mono|].
      unfold yes_of. set_solver. }
    destruct Hf as [Hf|Hf]; apply Hf, Hm; apply Hc.
  - intros Hf. specialize (Hf (fill check)).
    assert (Hc : JointGetVoteResult j (fill check) <> VoteWon).
    { apply Hf. intros v Hv. unfold fill. by destruct (check v). }
    rewrite Hw in Hc.
    destruct (decide (MajorityGetVoteResult (incoming_ j) (fill check) = VoteWon)); [|by left].
    right. naive_solver.
Qed.
(** The scan found no second group. *)
Lemma group_missing voters l q c b :
  group_scan (sort_desc (acked l <$> iter voters)) q c true = inr b ->
  ~ (exists i, two_groups voters l i) /\
  (b = true <-> forall v, v ∈ voters -> i_group_id (acked l v) <> 0).
Proof.
  intros E. apply group_scan_inr in E as (-> & c' & Hc & _). split.
  - intros (i & v & w & Hv & Hw & Gv & Gw & Gne).
    apply elem_of_filter in Hv as [_ Hv]. apply elem_of_filter in Hw as [_ Hw].
    destruct (Hc (acked l v)); [by apply matched_elem; eauto|done|].
    destruct (Hc (acked l w)); [by apply matched_elem; eauto|done|]. congruence.
  - simpl. rewrite forallb_forall. setoid_rewrite <- list_elem_of_In.
    setoid_rewrite matched_elem. setoid_rewrite negb_true_iff. setoid_rewrite Z.eqb_neq. naive_solver.
Qed.

Lemma last_position voters l : voters <> ∅ ->
  exists x, vec_at (sort_desc (acked l <$> iter voters))
              (zlen (sort_desc (acked l <$> iter voters)) - 1) = Ret x /\
    (exists v, v ∈ voters /\ acked l v = x) /\
    forall v, v ∈ voters -> i_index x <= i_index (acked l v).
Proof.
  intros Hv. apply size_pos in Hv.
  destruct (vec_at_lt (sort_desc (acked l <$> iter voters))
    (zlen (sort_desc (acked l <$> iter voters)) - 1)) as [x Hx]; [rewrite matched_length; lia|].
  exists x. split; [done|]. split; [by eapply quorum_position_voter|]. intros v Hvv.
  assert (Hm : acked l v ∈ sort_desc (acked l <$> iter voters)) by (apply matched_elem; eauto).
  apply vec_at_Ret in Hx as [_ Hx]. rewrite matched_length in Hx.
  pose proof (matched_length voters l) as Hl.
  destruct (sort_desc (acked l <$> iter voters)) as [|y ms _] eqn:E using rev_ind; [set_solver|].
  rewrite length_app in Hl. simpl in Hl. rewrite lookup_app_r in Hx by lia.
  replace (Z.to_nat (Z.of_nat (size voters) - 1) - length ms)%nat with 0%nat in Hx by lia.
  injection Hx as ->. apply elem_of_app in Hm as [Hm|Hm].
  - pose proof (sort_desc_sorted (acked l <$> iter voters)) as Hs. rewrite E in Hs.
    eapply sorted_app; [exact Hs|exact Hm|set_solver].
  - apply list_elem_of_singleton in Hm. rewrite Hm. lia.
Qed.

(** With group commit, the committed index is the largest one acknowledged by
    a quorum that spans two groups; when no index spans two groups it is the
    quorum index if all voters have a group, and the minimum otherwise. *)
Theorem group_commit_index voters l : voters <> ∅ ->
  exists r b, MajorityCommittedIndex voters true l = Ret (r, b) /\
  if b then
    (is_quorum voters (ackers voters l r) /\ two_groups voters l r) /\
    forall i, r < i -> ~ (is_quorum voters (ackers voters l i) /\ two_groups voters l i)
  else
    ~ (exists i, two_groups voters l i) /\
    ((forall v, v ∈ voters -> i_group_id (acked l v) <> 0) ->
      is_quorum voters (ackers voters l r) /\
      forall i, r < i -> ~ is_quorum voters (ackers voters l i)) /\
    ((exists v, v ∈ voters /\ i_group_id (acked l v) = 0) ->
      ackers voters l r = voters /\ forall i, r < i -> ackers voters l i <> voters).
Proof.
  intros Hv. unfold MajorityCommittedIndex. rewrite bool_decide_false by done.
  destruct (quorum_position voters l Hv) as [q Hq]. rewrite Hq. cbn [obind negb].
  destruct (group_scan _ _ _ _) as [[r b]|b] eqn:E.
  - pose proof (proj1 (group_scan_inl _ _ _ _ _ _ E)) as ->. exists r, true.
    split; [done|]. by eapply group_found.
  - destruct (group_missing _ _ _ _ _ E) as [Hn Hb]. destruct b.
    + exists (i_index q), false. split; [done|]. split; [done|]. split.
      * intros _. by apply quorum_position_spec.
      * intros (v & Hvv & Gv). by apply (proj1 Hb eq_refl) in Gv.
    + destruct (last_position voters l Hv) as (x & Hx & (v & Hvv & Av) & Hmin). rewrite Hx.
      exists (i_index x), false. split; [done|]. split; [done|]. split.
      { intros Hall. by apply Hb in Hall. }
      intros _. split.
      * apply set_eq. intros w. unfold ackers. rewrite elem_of_filter. naive_solver.
      * intros i Hi Ha. rewrite <- Ha in Hvv. apply elem_of_filter in Hvv as [Hvv _].
        rewrite Av in Hvv. lia.
Qed.
End QuorumProofs.

(** ** Witnesses *)

Definition example_acked : AckedIndexer := fun v =>
  if v =? 1 then Some (mkIndex 5 1) else if v =? 2 then Some (mkIndex 4 1)
  else if v =? 3 then Some (mkIndex 2 2) else None.


Lemma won_election_sees_committed_index_witness :
  exists v, (fun v => if v =? 1 then None else Some true) v = Some true /\
    4 <= i_index (acked example_acked v).
Proof.
  apply (won_election_sees_committed_index (mkJoint {[1; 2; 3]} ∅) false example_acked _ 4 false).
  - intros E. by apply (f_equal (fun X => bool_decide (1 ∈ X))) in E.
  - vm_compute. reflexivity.
  - vm_compute. reflexivity.
Defined.

Lemma group_commit_index_witness :
  exists r b, MajorityCommittedIndex {[1; 2; 3]} true example_acked = Ret (r, b).
Proof.
  destruct (group_commit_index {[1; 2; 3]} example_acked) as (r & b & E & _).
  - intros E. by apply (f_equal (fun X => bool_decide (1 ∈ X))) in E.
  - exists r, b. exact E.
Defined.
