(* ===== verification/Tracker.v ===== *)
(** * Progress tracker

    Model of [lib/core/tracker_conf.cc] and [lib/core/progress_tracker.cc]: the
    active configuration, the progress of every peer and the votes of the
    current election. *)

From S2P Require Import Prelude Types Inflights Progress Quorum.

Record TrackerConfiguration := mkTrackerConf {
  voters : JointConfiguration;
  learners : gset Z;
  learners_next : gset Z;
  auto_leave : bool
}.
#[export] Instance TrackerConfiguration_eta : Eta TrackerConfiguration := fun c =>
  mkTrackerConf (voters c) (learners c) (learners_next c) (auto_leave c).

Definition empty_tracker_conf : TrackerConfiguration :=
  mkTrackerConf (mkJoint ∅ ∅) ∅ ∅ false.

(** [TrackerConfiguration(voters, learners)]: the learners are not used. *)
Definition tracker_conf_of (voters _learners : gset Z) : TrackerConfiguration :=
  mkTrackerConf (mkJoint voters ∅) ∅ ∅ false.

Definition conf_Clear (c : TrackerConfiguration) : TrackerConfiguration :=
  c <| voters := JointClear (voters c) |> <| learners := ∅ |> <| learners_next := ∅ |>
    <| auto_leave := false |>.

Definition incoming (c : TrackerConfiguration) : gset Z := incoming_ (voters c).
Definition outgoing (c : TrackerConfiguration) : gset Z := outgoing_ (voters c).

Inductive MapChangeType := MCAdd | MCRemove.
Definition MapChange := list (Z * MapChangeType).

Record ProgressTracker := mkProgressTracker {
  progress_ : gmap Z Progress;
  conf_ : TrackerConfiguration;
  votes_ : gmap Z bool;
  max_inflight_ : Z;
  group_commit_ : bool
}.
#[export] Instance ProgressTracker_eta : Eta ProgressTracker := fun t =>
  mkProgressTracker (progress_ t) (conf_ t) (votes_ t) (max_inflight_ t) (group_commit_ t).

Definition new (max_inflight : Z) : ProgressTracker :=
  mkProgressTracker ∅ empty_tracker_conf ∅ max_inflight false.

Section Tracker.
Context `{Env}.

Definition ToConfState (c : TrackerConfiguration) : ConfState :=
  mkConfState (iter (incoming c)) (iter (learners c)) (iter (outgoing c))
    (iter (learners_next c)) (auto_leave c).

Definition GetVoteResult (votes : gmap Z bool) (t : ProgressTracker) : VoteResult :=
  JointGetVoteResult (voters (conf_ t)) (fun id => votes !! id).

Definition CountVotes (t : ProgressTracker) : Z * Z * VoteResult :=
  let '(granted, rejected) := foldl (fun '(granted, rejected) '((id, vote) : Z * bool) =>
      if negb (JointContains (voters (conf_ t)) id) then (granted, rejected)
      else if vote then (granted + 1, rejected) else (granted, rejected + 1))
    (0, 0) (iter_map (votes_ t)) in
  (granted, rejected, GetVoteResult (votes_ t) t).

(** One step of the loop of [ApplyConf]; [emplace] keeps an existing value. *)
Definition apply_change (max_inflight next_idx : Z) (m : gmap Z Progress)
    (change : Z * MapChangeType) : gmap Z Progress :=
  let '(id, change_type) := change in
  match change_type with
  | MCAdd =>
      match m !! id with
      | Some _ => m
      | None => <[id := (Progress.new next_idx max_inflight) <| recent_active_ := true |>]> m
      end
  | MCRemove => delete id m
  end.

Definition ApplyConf (conf : TrackerConfiguration) (changes : MapChange) (next_idx : Z) :
    M ProgressTracker unit :=
  set! conf_ := conf ;;;
  modify (fun t => t <| progress_ :=
    foldl (apply_change (max_inflight_ t) next_idx) (progress_ t) changes |>).

Definition ResetVotes : M ProgressTracker unit := set! votes_ := ∅.

Definition MaxCommittedIndex (t : ProgressTracker) : outcome (Z * bool) :=
  JointCommittedIndex (voters (conf_ t)) (group_commit_ t) (AckedIndex (progress_ t)).

Definition RecordVote (id : Z) (vote : bool) : M ProgressTracker unit :=
  modify (fun t => match votes_ t !! id with
                   | Some _ => t
                   | None => t <| votes_ := <[id := vote]> (votes_ t) |>
                   end).

Definition HasQuorum (potential_quorum : gset Z) (t : ProgressTracker) : bool :=
  bool_decide (JointGetVoteResult (voters (conf_ t))
    (fun id => Some (bool_decide (id ∈ potential_quorum))) = VoteWon).

(** One step of the loop of [QuorumRecentlyActive]. *)
Definition mark_active (perspective_of : Z) (acc : gset Z * gmap Z Progress) (visit : Z * Progress) :
    gset Z * gmap Z Progress :=
  let '(active, progress) := acc in
  let '(id, pr) := visit in
  if id =? perspective_of then
    ({[id]} ∪ active, <[id := pr <| recent_active_ := true |>]> progress)
  else if recent_active_ pr then
    ({[id]} ∪ active, <[id := pr <| recent_active_ := false |>]> progress)
  else (active, progress).

Definition QuorumRecentlyActive (perspective_of : Z) : M ProgressTracker bool :=
  let! t := get in
  let '(active, progress) :=
    foldl (mark_active perspective_of) (∅ : gset Z, progress_ t) (iter_map (progress_ t)) in
  set! progress_ := progress ;;;
  gets (HasQuorum active).

Definition IsSingleton (t : ProgressTracker) : bool := JointIsSingleton (voters (conf_ t)).

(** [ProgressTracker::at] *)
Definition at_ (id : Z) (t : ProgressTracker) : outcome Progress :=
  match progress_ t !! id with
  | Some p => Ret p
  | None => Abort (Panic "progress_.count(id) != 0")
  end.

Definition EnableGroupCommit (enable : bool) : M ProgressTracker unit :=
  set! group_commit_ := enable.
End Tracker.

(** ** Specification *)

(** The peers a configuration tracks. *)
Definition members (c : TrackerConfiguration) : gset Z :=
  incoming c ∪ outgoing c ∪ learners c.

(** The sets of a configuration are consistent with each other and with the
    set [D] of tracked peers. *)
Record conf_shape (c : TrackerConfiguration) (D : gset Z) : Prop := {
  wf_members : D = members c;
  wf_learners : learners c ## incoming c ∪ outgoing c;
  wf_next : learners_next c ⊆ outgoing c;
  wf_next_incoming : learners_next c ## incoming c
}.

(** Outside a joint configuration nothing is to be left automatically. *)
Definition conf_wf (c : TrackerConfiguration) (D : gset Z) : Prop :=
  conf_shape c D /\ (outgoing c = ∅ -> auto_leave c = false).

Definition tracker_wf (t : ProgressTracker) : Prop := conf_wf (conf_ t) (dom (progress_ t)).

(** The peers that are recorded as active. *)
Definition active_peers (perspective_of : Z) (m : gmap Z Progress) : gset Z :=
  dom (filter (fun '(id, pr) => id = perspective_of \/ recent_active_ pr = true) m).

(** The key set after a list of changes. *)
Definition change_dom (D : gset Z) (changes : MapChange) : gset Z :=
  foldl (fun D '((id, t) : Z * MapChangeType) =>
    match t with MCAdd => {[id]} ∪ D | MCRemove => D ∖ {[id]} end) D changes.

(** ** Properties *)

Section TrackerProofs.
Context `{Env}.

Lemma iter_map_elem {A} (m : gmap Z A) k a : (k, a) ∈ iter_map m <-> m !! k = Some a.
Proof.
  unfold iter_map. rewrite list_elem_of_omap. split.
  - intros (k' & _ & E). destruct (m !! k') as [a'|] eqn:E'; [|done]. by injection E as -> ->.
  - intros E. exists k. rewrite (iter_perm (dom m)), elem_of_elements, elem_of_dom, E. eauto.
Qed.

Lemma iter_map_keys {A} (m : gmap Z A) : (iter_map m).*1 = iter (dom m).
Proof.
  unfold iter_map. assert (Hk : forall k, k ∈ iter (dom m) -> is_Some (m !! k)).
  { intros k. by rewrite (iter_perm (dom m)), elem_of_elements, elem_of_dom. }
  induction (iter (dom m)) as [|k l IH]; [done|]. simpl.
  destruct (Hk k ltac:(set_solver)) as [a Ea]. rewrite Ea. simpl. f_equal. apply IH. set_solver.
Qed.

Lemma iter_map_nodup {A} (m : gmap Z A) : NoDup (iter_map m).*1.
Proof. rewrite iter_map_keys, (iter_perm (dom m)). apply NoDup_elements. Qed.

Lemma apply_changes_dom cap next changes m :
  dom (foldl (apply_change cap next) m changes) = change_dom (dom m) changes.
Proof.
  revert m. induction changes as [|[id []] cs IH]; intros m; [done|..]; simpl; rewrite IH; f_equal.
  - destruct (m !! id) as [p|] eqn:E; [|by rewrite dom_insert_L].
    apply elem_of_dom_2 in E. set_solver.
  - by rewrite dom_delete_L.
Qed.

Lemma apply_changes_keep cap next changes m id p :
  foldl (apply_change cap next) m changes !! id = Some p ->
  (exists q, m !! id = Some q /\ p = q) \/ p = (Progress.new next cap) <| recent_active_ := true |>.
Proof.
  revert m. induction changes as [|[k []] cs IH]; intros m E; simpl in E; [eauto|..];
    apply IH in E as [(q & E & ->)|E]; [|by right| |by right].
  - destruct (m !! k) as [x|] eqn:Ek; [eauto|].
    apply lookup_insert_Some in E as [[<- <-]|[_ E]]; eauto.
  - apply lookup_delete_Some in E as [_ E]. eauto.
Qed.

Lemma joint_quorum_ids j Q : joint_quorum j (JointIDs j ∩ Q) <-> joint_quorum j Q.
Proof.
  unfold joint_quorum, JointIDs.
  replace ((incoming_ j ∪ outgoing_ j) ∩ Q ∩ incoming_ j) with (Q ∩ incoming_ j) by set_solver.
  by replace ((incoming_ j ∪ outgoing_ j) ∩ Q ∩ outgoing_ j) with (Q ∩ outgoing_ j) by set_solver.
Qed.

Lemma HasQuorum_spec Q t : HasQuorum Q t = true <-> joint_quorum (voters (conf_ t)) Q.
Proof.
  unfold HasQuorum. rewrite bool_decide_eq_true, JointWon, <- (joint_quorum_ids _ Q).
  replace (yes_of _ _) with (JointIDs (voters (conf_ t)) ∩ Q); [done|].
  apply set_eq. intros v. unfold yes_of. rewrite elem_of_filter, elem_of_intersection.
  destruct (decide (v ∈ Q)); [rewrite bool_decide_true by done|rewrite bool_decide_false by done];
    naive_solver.
Qed.

(** What the loop of [QuorumRecentlyActive] leaves behind. *)
Lemma recently_active_loop me l a0 m0 active progress :
  NoDup l.*1 -> (forall id pr, (id, pr) ∈ l -> m0 !! id = Some pr) ->
  foldl (mark_active me) (a0, m0) l = (active, progress) ->
  (forall id, id ∈ active <-> id ∈ a0 \/
     exists pr, (id, pr) ∈ l /\ (id = me \/ recent_active_ pr = true)) /\
  (forall id pr, (id, pr) ∈ l ->
     progress !! id = Some (pr <| recent_active_ := bool_decide (id = me) |>)) /\
  (forall id, id ∉ l.*1 -> progress !! id = m0 !! id).
Proof.
  revert a0 m0. induction l as [|[k q] l IH]; intros a0 m0 Hn Hm E; cbn [foldl] in E.
  { injection E as <- <-. set_solver. }
  apply NoDup_cons in Hn as [Hk Hn]. simpl in Hk.
  set (x0 := mark_active me (a0, m0) (k, q)) in E.
  assert (Hx : exists m1, x0 = (if bool_decide (k = me \/ recent_active_ q = true) then {[k]} ∪ a0 else a0, m1) /\
     m1 !! k = Some (q <| recent_active_ := bool_decide (k = me) |>) /\
     forall i, i <> k -> m1 !! i = m0 !! i).
  { subst x0. unfold mark_active. destruct (Z.eqb_spec k me) as [Hme|Hme].
    - rewrite !bool_decide_true by auto. eexists. split; [done|].
      rewrite lookup_insert_eq. split; [done|]. intros. by rewrite lookup_insert_ne.
    - rewrite (bool_decide_false (k = me)) by done. destruct (recent_active_ q) eqn:Ea.
      + rewrite bool_decide_true by auto. eexists. split; [done|].
        rewrite lookup_insert_eq. split; [done|]. intros. by rewrite lookup_insert_ne.
      + rewrite bool_decide_false by naive_solver. exists m0. split; [done|].
        rewrite (Hm k q) by set_solver. split; [|done]. destruct q; simpl in *. by rewrite Ea. }
  destruct Hx as (m1 & Ex & Hk1 & Ho1). rewrite Ex in E. apply IH in E as (Ha & Hp & Ho); [|done|].
  - split; [|split].
    + intros id. rewrite Ha. clear -Hn. setoid_rewrite elem_of_cons.
      case_bool_decide as Hb; [rewrite elem_of_union, elem_of_singleton|]; split.
      * intros [[->|?]|(pr & ? & ?)]; eauto 6.
      * intros [?|(pr & [[= -> ->]|?] & ?)]; eauto 6.
      * intros [?|(pr & ? & ?)]; eauto 6.
      * intros [?|(pr & [[= -> ->]|?] & ?)]; eauto 6; done.
    + intros id pr Hin. apply elem_of_cons in Hin as [[= -> ->]|Hin]; [by rewrite Ho|by apply Hp].
    + intros id Hid. rewrite Ho by set_solver. apply Ho1. set_solver.
  - intros id pr Hin. rewrite Ho1; [apply Hm; set_solver|].
    intros ->. apply Hk. apply list_elem_of_fmap. by exists (k, pr).
Qed.

(** [QuorumRecentlyActive] returns whether the peers that are recently
    active, the caller always among them, form a quorum of the active
    configuration; afterwards exactly the caller is marked active, and nothing
    else of any progress has changed. *)
Theorem QuorumRecentlyActive_spec me t :
  exists b t', QuorumRecentlyActive me t = Ret (b, t') /\
    (b = true <-> joint_quorum (voters (conf_ t)) (active_peers me (progress_ t))) /\
    t' = t <| progress_ := map_imap (fun id pr =>
                Some (pr <| recent_active_ := bool_decide (id = me) |>)) (progress_ t) |>.
Proof.
  unfold QuorumRecentlyActive. msteps.
  destruct (foldl _ _ _) as [active progress] eqn:E. msteps.
  apply recently_active_loop in E as (Ha & Hp & Ho);
    [|apply iter_map_nodup|intros id pr; apply iter_map_elem].
  eexists _, _. split; [reflexivity|]. split.
  - rewrite HasQuorum_spec. cbn [conf_]. replace active with (active_peers me (progress_ t)); [done|].
    apply set_eq. intros id. rewrite Ha. unfold active_peers. rewrite elem_of_dom.
    setoid_rewrite iter_map_elem. unfold is_Some. setoid_rewrite map_lookup_filter_Some.
    set_solver.
  - upd_eq. apply map_eq. intros id. rewrite map_lookup_imap.
    destruct (progress_ t !! id) as [pr|] eqn:E; simpl.
    + apply Hp. by apply iter_map_elem.
    + rewrite Ho; [done|]. rewrite iter_map_keys, (iter_perm (dom _)), elem_of_elements.
      by apply not_elem_of_dom.
Qed.

Lemma count_fold c l g r :
  foldl (fun '(granted, rejected) '((id, vote) : Z * bool) =>
      if negb (JointContains c id) then (granted, rejected)
      else if vote then (granted + 1, rejected) else (granted, rejected + 1)) (g, r) l =
  (g + zlen (filter (fun '(id, vote) => id ∈ JointIDs c /\ vote = true) l),
   r + zlen (filter (fun '(id, vote) => id ∈ JointIDs c /\ vote = false) l)).
Proof.
  revert g r. induction l as [|[id v] l IH]; intros g r; [simpl; f_equal; lia|].
  cbn [foldl]. rewrite !filter_cons.
  assert (Hc : JointContains c id = bool_decide (id ∈ JointIDs c)).
  { unfold JointContains, JointIDs. rewrite <- bool_decide_or. apply bool_decide_ext. set_solver. }
  rewrite Hc. case_bool_decide; cbn [negb]; destruct v; rewrite IH; repeat case_decide;
    simpl; f_equal; try lia; naive_solver.
Qed.

Lemma votes_count (votes : gmap Z bool) (X : gset Z) b :
  length (filter (fun '(id, vote) => id ∈ X /\ vote = b) (iter_map votes)) =
  size (filter (fun v => votes !! v = Some b) X).
Proof.
  rewrite <- (length_fmap fst). unfold size, set_size. simpl. apply Permutation_length, NoDup_Permutation.
  - eapply sublist_NoDup; [apply (iter_map_nodup votes)|]. apply fmap_sublist, sublist_filter.
  - apply NoDup_elements.
  - intros id. rewrite elem_of_elements, elem_of_filter, list_elem_of_fmap.
    setoid_rewrite list_elem_of_filter. split.
    + intros ([k v] & -> & [Hk ->] & Hin). by apply iter_map_elem in Hin.
    + intros [E Hid]. exists (id, b). by rewrite iter_map_elem.
Qed.

(** [CountVotes] returns the number of voters of the active configuration
    that granted, the number that rejected, and the result of the election;
    answers of peers outside the configuration are not counted. *)
Theorem CountVotes_spec t :
  CountVotes t =
    (Z.of_nat (size (yes_of (JointIDs (voters (conf_ t))) (fun id => votes_ t !! id))),
     Z.of_nat (size (no_of (JointIDs (voters (conf_ t))) (fun id => votes_ t !! id))),
     JointGetVoteResult (voters (conf_ t)) (fun id => votes_ t !! id)).
Proof.
  unfold CountVotes. rewrite count_fold, !votes_count. unfold yes_of, no_of, GetVoteResult. done.
Qed.
End TrackerProofs.
