(* ===== verification/ConfChange.v ===== *)
(** * Configuration changes

    Model of [lib/core/conf_changer.cc] and [lib/core/conf_restore.cc].  The
    theorems show that a successful change keeps the tracker consistent with
    its configuration, that consecutive configurations have overlapping
    quorums, that a joint configuration can always be left, and that
    restoring a saved configuration gives it back. *)

From S2P Require Import Prelude Types Inflights Progress Quorum Tracker.

Record IncrChangeMap := mkIncrChangeMap {
  changes_ : MapChange;
  base_ : gmap Z Progress
}.
#[export] Instance IncrChangeMap_eta : Eta IncrChangeMap := fun m =>
  mkIncrChangeMap (changes_ m) (base_ m).

(** The last change of [id] decides, or else the base map. *)
Definition Contains (id : Z) (m : IncrChangeMap) : bool :=
  match find (fun p => fst p =? id) (rev (changes_ m)) with
  | Some (_, MCAdd) => true
  | Some (_, MCRemove) => false
  | None => bool_decide (is_Some (base_ m !! id))
  end.

Definition emplace_change (id : Z) (t : MapChangeType) (m : IncrChangeMap) : IncrChangeMap :=
  m <| changes_ := changes_ m ++ [(id, t)] |>.

Definition Joint (cfg : TrackerConfiguration) : bool := negb (bool_decide (outgoing cfg = ∅)).

Section ConfChange.
Context `{Env}.

(** [if (!cond) return RaftError(ConfChangeError(msg))] *)
Definition require (cond : bool) (e : RaftError) : Result unit := if cond then Ok tt else Err e.

Definition CheckInvariants (cfg : TrackerConfiguration) (prs : IncrChangeMap) : Result unit :=
  let* _ := foreachR (iter (JointIDs (voters cfg))) (fun id =>
    require (Contains id prs) (EConfChange "no progress for voter {}")) in
  let* _ := foreachR (iter (learners cfg)) (fun id =>
    let* _ := require (Contains id prs) (EConfChange "no progress for learner {}") in
    let* _ := require (negb (bool_decide (id ∈ outgoing cfg)))
                (EConfChange "{} is in learners and outgoing voters") in
    require (negb (bool_decide (id ∈ incoming cfg)))
      (EConfChange "{} is in learners and incoming voters")) in
  let* _ := foreachR (iter (learners_next cfg)) (fun id =>
    let* _ := require (Contains id prs) (EConfChange "no progress for learner(next) {}") in
    require (bool_decide (id ∈ outgoing cfg))
      (EConfChange "{} is in learners_next and outgoing voters")) in
  if negb (Joint cfg) then
    let* _ := require (bool_decide (learners_next cfg = ∅))
                (EConfChangeCode LearnersNextMustBeEmpty) in
    require (negb (auto_leave cfg)) (EConfChangeCode AutoLeaveMustBeFalse)
  else Ok tt.

(** The sets of a configuration, updated. *)
Definition set_incoming (X : gset Z) (cfg : TrackerConfiguration) : TrackerConfiguration :=
  cfg <| voters := (voters cfg) <| incoming_ := X |> |>.
Definition set_outgoing (X : gset Z) (cfg : TrackerConfiguration) : TrackerConfiguration :=
  cfg <| voters := (voters cfg) <| outgoing_ := X |> |>.

Definition InitProgress (id : Z) (is_learner : bool)
    (p : TrackerConfiguration * IncrChangeMap) : TrackerConfiguration * IncrChangeMap :=
  let '(cfg, prs) := p in
  let cfg := if negb is_learner then set_incoming ({[id]} ∪ incoming cfg) cfg
             else cfg <| learners := {[id]} ∪ learners cfg |> in
  (cfg, emplace_change id MCAdd prs).

Definition MakeVoter (id : Z) (p : TrackerConfiguration * IncrChangeMap) :
    TrackerConfiguration * IncrChangeMap :=
  let '(cfg, prs) := p in
  if negb (Contains id prs) then InitProgress id false (cfg, prs)
  else
    let cfg := set_incoming ({[id]} ∪ incoming cfg) cfg in
    let cfg := cfg <| learners := learners cfg ∖ {[id]} |> in
    let cfg := cfg <| learners_next := learners_next cfg ∖ {[id]} |> in
    (cfg, prs).

Definition MakeLearner (id : Z) (p : TrackerConfiguration * IncrChangeMap) :
    TrackerConfiguration * IncrChangeMap :=
  let '(cfg, prs) := p in
  if negb (Contains id prs) then InitProgress id true (cfg, prs)
  else if bool_decide (id ∈ learners cfg) then (cfg, prs)
  else
    let cfg := set_incoming (incoming cfg ∖ {[id]}) cfg in
    let cfg := cfg <| learners := learners cfg ∖ {[id]} |> in
    let cfg := cfg <| learners_next := learners_next cfg ∖ {[id]} |> in
    let cfg := if bool_decide (id ∈ outgoing cfg)
               then cfg <| learners_next := {[id]} ∪ learners_next cfg |>
               else cfg <| learners := {[id]} ∪ learners cfg |> in
    (cfg, prs).

Definition Remove (id : Z) (p : TrackerConfiguration * IncrChangeMap) :
    TrackerConfiguration * IncrChangeMap :=
  let '(cfg, prs) := p in
  if negb (Contains id prs) then (cfg, prs)
  else
    let cfg := set_incoming (incoming cfg ∖ {[id]}) cfg in
    let cfg := cfg <| learners := learners cfg ∖ {[id]} |> in
    let cfg := cfg <| learners_next := learners_next cfg ∖ {[id]} |> in
    (cfg, if negb (bool_decide (id ∈ outgoing cfg)) then emplace_change id MCRemove prs else prs).

(** The body of the loop of [Apply]. *)
Definition apply_one (p : TrackerConfiguration * IncrChangeMap) (cc : ConfChangeSingle) :
    TrackerConfiguration * IncrChangeMap :=
  if ccs_node_id cc =? 0 then p
  else match ccs_type cc with
       | AddNode => MakeVoter (ccs_node_id cc) p
       | RemoveNode => Remove (ccs_node_id cc) p
       | AddLearnerNode => MakeLearner (ccs_node_id cc) p
       end.

(** [cfg] and [prs] are in-out arguments: the result carries them. *)
Definition Apply (p : TrackerConfiguration * IncrChangeMap) (ccs : list ConfChangeSingle) :
    Result (TrackerConfiguration * IncrChangeMap) :=
  let '(cfg, prs) := foldl apply_one p ccs in
  if bool_decide (incoming cfg = ∅) then Err (EConfChangeCode RemovedAllVoters)
  else Ok (cfg, prs).

Definition CheckAndCopy (tracker : ProgressTracker) : Result (TrackerConfiguration * IncrChangeMap) :=
  let prs := mkIncrChangeMap [] (progress_ tracker) in
  let* _ := CheckInvariants (conf_ tracker) prs in
  Ok (conf_ tracker, prs).

Definition EnterJoint (auto_leave' : bool) (ccs : list ConfChangeSingle) (tracker : ProgressTracker) :
    Result (TrackerConfiguration * MapChange) :=
  if Joint (conf_ tracker) then Err (EConfChangeCode ConfigAlreadyJoint)
  else
    let* (cfg, prs) := CheckAndCopy tracker in
    if bool_decide (incoming cfg = ∅) then Err (EConfChangeCode ZeroVoterConfigJoint)
    else
      let cfg := set_outgoing (outgoing cfg ∪ incoming cfg) cfg in
      let* (cfg, prs) := Apply (cfg, prs) ccs in
      let cfg := cfg <| auto_leave := auto_leave' |> in
      let* _ := CheckInvariants cfg prs in
      Ok (cfg, changes_ prs).

Definition LeaveJoint (tracker : ProgressTracker) : Result (TrackerConfiguration * MapChange) :=
  if negb (Joint (conf_ tracker)) then Err (EConfChangeCode LeaveNonJointConfig)
  else
    let* (cfg, prs) := CheckAndCopy tracker in
    if bool_decide (outgoing cfg = ∅) then Err (EConfChange "configuration is not joint: {}")
    else
      let cfg := cfg <| learners := learners cfg ∪ learners_next cfg |> in
      let cfg := cfg <| learners_next := ∅ |> in
      let prs := foldl (fun prs id =>
          if negb (bool_decide (id ∈ incoming cfg)) && negb (bool_decide (id ∈ learners cfg))
          then emplace_change id MCRemove prs else prs)
        prs (iter (outgoing cfg)) in
      let cfg := set_outgoing ∅ cfg in
      let cfg := cfg <| auto_leave := false |> in
      let* _ := CheckInvariants cfg prs in
      Ok (cfg, changes_ prs).

Definition symmetric_difference (X Y : gset Z) : gset Z := (X ∖ Y) ∪ (Y ∖ X).

Definition Simple (ccs : list ConfChangeSingle) (tracker : ProgressTracker) :
    Result (TrackerConfiguration * MapChange) :=
  if Joint (conf_ tracker) then Err (EConfChangeCode CannotApplySimpleInJointConfig)
  else
    let* (cfg, prs) := CheckAndCopy tracker in
    let* (cfg, prs) := Apply (cfg, prs) ccs in
    let diff := symmetric_difference (incoming cfg) (incoming (conf_ tracker)) in
    if bool_decide (1 < size diff)%nat then Err (EConfChangeCode MultipleVotersChangedWithoutJoint)
    else
      let* _ := CheckInvariants cfg prs in
      Ok (cfg, changes_ prs).

(** ** [conf_restore.cc] *)

Definition ToConfChangeSingle (cs : ConfState) : list ConfChangeSingle * list ConfChangeSingle :=
  (mkCCS AddNode <$> cs_voters_outgoing cs,
   (mkCCS RemoveNode <$> cs_voters_outgoing cs) ++
   (mkCCS AddNode <$> cs_voters cs) ++
   (mkCCS AddLearnerNode <$> cs_learners cs) ++
   (mkCCS AddLearnerNode <$> cs_learners_next cs)).

(** The loop of the fallback: one [Apply] per change. *)
Fixpoint apply_each (p : TrackerConfiguration * IncrChangeMap) (ccs : list ConfChangeSingle) :
    Result (TrackerConfiguration * IncrChangeMap) :=
  match ccs with
  | [] => Ok p
  | i :: ccs' => let* p := Apply p [i] in apply_each p ccs'
  end.

(** The loop over the outgoing voters: one [Simple] and [ApplyConf] each. *)
Fixpoint simple_each (next_idx : Z) (ccs : list ConfChangeSingle) : M ProgressTracker (Result unit) :=
  match ccs with
  | [] => ret (Ok tt)
  | cc :: ccs' =>
      let! r := gets (Simple [cc]) in
      match r with
      | Ok (cfg, changes) => ApplyConf cfg changes next_idx ;;; simple_each next_idx ccs'
      | Err e => ret (Err e)
      end
  end.

Definition Restore (next_idx : Z) (cs : ConfState) : M ProgressTracker (Result unit) :=
  let '(outgoing, incoming) := ToConfChangeSingle cs in
  if bool_decide (outgoing = []) then
    let! result := gets (EnterJoint false incoming) in
    match result with
    | Err _ =>
        let! p := gets CheckAndCopy in
        match (let* p := p in
               let* (cfg, prs) := apply_each p incoming in
               let* _ := CheckInvariants cfg prs in
               Ok (cfg, changes_ prs)) with
        | Err e => ret (Err e)
        | Ok (cfg, changes) => ApplyConf cfg changes next_idx ;;; ret (Ok tt)
        end
    | Ok (cfg, changes) => ApplyConf cfg changes next_idx ;;; ret (Ok tt)
    end
  else
    let! r := simple_each next_idx outgoing in
    match r with
    | Err e => ret (Err e)
    | Ok _ =>
        let! r := gets (EnterJoint (cs_auto_leave cs) incoming) in
        match r with
        | Ok (cfg, changes) => ApplyConf cfg changes next_idx ;;; ret (Ok tt)
        | Err e => ret (Err e)
        end
    end.
End ConfChange.

(** ** Specification *)

(** The peers an [IncrChangeMap] contains. *)
Definition icm_dom (m : IncrChangeMap) : gset Z := change_dom (dom (base_ m)) (changes_ m).

(** What [CheckInvariants] checks. *)
Definition conf_ok (c : TrackerConfiguration) (D : gset Z) : Prop :=
  JointIDs (voters c) ⊆ D /\
  (learners c ⊆ D /\ learners c ## outgoing c /\ learners c ## incoming c) /\
  (learners_next c ⊆ D /\ learners_next c ⊆ outgoing c) /\
  (outgoing c = ∅ -> learners_next c = ∅ /\ auto_leave c = false).

(** A copy in progress: consistent, with the outgoing voters and the
    auto-leave flag of the original. *)
Definition copy_ok (out : gset Z) (al : bool) (p : TrackerConfiguration * IncrChangeMap) : Prop :=
  conf_shape p.1 (icm_dom p.2) /\ outgoing p.1 = out /\ auto_leave p.1 = al.

(** The configuration a joint one leads to. *)
Definition left_conf (c : TrackerConfiguration) : TrackerConfiguration :=
  mkTrackerConf (mkJoint (incoming c) ∅) (learners c ∪ learners_next c) ∅ false.

(** The configuration with voters [X] only. *)
Definition plain_conf (X : gset Z) : TrackerConfiguration := mkTrackerConf (mkJoint X ∅) ∅ ∅ false.

(** [t'] tracks the peers of [t] and peers that were added at [next_idx]. *)
Definition grown (next_idx : Z) (t t' : ProgressTracker) : Prop :=
  max_inflight_ t' = max_inflight_ t /\
  forall id p, progress_ t' !! id = Some p -> progress_ t !! id = Some p \/
    p = (Progress.new next_idx (max_inflight_ t)) <| recent_active_ := true |>.

(** A configuration change that the node computes and then applies. *)
Inductive conf_step `{Env} (t t' : ProgressTracker) : Prop :=
| step_simple ccs cfg changes next_idx :
    Simple ccs t = Ok (cfg, changes) -> ApplyConf cfg changes next_idx t = Ret (tt, t') ->
    conf_step t t'
| step_enter auto ccs cfg changes next_idx :
    EnterJoint auto ccs t = Ok (cfg, changes) -> ApplyConf cfg changes next_idx t = Ret (tt, t') ->
    conf_step t t'
| step_leave cfg changes next_idx :
    LeaveJoint t = Ok (cfg, changes) -> ApplyConf cfg changes next_idx t = Ret (tt, t') ->
    conf_step t t'.

(** ** Lemmas *)

Lemma change_dom_app D l1 l2 : change_dom D (l1 ++ l2) = change_dom (change_dom D l1) l2.
Proof. unfold change_dom. apply foldl_app. Qed.

Lemma emplace_dom id t m :
  icm_dom (emplace_change id t m) =
  match t with MCAdd => {[id]} ∪ icm_dom m | MCRemove => icm_dom m ∖ {[id]} end.
Proof. unfold icm_dom, emplace_change. cbn. rewrite change_dom_app. by destruct t. Qed.

Lemma Contains_dom id m : Contains id m = true <-> id ∈ icm_dom m.
Proof.
  destruct m as [l base]. unfold Contains, icm_dom. cbn [changes_ base_].
  induction l as [|[k t] l IH] using rev_ind.
  - cbn. by rewrite bool_decide_eq_true, elem_of_dom.
  - rewrite rev_unit, change_dom_app. cbn [find fst].
    destruct (Z.eqb_spec k id) as [->|Hk]; [destruct t; cbn; set_solver|].
    rewrite IH. destruct t; cbn; set_solver.
Qed.

Lemma Contains_false id m : negb (Contains id m) = true <-> id ∉ icm_dom m.
Proof. rewrite <- Contains_dom, negb_true_iff. by destruct (Contains id m). Qed.

Lemma foreachR_Ok {X} (l : list X) (f : X -> Result unit) u :
  foreachR l f = Ok u <-> forall x, x ∈ l -> f x = Ok tt.
Proof.
  destruct u. induction l as [|x l IH]; simpl; [set_solver|].
  rewrite rbind_Ok. setoid_rewrite elem_of_cons. split.
  - intros ([] & Hx & Hl) y [->|Hy]; [done|]. by apply IH.
  - intros Hf. exists tt. split; [by apply Hf; left|]. apply IH. auto.
Qed.

Lemma require_Ok b e u : require b e = Ok u <-> b = true.
Proof. unfold require. destruct b, u; split; congruence. Qed.

Lemma rbind_unit_Ok (r : Result unit) (k : unit -> Result unit) u :
  rbind r k = Ok u <-> r = Ok tt /\ k tt = Ok u.
Proof. rewrite rbind_Ok. split; [intros ([] & ? & ?); auto|intros []; eauto]. Qed.

Section ConfChangeProofs.
Context `{Env}.

Lemma iter_elem (X : gset Z) x : x ∈ iter X <-> x ∈ X.
Proof. by rewrite (iter_perm X), elem_of_elements. Qed.

Lemma CheckInvariants_Ok cfg prs : CheckInvariants cfg prs = Ok tt <-> conf_ok cfg (icm_dom prs).
Proof.
  unfold CheckInvariants, conf_ok, Joint. rewrite negb_involutive, !rbind_unit_Ok, !foreachR_Ok.
  setoid_rewrite iter_elem. setoid_rewrite rbind_unit_Ok. setoid_rewrite require_Ok.
  setoid_rewrite rbind_unit_Ok. setoid_rewrite require_Ok.
  setoid_rewrite Contains_dom. setoid_rewrite negb_true_iff.
  setoid_rewrite bool_decide_eq_false. setoid_rewrite bool_decide_eq_true.
  assert (Hj : (if bool_decide (outgoing cfg = ∅) then
      let* _ := require (bool_decide (learners_next cfg = ∅)) (EConfChangeCode LearnersNextMustBeEmpty) in
      require (negb (auto_leave cfg)) (EConfChangeCode AutoLeaveMustBeFalse)
    else Ok tt) = Ok tt <-> (outgoing cfg = ∅ -> learners_next cfg = ∅ /\ auto_leave cfg = false)).
  { case_bool_decide as Ho.
    - rewrite rbind_unit_Ok, !require_Ok, bool_decide_eq_true, negb_true_iff. tauto.
    - naive_solver. }
  rewrite Hj. clear Hj. generalize (outgoing cfg = ∅ -> learners_next cfg = ∅ /\ auto_leave cfg = false).
  intros J. rewrite !elem_of_subseteq, !elem_of_disjoint. clear.
  split; intros (A & B & C & HJ); (split; [exact A|split; [|split; [|exact HJ]]]).
  - split; [|split]; intros x Hx; apply (B x Hx).
  - split; intros x Hx; apply (C x Hx).
  - intros x Hx. destruct B as (B1 & B2 & B3). split; [by apply B1|split; [exact (B2 x Hx)|exact (B3 x Hx)]].
  - intros x Hx. destruct C as [C1 C2]. split; [by apply C1|by apply C2].
Qed.

Lemma conf_wf_ok c D : conf_wf c D -> conf_ok c D.
Proof.
  intros [[Hm Hl Hn Hi] Ha]. unfold conf_ok. rewrite Hm. unfold members, incoming, outgoing, JointIDs in *.
  split; [set_solver|]. split; [set_solver|]. split; [set_solver|].
  intros Ho. split; [set_solver|auto].
Qed.

Lemma CheckAndCopy_wf t : tracker_wf t ->
  CheckAndCopy t = Ok (conf_ t, mkIncrChangeMap [] (progress_ t)).
Proof.
  intros W. unfold CheckAndCopy.
  by rewrite (proj2 (CheckInvariants_Ok (conf_ t) (mkIncrChangeMap [] (progress_ t))) (conf_wf_ok _ _ W)).
Qed.

Lemma shape_intro c D : D = members c -> learners c ## incoming c ∪ outgoing c ->
  learners_next c ⊆ outgoing c -> learners_next c ## incoming c -> conf_shape c D.
Proof. by constructor. Qed.

Ltac shape_solve id := apply shape_intro; unfold members, incoming, outgoing in *; cbn in *; set_point id.

Lemma InitProgress_ok out al id b p : copy_ok out al p -> id ∉ icm_dom p.2 ->
  copy_ok out al (InitProgress id b p).
Proof.
  destruct p as [c m]. intros ([Hm Hl Hn Hi] & Ho & Ha) Hid. cbn [fst snd] in *.
  unfold copy_ok, InitProgress. cbn [fst snd]. rewrite emplace_dom. rewrite Hm in *.
  destruct b; (split; [shape_solve id|done]).
Qed.

Lemma MakeVoter_ok out al id p : copy_ok out al p -> copy_ok out al (MakeVoter id p).
Proof.
  destruct p as [c m]. intros W. unfold MakeVoter. destruct (negb (Contains id m)) eqn:E.
  - apply InitProgress_ok; [done|]. by apply Contains_false.
  - apply negb_false_iff, Contains_dom in E. destruct W as ([Hm Hl Hn Hi] & Ho & Ha).
    unfold copy_ok. cbn [fst snd] in *. split; [shape_solve id|done].
Qed.

Lemma MakeLearner_ok out al id p : copy_ok out al p -> copy_ok out al (MakeLearner id p).
Proof.
  destruct p as [c m]. intros W. unfold MakeLearner. destruct (negb (Contains id m)) eqn:E.
  - apply InitProgress_ok; [done|]. by apply Contains_false.
  - apply negb_false_iff, Contains_dom in E. case_bool_decide as El; [done|].
    destruct W as ([Hm Hl Hn Hi] & Ho & Ha). unfold copy_ok. cbn [fst snd] in *.
    case_bool_decide as Eo; cbn in Eo; (split; [shape_solve id|done]).
Qed.

Lemma Remove_ok out al id p : copy_ok out al p -> copy_ok out al (Remove id p).
Proof.
  destruct p as [c m]. intros W. unfold Remove. destruct (negb (Contains id m)) eqn:E; [done|].
  destruct W as ([Hm Hl Hn Hi] & Ho & Ha). unfold copy_ok. cbn [fst snd] in *.
  case_bool_decide as Eo; cbn [negb]; rewrite ?emplace_dom; (split; [shape_solve id|done]).
Qed.

Lemma apply_fold_ok out al ccs p : copy_ok out al p -> copy_ok out al (foldl apply_one p ccs).
Proof.
  revert p. induction ccs as [|cc ccs IH]; intros p W; [done|]. apply IH. unfold apply_one.
  destruct (_ =? 0); [done|].
  destruct (ccs_type cc); auto using MakeVoter_ok, Remove_ok, MakeLearner_ok.
Qed.

Lemma apply_fold_base ccs p : base_ (foldl apply_one p ccs).2 = base_ p.2.
Proof.
  revert p. induction ccs as [|cc ccs IH]; intros p; [done|]. cbn [foldl]. rewrite IH.
  destruct p as [c m]. unfold apply_one, MakeVoter, Remove, MakeLearner, InitProgress.
  repeat case_match; simplify_eq; done.
Qed.

Lemma Apply_Ok out al p ccs c m : copy_ok out al p -> Apply p ccs = Ok (c, m) ->
  copy_ok out al (c, m) /\ incoming c <> ∅ /\ base_ m = base_ p.2.
Proof.
  intros W E. unfold Apply in E. pose proof (apply_fold_ok out al ccs p W) as W'.
  pose proof (apply_fold_base ccs p) as B.
  destruct (foldl apply_one p ccs) as [c' m']. case_bool_decide; [done|]. injection E as -> ->. done.
Qed.

Lemma copy_start t : tracker_wf t ->
  copy_ok (outgoing (conf_ t)) (auto_leave (conf_ t)) (conf_ t, mkIncrChangeMap [] (progress_ t)).
Proof. intros [W _]. done. Qed.

Lemma not_joint cfg : Joint cfg = false <-> outgoing cfg = ∅.
Proof. unfold Joint. rewrite negb_false_iff. apply bool_decide_eq_true. Qed.

Lemma Simple_Ok t ccs cfg changes : tracker_wf t -> Simple ccs t = Ok (cfg, changes) ->
  conf_wf cfg (change_dom (dom (progress_ t)) changes) /\
  outgoing (conf_ t) = ∅ /\ outgoing cfg = ∅ /\ incoming cfg <> ∅ /\
  (size (symmetric_difference (incoming cfg) (incoming (conf_ t))) <= 1)%nat.
Proof.
  intros W E. unfold Simple in E. destruct (Joint (conf_ t)) eqn:Ej; [done|].
  apply not_joint in Ej. rewrite CheckAndCopy_wf in E by done. cbn [rbind] in E.
  apply rbind_Ok in E as ([c m] & Ea & E). case_bool_decide as Hs; [done|].
  apply rbind_Ok in E as (u & Ei & [= -> <-]). destruct u. apply CheckInvariants_Ok in Ei.
  apply (Apply_Ok _ _ _ _ _ _ (copy_start t W)) in Ea as ((Sh & Ho & Ha) & Hn & Hb). cbn [fst snd] in *.
  unfold icm_dom in Sh. rewrite Hb in Sh. cbn [base_] in Sh. rewrite Ej in Ho.
  split; [|split; [done|split; [done|split; [done|lia]]]].
  split; [exact Sh|]. intros _. rewrite Ha. by apply W.
Qed.

Lemma EnterJoint_Ok t al ccs cfg changes : tracker_wf t -> EnterJoint al ccs t = Ok (cfg, changes) ->
  conf_wf cfg (change_dom (dom (progress_ t)) changes) /\
  outgoing (conf_ t) = ∅ /\ incoming (conf_ t) <> ∅ /\
  outgoing cfg = incoming (conf_ t) /\ incoming cfg <> ∅ /\ auto_leave cfg = al.
Proof.
  intros W E. unfold EnterJoint in E. destruct (Joint (conf_ t)) eqn:Ej; [done|].
  apply not_joint in Ej. rewrite CheckAndCopy_wf in E by done. cbn [rbind] in E.
  case_bool_decide as Hi; [done|]. apply rbind_Ok in E as ([c m] & Ea & E).
  apply rbind_Ok in E as (u & Ei & [= <- <-]).
  assert (W0 : copy_ok (incoming (conf_ t)) (auto_leave (conf_ t))
    (set_outgoing (outgoing (conf_ t) ∪ incoming (conf_ t)) (conf_ t), mkIncrChangeMap [] (progress_ t))).
  { destruct W as [[Hm Hl Hn Hd] _]. rewrite Ej in *. split; [|split; [cbn; set_solver|done]].
    apply shape_intro; unfold members, incoming, outgoing in *; cbn in *; set_point 0. }
  apply (Apply_Ok _ _ _ _ _ _ W0) in Ea as ((Sh & Ho & Ha) & Hn & Hb). cbn [fst snd] in *.
  unfold icm_dom in Sh. rewrite Hb in Sh. cbn [base_] in Sh.
  split; [split; [by destruct Sh; constructor|]|done].
  change (outgoing (c <| auto_leave := al |>)) with (outgoing c). by rewrite Ho.
Qed.

(** The peers that leave with the outgoing configuration. *)
Lemma leave_loop_dom (f : Z -> bool) (X : gset Z) (ids : list Z) m :
  (forall id, f id = true <-> id ∉ X) ->
  let m' := foldl (fun prs id => if f id then emplace_change id MCRemove prs else prs) m ids in
  icm_dom m' = icm_dom m ∖ (list_to_set ids ∖ X) /\ base_ m' = base_ m.
Proof.
  intros Hf. revert m. induction ids as [|id ids IH]; intros m; [split; [set_solver|done]|].
  cbn [foldl]. destruct (IH (if f id then emplace_change id MCRemove m else m)) as [Hd Hb].
  specialize (Hf id). split.
  - rewrite Hd. destruct (f id); rewrite ?emplace_dom.
    + assert (id ∉ X) by by apply Hf. set_solver.
    + assert (id ∈ X) by (destruct (decide (id ∈ X)); [done|]; by apply Hf in n). set_solver.
  - rewrite Hb. by destruct (f id).
Qed.

Lemma left_shape t : tracker_wf t ->
  conf_wf (left_conf (conf_ t))
    (dom (progress_ t) ∖ (outgoing (conf_ t) ∖ (incoming (conf_ t) ∪ (learners (conf_ t) ∪ learners_next (conf_ t))))).
Proof.
  intros [[Hm Hl Hn Hd] _]. split; [|done]. unfold left_conf.
  apply shape_intro; unfold members, incoming, outgoing in *; cbn in *; try set_point 0.
  rewrite Hm. clear Hm. set_unfold. intros x. specialize (Hl x). specialize (Hn x). specialize (Hd x).
  destruct (decide (x ∈ incoming_ (voters (conf_ t)))), (decide (x ∈ learners (conf_ t))),
    (decide (x ∈ learners_next (conf_ t))); tauto.
Qed.

Lemma list_to_set_iter (X : gset Z) : list_to_set (iter X) = X.
Proof. apply set_eq. intros x. by rewrite elem_of_list_to_set, iter_elem. Qed.

Lemma LeaveJoint_run t : tracker_wf t -> outgoing (conf_ t) <> ∅ ->
  exists changes, LeaveJoint t = Ok (left_conf (conf_ t), changes) /\
    change_dom (dom (progress_ t)) changes =
    dom (progress_ t) ∖ (outgoing (conf_ t) ∖ (incoming (conf_ t) ∪ (learners (conf_ t) ∪ learners_next (conf_ t)))).
Proof.
  intros W Ho. unfold LeaveJoint.
  assert (Joint (conf_ t) = true) as -> by (unfold Joint; by rewrite bool_decide_false).
  cbn [negb]. rewrite CheckAndCopy_wf by done. cbn [rbind]. rewrite bool_decide_false by done.
  match goal with |- context [foldl ?f ?m (iter ?X)] => set (prs := foldl f m (iter X)) end.
  destruct (leave_loop_dom (fun id => negb (bool_decide (id ∈ incoming (conf_ t))) &&
      negb (bool_decide (id ∈ learners (conf_ t) ∪ learners_next (conf_ t))))
    (incoming (conf_ t) ∪ (learners (conf_ t) ∪ learners_next (conf_ t)))
    (iter (outgoing (conf_ t))) (mkIncrChangeMap [] (progress_ t))) as [Hd Hb].
  { intros id. rewrite andb_true_iff, !negb_true_iff, !bool_decide_eq_false. set_solver. }
  change (icm_dom prs = dom (progress_ t) ∖ (list_to_set (iter (outgoing (conf_ t)))
    ∖ (incoming (conf_ t) ∪ (learners (conf_ t) ∪ learners_next (conf_ t))))) in Hd.
  change (base_ prs = progress_ t) in Hb. rewrite list_to_set_iter in Hd. clearbody prs.
  change (exists changes, (let* _ := CheckInvariants (left_conf (conf_ t)) prs in
    Ok (left_conf (conf_ t), changes_ prs)) = Ok (left_conf (conf_ t), changes) /\
    change_dom (dom (progress_ t)) changes = dom (progress_ t) ∖ (outgoing (conf_ t)
    ∖ (incoming (conf_ t) ∪ (learners (conf_ t) ∪ learners_next (conf_ t))))).
  exists (changes_ prs). rewrite (proj2 (CheckInvariants_Ok _ _)).
  - split; [done|]. rewrite <- Hd. unfold icm_dom. by rewrite Hb.
  - rewrite Hd. by apply conf_wf_ok, left_shape.
Qed.

Lemma ApplyConf_run cfg changes next_idx t :
  exists t', ApplyConf cfg changes next_idx t = Ret (tt, t') /\ conf_ t' = cfg /\
    dom (progress_ t') = change_dom (dom (progress_ t)) changes /\ grown next_idx t t'.
Proof.
  unfold ApplyConf. msteps. eexists. split; [reflexivity|]. split; [done|]. cbn. split.
  - apply apply_changes_dom.
  - split; [done|]. intros id p E. apply apply_changes_keep in E as [(q & E & ->)|E]; auto.
Qed.

Lemma conf_step_wf t t' : conf_step t t' -> tracker_wf t -> tracker_wf t'.
Proof.
  intros [ccs cfg ch ni E A|al ccs cfg ch ni E A|cfg ch ni E A] W;
    destruct (ApplyConf_run cfg ch ni t) as (t1 & A1 & C1 & D1 & _); rewrite A1 in A; injection A as <-;
    unfold tracker_wf; rewrite C1, D1.
  - by apply (Simple_Ok t ccs).
  - by apply (EnterJoint_Ok t al ccs).
  - assert (Ho : outgoing (conf_ t) <> ∅).
    { intros Ho. unfold LeaveJoint in E. by rewrite (proj2 (not_joint _) Ho) in E. }
    destruct (LeaveJoint_run t W Ho) as (ch' & E' & D). rewrite E' in E. injection E as <- <-.
    rewrite D. by apply left_shape.
Qed.

(** C28: A configuration change ([Simple], [EnterJoint] or [LeaveJoint], then
    [ApplyConf]) of a consistent tracker leaves a consistent tracker: progress
    is kept for exactly the members, learners are not voters, pending learners
    are outgoing voters; and a peer's progress is the old one or a fresh probe. *)
Theorem conf_change_keeps_wf t t' : conf_step t t' -> tracker_wf t ->
  tracker_wf t' /\
  forall id p, progress_ t' !! id = Some p ->
    progress_ t !! id = Some p \/
    exists next_idx, p = (Progress.new next_idx (max_inflight_ t)) <| recent_active_ := true |>.
Proof.
  intros S W. split; [by eapply conf_step_wf|].
  destruct S as [ccs cfg ch ni E A|al ccs cfg ch ni E A|cfg ch ni E A];
    destruct (ApplyConf_run cfg ch ni t) as (t1 & A1 & _ & _ & _ & K); rewrite A1 in A; injection A as <-;
    intros id p Hp; destruct (K id p Hp); eauto.
Qed.

Lemma majority_sum a b u d : 0 <= d <= 1 -> u = a \/ u = b -> u <= a + d -> u <= b + d ->
  a <= u -> b <= u -> a + b + 1 >= 2 * u -> u < majority a + majority b.
Proof.
  intros. unfold majority. pose proof (Z.div_mod a 2). pose proof (Z.div_mod b 2).
  pose proof (Z.mod_pos_bound a 2). pose proof (Z.mod_pos_bound b 2). lia.
Qed.

(** Voter sets that differ in one peer have overlapping quorums. *)
Lemma neighbour_quorums X Y Q1 Q2 :
  (size (symmetric_difference Y X) <= 1)%nat -> is_quorum X Q1 -> is_quorum Y Q2 ->
  exists v, v ∈ Q1 /\ v ∈ Q2.
Proof.
  intros Hd [H1 S1] [H2 S2]. destruct (decide (Q1 ∩ Q2 = ∅)) as [E|E];
    [exfalso|apply set_choose_L in E as [v Hv]; exists v; set_solver].
  unfold symmetric_difference in Hd. rewrite size_union in Hd by set_solver.
  assert (U1 : size (X ∪ Y) = (size X + size (Y ∖ X))%nat).
  { rewrite <- size_union by set_solver. f_equal. apply set_eq. intros x. destruct (decide (x ∈ X)); set_solver. }
  assert (U2 : size (X ∪ Y) = (size Y + size (X ∖ Y))%nat).
  { rewrite <- size_union by set_solver. f_equal.
    apply set_eq. intros x. destruct (decide (x ∈ Y)); set_solver. }
  assert (Hq : (size Q1 + size Q2 <= size (X ∪ Y))%nat).
  { rewrite <- size_union by set_solver. apply subseteq_size. set_solver. }
  pose proof (majority_sum (Z.of_nat (size X)) (Z.of_nat (size Y)) (Z.of_nat (size (X ∪ Y))) 1). lia.
Qed.

(** C7: any quorum of the configuration before a change and any quorum of the
    one after it have a voter in common, whether the change is simple, enters
    a joint configuration or leaves one. *)
Theorem conf_change_quorums_overlap t t' Q1 Q2 : conf_step t t' -> tracker_wf t ->
  incoming (conf_ t) <> ∅ ->
  joint_quorum (voters (conf_ t)) Q1 -> joint_quorum (voters (conf_ t')) Q2 ->
  exists v, v ∈ Q1 /\ v ∈ Q2.
Proof.
  intros [ccs cfg ch ni E A|al ccs cfg ch ni E A|cfg ch ni E A] W Hi [J1 _] [J2 J3];
    destruct (ApplyConf_run cfg ch ni t) as (t1 & A1 & C1 & _); rewrite A1 in A; injection A as <-;
    rewrite C1 in *; destruct J1 as [?|J1]; try done.
  - apply Simple_Ok in E as (_ & _ & _ & Hn & Hd); [|done]. destruct J2 as [?|J2]; [done|].
    destruct (neighbour_quorums _ _ _ _ Hd J1 J2) as (v & H1 & H2). exists v. set_solver.
  - apply EnterJoint_Ok in E as (_ & _ & Hn & Ho & _ & _); [|done].
    unfold outgoing in Ho. rewrite Ho in J3. destruct J3 as [?|J3]; [done|].
    destruct (quorum_intersection _ _ _ J1 J3) as (v & H1 & H2). exists v. set_solver.
  - assert (Ho : outgoing (conf_ t) <> ∅).
    { intros Ho. unfold LeaveJoint in E. by rewrite (proj2 (not_joint _) Ho) in E. }
    destruct (LeaveJoint_run t W Ho) as (ch' & E' & _). rewrite E' in E. injection E as <- <-.
    destruct J2 as [?|J2]; [done|].
    destruct (quorum_intersection _ _ _ J1 J2) as (v & H1 & H2). exists v. set_solver.
Qed.

(** A consistent joint configuration can always be left: [LeaveJoint]
    succeeds, keeps the incoming voters, turns the pending learners into
    learners, and drops the progress of the peers that are nothing else. *)
Theorem LeaveJoint_succeeds t : tracker_wf t -> outgoing (conf_ t) <> ∅ ->
  exists changes, LeaveJoint t = Ok (left_conf (conf_ t), changes) /\
    change_dom (dom (progress_ t)) changes = members (left_conf (conf_ t)).
Proof.
  intros W Ho. destruct (LeaveJoint_run t W Ho) as (ch & E & D). exists ch. split; [done|].
  rewrite D. apply (left_shape t W).
Qed.

(** ** Restoring a configuration

    The changes [ToConfChangeSingle] lists, one phase at a time. *)

Lemma apply_one_eq id t p : id <> 0 ->
  apply_one p (mkCCS t id) =
  match t with AddNode => MakeVoter id p | RemoveNode => Remove id p | AddLearnerNode => MakeLearner id p end.
Proof. intros Hid. unfold apply_one. cbn. by destruct (Z.eqb_spec id 0). Qed.

Lemma Contains_true id m : id ∈ icm_dom m -> Contains id m = true.
Proof. apply Contains_dom. Qed.

Lemma Contains_not id m : id ∉ icm_dom m -> Contains id m = false.
Proof. intros Hn. apply not_true_iff_false. by rewrite Contains_dom. Qed.

Lemma MakeVoter_in id I O L N al m : id ∈ icm_dom m ->
  MakeVoter id (mkTrackerConf (mkJoint I O) L N al, m) =
  (mkTrackerConf (mkJoint ({[id]} ∪ I) O) (L ∖ {[id]}) (N ∖ {[id]}) al, m).
Proof. intros E. unfold MakeVoter. by rewrite Contains_true. Qed.

Lemma MakeVoter_new id I O L N al m : id ∉ icm_dom m ->
  MakeVoter id (mkTrackerConf (mkJoint I O) L N al, m) =
  (mkTrackerConf (mkJoint ({[id]} ∪ I) O) L N al, emplace_change id MCAdd m).
Proof. intros E. unfold MakeVoter. by rewrite Contains_not. Qed.

Lemma MakeLearner_new id I O L N al m : id ∉ icm_dom m ->
  MakeLearner id (mkTrackerConf (mkJoint I O) L N al, m) =
  (mkTrackerConf (mkJoint I O) ({[id]} ∪ L) N al, emplace_change id MCAdd m).
Proof. intros E. unfold MakeLearner. by rewrite Contains_not. Qed.

Lemma MakeLearner_outgoing id I O L N al m : id ∈ icm_dom m -> id ∉ L -> id ∈ O ->
  MakeLearner id (mkTrackerConf (mkJoint I O) L N al, m) =
  (mkTrackerConf (mkJoint (I ∖ {[id]}) O) (L ∖ {[id]}) ({[id]} ∪ N ∖ {[id]}) al, m).
Proof.
  intros E Hl Ho. unfold MakeLearner. rewrite Contains_true by done. cbn [negb learners].
  rewrite bool_decide_false by done. by rewrite bool_decide_true.
Qed.

Lemma Remove_outgoing id I O L N al m : id ∈ icm_dom m -> id ∈ O ->
  Remove id (mkTrackerConf (mkJoint I O) L N al, m) =
  (mkTrackerConf (mkJoint (I ∖ {[id]}) O) (L ∖ {[id]}) (N ∖ {[id]}) al, m).
Proof.
  intros E Ho. unfold Remove. rewrite Contains_true by done. cbn [negb].
  by rewrite bool_decide_true.
Qed.

Ltac same_conf := do 2 f_equal; lazymatch goal with |- mkJoint _ _ = _ => f_equal | _ => idtac end; set_solver.

Lemma fold_voters l I O al m : 0 ∉ l ->
  exists m', foldl apply_one (mkTrackerConf (mkJoint I O) ∅ ∅ al, m) (mkCCS AddNode <$> l) =
    (mkTrackerConf (mkJoint (list_to_set l ∪ I) O) ∅ ∅ al, m') /\
    icm_dom m' = list_to_set l ∪ icm_dom m /\ base_ m' = base_ m.
Proof.
  revert I m. induction l as [|id l IH]; intros I m Hz.
  { exists m. cbn. by rewrite !(left_id_L ∅ (∪)). }
  cbn [fmap list_fmap foldl]. rewrite apply_one_eq by set_solver.
  assert (Hs : exists m1, MakeVoter id (mkTrackerConf (mkJoint I O) ∅ ∅ al, m) =
    (mkTrackerConf (mkJoint ({[id]} ∪ I) O) ∅ ∅ al, m1) /\
    icm_dom m1 = {[id]} ∪ icm_dom m /\ base_ m1 = base_ m).
  { destruct (decide (id ∈ icm_dom m)) as [Hin|Hin].
    - exists m. rewrite MakeVoter_in by done. replace (∅ ∖ {[id]} : gset Z) with (∅ : gset Z) by set_solver.
      split; [done|]. split; [set_solver|done].
    - eexists. rewrite MakeVoter_new, emplace_dom by done. done. }
  destruct Hs as (m1 & -> & D1 & B1).
  destruct (IH ({[id]} ∪ I) m1 ltac:(set_solver)) as (m' & -> & D & B).
  exists m'. split; [same_conf|]. split; [set_solver|congruence].
Qed.

Lemma fold_removes l I O al m : 0 ∉ l -> list_to_set l ⊆ O -> O ⊆ icm_dom m ->
  foldl apply_one (mkTrackerConf (mkJoint I O) ∅ ∅ al, m) (mkCCS RemoveNode <$> l) =
    (mkTrackerConf (mkJoint (I ∖ list_to_set l) O) ∅ ∅ al, m).
Proof.
  revert I. induction l as [|id l IH]; intros I Hz Hl Ho.
  { cbn. by rewrite difference_empty_L. }
  cbn [fmap list_fmap foldl]. rewrite apply_one_eq, Remove_outgoing by set_solver.
  replace (∅ ∖ {[id]} : gset Z) with (∅ : gset Z) by set_solver. rewrite IH by set_solver. same_conf.
Qed.

Lemma fold_learners l I O L N al m : 0 ∉ l -> NoDup l -> list_to_set l ## icm_dom m ->
  exists m', foldl apply_one (mkTrackerConf (mkJoint I O) L N al, m) (mkCCS AddLearnerNode <$> l) =
    (mkTrackerConf (mkJoint I O) (list_to_set l ∪ L) N al, m') /\
    icm_dom m' = list_to_set l ∪ icm_dom m /\ base_ m' = base_ m.
Proof.
  revert L m. induction l as [|id l IH]; intros L m Hz Hn Hd.
  { exists m. cbn. by rewrite !(left_id_L ∅ (∪)). }
  apply NoDup_cons in Hn as [Hid Hn].
  cbn [fmap list_fmap foldl]. rewrite apply_one_eq, MakeLearner_new by set_solver.
  destruct (IH ({[id]} ∪ L) (emplace_change id MCAdd m)) as (m' & -> & D & B);
    [set_solver|done|rewrite emplace_dom; set_solver|].
  rewrite emplace_dom in D. exists m'. split; [same_conf|]. split; [set_solver|done].
Qed.

Lemma fold_learners_next l I O L N al m : 0 ∉ l -> list_to_set l ⊆ O -> O ⊆ icm_dom m ->
  list_to_set l ## I -> list_to_set l ## L ->
  foldl apply_one (mkTrackerConf (mkJoint I O) L N al, m) (mkCCS AddLearnerNode <$> l) =
    (mkTrackerConf (mkJoint I O) L (list_to_set l ∪ N) al, m).
Proof.
  revert N. induction l as [|id l IH]; intros N Hz Hl Ho Hi HL.
  { cbn. by rewrite (left_id_L ∅ (∪)). }
  cbn [fmap list_fmap foldl]. rewrite apply_one_eq, MakeLearner_outgoing by set_solver.
  replace (I ∖ {[id]}) with I by set_solver. replace (L ∖ {[id]}) with L by set_solver.
  rewrite IH by set_solver. f_equal. f_equal. apply set_eq. intros x.
  destruct (decide (x = id)); set_solver.
Qed.

Lemma incoming_kept v l p :
  v ∈ incoming p.1 -> Forall (fun cc => ccs_type cc = AddNode \/ ccs_node_id cc <> v) l ->
  v ∈ incoming (foldl apply_one p l).1.
Proof.
  intros Hv Hl. revert p Hv. induction Hl as [|cc l Hcc _ IH]; intros [c m] Hv; [done|].
  cbn [foldl]. apply IH. cbn [fst] in Hv. unfold apply_one, MakeVoter, Remove, MakeLearner, InitProgress.
  destruct cc as [t id]. cbn in *. unfold incoming in *. repeat case_match; simplify_eq; cbn in *; set_solver.
Qed.

(** The fallback of [Restore] is one fold when a voter comes first. *)
Lemma apply_each_fold v l p : v ∈ incoming p.1 ->
  Forall (fun cc => ccs_type cc = AddNode \/ ccs_node_id cc <> v) l ->
  apply_each p l = Ok (foldl apply_one p l).
Proof.
  intros Hv Hl. revert p Hv. induction Hl as [|cc l Hcc Hl IH]; intros p Hv; [done|].
  cbn [apply_each foldl]. unfold Apply. cbn [foldl].
  assert (Hk : v ∈ incoming (apply_one p cc).1) by (apply (incoming_kept v [cc]); [done|by apply Forall_singleton]).
  destruct (apply_one p cc) as [c m]. cbn [fst] in Hk. rewrite bool_decide_false by set_solver.
  cbn [rbind]. by apply IH.
Qed.

(** The fold over the whole list of incoming changes. *)
Lemma fold_incoming cfg I m : conf_shape cfg (members cfg) -> 0 ∉ members cfg ->
  I = outgoing cfg -> icm_dom m = outgoing cfg ->
  exists m', foldl apply_one (mkTrackerConf (mkJoint I (outgoing cfg)) ∅ ∅ false, m)
      (ToConfChangeSingle (ToConfState cfg)).2 =
    (mkTrackerConf (voters cfg) (learners cfg) (learners_next cfg) false, m') /\
    icm_dom m' = members cfg /\ base_ m' = base_ m.
Proof.
  intros [_ Hl Hn Hi] Hz -> Hm. unfold members in Hz.
  assert (Hz' : forall X, X ⊆ incoming cfg ∪ outgoing cfg ∪ learners cfg -> 0 ∉ iter X).
  { intros X HX. rewrite iter_elem. set_solver. }
  cbn [ToConfChangeSingle ToConfState snd cs_voters cs_voters_outgoing cs_learners cs_learners_next].
  rewrite !foldl_app, fold_removes by (rewrite ?list_to_set_iter, ?Hm; apply Hz' || set_solver; set_solver).
  rewrite list_to_set_iter.
  destruct (fold_voters (iter (incoming cfg)) (outgoing cfg ∖ outgoing cfg) (outgoing cfg) false m) as
    (m1 & -> & D1 & B1); [apply Hz'; set_solver|]. rewrite list_to_set_iter in *.
  destruct (fold_learners (iter (learners cfg)) (incoming cfg ∪ outgoing cfg ∖ outgoing cfg) (outgoing cfg) ∅ ∅ false m1)
    as (m2 & -> & D2 & B2); [apply Hz'; set_solver|rewrite (iter_perm (learners cfg)); apply NoDup_elements| |].
  { rewrite list_to_set_iter, D1, Hm. set_solver. }
  rewrite list_to_set_iter in *. rewrite fold_learners_next.
  2:{ apply Hz'. set_solver. }
  2:{ by rewrite list_to_set_iter. }
  2:{ rewrite D2, D1, Hm. set_solver. }
  2:{ rewrite list_to_set_iter. set_solver. }
  2:{ rewrite list_to_set_iter. set_solver. }
  rewrite list_to_set_iter. exists m2. split; [|split; [rewrite D2, D1, Hm; unfold members; set_solver|congruence]].
  f_equal. unfold incoming, outgoing. destruct cfg as [[I O] L N al]. cbn. f_equal; [f_equal|..]; set_solver.
Qed.

Lemma grown_trans ni t1 t2 t3 : grown ni t1 t2 -> grown ni t2 t3 -> grown ni t1 t3.
Proof.
  intros [M1 G1] [M2 G2]. split; [congruence|]. intros id p E.
  apply G2 in E as [E|E]; [by apply G1|right; congruence].
Qed.

Lemma plain_wf t X : conf_ t = plain_conf X -> dom (progress_ t) = X -> tracker_wf t.
Proof.
  intros C E. unfold tracker_wf. rewrite C, E. split; [|done].
  apply shape_intro; unfold members, incoming, outgoing; cbn; set_solver.
Qed.

Lemma simple_add t X id : conf_ t = plain_conf X -> dom (progress_ t) = X -> id <> 0 ->
  exists changes, Simple [mkCCS AddNode id] t = Ok (plain_conf ({[id]} ∪ X), changes) /\
    change_dom (dom (progress_ t)) changes = {[id]} ∪ X.
Proof.
  intros C D Hid. unfold Simple. assert (Joint (conf_ t) = false) as -> by by apply not_joint; rewrite C.
  rewrite CheckAndCopy_wf by by eapply plain_wf. cbn [rbind]. unfold Apply. rewrite C.
  destruct (fold_voters [id] X ∅ false (mkIncrChangeMap [] (progress_ t))) as (m & E & Dm & B); [set_solver|].
  cbn [fmap list_fmap] in E. unfold plain_conf. rewrite E.
  replace (list_to_set [id] ∪ X) with ({[id]} ∪ X) by set_solver.
  unfold icm_dom in Dm. cbn [changes_ base_] in *. rewrite B in Dm. cbn in Dm.
  rewrite bool_decide_false by (unfold incoming; cbn; set_solver). cbn [rbind].
  rewrite bool_decide_false.
  - exists (changes_ m). rewrite (proj2 (CheckInvariants_Ok _ _)).
    + split; [done|]. rewrite Dm, D. set_solver.
    + apply conf_wf_ok. split; [|done]. unfold icm_dom. rewrite B. cbn. rewrite Dm, D.
      apply shape_intro; unfold members, incoming, outgoing; cbn; set_solver.
  - assert (size (symmetric_difference ({[id]} ∪ X) X) <= size ({[id]} : gset Z))%nat as Hs.
    { apply subseteq_size. unfold symmetric_difference. set_solver. }
    rewrite size_singleton in Hs. unfold incoming. cbn. lia.
Qed.

Lemma simple_each_run ni l t X : conf_ t = plain_conf X -> dom (progress_ t) = X -> 0 ∉ l ->
  exists t', simple_each ni (mkCCS AddNode <$> l) t = Ret (Ok tt, t') /\
    conf_ t' = plain_conf (list_to_set l ∪ X) /\ dom (progress_ t') = list_to_set l ∪ X /\ grown ni t t'.
Proof.
  revert t X. induction l as [|id l IH]; intros t X C D Hz.
  { exists t. cbn. rewrite (left_id_L ∅ (∪)). repeat split; auto. }
  destruct (simple_add t X id C D ltac:(set_solver)) as (ch & E & Dc).
  destruct (ApplyConf_run (plain_conf ({[id]} ∪ X)) ch ni t) as (t1 & E1 & C1 & D1 & G1).
  destruct (IH t1 ({[id]} ∪ X) C1 ltac:(congruence) ltac:(set_solver)) as (t2 & E2 & C2 & D2 & G2).
  exists t2. cbn [fmap list_fmap simple_each]. msteps. rewrite E. msteps.
  rewrite (bind_run _ _ _ _ _ E1). split; [exact E2|].
  replace (list_to_set (id :: l) ∪ X) with (list_to_set l ∪ ({[id]} ∪ X)) by set_solver.
  split; [done|]. split; [done|]. by eapply grown_trans.
Qed.

Lemma apply_each_first v l p : v <> 0 ->
  Forall (fun cc => ccs_type cc = AddNode \/ ccs_node_id cc <> v) l ->
  apply_each p (mkCCS AddNode v :: l) = Ok (foldl apply_one p (mkCCS AddNode v :: l)).
Proof.
  intros Hv Hl. cbn [apply_each foldl]. unfold Apply. cbn [foldl].
  assert (Hk : v ∈ incoming (apply_one p (mkCCS AddNode v)).1).
  { rewrite apply_one_eq by done. destruct p as [c m]. unfold MakeVoter.
    destruct (negb (Contains v m)); unfold InitProgress, incoming; cbn; set_solver. }
  destruct (apply_one p (mkCCS AddNode v)) as [c m] eqn:E. cbn [fst] in Hk.
  rewrite bool_decide_false by set_solver. cbn [rbind]. by apply (apply_each_fold v).
Qed.

Lemma iter_empty : iter ∅ = [].
Proof. apply Permutation_nil_r. rewrite iter_perm. by rewrite elements_empty. Qed.

Lemma restored_wf cfg m : conf_wf cfg (members cfg) -> icm_dom m = members cfg ->
  CheckInvariants cfg m = Ok tt.
Proof. intros W E. apply CheckInvariants_Ok. rewrite E. by apply conf_wf_ok. Qed.

Lemma restore_each cfg n : conf_wf cfg (members cfg) -> incoming cfg <> ∅ -> 0 ∉ members cfg ->
  outgoing cfg = ∅ ->
  exists m, apply_each (plain_conf ∅, mkIncrChangeMap [] (progress_ (Tracker.new n)))
      (ToConfChangeSingle (ToConfState cfg)).2 = Ok (cfg, m) /\
    icm_dom m = members cfg /\ base_ m = ∅.
Proof.
  intros W Hi Hz Ho. destruct (fold_incoming cfg ∅ (mkIncrChangeMap [] ∅)) as (m & E & D & B);
    [apply W|done|done|cbn; by rewrite dom_empty_L|].
  exists m. split; [|done]. rewrite Ho in E.
  assert (En : learners_next cfg = ∅) by (destruct W as [[_ _ Hn _] _]; set_solver).
  assert (El : exists v l, (ToConfChangeSingle (ToConfState cfg)).2 = mkCCS AddNode v :: l /\ v <> 0 /\
    Forall (fun cc => ccs_type cc = AddNode \/ ccs_node_id cc <> v) l).
  { cbn. rewrite Ho, En, iter_empty, app_nil_r. cbn.
    destruct (iter (incoming cfg)) as [|v l] eqn:Ei.
    { exfalso. apply Hi. apply set_eq. intros x. rewrite <- iter_elem, Ei. set_solver. }
    assert (Hv : v ∈ incoming cfg) by (rewrite <- iter_elem, Ei; set_solver).
    exists v, ((mkCCS AddNode <$> l) ++ (mkCCS AddLearnerNode <$> iter (learners cfg))).
    split; [done|]. split; [intros ->; apply Hz; unfold members; set_solver|].
    apply Forall_app. rewrite !Forall_fmap. split; apply Forall_forall; intros id Hid; cbn; [by left|].
    right. intros ->. rewrite iter_elem in Hid. destruct W as [[_ Hl _ _] _]. set_solver. }
  destruct El as (v & l & El & Hv & Hl). rewrite El in *. rewrite (apply_each_first v l) by done.
  f_equal. etransitivity; [exact E|]. destruct W as [_ Ha]. specialize (Ha Ho).
  by destruct cfg; cbn in *; subst.
Qed.

Lemma restore_enter cfg t : conf_wf cfg (members cfg) -> incoming cfg <> ∅ -> 0 ∉ members cfg ->
  outgoing cfg <> ∅ -> conf_ t = plain_conf (outgoing cfg) -> dom (progress_ t) = outgoing cfg ->
  exists changes, EnterJoint (auto_leave cfg) (ToConfChangeSingle (ToConfState cfg)).2 t = Ok (cfg, changes) /\
    change_dom (dom (progress_ t)) changes = members cfg.
Proof.
  intros W Hi Hz Ho C D. unfold EnterJoint.
  assert (Joint (conf_ t) = false) as -> by by apply not_joint; rewrite C.
  rewrite CheckAndCopy_wf by by eapply plain_wf. cbn [rbind].
  rewrite bool_decide_false by (rewrite C; done). unfold Apply.
  destruct (fold_incoming cfg (outgoing cfg) (mkIncrChangeMap [] (progress_ t))) as (m & E & Dm & B);
    [apply W|done|done|done|].
  replace (set_outgoing (outgoing (conf_ t) ∪ incoming (conf_ t)) (conf_ t)) with
    (mkTrackerConf (mkJoint (outgoing cfg) (outgoing cfg)) ∅ ∅ false).
  2:{ rewrite C. unfold set_outgoing, plain_conf, incoming, outgoing. cbn. by rewrite (left_id_L ∅ (∪)). }
  rewrite E. rewrite bool_decide_false by done. cbn [rbind].
  replace ((mkTrackerConf (voters cfg) (learners cfg) (learners_next cfg) false) <| auto_leave := auto_leave cfg |>)
    with cfg by by destruct cfg.
  rewrite restored_wf by done. exists (changes_ m). split; [done|].
  unfold icm_dom in Dm. by rewrite B in Dm.
Qed.

Lemma Restore_simple cfg n next_idx :
  conf_wf cfg (members cfg) -> incoming cfg <> ∅ -> 0 ∉ members cfg -> outgoing cfg = ∅ ->
  exists t, Restore next_idx (ToConfState cfg) (Tracker.new n) = Ret (Ok tt, t) /\
    conf_ t = cfg /\ dom (progress_ t) = members cfg /\ grown next_idx (Tracker.new n) t.
Proof.
  intros W Hi Hz Ho. unfold Restore.
  destruct (ToConfChangeSingle (ToConfState cfg)) as [out inc] eqn:El.
  pose proof (f_equal snd El) as Einc. pose proof (f_equal fst El) as Eout. cbn [fst snd] in *.
  assert (out = []) as -> by (rewrite <- Eout; cbn; by rewrite Ho, iter_empty).
  rewrite bool_decide_true by done. msteps.
  assert (Hc : CheckAndCopy (Tracker.new n) = Ok (plain_conf ∅, mkIncrChangeMap [] (progress_ (Tracker.new n)))).
  { rewrite CheckAndCopy_wf; [done|]. apply (plain_wf _ ∅); [done|]. apply dom_empty_L. }
  assert (EnterJoint false inc (Tracker.new n) = Err (EConfChangeCode ZeroVoterConfigJoint)) as ->.
  { unfold EnterJoint. by rewrite Hc. }
  msteps. rewrite Hc. cbn [rbind]. destruct (restore_each cfg n W Hi Hz Ho) as (m & E & D & B).
  rewrite Einc in E. rewrite E. cbn [rbind]. rewrite restored_wf by done. cbn [rbind].
  destruct (ApplyConf_run cfg (changes_ m) next_idx (Tracker.new n)) as (t & Et & C & Dt & G).
  rewrite (bind_run _ _ _ _ _ Et). exists t. split; [done|]. split; [done|]. split; [|done].
  rewrite Dt. unfold icm_dom in D. by rewrite B in D.
Qed.

Lemma Restore_joint cfg n next_idx :
  conf_wf cfg (members cfg) -> incoming cfg <> ∅ -> 0 ∉ members cfg -> outgoing cfg <> ∅ ->
  exists t, Restore next_idx (ToConfState cfg) (Tracker.new n) = Ret (Ok tt, t) /\
    conf_ t = cfg /\ dom (progress_ t) = members cfg /\ grown next_idx (Tracker.new n) t.
Proof.
  intros W Hi Hz Ho. unfold Restore.
  destruct (ToConfChangeSingle (ToConfState cfg)) as [out inc] eqn:El.
  pose proof (f_equal snd El) as Einc. pose proof (f_equal fst El) as Eout. cbn [fst snd] in *.
  rewrite bool_decide_false.
  2:{ intros ->. apply Ho. apply set_eq. intros x. rewrite <- iter_elem.
      cbn in Eout. apply fmap_nil_inv in Eout. rewrite Eout. set_solver. }
  destruct (simple_each_run next_idx (iter (outgoing cfg)) (Tracker.new n) ∅) as (t1 & E1 & C1 & D1 & G1);
    [done|apply dom_empty_L|rewrite iter_elem; unfold members in Hz; set_solver|].
  rewrite list_to_set_iter, (right_id_L ∅ (∪)) in *.
  cbn in Eout. rewrite <- Eout, (bind_run _ _ _ _ _ E1). msteps.
  destruct (restore_enter cfg t1 W Hi Hz Ho C1 D1) as (ch & E2 & D2). rewrite Einc in E2.
  change (cs_auto_leave (ToConfState cfg)) with (auto_leave cfg). rewrite E2.
  destruct (ApplyConf_run cfg ch next_idx t1) as (t & Et & C & Dt & G).
  rewrite (bind_run _ _ _ _ _ Et). exists t. split; [done|]. split; [done|]. split; [congruence|].
  by eapply grown_trans.
Qed.

(** Restoring a saved configuration on a fresh tracker gives it back:
    [Restore] of [ToConfState cfg] succeeds, the active configuration is [cfg]
    (joint or not), and every member, and nothing else, has a fresh progress. *)
Theorem Restore_ToConfState cfg n next_idx :
  conf_wf cfg (members cfg) -> incoming cfg <> ∅ -> 0 ∉ members cfg ->
  exists t, Restore next_idx (ToConfState cfg) (Tracker.new n) = Ret (Ok tt, t) /\
    conf_ t = cfg /\ dom (progress_ t) = members cfg /\
    forall id p, progress_ t !! id = Some p ->
      p = (Progress.new next_idx n) <| recent_active_ := true |>.
Proof.
  intros W Hi Hz.
  assert (exists t, Restore next_idx (ToConfState cfg) (Tracker.new n) = Ret (Ok tt, t) /\
    conf_ t = cfg /\ dom (progress_ t) = members cfg /\ grown next_idx (Tracker.new n) t)
    as (t & E & C & D & [_ G]).
  { destruct (decide (outgoing cfg = ∅)); [by apply Restore_simple|by apply Restore_joint]. }
  exists t. split; [done|]. split; [done|]. split; [done|]. intros id p Hp.
  destruct (G id p Hp) as [Hn|Hn]; [|done]. cbn in Hn. by rewrite lookup_empty in Hn.
Qed.
End ConfChangeProofs.

(** ** Witnesses *)

(** A joint configuration: 1, 2, 3 going to 1, 2, 4, with 3 becoming a learner. *)
Definition example_conf : TrackerConfiguration :=
  mkTrackerConf (mkJoint {[1; 2; 4]} {[1; 2; 3]}) {[5]} {[3]} true.

Definition example_progress (ids : list Z) : gmap Z Progress :=
  list_to_map ((fun id => (id, Progress.new 1 4)) <$> ids).

Definition example_tracker : ProgressTracker :=
  mkProgressTracker (example_progress [1; 2; 3; 4; 5]) example_conf ∅ 4 false.

(** The three-voter tracker the joint one comes from. *)
Definition example_voters : ProgressTracker :=
  mkProgressTracker (example_progress [1; 2; 3]) (plain_conf {[1; 2; 3]}) ∅ 4 false.

Lemma example_conf_wf : conf_wf example_conf (members example_conf).
Proof.
  split; [|by intros E; apply (f_equal (fun X => bool_decide (1 ∈ X))) in E].
  apply shape_intro; [done|..]; unfold example_conf, incoming, outgoing; cbn; set_solver.
Qed.

Lemma example_tracker_wf : tracker_wf example_tracker.
Proof.
  unfold tracker_wf. replace (dom (progress_ example_tracker)) with (members example_conf); [apply example_conf_wf|].
  vm_compute. reflexivity.
Qed.

Lemma example_voters_wf : tracker_wf example_voters.
Proof. apply (plain_wf _ {[1; 2; 3]}); [done|]. vm_compute. reflexivity. Qed.

Lemma example_enter : exists t', conf_step example_voters t' /\
  conf_ t' = mkTrackerConf (mkJoint {[1; 2; 3; 4]} {[1; 2; 3]}) ∅ ∅ true.
Proof.
  eexists. split.
  - eapply (step_enter _ _ true [mkCCS AddNode 4] _ _ 7); vm_compute; reflexivity.
  - vm_compute. reflexivity.
Qed.

Lemma conf_change_keeps_wf_witness :
  exists t', conf_step example_voters t' /\ tracker_wf t'.
Proof.
  destruct example_enter as (t' & S & _). exists t'. split; [exact S|].
  exact (proj1 (conf_change_keeps_wf _ _ S example_voters_wf)).
Defined.

Lemma conf_change_quorums_overlap_witness :
  exists v, v ∈ ({[1; 2]} : gset Z) /\ v ∈ ({[2; 3; 4]} : gset Z).
Proof.
  destruct example_enter as (t' & S & C).
  apply (conf_change_quorums_overlap _ _ _ _ S example_voters_wf).
  - intros E. by apply (f_equal (fun X => bool_decide (1 ∈ X))) in E.
  - split; [right|by left]. split; [cbn; set_solver|vm_compute; discriminate].
  - rewrite C. split; right; (split; [cbn; set_solver|vm_compute; discriminate]).
Defined.

Lemma LeaveJoint_succeeds_witness :
  exists changes, LeaveJoint example_tracker = Ok (left_conf example_conf, changes).
Proof.
  destruct (LeaveJoint_succeeds example_tracker) as (ch & E & _).
  - exact example_tracker_wf.
  - intros E. by apply (f_equal (fun X => bool_decide (1 ∈ X))) in E.
  - exists ch. exact E.
Defined.

Lemma Restore_ToConfState_witness :
  exists t, Restore 3 (ToConfState example_conf) (Tracker.new 4) = Ret (Ok tt, t) /\
    conf_ t = example_conf.
Proof.
  destruct (Restore_ToConfState example_conf 4 3) as (t & E & C & _).
  - exact example_conf_wf.
  - intros E. by apply (f_equal (fun X => bool_decide (1 ∈ X))) in E.
  - unfold members, example_conf, incoming, outgoing. cbn. set_solver.
  - exists t. split; [exact E|exact C].
Defined.
