(* ===== verification/Storage.v ===== *)
(** * The storage interface

    Model of [include/raftpp/core/storage.h]: the reads that the library makes
    of a [Storage], as a class of operations on a storage state [S], and the
    laws it relies on, stated through an abstract view of the stored log.
    [MemStorage] and [WalStorage] discharge the laws. *)

From S2P Require Import Prelude Types.

(** [GetEntriesContext] with its payload. *)
Inductive GetEntriesContext :=
| ForSendAppend (to term : Z) (aggressively : bool)
| ForGenReady
| ForTransferLeader
| ForCommitByVote
| ForEmpty (can_async : bool).

Definition CanAsync (c : GetEntriesContext) : bool :=
  match c with
  | ForEmpty can_async => can_async
  | ForSendAppend _ _ _ => true
  | _ => false
  end.

(** The virtual methods of [Storage].  [Entries] and [GetSnapshot] may change
    the storage object; [Term], [FirstIndex] and [LastIndex] are called from
    [const] methods of the log and are reads. *)
Class Storage (S : Type) := {
  InitialState : S -> Result RaftState;
  Entries : Z -> Z -> option Z -> GetEntriesContext -> M S (Result (list Entry));
  Term : Z -> S -> outcome (Result Z);
  FirstIndex : S -> Result Z;
  LastIndex : S -> Result Z;
  GetSnapshot : Z -> Z -> M S (Result Snapshot)
}.

(** [WritableStorage]: what the driver of a node writes, and reads of its own.
    [LocalSnapshot] and [LogSizeBytes] have default implementations. *)
Class WritableStorage (S : Type) := {
  wr_Append : list Entry -> M S (Result unit);
  wr_SetHardState : HardState -> M S (Result unit);
  wr_SetConfState : ConfState -> M S (Result unit);
  wr_ApplySnapshot : Snapshot -> M S (Result unit);
  wr_ApplyLocalSnapshot : Snapshot -> M S (Result unit);
  wr_Sync : M S (Result unit);
  wr_LocalSnapshot : S -> Result (option Snapshot);
  wr_LogSizeBytes : S -> Z
}.

(** The address book of a [WALStorage], as its owners call it through a second
    pointer to the storage. *)
Record AddressBook (S : Type) := mkAddressBook {
  ab_Upsert : Z -> string -> M S (Result unit);
  ab_Remove : Z -> M S (Result unit);
  ab_Get : S -> list (Z * string);
  ab_Set : list (Z * string) -> M S (Result unit)
}.
Arguments ab_Upsert {S}.
Arguments ab_Remove {S}.
Arguments ab_Get {S}.
Arguments ab_Set {S}.

(** ** Logs

    An abstract log: everything up to [v_dummy] is compacted, [v_dummy_term]
    is the term at [v_dummy] where it is known, and [v_entries] follows. *)
Record LogView := mkView {
  v_dummy : Z;
  v_dummy_term : option Z;
  v_entries : list Entry
}.

Definition v_last (v : LogView) : Z := v_dummy v + zlen (v_entries v).

(** The entry at index [i]. *)
Definition v_at (v : LogView) (i : Z) : option Entry :=
  if v_dummy v <? i then v_entries v !! Z.to_nat (i - v_dummy v - 1) else None.

(** Entry [k] of a list that starts at index [first] has index [first + k]. *)
Fixpoint contiguous (first : Z) (l : list Entry) : Prop :=
  match l with
  | [] => True
  | e :: l' => e_index e = first /\ contiguous (first + 1) l'
  end.

(** The entries with indexes in [[lo, hi)]. *)
Definition v_slice (v : LogView) (lo hi : Z) : list Entry :=
  take (Z.to_nat (hi - lo)) (drop (Z.to_nat (lo - v_dummy v - 1)) (v_entries v)).

(** The log cut below index [first], followed by [entries]. *)
Definition v_replace (v : LogView) (first : Z) (entries : list Entry) : LogView :=
  mkView (v_dummy v) (v_dummy_term v)
    (take (Z.to_nat (first - v_dummy v - 1)) (v_entries v) ++ entries).

Record view_wf (v : LogView) : Prop := {
  vw_dummy : 0 <= v_dummy v;
  vw_last : v_last v < u64max;
  vw_contiguous : contiguous (v_dummy v + 1) (v_entries v)
}.

(** What the log relies on.  A read returns a non-empty prefix of what was
    asked for (all of it when there is no size limit), or reports that the
    entries are being fetched when the caller allows that. *)
Class StorageLaws (S : Type) `{Storage S} := {
  st_inv : S -> Prop;
  st_view : S -> LogView;
  st_view_wf s : st_inv s -> view_wf (st_view s);
  st_first s : st_inv s -> FirstIndex s = Ok (v_dummy (st_view s) + 1);
  st_last s : st_inv s -> LastIndex s = Ok (v_last (st_view s));
  st_term s i e : st_inv s -> v_at (st_view s) i = Some e -> Term i s = Ret (Ok (e_term e));
  st_term_dummy s : st_inv s ->
    Term (v_dummy (st_view s)) s =
    Ret (match v_dummy_term (st_view s) with Some t => Ok t | None => Err (EStorage Compacted) end);
  st_term_ends s i : st_inv s -> Term i s <> Abort NoFuel;
  st_entries s lo hi max ctx : st_inv s ->
    v_dummy (st_view s) < lo < hi -> hi <= v_last (st_view s) + 1 ->
    exists r s', Entries lo hi max ctx s = Ret (r, s') /\ st_inv s' /\ st_view s' = st_view s /\
      match r with
      | Ok l => exists k, (0 < k)%nat /\ l = take k (v_slice (st_view s) lo hi) /\
                  (max = None -> l = v_slice (st_view s) lo hi)
      | Err e => e = EStorage LogTemporarilyUnavailable /\ CanAsync ctx = true
      end;
  st_snapshot s request to r s' : st_inv s -> GetSnapshot request to s = Ret (r, s') ->
    st_inv s' /\ st_view s' = st_view s /\
    (forall snap, r = Ok snap -> 0 <= request < u64max -> 0 <= sn_index snap < u64max);
  st_snapshot_ends s request to : st_inv s -> GetSnapshot request to s <> Abort NoFuel
}.

(** The hard state a node would start with. *)
Definition stored_hs {S} `{Storage S} (s : S) : option HardState :=
  match InitialState s with Ok st => Some (rs_hard_state st) | Err _ => None end.

(** What the driver relies on when a write succeeds: [Append] replaces the log
    from the first entry on, which starts inside the log or right behind it;
    [ApplySnapshot] leaves the empty log after the snapshot and keeps the vote,
    in a term that is not smaller; hard states, configurations and addresses
    leave the log alone, also when their write fails, and a hard state that
    was set is the one a node would start with. *)
Class WritableLaws (S : Type) `{StorageLaws S} `{WritableStorage S} := {
  wl_append s e rest s' : st_inv s -> contiguous (e_index e) (e :: rest) -> 0 < e_index e ->
    e_index e + zlen (e :: rest) <= u64max -> wr_Append (e :: rest) s = Ret (Ok tt, s') ->
    v_dummy (st_view s) < e_index e <= v_last (st_view s) + 1 /\
    st_inv s' /\ st_view s' = v_replace (st_view s) (e_index e) (e :: rest);
  wl_hard_state s hs s' : st_inv s -> is_u64 (hs_commit hs) -> wr_SetHardState hs s = Ret (Ok tt, s') ->
    st_inv s' /\ st_view s' = st_view s /\ stored_hs s' = Some hs;
  wl_sync s s' : st_inv s -> wr_Sync s = Ret (Ok tt, s') -> st_inv s' /\ st_view s' = st_view s /\ stored_hs s' = stored_hs s;
  wl_conf_state s cs r s' : st_inv s -> wr_SetConfState cs s = Ret (r, s') -> st_inv s' /\ st_view s' = st_view s;
  wl_snapshot s snap s' : st_inv s -> 0 <= sn_index snap < u64max -> wr_ApplySnapshot snap s = Ret (Ok tt, s') ->
    st_inv s' /\ st_view s' = mkView (sn_index snap) (Some (sn_term snap)) [] /\
    forall hs, stored_hs s = Some hs -> exists hs', stored_hs s' = Some hs' /\ hs_vote hs' = hs_vote hs /\ hs_term hs <= hs_term hs'
}.

Definition book_ok {S} `{StorageLaws S} (b : AddressBook S) : Prop :=
  (forall s id addr r s', st_inv s -> ab_Upsert b id addr s = Ret (r, s') -> st_inv s' /\ st_view s' = st_view s) /\
  (forall s id r s', st_inv s -> ab_Remove b id s = Ret (r, s') -> st_inv s' /\ st_view s' = st_view s).

(** ** Lemmas on logs *)

Lemma contiguous_app first l k :
  contiguous first (l ++ k) <-> contiguous first l /\ contiguous (first + zlen l) k.
Proof.
  revert first. induction l as [|e l IH]; intros first; cbn.
  - rewrite Z.add_0_r. tauto.
  - rewrite IH. replace (first + 1 + zlen l) with (first + Z.of_nat (S (length l))) by lia. tauto.
Qed.

Lemma contiguous_lookup first l k e :
  contiguous first l -> l !! k = Some e -> e_index e = first + Z.of_nat k.
Proof.
  revert first k. induction l as [|x l IH]; intros first k Hc E; [done|].
  destruct Hc as [Hx Hc]. destruct k as [|k]; cbn in E.
  - injection E as ->. lia.
  - rewrite (IH _ _ Hc E). lia.
Qed.

Lemma contiguous_take first l k : contiguous first l -> contiguous first (take k l).
Proof. intros Hc. rewrite <- (take_drop k l) in Hc. by apply contiguous_app in Hc as [? _]. Qed.

Lemma contiguous_drop first l k : (k <= length l)%nat ->
  contiguous first l -> contiguous (first + Z.of_nat k) (drop k l).
Proof.
  intros Hk Hc. rewrite <- (take_drop k l) in Hc. apply contiguous_app in Hc as [_ Hc].
  by rewrite length_take_le in Hc.
Qed.

Lemma contiguous_last first l e : contiguous first l -> last l = Some e -> e_index e = first + zlen l - 1.
Proof.
  intros Hc E. rewrite last_lookup in E. rewrite (contiguous_lookup _ _ _ _ Hc E).
  apply lookup_lt_Some in E. lia.
Qed.

Lemma v_at_Some v i e : v_at v i = Some e ->
  v_dummy v < i <= v_last v /\ v_entries v !! Z.to_nat (i - v_dummy v - 1) = Some e.
Proof.
  unfold v_at, v_last. destruct (Z.ltb_spec (v_dummy v) i); [|done]. intros E. split; [|done].
  apply lookup_lt_Some in E. lia.
Qed.

Lemma v_at_is_Some v i : v_dummy v < i <= v_last v -> exists e, v_at v i = Some e.
Proof.
  intros Hi. unfold v_at, v_last in *. destruct (Z.ltb_spec (v_dummy v) i); [|lia].
  apply lookup_lt_is_Some_2. lia.
Qed.

Lemma v_at_index v i e : view_wf v -> v_at v i = Some e -> e_index e = i.
Proof.
  intros W E. apply v_at_Some in E as [Hi E].
  rewrite (contiguous_lookup _ _ _ _ (vw_contiguous v W) E). lia.
Qed.

Lemma v_slice_length v lo hi : v_dummy v < lo -> lo <= hi -> hi <= v_last v + 1 ->
  zlen (v_slice v lo hi) = hi - lo.
Proof.
  intros. unfold v_slice, v_last in *. rewrite length_take, length_drop. lia.
Qed.

Lemma v_slice_lookup v lo hi k : v_dummy v < lo -> (Z.of_nat k < hi - lo) ->
  v_slice v lo hi !! k = v_at v (lo + Z.of_nat k).
Proof.
  intros Hl Hk. unfold v_slice, v_at. destruct (Z.ltb_spec (v_dummy v) (lo + Z.of_nat k)); [|lia].
  rewrite lookup_take_lt, lookup_drop by lia. f_equal. lia.
Qed.
