(* ===== verification/MemStorage.v ===== *)
(** * The in-memory storage

    Model of [lib/core/memory_storage.cc] ([MemoryStorageCore] and the
    [MemoryStorage] that guards it with a mutex; calls are atomic).  It is an
    instance of [Storage] and discharges its laws. *)

From S2P Require Import Prelude Types Util Storage.

Record MemoryStorage := mkMemoryStorage {
  raft_state_ : RaftState;
  entries_ : list Entry;
  snapshot_metadata_ : SnapshotMetadata;
  trigger_snapshot_unavailable_ : bool;
  trigger_log_unavailable_ : bool;
  get_entries_context_ : option GetEntriesContext
}.
#[export] Instance MemoryStorage_eta : Eta MemoryStorage := fun m =>
  mkMemoryStorage (raft_state_ m) (entries_ m) (snapshot_metadata_ m)
    (trigger_snapshot_unavailable_ m) (trigger_log_unavailable_ m) (get_entries_context_ m).

Definition new : MemoryStorage :=
  mkMemoryStorage (mkRaftState empty_hard_state empty_conf_state) []
    (mkSnapshotMetadata empty_conf_state 0 0) false false None.

Definition first_index (m : MemoryStorage) : Z :=
  match entries_ m with
  | [] => sm_index (snapshot_metadata_ m) +! 1
  | e :: _ => e_index e
  end.

Definition last_index (m : MemoryStorage) : Z :=
  match last (entries_ m) with
  | None => sm_index (snapshot_metadata_ m)
  | Some e => e_index e
  end.

Definition HasEntryAt (index : Z) (m : MemoryStorage) : bool :=
  negb (bool_decide (entries_ m = [])) && (first_index m <=? index) && (index <=? last_index m).

Definition set_hard_state (hs : HardState) : M MemoryStorage unit :=
  modify (fun m => m <| raft_state_ := (raft_state_ m) <| rs_hard_state := hs |> |>).

Definition set_conf_state (cs : ConfState) : M MemoryStorage unit :=
  modify (fun m => m <| raft_state_ := (raft_state_ m) <| rs_conf_state := cs |> |>).

Definition SetHardState (hs : HardState) : M MemoryStorage (Result unit) :=
  set_hard_state hs ;;; ret (Ok tt).

Definition SetConfState (conf_state : ConfState) : M MemoryStorage (Result unit) :=
  set_conf_state conf_state ;;; ret (Ok tt).

Definition SetRaftState (raft_state : RaftState) : M MemoryStorage unit :=
  set! raft_state_ := raft_state.

Definition CommitTo (index : Z) : M MemoryStorage unit :=
  let! m := get in
  assert (HasEntryAt index m) "commit_to {} but the entry does not exist" ;;;
  let! e0 := getsO (fun m => vec_at (entries_ m) 0) in
  let diff := index -! e_index e0 in
  let! e := getsO (fun m => vec_at (entries_ m) diff) in
  let hs := rs_hard_state (raft_state_ m) in
  set_hard_state (hs <| hs_commit := index |> <| hs_term := e_term e |>).

Definition ApplySnapshot (snapshot : Snapshot) : M MemoryStorage (Result unit) :=
  let index := sn_index snapshot in
  let! m := get in
  if index <? first_index m then ret (Err (EStorage SnapshotOutOfDate))
  else
    set! snapshot_metadata_ := sn_meta snapshot ;;;
    let hs := rs_hard_state (raft_state_ m) in
    set_hard_state (hs <| hs_term := Z.max (hs_term hs) (sn_term snapshot) |> <| hs_commit := index |>) ;;;
    set! entries_ := [] ;;;
    set_conf_state (sm_conf_state (sn_meta snapshot)) ;;;
    ret (Ok tt).

Definition Compact (compact_index : Z) : M MemoryStorage (Result unit) :=
  let! m := get in
  if compact_index <=? first_index m then ret (Ok tt)
  else if (last_index m +! 1) <? compact_index then
    ret (Err (EFatal "compact not received raft logs, compact_index={} last_index={}"))
  else
    match entries_ m with
    | [] => ret (Ok tt)
    | e0 :: _ =>
        let offset := compact_index -! e_index e0 in
        if zlen (entries_ m) <? offset then abort Undefined
        else
          modify (fun m => m <| entries_ := drop (Z.to_nat offset) (entries_ m) |>) ;;;
          ret (Ok tt)
    end.

Definition ApplyLocalSnapshot (snapshot : Snapshot) : M MemoryStorage (Result unit) :=
  let index := sn_index snapshot in
  let! m := get in
  if index <? first_index m then ret (Err (EStorage SnapshotOutOfDate))
  else
    set! snapshot_metadata_ := sn_meta snapshot ;;;
    let hs := rs_hard_state (raft_state_ m) in
    let hs := hs <| hs_term := Z.max (hs_term hs) (sn_term snapshot) |> in
    set_hard_state (if hs_commit hs <? index then hs <| hs_commit := index |> else hs) ;;;
    set_conf_state (sm_conf_state (sn_meta snapshot)) ;;;
    Compact (index +! 1).

Definition MayAppend (ents : list Entry) : M MemoryStorage (Result unit) :=
  match ents with
  | [] => ret (Ok tt)
  | e :: _ =>
      let new_appended := e_index e in
      let! m := get in
      if new_appended <? first_index m then
        ret (Err (EFatal "overwrite compacted raft logs, compacted={} new_appended={}"))
      else if (last_index m +! 1) <? new_appended then
        ret (Err (EFatal "raft logs should be continuous, last_index={} new_appended={}"))
      else
        let diff := new_appended -! first_index m in
        when (diff <? zlen (entries_ m))
          (modify (fun m => m <| entries_ := take (Z.to_nat diff) (entries_ m) |>)) ;;;
        modify (fun m => m <| entries_ := entries_ m ++ ents |>) ;;;
        ret (Ok tt)
  end.

Definition Append (ents : list Entry) : M MemoryStorage (Result unit) := MayAppend ents.

Definition SetEntries (entries : list Entry) : M MemoryStorage unit := set! entries_ := entries.

Definition AllEntries (m : MemoryStorage) : list Entry := entries_ m.

Definition TriggerSnapshotUnavailable : M MemoryStorage unit :=
  set! trigger_snapshot_unavailable_ := true.

Definition TriggerLogUnavailable (enable : bool) : M MemoryStorage unit :=
  set! trigger_log_unavailable_ := enable.

Definition TakeGetEntriesContext : M MemoryStorage (option GetEntriesContext) :=
  let! m := get in
  set! get_entries_context_ := None ;;;
  ret (get_entries_context_ m).

Definition snapshot (m : MemoryStorage) : outcome Snapshot :=
  let index := hs_commit (rs_hard_state (raft_state_ m)) in
  let meta := snapshot_metadata_ m in
  if index <? sm_index meta then Abort (Panic "commit {} < snapshot_metadata.index {}")
  else
    let? term :=
      (if sm_index meta <? index then
         let? e0 := vec_at (entries_ m) 0 in
         let? e := vec_at (entries_ m) (index -! e_index e0) in
         Ret (e_term e)
       else Ret (sm_term meta)) in
    Ret (mkSnapshot "" (mkSnapshotMetadata (rs_conf_state (raft_state_ m)) index term)).

Definition mem_Term (idx : Z) (m : MemoryStorage) : outcome (Result Z) :=
  if idx =? sm_index (snapshot_metadata_ m) then Ret (Ok (sm_term (snapshot_metadata_ m)))
  else
    let offset := first_index m in
    if idx <? offset then Ret (Err (EStorage Compacted))
    else if last_index m <? idx then Ret (Err (EStorage Unavailable))
    else
      let? e := vec_at (entries_ m) (idx -! offset) in
      Ret (Ok (e_term e)).

Definition mem_GetSnapshot (request_index _to : Z) : M MemoryStorage (Result Snapshot) :=
  let! m := get in
  if trigger_snapshot_unavailable_ m then
    set! trigger_snapshot_unavailable_ := false ;;;
    ret (Err (EStorage SnapshotTemporarilyUnavailable))
  else
    let! snapshot := getsO snapshot in
    if sn_index snapshot <? request_index then
      ret (Ok (mkSnapshot (sn_data snapshot)
                 (mkSnapshotMetadata (sm_conf_state (sn_meta snapshot)) request_index (sn_term snapshot))))
    else ret (Ok snapshot).

Section Mem.
Context {ENV : Env}.

Definition mem_Entries (low high : Z) (max_size : option Z) (context : GetEntriesContext) :
    M MemoryStorage (Result (list Entry)) :=
  let! m := get in
  if low <? first_index m then ret (Err (EStorage Compacted))
  else if (last_index m +! 1) <? high then abort (Panic "index out of bound (last: {}, high: {})")
  else if trigger_log_unavailable_ m && CanAsync context then
    set! get_entries_context_ := Some context ;;;
    ret (Err (EStorage LogTemporarilyUnavailable))
  else
    let! front := getsO (fun m => vec_at (entries_ m) 0) in
    let offset := e_index front in
    let lo := low -! offset in
    let hi := high -! offset in
    (* iterators outside the vector are undefined *)
    if (hi <? lo) || (zlen (entries_ m) <? hi) then abort Undefined
    else
      let entries := take (Z.to_nat (hi - lo)) (drop (Z.to_nat lo) (entries_ m)) in
      ret (Ok (match max_size with Some max => LimitSize entries (Some max) | None => entries end)).

#[export] Instance memory_storage : Storage MemoryStorage := {|
  InitialState m := Ok (raft_state_ m);
  Entries := mem_Entries;
  Term := mem_Term;
  FirstIndex m := Ok (first_index m);
  LastIndex m := Ok (last_index m);
  GetSnapshot := mem_GetSnapshot
|}.
End Mem.

(** [Sync] has nothing to do; the local snapshot and the size are the defaults
    of [WritableStorage]. *)
#[export] Instance memory_writable : WritableStorage MemoryStorage := {|
  wr_Append := Append;
  wr_SetHardState := SetHardState;
  wr_SetConfState := SetConfState;
  wr_ApplySnapshot := ApplySnapshot;
  wr_ApplyLocalSnapshot := ApplyLocalSnapshot;
  wr_Sync := ret (Ok tt);
  wr_LocalSnapshot _ := Ok None;
  wr_LogSizeBytes _ := 0
|}.

(** ** Specification *)

Definition mem_view (m : MemoryStorage) : LogView :=
  let dummy := match entries_ m with [] => sm_index (snapshot_metadata_ m) | e :: _ => e_index e - 1 end in
  mkView dummy
    (if dummy =? sm_index (snapshot_metadata_ m) then Some (sm_term (snapshot_metadata_ m)) else None)
    (entries_ m).

(** Contiguous entries after the snapshot, short of the largest index. *)
Record mem_inv (m : MemoryStorage) : Prop := {
  mi_view : view_wf (mem_view m);
  mi_snapshot : 0 <= sm_index (snapshot_metadata_ m) <= v_dummy (mem_view m);
  mi_commit : is_u64 (hs_commit (rs_hard_state (raft_state_ m)))
}.

(** ** Properties *)

Lemma mem_first m : mem_inv m -> first_index m = v_dummy (mem_view m) + 1.
Proof.
  intros [[Hd Hl _] Hs _]. unfold first_index, mem_view, v_last in *. destruct (entries_ m); cbn in *; [|lia].
  u64_lia.
Qed.

Lemma mem_last m : mem_inv m -> last_index m = v_last (mem_view m).
Proof.
  intros [[_ _ Hc] _]. unfold last_index, v_last. destruct (last (entries_ m)) as [e|] eqn:E.
  - unfold mem_view in *. cbn in *. rewrite (contiguous_last _ _ _ Hc E). lia.
  - apply last_None in E. unfold mem_view. rewrite E. cbn. lia.
Qed.

Lemma mem_term m i e : mem_inv m -> v_at (mem_view m) i = Some e -> mem_Term i m = Ret (Ok (e_term e)).
Proof.
  intros W E. pose proof (mem_first m W) as Hf. pose proof (mem_last m W) as Hl.
  apply v_at_Some in E as [Hi E]. destruct W as [[Hd Hm _] Hs]. unfold mem_Term.
  rewrite (proj2 (Z.eqb_neq _ _)), Hf, Hl, (proj2 (Z.ltb_ge _ _)), (proj2 (Z.ltb_ge _ _)) by lia.
  assert (vec_at (entries_ m) (i -! (v_dummy (mem_view m) + 1)) = Ret e) as ->; [|done].
  apply vec_at_Ret. u64_simpl. split; [lia|]. rewrite <- E. unfold mem_view at 2. cbn. f_equal. lia.
Qed.

Lemma mem_term_dummy m : mem_inv m ->
  mem_Term (v_dummy (mem_view m)) m =
  Ret (match v_dummy_term (mem_view m) with Some t => Ok t | None => Err (EStorage Compacted) end).
Proof.
  intros W. pose proof (mem_first m W) as Hf. unfold mem_Term. rewrite Hf.
  destruct (Z.eqb_spec (v_dummy (mem_view m)) (sm_index (snapshot_metadata_ m))) as [E|E].
  - unfold mem_view in *. cbn in *. by rewrite (proj2 (Z.eqb_eq _ _)).
  - rewrite (proj2 (Z.ltb_lt _ _)) by lia. unfold mem_view in *. cbn in *. by rewrite (proj2 (Z.eqb_neq _ _)).
Qed.

Lemma mem_inv_same m m' : entries_ m' = entries_ m -> snapshot_metadata_ m' = snapshot_metadata_ m ->
  raft_state_ m' = raft_state_ m -> mem_inv m -> mem_inv m' /\ mem_view m' = mem_view m.
Proof.
  intros E1 E2 E3 [Hv Hs Hc]. assert (Em : mem_view m' = mem_view m) by (unfold mem_view; by rewrite E1, E2).
  split; [|done]. constructor; rewrite ?Em, ?E2, ?E3; done.
Qed.

Section MemLaws.
Context {ENV : Env}.

Lemma mem_entries m lo hi max ctx : mem_inv m ->
  v_dummy (mem_view m) < lo < hi -> hi <= v_last (mem_view m) + 1 ->
  exists r m', mem_Entries lo hi max ctx m = Ret (r, m') /\ mem_inv m' /\ mem_view m' = mem_view m /\
    match r with
    | Ok l => exists k, (0 < k)%nat /\ l = take k (v_slice (mem_view m) lo hi) /\
                (max = None -> l = v_slice (mem_view m) lo hi)
    | Err e => e = EStorage LogTemporarilyUnavailable /\ CanAsync ctx = true
    end.
Proof.
  intros W Hlo Hhi. unfold mem_Entries. msteps. rewrite mem_first, mem_last by done.
  pose proof W as [[Hd Hm _] _]. u64_simpl. rewrite !(proj2 (Z.ltb_ge _ _)) by lia.
  destruct (trigger_log_unavailable_ m && CanAsync ctx) eqn:Et.
  - msteps. eexists _, _. split; [reflexivity|]. apply andb_true_iff in Et as [_ Et].
    match goal with |- mem_inv ?x /\ _ => destruct (mem_inv_same m x) as [Wi Vi] end; [done..|]. done.
  - assert (Hlen : zlen (v_slice (mem_view m) lo hi) = hi - lo) by (apply v_slice_length; lia).
    destruct (entries_ m) as [|e0 es] eqn:Ee.
    { unfold v_last, mem_view in *. rewrite Ee in *. cbn in *. lia. }
    assert (Ef : e_index e0 = v_dummy (mem_view m) + 1) by (unfold mem_view; rewrite Ee; cbn; lia).
    rewrite (bind_run (getsO _) _ _ e0 m) by (unfold getsO; by rewrite Ee). rewrite Ef. u64_simpl.
    assert (Hes : v_last (mem_view m) = v_dummy (mem_view m) + zlen (e0 :: es)) by (unfold v_last, mem_view; by rewrite Ee).
    rewrite !(proj2 (Z.ltb_ge _ _)) by lia. cbn [orb].
    replace (take _ (drop _ (e0 :: es))) with (v_slice (mem_view m) lo hi).
    2:{ unfold v_slice. unfold mem_view at 2. cbn [v_entries]. rewrite Ee. f_equal; [lia|f_equal; lia]. }
    eexists _, m. split; [reflexivity|]. split; [done|]. split; [done|]. destruct max as [max|].
    + destruct (LimitSize_prefix (v_slice (mem_view m) lo hi) (Some max)) as (k & Hk & E & [Hn|Hn] & _).
      * unfold two64, u64max in *. lia.
      * rewrite Hn in Hlen. cbn in Hlen. lia.
      * exists k. by rewrite E.
    + exists (length (v_slice (mem_view m) lo hi)). rewrite take_ge by lia. split; [lia|done].
Qed.

Lemma snapshot_index m s : mem_inv m -> snapshot m = Ret s -> 0 <= sn_index s < u64max.
Proof.
  intros W E. pose proof W as [[Hd Hl Hcon] Hs Hcm]. unfold snapshot in E.
  set (c := hs_commit (rs_hard_state (raft_state_ m))) in *.
  destruct (Z.ltb_spec c (sm_index (snapshot_metadata_ m))); [discriminate|].
  apply obind_Ret in E as (t & Et & E). injection E as <-. cbn.
  assert (Hlast : v_last (mem_view m) = v_dummy (mem_view m) + zlen (entries_ m)) by done.
  destruct (Z.ltb_spec (sm_index (snapshot_metadata_ m)) c); [|lia]. mdestr.
  apply vec_at_Ret in E as [_ E]. apply vec_at_Ret in E0 as [_ E0]. apply lookup_lt_Some in E0.
  assert (Hx : e_index x = v_dummy (mem_view m) + 1) by (rewrite (contiguous_lookup _ _ _ _ Hcon E); cbn; lia).
  rewrite Hx in E0. destruct (Z.lt_ge_cases c (v_dummy (mem_view m) + 1)) as [Hlt|Hge]; [unfold is_u64 in Hcm; lia|].
  rewrite u64_id in E0 by (unfold is_u64, two64, u64max in *; lia). unfold is_u64 in Hcm. lia.
Qed.

Lemma mem_snapshot m request to r m' : mem_inv m -> mem_GetSnapshot request to m = Ret (r, m') ->
  mem_inv m' /\ mem_view m' = mem_view m /\
  (forall snap, r = Ok snap -> 0 <= request < u64max -> 0 <= sn_index snap < u64max).
Proof.
  intros W E. unfold mem_GetSnapshot in E. rewrite bind_get in E. destruct (trigger_snapshot_unavailable_ m).
  { mdestr. match goal with |- mem_inv ?x /\ _ => destruct (mem_inv_same m x) as [Wi Vi] end; done. }
  apply bind_Ret in E as (s & m1 & E1 & E). apply getsO_Ret in E1 as (s' & E1 & [= -> ->]).
  pose proof (snapshot_index m s' W E1). destruct (_ <? _); injection E as <- <-; (split; [done|]; split; [done|]);
    intros snap [= <-] Hr; cbn; done.
Qed.

Lemma mem_snapshot_ends m request to : mem_inv m -> mem_GetSnapshot request to m <> Abort NoFuel.
Proof.
  intros _. unfold mem_GetSnapshot. rewrite bind_get. destruct (trigger_snapshot_unavailable_ m); [done|].
  unfold bind, getsO, snapshot. destruct (_ <? _); [done|]. destruct (_ <? _); cbn.
  - destruct (vec_at (entries_ m) 0) as [e0|f] eqn:E0; cbn; [|intros [= ->]; by apply vec_at_ends in E0].
    destruct (vec_at (entries_ m) (_ -! _)) as [e|f] eqn:E1; cbn; [by destruct (_ <? _)|intros [= ->]; by apply vec_at_ends in E1].
  - by destruct (_ <? _).
Qed.

Lemma mem_term_ends m i : mem_inv m -> mem_Term i m <> Abort NoFuel.
Proof. intros _. unfold mem_Term. cbv zeta. nofuel_tac ltac:(apply vec_at_ends). Qed.

(** [MemoryStorage] keeps the promises of a [Storage]. *)
#[export] Instance memory_storage_laws : StorageLaws MemoryStorage := {|
  st_inv := mem_inv;
  st_view := mem_view;
  st_view_wf m W := mi_view m W;
  st_first m W := f_equal Ok (mem_first m W);
  st_last m W := f_equal Ok (mem_last m W);
  st_term := mem_term;
  st_term_dummy := mem_term_dummy;
  st_term_ends := mem_term_ends;
  st_entries := mem_entries;
  st_snapshot := mem_snapshot;
  st_snapshot_ends := mem_snapshot_ends
|}.
End MemLaws.

(** ** The writes, on the view *)

Section MemWrites.

Lemma mem_view_wf_eq m v : mem_view m = v -> view_wf v ->
  0 <= sm_index (snapshot_metadata_ m) <= v_dummy v ->
  is_u64 (hs_commit (rs_hard_state (raft_state_ m))) -> mem_inv m.
Proof. intros <- Hv Hs Hc. by constructor. Qed.

Lemma mem_append m e rest : mem_inv m -> contiguous (e_index e) (e :: rest) -> 0 < e_index e ->
  e_index e + zlen (e :: rest) <= u64max ->
  exists r m', Append (e :: rest) m = Ret (r, m') /\ mem_inv m' /\
    if (v_dummy (mem_view m) <? e_index e) && (e_index e <=? v_last (mem_view m) + 1)
    then r = Ok tt /\ v_entries (mem_view m') =
           take (Z.to_nat (e_index e - v_dummy (mem_view m) - 1)) (v_entries (mem_view m)) ++ e :: rest /\
         v_dummy (mem_view m') = v_dummy (mem_view m)
    else r <> Ok tt /\ m' = m.
Proof.
  intros W Hc He Hl. pose proof W as [[Hd Hm Hcm] Hs Hhs].
  assert (Hlast : v_last (mem_view m) = v_dummy (mem_view m) + zlen (entries_ m)) by done.
  unfold Append, MayAppend. msteps.
  rewrite mem_first, mem_last by done. u64_simpl.
  destruct (Z.ltb_spec (e_index e) (v_dummy (mem_view m) + 1)) as [H1|H1].
  { rewrite (proj2 (Z.ltb_ge _ _)) by lia. by eexists _, m. }
  rewrite (proj2 (Z.ltb_lt (v_dummy (mem_view m)) _)) by lia. cbn [andb].
  destruct (Z.ltb_spec (v_last (mem_view m) + 1) (e_index e)) as [H2|H2].
  { rewrite (proj2 (Z.leb_gt _ _)) by lia. by eexists _, m. }
  rewrite (proj2 (Z.leb_le _ _)) by lia. u64_simpl.
  set (kept := take (Z.to_nat (e_index e - (v_dummy (mem_view m) + 1))) (entries_ m)).
  set (m' := m <| entries_ := kept ++ e :: rest |>).
  assert (Ed : v_dummy (mem_view m') = v_dummy (mem_view m)).
  { unfold m', mem_view in *. cbn in *. subst kept. destruct (entries_ m) as [|x es] eqn:Ee.
    - rewrite take_nil. cbn in *. lia.
    - destruct (Z.to_nat (e_index e - (e_index x - 1 + 1))) as [|k] eqn:Ek; cbn in *; [lia|done]. }
  exists (Ok tt), m'. split.
  - destruct (Z.ltb_spec (e_index e - (v_dummy (mem_view m) + 1)) (zlen (entries_ m))); [done|].
    msteps. unfold m', kept. rewrite take_ge by lia. done.
  - split; [|split; [done|split; [|done]]].
    + apply (mem_view_wf_eq m' (mem_view m')); [done| |rewrite Ed; done|done].
      assert (Hk : zlen kept = e_index e - (v_dummy (mem_view m) + 1)) by (unfold kept; rewrite length_take; lia).
      constructor; rewrite ?Ed; [done| |].
      * unfold v_last. rewrite Ed. change (v_entries (mem_view m')) with (kept ++ e :: rest).
        rewrite length_app. lia.
      * change (v_entries (mem_view m')) with (kept ++ e :: rest). apply contiguous_app. split; [by apply contiguous_take|].
        rewrite Hk. replace (_ + _) with (e_index e) by lia. done.
    + unfold m', kept, mem_view. cbn. f_equal. f_equal. lia.
Qed.

Lemma mem_compact m i : mem_inv m -> v_dummy (mem_view m) < i <= v_last (mem_view m) ->
  exists m', Compact i m = Ret (Ok tt, m') /\ mem_inv m' /\
    v_dummy (mem_view m') = i - 1 /\ v_last (mem_view m') = v_last (mem_view m) /\
    forall j, i <= j -> v_at (mem_view m') j = v_at (mem_view m) j.
Proof.
  intros W Hi. pose proof W as [[Hd Hm Hcm] Hs Hhs].
  assert (Hlast : v_last (mem_view m) = v_dummy (mem_view m) + zlen (entries_ m)) by done.
  unfold Compact. msteps.
  rewrite mem_first, mem_last by done. u64_simpl.
  destruct (Z.leb_spec i (v_dummy (mem_view m) + 1)) as [H1|H1].
  { exists m. split; [done|]. split; [done|]. split; [lia|done]. }
  rewrite (proj2 (Z.ltb_ge _ _)) by lia.
  destruct (entries_ m) as [|x es] eqn:Ee; [cbn [length] in Hlast; lia|].
  assert (Ex : e_index x = v_dummy (mem_view m) + 1) by (unfold mem_view; rewrite Ee; cbn; lia).
  rewrite Ex. u64_simpl. rewrite (proj2 (Z.ltb_ge _ _)) by lia. msteps. rewrite <- Ee in *.
  set (k := Z.to_nat (i - (v_dummy (mem_view m) + 1))). set (m' := m <| entries_ := drop k (entries_ m) |>).
  assert (Hc' : contiguous i (drop k (entries_ m))).
  { replace i with (v_dummy (mem_view m) + 1 + Z.of_nat k) by lia. apply contiguous_drop; [lia|done]. }
  assert (Ed : v_dummy (mem_view m') = i - 1).
  { unfold m', mem_view. cbn. destruct (drop k (entries_ m)) as [|y ys] eqn:E; [|destruct Hc'; lia].
    apply (f_equal length) in E. rewrite length_drop in E. cbn in E. lia. }
  assert (El : v_last (mem_view m') = v_last (mem_view m)).
  { unfold v_last at 1. rewrite Ed. unfold m', mem_view at 1. cbn. rewrite length_drop. lia. }
  exists m'. split; [done|]. split; [|split; [done|split; [done|]]].
  - apply (mem_view_wf_eq m' (mem_view m')); [done| |rewrite Ed; cbn; lia|done].
    constructor; rewrite ?Ed, ?El; [lia|lia|]. replace (i - 1 + 1) with i by lia. done.
  - intros j Hj. unfold v_at. rewrite Ed, !(proj2 (Z.ltb_lt _ _)) by lia.
    change (v_entries (mem_view m')) with (drop k (v_entries (mem_view m))).
    rewrite lookup_drop. f_equal. lia.
Qed.

Lemma mem_apply_snapshot m s : mem_inv m -> 0 <= sn_index s < u64max ->
  exists r m', ApplySnapshot s m = Ret (r, m') /\ mem_inv m' /\
    if v_dummy (mem_view m) <? sn_index s
    then r = Ok tt /\ mem_view m' = mkView (sn_index s) (Some (sn_term s)) []
    else r = Err (EStorage SnapshotOutOfDate) /\ m' = m.
Proof.
  intros W Hs. unfold ApplySnapshot. msteps. rewrite mem_first by done.
  destruct (Z.ltb_spec (sn_index s) (v_dummy (mem_view m) + 1)) as [H1|H1].
  { rewrite (proj2 (Z.ltb_ge _ _)) by lia. by eexists _, m. }
  rewrite (proj2 (Z.ltb_lt _ _)) by lia. unfold set_hard_state, set_conf_state. msteps.
  eexists _, _. split; [reflexivity|].
  match goal with |- mem_inv ?x /\ _ => set (m' := x) end.
  assert (Ev : mem_view m' = mkView (sn_index s) (Some (sn_term s)) []).
  { unfold m', mem_view. cbn. by rewrite (proj2 (Z.eqb_eq _ _)). }
  split; [|done]. apply (mem_view_wf_eq m' _ Ev); [|unfold sn_index in *; cbn; lia|unfold sn_index, is_u64, two64, u64max in *; cbn; lia].
  constructor; cbn; [lia|unfold v_last; cbn; lia|done].
Qed.

Lemma mem_raft_state m f : mem_inv m -> is_u64 (hs_commit (rs_hard_state (f (raft_state_ m)))) ->
  mem_inv (m <| raft_state_ := f (raft_state_ m) |>) /\ mem_view (m <| raft_state_ := f (raft_state_ m) |>) = mem_view m.
Proof. intros [Hv Hs _] Hc. split; [by constructor|done]. Qed.

Lemma mem_append_view m e rest m' : mem_inv m -> contiguous (e_index e) (e :: rest) -> 0 < e_index e ->
  e_index e + zlen (e :: rest) <= u64max -> Append (e :: rest) m = Ret (Ok tt, m') ->
  v_dummy (mem_view m) < e_index e <= v_last (mem_view m) + 1 /\ mem_inv m' /\ mem_view m' = v_replace (mem_view m) (e_index e) (e :: rest).
Proof.
  intros W Hc He Hl E. destruct (mem_append m e rest W Hc He Hl) as (r & m1 & E1 & W1 & Hr). rewrite E in E1. injection E1 as <- <-.
  destruct (_ && _) eqn:Eb; [|by destruct Hr].
  apply andb_true_iff in Eb as [E1 E2]. apply Z.ltb_lt in E1. apply Z.leb_le in E2. destruct Hr as (_ & Ee & Ed).
  split; [lia|]. split; [done|]. assert (Es : snapshot_metadata_ m' = snapshot_metadata_ m).
  { unfold Append, MayAppend in E. rewrite bind_get in E. destruct (_ <? _); [done|]. destruct (_ <? _); [done|].
    destruct (_ <? _); cbn in E; by injection E as <-. }
  assert (Et : v_dummy_term (mem_view m') = v_dummy_term (mem_view m)).
  { change (v_dummy_term (mem_view m')) with (if v_dummy (mem_view m') =? sm_index (snapshot_metadata_ m') then Some (sm_term (snapshot_metadata_ m')) else None).
    by rewrite Ed, Es. }
  unfold v_replace. rewrite <- Ee, <- Ed, <- Et. by destruct (mem_view m').
Qed.

(** The writes, with the view they leave. *)
Lemma mem_append_run m e rest : mem_inv m -> contiguous (e_index e) (e :: rest) -> e_index e + zlen (e :: rest) <= u64max ->
  exists r m', Append (e :: rest) m = Ret (r, m') /\ mem_inv m' /\
    if (v_dummy (mem_view m) <? e_index e) && (e_index e <=? v_last (mem_view m) + 1)
    then r = Ok tt /\ mem_view m' = v_replace (mem_view m) (e_index e) (e :: rest)
    else r <> Ok tt /\ m' = m.
Proof.
  intros W Hc Hl. pose proof (vw_dummy _ (mi_view _ W)) as Hd. destruct (decide (0 < e_index e)) as [He|He].
  - destruct (mem_append m e rest W Hc He Hl) as (r & m' & E & W' & Hr). exists r, m'. split; [done|]. split; [done|].
    destruct (_ && _); [|done]. destruct Hr as [-> _]. split; [done|]. by apply (mem_append_view m e rest m').
  - rewrite (proj2 (Z.ltb_ge _ _)) by lia. cbn [andb]. eexists _, m. split; [|split; [done|]].
    + unfold Append, MayAppend. msteps. rewrite mem_first by done. rewrite (proj2 (Z.ltb_lt _ _)) by lia. reflexivity.
    + done.
Qed.

(** The entries from [i] on, behind a snapshot with metadata [sm]. *)
Lemma mem_view_drop m i m' : mem_inv m -> v_dummy (mem_view m) < i <= v_last (mem_view m) + 1 ->
  entries_ m' = drop (Z.to_nat (i - v_dummy (mem_view m) - 1)) (entries_ m) ->
  (i = v_last (mem_view m) + 1 -> sm_index (snapshot_metadata_ m') = i - 1) ->
  mem_view m' = mkView (i - 1) (if i - 1 =? sm_index (snapshot_metadata_ m') then Some (sm_term (snapshot_metadata_ m')) else None)
    (drop (Z.to_nat (i - v_dummy (mem_view m) - 1)) (v_entries (mem_view m))).
Proof.
  intros [[Hd Hm Hcm] _ _] Hi Ee Hs. change (v_entries (mem_view m)) with (entries_ m) in *.
  assert (Hl : v_last (mem_view m) = v_dummy (mem_view m) + zlen (entries_ m)) by done.
  set (k := Z.to_nat (i - v_dummy (mem_view m) - 1)) in *.
  assert (Hc' : contiguous i (drop k (entries_ m))).
  { replace i with (v_dummy (mem_view m) + 1 + Z.of_nat k) by lia. apply contiguous_drop; [lia|done]. }
  unfold mem_view at 1. rewrite Ee. destruct (drop k (entries_ m)) as [|y ys] eqn:E.
  - apply (f_equal length) in E. rewrite length_drop in E. cbn in E. rewrite Hs by lia. done.
  - destruct Hc' as [-> _]. done.
Qed.

(** [Compact] on a log that is not empty. *)
Lemma Compact_drops m m1 i : mem_inv m -> entries_ m1 = entries_ m -> v_dummy (mem_view m) + 1 < i <= v_last (mem_view m) + 1 ->
  Compact i m1 = Ret (Ok tt, m1 <| entries_ := drop (Z.to_nat (i - v_dummy (mem_view m) - 1)) (entries_ m1) |>).
Proof.
  intros W Ee Hi. pose proof W as [[Hd Hm Hcm] Hs Hhs]. assert (Hl : v_last (mem_view m) = v_dummy (mem_view m) + zlen (entries_ m)) by done.
  assert (Hf : first_index m1 = v_dummy (mem_view m) + 1 /\ last_index m1 = v_last (mem_view m)).
  { rewrite <- mem_first, <- mem_last by done. unfold first_index, last_index. rewrite Ee. destruct (entries_ m) as [|e es]; [cbn [length] in Hl; lia|].
    split; [done|]. destruct (last (e :: es)) eqn:E; [done|]. by apply last_None in E. }
  destruct Hf as [Hf1 Hf2]. unfold Compact. msteps. rewrite Hf1, Hf2. u64_simpl. rewrite (proj2 (Z.leb_gt _ _)), (proj2 (Z.ltb_ge _ _)) by lia.
  destruct (entries_ m1) as [|e es] eqn:E1; rewrite <- Ee in *; [cbn [length] in Hl; lia|].
  assert (Ex : e_index e = v_dummy (mem_view m) + 1) by (rewrite <- Hf1; unfold first_index; by rewrite E1).
  rewrite Ex. u64_simpl. rewrite (proj2 (Z.ltb_ge _ _)) by lia. msteps. rewrite <- E1.
  by replace (i - (v_dummy (mem_view m) + 1)) with (i - v_dummy (mem_view m) - 1) by lia.
Qed.

Lemma mem_inv_is m m' v : mem_inv m -> mem_view m' = v -> v_dummy (mem_view m) <= v_dummy v -> v_last v = v_last (mem_view m) ->
  contiguous (v_dummy v + 1) (v_entries v) -> 0 <= sm_index (snapshot_metadata_ m') <= v_dummy v ->
  is_u64 (hs_commit (rs_hard_state (raft_state_ m'))) -> mem_inv m'.
Proof. intros [[Hd Hm Hcm] Hs Hhs] Ev H1 H2 Hc Hsn Hu. apply (mem_view_wf_eq m' v Ev); [|done|done]. constructor; [lia|lia|done]. Qed.

Lemma drop_contiguous m i : mem_inv m -> v_dummy (mem_view m) < i <= v_last (mem_view m) + 1 ->
  contiguous i (drop (Z.to_nat (i - v_dummy (mem_view m) - 1)) (v_entries (mem_view m))) /\
  i - 1 + zlen (drop (Z.to_nat (i - v_dummy (mem_view m) - 1)) (v_entries (mem_view m))) = v_last (mem_view m).
Proof.
  intros [[Hd Hm Hcm] _ _] Hi. unfold v_last in *. rewrite length_drop. split; [|lia].
  replace i with (v_dummy (mem_view m) + 1 + Z.of_nat (Z.to_nat (i - v_dummy (mem_view m) - 1))) at 1 by lia. apply contiguous_drop; [lia|done].
Qed.

Lemma mem_compact_run m i : mem_inv m -> v_dummy (mem_view m) + 1 < i <= v_last (mem_view m) ->
  exists m', Compact i m = Ret (Ok tt, m') /\ mem_inv m' /\
    mem_view m' = mkView (i - 1) None (drop (Z.to_nat (i - v_dummy (mem_view m) - 1)) (v_entries (mem_view m))).
Proof.
  intros W Hi. pose proof W as [_ Hs Hhs]. eexists. split; [apply (Compact_drops m m); [done|done|lia]|]. set (m' := m <| entries_ := _ |>).
  assert (Ev : mem_view m' = mkView (i - 1) None (drop (Z.to_nat (i - v_dummy (mem_view m) - 1)) (v_entries (mem_view m)))).
  { rewrite (mem_view_drop m i m') by (try done; lia). cbn. by rewrite (proj2 (Z.eqb_neq _ _)) by lia. }
  split; [|done]. destruct (drop_contiguous m i) as [Hc Hl]; [done|lia|].
  apply (mem_inv_is m m' _ W Ev); cbn [v_dummy v_entries]; [lia|by rewrite <- Hl|by replace (i - 1 + 1) with i by lia|cbn -[mem_view]; lia|done].
Qed.

Lemma mem_local_snapshot m s : mem_inv m -> v_dummy (mem_view m) < sn_index s <= v_last (mem_view m) ->
  exists m', ApplyLocalSnapshot s m = Ret (Ok tt, m') /\ mem_inv m' /\
    mem_view m' = mkView (sn_index s) (Some (sn_term s)) (drop (Z.to_nat (sn_index s - v_dummy (mem_view m))) (v_entries (mem_view m))).
Proof.
  intros W Hi. pose proof W as [[Hd Hm Hcm] Hs Hhs]. unfold ApplyLocalSnapshot. msteps. rewrite mem_first by done.
  rewrite (proj2 (Z.ltb_ge _ _)) by lia. unfold set_hard_state, set_conf_state. msteps. u64_simpl.
  match goal with |- exists m', Compact _ ?x = _ /\ _ => set (m1 := x) end.
  eexists. split; [apply (Compact_drops m m1); [done|done|lia]|]. set (m' := m1 <| entries_ := _ |>).
  assert (Ev : mem_view m' = mkView (sn_index s) (Some (sn_term s)) (drop (Z.to_nat (sn_index s - v_dummy (mem_view m))) (v_entries (mem_view m)))).
  { rewrite (mem_view_drop m (sn_index s + 1) m'); [|done|lia|done|intros _; cbn; unfold sn_index; lia].
    change (snapshot_metadata_ m') with (sn_meta s). fold (sn_index s) (sn_term s).
    replace (sn_index s + 1 - 1) with (sn_index s) by lia. rewrite Z.eqb_refl.
    by replace (sn_index s + 1 - v_dummy (mem_view m) - 1) with (sn_index s - v_dummy (mem_view m)) by lia. }
  split; [|done]. destruct (drop_contiguous m (sn_index s + 1)) as [Hc Hl]; [done|lia|].
  replace (sn_index s + 1 - v_dummy (mem_view m) - 1) with (sn_index s - v_dummy (mem_view m)) in Hc, Hl by lia.
  apply (mem_inv_is m m' _ W Ev); cbn [v_dummy v_entries]; [lia|unfold v_last at 1; cbn [v_dummy v_entries]; lia|done|cbn -[mem_view]; fold (sn_index s); lia|].
  cbn -[mem_view]. unfold is_u64, two64, u64max in *. destruct (_ <? _); cbn; [fold (sn_index s); lia|done].
Qed.

Lemma ApplySnapshot_hs m s m' : ApplySnapshot s m = Ret (Ok tt, m') ->
  hs_vote (rs_hard_state (raft_state_ m')) = hs_vote (rs_hard_state (raft_state_ m)) /\
  hs_term (rs_hard_state (raft_state_ m)) <= hs_term (rs_hard_state (raft_state_ m')).
Proof. unfold ApplySnapshot. rewrite bind_get. destruct (_ <? _); [done|]. intros E. injection E as <-. cbn. split; [done|lia]. Qed.

#[export] Instance memory_writable_laws {ENV : Env} : WritableLaws MemoryStorage.
Proof.
  constructor.
  - intros m e rest m' W Hc He Hl E. by apply mem_append_view.
  - intros m hs m' W Hc E. injection E as <-. destruct (mem_raft_state m (fun r => r <| rs_hard_state := hs |>)); done.
  - intros m m' W E. by injection E as <-.
  - intros m cs r m' W E. injection E as _ <-. apply (mem_raft_state m (fun r => r <| rs_conf_state := cs |>)); [done|apply W].
  - intros m s m' W Hs E. destruct (mem_apply_snapshot m s W Hs) as (r & m1 & E1 & W1 & Hr).
    change (ApplySnapshot s m = Ret (Ok tt, m')) in E. rewrite E in E1. injection E1 as <- <-. destruct (_ <? _); [|by destruct Hr].
    destruct Hr as [_ Hv]. split; [done|]. split; [done|]. intros hs [= <-]. eexists. split; [reflexivity|]. by apply ApplySnapshot_hs in E.
Qed.

(** The writes of [MemoryStorage] act on the stored log as they should.
    [Append] of a contiguous batch that starts inside the log or right behind
    it replaces the log from there on and is refused otherwise; [Compact]
    below the last index drops the entries before the given one and no
    others; [ApplySnapshot] of a newer snapshot leaves the empty log after it
    and is refused otherwise; all keep the representation invariant. *)
Theorem memory_storage_writes m : mem_inv m ->
  (forall e rest, contiguous (e_index e) (e :: rest) -> 0 < e_index e ->
     e_index e + zlen (e :: rest) <= u64max ->
     exists r m', Append (e :: rest) m = Ret (r, m') /\ mem_inv m' /\
       if (v_dummy (mem_view m) <? e_index e) && (e_index e <=? v_last (mem_view m) + 1)
       then r = Ok tt /\ v_entries (mem_view m') =
              take (Z.to_nat (e_index e - v_dummy (mem_view m) - 1)) (v_entries (mem_view m)) ++ e :: rest /\
            v_dummy (mem_view m') = v_dummy (mem_view m)
       else r <> Ok tt /\ m' = m) /\
  (forall i, v_dummy (mem_view m) < i <= v_last (mem_view m) ->
     exists m', Compact i m = Ret (Ok tt, m') /\ mem_inv m' /\
       v_dummy (mem_view m') = i - 1 /\ v_last (mem_view m') = v_last (mem_view m) /\
       forall j, i <= j -> v_at (mem_view m') j = v_at (mem_view m) j) /\
  (forall s, 0 <= sn_index s < u64max ->
     exists r m', ApplySnapshot s m = Ret (r, m') /\ mem_inv m' /\
       if v_dummy (mem_view m) <? sn_index s
       then r = Ok tt /\ mem_view m' = mkView (sn_index s) (Some (sn_term s)) []
       else r = Err (EStorage SnapshotOutOfDate) /\ m' = m).
Proof.
  intros W. split; [intros; by apply mem_append|]. split; [intros; by apply mem_compact|].
  intros; by apply mem_apply_snapshot.
Qed.
End MemWrites.

(** ** Witness *)

Definition example_store : MemoryStorage :=
  new <| entries_ := three_entries |>.

Lemma example_store_inv : mem_inv example_store.
Proof.
  constructor; [constructor| |]; cbn; unfold v_last; cbn; unfold is_u64, two64, u64max; repeat split; try lia.
Qed.

Lemma memory_storage_writes_witness :
  exists m', Compact 2 example_store = Ret (Ok tt, m') /\ v_dummy (mem_view m') = 1.
Proof.
  destruct (memory_storage_writes example_store) as (_ & Hc & _).
  - exact example_store_inv.
  - destruct (Hc 2) as (m' & E & _ & D & _); [vm_compute; split; [reflexivity|discriminate]|].
    exists m'. split; [exact E|exact D].
Defined.
