(* ===== verification/Unstable.v ===== *)
(** * The unstable log

    Model of [lib/core/unstable_log.cc]: the entries and the snapshot that are
    not in the storage yet. *)

From S2P Require Import Prelude Types Util Storage.

Record Unstable := mkUnstable {
  snapshot_ : option Snapshot;
  entries_ : list Entry;
  entries_size_ : Z;
  offset_ : Z
}.
#[export] Instance Unstable_eta : Eta Unstable := fun u =>
  mkUnstable (snapshot_ u) (entries_ u) (entries_size_ u) (offset_ u).

Definition new (offset : Z) : Unstable := mkUnstable None [] 0 offset.

(** [offset_ + entries_.size()] *)
Definition upper (u : Unstable) : Z := offset_ u +! zlen (entries_ u).

Definition MaybeFirstIndex (u : Unstable) : option Z :=
  match snapshot_ u with
  | Some s => Some (sn_index s +! 1)
  | None => None
  end.

Definition MaybeLastIndex (u : Unstable) : option Z :=
  match entries_ u with
  | [] => match snapshot_ u with
          | Some s => Some (sn_index s)
          | None => None
          end
  | _ :: _ => Some (upper u -! 1)
  end.

Definition MaybeTerm (idx : Z) (u : Unstable) : outcome (option Z) :=
  if idx <? offset_ u then
    match snapshot_ u with
    | None => Ret None
    | Some s => if idx =? sn_index s then Ret (Some (sn_term s)) else Ret None
    end
  else
    match MaybeLastIndex u with
    | Some last =>
        if last <? idx then Ret None
        else let? e := vec_at (entries_ u) (idx -! offset_ u) in Ret (Some (e_term e))
    | None => Ret None
    end.

(** The second argument is a [uint32_t]. *)
Definition StableEntries (index term : Z) : M Unstable unit :=
  let! u := get in
  assert (bool_decide (snapshot_ u = None)) "the snapshot must be stabled before entries" ;;;
  match last (entries_ u) with
  | None => abort (Panic "unstable.slice is empty, expect its last one's index and term are {} and {}")
  | Some entry =>
      if negb (e_index entry =? index) || negb (e_term entry =? term) then
        abort (Panic "the last one of unstable.slice has different index {} and term {}, expect {} {}")
      else
        set! offset_ := (e_index entry +! 1) ;;;
        set! entries_ := [] ;;;
        set! entries_size_ := 0
  end.

Definition Restore (snapshot : Snapshot) : M Unstable unit :=
  set! entries_ := [] ;;;
  set! entries_size_ := 0 ;;;
  set! offset_ := (sn_index snapshot +! 1) ;;;
  set! snapshot_ := Some snapshot.

Section Unstable.
Context `{Env}.

Definition MustCheckOutOfBounds (lo hi : Z) (u : Unstable) : outcome unit :=
  let? _ := oassert (lo <=? hi) "invalid unstable.slice {} > {}" in
  oassert ((offset_ u <=? lo) && (hi <=? upper u)) "unstable.slice[{}, {}] out of bound[{}, {}]".

Definition TruncateAndAppend (ents : list Entry) : M Unstable unit :=
  match ents with
  | [] => abort Undefined
  | first :: _ =>
      let after := e_index first in
      let! u := get in
      (if after =? upper u then ret tt
       else if after <=? offset_ u then
         set! offset_ := after ;;;
         set! entries_ := [] ;;;
         set! entries_size_ := 0
       else
         let keep_count := after -! offset_ u in
         getsO (MustCheckOutOfBounds (offset_ u) after) ;;;
         foreach (drop (Z.to_nat keep_count) (entries_ u)) (fun e =>
           modify (fun u => u <| entries_size_ := entries_size_ u -! EntryApproximateSize e |>)) ;;;
         modify (fun u => u <| entries_ := take (Z.to_nat keep_count) (entries_ u) |>)) ;;;
      foreach ents (fun ent =>
        modify (fun u => u <| entries_ := entries_ u ++ [ent] |>) ;;;
        modify (fun u => u <| entries_size_ := entries_size_ u +! EntryApproximateSize ent |>))
  end.

Definition StableSnapshot (index : Z) : M Unstable unit :=
  let! u := get in
  match snapshot_ u with
  | Some s =>
      if negb (sn_index s =? index) then abort (Panic "unstable.snap has different index {}, expect {}")
      else set! snapshot_ := None
  | None => abort (Panic "unstable.snap is none, expect a snapshot with index {}")
  end.

Definition Slice (lo hi : Z) (u : Unstable) : outcome (list Entry) :=
  let? _ := MustCheckOutOfBounds lo hi u in
  Ret (take (Z.to_nat (hi - lo)) (drop (Z.to_nat (lo - offset_ u)) (entries_ u))).
End Unstable.

(** ** Specification *)

(** The representation invariant: contiguous entries from [offset_], right
    after the snapshot when there is one, and the size they add up to. *)
Definition total_size (l : list Entry) : Z :=
  foldr (fun e n => EntryApproximateSize e + n) 0 l.

Record wf (u : Unstable) : Prop := {
  wf_offset : 0 < offset_ u;
  wf_upper : offset_ u + zlen (entries_ u) <= u64max;
  wf_contiguous : contiguous (offset_ u) (entries_ u);
  wf_snapshot s : snapshot_ u = Some s -> offset_ u = sn_index s + 1;
  wf_size : entries_size_ u = u64 (total_size (entries_ u))
}.

Definition truncated (u : Unstable) (ents : list Entry) (after : Z) : Unstable :=
  let kept := take (Z.to_nat (after - offset_ u)) (entries_ u) in
  mkUnstable (snapshot_ u) (kept ++ ents) (u64 (total_size (kept ++ ents))) (Z.min (offset_ u) after).

(** ** Properties *)

Section UnstableProofs.
Context `{Env}.

Lemma total_size_app l k : total_size (l ++ k) = total_size l + total_size k.
Proof. unfold total_size. induction l as [|e l IH]; cbn; [done|]. rewrite IH. lia. Qed.

Lemma total_size_cons e l : total_size (e :: l) = EntryApproximateSize e + total_size l.
Proof. reflexivity. Qed.

Lemma upper_wf u : wf u -> upper u = offset_ u + zlen (entries_ u).
Proof. intros W. destruct W. unfold upper. u64_lia. Qed.

Lemma MaybeLastIndex_wf u : wf u ->
  MaybeLastIndex u =
  match snapshot_ u, entries_ u with
  | None, [] => None
  | _, _ => Some (offset_ u + zlen (entries_ u) - 1)
  end.
Proof.
  intros W. unfold MaybeLastIndex. rewrite upper_wf by done. pose proof (wf_snapshot u W) as Hs.
  destruct W as [Ho Hu _ _ _]. destruct (entries_ u) as [|e l]; [destruct (snapshot_ u) as [s|]|].
  - rewrite (Hs s eq_refl). f_equal. cbn. lia.
  - done.
  - cbn [length] in *. destruct (snapshot_ u); f_equal; u64_lia.
Qed.

(** [MaybeTerm] knows the entries and the snapshot. *)
Lemma MaybeTerm_wf u idx : wf u -> is_u64 idx ->
  MaybeTerm idx u = Ret
    (if idx <? offset_ u then
       match snapshot_ u with
       | Some s => if idx =? offset_ u - 1 then Some (sn_term s) else None
       | None => None
       end
     else e_term <$> entries_ u !! Z.to_nat (idx - offset_ u)).
Proof.
  intros W Hi. unfold MaybeTerm. pose proof (MaybeLastIndex_wf u W) as El. pose proof (wf_snapshot u W) as Hs.
  destruct W as [Ho Hu _ _ _]. destruct (Z.ltb_spec idx (offset_ u)) as [Hlt|Hge].
  - destruct (snapshot_ u) as [s|]; [|done]. rewrite (Hs s eq_refl).
    replace (sn_index s + 1 - 1) with (sn_index s) by lia. by destruct (idx =? sn_index s).
  - rewrite El. clear El Hs. destruct (entries_ u !! Z.to_nat (idx - offset_ u)) as [e|] eqn:E.
    + pose proof (lookup_lt_Some _ _ _ E) as Hl.
      destruct (snapshot_ u), (entries_ u) as [|x l]; cbn [length] in *; try lia;
        (destruct (Z.ltb_spec (offset_ u + Z.of_nat (S (length l)) - 1) idx); [lia|];
         assert (vec_at (x :: l) (idx -! offset_ u) = Ret e) as -> by (apply vec_at_Ret; u64_simpl; split; [lia|done]);
         done).
    + apply lookup_ge_None in E.
      destruct (snapshot_ u), (entries_ u) as [|x l]; cbn [length fmap option_fmap option_map] in *; try done;
        rewrite (proj2 (Z.ltb_lt _ _)) by lia; done.
Qed.

Lemma append_loop ents u : entries_size_ u = u64 (entries_size_ u) ->
  foreach ents (fun ent =>
    modify (fun u => u <| entries_ := entries_ u ++ [ent] |>) ;;;
    modify (fun u => u <| entries_size_ := entries_size_ u +! EntryApproximateSize ent |>)) u =
  Ret (tt, mkUnstable (snapshot_ u) (entries_ u ++ ents) (u64 (entries_size_ u + total_size ents)) (offset_ u)).
Proof.
  revert u. induction ents as [|e ents IH]; intros u Hu.
  - cbn. unfold ret. rewrite Z.add_0_r, app_nil_r, <- Hu. by destruct u.
  - cbn [foreach]. msteps. rewrite IH; [|cbn; by rewrite (u64_id (u64 _)) by apply u64_range].
    cbn -[total_size EntryApproximateSize]. rewrite u64_add_l, <- app_assoc, total_size_cons, Z.add_assoc. done.
Qed.

Lemma shrink_loop l u : entries_size_ u = u64 (entries_size_ u) ->
  foreach l (fun e =>
    modify (fun u => u <| entries_size_ := entries_size_ u -! EntryApproximateSize e |>)) u =
  Ret (tt, mkUnstable (snapshot_ u) (entries_ u) (u64 (entries_size_ u - total_size l)) (offset_ u)).
Proof.
  revert u. induction l as [|e l IH]; intros u Hu.
  - cbn. unfold ret. rewrite Z.sub_0_r, <- Hu. by destruct u.
  - cbn [foreach]. msteps. rewrite IH; [|cbn; by rewrite (u64_id (u64 _)) by apply u64_range].
    cbn -[total_size EntryApproximateSize]. rewrite u64_sub_l, total_size_cons, Z.sub_add_distr. done.
Qed.

(** [TruncateAndAppend] keeps the entries below the first new one. *)
Lemma TruncateAndAppend_run u first rest : wf u -> 0 < e_index first <= offset_ u + zlen (entries_ u) ->
  TruncateAndAppend (first :: rest) u = Ret (tt, truncated u (first :: rest) (e_index first)).
Proof.
  intros W Ha. pose proof (upper_wf u W) as Hup. destruct W as [Ho Hu Hc Hs Hz].
  assert (Hz' : entries_size_ u = u64 (entries_size_ u)).
  { rewrite Hz. by rewrite (u64_id (u64 _)) by apply u64_range. }
  unfold TruncateAndAppend, truncated. msteps. rewrite Hup.
  destruct (Z.eqb_spec (e_index first) (offset_ u + zlen (entries_ u))) as [E|E];
    [|destruct (Z.leb_spec (e_index first) (offset_ u)) as [L|L]]; msteps.
  - rewrite append_loop by done. rewrite take_ge by lia. rewrite Hz, u64_add_l, <- total_size_app.
    by rewrite Z.min_l by lia.
  - rewrite append_loop by done. cbn -[total_size].
    replace (Z.to_nat (e_index first - offset_ u)) with 0%nat by lia. rewrite take_0.
    cbn [app]. by rewrite Z.min_r by lia.
  - assert (MustCheckOutOfBounds (offset_ u) (e_index first) u = Ret tt) as Hb.
    { unfold MustCheckOutOfBounds, oassert. rewrite Hup.
      rewrite !(proj2 (Z.leb_le _ _)) by lia. done. }
    rewrite (bind_run (getsO _) _ _ tt u) by (unfold getsO; by rewrite Hb).
    msteps. rewrite (bind_run _ _ _ _ _ (shrink_loop _ u Hz')). msteps. u64_simpl.
    rewrite append_loop; cbn -[total_size].
    + rewrite u64_add_l, Hz, Z.min_l, <- Z.add_sub_swap, <- Z.add_sub_assoc, u64_add_l by lia.
      rewrite <- (take_drop (Z.to_nat (e_index first - offset_ u)) (entries_ u)) at 2.
      rewrite !total_size_app. do 3 f_equal. f_equal. lia.
    + by rewrite (u64_id (u64 _)) by apply u64_range.
Qed.

Lemma truncated_wf u first rest : wf u -> 0 < e_index first <= offset_ u + zlen (entries_ u) ->
  (snapshot_ u <> None -> offset_ u <= e_index first) ->
  contiguous (e_index first) (first :: rest) -> e_index first + zlen (first :: rest) <= u64max ->
  wf (truncated u (first :: rest) (e_index first)).
Proof.
  intros W Ha Hsn Hc Hl. destruct W as [Ho Hu Hc' Hs Hz].
  constructor; unfold truncated; cbn [snapshot_ entries_ entries_size_ offset_].
  - lia.
  - rewrite length_app, length_take. lia.
  - apply contiguous_app. rewrite length_take. split.
    + destruct (Z.le_gt_cases (offset_ u) (e_index first)).
      * rewrite Z.min_l by lia. by apply contiguous_take.
      * replace (Z.to_nat (e_index first - offset_ u)) with 0%nat by lia. by rewrite take_0.
    + replace (_ + _) with (e_index first); [done|]. lia.
  - intros s Es. rewrite Z.min_l by (apply Hsn; congruence). by apply Hs.
  - done.
Qed.
End UnstableProofs.
