(* ===== verification/ReadOnly.v ===== *)
(** * Read-only requests

    Model of [lib/core/read_only.cc]: the pending linearizable reads, a queue
    of request contexts and a map from contexts to their status.  The theorem
    shows that the two containers implement one queue. *)

From S2P Require Import Prelude Types.

Inductive ReadOnlyOption := Safe | LeaseBased.

#[export] Instance ReadOnlyOption_eq_dec : EqDecision ReadOnlyOption.
Proof. solve_decision. Defined.

Record ReadState := mkReadState {
  rs_index : Z;
  rs_request_ctx : string
}.

Record ReadIndexStatus := mkReadIndexStatus {
  ri_req : Message;
  ri_index : Z;
  ri_acks : gset Z
}.
#[export] Instance ReadIndexStatus_eta : Eta ReadIndexStatus := fun r =>
  mkReadIndexStatus (ri_req r) (ri_index r) (ri_acks r).

Record ReadOnly := mkReadOnly {
  option_ : ReadOnlyOption;
  pending_read_index_ : gmap string ReadIndexStatus;
  read_index_queue_ : list string
}.
#[export] Instance ReadOnly_eta : Eta ReadOnly := fun r =>
  mkReadOnly (option_ r) (pending_read_index_ r) (read_index_queue_ r).

Definition new (option : ReadOnlyOption) : ReadOnly := mkReadOnly option ∅ [].

Definition AddRequest (index : Z) (req : Message) (self_id : Z) : M ReadOnly unit :=
  match m_entries req with
  | [] => ret tt
  | e :: _ =>
      let ctx := e_data e in
      let! r := get in
      match pending_read_index_ r !! ctx with
      | Some _ => ret tt
      | None =>
          modify (fun r => r <| pending_read_index_ :=
            <[ctx := mkReadIndexStatus req index {[self_id]}]> (pending_read_index_ r) |>) ;;;
          modify (fun r => r <| read_index_queue_ := read_index_queue_ r ++ [ctx] |>)
      end
  end.

Definition LastPendingRequestCtx (r : ReadOnly) : option string := last (read_index_queue_ r).

Definition PendingReadCount (r : ReadOnly) : Z := zlen (read_index_queue_ r).

Definition RecvACK (id : Z) (ctx : string) : M ReadOnly (option (gset Z)) :=
  let! r := get in
  match pending_read_index_ r !! ctx with
  | Some status =>
      let status := status <| ri_acks := {[id]} ∪ ri_acks status |> in
      modify (fun r => r <| pending_read_index_ := <[ctx := status]> (pending_read_index_ r) |>) ;;;
      ret (Some (ri_acks status))
  | None => ret None
  end.

(** The first loop of [Advance]: the position of [ctx] in the queue. *)
Fixpoint find_ctx (pending : gmap string ReadIndexStatus) (queue : list string) (ctx : string)
    (i : nat) : outcome (option nat) :=
  match queue with
  | [] => Ret None
  | x :: rest =>
      match pending !! x with
      | None => Abort (Panic "cannot find correspond read state from pending map")
      | Some _ => if bool_decide (x = ctx) then Ret (Some i) else find_ctx pending rest ctx (S i)
      end
  end.

(** The second loop: [n] statuses are taken from the front. *)
Fixpoint take_front (n : nat) : M ReadOnly (list ReadIndexStatus) :=
  match n with
  | O => ret []
  | S n' =>
      let! r := get in
      match read_index_queue_ r with
      | [] => abort Undefined
      | rs :: rest =>
          set! read_index_queue_ := rest ;;;
          match pending_read_index_ r !! rs with
          | None => abort (Panic "it != pending_read_index_.end()")
          | Some status =>
              modify (fun r => r <| pending_read_index_ := delete rs (pending_read_index_ r) |>) ;;;
              let! rss := take_front n' in
              ret (status :: rss)
          end
      end
  end.

Definition Advance (ctx : string) : M ReadOnly (list ReadIndexStatus) :=
  let! p := getsO (fun r => find_ctx (pending_read_index_ r) (read_index_queue_ r) ctx 0) in
  match p with
  | Some p => take_front (S p)
  | None => ret []
  end.

(** ** Specification: one queue of requests *)

Definition ReadQueue := list (string * ReadIndexStatus).

Definition q_add (index : Z) (req : Message) (self_id : Z) (q : ReadQueue) : ReadQueue :=
  match m_entries req with
  | [] => q
  | e :: _ => if bool_decide (e_data e ∈ q.*1) then q
              else q ++ [(e_data e, mkReadIndexStatus req index {[self_id]})]
  end.

Definition ack (id : Z) (ctx : string) (p : string * ReadIndexStatus) : string * ReadIndexStatus :=
  if bool_decide (p.1 = ctx) then (p.1, p.2 <| ri_acks := {[id]} ∪ ri_acks p.2 |>) else p.

(** The requests up to and including [ctx], and the ones after it. *)
Fixpoint q_split (ctx : string) (q : ReadQueue) : option (ReadQueue * ReadQueue) :=
  match q with
  | [] => None
  | p :: rest =>
      if bool_decide (p.1 = ctx) then Some ([p], rest)
      else match q_split ctx rest with
           | Some (front, back) => Some (p :: front, back)
           | None => None
           end
  end.

(** The queue a pair of containers holds. *)
Definition queue_of (r : ReadOnly) (q : ReadQueue) : Prop :=
  read_index_queue_ r = q.*1 /\ NoDup q.*1 /\ pending_read_index_ r = list_to_map q.

(** ** Properties *)

Lemma queue_lookup r q ctx status : queue_of r q ->
  pending_read_index_ r !! ctx = Some status <-> (ctx, status) ∈ q.
Proof. intros (_ & Hn & ->). symmetry. by apply elem_of_list_to_map. Qed.

Lemma queue_lookup_None r q ctx : queue_of r q ->
  pending_read_index_ r !! ctx = None <-> ctx ∉ q.*1.
Proof. intros (_ & Hn & ->). symmetry. apply not_elem_of_list_to_map. Qed.

Lemma AddRequest_queue r q index req self_id : queue_of r q ->
  exists r', AddRequest index req self_id r = Ret (tt, r') /\ queue_of r' (q_add index req self_id q).
Proof.
  intros Q. unfold AddRequest, q_add. destruct (m_entries req) as [|e es]; [by exists r|].
  msteps. destruct (pending_read_index_ r !! e_data e) as [st|] eqn:E.
  - exists r. split; [done|]. apply (queue_lookup r q) in E; [|done].
    rewrite bool_decide_true; [done|]. apply list_elem_of_fmap. by exists (e_data e, st).
  - apply (queue_lookup_None r q) in E; [|done]. rewrite bool_decide_false by done.
    eexists. split; [reflexivity|]. destruct Q as (Hq & Hn & Hm). split; [|split].
    + cbn. by rewrite fmap_app, Hq.
    + rewrite fmap_app. apply NoDup_app. split; [done|]. cbn. split; [set_solver|apply NoDup_singleton].
    + cbn. rewrite Hm, list_to_map_snoc; done.
Qed.

Lemma ack_keys id ctx (q : ReadQueue) : (ack id ctx <$> q).*1 = q.*1.
Proof.
  rewrite <- list_fmap_compose. apply list_fmap_ext. intros i [k st] _. unfold ack. cbn.
  by case_bool_decide.
Qed.

Lemma ack_map id ctx (q : ReadQueue) status : NoDup q.*1 -> (ctx, status) ∈ q ->
  (list_to_map (ack id ctx <$> q) : gmap string ReadIndexStatus) =
  <[ctx := status <| ri_acks := {[id]} ∪ ri_acks status |>]> (list_to_map q).
Proof.
  intros Hn Hin. apply map_eq. intros k. destruct (decide (k = ctx)) as [->|Hk].
  - rewrite lookup_insert_eq. apply elem_of_list_to_map; [by rewrite ack_keys|].
    apply list_elem_of_fmap. exists (ctx, status). unfold ack. cbn. by rewrite bool_decide_true.
  - rewrite lookup_insert_ne by done. apply option_eq. intros st.
    rewrite <- !elem_of_list_to_map by (rewrite ?ack_keys; done). rewrite list_elem_of_fmap. split.
    + intros ([k' st'] & E & Hi). unfold ack in E. cbn in E. case_bool_decide; simplify_eq; done.
    + intros Hi. exists (k, st). unfold ack. cbn. by rewrite bool_decide_false.
Qed.

Lemma RecvACK_queue r q id ctx : queue_of r q ->
  exists r', RecvACK id ctx r =
      Ret ((fun st => {[id]} ∪ ri_acks st) <$> (list_to_map q : gmap string ReadIndexStatus) !! ctx, r') /\
    queue_of r' (ack id ctx <$> q).
Proof.
  intros Q. unfold RecvACK. msteps. pose proof Q as (Hq & Hn & Hm). rewrite <- Hm.
  destruct (pending_read_index_ r !! ctx) as [st|] eqn:E.
  - msteps. eexists. split; [reflexivity|]. split; [by rewrite ack_keys|].
    split; [by rewrite ack_keys|]. cbn. rewrite Hm. symmetry. apply ack_map; [done|].
    by apply (queue_lookup r q).
  - exists r. split; [done|]. apply (queue_lookup_None r q) in E; [|done].
    replace (ack id ctx <$> q) with q; [done|].
    rewrite <- (list_fmap_id q) at 1. apply list_fmap_ext. intros i [k st] Hi. unfold ack. cbn.
    rewrite bool_decide_false; [done|]. intros ->. apply E. apply list_elem_of_fmap.
    exists (ctx, st). split; [done|]. by apply list_elem_of_lookup_2 in Hi.
Qed.

Lemma find_ctx_split pending ctx (q : ReadQueue) i :
  (forall k, k ∈ q.*1 -> is_Some (pending !! k)) ->
  find_ctx pending q.*1 ctx i =
  Ret (match q_split ctx q with Some (front, _) => Some (i + length front - 1)%nat | None => None end).
Proof.
  revert i. induction q as [|[k st] q IH]; intros i Hp; [done|]. cbn.
  destruct (Hp k ltac:(set_solver)) as [x ->]. case_bool_decide; [do 2 f_equal; cbn; lia|].
  rewrite IH by set_solver. destruct (q_split ctx q) as [[f b]|]; [|done]. do 2 f_equal. cbn. lia.
Qed.

Lemma q_split_app ctx q front back : q_split ctx q = Some (front, back) ->
  q = front ++ back /\ front <> [].
Proof.
  revert front. induction q as [|p q IH]; intros front E; cbn in E; [done|]. case_bool_decide.
  - by injection E as <- <-.
  - destruct (q_split ctx q) as [[f b]|]; [|done]. injection E as <- <-.
    destruct (IH f eq_refl) as [-> _]. done.
Qed.

Lemma take_front_queue front back r : queue_of r (front ++ back) ->
  exists r', take_front (length front) r = Ret (front.*2, r') /\ queue_of r' back.
Proof.
  revert r. induction front as [|[k st] front IH]; intros r Q; [by exists r|].
  pose proof Q as (Hq & Hn & Hm). cbn [take_front length]. msteps. rewrite Hq. cbn [app fmap list_fmap fst].
  msteps. assert (pending_read_index_ r !! k = Some st) as E by (apply (queue_lookup r _ _ _ Q); set_solver).
  rewrite E. msteps. cbn in Hn. apply NoDup_cons in Hn as [Hk Hn].
  match goal with |- context [bind _ _ ?r1] => destruct (IH r1) as (r' & E' & Q') end.
  - split; [done|]. split; [done|]. cbn. rewrite Hm. cbn. rewrite delete_insert_id; [done|].
    by apply not_elem_of_list_to_map.
  - exists r'. split; [|done]. by rewrite (bind_run _ _ _ _ _ E').
Qed.

(** C31: the queue of contexts and the map of statuses implement one queue of
    pending reads: a request is appended once per context, an acknowledgement
    is recorded in its request, and [Advance] hands out, in order, the
    requests up to the given context and keeps the later ones; none of the
    calls aborts. *)
Theorem read_only_refines_queue r q : queue_of r q ->
  (forall index req self_id, exists r', AddRequest index req self_id r = Ret (tt, r') /\
     queue_of r' (q_add index req self_id q)) /\
  (forall id ctx, exists r', RecvACK id ctx r =
     Ret ((fun st => {[id]} ∪ ri_acks st) <$> (list_to_map q : gmap string ReadIndexStatus) !! ctx, r') /\
     queue_of r' (ack id ctx <$> q)) /\
  (forall ctx, exists rss r', Advance ctx r = Ret (rss, r') /\
     match q_split ctx q with
     | Some (front, back) => rss = front.*2 /\ queue_of r' back
     | None => rss = [] /\ r' = r
     end).
Proof.
  intros Q. split; [by intros; apply AddRequest_queue|]. split; [by intros; apply RecvACK_queue|].
  intros ctx. unfold Advance, getsO. pose proof Q as (Hq & Hn & Hm).
  assert (Hp : forall k, k ∈ q.*1 -> is_Some (pending_read_index_ r !! k)).
  { intros k Hk. apply not_eq_None_Some. rewrite (queue_lookup_None r q) by done. tauto. }
  unfold bind at 1. rewrite Hq, find_ctx_split by done.
  destruct (q_split ctx q) as [[front back]|] eqn:E; [|by exists [], r].
  apply q_split_app in E as [-> Hf].
  replace (S (0 + length front - 1)) with (length front) by (destruct front; [done|cbn; lia]).
  destruct (take_front_queue front back r Q) as (r' & E' & Q'). exists front.*2, r'. done.
Qed.

(** ** Witness *)

Definition read_request (ctx : string) : Message :=
  empty_message <| m_type := MsgReadIndex |>
    <| m_entries := [mkEntry EntryNormal 0 0 ctx "" 0] |>.

Lemma read_only_refines_queue_witness :
  exists rss r', Advance "b" (mkReadOnly Safe
      (list_to_map [("a", mkReadIndexStatus (read_request "a") 3 {[1]});
                    ("b", mkReadIndexStatus (read_request "b") 4 {[1]});
                    ("c", mkReadIndexStatus (read_request "c") 5 {[1]})])%string ["a"; "b"; "c"]%string) =
    Ret (rss, r') /\ length rss = 2%nat.
Proof.
  destruct (read_only_refines_queue
    (mkReadOnly Safe
      (list_to_map [("a", mkReadIndexStatus (read_request "a") 3 {[1]});
                    ("b", mkReadIndexStatus (read_request "b") 4 {[1]});
                    ("c", mkReadIndexStatus (read_request "c") 5 {[1]})])%string ["a"; "b"; "c"]%string)
    [("a", mkReadIndexStatus (read_request "a") 3 {[1]});
     ("b", mkReadIndexStatus (read_request "b") 4 {[1]});
     ("c", mkReadIndexStatus (read_request "c") 5 {[1]})]%string) as (_ & _ & Ha).
  - split; [done|]. split; [|done]. cbn. repeat (apply NoDup_cons; split; [set_solver|]). apply NoDup_nil. done.
  - destruct (Ha "b"%string) as (rss & r' & E & Hr). exists rss, r'. split; [exact E|].
    cbn in Hr. destruct Hr as [-> _]. reflexivity.
Defined.
