(* ===== verification/Config.v ===== *)
(** * Configuration parameters

    Model of [lib/core/raft_config.cc]. *)

From S2P Require Import Prelude Types ReadOnly.

Record Config := mkConfig {
  c_id : Z;
  c_election_tick : Z;
  c_heartbeat_tick : Z;
  c_applied : Z;
  c_max_size_per_message : Z;
  c_max_inflight_messages : Z;
  c_check_quorum : bool;
  c_pre_vote : bool;
  c_min_election_tick : Z;
  c_max_election_tick : Z;
  c_read_only_option : ReadOnlyOption;
  c_skip_broadcast_commit : bool;
  c_batch_append : bool;
  c_priority : Z;
  c_max_uncommitted_size : Z;
  c_max_committed_size_per_ready : Z;
  c_max_apply_unpersisted_log_limit : Z;
  c_disable_proposal_forwarding : bool;
  c_load_state_on_startup : bool
}.
#[export] Instance Config_eta : Eta Config := fun c =>
  mkConfig (c_id c) (c_election_tick c) (c_heartbeat_tick c) (c_applied c)
    (c_max_size_per_message c) (c_max_inflight_messages c) (c_check_quorum c) (c_pre_vote c)
    (c_min_election_tick c) (c_max_election_tick c) (c_read_only_option c)
    (c_skip_broadcast_commit c) (c_batch_append c) (c_priority c) (c_max_uncommitted_size c)
    (c_max_committed_size_per_ready c) (c_max_apply_unpersisted_log_limit c)
    (c_disable_proposal_forwarding c) (c_load_state_on_startup c).

(** [DefaultConfig], the member initialisers included. *)
Definition DefaultConfig : Config :=
  mkConfig 0 20 2 0 0 256 false false 0 0 Safe false false 0 u64max u64max 0 false false.

Definition MinElectionTick (c : Config) : Z :=
  if c_min_election_tick c =? 0 then c_election_tick c else c_min_election_tick c.

Definition MaxElectionTick (c : Config) : Z :=
  if c_max_election_tick c =? 0 then u64 (2 * c_election_tick c) else c_max_election_tick c.

Definition Validate (c : Config) : Result unit :=
  if c_id c =? kInvalidId then Err (EConfig InvalidNodeId)
  else if c_heartbeat_tick c =? 0 then Err (EConfig HeartbeatTickTooSmall)
  else if c_election_tick c <=? c_heartbeat_tick c then Err (EConfig ElectionTickTooSmall)
  else if MinElectionTick c <? c_election_tick c then
    Err (EInvalidConfig "min election tick {} must not be less than election_tick {}")
  else if MaxElectionTick c <=? MinElectionTick c then
    Err (EInvalidConfig "min election tick {} should be less than max election tick {}")
  else if c_max_inflight_messages c =? 0 then Err (EConfig MaxInflightMessagesTooSmall)
  else if bool_decide (c_read_only_option c = LeaseBased) && negb (c_check_quorum c) then
    Err (EConfig LeaseBasedReadRequiresCheckQuorum)
  else if c_max_uncommitted_size c <? c_max_size_per_message c then
    Err (EInvalidConfig "max uncommitted size should greater than max_size_per_msg")
  else Ok tt.

(** ** Properties *)

(** What a validated configuration gives to the node: ticks in order, a
    non-empty range of randomized timeouts, room for a message in flight, and
    leases only together with the quorum check. *)
Lemma Validate_Ok c : Validate c = Ok tt ->
  c_id c <> kInvalidId /\ c_heartbeat_tick c <> 0 /\ c_heartbeat_tick c < c_election_tick c /\
  c_election_tick c <= MinElectionTick c < MaxElectionTick c /\ c_max_inflight_messages c <> 0 /\
  (c_read_only_option c = LeaseBased -> c_check_quorum c = true).
Proof.
  unfold Validate. repeat case_match; try discriminate. intros _.
  repeat match goal with
    | E : (_ =? _) = false |- _ => apply Z.eqb_neq in E
    | E : (_ <? _) = false |- _ => apply Z.ltb_ge in E
    | E : (_ <=? _) = false |- _ => apply Z.leb_gt in E
    | E : (_ && _) = false |- _ => apply andb_false_iff in E
    end.
  repeat split; try done; try lia. intros Hl. destruct H5 as [E|E].
  - by rewrite bool_decide_true in E.
  - by apply negb_false_iff in E.
Qed.
