(* ===== verification/RaftLog.v ===== *)
(** * The raft log

    Model of [lib/core/raft_log.cc]: the stable part in a storage, the
    unstable part in memory, and the committed, persisted and applied
    cursors.  A log has an abstract view (its dummy index and the entries that
    follow); the theorems describe the operations on that view. *)

From S2P Require Import Prelude Types Util Storage Unstable ReadOnly Config.

Record RaftLog (S : Type) := mkRaftLog {
  store_ : S;
  unstable_ : Unstable;
  committed_ : Z;
  persisted_ : Z;
  applied_ : Z;
  max_apply_unpersisted_log_limit_ : Z
}.
Arguments mkRaftLog {S}.
Arguments store_ {S}.
Arguments unstable_ {S}.
Arguments committed_ {S}.
Arguments persisted_ {S}.
Arguments applied_ {S}.
Arguments max_apply_unpersisted_log_limit_ {S}.
#[export] Instance RaftLog_eta S : Eta (RaftLog S) := fun l =>
  mkRaftLog (store_ l) (unstable_ l) (committed_ l) (persisted_ l) (applied_ l)
    (max_apply_unpersisted_log_limit_ l).

Record MaybeAppendResult := mkMaybeAppendResult {
  ma_term_matched : bool;
  ma_conflict_index : Z;
  ma_last_index : Z
}.

(** The conversion to the [uint32_t] parameter of [Unstable::StableEntries]. *)
Definition u32 (x : Z) : Z := x mod 2 ^ 32.

Section RaftLog.
Context {ENV : Env} {S : Type} {ST : Storage S}.

(** The constructor. *)
Definition new (config : Config) (store : S) : outcome (RaftLog S) :=
  let? first_index := Unwrap (Storage.FirstIndex store) in
  let? last_index := Unwrap (Storage.LastIndex store) in
  Ret (mkRaftLog store (Unstable.new (last_index +! 1)) (first_index -! 1) last_index
         (first_index -! 1) (c_max_apply_unpersisted_log_limit config)).

Definition GetInitialState (l : RaftLog S) : Result RaftState := InitialState (store_ l).

Definition LastIndex (l : RaftLog S) : outcome Z :=
  match MaybeLastIndex (unstable_ l) with
  | Some i => Ret i
  | None => Unwrap (Storage.LastIndex (store_ l))
  end.

Definition FirstIndex (l : RaftLog S) : outcome Z :=
  match MaybeFirstIndex (unstable_ l) with
  | Some i => Ret i
  | None => Unwrap (Storage.FirstIndex (store_ l))
  end.

Definition Term (idx : Z) (l : RaftLog S) : outcome (Result Z) :=
  let? first := FirstIndex l in
  let? last := LastIndex l in
  let dummy_idx := first -! 1 in
  if (idx <? dummy_idx) || (last <? idx) then Ret (Ok 0)
  else
    let? r := MaybeTerm idx (unstable_ l) in
    match r with
    | Some t => Ret (Ok t)
    | None =>
        let? r := Storage.Term idx (store_ l) in
        match r with
        | Ok t => Ret (Ok t)
        | Err e => if is_storage e Compacted || is_storage e Unavailable then Ret (Err e)
                   else Abort (Panic "unexpected error: {}")
        end
    end.

Definition LastTerm (l : RaftLog S) : outcome Z :=
  let? last := LastIndex l in
  let? r := Term last l in
  match r with
  | Ok t => Ret t
  | Err e => if is_storage e Compacted then Ret 0
             else Abort (Panic "unexpected error when getting the last term: {}")
  end.

Definition MatchTerm (idx term : Z) (l : RaftLog S) : outcome bool :=
  let? r := Term idx l in
  match r with
  | Ok t => Ret (t =? term)
  | Err _ => Ret false
  end.

Fixpoint FindConflict (entries : list Entry) (l : RaftLog S) : outcome Z :=
  match entries with
  | [] => Ret 0
  | e :: rest =>
      let? matched := MatchTerm (e_index e) (e_term e) l in
      if matched then FindConflict rest l else Ret (e_index e)
  end.

(** [Result<uint64_t> == uint64_t] *)
Definition result_is (r : Result Z) (t : Z) : bool :=
  match r with Ok x => x =? t | Err _ => false end.

Definition MaybePersist (index term : Z) : M (RaftLog S) bool :=
  let! l := get in
  let first_update_index :=
    match snapshot_ (unstable_ l) with
    | Some s => sn_index s
    | None => offset_ (unstable_ l)
    end in
  if (persisted_ l <? index) && (index <? first_update_index) then
    let! r := getsO (fun l => Storage.Term index (store_ l)) in
    if result_is r term then
      set! persisted_ := index ;;;
      ret true
    else ret false
  else ret false.

Definition MaybePersistSnapshot (index : Z) : M (RaftLog S) bool :=
  let! l := get in
  if index <=? persisted_ l then ret false
  else if committed_ l <? index then abort (Panic "snapshot's index {} > committed {}")
  else if offset_ (unstable_ l) <=? index then abort (Panic "snapshot's index {} >= offset {}")
  else
    set! persisted_ := index ;;;
    ret true.

Definition CommitTo (to_commit : Z) : M (RaftLog S) (Result unit) :=
  let! l := get in
  if to_commit <=? committed_ l then ret (Ok tt)
  else
    let! last := getsO LastIndex in
    if last <? to_commit then ret (Err (EFatal "to_commit {} is out of range [last_index {}]"))
    else
      set! committed_ := to_commit ;;;
      ret (Ok tt).

Definition MaybeCommit (max_index term : Z) : M (RaftLog S) bool :=
  let! l := get in
  if committed_ l <? max_index then
    let! r := getsO (Term max_index) in
    if result_is r term then
      CommitTo max_index ;;;
      ret true
    else ret false
  else ret false.

Definition on_unstable {A} (m : M Unstable A) : M (RaftLog S) A :=
  zoom unstable_ (fun u l => l <| unstable_ := u |>) m.

Definition on_store {A} (m : M S A) : M (RaftLog S) A :=
  zoom store_ (fun s l => l <| store_ := s |>) m.

Definition Append (entries : list Entry) : M (RaftLog S) Z :=
  match entries with
  | [] => getsO LastIndex
  | first :: _ =>
      let after := e_index first -! 1 in
      let! l := get in
      when (after <? committed_ l) (set! committed_ := after) ;;;
      on_unstable (TruncateAndAppend entries) ;;;
      getsO LastIndex
  end.

Definition MaybeAppend (idx term committed : Z) (entries : list Entry) :
    M (RaftLog S) (Result MaybeAppendResult) :=
  let! matched := getsO (MatchTerm idx term) in
  if negb matched then ret (Ok (mkMaybeAppendResult false 0 0))
  else
    let! conflict_idx := getsO (FindConflict entries) in
    let! l := get in
    if negb (conflict_idx =? 0) && (conflict_idx <=? committed_ l) then
      ret (Err (EFatal "entry {} conflict with committed entry {}"))
    else
      when (negb (conflict_idx =? 0))
        (let start := conflict_idx -! (idx +! 1) in
         (* [reserve] of a wrapped difference throws *)
         when (zlen entries <? start) (abort (Panic "std::length_error")) ;;;
         Append (drop (Z.to_nat start) entries) ;;;
         modify (fun l => l <| persisted_ := Z.min (persisted_ l) (conflict_idx -! 1) |>)) ;;;
      let last_new_idx := idx +! zlen entries in
      CommitTo (Z.min committed last_new_idx) ;;;
      ret (Ok (mkMaybeAppendResult true conflict_idx last_new_idx)).

Definition MustCheckOutOfBounds (low high : Z) (l : RaftLog S) : outcome (Result unit) :=
  if high <? low then Ret (Err (EFatal "invalid slice {} > {}"))
  else
    let? first_index := FirstIndex l in
    if low <? first_index then Ret (Err (EStorage Compacted))
    else
      let? last := LastIndex l in
      let length := (last +! 1) -! first_index in
      if (first_index +! length) <? high then Ret (Err (EFatal "slice[{},{}] out of bound[{},{}]"))
      else Ret (Ok tt).

Definition Slice (low high : Z) (max_size : option Z) (context : GetEntriesContext) :
    M (RaftLog S) (Result (list Entry)) :=
  let! r := getsO (MustCheckOutOfBounds low high) in
  match r with
  | Err e => ret (Err e)
  | Ok _ =>
      if low =? high then ret (Ok [])
      else
        let! l := get in
        let offset := offset_ (unstable_ l) in
        (* the stable part, [inr] when it ends the call *)
        let! stable :=
          (if low <? offset then
             let unstable_high := Z.min high offset in
             let! r := on_store (Entries low unstable_high max_size context) in
             match r with
             | Ok entries =>
                 if zlen entries <? (unstable_high -! low) then ret (inr (Ok entries))
                 else ret (inl entries)
             | Err e =>
                 if is_storage e Compacted || is_storage e LogTemporarilyUnavailable then ret (inr (Err e))
                 else if is_storage e Unavailable then
                   abort (Panic "entries[{}:{}] is unavailable from storage")
                 else abort (Panic "unexpected error: {}")
             end
           else ret (inl [])) in
        match stable with
        | inr r => ret r
        | inl entries =>
            let! entries :=
              (if offset <? high then
                 let! unstable := getsO (fun l => Unstable.Slice (Z.max low offset) high (unstable_ l)) in
                 ret (entries ++ unstable)
               else ret entries) in
            ret (Ok (LimitSize entries max_size))
        end
  end.

Definition GetEntries (idx : Z) (max_size : option Z) (context : GetEntriesContext) :
    M (RaftLog S) (Result (list Entry)) :=
  let! last := getsO LastIndex in
  if last <? idx then ret (Ok [])
  else Slice idx (last +! 1) max_size context.

(** [AllEntries] calls itself again while the storage compacts. *)
Fixpoint AllEntries (fuel : nat) : M (RaftLog S) (list Entry) :=
  match fuel with
  | O => abort NoFuel
  | Datatypes.S fuel' =>
      let! first_index := getsO FirstIndex in
      let! r := GetEntries first_index None (ForEmpty false) in
      match r with
      | Ok entries => ret entries
      | Err e => if is_storage e Compacted then AllEntries fuel'
                 else abort (Panic "unexpected error")
      end
  end.

Definition AppliedToUnchecked (idx : Z) : M (RaftLog S) unit := set! applied_ := idx.

Definition AppliedTo (idx : Z) : M (RaftLog S) unit :=
  if idx =? 0 then ret tt
  else
    let! l := get in
    if (committed_ l <? idx) || (idx <? applied_ l) then
      abort (Panic "applied({}) is out of range [prev_applied({}), committed({})]")
    else AppliedToUnchecked idx.

(** The [for (;;)] of [FindConflictByTerm]. *)
Fixpoint FindConflictByTerm_loop (fuel : nat) (conflict_index term : Z) (l : RaftLog S) :
    outcome (Z * option Z) :=
  match fuel with
  | O => Abort NoFuel
  | Datatypes.S fuel' =>
      let? r := Term conflict_index l in
      match r with
      | Ok t => if term <? t then FindConflictByTerm_loop fuel' (conflict_index -! 1) term l
                else Ret (conflict_index, Some t)
      | Err _ => Ret (conflict_index, None)
      end
  end.

Definition FindConflictByTerm (index term : Z) (l : RaftLog S) : outcome (Z * option Z) :=
  let? last_index := LastIndex l in
  if last_index <? index then Ret (index, None)
  else FindConflictByTerm_loop (Datatypes.S (Datatypes.S (Z.to_nat index))) index term l.

Definition GetSnapshot (request_index to : Z) : M (RaftLog S) (Result Snapshot) :=
  let! l := get in
  match snapshot_ (unstable_ l) with
  | Some s =>
      if request_index <=? sn_index s then ret (Ok s)
      else on_store (Storage.GetSnapshot request_index to)
  | None => on_store (Storage.GetSnapshot request_index to)
  end.

Definition CommitInfo (l : RaftLog S) : outcome (Z * Z) :=
  let? r := Term (committed_ l) l in
  match r with
  | Ok t => Ret (committed_ l, t)
  | Err _ => Abort (Panic "last committed entry at {} is missing: {}")
  end.

Definition IsUpToDate (last_index term : Z) (l : RaftLog S) : outcome bool :=
  let? last_term := LastTerm l in
  if last_term <? term then Ret true
  else if term =? last_term then
    let? last := LastIndex l in Ret (last <=? last_index)
  else Ret false.

Definition Restore (snapshot : Snapshot) : M (RaftLog S) (Result unit) :=
  let index := sn_index snapshot in
  let! l := get in
  if index <? committed_ l then ret (Err (EFatal "index {} < committed_ {}"))
  else
    when (committed_ l <? persisted_ l) (set! persisted_ := committed_ l) ;;;
    set! committed_ := index ;;;
    on_unstable (Unstable.Restore snapshot) ;;;
    ret (Ok tt).

Definition AppliedIndexUpperBound (l : RaftLog S) : Z :=
  Z.min (committed_ l) (persisted_ l +! max_apply_unpersisted_log_limit_ l).

Definition HasNextEntriesSince (since_idx : Z) (l : RaftLog S) : outcome bool :=
  let? first := FirstIndex l in
  let offset := Z.max (since_idx +! 1) first in
  let high := AppliedIndexUpperBound l +! 1 in
  Ret (offset <? high).

Definition HasNextEntries (l : RaftLog S) : outcome bool := HasNextEntriesSince (applied_ l) l.

Definition NextEntriesSince (since_idx : Z) (max_size : option Z) : M (RaftLog S) (option (list Entry)) :=
  let! first := getsO FirstIndex in
  let! l := get in
  let offset := Z.max (since_idx +! 1) first in
  let high := AppliedIndexUpperBound l +! 1 in
  if offset <? high then
    let! r := Slice offset high max_size ForGenReady in
    match r with
    | Err _ => abort (Panic "{}")
    | Ok entries => ret (Some entries)
    end
  else ret None.

Definition NextEntries (max_size : option Z) : M (RaftLog S) (option (list Entry)) :=
  let! l := get in
  NextEntriesSince (applied_ l) max_size.

Definition StableSnapshot (index : Z) : M (RaftLog S) unit :=
  on_unstable (Unstable.StableSnapshot index).

Definition StableEntries (index term : Z) : M (RaftLog S) unit :=
  on_unstable (Unstable.StableEntries index (u32 term)).

(** [Scan]: [scanFn] works on a value [a] of the caller's and says whether to
    go on. *)
Fixpoint Scan {A} (fuel : nat) (low high : Z) (page_size : Z) (ctx : GetEntriesContext)
    (scanFn : list Entry -> A -> A * bool) (a : A) : M (RaftLog S) (Result A) :=
  match fuel with
  | O => abort NoFuel
  | Datatypes.S fuel' =>
      if low <? high then
        let! ents := Slice low high (Some page_size) ctx in
        match ents with
        | Err e => ret (Err e)
        | Ok [] => ret (Err (EStorageOther "got 0 entries in [{}, {})"))
        | Ok ents =>
            let low := low +! zlen ents in
            let '(a, go) := scanFn ents a in
            if negb go then ret (Ok a) else Scan fuel' low high page_size ctx scanFn a
        end
      else ret (Ok a)
  end.
End RaftLog.

(** ** Specification *)

Section Spec.
Context {ENV : Env} {S : Type} {ST : Storage S} {SL : StorageLaws S}.

(** The log as one sequence. *)
Definition log_view (l : RaftLog S) : LogView :=
  match snapshot_ (unstable_ l) with
  | Some s => mkView (sn_index s) (Some (sn_term s)) (entries_ (unstable_ l))
  | None =>
      let v := st_view (store_ l) in
      mkView (v_dummy v) (v_dummy_term v)
        (take (Z.to_nat (offset_ (unstable_ l) - v_dummy v - 1)) (v_entries v) ++ entries_ (unstable_ l))
  end.

(** The unstable part continues the stable one, or replaces it by a snapshot. *)
Record log_wf (l : RaftLog S) : Prop := {
  lw_store : st_inv (store_ l);
  lw_unstable : Unstable.wf (unstable_ l);
  lw_offset : snapshot_ (unstable_ l) = None ->
    v_dummy (st_view (store_ l)) < offset_ (unstable_ l) <= v_last (st_view (store_ l)) + 1;
  lw_empty : snapshot_ (unstable_ l) = None -> entries_ (unstable_ l) = [] ->
    offset_ (unstable_ l) = v_last (st_view (store_ l)) + 1
}.

(** The term a log gives at an index: 0 outside, as [RaftLog::Term] does. *)
Definition v_term (v : LogView) (i : Z) : Result Z :=
  match v_at v i with
  | Some e => Ok (e_term e)
  | None =>
      if i =? v_dummy v then
        match v_dummy_term v with Some t => Ok t | None => Err (EStorage Compacted) end
      else Ok 0
  end.

(** The cursors stay in order. *)
Record cursors_wf (l : RaftLog S) : Prop := {
  cw_committed : v_dummy (log_view l) <= committed_ l <= v_last (log_view l);
  cw_applied : 0 <= applied_ l <= committed_ l;
  cw_persisted : 0 <= persisted_ l <= v_last (log_view l)
}.

(** The entries of a batch that are not in the log yet: those from the first
    one whose term differs. *)
Fixpoint v_new (v : LogView) (entries : list Entry) : list Entry :=
  match entries with
  | [] => []
  | e :: rest =>
      if result_is (v_term v (e_index e)) (e_term e) then v_new v rest else entries
  end.
End Spec.
