(* ===== verification/RaftLogProps.v ===== *)
(** * Properties of the raft log

    The operations of [RaftLog] described on the abstract view of the log. *)

From S2P Require Import Prelude Types Util Storage MemStorage Unstable ReadOnly Config RaftLog.

Section LogProofs.
Context {ENV : Env} {S : Type} {ST : Storage S} {SL : StorageLaws S}.
Implicit Types l : RaftLog S.

(** Operations that change nothing the log stands for. *)
Definition same_log (l l' : RaftLog S) : Prop :=
  st_view (store_ l') = st_view (store_ l) /\ unstable_ l' = unstable_ l /\
  committed_ l' = committed_ l /\ persisted_ l' = persisted_ l /\ applied_ l' = applied_ l /\
  max_apply_unpersisted_log_limit_ l' = max_apply_unpersisted_log_limit_ l.

(** The state after a successful [MaybeAppend]. *)
Definition appended (l : RaftLog S) (idx committed : Z) (entries : list Entry) : RaftLog S :=
  let l1 := match v_new (log_view l) entries with
            | [] => l
            | e :: rest =>
                l <| unstable_ := truncated (unstable_ l) (e :: rest) (e_index e) |>
                  <| persisted_ := Z.min (persisted_ l) (e_index e - 1) |>
            end in
  l1 <| committed_ := Z.max (committed_ l) (Z.min committed (idx + zlen entries)) |>.

Lemma st_bounds l : log_wf l -> 0 <= v_dummy (st_view (store_ l)) /\
  v_dummy (st_view (store_ l)) <= v_last (st_view (store_ l)) < u64max.
Proof.
  intros W. destruct (st_view_wf _ (lw_store l W)) as [Hd Hl _]. unfold v_last in *. lia.
Qed.

Lemma log_view_snapshot l s : snapshot_ (unstable_ l) = Some s ->
  log_view l = mkView (sn_index s) (Some (sn_term s)) (entries_ (unstable_ l)).
Proof. intros E. unfold log_view. by rewrite E. Qed.

(** The last index of the view is the end of the unstable part. *)
Lemma log_view_last l : log_wf l ->
  v_last (log_view l) = offset_ (unstable_ l) + zlen (entries_ (unstable_ l)) - 1.
Proof.
  intros W. pose proof (st_bounds l W). destruct W as [_ Wu Ho _]. unfold log_view, v_last in *.
  destruct (snapshot_ (unstable_ l)) as [s|] eqn:Es; cbn.
  - rewrite (wf_snapshot _ Wu s Es). lia.
  - specialize (Ho eq_refl). rewrite length_app, length_take. lia.
Qed.

Lemma log_view_dummy l : log_wf l ->
  0 <= v_dummy (log_view l) < offset_ (unstable_ l) /\ offset_ (unstable_ l) <= v_last (log_view l) + 1.
Proof.
  intros W. rewrite log_view_last by done. pose proof (st_bounds l W). destruct W as [_ Wu Ho _].
  unfold log_view. destruct (snapshot_ (unstable_ l)) as [s|] eqn:Es; cbn.
  - pose proof (wf_snapshot _ Wu s Es). pose proof (wf_offset _ Wu). lia.
  - specialize (Ho eq_refl). lia.
Qed.

Lemma log_view_wf l : log_wf l -> view_wf (log_view l).
Proof.
  intros W. pose proof (st_bounds l W) as Hb. pose proof (log_view_last l W) as Hl.
  pose proof (log_view_dummy l W). constructor; [lia| |].
  - rewrite Hl. pose proof (wf_upper _ (lw_unstable l W)). lia.
  - destruct W as [Ws Wu Ho _]. destruct (st_view_wf _ Ws) as [_ _ Hc]. unfold log_view.
    destruct (snapshot_ (unstable_ l)) as [s|] eqn:Es; cbn.
    + rewrite <- (wf_snapshot _ Wu s Es). apply Wu.
    + specialize (Ho eq_refl). apply contiguous_app. split; [by apply contiguous_take|].
      rewrite length_take. unfold v_last in *.
      replace (_ + _) with (offset_ (unstable_ l)) by lia. apply Wu.
Qed.

Lemma view_bounds l : log_wf l -> 0 <= v_dummy (log_view l) <= v_last (log_view l) /\
  v_last (log_view l) < u64max.
Proof. intros W. destruct (log_view_wf l W). unfold v_last in *. lia. Qed.

Lemma LastIndex_view l : log_wf l -> LastIndex l = Ret (v_last (log_view l)).
Proof.
  intros W. unfold LastIndex. rewrite MaybeLastIndex_wf by apply W. rewrite log_view_last by done.
  destruct W as [Ws Wu _ He]. destruct (snapshot_ (unstable_ l)); [done|].
  destruct (entries_ (unstable_ l)) eqn:Ee; [|done]. rewrite st_last by done. cbn.
  specialize (He eq_refl eq_refl). f_equal. lia.
Qed.

Lemma FirstIndex_view l : log_wf l -> FirstIndex l = Ret (v_dummy (log_view l) + 1).
Proof.
  intros W. unfold FirstIndex, MaybeFirstIndex, log_view. pose proof (view_bounds l W) as Hb.
  destruct (snapshot_ (unstable_ l)) as [s|] eqn:Es.
  - cbn. rewrite (log_view_snapshot l s Es) in Hb. cbn in Hb. f_equal. u64_lia.
  - rewrite st_first by apply W. done.
Qed.

(** Below [offset_] the view is the storage, from [offset_] on the unstable
    entries. *)
Lemma v_at_unstable l i : log_wf l -> offset_ (unstable_ l) <= i ->
  v_at (log_view l) i = entries_ (unstable_ l) !! Z.to_nat (i - offset_ (unstable_ l)).
Proof.
  intros W Hi. pose proof (log_view_dummy l W) as Hd. pose proof (st_bounds l W) as Hb.
  unfold v_at. rewrite (proj2 (Z.ltb_lt _ _)) by lia. destruct W as [_ Wu Ho _]. unfold log_view in *.
  destruct (snapshot_ (unstable_ l)) as [s|] eqn:Es; cbn in *.
  - f_equal. rewrite (wf_snapshot _ Wu s Es). lia.
  - specialize (Ho eq_refl). unfold v_last in *. rewrite lookup_app_r by (rewrite length_take; lia).
    f_equal. rewrite length_take. lia.
Qed.

Lemma v_at_stable l i : log_wf l -> snapshot_ (unstable_ l) = None -> i < offset_ (unstable_ l) ->
  v_at (log_view l) i = v_at (st_view (store_ l)) i.
Proof.
  intros W Es Hi. pose proof (st_bounds l W) as Hb. destruct W as [_ _ Ho _]. specialize (Ho Es).
  unfold v_at, log_view, v_last in *. rewrite Es. cbn. destruct (Z.ltb_spec (v_dummy (st_view (store_ l))) i); [|done].
  rewrite lookup_app_l by (rewrite length_take; lia). apply lookup_take_lt. lia.
Qed.

(** [Term] reads the view. *)
Lemma Term_view l i : log_wf l -> is_u64 i -> Term i l = Ret (v_term (log_view l) i).
Proof.
  intros W Hi. unfold Term. rewrite FirstIndex_view, LastIndex_view by done. cbn [obind].
  pose proof (view_bounds l W) as Hb. u64_simpl.
  replace (v_dummy (log_view l) + 1 - 1) with (v_dummy (log_view l)) by lia.
  destruct (Z.ltb_spec i (v_dummy (log_view l))) as [H1|H1].
  { cbn. unfold v_term, v_at. rewrite (proj2 (Z.ltb_ge _ _)) by lia. by rewrite (proj2 (Z.eqb_neq _ _)) by lia. }
  destruct (Z.ltb_spec (v_last (log_view l)) i) as [H2|H2].
  { cbn. unfold v_term. destruct (v_at (log_view l) i) eqn:E; [apply v_at_Some in E; lia|].
    by rewrite (proj2 (Z.eqb_neq _ _)) by lia. }
  cbn [orb]. rewrite MaybeTerm_wf by (done || apply W). cbn [obind].
  destruct (Z.ltb_spec i (offset_ (unstable_ l))) as [Ho|Ho].
  - pose proof (wf_snapshot _ (lw_unstable l W)) as Hs.
    destruct (snapshot_ (unstable_ l)) as [s|] eqn:Es.
    + rewrite (log_view_snapshot l s Es) in *. cbn in H1. specialize (Hs s eq_refl).
      unfold v_term, v_at. cbn. rewrite (proj2 (Z.ltb_ge _ _)), !(proj2 (Z.eqb_eq _ _)) by lia. done.
    + unfold v_term. rewrite v_at_stable by done. clear Hs.
      assert (Ed : v_dummy (log_view l) = v_dummy (st_view (store_ l)) /\
        v_dummy_term (log_view l) = v_dummy_term (st_view (store_ l))) by (unfold log_view; rewrite Es; done).
      destruct Ed as [Ed Edt]. rewrite Ed, Edt in *.
      destruct (v_at (st_view (store_ l)) i) as [e|] eqn:E; [by rewrite (st_term _ _ e) by (done || apply W)|].
      destruct (Z.eqb_spec i (v_dummy (st_view (store_ l)))) as [->|Hne].
      * rewrite st_term_dummy by apply W. cbn. by destruct (v_dummy_term (st_view (store_ l))).
      * destruct (v_at_is_Some (st_view (store_ l)) i) as [e Ee]; [|congruence].
        pose proof (lw_offset l W Es). lia.
  - unfold v_term. rewrite v_at_unstable by done.
    destruct (entries_ (unstable_ l) !! Z.to_nat (i - offset_ (unstable_ l))) as [e|] eqn:E; [done|].
    exfalso. apply lookup_ge_None in E. rewrite log_view_last in H2 by done. lia.
Qed.

Lemma same_log_view l l' : same_log l l' -> log_view l' = log_view l.
Proof. intros (Hv & Hu & _). unfold log_view. by rewrite Hv, Hu. Qed.

Lemma same_log_wf l l' : same_log l l' -> st_inv (store_ l') -> log_wf l -> log_wf l'.
Proof. intros (Hv & Hu & _) Hi [_ Wu Ho He]. constructor; rewrite ?Hv, ?Hu; done. Qed.

Lemma same_log_refl l : same_log l l.
Proof. repeat split. Qed.

(** A slice of the view, cut at [offset_]. *)
Lemma v_slice_stable l lo hi : log_wf l -> snapshot_ (unstable_ l) = None ->
  v_dummy (log_view l) < lo -> hi <= offset_ (unstable_ l) ->
  v_slice (log_view l) lo hi = v_slice (st_view (store_ l)) lo hi.
Proof.
  intros W Es Hlo Hhi. apply list_eq. intros k.
  assert (Ed : v_dummy (log_view l) = v_dummy (st_view (store_ l))) by (unfold log_view; by rewrite Es).
  destruct (Z.lt_ge_cases (Z.of_nat k) (hi - lo)) as [Hk|Hk].
  - rewrite !v_slice_lookup by lia. apply v_at_stable; [done..|lia].
  - unfold v_slice. rewrite !lookup_take_ge by lia. done.
Qed.

Lemma v_slice_split v lo mid hi : v_dummy v < lo -> lo <= mid <= hi -> mid <= v_last v + 1 ->
  v_slice v lo hi = v_slice v lo mid ++ v_slice v mid hi.
Proof.
  intros Hlo Hm Hl. apply list_eq. intros k.
  pose proof (v_slice_length v lo mid ltac:(lia) ltac:(lia) ltac:(lia)) as Hlen.
  destruct (Z.lt_ge_cases (Z.of_nat k) (mid - lo)) as [Hk|Hk].
  - rewrite lookup_app_l by lia. rewrite !v_slice_lookup by lia. done.
  - rewrite lookup_app_r by lia. destruct (Z.lt_ge_cases (Z.of_nat k) (hi - lo)) as [Hk'|Hk'].
    + rewrite !v_slice_lookup by lia. f_equal. lia.
    + replace (length (v_slice v lo mid)) with (Z.to_nat (mid - lo)) by lia.
      unfold v_slice. rewrite !lookup_take_ge by lia. done.
Qed.

Lemma v_slice_unstable l lo hi : log_wf l -> offset_ (unstable_ l) <= lo ->
  v_slice (log_view l) lo hi =
  take (Z.to_nat (hi - lo)) (drop (Z.to_nat (lo - offset_ (unstable_ l))) (entries_ (unstable_ l))).
Proof.
  intros W Hlo. pose proof (log_view_dummy l W). apply list_eq. intros k.
  destruct (Z.lt_ge_cases (Z.of_nat k) (hi - lo)) as [Hk|Hk].
  - rewrite v_slice_lookup, v_at_unstable by (done || lia). rewrite lookup_take_lt, lookup_drop by lia.
    f_equal. lia.
  - unfold v_slice. rewrite !lookup_take_ge by lia. done.
Qed.

Lemma MustCheckOutOfBounds_view l lo hi : log_wf l ->
  v_dummy (log_view l) < lo -> lo <= hi <= v_last (log_view l) + 1 ->
  MustCheckOutOfBounds lo hi l = Ret (Ok tt).
Proof.
  intros W Hlo Hhi. unfold MustCheckOutOfBounds. rewrite (proj2 (Z.ltb_ge hi lo)) by lia.
  rewrite FirstIndex_view, LastIndex_view by done. cbn [obind]. pose proof (view_bounds l W).
  rewrite (proj2 (Z.ltb_ge lo _)) by lia. u64_simpl. rewrite (proj2 (Z.ltb_ge _ hi)) by lia. done.
Qed.

Lemma Unstable_Slice_view l lo hi : log_wf l -> offset_ (unstable_ l) <= lo <= hi ->
  hi <= v_last (log_view l) + 1 ->
  Unstable.Slice lo hi (unstable_ l) = Ret (v_slice (log_view l) lo hi).
Proof.
  intros W Hlo Hhi. rewrite v_slice_unstable by (done || lia). unfold Unstable.Slice, Unstable.MustCheckOutOfBounds.
  rewrite upper_wf by apply W. rewrite log_view_last in Hhi by done. unfold oassert.
  rewrite !(proj2 (Z.leb_le _ _)) by lia. done.
Qed.

(** The storage part of [Slice]. *)
Lemma on_store_Entries l lo hi max ctx : log_wf l -> snapshot_ (unstable_ l) = None ->
  v_dummy (log_view l) < lo < hi -> hi <= offset_ (unstable_ l) ->
  exists r l', on_store (Entries lo hi max ctx) l = Ret (r, l') /\ same_log l l' /\ log_wf l' /\
    match r with
    | Ok ents => exists k, (0 < k)%nat /\ ents = take k (v_slice (log_view l) lo hi) /\
                   (max = None -> ents = v_slice (log_view l) lo hi)
    | Err e => e = EStorage LogTemporarilyUnavailable /\ CanAsync ctx = true
    end.
Proof.
  intros W Es Hlo Hhi. pose proof (lw_offset l W Es) as Ho.
  assert (Ed : v_dummy (log_view l) = v_dummy (st_view (store_ l))) by (unfold log_view; by rewrite Es).
  destruct (st_entries (store_ l) lo hi max ctx (lw_store l W)) as (r & s' & E & Hi & Hv & Hr); [lia..|].
  unfold on_store, zoom. rewrite E. eexists _, _. split; [reflexivity|].
  assert (Hs : same_log l (l <| store_ := s' |>)) by (repeat split; done).
  split; [done|]. split; [by eapply same_log_wf|].
  destruct r; [|done]. by rewrite v_slice_stable by (done || lia).
Qed.

Lemma take_full {A} k (x : list A) : (length x <= length (take k x))%nat -> take k x = x.
Proof. intros Hl. apply take_ge. rewrite length_take in Hl. lia. Qed.

(** The limit on a whole range keeps a non-empty prefix. *)
Lemma LimitSize_slice l lo hi max : log_wf l -> v_dummy (log_view l) < lo < hi ->
  hi <= v_last (log_view l) + 1 ->
  exists k, (0 < k)%nat /\ LimitSize (v_slice (log_view l) lo hi) max = take k (v_slice (log_view l) lo hi) /\
    (max = None -> take k (v_slice (log_view l) lo hi) = v_slice (log_view l) lo hi).
Proof.
  intros W Hlo Hhi. pose proof (view_bounds l W) as Hb.
  assert (Hl : zlen (v_slice (log_view l) lo hi) = hi - lo) by (apply v_slice_length; lia).
  destruct (LimitSize_prefix (v_slice (log_view l) lo hi) max) as (k & Hk & E & [Hne|Hne] & Hn).
  - unfold two64, u64max in *. lia.
  - rewrite Hne in Hl. cbn in Hl. lia.
  - exists k. split; [done|]. split; [done|]. intros Hm. rewrite (Hn Hm). apply take_ge. lia.
Qed.

(** The last step of [Slice]: the unstable part is added and the limit applied. *)
Lemma Slice_finish l lo hi max off : off = offset_ (unstable_ l) ->
  log_wf l -> v_dummy (log_view l) < lo < hi -> hi <= v_last (log_view l) + 1 ->
  exists ents, (let! entries :=
      (if off <? hi then
         let! unstable := getsO (fun l => Unstable.Slice (Z.max lo off) hi (unstable_ l)) in
         ret (v_slice (log_view l) lo (Z.min hi off) ++ unstable)
       else ret (v_slice (log_view l) lo (Z.min hi off))) in
    ret (Ok (LimitSize entries max))) l = Ret (Ok ents, l) /\
    exists k, (0 < k)%nat /\ ents = take k (v_slice (log_view l) lo hi) /\
      (max = None -> ents = v_slice (log_view l) lo hi).
Proof.
  intros -> W Hlo Hhi. destruct (LimitSize_slice l lo hi max W Hlo Hhi) as (k & Hk & E & Hn).
  exists (take k (v_slice (log_view l) lo hi)). split; [|by exists k].
  destruct (Z.ltb_spec (offset_ (unstable_ l)) hi) as [Hu|Hu].
  - rewrite bind_bind, (bind_run (getsO _) _ _ (v_slice (log_view l) (Z.max lo (offset_ (unstable_ l))) hi) l)
      by (unfold getsO; by rewrite Unstable_Slice_view by (done || lia)).
    msteps. unfold ret. rewrite <- E. do 4 f_equal.
    destruct (Z.le_gt_cases (offset_ (unstable_ l)) lo).
    + rewrite (Z.max_l lo), (Z.min_r hi) by lia. unfold v_slice at 1.
      replace (Z.to_nat (offset_ (unstable_ l) - lo)) with 0%nat by lia. by rewrite take_0.
    + rewrite (Z.max_r lo), (Z.min_r hi) by lia. symmetry. apply v_slice_split; lia.
  - rewrite (Z.min_l hi) by lia. msteps. by rewrite E.
Qed.

Lemma v_slice_nil v lo hi : hi <= lo -> v_slice v lo hi = [].
Proof. intros Hh. unfold v_slice. replace (Z.to_nat (hi - lo)) with 0%nat by lia. apply take_0. Qed.

Lemma take_v_slice v lo mid hi k : v_dummy v < lo -> lo <= mid <= hi -> mid <= v_last v + 1 ->
  zlen (take k (v_slice v lo mid)) < mid - lo ->
  take k (v_slice v lo mid) = take k (v_slice v lo hi).
Proof.
  intros Hlo Hm Hl Hk. rewrite (v_slice_split v lo mid hi) by done.
  assert (Hlen : zlen (v_slice v lo mid) = mid - lo) by (apply v_slice_length; lia).
  rewrite length_take in Hk. by rewrite take_app_le by lia.
Qed.

(** [Slice] of a range of the log: a non-empty prefix of the range, or the
    storage is fetching the entries. *)
Lemma Slice_view l lo hi max ctx : log_wf l ->
  v_dummy (log_view l) < lo < hi -> hi <= v_last (log_view l) + 1 ->
  exists r l', Slice lo hi max ctx l = Ret (r, l') /\ same_log l l' /\ log_wf l' /\
    match r with
    | Ok ents => exists k, (0 < k)%nat /\ ents = take k (v_slice (log_view l) lo hi) /\
                   (max = None -> ents = v_slice (log_view l) lo hi)
    | Err e => e = EStorage LogTemporarilyUnavailable /\ CanAsync ctx = true
    end.
Proof.
  intros W Hlo Hhi. unfold Slice. pose proof (view_bounds l W) as Hb.
  pose proof (log_view_dummy l W) as Hd.
  rewrite (bind_run (getsO _) _ _ (Ok tt) l)
    by (unfold getsO; by rewrite MustCheckOutOfBounds_view by (done || lia)).
  rewrite (proj2 (Z.eqb_neq lo hi)) by lia. msteps.
  destruct (Z.ltb_spec lo (offset_ (unstable_ l))) as [Hs|Hs].
  - assert (Es : snapshot_ (unstable_ l) = None).
    { destruct (snapshot_ (unstable_ l)) as [s|] eqn:Es; [|done]. exfalso.
      pose proof (wf_snapshot _ (lw_unstable l W) s Es).
      rewrite (log_view_snapshot l s Es) in Hlo. cbn in Hlo. lia. }
    destruct (on_store_Entries l lo (Z.min hi (offset_ (unstable_ l))) max ctx W Es ltac:(lia) ltac:(lia))
      as (r & l1 & E & Hsame & W1 & Hr).
    msteps. rewrite (bind_run _ _ _ _ _ E). pose proof (same_log_view _ _ Hsame) as Hv.
    destruct r as [ents|e]; [|destruct Hr as [-> Hr]; by eexists _, l1].
    destruct Hr as (k & Hk & -> & Hfull).
    assert (Hlen : zlen (v_slice (log_view l) lo (Z.min hi (offset_ (unstable_ l)))) =
      Z.min hi (offset_ (unstable_ l)) - lo) by (apply v_slice_length; lia).
    rewrite (u64_id (Z.min hi (offset_ (unstable_ l)) - lo)) by (unfold is_u64, two64, u64max in *; lia).
    destruct (Z.ltb_spec (zlen (take k (v_slice (log_view l) lo (Z.min hi (offset_ (unstable_ l))))))
      (Z.min hi (offset_ (unstable_ l)) - lo)) as [Hsh|Hsh].
    + msteps. eexists _, l1. split; [reflexivity|]. split; [done|]. split; [done|]. exists k.
      split; [done|]. split; [apply take_v_slice; lia|].
      intros Hn. rewrite (Hfull Hn), Hlen in Hsh. lia.
    + msteps. rewrite take_full by lia. pose proof Hsame as (_ & Hu & _).
      destruct (Slice_finish l1 lo hi max (offset_ (unstable_ l)) ltac:(by rewrite Hu) W1 ltac:(rewrite Hv; lia) ltac:(rewrite Hv; lia)) as (ents & E' & Hents).
      rewrite Hv in E', Hents. eexists _, l1. split; [exact E'|]. split; [done|]. split; [done|exact Hents].
  - msteps. destruct (Slice_finish l lo hi max _ eq_refl W ltac:(lia) ltac:(lia)) as (ents & E' & Hents).
    rewrite (v_slice_nil _ lo (Z.min _ _)) in E' by lia. cbn [app] in E'.
    eexists _, l. split; [exact E'|]. split; [apply same_log_refl|]. split; [done|exact Hents].
Qed.

(** ** Appending *)

Lemma MatchTerm_view l i t : log_wf l -> is_u64 i ->
  MatchTerm i t l = Ret (result_is (v_term (log_view l) i) t).
Proof. intros W Hi. unfold MatchTerm. rewrite Term_view by done. cbn. by destruct (v_term _ _). Qed.

Lemma FindConflict_view l entries : log_wf l -> Forall (fun e => is_u64 (e_index e)) entries ->
  FindConflict entries l =
  Ret (match v_new (log_view l) entries with [] => 0 | e :: _ => e_index e end).
Proof.
  intros W Hf. induction Hf as [|e es He _ IH]; [done|]. cbn. rewrite MatchTerm_view by done. cbn.
  by destruct (result_is _ _).
Qed.

(** Terms other than 0 are found inside the log. *)
Lemma v_term_inside v i t : v_term v i = Ok t -> t <> 0 -> v_dummy v <= i <= v_last v.
Proof.
  unfold v_term. destruct (v_at v i) eqn:E; [apply v_at_Some in E; unfold v_last in *; lia|].
  destruct (Z.eqb_spec i (v_dummy v)); [unfold v_last; lia|]. congruence.
Qed.

Lemma v_term_at v i t : v_term v i = Ok t -> v_dummy v < i <= v_last v ->
  exists e, v_at v i = Some e /\ e_term e = t.
Proof.
  intros E Hi. destruct (v_at_is_Some v i Hi) as [e Ee]. exists e. split; [done|].
  unfold v_term in E. rewrite Ee in E. congruence.
Qed.

Lemma v_new_spec v first entries :
  contiguous first entries -> Forall (fun e => e_term e <> 0) entries ->
  v_dummy v < first <= v_last v + 1 ->
  exists k, (k <= length entries)%nat /\ v_new v entries = drop k entries /\
    (forall j e, (j < k)%nat -> entries !! j = Some e ->
       exists e', v_at v (first + Z.of_nat j) = Some e' /\ e_term e' = e_term e) /\
    first + Z.of_nat k <= v_last v + 1.
Proof.
  intros Hc Ht. revert first Hc. induction Ht as [|e es He _ IH]; intros first Hc Hf.
  { exists 0%nat. cbn. split; [lia|]. split; [done|]. split; [intros; lia|lia]. }
  destruct Hc as [Hi Hc]. cbn. destruct (v_term v (e_index e)) as [t|er] eqn:E; cbn.
  - destruct (Z.eqb_spec t (e_term e)) as [->|Hne].
    + pose proof (v_term_inside _ _ _ E He). rewrite Hi in *.
      destruct (IH (first + 1) Hc ltac:(lia)) as (k & Hk & Hd & Hm & Hb). exists (Datatypes.S k).
      split; [cbn; lia|]. split; [done|]. split; [|lia]. intros [|j] x Hj Hx; cbn in Hx.
      * injection Hx as ->. rewrite Z.add_0_r. apply v_term_at; [done|lia].
      * replace (first + Z.of_nat (Datatypes.S j)) with (first + 1 + Z.of_nat j) by lia. apply Hm; [lia|done].
    + exists 0%nat. split; [lia|]. split; [done|]. split; [intros; lia|lia].
  - exists 0%nat. split; [lia|]. split; [done|]. split; [intros; lia|lia].
Qed.

Lemma v_replace_last v first entries : v_dummy v < first <= v_last v + 1 ->
  v_last (v_replace v first entries) = first + zlen entries - 1.
Proof. intros Hf. unfold v_last, v_replace in *. cbn. rewrite length_app, length_take. lia. Qed.

Lemma v_replace_below v first entries i : v_dummy v < first <= v_last v + 1 -> i < first ->
  v_at (v_replace v first entries) i = v_at v i.
Proof.
  intros Hf Hi. unfold v_at, v_last, v_replace in *. cbn. destruct (Z.ltb_spec (v_dummy v) i); [|done].
  rewrite lookup_app_l by (rewrite length_take; lia). apply lookup_take_lt. lia.
Qed.

Lemma v_replace_above v first entries k : v_dummy v < first <= v_last v + 1 ->
  v_at (v_replace v first entries) (first + Z.of_nat k) = entries !! k.
Proof.
  intros Hf. unfold v_at, v_last, v_replace in *. cbn. rewrite (proj2 (Z.ltb_lt _ _)) by lia.
  rewrite lookup_app_r by (rewrite length_take; lia). f_equal. rewrite length_take. lia.
Qed.

(** [Append] replaces the log from the first new entry on. *)
Lemma Append_view l first rest : log_wf l -> 0 <= committed_ l < e_index first ->
  v_dummy (log_view l) < e_index first <= v_last (log_view l) + 1 ->
  contiguous (e_index first) (first :: rest) -> e_index first + zlen (first :: rest) <= u64max ->
  exists l', Append (first :: rest) l = Ret (e_index first + zlen (first :: rest) - 1, l') /\
    l' = l <| unstable_ := truncated (unstable_ l) (first :: rest) (e_index first) |> /\
    log_wf l' /\ log_view l' = v_replace (log_view l) (e_index first) (first :: rest).
Proof.
  intros W Hc Hf Hcont Hlen. pose proof (view_bounds l W) as Hb. pose proof (log_view_dummy l W) as Hd.
  pose proof (st_bounds l W) as Hst. pose proof (log_view_last l W) as Hlast.
  set (l' := l <| unstable_ := truncated (unstable_ l) (first :: rest) (e_index first) |>).
  assert (Wl : log_wf l').
  { destruct W as [Ws Wu Ho He]. constructor; cbn.
    - done.
    - apply truncated_wf; [done|lia| |done..]. intros Hsn.
      destruct (snapshot_ (unstable_ l)) as [s|] eqn:Es; [|done].
      rewrite (wf_snapshot _ Wu s Es). rewrite (log_view_snapshot l s Es) in Hf. cbn in Hf. lia.
    - intros Es. specialize (Ho Es). assert (v_dummy (log_view l) = v_dummy (st_view (store_ l)))
        by (unfold log_view; by rewrite Es). lia.
    - intros _ Hn. by apply app_nil in Hn as [_ ?]. }
  assert (Hview : log_view l' = v_replace (log_view l) (e_index first) (first :: rest)).
  { unfold log_view, v_replace, l'. cbn. destruct (snapshot_ (unstable_ l)) as [s|] eqn:Es; cbn.
    - f_equal. f_equal. f_equal. rewrite (wf_snapshot _ (lw_unstable l W) s Es). lia.
    - f_equal. rewrite (app_assoc _ _ (first :: rest)). f_equal. pose proof (lw_offset l W Es) as Ho.
      unfold v_last in Ho. destruct (Z.le_gt_cases (offset_ (unstable_ l)) (e_index first)).
      + rewrite Z.min_l by lia. rewrite take_app. f_equal.
        * rewrite take_take. f_equal. lia.
        * f_equal. rewrite length_take. lia.
      + rewrite Z.min_r by lia. replace (Z.to_nat (e_index first - offset_ (unstable_ l))) with 0%nat by lia.
        rewrite take_0, app_nil_r, take_app_le, take_take by (rewrite length_take; lia). f_equal. lia. }
  exists l'. split; [|done]. unfold Append. msteps.
  rewrite (u64_id (e_index first - 1)) by (unfold is_u64, two64, u64max in *; lia).
  rewrite (proj2 (Z.ltb_ge _ _)) by lia. msteps.
  rewrite (bind_run (on_unstable _) _ _ tt l')
    by (unfold on_unstable, zoom; by rewrite TruncateAndAppend_run by (apply W || lia)).
  unfold getsO. rewrite LastIndex_view, Hview, v_replace_last by done. done.
Qed.

(** The cursors are no part of the view. *)
Lemma cursors_view l l' : store_ l' = store_ l -> unstable_ l' = unstable_ l ->
  log_view l' = log_view l /\ (log_wf l -> log_wf l').
Proof.
  intros Es Eu. split; [unfold log_view; by rewrite Es, Eu|]. intros [Ws Wu Ho He].
  constructor; rewrite ?Es, ?Eu; done.
Qed.

Lemma CommitTo_view l c : log_wf l ->
  CommitTo c l = Ret (if (committed_ l <? c) && (v_last (log_view l) <? c)
                      then Err (EFatal "to_commit {} is out of range [last_index {}]") else Ok tt,
                      if (committed_ l <? c) && (c <=? v_last (log_view l))
                      then l <| committed_ := c |> else l).
Proof.
  intros W. unfold CommitTo. msteps. destruct (Z.leb_spec c (committed_ l)) as [Hc|Hc].
  { rewrite (proj2 (Z.ltb_ge _ _)) by lia. done. }
  rewrite (bind_run (getsO LastIndex) _ _ (v_last (log_view l)) l)
    by (unfold getsO; by rewrite LastIndex_view).
  rewrite (proj2 (Z.ltb_lt (committed_ l) c)) by lia. cbn [andb].
  destruct (Z.ltb_spec (v_last (log_view l)) c).
  - rewrite (proj2 (Z.leb_gt _ _)) by lia. done.
  - rewrite (proj2 (Z.leb_le _ _)) by lia. done.
Qed.

(** Advancing the commit index inside the log. *)
Lemma CommitTo_inside l c : log_wf l -> c <= v_last (log_view l) ->
  CommitTo c l = Ret (Ok tt, l <| committed_ := Z.max (committed_ l) c |>).
Proof.
  intros W Hc. rewrite CommitTo_view by done. rewrite (proj2 (Z.ltb_ge (v_last _) c)) by lia.
  rewrite andb_false_r. rewrite (proj2 (Z.leb_le _ _)) by lia. rewrite andb_true_r.
  destruct (Z.ltb_spec (committed_ l) c).
  - by rewrite Z.max_r by lia.
  - rewrite Z.max_l by lia. by destruct l.
Qed.

(** The appended log: what was there up to the first conflict, then the batch. *)
Lemma appended_view l idx committed entries :
  log_wf l -> 0 <= committed_ l -> v_dummy (log_view l) <= idx <= v_last (log_view l) ->
  idx + zlen entries < u64max -> contiguous (idx + 1) entries -> Forall (fun e => e_term e <> 0) entries ->
  (forall e rest, v_new (log_view l) entries = e :: rest -> committed_ l < e_index e) ->
  log_wf (appended l idx committed entries) /\
  idx + zlen entries <= v_last (log_view (appended l idx committed entries)) /\
  log_view (appended l idx committed entries) =
                match v_new (log_view l) entries with
                | [] => log_view l
                | e :: rest => v_replace (log_view l) (e_index e) (e :: rest)
                end.
Proof.
  intros W Hc0 Hi Hl Hc Ht Hn. unfold appended.
  destruct (v_new_spec (log_view l) (idx + 1) entries Hc Ht) as (k & Hk & Hd & _ & Hlast); [lia|].
  pose proof (contiguous_drop (idx + 1) entries k Hk Hc) as Hcd. rewrite <- Hd in Hcd.
  assert (Hld : zlen (v_new (log_view l) entries) = zlen entries - Z.of_nat k) by (rewrite Hd, length_drop; lia).
  destruct (v_new (log_view l) entries) as [|e rest].
  - destruct (cursors_view l (l <| committed_ := Z.max (committed_ l) (Z.min committed (idx + zlen entries)) |>)) as [Ev Ew];
      [done..|]. cbn [length] in Hld. rewrite Ev. split; [by apply Ew|]. split; [lia|done].
  - specialize (Hn e rest eq_refl). destruct Hcd as [He Hcr].
    destruct (Append_view l e rest W) as (l' & _ & -> & W' & V'); [lia|rewrite He; lia|by split; [|rewrite He]|lia|].
    match goal with |- log_wf ?x /\ _ => destruct (cursors_view
      (l <| unstable_ := truncated (unstable_ l) (e :: rest) (e_index e) |>) x) as [Ev Ew] end; [done..|].
    rewrite Ev. split; [by apply Ew|]. rewrite V'. split; [|done].
    rewrite v_replace_last by (rewrite He; lia). lia.
Qed.

Lemma MaybeAppend_run l idx term committed entries :
  log_wf l -> 0 <= committed_ l -> v_dummy (log_view l) <= idx <= v_last (log_view l) ->
  idx + zlen entries < u64max -> contiguous (idx + 1) entries -> Forall (fun e => e_term e <> 0) entries ->
  v_term (log_view l) idx = Ok term ->
  (forall e rest, v_new (log_view l) entries = e :: rest -> committed_ l < e_index e) ->
  MaybeAppend idx term committed entries l =
  Ret (Ok (mkMaybeAppendResult true
             (match v_new (log_view l) entries with [] => 0 | e :: _ => e_index e end)
             (idx + zlen entries)),
       appended l idx committed entries).
Proof.
  intros W Hc0 Hi Hl Hc Ht Hterm Hn. pose proof (view_bounds l W) as Hb.
  destruct (appended_view l idx committed entries W Hc0 Hi Hl Hc Ht Hn) as (W' & Hlast' & _).
  assert (Hu : Forall (fun e => is_u64 (e_index e)) entries).
  { apply Forall_lookup. intros j e Hj. rewrite (contiguous_lookup _ _ _ _ Hc Hj).
    apply lookup_lt_Some in Hj. unfold is_u64, two64, u64max in *. lia. }
  unfold MaybeAppend. rewrite (bind_run (getsO _) _ _ true l).
  2:{ unfold getsO. rewrite MatchTerm_view by (done || unfold is_u64, two64, u64max in *; lia).
      rewrite Hterm. cbn. by rewrite Z.eqb_refl. }
  cbn [negb]. rewrite (bind_run (getsO _) _ _ (match v_new (log_view l) entries with [] => 0 | e :: _ => e_index e end) l)
    by (unfold getsO; by rewrite FindConflict_view by done).
  msteps. rewrite (u64_id (idx + zlen entries)) by (unfold is_u64, two64, u64max in *; lia).
  destruct (v_new_spec (log_view l) (idx + 1) entries Hc Ht) as (k & Hk & Hd & _ & Hlast); [lia|].
  pose proof (contiguous_drop (idx + 1) entries k Hk Hc) as Hcd. rewrite <- Hd in Hcd.
  unfold appended in *. destruct (v_new (log_view l) entries) as [|e rest] eqn:En.
  - cbn [negb andb Z.eqb]. msteps. destruct (cursors_view l
      (l <| committed_ := Z.max (committed_ l) (Z.min committed (idx + zlen entries)) |>)) as [Ev _]; [done..|].
    rewrite Ev in Hlast'. assert (Hm : Z.min committed (idx + zlen entries) <= v_last (log_view l)) by lia.
    rewrite (bind_run _ _ _ _ _ (CommitTo_inside l _ W Hm)). done.
  - specialize (Hn e rest eq_refl). destruct Hcd as [He Hcr].
    assert (Hld : zlen (e :: rest) = zlen entries - Z.of_nat k) by (rewrite Hd, length_drop; lia).
    rewrite (proj2 (Z.eqb_neq _ _)) by lia. cbn [negb andb]. rewrite (proj2 (Z.leb_gt _ _)) by lia.
    u64_simpl. replace (e_index e - (idx + 1)) with (Z.of_nat k) by lia. rewrite Nat2Z.id, <- Hd.
    rewrite (proj2 (Z.ltb_ge _ _)) by lia. msteps.
    destruct (Append_view l e rest W) as (l1 & E1 & -> & W1 & V1); [lia|rewrite He; lia|by split; [|rewrite He]|lia|].
    rewrite (bind_run _ _ _ _ _ E1). msteps.
    match goal with |- bind (CommitTo _) _ ?x = _ => set (l2 := x) end.
    destruct (cursors_view (l <| unstable_ := truncated (unstable_ l) (e :: rest) (e_index e) |>) l2) as [Ev Ew];
      [done..|].
    assert (Hm : Z.min committed (idx + zlen entries) <= v_last (log_view l2)).
    { rewrite Ev, V1, v_replace_last by (rewrite He; lia). lia. }
    rewrite (bind_run _ _ _ _ _ (CommitTo_inside l2 _ (Ew W1) Hm)). done.
Qed.

Lemma MaybeAppend_mismatch l idx term committed entries : log_wf l -> is_u64 idx ->
  v_term (log_view l) idx <> Ok term ->
  MaybeAppend idx term committed entries l = Ret (Ok (mkMaybeAppendResult false 0 0), l).
Proof.
  intros W Hi Hne. unfold MaybeAppend. rewrite (bind_run (getsO _) _ _ false l); [done|].
  unfold getsO. rewrite MatchTerm_view by done. destruct (v_term (log_view l) idx) as [t|]; cbn; [|done].
  rewrite (proj2 (Z.eqb_neq t term)); [done|congruence].
Qed.

Lemma MaybeAppend_conflict l idx term committed entries e rest : log_wf l -> is_u64 idx ->
  Forall (fun e => is_u64 (e_index e)) entries -> v_term (log_view l) idx = Ok term ->
  v_new (log_view l) entries = e :: rest -> 0 < e_index e <= committed_ l ->
  MaybeAppend idx term committed entries l = Ret (Err (EFatal "entry {} conflict with committed entry {}"), l).
Proof.
  intros W Hi Hu Hterm En He. unfold MaybeAppend. rewrite (bind_run (getsO _) _ _ true l).
  2:{ unfold getsO. rewrite MatchTerm_view, Hterm by done. cbn. by rewrite Z.eqb_refl. }
  cbn [negb]. rewrite (bind_run (getsO _) _ _ (e_index e) l)
    by (unfold getsO; by rewrite FindConflict_view, En by done).
  msteps. rewrite (proj2 (Z.eqb_neq _ _)), (proj2 (Z.leb_le _ _)) by lia. done.
Qed.

Lemma v_new_first v entries e rest : v_new v entries = e :: rest ->
  e ∈ entries /\ v_term v (e_index e) <> Ok (e_term e).
Proof.
  induction entries as [|x es IH]; cbn; [done|]. destruct (v_term v (e_index x)) as [t|] eqn:E; cbn.
  - destruct (Z.eqb_spec t (e_term x)).
    + intros En. apply IH in En as [? ?]. split; [by right|done].
    + intros [= -> ->]. split; [by left|]. rewrite E. congruence.
  - intros [= -> ->]. split; [by left|]. by rewrite E.
Qed.

(** Everything in the batch is in the log afterwards. *)
Lemma appended_contains l idx committed entries :
  log_wf l -> 0 <= committed_ l -> v_dummy (log_view l) <= idx <= v_last (log_view l) ->
  idx + zlen entries < u64max -> contiguous (idx + 1) entries -> Forall (fun e => e_term e <> 0) entries ->
  (forall e rest, v_new (log_view l) entries = e :: rest -> committed_ l < e_index e) ->
  (forall i, i <= committed_ l ->
     v_at (log_view (appended l idx committed entries)) i = v_at (log_view l) i) /\
  (forall e, e ∈ entries -> exists e',
     v_at (log_view (appended l idx committed entries)) (e_index e) = Some e' /\ e_term e' = e_term e).
Proof.
  intros W Hc0 Hi Hl Hc Ht Hn.
  destruct (appended_view l idx committed entries W Hc0 Hi Hl Hc Ht Hn) as (_ & _ & ->).
  destruct (v_new_spec (log_view l) (idx + 1) entries Hc Ht) as (k & Hk & Hd & Hm & Hlast); [lia|].
  pose proof (contiguous_drop (idx + 1) entries k Hk Hc) as Hcd. rewrite <- Hd in Hcd.
  assert (Hin : forall e, e ∈ entries -> exists j, entries !! j = Some e /\ e_index e = idx + 1 + Z.of_nat j).
  { intros e He. apply list_elem_of_lookup_1 in He as [j Hj]. exists j. split; [done|].
    by apply (contiguous_lookup _ _ _ _ Hc). }
  destruct (v_new (log_view l) entries) as [|x rest].
  - split; [done|]. intros e He. destruct (Hin e He) as (j & Hj & ->). apply Hm; [|done].
    apply lookup_lt_Some in Hj. apply (f_equal length) in Hd. rewrite length_drop in Hd. cbn in Hd. lia.
  - specialize (Hn x rest eq_refl). destruct Hcd as [Hx _]. split.
    + intros i Hic. apply v_replace_below; [rewrite Hx; lia|lia].
    + intros e He. destruct (Hin e He) as (j & Hj & ->). destruct (Nat.lt_ge_cases j k) as [Hjk|Hjk].
      * rewrite v_replace_below by (rewrite Hx; lia). by apply Hm.
      * exists e. split; [|done].
        replace (idx + 1 + Z.of_nat j) with (e_index x + Z.of_nat (j - k)) by lia.
        rewrite v_replace_above by (rewrite Hx; lia). rewrite Hd, lookup_drop.
        by replace (k + (j - k))%nat with j by lia.
Qed.

(** The new commit index is inside the new log. *)
Lemma appended_committed l idx committed entries :
  log_wf l -> v_dummy (log_view l) <= committed_ l <= v_last (log_view l) ->
  v_dummy (log_view l) <= idx <= v_last (log_view l) ->
  idx + zlen entries < u64max -> contiguous (idx + 1) entries -> Forall (fun e => e_term e <> 0) entries ->
  (forall e rest, v_new (log_view l) entries = e :: rest -> committed_ l < e_index e) ->
  committed_ (appended l idx committed entries) = Z.max (committed_ l) (Z.min committed (idx + zlen entries)) /\
  committed_ (appended l idx committed entries) <= v_last (log_view (appended l idx committed entries)).
Proof.
  intros W Hcm Hi Hl Hc Ht Hn. pose proof (view_bounds l W).
  destruct (appended_view l idx committed entries W ltac:(lia) Hi Hl Hc Ht Hn) as (_ & Hlast & Hv).
  assert (Hcm' : committed_ (appended l idx committed entries) = Z.max (committed_ l) (Z.min committed (idx + zlen entries))).
  { unfold appended. by destruct (v_new (log_view l) entries). }
  split; [done|]. rewrite Hcm'. apply Z.max_lub; [|lia]. rewrite Hv.
  destruct (v_new (log_view l) entries) as [|x rest] eqn:En; [lia|]. specialize (Hn x rest eq_refl).
  destruct (v_new_spec (log_view l) (idx + 1) entries Hc Ht) as (k & Hk & Hd & _ & Hl'); [lia|].
  pose proof (contiguous_drop (idx + 1) entries k Hk Hc) as Hcd. rewrite <- Hd, En in Hcd.
  destruct Hcd as [Hx _]. rewrite v_replace_last by (rewrite Hx; lia). cbn [length]. lia.
Qed.

Lemma v_new_fate v entries c :
  (forall e rest, v_new v entries = e :: rest -> c < e_index e) \/
  exists e rest, v_new v entries = e :: rest /\ e_index e <= c.
Proof.
  destruct (v_new v entries) as [|e rest]; [by left|].
  destruct (Z.lt_ge_cases c (e_index e)); [left|right]; [by intros ? ? [= <- <-]|eauto].
Qed.

(** What a call of [MaybeAppend] does. *)
Definition append_outcome (l : RaftLog S) (idx term committed : Z) (entries : list Entry)
    (r : Result MaybeAppendResult) (l' : RaftLog S) : Prop :=
  match r with
  | Err _ => l' = l /\ exists e, e ∈ entries /\ e_index e <= committed_ l /\
               v_term (log_view l) (e_index e) <> Ok (e_term e)
  | Ok res =>
      if ma_term_matched res then
        log_wf l' /\ v_term (log_view l) idx = Ok term /\ ma_last_index res = idx + zlen entries /\
        (forall i, i <= committed_ l -> v_at (log_view l') i = v_at (log_view l) i) /\
        (forall e, e ∈ entries -> exists e', v_at (log_view l') (e_index e) = Some e' /\ e_term e' = e_term e) /\
        (v_new (log_view l) entries = [] -> log_view l' = log_view l) /\
        committed_ l' = Z.max (committed_ l) (Z.min committed (idx + zlen entries)) /\
        committed_ l' <= v_last (log_view l')
      else l' = l /\ v_term (log_view l) idx <> Ok term
  end.

Lemma MaybeAppend_cases l idx term committed entries :
  log_wf l -> v_dummy (log_view l) <= committed_ l <= v_last (log_view l) ->
  0 <= idx -> idx + zlen entries < u64max -> contiguous (idx + 1) entries ->
  Forall (fun e => e_term e <> 0) entries ->
  (term <> 0 \/ v_dummy (log_view l) <= idx <= v_last (log_view l)) ->
  exists r l', MaybeAppend idx term committed entries l = Ret (r, l') /\
  append_outcome l idx term committed entries r l'.
Proof.
  intros W Hcm Hi Hl Hc Ht Hr. pose proof (view_bounds l W) as Hb.
  assert (Hiu : is_u64 idx) by (unfold is_u64, two64, u64max in *; lia).
  destruct (decide (v_term (log_view l) idx = Ok term)) as [E|E].
  2:{ eexists _, l. rewrite MaybeAppend_mismatch by done. by split. }
  assert (Hin : v_dummy (log_view l) <= idx <= v_last (log_view l)).
  { destruct Hr as [Hr|]; [|done]. by eapply v_term_inside. }
  assert (Hu : Forall (fun e => is_u64 (e_index e)) entries).
  { apply Forall_lookup. intros j e Hj. rewrite (contiguous_lookup _ _ _ _ Hc Hj).
    apply lookup_lt_Some in Hj. unfold is_u64, two64, u64max in *. lia. }
  destruct (v_new_fate (log_view l) entries (committed_ l)) as [Hn|(e & rest & En & He)].
  - eexists _, _. rewrite (MaybeAppend_run l idx term committed entries) by (done || lia). split; [done|].
    cbn [ma_term_matched ma_last_index].
    destruct (appended_view l idx committed entries W ltac:(lia) Hin Hl Hc Ht Hn) as (W' & _ & Hv).
    destruct (appended_contains l idx committed entries W ltac:(lia) Hin Hl Hc Ht Hn) as [Hk Hall].
    destruct (appended_committed l idx committed entries W Hcm Hin Hl Hc Ht Hn) as [Hcm' Hle].
    do 5 (split; [done|]). split; [by intros En; rewrite En in Hv|]. done.
  - apply v_new_first in En as Hf. destruct Hf as [Hel Hne]. assert (0 < e_index e).
    { apply list_elem_of_lookup_1 in Hel as [j Hj]. rewrite (contiguous_lookup _ _ _ _ Hc Hj). lia. }
    eexists _, l. rewrite (MaybeAppend_conflict l idx term committed entries e rest) by (done || lia).
    split; [done|]. split; [done|]. by exists e.
Qed.

(** C16: [MaybeAppend] refuses a batch whose previous entry does not match and
    reports a conflict with a committed entry, changing nothing in both cases;
    otherwise afterwards the log contains the whole batch, every entry up to
    the commit index is untouched, nothing is truncated when the batch was
    already there, and the commit index grows to the leader's one, but not
    past the batch. *)
Theorem MaybeAppend_spec l idx term committed entries :
  log_wf l -> v_dummy (log_view l) <= committed_ l <= v_last (log_view l) ->
  0 <= idx -> idx + zlen entries < u64max -> contiguous (idx + 1) entries ->
  Forall (fun e => e_term e <> 0) entries ->
  (term <> 0 \/ v_dummy (log_view l) <= idx <= v_last (log_view l)) ->
  exists r l', MaybeAppend idx term committed entries l = Ret (r, l') /\
  match r with
  | Err _ => l' = l /\ exists e, e ∈ entries /\ e_index e <= committed_ l /\
               v_term (log_view l) (e_index e) <> Ok (e_term e)
  | Ok res =>
      if ma_term_matched res then
        log_wf l' /\ v_term (log_view l) idx = Ok term /\ ma_last_index res = idx + zlen entries /\
        (forall i, i <= committed_ l -> v_at (log_view l') i = v_at (log_view l) i) /\
        (forall e, e ∈ entries -> exists e', v_at (log_view l') (e_index e) = Some e' /\ e_term e' = e_term e) /\
        (v_new (log_view l) entries = [] -> log_view l' = log_view l) /\
        committed_ l' = Z.max (committed_ l) (Z.min committed (idx + zlen entries)) /\
        committed_ l' <= v_last (log_view l')
      else l' = l /\ v_term (log_view l) idx <> Ok term
  end.
Proof. exact (MaybeAppend_cases l idx term committed entries). Qed.

(** ** Reading *)

Lemma FindConflictByTerm_loop_view l term n : log_wf l ->
  (forall t, v_term (log_view l) 0 = Ok t -> t <= term) ->
  forall i fuel, i = Z.of_nat n -> i < two64 -> (n < fuel)%nat ->
  exists j o, FindConflictByTerm_loop fuel i term l = Ret (j, o) /\ 0 <= j <= i /\
    (forall k, j < k <= i -> exists t, v_term (log_view l) k = Ok t /\ term < t) /\
    match o with
    | Some t => v_term (log_view l) j = Ok t /\ t <= term
    | None => exists e, v_term (log_view l) j = Err e
    end.
Proof.
  intros W H0. induction n as [|n IH]; intros i fuel -> Hi Hf; (destruct fuel as [|fuel]; [lia|]);
    cbn [FindConflictByTerm_loop]; rewrite Term_view by (done || unfold is_u64; lia); cbn [obind].
  - destruct (v_term (log_view l) (Z.of_nat 0)) as [t|e] eqn:E.
    + specialize (H0 t E). rewrite (proj2 (Z.ltb_ge _ _)) by lia. eexists _, _. split; [done|].
      split; [lia|]. split; [intros; lia|done].
    + eexists _, _. split; [done|]. split; [lia|]. split; [intros; lia|]. eauto.
  - destruct (v_term (log_view l) (Z.of_nat (Datatypes.S n))) as [t|e] eqn:E.
    + destruct (Z.ltb_spec term t) as [Ht|Ht].
      * rewrite (u64_id (_ - 1)) by (unfold is_u64; lia).
        replace (Z.of_nat (Datatypes.S n) - 1) with (Z.of_nat n) by lia.
        destruct (IH (Z.of_nat n) fuel eq_refl ltac:(lia) ltac:(lia)) as (j & o & -> & Hj & Hk & Ho).
        exists j, o. split; [done|]. split; [lia|]. split; [|done]. intros k Hjk.
        destruct (Z.eq_dec k (Z.of_nat (Datatypes.S n))) as [->|]; [by exists t|]. apply Hk. lia.
      * eexists _, _. split; [done|]. split; [lia|]. split; [intros; lia|done].
    + eexists _, _. split; [done|]. split; [lia|]. split; [intros; lia|]. eauto.
Qed.

(** [FindConflictByTerm] terminates and returns the largest index up to
    the given one whose term is at most the given term, with that term, or the
    compacted index where the search had to stop; an index past the end of
    the log is returned as it is.  The log has to give index 0 a term that is
    not above the one searched for (it is 0). *)
Theorem FindConflictByTerm_spec l index term : log_wf l -> is_u64 index ->
  (forall t, v_term (log_view l) 0 = Ok t -> t <= term) ->
  exists j o, FindConflictByTerm index term l = Ret (j, o) /\
  if v_last (log_view l) <? index then j = index /\ o = None
  else 0 <= j <= index /\
    (forall k, j < k <= index -> exists t, v_term (log_view l) k = Ok t /\ term < t) /\
    match o with
    | Some t => v_term (log_view l) j = Ok t /\ t <= term
    | None => exists e, v_term (log_view l) j = Err e
    end.
Proof.
  intros W Hi H0. unfold FindConflictByTerm. rewrite LastIndex_view by done. cbn [obind].
  destruct (Z.ltb_spec (v_last (log_view l)) index); [by eexists _, _|].
  apply (FindConflictByTerm_loop_view l term (Z.to_nat index)); try done; unfold is_u64 in *; lia.
Qed.

Lemma NextEntriesSince_view l since max : log_wf l ->
  v_dummy (log_view l) <= committed_ l <= v_last (log_view l) -> 0 <= since < u64max ->
  exists r l', NextEntriesSince since max l = Ret (r, l') /\ same_log l l' /\ log_wf l' /\
  let lo := Z.max since (v_dummy (log_view l)) + 1 in
  let hi := AppliedIndexUpperBound l in
  hi <= committed_ l /\
  match r with
  | Some ents => exists k, (0 < k)%nat /\ ents = take k (v_slice (log_view l) lo (hi + 1)) /\
                   (max = None -> ents = v_slice (log_view l) lo (hi + 1)) /\ lo <= hi
  | None => hi < lo
  end.
Proof.
  intros W Hc Hs. pose proof (view_bounds l W) as Hb. unfold NextEntriesSince.
  rewrite (bind_run (getsO _) _ _ (v_dummy (log_view l) + 1) l) by (unfold getsO; by rewrite FirstIndex_view).
  msteps. cbv zeta. pose proof (u64_range (persisted_ l + max_apply_unpersisted_log_limit_ l)) as Hu. unfold is_u64 in Hu.
  assert (Hh : 0 <= AppliedIndexUpperBound l <= committed_ l) by (unfold AppliedIndexUpperBound; lia).
  set (hi := AppliedIndexUpperBound l) in *. u64_simpl.
  replace (Z.max (since + 1) (v_dummy (log_view l) + 1)) with (Z.max since (v_dummy (log_view l)) + 1) by lia.
  destruct (Z.ltb_spec (Z.max since (v_dummy (log_view l)) + 1) (hi + 1)) as [Hlt|Hge].
  - destruct (Slice_view l (Z.max since (v_dummy (log_view l)) + 1) (hi + 1) max ForGenReady W)
      as (r & l' & E & Hsame & W' & Hr); [lia..|].
    rewrite (bind_run _ _ _ _ _ E). destruct r as [ents|e]; [|by destruct Hr].
    destruct Hr as (k & Hk & Hents & Hn). eexists _, l'. split; [done|]. split; [done|]. split; [done|]. split; [lia|].
    exists k. split; [done|]. split; [done|]. split; [done|lia].
  - eexists _, l. split; [done|]. split; [apply same_log_refl|]. split; [done|]. lia.
Qed.

(** [NextEntriesSince] hands out committed entries only, in order and
    without a gap: a non-empty run that starts right after the given index
    (or after the compacted part) and ends at or before the commit index and
    the bound on applying unpersisted entries; it returns nothing exactly when
    there is no such entry, changes nothing and does not abort. *)
Theorem NextEntriesSince_spec l since max : log_wf l ->
  v_dummy (log_view l) <= committed_ l <= v_last (log_view l) -> 0 <= since < u64max ->
  0 <= persisted_ l + max_apply_unpersisted_log_limit_ l < u64max ->
  exists r l', NextEntriesSince since max l = Ret (r, l') /\ same_log l l' /\
  let lo := Z.max since (v_dummy (log_view l)) + 1 in
  let hi := Z.min (committed_ l) (persisted_ l + max_apply_unpersisted_log_limit_ l) in
  match r with
  | Some ents => exists k, (0 < k)%nat /\ ents = take k (v_slice (log_view l) lo (hi + 1)) /\
                   (max = None -> ents = v_slice (log_view l) lo (hi + 1)) /\ lo <= hi
  | None => hi < lo
  end.
Proof.
  intros W Hc Hs Hp. destruct (NextEntriesSince_view l since max W Hc Hs) as (r & l' & E & Hsame & _ & _ & Hr).
  exists r, l'. split; [done|]. split; [done|]. unfold AppliedIndexUpperBound in Hr.
  rewrite u64_id in Hr by (unfold is_u64, two64, u64max in *; lia). exact Hr.
Qed.

Lemma v_term_last_cases l : log_wf l ->
  LastTerm l = Ret (match v_term (log_view l) (v_last (log_view l)) with Ok t => t | Err _ => 0 end).
Proof.
  intros W. pose proof (view_bounds l W) as Hb. unfold LastTerm. rewrite LastIndex_view by done. cbn [obind].
  rewrite Term_view by (done || unfold is_u64, two64, u64max in *; lia). cbn [obind].
  unfold v_term. destruct (v_at _ _) as [e|]; [done|].
  destruct (_ =? _); [|done]. by destruct (v_dummy_term (log_view l)).
Qed.

(** A log is up to date with respect to ours exactly when its last term
    is larger, or the terms are equal and it is not shorter. *)
Theorem IsUpToDate_spec l last_index term : log_wf l ->
  exists last_term, LastTerm l = Ret last_term /\
  IsUpToDate last_index term l =
  Ret (bool_decide (last_term < term \/ (term = last_term /\ v_last (log_view l) <= last_index))).
Proof.
  intros W. eexists. rewrite v_term_last_cases by done. split; [done|].
  unfold IsUpToDate. rewrite v_term_last_cases, LastIndex_view by done. cbn [obind].
  set (lt := match v_term (log_view l) (v_last (log_view l)) with Ok t => t | Err _ => 0 end).
  destruct (Z.ltb_spec lt term); [rewrite bool_decide_true by lia; done|].
  destruct (Z.eqb_spec term lt).
  - destruct (Z.leb_spec (v_last (log_view l)) last_index);
      [rewrite bool_decide_true by lia|rewrite bool_decide_false by lia]; done.
  - rewrite bool_decide_false by lia. done.
Qed.

(** ** Writing to the storage *)

(** C37: [StableEntries] for the last unstable entry, which the caller names by
    its own index and term, empties the unstable log when the term is below
    2^32 and aborts otherwise: the parameter that receives the term has 32
    bits. *)
Theorem StableEntries_term_width l e : log_wf l -> snapshot_ (unstable_ l) = None ->
  last (entries_ (unstable_ l)) = Some e -> 0 <= e_term e < two64 ->
  if e_term e <? 2 ^ 32 then
    StableEntries (e_index e) (e_term e) l =
    Ret (tt, l <| unstable_ := mkUnstable None [] 0 (e_index e + 1) |>)
  else exists msg, StableEntries (e_index e) (e_term e) l = Abort (Panic msg).
Proof.
  intros W Es Ee Ht. pose proof (view_bounds l W) as Hb.
  assert (Hi : e_index e = v_last (log_view l)).
  { rewrite log_view_last by done. apply (contiguous_last _ _ _ (wf_contiguous _ (lw_unstable l W)) Ee). }
  unfold StableEntries, on_unstable, zoom, Unstable.StableEntries. msteps. rewrite Es, Ee, Z.eqb_refl.
  unfold assert. rewrite bool_decide_true by done. msteps.
  destruct (Z.ltb_spec (e_term e) (2 ^ 32)) as [Hs|Hs].
  - unfold u32. rewrite Z.mod_small, Z.eqb_refl by lia. cbn [negb orb]. msteps.
    rewrite (u64_id (e_index e + 1)) by (unfold is_u64, two64, u64max in *; lia).
    unfold modify. do 2 f_equal. upd_eq. rewrite <- Es. reflexivity.
  - rewrite (proj2 (Z.eqb_neq _ _)); [by eexists|]. unfold u32.
    pose proof (Z.mod_pos_bound (e_term e) (2 ^ 32) ltac:(lia)). lia.
Qed.
End LogProofs.

(** ** Witnesses *)

(** A log over [example_store] (entries 1 to 3 of term 1) with entry 4 of
    term 2 still unstable, committed up to 2. *)
Definition example_log : RaftLog MemoryStorage :=
  mkRaftLog example_store (mkUnstable None [mkEntry EntryNormal 2 4 "d" "" 0] 13 4) 2 3 1 0.

Lemma example_log_wf : log_wf example_log.
Proof.
  constructor; cbn.
  - exact example_store_inv.
  - constructor; cbn; unfold u64max; repeat split; try lia; done.
  - intros _. unfold v_last. cbn. lia.
  - done.
Qed.

Lemma MaybeAppend_spec_witness :
  exists r l', MaybeAppend 3 1 4 [mkEntry EntryNormal 3 4 "x" "" 0; mkEntry EntryNormal 3 5 "y" "" 0] example_log =
    Ret (Ok r, l') /\ ma_term_matched r = true /\ committed_ l' = 4.
Proof.
  destruct (MaybeAppend_spec example_log 3 1 4
    [mkEntry EntryNormal 3 4 "x" "" 0; mkEntry EntryNormal 3 5 "y" "" 0]) as (r & l' & E & Hr).
  - exact example_log_wf.
  - vm_compute. split; discriminate.
  - lia.
  - vm_compute. reflexivity.
  - cbn. repeat split; lia.
  - repeat constructor; discriminate.
  - left. discriminate.
  - vm_compute in E. injection E as <- <-. eexists _, _. split; [vm_compute; reflexivity|].
    split; [reflexivity|]. exact (proj1 (proj2 (proj2 (proj2 (proj2 (proj2 (proj2 Hr))))))).
Defined.

Lemma FindConflictByTerm_spec_witness :
  exists j o, FindConflictByTerm 4 1 example_log = Ret (j, o) /\ 0 <= j <= 4.
Proof.
  destruct (FindConflictByTerm_spec example_log 4 1) as (j & o & E & Hr).
  - exact example_log_wf.
  - vm_compute. split; [discriminate|reflexivity].
  - intros t Ht. vm_compute in Ht. injection Ht as <-. discriminate.
  - exists j, o. split; [exact E|]. exact (proj1 Hr).
Defined.

Lemma NextEntriesSince_spec_witness :
  exists r l', NextEntriesSince 1 None example_log = Ret (r, l') /\ same_log example_log l'.
Proof.
  destruct (NextEntriesSince_spec example_log 1 None) as (r & l' & E & Hs & _).
  - exact example_log_wf.
  - vm_compute. split; discriminate.
  - vm_compute. split; [discriminate|reflexivity].
  - vm_compute. split; [discriminate|reflexivity].
  - exists r, l'. split; [exact E|exact Hs].
Defined.

Lemma IsUpToDate_spec_witness :
  exists last_term, LastTerm example_log = Ret last_term /\
    IsUpToDate 4 2 example_log =
    Ret (bool_decide (last_term < 2 \/ (2 = last_term /\ v_last (log_view example_log) <= 4))).
Proof. apply (IsUpToDate_spec example_log 4 2). exact example_log_wf. Defined.

(** The same log with an entry of term 2^32. *)
Definition wide_term_log : RaftLog MemoryStorage :=
  example_log <| unstable_ := mkUnstable None [mkEntry EntryNormal 4294967296 4 "d" "" 0] 13 4 |>.

Lemma StableEntries_term_width_witness :
  exists msg, StableEntries 4 4294967296 wide_term_log = Abort (Panic msg).
Proof.
  apply (StableEntries_term_width wide_term_log (mkEntry EntryNormal 4294967296 4 "d" "" 0)).
  - constructor; cbn.
    + exact example_store_inv.
    + constructor; cbn; unfold u64max; repeat split; try lia; done.
    + intros _. unfold v_last. cbn. lia.
    + done.
  - reflexivity.
  - reflexivity.
  - vm_compute. split; [discriminate|reflexivity].
Defined.
