(* ===== verification/RaftCore.v ===== *)
(** * The core of a node and the sending of log entries

    Model of [lib/core/raft_core.cc]: the state every role has, and the
    functions that build append and snapshot messages.  They take the
    progress of the receiver and the outgoing messages by reference; here the
    three objects are the parts of a [SendCtx]. *)

From S2P Require Import Prelude Types Util Inflights Storage Unstable ReadOnly Config RaftLog Progress.

Inductive StateRole := Follower | Candidate | Leader | PreCandidate.

#[export] Instance StateRole_eq_dec : EqDecision StateRole.
Proof. solve_decision. Defined.

Record SoftState := mkSoftState {
  ss_leader_id : Z;
  ss_raft_state : StateRole
}.
#[export] Instance SoftState_eq_dec : EqDecision SoftState.
Proof. solve_decision. Defined.

Record UncommittedState := mkUncommittedState {
  max_uncommitted_size : Z;
  uncommitted_size : Z;
  last_log_tail_index : Z
}.
#[export] Instance UncommittedState_eta : Eta UncommittedState := fun u =>
  mkUncommittedState (max_uncommitted_size u) (uncommitted_size u) (last_log_tail_index u).

Record RaftCore (S : Type) := mkRaftCore {
  term_ : Z;
  vote_ : Z;
  id_ : Z;
  read_states_ : list ReadState;
  raft_log_ : RaftLog S;
  max_inflight_ : Z;
  max_message_size_ : Z;
  pending_request_snapshot_ : Z;
  state_ : StateRole;
  promotable_ : bool;
  leader_id_ : Z;
  lead_transferee_ : option Z;
  pending_conf_index_ : Z;
  read_only_ : ReadOnly;
  election_elapsed_ : Z;
  heartbeat_elapsed_ : Z;
  check_quorum_ : bool;
  pre_vote_ : bool;
  skip_broadcast_commit_ : bool;
  batch_append_ : bool;
  disable_proposal_forwarding_ : bool;
  heartbeat_timeout_ : Z;
  election_timeout_ : Z;
  randomized_election_timeout_ : Z;
  min_election_timeout_ : Z;
  max_election_timeout_ : Z;
  priority_ : Z;
  uncommitted_state_ : UncommittedState;
  max_committed_size_per_ready_ : Z
}.
Arguments mkRaftCore {S}.
Arguments term_ {S}. Arguments vote_ {S}. Arguments id_ {S}. Arguments read_states_ {S}.
Arguments raft_log_ {S}. Arguments max_inflight_ {S}. Arguments max_message_size_ {S}.
Arguments pending_request_snapshot_ {S}. Arguments state_ {S}. Arguments promotable_ {S}.
Arguments leader_id_ {S}. Arguments lead_transferee_ {S}. Arguments pending_conf_index_ {S}.
Arguments read_only_ {S}. Arguments election_elapsed_ {S}. Arguments heartbeat_elapsed_ {S}.
Arguments check_quorum_ {S}. Arguments pre_vote_ {S}. Arguments skip_broadcast_commit_ {S}.
Arguments batch_append_ {S}. Arguments disable_proposal_forwarding_ {S}.
Arguments heartbeat_timeout_ {S}. Arguments election_timeout_ {S}.
Arguments randomized_election_timeout_ {S}. Arguments min_election_timeout_ {S}.
Arguments max_election_timeout_ {S}. Arguments priority_ {S}. Arguments uncommitted_state_ {S}.
Arguments max_committed_size_per_ready_ {S}.
#[export] Instance RaftCore_eta S : Eta (RaftCore S) := fun c =>
  mkRaftCore (term_ c) (vote_ c) (id_ c) (read_states_ c) (raft_log_ c) (max_inflight_ c)
    (max_message_size_ c) (pending_request_snapshot_ c) (state_ c) (promotable_ c) (leader_id_ c)
    (lead_transferee_ c) (pending_conf_index_ c) (read_only_ c) (election_elapsed_ c)
    (heartbeat_elapsed_ c) (check_quorum_ c) (pre_vote_ c) (skip_broadcast_commit_ c)
    (batch_append_ c) (disable_proposal_forwarding_ c) (heartbeat_timeout_ c) (election_timeout_ c)
    (randomized_election_timeout_ c) (min_election_timeout_ c) (max_election_timeout_ c)
    (priority_ c) (uncommitted_state_ c) (max_committed_size_per_ready_ c).

(** The node, the progress of the receiver and the outgoing messages. *)
Record SendCtx (S : Type) := mkSendCtx {
  sc_core : RaftCore S;
  sc_pr : Progress;
  sc_messages : list Message
}.
Arguments mkSendCtx {S}.
Arguments sc_core {S}.
Arguments sc_pr {S}.
Arguments sc_messages {S}.
#[export] Instance SendCtx_eta S : Eta (SendCtx S) := fun c =>
  mkSendCtx (sc_core c) (sc_pr c) (sc_messages c).

(** ** Uncommitted size *)

Definition IsNoLimit (u : UncommittedState) : bool := max_uncommitted_size u =? u64max.

Definition data_size (entries : list Entry) : Z :=
  foldl (fun size e => size +! slen (e_data e)) 0 entries.

Definition MaybeIncreaseUncommittedSize (entries : list Entry) : M UncommittedState bool :=
  let! u := get in
  if IsNoLimit u then ret true
  else
    let size := data_size entries in
    if (size =? 0) || (uncommitted_size u =? 0) ||
       ((size +! uncommitted_size u) <=? max_uncommitted_size u) then
      set! uncommitted_size := (uncommitted_size u +! size) ;;;
      ret true
    else ret false.

Definition MaybeReduceUncommittedSize (entries : list Entry) : M UncommittedState bool :=
  let! u := get in
  if IsNoLimit u || bool_decide (entries = []) then ret true
  else
    let size := data_size (filter (fun e => last_log_tail_index u < e_index e) entries) in
    if uncommitted_size u <? size then
      set! uncommitted_size := 0 ;;;
      ret false
    else
      set! uncommitted_size := (uncommitted_size u -! size) ;;;
      ret true.

Section RaftCore.
Context {ENV : Env} {S : Type} {ST : Storage S}.

(** The constructor. *)
Definition new (config : Config) (store : S) : outcome (RaftCore S) :=
  let? log := RaftLog.new config store in
  Ret {| term_ := 0; vote_ := 0; id_ := c_id config; read_states_ := []; raft_log_ := log;
         max_inflight_ := c_max_inflight_messages config;
         max_message_size_ := c_max_size_per_message config;
         pending_request_snapshot_ := kInvalidIndex; state_ := Follower; promotable_ := false;
         leader_id_ := 0; lead_transferee_ := None; pending_conf_index_ := 0;
         read_only_ := ReadOnly.new (c_read_only_option config);
         election_elapsed_ := 0; heartbeat_elapsed_ := 0;
         check_quorum_ := c_check_quorum config; pre_vote_ := c_pre_vote config;
         skip_broadcast_commit_ := c_skip_broadcast_commit config;
         batch_append_ := c_batch_append config;
         disable_proposal_forwarding_ := c_disable_proposal_forwarding config;
         heartbeat_timeout_ := c_heartbeat_tick config; election_timeout_ := c_election_tick config;
         randomized_election_timeout_ := 0; min_election_timeout_ := MinElectionTick config;
         max_election_timeout_ := MaxElectionTick config; priority_ := 0;
         uncommitted_state_ := mkUncommittedState (c_max_uncommitted_size config) 0 0;
         max_committed_size_per_ready_ := c_max_committed_size_per_ready config |}.

Definition on_pr {A} (m : M Progress A) : M (SendCtx S) A :=
  zoom sc_pr (fun p c => c <| sc_pr := p |>) m.

Definition on_core_log {A} (m : M (RaftLog S) A) : M (SendCtx S) A :=
  zoom (fun c => raft_log_ (sc_core c))
    (fun l c => c <| sc_core := (sc_core c) <| raft_log_ := l |> |>) m.

(** The first append message for [to] takes the entries if they continue it;
    [None] when there is no such message or they do not.  The second component
    is the last index of the enlarged batch. *)
Fixpoint batch_into (to committed : Z) (entries : list Entry) (messages : list Message) :
    option (list Message * option Z) :=
  match messages with
  | [] => None
  | msg :: rest =>
      if mt_eqb (m_type msg) MsgAppend && (m_to msg =? to) then
        match last entries with
        | Some e =>
            if negb (IsContinuousEntries msg entries) then None
            else Some (msg <| m_entries := m_entries msg ++ entries |> <| m_commit := committed |> :: rest,
                       Some (e_index e))
        | None => Some (msg <| m_commit := committed |> :: rest, None)
        end
      else match batch_into to committed entries rest with
           | Some (rest', x) => Some (msg :: rest', x)
           | None => None
           end
  end.

Definition TryBatching (to : Z) (entries : list Entry) : M (SendCtx S) bool :=
  let! c := get in
  match batch_into to (committed_ (raft_log_ (sc_core c))) entries (sc_messages c) with
  | None => ret false
  | Some (messages, last_idx) =>
      match last_idx with
      | Some last_idx => on_pr (UpdateState last_idx)
      | None => ret tt
      end ;;;
      set! sc_messages := messages ;;;
      ret true
  end.

Definition PrepareSendEntries (message : Message) (term : Z) (entries : list Entry) : M (SendCtx S) Message :=
  let! c := get in
  let message := message <| m_type := MsgAppend |> <| m_index := next_idx_ (sc_pr c) -! 1 |>
    <| m_log_term := term |> <| m_entries := entries |>
    <| m_commit := committed_ (raft_log_ (sc_core c)) |> in
  match last entries with
  | Some e => on_pr (UpdateState (e_index e))
  | None => ret tt
  end ;;;
  ret message.

(** The message as [Send] queues it. *)
Definition stamp (c : RaftCore S) (m : Message) : outcome Message :=
  let m := if m_from m =? kInvalidId then m <| m_from := id_ c |> else m in
  let? m :=
    match m_type m with
    | MsgRequestPreVote | MsgRequestPreVoteResponse | MsgRequestVote | MsgRequestVoteResponse =>
        if m_term m =? 0 then Abort (Panic "term should be set when sending {:d}") else Ret m
    | _ =>
        if negb (m_term m =? 0) then Abort (Panic "term should not be set when sending {:d} (was {})")
        else if negb (mt_eqb (m_type m) MsgPropose) && negb (mt_eqb (m_type m) MsgReadIndex) then
          Ret (m <| m_term := term_ c |>)
        else Ret m
    end in
  Ret (if mt_eqb (m_type m) MsgRequestVote || mt_eqb (m_type m) MsgRequestPreVote
       then m <| m_priority := priority_ c |> else m).

Definition Send (m : Message) : M (SendCtx S) unit :=
  let! m := getsO (fun c => stamp (sc_core c) m) in
  modify (fun c => c <| sc_messages := sc_messages c ++ [m] |>).

(** [None] is the return value [false]. *)
Definition PrepareSendSnapshot (m : Message) (to : Z) : M (SendCtx S) (option Message) :=
  let! c := get in
  if negb (recent_active_ (sc_pr c)) then ret None
  else
    let m := m <| m_type := MsgSnapshot |> in
    let! snapshot_r := on_core_log (RaftLog.GetSnapshot (Progress.pending_request_snapshot_ (sc_pr c)) to) in
    match snapshot_r with
    | Err e =>
        if is_storage e SnapshotTemporarilyUnavailable then ret None
        else abort (Panic "unexpected error: {}")
    | Ok snapshot =>
        if sn_index snapshot =? 0 then abort (Panic "need non-empty snapshot")
        else
          on_pr (BecomeSnapshot (sn_index snapshot)) ;;;
          ret (Some (m <| m_snapshot := snapshot |>))
    end.

Definition MaybeSendAppend (to : Z) (allow_empty : bool) : M (SendCtx S) bool :=
  let! c := get in
  if IsPaused (sc_pr c) then ret false
  else
    let m := empty_message <| m_to := to |> in
    let send_snapshot :=
      (let! r := PrepareSendSnapshot m to in
       match r with
       | None => ret false
       | Some m => Send m ;;; ret true
       end) in
    if negb (Progress.pending_request_snapshot_ (sc_pr c) =? kInvalidIndex) then send_snapshot
    else
      let ctx := ForSendAppend to (term_ (sc_core c)) (negb allow_empty) in
      let! ents := on_core_log (GetEntries (next_idx_ (sc_pr c)) (Some (max_message_size_ (sc_core c))) ctx) in
      if negb allow_empty && match ents with Ok [] | Err _ => true | _ => false end then ret false
      else
        let! term_r := getsO (fun c => Term (next_idx_ (sc_pr c) -! 1) (raft_log_ (sc_core c))) in
        match term_r, ents with
        | Ok term, Ok ents =>
            let! batched := (if batch_append_ (sc_core c) then TryBatching to ents else ret false) in
            if batched then ret true
            else
              let! m := PrepareSendEntries m term ents in
              Send m ;;;
              ret true
        | _, Err e =>
            if is_storage e LogTemporarilyUnavailable then ret false else send_snapshot
        | _, _ => send_snapshot
        end.

Definition SendAppend (to : Z) : M (SendCtx S) unit :=
  MaybeSendAppend to true ;;; ret tt.

(** Every round that goes on puts a message into the inflights window or
    pauses the progress. *)
Definition SendAppendAggressively (to : Z) : M (SendCtx S) unit :=
  fun c => whileM (Z.to_nat (capacity_ (inflights_ (sc_pr c))) + 2) (MaybeSendAppend to false) c.
End RaftCore.
