(* ===== verification/RaftSend.v ===== *)
(** * Sending log entries

    Properties of [lib/core/raft_core.cc]: an append message is a piece of the
    sender's log, sending changes nothing of the log, and the loop that fills
    a peer's inflights window ends. *)

From S2P Require Import Prelude Types Util Inflights Progress Storage MemStorage Unstable ReadOnly Config RaftLog RaftLogProps RaftCore.

Section SendProofs.
Context {ENV : Env} {S : Type} {ST : Storage S} {SL : StorageLaws S}.
Implicit Types l : RaftLog S.

(** Reads leave the log as it is, up to the storage's own bookkeeping. *)
Definition reads (l l' : RaftLog S) : Prop := log_wf l -> same_log l l' /\ log_wf l'.

Lemma same_log_trans l1 l2 l3 : same_log l1 l2 -> same_log l2 l3 -> same_log l1 l3.
Proof. unfold same_log. intros (?&?&?&?&?&?) (?&?&?&?&?&?). repeat split; congruence. Qed.

#[export] Instance reads_preorder : PreOrder reads.
Proof.
  split.
  - intros l W. split; [apply same_log_refl|done].
  - intros l1 l2 l3 H1 H2 W. destruct (H1 W) as [S1 W1]. destruct (H2 W1) as [S2 W2].
    split; [by eapply same_log_trans|done].
Qed.

Lemma MustCheckOutOfBounds_Ok l lo hi : log_wf l -> MustCheckOutOfBounds lo hi l = Ret (Ok tt) ->
  v_dummy (log_view l) < lo /\ lo <= hi <= v_last (log_view l) + 1.
Proof.
  intros W. unfold MustCheckOutOfBounds. pose proof (view_bounds l W).
  destruct (Z.ltb_spec hi lo); [discriminate|]. rewrite FirstIndex_view, LastIndex_view by done.
  cbn [obind]. destruct (Z.ltb_spec lo (v_dummy (log_view l) + 1)); [discriminate|]. u64_simpl.
  destruct (Z.ltb_spec (v_dummy (log_view l) + 1 + (v_last (log_view l) + 1 - (v_dummy (log_view l) + 1))) hi);
    [discriminate|]. lia.
Qed.

Lemma Slice_reads lo hi max ctx : pres reads (Slice lo hi max ctx).
Proof.
  intros l r l' E W. unfold Slice in E. apply bind_Ret in E as (b & l0 & Eb & E).
  apply getsO_Ret in Eb as (b' & Eb & [= -> ->]). destruct b' as [[]|e].
  2:{ injection E as <- <-. split; [apply same_log_refl|done]. }
  pose proof (MustCheckOutOfBounds_Ok _ _ _ W Eb) as Hb. destruct (Z.eqb_spec lo hi) as [->|Hne].
  { injection E as <- <-. split; [apply same_log_refl|done]. }
  destruct (Slice_view l lo hi max ctx W ltac:(lia) ltac:(lia)) as (r' & l2 & E2 & Hs & W2 & _).
  assert (Ret (r, l') = Ret (r', l2)) as [= -> ->]; [|done].
  rewrite <- E2, <- E. unfold Slice. rewrite (bind_run (getsO _) _ _ (Ok tt) l) by (unfold getsO; by rewrite Eb).
  cbv beta iota. by rewrite (proj2 (Z.eqb_neq lo hi) Hne).
Qed.

Lemma GetEntries_reads idx max ctx : pres reads (GetEntries idx max ctx).
Proof. unfold GetEntries. auto using Slice_reads with pres typeclass_instances. Qed.

Lemma GetSnapshot_reads request to : pres reads (RaftLog.GetSnapshot request to).
Proof.
  assert (H : pres reads (on_store (S := S) (Storage.GetSnapshot request to))).
  { apply pres_zoom. intros l s r E W. pose proof W as [Wi _ _ _].
    destruct (st_snapshot _ _ _ _ _ Wi E) as (Hi & Hv & _).
    assert (Hs : same_log l (l <| store_ := s |>)) by (repeat split; exact Hv).
    split; [done|]. by eapply same_log_wf. }
  unfold RaftLog.GetSnapshot. apply pres_bind; [typeclasses eauto|apply pres_get; typeclasses eauto|].
  intros l0. destruct (snapshot_ (unstable_ l0)); [|done].
  apply pres_if; [apply pres_ret; typeclasses eauto|done].
Qed.

(** ** The frame of a send

    Sending reads the log, moves the progress of the receiver and queues
    messages. *)

Definition sends (c c' : SendCtx S) : Prop :=
  log_wf (raft_log_ (sc_core c)) ->
  exists l', sc_core c' = (sc_core c) <| raft_log_ := l' |> /\
    same_log (raft_log_ (sc_core c)) l' /\ log_wf l' /\
    matched_ (sc_pr c') = matched_ (sc_pr c).

#[export] Instance sends_preorder : PreOrder sends.
Proof.
  split.
  - intros c W. exists (raft_log_ (sc_core c)). split; [by destruct c as [[]]|]. split; [apply same_log_refl|done].
  - intros c1 c2 c3 H1 H2 W. destruct (H1 W) as (l2 & E2 & S2 & W2 & M2).
    destruct H2 as (l3 & E3 & S3 & W3 & M3); [by rewrite E2|].
    exists l3. rewrite E2 in E3, S3. split; [by rewrite E3|]. split; [by eapply same_log_trans|]. split; [done|congruence].
Qed.

Lemma sends_log {A} (m : M (RaftLog S) A) : pres reads m -> pres sends (on_core_log m).
Proof.
  intros Hm. apply pres_zoom. intros c l' a E W. destruct (Hm _ _ _ E W). exists l'. done.
Qed.

Lemma sends_pr {A} (m : M Progress A) : pres (fun p p' => matched_ p' = matched_ p) m -> pres sends (on_pr m).
Proof.
  intros Hm. apply pres_zoom. intros c p' a E W. exists (raft_log_ (sc_core c)).
  split; [by destruct c as [[]]|]. split; [apply same_log_refl|]. split; [done|]. by apply Hm in E.
Qed.

Lemma sends_messages (f : list Message -> list Message) :
  pres sends (modify (fun c : SendCtx S => c <| sc_messages := f (sc_messages c) |>)).
Proof.
  apply pres_modify. intros c W. exists (raft_log_ (sc_core c)).
  split; [by destruct c as [[]]|]. split; [apply same_log_refl|done].
Qed.

(** ** What a send does to the progress *)

Definition keeps_matched (p p' : Progress) : Prop := matched_ p' = matched_ p.

#[export] Instance keeps_matched_preorder : PreOrder keeps_matched.
Proof. split; [done|]. unfold keeps_matched. intros ???. congruence. Qed.

Lemma on_inflights_matched {A} (m : M Inflights A) : pres keeps_matched (on_inflights m).
Proof. apply pres_zoom. done. Qed.

Ltac matched_leaf := first [apply on_inflights_matched | apply pres_modify; done].

Lemma UpdateState_matched last : pres keeps_matched (UpdateState last).
Proof. unfold UpdateState, Pause, OptimisticUpdate. pres_tac matched_leaf. Qed.

Lemma BecomeSnapshot_matched i : pres keeps_matched (BecomeSnapshot i).
Proof. unfold BecomeSnapshot, ResetState. pres_tac matched_leaf. Qed.

Lemma Send_sends m : pres sends (Send m).
Proof. unfold Send. pres_tac ltac:(apply (sends_messages (fun ms => ms ++ [_]))). Qed.

Ltac send_leaf :=
  first [ apply sends_log | apply GetEntries_reads | apply GetSnapshot_reads
        | apply sends_pr | apply UpdateState_matched | apply BecomeSnapshot_matched
        | apply Send_sends | apply (sends_messages (fun _ => _)) ].

Lemma PrepareSendSnapshot_sends m to : pres sends (PrepareSendSnapshot m to).
Proof. unfold PrepareSendSnapshot. pres_tac send_leaf. Qed.

Lemma TryBatching_sends to entries : pres sends (TryBatching to entries).
Proof. unfold TryBatching. pres_tac send_leaf. Qed.

Lemma PrepareSendEntries_sends m term entries : pres sends (PrepareSendEntries m term entries).
Proof. unfold PrepareSendEntries. pres_tac send_leaf. Qed.

Lemma MaybeSendAppend_sends to allow_empty : pres sends (MaybeSendAppend to allow_empty).
Proof.
  unfold MaybeSendAppend.
  pres_tac ltac:(first [ apply PrepareSendSnapshot_sends | apply TryBatching_sends
                       | apply PrepareSendEntries_sends | send_leaf ]).
Qed.

Lemma SendAppend_sends to : pres sends (SendAppend to).
Proof. unfold SendAppend. pres_tac ltac:(apply MaybeSendAppend_sends). Qed.

Lemma SendAppendAggressively_sends to : pres sends (SendAppendAggressively to).
Proof.
  intros c a c' E. eapply (pres_while sends _ (MaybeSendAppend to false)); [apply MaybeSendAppend_sends|exact E].
Qed.

(** ** An append message is a piece of the log *)

Definition from_log (v : LogView) (m : Message) : Prop :=
  m_type m = MsgAppend ->
  v_dummy v <= m_index m /\ m_index m + zlen (m_entries m) <= v_last v /\
  v_term v (m_index m) = Ok (m_log_term m) /\
  m_entries m = v_slice v (m_index m + 1) (m_index m + 1 + zlen (m_entries m)).

Lemma take_v_slice_len v lo hi k : take k (v_slice v lo hi) = v_slice v lo (lo + zlen (take k (v_slice v lo hi))).
Proof.
  unfold v_slice. set (x := drop _ _). rewrite !take_take, length_take.
  generalize (k `min` Z.to_nat (hi - lo))%nat as n. intros n.
  destruct (Nat.le_ge_cases n (length x)) as [Hk|Hk].
  - rewrite Nat.min_l by done. f_equal. lia.
  - rewrite Nat.min_r by done. rewrite !take_ge by lia. done.
Qed.

Lemma GetEntries_slice l idx max ctx ents l' : log_wf l -> 0 < idx <= v_last (log_view l) + 1 ->
  GetEntries idx max ctx l = Ret (Ok ents, l') ->
  v_dummy (log_view l) < idx /\ idx + zlen ents <= v_last (log_view l) + 1 /\
  ents = v_slice (log_view l) idx (idx + zlen ents).
Proof.
  intros W Hi E. pose proof (view_bounds l W) as Hb. unfold GetEntries in E.
  rewrite (bind_run (getsO _) _ _ (v_last (log_view l)) l) in E by (unfold getsO; by rewrite LastIndex_view).
  destruct (Z.ltb_spec (v_last (log_view l)) idx) as [Hl|Hl].
  { injection E as <- <-. cbn. split; [lia|]. split; [lia|]. symmetry. apply v_slice_nil. lia. }
  rewrite u64_id in E by u64_lia.
  assert (Hd : v_dummy (log_view l) < idx).
  { unfold Slice in E. apply bind_Ret in E as (b & l0 & Eb & E). apply getsO_Ret in Eb as (b' & Eb & [= -> ->]).
    destruct b' as [[]|]; [|discriminate]. apply MustCheckOutOfBounds_Ok in Eb; [lia|done]. }
  assert (Hr1 : v_dummy (log_view l) < idx < v_last (log_view l) + 1) by lia.
  destruct (Slice_view l idx (v_last (log_view l) + 1) max ctx W Hr1 (Z.le_refl _)) as (r & l2 & E2 & _ & _ & Hr).
  rewrite E2 in E. injection E as -> <-. destruct Hr as (k & _ & Hk & _).
  assert (Hlen : zlen (v_slice (log_view l) idx (v_last (log_view l) + 1)) = v_last (log_view l) + 1 - idx)
    by (apply v_slice_length; lia).
  split; [done|]. rewrite Hk. split; [rewrite length_take; lia|apply take_v_slice_len].
Qed.

Lemma v_slice_last v lo n e : view_wf v -> v_dummy v < lo -> lo + n <= v_last v + 1 ->
  last (v_slice v lo (lo + n)) = Some e -> e_index e = lo + n - 1.
Proof.
  intros W Hlo Hn E. rewrite last_lookup in E.
  assert (Hlt : (0 < length (v_slice v lo (lo + n)))%nat).
  { destruct (v_slice v lo (lo + n)); [done|cbn; lia]. }
  assert (Hl : 0 < n). { destruct (Z.lt_ge_cases 0 n); [done|]. rewrite v_slice_nil in Hlt by lia. cbn in Hlt. lia. }
  pose proof (v_slice_length v lo (lo + n) ltac:(lia) ltac:(lia) ltac:(lia)) as Hlen.
  rewrite v_slice_lookup in E by lia. apply v_at_index in E; [lia|done].
Qed.

Lemma v_slice_first v lo n e rest : view_wf v -> v_dummy v < lo -> lo + n <= v_last v + 1 ->
  v_slice v lo (lo + n) = e :: rest -> e_index e = lo.
Proof.
  intros W Hlo Hn E. assert (E0 : v_slice v lo (lo + n) !! 0%nat = Some e) by by rewrite E.
  assert (0 < n). { destruct (Z.lt_ge_cases 0 n); [done|]. rewrite v_slice_nil in E by lia. done. }
  rewrite v_slice_lookup in E0 by lia. apply v_at_index in E0; [lia|done].
Qed.

(** A message with entries that follow it. *)
Lemma from_log_extend v m entries next commit : view_wf v -> from_log v m ->
  (m_entries m = [] -> m_index m + 1 = next) ->
  v_dummy v < next -> next + zlen entries <= v_last v + 1 ->
  entries = v_slice v next (next + zlen entries) -> IsContinuousEntries m entries = true ->
  from_log v (m <| m_entries := m_entries m ++ entries |> <| m_commit := commit |>).
Proof.
  intros W Hm He Hn Hl Hs Hc Ht. destruct (Hm Ht) as (Hd & Hle & Hterm & Hent). cbn in *.
  destruct entries as [|e rest].
  { rewrite app_nil_r. done. }
  assert (Hnext : next = m_index m + zlen (m_entries m) + 1).
  { destruct (last (m_entries m)) as [x|] eqn:Ex.
    - unfold IsContinuousEntries in Hc. rewrite Ex in Hc. apply Z.eqb_eq in Hc.
      rewrite Hent in Ex. apply v_slice_last in Ex; [|done|lia|lia].
      symmetry in Hs. apply v_slice_first in Hs; [|done|lia|cbn in *; lia].
      rewrite u64_id in Hc; [lia|]. pose proof (vw_last v W). pose proof (vw_dummy v W). unfold is_u64, two64, u64max in *. lia.
    - apply last_None in Ex. rewrite Ex. cbn. specialize (He Ex). lia. }
  rewrite length_app. split; [done|]. split; [lia|]. split; [done|].
  rewrite (v_slice_split v _ (m_index m + 1 + zlen (m_entries m))) by lia.
  rewrite <- Hent. f_equal. rewrite Hs at 1. f_equal; lia.
Qed.

Lemma batch_into_from_log v to committed entries messages messages' last_idx next : view_wf v ->
  Forall (from_log v) messages ->
  Forall (fun m => m_type m = MsgAppend -> m_to m = to -> m_entries m = [] -> m_index m + 1 = next) messages ->
  v_dummy v < next -> next + zlen entries <= v_last v + 1 ->
  entries = v_slice v next (next + zlen entries) ->
  batch_into to committed entries messages = Some (messages', last_idx) ->
  Forall (from_log v) messages'.
Proof.
  intros W Hf He Hn Hl Hs. revert messages'. induction messages as [|m ms IH]; intros messages' E; cbn in E; [done|].
  apply Forall_cons in Hf as [Hm Hf]. apply Forall_cons in He as [He He'].
  destruct (mt_eqb (m_type m) MsgAppend && (m_to m =? to)) eqn:Ek.
  - apply andb_true_iff in Ek as [Ek1 Ek2]. apply bool_decide_eq_true in Ek1. apply Z.eqb_eq in Ek2.
    destruct (last entries) as [e|].
    + destruct (IsContinuousEntries m entries) eqn:Ec; [|done]. injection E as <- _.
      constructor; [|done]. apply (from_log_extend v m entries next); auto.
    + injection E as <- _. constructor; [|done]. intros Ht. exact (Hm Ht).
  - destruct (batch_into to committed entries ms) as [[ms' x]|] eqn:Eb; [|done]. injection E as <- ->.
    constructor; [done|]. eapply IH; eauto.
Qed.

(** [Send] fills in the sender, the term and the priority. *)
Lemma stamp_Ret (core : RaftCore S) m m' : stamp core m = Ret m' ->
  exists from term priority, m' = m <| m_from := from |> <| m_term := term |> <| m_priority := priority |> /\
    (from = m_from m \/ from = id_ core) /\
    (term = m_term m \/ m_term m = 0 /\ term = term_ core) /\
    (m_type m <> MsgRequestVote -> m_type m <> MsgRequestPreVote -> priority = m_priority m).
Proof.
  intros E. unfold stamp in E. set (m0 := if m_from m =? kInvalidId then _ else m) in E.
  assert (H0 : exists from, m0 = m <| m_from := from |> /\ (from = m_from m \/ from = id_ core)).
  { subst m0. destruct (m_from m =? kInvalidId); [by eexists; eauto|]. exists (m_from m). by destruct m; auto. }
  destruct H0 as (from & E0 & Hf). rewrite E0 in E. clear m0 E0. apply obind_Ret in E as (m1 & E1 & E). injection E as <-.
  assert (H1 : exists term, m1 = m <| m_from := from |> <| m_term := term |> /\
    (term = m_term m \/ m_term m = 0 /\ term = term_ core)).
  { cbn in E1. destruct (Z.eqb_spec (m_term m) 0) as [H0|H0]; cbn in E1.
    - destruct (m_type m) eqn:Et; try discriminate E1; rewrite ?Et in E1; cbn in E1;
        injection E1 as <-;
        first [exists (term_ core); split; [reflexivity|by auto] | exists (m_term m); split; [by destruct m|by auto]].
    - destruct (m_type m); try discriminate E1; injection E1 as <-; exists (m_term m); (split; [|by auto]); by destruct m. }
  destruct H1 as (term & -> & Ht). exists from, term. destruct (mt_eqb _ _ || mt_eqb _ _) eqn:Ev.
  - exists (priority_ core). split; [done|]. split; [done|]. split; [done|]. intros H1 H2.
    cbn in Ev. apply orb_true_iff in Ev as [Ev|Ev]; apply bool_decide_eq_true in Ev; contradiction.
  - exists (m_priority m). split; [by destruct m|]. done.
Qed.

Lemma Send_run m (c : SendCtx S) a c' : Send m c = Ret (a, c') ->
  exists m', stamp (sc_core c) m = Ret m' /\ c' = c <| sc_messages := sc_messages c ++ [m'] |>.
Proof. unfold Send. intros E. mdestr. eauto. Qed.

Lemma PrepareSendSnapshot_run m to (c : SendCtx S) r c' : PrepareSendSnapshot m to c = Ret (r, c') ->
  sc_messages c' = sc_messages c /\
  match r with Some m' => exists s, m' = m <| m_type := MsgSnapshot |> <| m_snapshot := s |> | None => True end.
Proof.
  unfold PrepareSendSnapshot. intros E. rewrite bind_get in E.
  destruct (negb _); [by injection E as <- <-|]. apply bind_Ret in E as (res & c1 & E1 & E).
  assert (Hm : sc_messages c1 = sc_messages c).
  { unfold on_core_log in E1. by apply zoom_Ret in E1 as (? & ? & _ & [= _ ->]). }
  destruct res as [s|e].
  - destruct (sn_index s =? 0); [discriminate|]. apply bind_Ret in E as (? & c2 & E2 & E).
    unfold on_pr in E2. apply zoom_Ret in E2 as (? & ? & _ & [= _ ->]). injection E as <- <-.
    split; [done|]. by exists s.
  - destruct (is_storage _ _); [|discriminate]. by injection E as <- <-.
Qed.

Lemma on_pr_messages {A} (m : M Progress A) (c : SendCtx S) a c' : on_pr m c = Ret (a, c') -> sc_messages c' = sc_messages c /\ sc_core c' = sc_core c.
Proof. unfold on_pr. intros E. by apply zoom_Ret in E as (? & ? & _ & [= _ ->]). Qed.

(** What a call of [MaybeSendAppend] leaves in the queue: a new snapshot
    message, a new append message made of the given entries, or an append
    message enlarged by them. *)
Inductive queued (c : SendCtx S) (to : Z) : bool -> list Message -> Prop :=
| QNone : queued c to false (sc_messages c)
| QSnapshot m : m_type m = MsgSnapshot -> m_to m = to -> queued c to true (sc_messages c ++ [m])
| QAppend m term ents : m_type m = MsgAppend -> m_to m = to -> m_index m = next_idx_ (sc_pr c) -! 1 ->
    m_log_term m = term -> m_entries m = ents -> m_commit m = committed_ (raft_log_ (sc_core c)) ->
    v_term (log_view (raft_log_ (sc_core c))) (next_idx_ (sc_pr c) -! 1) = Ok term ->
    v_dummy (log_view (raft_log_ (sc_core c))) < next_idx_ (sc_pr c) ->
    next_idx_ (sc_pr c) + zlen ents <= v_last (log_view (raft_log_ (sc_core c))) + 1 ->
    ents = v_slice (log_view (raft_log_ (sc_core c))) (next_idx_ (sc_pr c)) (next_idx_ (sc_pr c) + zlen ents) ->
    queued c to true (sc_messages c ++ [m])
| QBatch ents messages last_idx : batch_append_ (sc_core c) = true ->
    v_dummy (log_view (raft_log_ (sc_core c))) < next_idx_ (sc_pr c) ->
    next_idx_ (sc_pr c) + zlen ents <= v_last (log_view (raft_log_ (sc_core c))) + 1 ->
    ents = v_slice (log_view (raft_log_ (sc_core c))) (next_idx_ (sc_pr c)) (next_idx_ (sc_pr c) + zlen ents) ->
    batch_into to (committed_ (raft_log_ (sc_core c))) ents (sc_messages c) = Some (messages, last_idx) ->
    queued c to true messages.

Lemma send_snapshot_run m to c b c' :
  (let! r := PrepareSendSnapshot m to in
   match r with None => ret false | Some m => Send m ;;; ret true end) c = Ret (b, c') -> m_to m = to ->
  queued c to b (sc_messages c').
Proof.
  intros E Ht. apply bind_Ret in E as (r & c1 & E1 & E). apply PrepareSendSnapshot_run in E1 as [Hm Hr].
  destruct r as [m'|].
  - destruct Hr as [s ->]. apply bind_Ret in E as (? & c2 & E2 & E). injection E as <- <-.
    apply Send_run in E2 as (m2 & E2 & ->). apply stamp_Ret in E2 as (f & t & p & -> & _). cbn.
    rewrite Hm. by constructor.
  - injection E as <- <-. rewrite Hm. constructor.
Qed.

Lemma send_entries_run m term ents (c : SendCtx S) b c' :
  (let! m := PrepareSendEntries m term ents in Send m ;;; ret true) c = Ret (b, c') ->
  b = true /\ exists m', sc_messages c' = sc_messages c ++ [m'] /\ m_type m' = MsgAppend /\
    m_to m' = m_to m /\ m_index m' = next_idx_ (sc_pr c) -! 1 /\ m_log_term m' = term /\
    m_entries m' = ents /\ m_commit m' = committed_ (raft_log_ (sc_core c)).
Proof.
  intros E. apply bind_Ret in E as (m1 & c1 & E1 & E). unfold PrepareSendEntries in E1. rewrite bind_get in E1.
  apply bind_Ret in E1 as (? & c2 & E2 & E1). injection E1 as <- <-.
  assert (Hm : sc_messages c2 = sc_messages c).
  { destruct (last ents); [by apply on_pr_messages in E2 as [? _]|by injection E2 as _ <-]. }
  apply bind_Ret in E as (? & c3 & E3 & E). injection E as <- <-. split; [done|].
  apply Send_run in E3 as (m' & E3 & ->). apply stamp_Ret in E3 as (f & t & p & -> & _).
  eexists. cbn. rewrite Hm. split; [done|]. by destruct m.
Qed.

Lemma MaybeSendAppend_queued to allow_empty c b c' :
  log_wf (raft_log_ (sc_core c)) ->
  0 < next_idx_ (sc_pr c) <= v_last (log_view (raft_log_ (sc_core c))) + 1 ->
  MaybeSendAppend to allow_empty c = Ret (b, c') -> queued c to b (sc_messages c').
Proof.
  intros W Hn E. unfold MaybeSendAppend in E. rewrite bind_get in E.
  destruct (IsPaused (sc_pr c)); [injection E as <- <-; constructor|].
  destruct (negb _) eqn:Ep; [by eapply send_snapshot_run in E|]. clear Ep.
  apply bind_Ret in E as (ents & c1 & E1 & E). unfold on_core_log in E1.
  apply zoom_Ret in E1 as (ents' & l1 & E1 & [= -> ->]).
  destruct (GetEntries_reads _ _ _ _ _ _ E1 W) as [Hs1 W1].
  pose proof (same_log_view _ _ Hs1) as Hv1.
  destruct (negb allow_empty && _); [injection E as <- <-; apply (QNone c)|].
  apply bind_Ret in E as (tr & c2 & E2 & E). apply getsO_Ret in E2 as (tr' & E2 & [= -> ->]). cbn in E2.
  pose proof (view_bounds _ W) as Hb.
  rewrite Term_view, Hv1 in E2 by (done || u64_lia). injection E2 as <-.
  assert (Hq : forall b0 c0, queued (c <| sc_core := (sc_core c) <| raft_log_ := l1 |> |>) to b0 c0 -> queued c to b0 c0).
  { clear E. pose proof Hs1 as (_ & _ & Hc & _). intros b0 c0 []; cbn in *; rewrite ?Hv1, ?Hc in *.
    - constructor.
    - by constructor.
    - eapply QAppend; eauto.
    - eapply QBatch; eauto. }
  destruct ents' as [ents|e].
  2:{ destruct (v_term _ _); destruct (is_storage _ _);
      try (injection E as <- <-; apply (QNone c)); by eapply Hq, send_snapshot_run. }
  destruct (GetEntries_slice _ _ _ _ _ _ W Hn E1) as (Hd & Hl & Hents).
  destruct (v_term _ (next_idx_ (sc_pr c) -! 1)) as [term|e] eqn:Et; [|by eapply Hq, send_snapshot_run].
  apply Hq. apply bind_Ret in E as (batched & c2 & E2 & E). destruct (batch_append_ (sc_core c)) eqn:Eba.
  - unfold TryBatching in E2. rewrite bind_get in E2. cbn in E2.
    destruct (batch_into _ _ _ _) as [[ms li]|] eqn:Eb.
    + apply bind_Ret in E2 as (? & c3 & _ & E2). apply bind_Ret in E2 as (? & c4 & E4 & E2).
      injection E2 as <- <-. injection E4 as _ <-. injection E as <- <-. cbn.
      eapply (QBatch _ _ ents); cbn; rewrite ?Hv1; eauto.
    + injection E2 as <- <-. apply send_entries_run in E as (-> & m & -> & Hm).
      destruct Hm as (H1 & H2 & H3 & H4 & H5 & H6). eapply QAppend; cbn; rewrite ?Hv1; eauto.
  - injection E2 as <- <-. apply send_entries_run in E as (-> & m & -> & Hm).
    destruct Hm as (H1 & H2 & H3 & H4 & H5 & H6). eapply QAppend; cbn; rewrite ?Hv1; eauto.
Qed.

(** C24: Sending an append leaves the log alone, and every append message in the
    queue stays a piece of the sender's log: its entries are the log's entries
    right after its index, with the log's term at that index.  When batching is
    on, this needs queued empty appends to end where the new entries begin. *)
Theorem append_messages_from_log to allow_empty c b c' :
  log_wf (raft_log_ (sc_core c)) ->
  0 < next_idx_ (sc_pr c) <= v_last (log_view (raft_log_ (sc_core c))) + 1 ->
  Forall (from_log (log_view (raft_log_ (sc_core c)))) (sc_messages c) ->
  (batch_append_ (sc_core c) = true ->
   Forall (fun m => m_type m = MsgAppend -> m_to m = to -> m_entries m = [] ->
                    m_index m + 1 = next_idx_ (sc_pr c)) (sc_messages c)) ->
  MaybeSendAppend to allow_empty c = Ret (b, c') ->
  log_view (raft_log_ (sc_core c')) = log_view (raft_log_ (sc_core c)) /\
  Forall (from_log (log_view (raft_log_ (sc_core c')))) (sc_messages c') /\
  (b = false -> sc_messages c' = sc_messages c).
Proof.
  intros W Hn Hf Hb E. destruct (MaybeSendAppend_sends _ _ _ _ _ E W) as (l' & Ec & Hs & _).
  assert (Hv : log_view (raft_log_ (sc_core c')) = log_view (raft_log_ (sc_core c))).
  { rewrite Ec. cbn. by apply same_log_view. }
  rewrite Hv. split; [done|]. apply MaybeSendAppend_queued in E; [|done|done].
  pose proof (log_view_wf _ W) as Wv. pose proof (view_bounds _ W) as Hbd.
  destruct E as [|m Hm Ht|m term ents Hm Ht Hi Hlt He Hc Hterm Hd Hl Hs'|ents ms li Hba Hd Hl Hs' Hbi].
  - done.
  - split; [|done]. apply Forall_app_2; [done|]. constructor; [|done]. intros Hx. congruence.
  - split; [|done]. apply Forall_app_2; [done|]. constructor; [|done]. intros _.
    rewrite u64_id in Hi, Hterm by u64_lia. rewrite Hi, Hlt, He. split; [lia|]. split; [lia|]. split; [done|].
    by replace (next_idx_ (sc_pr c) - 1 + 1) with (next_idx_ (sc_pr c)) by lia.
  - split; [|done]. eapply batch_into_from_log; eauto.
Qed.

(** ** The progress of the receiver *)

Definition peer_ok (p : Progress) : Prop :=
  Progress.wf p /\ 0 <= Progress.pending_request_snapshot_ p < u64max.

(** How many more messages may be sent before the peer is paused. *)
Definition room (p : Progress) : Z :=
  if IsPaused p then 0 else 1 + capacity_ (inflights_ p) - count_ (inflights_ p).

Lemma room_nonneg p : Progress.wf p -> 0 <= room p.
Proof. intros [_ _ _ []]. unfold room. destruct (IsPaused p); lia. Qed.

Lemma UpdateState_peer last p a p' : peer_ok p -> IsPaused p = false -> matched_ p <= last < u64max ->
  UpdateState last p = Ret (a, p') -> peer_ok p' /\ room p' < room p.
Proof.
  intros [W Hr] Hp Hl E. pose proof (wf_inflights p W) as Wi.
  assert (Hroom : 1 <= room p) by (unfold room; rewrite Hp; destruct Wi; lia).
  destruct (Progress.state_ p) eqn:Es.
  - unfold UpdateState in E. rewrite bind_get, Es in E. injection E as _ <-. split.
    + split; [|done]. eapply Progress.wf_move; [exact W|cbn; try done; destruct W; lia..].
    + assert (IsPaused (p <| paused_ := true |>) = true) as Hp' by (unfold IsPaused; cbn; by rewrite Es).
      unfold room at 1. rewrite Hp'. lia.
  - destruct (UpdateState_replicate last p W Es Hp Hl) as (p1 & E1 & W1 & Hs1 & _ & _ & Hq & Hw).
    rewrite E in E1. injection E1 as _ <-. split; [split; [done|by rewrite Hq]|].
    pose proof (f_equal w_cap Hw) as Hcap. pose proof (f_equal (fun w => zlen (w_items w)) Hw) as Hcnt.
    cbn in Hcap, Hcnt. rewrite contents_length in Hcnt by apply W1. rewrite length_app, Nat2Z.inj_add in Hcnt.
    rewrite contents_length in Hcnt by done. cbn in Hcnt. unfold room. rewrite Hp.
    destruct (IsPaused p'); [destruct Wi; lia|]. pose proof (wf_inflights p' W1) as []. lia.
  - unfold IsPaused in Hp. by rewrite Es in Hp.
Qed.

Lemma BecomeSnapshot_peer i p a p' : peer_ok p -> 0 <= i < u64max ->
  BecomeSnapshot i p = Ret (a, p') -> peer_ok p' /\ room p' = 0.
Proof.
  intros [W Hr] Hi E. unfold BecomeSnapshot in E. destruct (ResetState_spec PSnapshot p W) as (f & E1 & Wf & Hc).
  rewrite (bind_run _ _ _ _ _ E1) in E. injection E as _ <-. split; [|done]. split; [|done].
  destruct W. by constructor.
Qed.

Lemma GetSnapshot_index request to l s l' : log_wf l -> 0 <= request < u64max ->
  RaftLog.GetSnapshot request to l = Ret (Ok s, l') -> 0 <= sn_index s < u64max.
Proof.
  intros W Hr E. unfold RaftLog.GetSnapshot in E. rewrite bind_get in E.
  assert (Hst : on_store (Storage.GetSnapshot request to) l = Ret (Ok s, l') -> 0 <= sn_index s < u64max).
  { intros E1. apply zoom_Ret in E1 as (r & s' & E1 & [= <- ->]).
    by apply (st_snapshot _ _ _ _ _ (lw_store l W) E1). }
  destruct (snapshot_ (unstable_ l)) as [s0|] eqn:Es; [|auto].
  destruct (request <=? sn_index s0); [|auto]. injection E as <- <-.
  pose proof (lw_unstable l W) as Wu. pose proof (wf_snapshot _ Wu _ Es). pose proof (wf_offset _ Wu).
  pose proof (wf_upper _ Wu). lia.
Qed.

Lemma PrepareSendSnapshot_peer m to c r c' : log_wf (raft_log_ (sc_core c)) -> peer_ok (sc_pr c) ->
  PrepareSendSnapshot m to c = Ret (r, c') ->
  peer_ok (sc_pr c') /\ match r with Some _ => room (sc_pr c') = 0 | None => True end.
Proof.
  intros W P E. unfold PrepareSendSnapshot in E. rewrite bind_get in E.
  destruct (negb _); [by injection E as <- <-|]. apply bind_Ret in E as (res & c1 & E1 & E).
  unfold on_core_log in E1. apply zoom_Ret in E1 as (res' & l1 & E1 & [= -> ->]). destruct res' as [s|e].
  - destruct (sn_index s =? 0); [discriminate|]. apply bind_Ret in E as (? & c2 & E2 & E). injection E as <- <-.
    unfold on_pr in E2. apply zoom_Ret in E2 as (? & p' & E2 & [= _ ->]). cbn in *.
    eapply BecomeSnapshot_peer; [exact P| |exact E2]. eapply GetSnapshot_index; [exact W|apply P|exact E1].
  - destruct (is_storage _ _); [|discriminate]. by injection E as <- <-.
Qed.

(** The progress after entries were queued. *)
Lemma update_peer v next ents p : view_wf v -> peer_ok p -> IsPaused p = false -> next = next_idx_ p ->
  v_dummy v < next -> next + zlen ents <= v_last v + 1 -> ents = v_slice v next (next + zlen ents) ->
  forall (c c' : SendCtx S) a e, sc_pr c = p -> last ents = Some e ->
  on_pr (UpdateState (e_index e)) c = Ret (a, c') -> peer_ok (sc_pr c') /\ room (sc_pr c') < room p.
Proof.
  intros Wv P Hp -> Hd Hl Hs c c' a e <- He E. unfold on_pr in E. apply zoom_Ret in E as (? & p' & E & [= _ ->]). cbn.
  rewrite Hs in He. pose proof (v_slice_last _ _ _ _ Wv Hd Hl He) as Hi.
  assert (0 < zlen ents). { rewrite Hs. destruct (v_slice _ _ _); [done|cbn; lia]. }
  eapply UpdateState_peer; [exact P|exact Hp| |exact E]. destruct P as [[] _]. pose proof (vw_last v Wv). lia.
Qed.

Lemma send_snapshot_peer m to c b c' : log_wf (raft_log_ (sc_core c)) -> peer_ok (sc_pr c) ->
  (let! r := PrepareSendSnapshot m to in
   match r with None => ret false | Some m => Send m ;;; ret true end) c = Ret (b, c') ->
  peer_ok (sc_pr c') /\ (b = true -> room (sc_pr c') = 0).
Proof.
  intros W P E. apply bind_Ret in E as (r & c1 & E1 & E). apply PrepareSendSnapshot_peer in E1 as [P1 Hr]; [|done|done].
  destruct r as [m'|]; [|by injection E as <- <-]. apply bind_Ret in E as (? & c2 & E2 & E). injection E as <- <-.
  apply Send_run in E2 as (? & _ & ->). done.
Qed.

Lemma GetEntries_some l idx max ctx ents l' : log_wf l -> 0 < idx -> ents <> [] ->
  GetEntries idx max ctx l = Ret (Ok ents, l') -> idx <= v_last (log_view l).
Proof.
  intros W Hi Hne E. unfold GetEntries in E.
  rewrite (bind_run (getsO _) _ _ (v_last (log_view l)) l) in E by (unfold getsO; by rewrite LastIndex_view).
  destruct (Z.ltb_spec (v_last (log_view l)) idx); [|done]. by injection E as <- _.
Qed.

(** Entries read for a peer, if any, start at its [next]. *)
Definition read_for (v : LogView) (p : Progress) (ents : list Entry) : Prop :=
  ents <> [] -> v_dummy v < next_idx_ p /\ next_idx_ p + zlen ents <= v_last v + 1 /\
    ents = v_slice v (next_idx_ p) (next_idx_ p + zlen ents).

Lemma GetEntries_read_for l p max ctx ents l' : log_wf l -> peer_ok p ->
  GetEntries (next_idx_ p) max ctx l = Ret (Ok ents, l') -> read_for (log_view l) p ents.
Proof.
  intros W [[? ? _ _] _] E Hne. assert (Hn : 0 < next_idx_ p) by lia.
  pose proof (GetEntries_some _ _ _ _ _ _ W Hn Hne E).
  eapply GetEntries_slice; [exact W|lia|exact E].
Qed.

Lemma send_entries_peer m term ents (c : SendCtx S) b c' v : view_wf v -> peer_ok (sc_pr c) -> IsPaused (sc_pr c) = false ->
  read_for v (sc_pr c) ents ->
  (let! m := PrepareSendEntries m term ents in Send m ;;; ret true) c = Ret (b, c') ->
  peer_ok (sc_pr c') /\ (ents <> [] -> room (sc_pr c') < room (sc_pr c)).
Proof.
  intros Wv P Hp Hs E. apply bind_Ret in E as (m1 & c1 & E1 & E). apply bind_Ret in E as (? & c2 & E2 & E).
  injection E as _ <-. apply Send_run in E2 as (? & _ & ->). cbn.
  unfold PrepareSendEntries in E1. rewrite bind_get in E1. apply bind_Ret in E1 as (? & c3 & E3 & E1).
  injection E1 as _ <-. destruct (last ents) as [e|] eqn:He.
  - assert (Hne : ents <> []) by by intros ->. destruct (Hs Hne) as (Hd & Hl & Hsl).
    destruct (update_peer v _ ents (sc_pr c) Wv P Hp eq_refl Hd Hl Hsl c c3 _ e eq_refl He E3). done.
  - apply last_None in He as ->. by injection E3 as _ <-.
Qed.

Lemma TryBatching_peer to ents (c : SendCtx S) b c' v : view_wf v -> peer_ok (sc_pr c) -> IsPaused (sc_pr c) = false ->
  read_for v (sc_pr c) ents ->
  TryBatching to ents c = Ret (b, c') ->
  if b then peer_ok (sc_pr c') /\ (ents <> [] -> room (sc_pr c') < room (sc_pr c)) else c' = c.
Proof.
  intros Wv P Hp Hs E. unfold TryBatching in E. rewrite bind_get in E.
  assert (Hli : forall ms ms' li, batch_into to (committed_ (raft_log_ (sc_core c))) ents ms = Some (ms', li) ->
    li = e_index <$> last ents).
  { clear E. induction ms as [|x ms IH]; cbn; intros ms' li E; [done|]. destruct (_ && _).
    - destruct (last ents); [destruct (negb _); [done|]|]; by injection E as <- <-.
    - destruct (batch_into _ _ _ ms) as [[]|] eqn:Eb; [|done]. injection E as <- <-. by eapply IH. }
  destruct (batch_into _ _ _ _) as [[ms li]|] eqn:Eb; [|by injection E as <- <-].
  apply Hli in Eb as ->. apply bind_Ret in E as (? & c1 & E1 & E). apply bind_Ret in E as (? & c2 & E2 & E).
  injection E as <- <-. injection E2 as _ <-. cbn. destruct (last ents) as [e|] eqn:He; cbn in E1.
  - assert (Hne : ents <> []) by by intros ->. destruct (Hs Hne) as (Hd & Hl & Hsl).
    destruct (update_peer v _ ents (sc_pr c) Wv P Hp eq_refl Hd Hl Hsl c c1 _ e eq_refl He E1). done.
  - apply last_None in He as ->. by injection E1 as _ <-.
Qed.

Lemma MaybeSendAppend_peer to allow_empty c b c' : log_wf (raft_log_ (sc_core c)) -> peer_ok (sc_pr c) ->
  MaybeSendAppend to allow_empty c = Ret (b, c') ->
  peer_ok (sc_pr c') /\ (b = true -> allow_empty = false -> room (sc_pr c') < room (sc_pr c)).
Proof.
  intros W P E. unfold MaybeSendAppend in E. rewrite bind_get in E.
  destruct (IsPaused (sc_pr c)) eqn:Hp; [by injection E as <- <-|].
  assert (Hroom : 0 < room (sc_pr c)) by (unfold room; rewrite Hp; destruct P as [[_ _ _ []] _]; lia).
  destruct (negb _) eqn:Ep.
  { apply send_snapshot_peer in E as [P' H0]; [|done|done]. split; [done|]. intros Hb _. specialize (H0 Hb). lia. }
  apply bind_Ret in E as (ents & c1 & E1 & E). unfold on_core_log in E1.
  apply zoom_Ret in E1 as (ents' & l1 & E1 & [= -> ->]).
  destruct (GetEntries_reads _ _ _ _ _ _ E1 W) as [Hs1 W1].
  pose proof (log_view_wf _ W) as Wv. assert (Hn0 : 0 < next_idx_ (sc_pr c)) by (destruct P as [[] _]; lia).
  destruct (negb allow_empty && _) eqn:Eal; [by injection E as <- <-|].
  apply bind_Ret in E as (tr & c2 & E2 & E). apply getsO_Ret in E2 as (tr' & _ & [= -> ->]).
  assert (Hsnap : forall b0 c0, (let! r := PrepareSendSnapshot (empty_message <| m_to := to |>) to in
     match r with None => ret false | Some m => Send m ;;; ret true end)
     (c <| sc_core := (sc_core c) <| raft_log_ := l1 |> |>) = Ret (b0, c0) ->
     peer_ok (sc_pr c0) /\ (b0 = true -> allow_empty = false -> room (sc_pr c0) < room (sc_pr c))).
  { intros b0 c0 E0. apply send_snapshot_peer in E0 as [P0 H0]; [|done|done]. split; [done|].
    intros Hb _. specialize (H0 Hb). lia. }
  destruct ents' as [ents|e].
  2:{ destruct tr' as [|]; (destruct (is_storage _ _); [by injection E as <- <-|by apply Hsnap]). }
  destruct tr' as [term|]; [|by apply Hsnap].
  assert (Hents : allow_empty = false -> ents <> []).
  { intros ->. by destruct ents. }
  pose proof (GetEntries_read_for _ _ _ _ _ _ W P E1) as Hs.
  apply bind_Ret in E as (batched & c2 & E2 & E). destruct (batch_append_ (sc_core c)).
  - eapply (TryBatching_peer _ _ _ _ _ (log_view (raft_log_ (sc_core c)))) in E2; [|done..].
    destruct batched.
    + injection E as <- <-. destruct E2 as [P2 H2]. split; [done|]. intros _ Ha. by apply H2, Hents.
    + subst c2. eapply (send_entries_peer _ _ _ _ _ _ (log_view (raft_log_ (sc_core c)))) in E; [|done..].
      destruct E as [P2 H2]. split; [done|]. intros _ Ha. by apply H2, Hents.
  - injection E2 as <- <-. eapply (send_entries_peer _ _ _ _ _ _ (log_view (raft_log_ (sc_core c)))) in E; [|done..].
    destruct E as [P2 H2]. split; [done|]. intros _ Ha. by apply H2, Hents.
Qed.

(** ** Termination *)

Lemma Slice_ends lo hi max ctx l : log_wf l -> ends (Slice lo hi max ctx) l.
Proof.
  intros W. pose proof (view_bounds l W) as Hb.
  destruct (MustCheckOutOfBounds lo hi l) as [r|f] eqn:Ec.
  2:{ unfold MustCheckOutOfBounds in Ec. destruct (hi <? lo); [discriminate|].
      rewrite FirstIndex_view, LastIndex_view in Ec by done. cbn in Ec.
      destruct (_ <? _); [discriminate|]. destruct (_ <? _); discriminate. }
  assert (E0 : getsO (MustCheckOutOfBounds lo hi) l = Ret (r, l)) by (unfold getsO; by rewrite Ec).
  destruct r as [[]|e].
  - pose proof (MustCheckOutOfBounds_Ok _ _ _ W Ec) as Hr. destruct (Z.eq_dec lo hi) as [<-|Hne].
    + eapply ends_Ret. unfold Slice. rewrite (bind_run _ _ _ _ _ E0), Z.eqb_refl. reflexivity.
    + assert (Hr1 : v_dummy (log_view l) < lo < hi) by lia. assert (Hr2 : hi <= v_last (log_view l) + 1) by lia.
      destruct (Slice_view l lo hi max ctx W Hr1 Hr2) as (? & ? & E & _). by eapply ends_Ret.
  - eapply ends_Ret. unfold Slice. rewrite (bind_run _ _ _ _ _ E0). reflexivity.
Qed.

Lemma GetEntries_ends idx max ctx l : log_wf l -> ends (GetEntries idx max ctx) l.
Proof.
  intros W. unfold GetEntries.
  assert (E : getsO LastIndex l = Ret (v_last (log_view l), l)) by (unfold getsO; by rewrite LastIndex_view).
  unfold ends. rewrite (bind_run _ _ _ _ _ E). destruct (_ <? _); [done|]. by apply Slice_ends.
Qed.

Lemma GetSnapshot_ends request to l : log_wf l -> ends (RaftLog.GetSnapshot request to) l.
Proof.
  intros W. unfold RaftLog.GetSnapshot, ends. rewrite bind_get.
  assert (Hst : ends (on_store (Storage.GetSnapshot request to)) l).
  { apply ends_zoom. apply st_snapshot_ends, W. }
  destruct (snapshot_ (unstable_ l)); [|done]. by destruct (_ <=? _).
Qed.

Lemma UpdateState_ends last p : peer_ok p -> IsPaused p = false -> matched_ p <= last < u64max ->
  ends (UpdateState last) p.
Proof.
  intros [W _] Hp Hl. destruct (Progress.state_ p) eqn:Es.
  - unfold ends, UpdateState. by rewrite bind_get, Es.
  - destruct (UpdateState_replicate last p W Es Hp Hl) as (p1 & E1 & _). by eapply ends_Ret.
  - unfold IsPaused in Hp. by rewrite Es in Hp.
Qed.

Lemma Send_ends m (c : SendCtx S) : ends (Send m) c.
Proof.
  unfold Send. apply ends_bind; [|done]. apply ends_getsO. unfold stamp.
  apply obind_ends; [|done]. destruct (m_from m =? kInvalidId), m as [[] ? ? t]; cbn; try destruct (t =? 0); done.
Qed.

Lemma send_snapshot_ends m to c : log_wf (raft_log_ (sc_core c)) -> peer_ok (sc_pr c) ->
  ends (let! r := PrepareSendSnapshot m to in
        match r with None => ret false | Some m => Send m ;;; ret true end) c.
Proof.
  intros W P. apply ends_bind.
  - unfold PrepareSendSnapshot, ends. rewrite bind_get. destruct (negb _); [done|].
    apply ends_bind; [by apply ends_zoom, GetSnapshot_ends|]. intros r c1 E1.
    unfold on_core_log in E1. apply zoom_Ret in E1 as (r' & l1 & E1 & [= -> ->]).
    destruct r' as [s|e]; [|unfold ends; by destruct (is_storage _ _)].
    unfold ends. destruct (sn_index s =? 0); [done|]. apply ends_bind; [|done].
    apply ends_zoom. cbn. destruct P as [Wp _]. unfold BecomeSnapshot.
    destruct (ResetState_spec PSnapshot _ Wp) as (? & E & _). eapply ends_Ret. by rewrite (bind_run _ _ _ _ _ E).
  - intros r c1 _. destruct r; [|done]. apply ends_bind; [apply Send_ends|done].
Qed.

Lemma update_ends v ents (c : SendCtx S) e : view_wf v -> peer_ok (sc_pr c) -> IsPaused (sc_pr c) = false ->
  read_for v (sc_pr c) ents -> last ents = Some e -> ends (on_pr (UpdateState (e_index e))) c.
Proof.
  intros Wv P Hp Hs He. destruct (Hs ltac:(by intros ->)) as (Hd & Hl & Hsl).
  apply ends_zoom, UpdateState_ends; [done|done|]. rewrite Hsl in He.
  pose proof (v_slice_last _ _ _ _ Wv Hd Hl He) as Hi. pose proof (vw_last v Wv).
  assert (0 < zlen ents). { rewrite Hsl. destruct (v_slice _ _ _); [done|cbn; lia]. }
  destruct P as [[] _]. lia.
Qed.

Lemma TryBatching_ends to ents (c : SendCtx S) v : view_wf v -> peer_ok (sc_pr c) -> IsPaused (sc_pr c) = false ->
  read_for v (sc_pr c) ents -> ends (TryBatching to ents) c.
Proof.
  intros Wv P Hp Hs. unfold TryBatching, ends. rewrite bind_get.
  destruct (batch_into _ _ _ _) as [[ms li]|] eqn:Eb; [|done]. apply ends_bind; [|done].
  destruct li as [i|]; [|done].
  assert (Hli : exists e, last ents = Some e /\ e_index e = i).
  { revert ms Eb. induction (sc_messages c) as [|x l IH]; cbn; intros ms E; [done|]. destruct (_ && _).
    - destruct (last ents); [|done]. destruct (negb _); [done|]. injection E as _ <-. eauto.
    - destruct (batch_into _ _ _ l) as [[]|]; [|done]. injection E as _ ->. by eapply IH. }
  destruct Hli as (e & He & <-). by eapply update_ends.
Qed.

Lemma send_entries_ends m term ents (c : SendCtx S) v : view_wf v -> peer_ok (sc_pr c) -> IsPaused (sc_pr c) = false ->
  read_for v (sc_pr c) ents -> ends (let! m := PrepareSendEntries m term ents in Send m ;;; ret true) c.
Proof.
  intros Wv P Hp Hs. apply ends_bind.
  - unfold PrepareSendEntries, ends. rewrite bind_get. apply ends_bind; [|done].
    destruct (last ents) eqn:He; [|done]. by eapply update_ends.
  - intros. apply ends_bind; [apply Send_ends|done].
Qed.

Lemma MaybeSendAppend_ends to allow_empty c : log_wf (raft_log_ (sc_core c)) -> peer_ok (sc_pr c) ->
  ends (MaybeSendAppend to allow_empty) c.
Proof.
  intros W P. unfold MaybeSendAppend, ends. rewrite bind_get. destruct (IsPaused (sc_pr c)) eqn:Hp; [done|].
  destruct (negb _); [by apply send_snapshot_ends|].
  apply ends_bind; [by apply ends_zoom, GetEntries_ends|]. intros ents c1 E1. unfold on_core_log in E1.
  apply zoom_Ret in E1 as (ents' & l1 & E1 & [= -> ->]). unfold ends. destruct (negb allow_empty && _); [done|].
  destruct (GetEntries_reads _ _ _ _ _ _ E1 W) as [_ W1]. pose proof (log_view_wf _ W) as Wv.
  assert (Hsnap : forall m, ends (let! r := PrepareSendSnapshot m to in
     match r with None => ret false | Some m => Send m ;;; ret true end)
     (c <| sc_core := (sc_core c) <| raft_log_ := l1 |> |>)) by (intros; by apply send_snapshot_ends).
  apply ends_bind.
  { apply ends_getsO. cbn. rewrite Term_view; [done|done|apply u64_range]. }
  intros tr c2 E2. apply getsO_Ret in E2 as (tr' & _ & [= -> ->]). destruct ents' as [ents|e].
  2:{ destruct tr'; unfold ends; (destruct (is_storage _ _); [done|apply Hsnap]). }
  destruct tr' as [term|]; [|apply Hsnap].
  pose proof (GetEntries_read_for _ _ _ _ _ _ W P E1) as Hr. apply ends_bind.
  - destruct (batch_append_ (sc_core c)); [|done]. by eapply TryBatching_ends.
  - intros b c2 E2. assert (Hc : b = false -> c2 = c <| sc_core := (sc_core c) <| raft_log_ := l1 |> |>).
    { intros ->. destruct (batch_append_ (sc_core c)); [|by injection E2 as <-].
      by eapply TryBatching_peer in E2. }
    destruct b; [done|]. rewrite Hc by done. by eapply send_entries_ends.
Qed.

(** The loop of [SendAppendAggressively] ends: every round that goes on puts a
    message into the peer's inflights window or pauses the peer, so the rounds
    are bounded by the window's capacity. *)
Lemma SendAppendAggressively_ends to c : log_wf (raft_log_ (sc_core c)) -> peer_ok (sc_pr c) ->
  SendAppendAggressively to c <> Abort NoFuel.
Proof.
  intros W P. apply (ends_while (fun c => log_wf (raft_log_ (sc_core c)) /\ peer_ok (sc_pr c)) (fun c => room (sc_pr c))).
  - intros c' [_ [Wp _]]. by apply room_nonneg.
  - intros c' [W' P']. by apply MaybeSendAppend_ends.
  - intros c1 b c2 [W1 P1] E. destruct (MaybeSendAppend_peer _ _ _ _ _ W1 P1 E) as [P2 Hm].
    destruct (MaybeSendAppend_sends _ _ _ _ _ E W1) as (l2 & Ec & _ & W2 & _). split; [|auto].
    split; [by rewrite Ec|done].
  - by split.
  - unfold room. destruct P as [[_ _ _ []] _]. destruct (IsPaused (sc_pr c)); lia.
Qed.
End SendProofs.

(** ** Witnesses

    A leader of term 2 with the log of [example_log] (entries 1 to 4). *)

Definition example_core : RaftCore MemoryStorage :=
  {| term_ := 2; vote_ := 1; id_ := 1; read_states_ := []; raft_log_ := example_log;
     RaftCore.max_inflight_ := 4; max_message_size_ := 1000;
     RaftCore.pending_request_snapshot_ := 0; RaftCore.state_ := Leader; promotable_ := true;
     leader_id_ := 1; lead_transferee_ := None; pending_conf_index_ := 0;
     read_only_ := ReadOnly.new Safe; election_elapsed_ := 0; heartbeat_elapsed_ := 0;
     check_quorum_ := false; pre_vote_ := false; skip_broadcast_commit_ := false;
     batch_append_ := false; disable_proposal_forwarding_ := false; heartbeat_timeout_ := 2;
     election_timeout_ := 20; randomized_election_timeout_ := 20; min_election_timeout_ := 20;
     max_election_timeout_ := 40; priority_ := 0;
     uncommitted_state_ := mkUncommittedState u64max 0 0; max_committed_size_per_ready_ := u64max |}.

(** A peer that has acknowledged index 2. *)
Definition example_peer (st : ProgressState) : Progress :=
  mkProgress 2 3 st false 0 0 true (Inflights.new 4) 0 2.

Lemma example_peer_ok st : peer_ok (example_peer st).
Proof.
  split; [|cbn; unfold u64max; lia].
  constructor; [cbn; lia|cbn; unfold two64; lia|cbn; unfold u64max; lia|]. by apply Inflights.wf_new.
Qed.

Definition example_send : SendCtx MemoryStorage := mkSendCtx example_core (example_peer Replicate) [].

Lemma append_messages_from_log_witness :
  exists c', MaybeSendAppend 2 true example_send = Ret (true, c') /\
    map (fun m => map e_index (m_entries m)) (sc_messages c') = [[3; 4]] /\
    Forall (from_log (log_view (raft_log_ (sc_core c')))) (sc_messages c').
Proof.
  eexists. split; [vm_compute; reflexivity|]. split; [reflexivity|].
  refine (proj1 (proj2 (append_messages_from_log 2 true example_send true _ _ _ _ _ _))).
  - exact example_log_wf.
  - vm_compute. split; [reflexivity|discriminate].
  - constructor.
  - discriminate.
  - vm_compute. reflexivity.
Defined.

(** The same leader with batching on; an append without entries was queued
    when the peer's [next] was 5, and a rejection moved [next] back to 3. *)
Definition gap_send : SendCtx MemoryStorage :=
  mkSendCtx (example_core <| batch_append_ := true |>) (example_peer Probe)
    [empty_message <| m_type := MsgAppend |> <| m_to := 2 |> <| m_from := 1 |> <| m_term := 2 |>
       <| m_index := 4 |> <| m_log_term := 2 |> <| m_commit := 2 |>].

(** With batching on, [TryBatching] adds entries to a queued append without
    entries even when they do not follow its index: here entries 3 and 4 go
    into an append at index 4.  A follower with the same four entries accepts
    it and acknowledges index 6, which its log does not have. *)
Example batching_acknowledges_missing_entries :
  exists c' m l', MaybeSendAppend 2 true gap_send = Ret (true, c') /\ sc_messages c' = [m] /\
    m_index m = 4 /\ map e_index (m_entries m) = [3; 4] /\
    MaybeAppend (m_index m) (m_log_term m) (m_commit m) (m_entries m) example_log =
      Ret (Ok (mkMaybeAppendResult true 0 6), l') /\
    v_last (log_view l') = 4.
Proof.
  do 3 eexists. split; [vm_compute; reflexivity|]. split; [reflexivity|].
  split; [reflexivity|]. split; [reflexivity|]. split; [vm_compute; reflexivity|]. vm_compute. reflexivity.
Qed.
