(* ===== verification/LogSafety.v ===== *)
(** * What may happen to a log

    Every use a node makes of its log keeps it well formed, never lowers the
    commit and applied indexes, and never changes a committed entry. *)

From S2P Require Import Prelude Types Util Storage MemStorage Unstable ReadOnly Config RaftLog RaftLogProps Inflights Progress RaftCore RaftSend.

Section LogSafety.
Context {ENV : Env} {S : Type} {ST : Storage S} {SL : StorageLaws S}.
Implicit Types l : RaftLog S.

Definition log_ok (l : RaftLog S) : Prop := log_wf l /\ cursors_wf l.

(** [l'] is [l] some operations later, at most [n] entries longer. *)
Record log_moves (n : Z) (l l' : RaftLog S) : Prop := {
  lm_committed : committed_ l <= committed_ l';
  lm_applied : applied_ l <= applied_ l';
  lm_dummy : v_dummy (log_view l) <= v_dummy (log_view l');
  lm_last : v_last (log_view l') <= v_last (log_view l) + n;
  lm_prefix i : v_dummy (log_view l') < i <= committed_ l -> v_at (log_view l') i = v_at (log_view l) i;
  lm_store : st_view (store_ l') = st_view (store_ l)
}.

Definition log_up (n : Z) (l l' : RaftLog S) : Prop :=
  log_ok l -> v_last (log_view l) + n < u64max -> log_ok l' /\ log_moves n l l'.

Lemma log_moves_refl l : log_moves 0 l l.
Proof. constructor; (done || lia). Qed.

Lemma log_moves_trans a b l1 l2 l3 : log_moves a l1 l2 -> log_moves b l2 l3 -> log_moves (a + b) l1 l3.
Proof.
  intros [C1 A1 D1 L1 P1 S1] [C2 A2 D2 L2 P2 S2]. constructor; try lia; [|congruence]. intros i Hi.
  rewrite P2 by lia. apply P1. lia.
Qed.

Lemma log_moves_weaken a b l l' : a <= b -> log_moves a l l' -> log_moves b l l'.
Proof. intros Hab [C A D L P St]. constructor; (done || lia). Qed.

#[export] Instance log_up_preorder : PreOrder (log_up 0).
Proof.
  split.
  - intros l Hl _. split; [done|apply log_moves_refl].
  - intros l1 l2 l3 H1 H2 Hl Hb. destruct (H1 Hl Hb) as [Hl2 M1]. pose proof (lm_last _ _ _ M1).
    destruct (H2 Hl2 ltac:(lia)) as [Hl3 M2]. split; [done|]. exact (log_moves_trans 0 0 _ _ _ M1 M2).
Qed.

(** Operations that only move cursors. *)
Lemma log_up_cursors l l' : store_ l' = store_ l -> unstable_ l' = unstable_ l ->
  (log_ok l -> committed_ l <= committed_ l' <= v_last (log_view l) /\
     applied_ l <= applied_ l' <= committed_ l' /\ 0 <= persisted_ l' <= v_last (log_view l)) ->
  log_up 0 l l'.
Proof.
  intros Es Eu H [W C] Hb. destruct (cursors_view l l' Es Eu) as [Ev Ew].
  destruct (H (conj W C)) as (H1 & H2 & H3). destruct C. split; [split; [by apply Ew|]|].
  - constructor; rewrite ?Ev; lia.
  - constructor; rewrite ?Ev, ?Es; (done || lia).
Qed.

Lemma log_up_reads l l' : reads l l' -> log_up 0 l l'.
Proof.
  intros H [W C] Hb. destruct (H W) as [Hs W']. pose proof (same_log_view _ _ Hs) as Hv.
  destruct Hs as (Est & _ & Ec & Ep & Ea & _). destruct C as [C1 C2 C3]. split; [split; [done|]|].
  - constructor; rewrite ?Hv, ?Ec, ?Ep, ?Ea; done.
  - constructor; rewrite ?Hv, ?Ec, ?Ea, ?Est; (done || lia).
Qed.

Lemma CommitTo_up c : pres (log_up 0) (CommitTo c).
Proof.
  intros l r l' E Hl. pose proof Hl as [W C]. rewrite CommitTo_view in E by done. injection E as _ <-. revert Hl.
  destruct (Z.ltb_spec (committed_ l) c); cbn; [|apply (log_up_cursors l l); try done; intros _; destruct C; lia].
  destruct (Z.leb_spec c (v_last (log_view l))); cbn.
  - apply log_up_cursors; try done. intros _. destruct C. cbn. lia.
  - apply (log_up_cursors l l); try done. intros _. destruct C; lia.
Qed.

Lemma LogMaybeCommit_up c t : pres (log_up 0) (RaftLog.MaybeCommit c t).
Proof. unfold RaftLog.MaybeCommit. pres_tac ltac:(apply CommitTo_up). Qed.

Lemma MaybePersist_up i t : 0 <= i -> pres (log_up 0) (MaybePersist i t).
Proof.
  intros Hi l r l' E Hl. pose proof Hl as [W C]. unfold MaybePersist in E. rewrite bind_get in E. revert Hl.
  assert (Hsame : log_up 0 l l) by reflexivity.
  destruct (_ && _) eqn:Eb; [|by injection E as _ <-]. apply andb_true_iff in Eb as [_ Eb]. apply Z.ltb_lt in Eb.
  apply bind_Ret in E as (tr & l1 & E1 & E). apply getsO_Ret in E1 as (? & _ & [= -> ->]).
  destruct (result_is _ _); [|by injection E as _ <-]. apply bind_Ret in E as (? & l1 & E1 & E).
  injection E as _ <-. injection E1 as _ <-. apply log_up_cursors; try done. intros _.
  pose proof (log_view_dummy l W) as Hd. destruct C. cbn.
  assert (i <= v_last (log_view l)); [|lia]. destruct (snapshot_ (unstable_ l)) as [s|] eqn:Es; [|lia].
  rewrite (log_view_snapshot l s Es) in *. cbn in *. lia.
Qed.

Lemma MaybePersistSnapshot_up i : pres (log_up 0) (MaybePersistSnapshot i).
Proof.
  intros l r l' E Hl. pose proof Hl as [W C]. unfold MaybePersistSnapshot in E. rewrite bind_get in E. revert Hl.
  destruct (Z.leb_spec i (persisted_ l)).
  { injection E as _ <-. apply (log_up_cursors l l); try done. intros _. destruct C; lia. }
  destruct (Z.ltb_spec (committed_ l) i); [discriminate|]. destruct (_ <=? i); [discriminate|].
  apply bind_Ret in E as (? & l1 & E1 & E). injection E as _ <-. injection E1 as _ <-.
  apply log_up_cursors; try done. intros _. destruct C. cbn. lia.
Qed.

Lemma AppliedTo_up i : pres (log_up 0) (AppliedTo i).
Proof.
  intros l r l' E Hl. pose proof Hl as [W C]. unfold AppliedTo in E. revert Hl. destruct (i =? 0).
  { injection E as _ <-. apply (log_up_cursors l l); try done. intros _. destruct C; lia. }
  rewrite bind_get in E. destruct (_ || _) eqn:Eb; [discriminate|]. apply orb_false_iff in Eb as [E1 E2].
  apply Z.ltb_ge in E1, E2. injection E as _ <-. apply log_up_cursors; try done. intros _. destruct C. cbn. lia.
Qed.

Lemma set_limit_up x : pres (log_up 0) (modify (fun l => l <| max_apply_unpersisted_log_limit_ := x |>)).
Proof. apply pres_modify. intros l. apply log_up_cursors; try done. intros [_ []]. cbn. lia. Qed.

Lemma Scan_up {A} fuel lo hi page ctx (f : list Entry -> A -> A * bool) a :
  pres (log_up 0) (Scan fuel lo hi page ctx f a).
Proof.
  revert lo a. induction fuel as [|fuel IH]; intros lo a; cbn [Scan]; [apply pres_abort|].
  pres_tac ltac:(first [apply IH | intros l r l' E; eapply log_up_reads, Slice_reads, E]).
Qed.

Lemma GetSnapshot_up request to : pres (log_up 0) (RaftLog.GetSnapshot request to).
Proof. intros l r l' E. eapply log_up_reads, GetSnapshot_reads, E. Qed.

(** Entries appended at the end. *)
Lemma Append_up entries l r l' : contiguous (v_last (log_view l) + 1) entries ->
  Append entries l = Ret (r, l') -> log_up (zlen entries) l l'.
Proof.
  intros Hc E [W C] Hb. pose proof (view_bounds l W) as Hv. destruct entries as [|e rest].
  { apply getsO_Ret in E as (? & _ & [= _ ->]). split; [by split|]. apply log_moves_refl. }
  pose proof (proj1 Hc) as He. pose proof C as [C1 C2 C3].
  destruct (Append_view l e rest W) as (l1 & E1 & -> & W1 & Hv1); rewrite ?He; try lia; [done|].
  rewrite E1 in E. injection E as _ <-.
  assert (Hlast : v_last (v_replace (log_view l) (e_index e) (e :: rest)) = v_last (log_view l) + zlen (e :: rest)).
  { rewrite v_replace_last by lia. lia. }
  split; [split; [done|]|]; constructor; cbn [committed_ applied_ persisted_ upd]; rewrite ?Hv1, ?Hlast;
    cbn [v_dummy v_replace]; try done; try (cbn; lia).
  intros i Hi. apply v_replace_below; cbn in *; lia.
Qed.

(** A batch from the leader. *)
Definition batch_ok (idx term : Z) (entries : list Entry) : Prop :=
  0 <= idx /\ idx + zlen entries < u64max /\ contiguous (idx + 1) entries /\
  Forall (fun e => e_term e <> 0) entries /\ (term = 0 -> idx = 0).

Lemma v_last_appended l l' idx term committed entries res : log_wf l ->
  v_dummy (log_view l) <= committed_ l <= v_last (log_view l) -> batch_ok idx term entries ->
  (term <> 0 \/ v_dummy (log_view l) <= idx <= v_last (log_view l)) ->
  MaybeAppend idx term committed entries l = Ret (Ok res, l') -> ma_term_matched res = true ->
  v_last (log_view l') <= Z.max (v_last (log_view l)) (idx + zlen entries) /\
  v_dummy (log_view l') = v_dummy (log_view l) /\ applied_ l' = applied_ l /\
  (0 <= persisted_ l <= v_last (log_view l) -> 0 <= persisted_ l' <= v_last (log_view l')).
Proof.
  intros W Hcm (Hi & Hl & Hc & Ht & _) Hr E Hres. pose proof (view_bounds l W) as Hb.
  assert (Hiu : is_u64 idx) by (unfold is_u64, two64, u64max in *; lia).
  destruct (decide (v_term (log_view l) idx = Ok term)) as [Et|Et].
  2:{ rewrite MaybeAppend_mismatch in E by (done || unfold is_u64, two64, u64max in *; lia).
      injection E as <- _. discriminate. }
  assert (Hin : v_dummy (log_view l) <= idx <= v_last (log_view l)).
  { destruct Hr as [Hr|]; [|done]. by eapply v_term_inside. }
  assert (Hu : Forall (fun e => is_u64 (e_index e)) entries).
  { apply Forall_lookup. intros j e Hj. rewrite (contiguous_lookup _ _ _ _ Hc Hj).
    apply lookup_lt_Some in Hj. unfold is_u64, two64, u64max in *. lia. }
  destruct (v_new_fate (log_view l) entries (committed_ l)) as [Hn|(e & rest & En & He)].
  2:{ apply v_new_first in En as Hf. destruct Hf as [Hel _]. assert (0 < e_index e).
      { apply list_elem_of_lookup_1 in Hel as [j Hj]. rewrite (contiguous_lookup _ _ _ _ Hc Hj). lia. }
      rewrite (MaybeAppend_conflict l idx term committed entries e rest) in E by (done || lia). discriminate. }
  rewrite (MaybeAppend_run l idx term committed entries) in E by (done || lia). injection E as _ <-.
  destruct (appended_view l idx committed entries W ltac:(lia) Hin Hl Hc Ht Hn) as (_ & _ & Hv).
  unfold appended in *. assert (Hin' : v_dummy (log_view l) < idx + 1 <= v_last (log_view l) + 1) by lia.
  destruct (v_new_spec (log_view l) (idx + 1) entries Hc Ht Hin') as (k & Hk & En & _ & Hkl).
  rewrite Hv. rewrite En in *. destruct (drop k entries) as [|e rest] eqn:Ed.
  { cbn. repeat split; (done || lia). }
  assert (He : e_index e = idx + 1 + Z.of_nat k).
  { pose proof (contiguous_drop _ _ k Hk Hc) as Hcd. rewrite Ed in Hcd. by destruct Hcd. }
  pose proof (f_equal length Ed) as Hlen. rewrite length_drop in Hlen.
  rewrite v_replace_last by lia. split; [cbn in *; lia|]. split; [done|]. split; [done|]. cbn in *. lia.
Qed.

#[local] Instance same_store_preorder : PreOrder (fun l l' : RaftLog S => store_ l' = store_ l).
Proof. split; [done|]. intros ???. congruence. Qed.

Lemma MaybeAppend_store idx term committed entries :
  pres (fun l l' : RaftLog S => store_ l' = store_ l) (MaybeAppend idx term committed entries).
Proof.
  unfold MaybeAppend, Append, CommitTo. pres_tac ltac:(first [apply pres_modify; done | apply pres_zoom; done]).
Qed.

Lemma MaybeAppend_up idx term committed entries l r l' : batch_ok idx term entries -> committed_ l <= idx ->
  MaybeAppend idx term committed entries l = Ret (r, l') -> log_up (zlen entries) l l'.
Proof.
  intros Hok Hidx E [W C] Hb. pose proof (view_bounds l W) as Hv. pose proof C as [C1 C2 C3].
  pose proof Hok as (Hi & Hl & Hc & Ht & H0).
  assert (Hr : term <> 0 \/ v_dummy (log_view l) <= idx <= v_last (log_view l)).
  { destruct (Z.eq_dec term 0) as [->|]; [right|by left]. specialize (H0 eq_refl). lia. }
  destruct (MaybeAppend_cases l idx term committed entries W C1 Hi Hl Hc Ht Hr) as (r' & l'' & E' & Hspec).
  rewrite E in E'. injection E' as <- <-. unfold append_outcome in Hspec.
  assert (Hsame : log_ok l /\ log_moves (zlen entries) l l).
  { split; [by split|]. eapply log_moves_weaken; [|apply log_moves_refl]. lia. }
  destruct r as [res|e]; [|by destruct Hspec as [-> _]].
  destruct (ma_term_matched res) eqn:Em; [|by destruct Hspec as [-> _]].
  destruct Hspec as (W' & Hterm & _ & Hpre & _ & _ & Hcm & Hcl).
  assert (Hin : idx <= v_last (log_view l)).
  { destruct Hr as [Hr|]; [|lia]. eapply v_term_inside in Hterm; [lia|done]. }
  destruct (v_last_appended l l' idx term committed entries res W C1 Hok Hr E Em) as (Hvl & Hvd & Ha & Hp).
  split; [split; [done|]|]; constructor; rewrite ?Hvd, ?Ha; try lia; auto with lia.
  by rewrite (MaybeAppend_store _ _ _ _ _ _ _ E).
Qed.

(** The log after a snapshot is taken over. *)
Definition restored (snapshot : Snapshot) (l : RaftLog S) : RaftLog S :=
  mkRaftLog (store_ l) (mkUnstable (Some snapshot) [] 0 (sn_index snapshot + 1))
    (sn_index snapshot) (if committed_ l <? persisted_ l then committed_ l else persisted_ l)
    (applied_ l) (max_apply_unpersisted_log_limit_ l).

Lemma Restore_run snapshot l r l' : 0 <= sn_index snapshot < u64max -> RaftLog.Restore snapshot l = Ret (r, l') ->
  (r <> Ok tt /\ l' = l) \/ (r = Ok tt /\ committed_ l <= sn_index snapshot /\ l' = restored snapshot l).
Proof.
  intros Hs E. unfold RaftLog.Restore in E. rewrite bind_get in E. destruct (Z.ltb_spec (sn_index snapshot) (committed_ l)) as [Hc|Hc].
  { injection E as <- <-. by left. }
  right. revert E. unfold restored, on_unstable, Unstable.Restore, zoom. rewrite (u64_id (sn_index snapshot + 1)) by u64_lia.
  destruct (committed_ l <? persisted_ l); cbn; intros [= <- <-]; done.
Qed.

Lemma restored_view snapshot l : log_view (restored snapshot l) = mkView (sn_index snapshot) (Some (sn_term snapshot)) [].
Proof. done. Qed.

Lemma Restore_up snapshot l r l' : 0 <= sn_index snapshot < u64max ->
  RaftLog.Restore snapshot l = Ret (r, l') -> log_up (sn_index snapshot) l l'.
Proof.
  intros Hs E [W C] Hb. pose proof (view_bounds l W) as Hv. pose proof C as [C1 C2 C3].
  destruct (Restore_run snapshot l r l' Hs E) as [[_ ->]|(_ & Hc & ->)].
  { split; [by split|]. eapply log_moves_weaken; [|apply log_moves_refl]. lia. }
  assert (Hp : 0 <= persisted_ (restored snapshot l) <= committed_ l) by (cbn; destruct (Z.ltb_spec (committed_ l) (persisted_ l)); lia).
  split; [split|].
  - constructor; cbn; [apply W| |done..]. constructor; cbn; (done || lia || congruence).
  - constructor; rewrite ?restored_view; unfold v_last; cbn in *; lia.
  - constructor; rewrite ?restored_view; unfold v_last in *; cbn in *; first [lia|done].
Qed.
End LogSafety.
