(* ===== verification/Fragments.v ===== *)
(** * Pieces of logs

    A log, a stored log and an append message all hold a run of consecutive
    entries after an entry of which only the term is known.  Two such pieces
    agree if an entry they have in common, with index and term, makes all they
    have in common before it equal.  The ways in which logs come about keep
    agreement: taking a part of a piece, joining two pieces at a common entry,
    and a leader's new entries. *)

From S2P Require Import Prelude Types Util Storage MemStorage Unstable ReadOnly Config RaftLog RaftLogProps Inflights Progress RaftCore RaftSend LogSafety.

(** The term at index [i], the one before the entries included. *)
Definition term_at (v : LogView) (i : Z) : option Z :=
  if i =? v_dummy v then v_dummy_term v else e_term <$> v_at v i.

Definition agree (v w : LogView) : Prop :=
  forall i t j, term_at v i = Some t -> term_at w i = Some t -> j <= i ->
    (forall a b, term_at v j = Some a -> term_at w j = Some b -> a = b) /\
    (forall a b, v_at v j = Some a -> v_at w j = Some b -> a = b).

Record sub (v w : LogView) : Prop := {
  sub_at i e : v_at v i = Some e -> v_at w i = Some e;
  sub_term i t : term_at v i = Some t -> term_at w i = Some t
}.

#[export] Instance sub_preorder : PreOrder sub.
Proof. split; [by constructor|]. intros u v w [A1 T1] [A2 T2]. constructor; auto. Qed.

Lemma agree_refl v : agree v v.
Proof. intros i t j _ _ _. split; congruence. Qed.

Lemma agree_sym v w : agree v w -> agree w v.
Proof. intros H i t j Hw Hv Hj. destruct (H i t j Hv Hw Hj) as [Ht Ha]. split; intros a b Ea Eb; symmetry; eauto. Qed.

Lemma agree_sub v v' w : sub v' v -> agree v w -> agree v' w.
Proof. intros [Sa St] H i t j Hv Hw Hj. destruct (H i t j (St _ _ Hv) Hw Hj) as [Ht Ha]. split; eauto. Qed.

Lemma term_at_entry v i e : v_at v i = Some e -> term_at v i = Some (e_term e).
Proof.
  intros E. unfold term_at. pose proof (v_at_Some v i e E). rewrite (proj2 (Z.eqb_neq i (v_dummy v))) by lia. by rewrite E.
Qed.

Lemma term_at_inside v i t : term_at v i = Some t -> v_dummy v <= i <= v_last v.
Proof.
  unfold term_at. destruct (Z.eqb_spec i (v_dummy v)) as [->|]; [unfold v_last; lia|].
  destruct (v_at v i) as [e|] eqn:E; [|done]. intros _. pose proof (v_at_Some v i e E). lia.
Qed.

Lemma term_at_above v i : v_dummy v < i -> term_at v i = e_term <$> v_at v i.
Proof. intros Hi. unfold term_at. by rewrite (proj2 (Z.eqb_neq i (v_dummy v))) by lia. Qed.

(** A piece has no holes. *)
Lemma term_at_between v i j p t a : term_at v j = Some a -> term_at v i = Some t -> j <= p <= i -> exists b, term_at v p = Some b.
Proof.
  intros Hj Hi Hp. destruct (decide (p = j)) as [->|]; [eauto|]. pose proof (term_at_inside _ _ _ Hj). pose proof (term_at_inside _ _ _ Hi).
  destruct (v_at_is_Some v p ltac:(lia)) as [e He]. exists (e_term e). by apply term_at_entry.
Qed.

(** [w] is [v] up to index [p], and then [m]. *)
Record joined (v m w : LogView) (p : Z) : Prop := {
  jo_below i : i <= p -> v_at w i = v_at v i /\ term_at w i = term_at v i;
  jo_above i : p < i -> v_at w i = v_at m i /\ term_at w i = term_at m i;
  jo_meet : exists t, term_at v p = Some t /\ term_at m p = Some t
}.

Lemma agree_joined v m w p g : joined v m w p -> agree v g -> agree m g -> agree w g.
Proof.
  intros [Hb Ha (t0 & Hv & Hm)] Av Am i t j Hi Hg Hj.
  destruct (Z.le_gt_cases i p) as [Hip|Hip].
  { destruct (Hb i Hip) as [_ Ei]. destruct (Hb j ltac:(lia)) as [-> ->]. rewrite Ei in Hi. eauto. }
  destruct (Ha i Hip) as [_ Ei]. rewrite Ei in Hi. destruct (Z.le_gt_cases j p) as [Hjp|Hjp].
  2:{ destruct (Ha j Hjp) as [-> ->]. eauto. }
  destruct (Hb j Hjp) as [-> ->].
  assert (H : forall b, term_at g j = Some b -> term_at g p = Some t0).
  { intros b Hgj. destruct (term_at_between g i j p t b Hgj Hg ltac:(lia)) as [c Hc]. rewrite Hc. f_equal.
    symmetry. eapply (Am i t p Hi Hg); [lia|exact Hm|exact Hc]. }
  split; intros a b Ea Eb.
  - eapply (Av p t0 j Hv); [eauto|done|exact Ea|exact Eb].
  - eapply (Av p t0 j Hv); [|done|exact Ea|exact Eb]. eapply H. by apply term_at_entry.
Qed.

(** [w] is [v] with more entries, all of term [t]. *)
Record longer (t : Z) (v w : LogView) : Prop := {
  lo_below i : i <= v_last v -> v_at w i = v_at v i /\ term_at w i = term_at v i;
  lo_above i t' : v_last v < i -> term_at w i = Some t' -> t' = t;
  lo_last : v_last v <= v_last w
}.

Lemma agree_longer t v w g : longer t v w -> (forall i, term_at g i = Some t -> i <= v_last v) -> agree v g -> agree w g.
Proof.
  intros [Hb Ha _] Hg Av i t' j Hi Hgi Hj. destruct (Z.le_gt_cases i (v_last v)) as [Hl|Hl].
  - destruct (Hb i Hl) as [_ Ei]. destruct (Hb j ltac:(lia)) as [-> ->]. rewrite Ei in Hi. eauto.
  - pose proof (Ha i t' Hl Hi) as ->. apply Hg in Hgi. lia.
Qed.

(** ** Messages as pieces *)

Definition piece_of (m : Message) : LogView := mkView (m_index m) (Some (m_log_term m)) (m_entries m).

(** An append message that has entries. *)
Definition carries (m : Message) : Prop := m_type m = MsgAppend /\ m_entries m <> [].

Lemma v_at_entries d t es i : v_at (mkView d t es) i = if d <? i then es !! Z.to_nat (i - d - 1) else None.
Proof. done. Qed.

Lemma v_at_slice_piece v lo n i e : v_dummy v < lo -> v_at (mkView (lo - 1) None (v_slice v lo (lo + n))) i = Some e -> v_at v i = Some e.
Proof.
  intros Hlo E. rewrite v_at_entries in E. destruct (Z.ltb_spec (lo - 1) i) as [Hi|Hi]; [|done].
  unfold v_slice in E. apply lookup_take_Some in E as [E _]. rewrite lookup_drop in E.
  unfold v_at. rewrite (proj2 (Z.ltb_lt _ _)) by lia. rewrite <- E. f_equal. lia.
Qed.

(** Inside a log [v_term] and [term_at] say the same. *)
Lemma v_term_Some v i t : v_term v i = Ok t -> v_dummy v <= i <= v_last v -> term_at v i = Some t.
Proof.
  intros Ht Hi. unfold term_at. unfold v_term in Ht. destruct (Z.eqb_spec i (v_dummy v)) as [->|Hne].
  - destruct (v_at _ _) as [e|] eqn:Ee; [pose proof (v_at_Some _ _ _ Ee); lia|]. destruct (v_dummy_term _); congruence.
  - destruct (v_at_is_Some v i) as [e Ee]; [lia|]. rewrite Ee in *. cbn. congruence.
Qed.

(** An append message is a part of the sender's log. *)
Lemma from_log_sub v m : m_type m = MsgAppend -> from_log v m -> sub (piece_of m) v.
Proof.
  intros Hm Hf. destruct (Hf Hm) as (Hd & Hl & Ht & He).
  assert (Hat : forall i e, v_at (piece_of m) i = Some e -> v_at v i = Some e).
  { intros i e E. eapply (v_at_slice_piece v (m_index m + 1) (zlen (m_entries m))); [lia|]. rewrite <- He.
    replace (m_index m + 1 - 1) with (m_index m) by lia. exact E. }
  constructor; [done|]. intros i t E. unfold term_at in E. cbn in E. destruct (Z.eqb_spec i (m_index m)) as [->|Hi].
  - injection E as <-. apply v_term_Some; [done|unfold v_last in *; lia].
  - destruct (v_at (piece_of m) i) as [e|] eqn:Ee; [|done]. cbn in E. injection E as <-. apply term_at_entry. by apply Hat.
Qed.

Section Logs.
Context {ENV : Env} {S : Type} {ST : Storage S} {SL : StorageLaws S}.
Implicit Types l : RaftLog S.

(** What [MaybeAppend] makes of a log. *)
Lemma MaybeAppend_joined idx term committed entries l r l' : log_ok l -> batch_ok idx term entries -> committed_ l <= idx ->
  MaybeAppend idx term committed entries l = Ret (r, l') ->
  log_view l' = log_view l \/ entries <> [] /\ exists p, joined (log_view l) (mkView idx (Some term) entries) (log_view l') p.
Proof.
  intros [W [C1 C2 C3]] (Hi & Hl & Hc & Ht & H0) Hidx E. pose proof (view_bounds l W) as Hb.
  assert (Hiu : is_u64 idx) by (unfold is_u64, two64, u64max in *; lia).
  destruct (decide (v_term (log_view l) idx = Ok term)) as [Et|Et].
  2:{ rewrite MaybeAppend_mismatch in E by done. injection E as _ <-. by left. }
  assert (Hin : v_dummy (log_view l) <= idx <= v_last (log_view l)).
  { destruct (Z.eq_dec term 0) as [->|]; [specialize (H0 eq_refl); lia|]. by eapply v_term_inside. }
  assert (Hu : Forall (fun e => is_u64 (e_index e)) entries).
  { apply Forall_lookup. intros j e Hj. rewrite (contiguous_lookup _ _ _ _ Hc Hj).
    apply lookup_lt_Some in Hj. unfold is_u64, two64, u64max in *. lia. }
  destruct (v_new_fate (log_view l) entries (committed_ l)) as [Hn|(e & rest & En & He)].
  2:{ apply v_new_first in En as Hf. destruct Hf as [Hel _]. assert (0 < e_index e).
      { apply list_elem_of_lookup_1 in Hel as [j Hj]. rewrite (contiguous_lookup _ _ _ _ Hc Hj). lia. }
      rewrite (MaybeAppend_conflict l idx term committed entries e rest) in E by (done || lia). injection E as _ <-. by left. }
  rewrite (MaybeAppend_run l idx term committed entries) in E by (done || lia). injection E as _ <-.
  destruct (appended_view l idx committed entries W ltac:(lia) Hin Hl Hc Ht Hn) as (_ & _ & ->).
  destruct (v_new_spec (log_view l) (idx + 1) entries Hc Ht) as (k & Hk & Hd & Hm & Hlast); [lia|].
  pose proof (contiguous_drop (idx + 1) entries k Hk Hc) as Hcd. rewrite <- Hd in Hcd.
  destruct (v_new (log_view l) entries) as [|x rest]; [by left|]. right. destruct Hcd as [Hx _].
  split; [intros ->; by destruct k|]. exists (idx + Z.of_nat k).
  assert (Hr : v_dummy (log_view l) < e_index x <= v_last (log_view l) + 1) by lia.
  constructor.
  - intros i Hip. rewrite v_replace_below by lia. split; [done|]. unfold term_at. by rewrite v_replace_below by lia.
  - intros i Hip. assert (Ha : v_at (v_replace (log_view l) (e_index x) (x :: rest)) i = v_at (mkView idx (Some term) entries) i).
    { replace i with (e_index x + Z.of_nat (Z.to_nat (i - e_index x))) at 1 by lia. rewrite v_replace_above, Hd, lookup_drop by done.
      rewrite v_at_entries, (proj2 (Z.ltb_lt _ _)) by lia. f_equal. lia. }
    split; [done|]. rewrite !term_at_above by (cbn; lia). by rewrite Ha.
  - destruct k as [|k].
    + rewrite Z.add_0_r. exists term. split; [|unfold term_at; cbn; by rewrite Z.eqb_refl].
      by apply v_term_Some.
    + destruct (lookup_lt_is_Some_2 entries k ltac:(lia)) as [e Hek]. destruct (Hm k e ltac:(lia) Hek) as (e' & He' & Hee).
      exists (e_term e). rewrite <- Hee at 1. replace (idx + Z.of_nat (Datatypes.S k)) with (idx + 1 + Z.of_nat k) by lia.
      split; [by apply term_at_entry|]. apply term_at_entry. rewrite v_at_entries, (proj2 (Z.ltb_lt _ _)) by lia. rewrite <- Hek. f_equal. lia.
Qed.

(** What a leader's [Append] makes of a log. *)
Lemma Append_longer t entries l r l' : log_ok l -> contiguous (v_last (log_view l) + 1) entries ->
  v_last (log_view l) + zlen entries < u64max -> Forall (fun e => e_term e = t) entries ->
  Append entries l = Ret (r, l') -> longer t (log_view l) (log_view l').
Proof.
  intros [W C] Hc Hb Ht E. pose proof (view_bounds l W) as Hv. destruct entries as [|e rest].
  { apply getsO_Ret in E as (? & _ & [= _ ->]). constructor; [done| |lia]. intros i t' Hi Hx. apply term_at_inside in Hx. lia. }
  pose proof (proj1 Hc) as He. destruct C as [C1 C2 C3].
  destruct (Append_view l e rest W) as (l1 & E1 & -> & W1 & Hv1); rewrite ?He; try lia; [done|].
  rewrite E1 in E. injection E as _ <-. rewrite Hv1. constructor.
  - intros i Hi. rewrite v_replace_below by lia. split; [done|]. unfold term_at. by rewrite v_replace_below by lia.
  - intros i t' Hi Hx. rewrite term_at_above in Hx by (cbn; lia).
    replace i with (e_index e + Z.of_nat (Z.to_nat (i - e_index e))) in Hx by lia. rewrite v_replace_above in Hx by lia.
    destruct ((e :: rest) !! _) as [x|] eqn:Ex; [|done]. injection Hx as <-. by eapply Forall_lookup_1 in Ht.
  - rewrite v_replace_last by lia. cbn. lia.
Qed.
End Logs.
