(* ===== verification/Raft.v ===== *)
(** * The node

    Model of [lib/core/raft.cc]: elections, replication, commitment,
    configuration changes, snapshots, reads and ticks.  A [Raft] is a
    [RaftCore] (the base class) with the progress tracker, the outgoing
    messages and the configuration.  [draws_] counts the draws from the
    process-wide random generator. *)

From S2P Require Import Prelude Types Util Inflights Progress Quorum Tracker ConfChange Storage Unstable ReadOnly Config RaftLog RaftCore.

Record Raft (S : Type) := mkRaft {
  core_ :> RaftCore S;
  progress_tracker_ : ProgressTracker;
  messages_ : list Message;
  config_ : Config;
  draws_ : nat
}.
Arguments mkRaft {S}.
Arguments core_ {S}.
Arguments progress_tracker_ {S}.
Arguments messages_ {S}.
Arguments config_ {S}.
Arguments draws_ {S}.
#[export] Instance Raft_eta S : Eta (Raft S) := fun r =>
  mkRaft (core_ r) (progress_tracker_ r) (messages_ r) (config_ r) (draws_ r).

(** Assignment to a member of the base class. *)
Notation "'core!' p ':=' v" := (modify (fun this => this <| core_ := (core_ this) <| p := v |> |>))
  (at level 10, p at level 0, v at level 100) : monad_scope.

Inductive CampaignType := CampaignPreElection | CampaignElection | CampaignTransfer.

#[export] Instance CampaignType_eq_dec : EqDecision CampaignType.
Proof. solve_decision. Defined.

Definition kCampaignTransfer : string := "CampaignTransfer".

(** [uint64_t] to [int64_t]. *)
Definition i64 (x : Z) : Z := if x <? 2 ^ 63 then x else x - two64.

Definition VoteRespMsgType (mt : MessageType) : outcome MessageType :=
  match mt with
  | MsgRequestVote => Ret MsgRequestVoteResponse
  | MsgRequestPreVote => Ret MsgRequestPreVoteResponse
  | _ => Abort (Panic "not a vote message: {}")
  end.

(** [LeaveJoint(cc)] and [EnterJoint(cc)]. *)
Definition cc_LeaveJoint (cc : ConfChangeV2) : bool :=
  bool_decide (cc_transition cc = CCAuto) && bool_decide (cc_changes cc = []).

Definition cc_EnterJoint (cc : ConfChangeV2) : option bool :=
  if negb (bool_decide (cc_transition cc = CCAuto)) || (1 <? zlen (cc_changes cc)) then
    match cc_transition cc with
    | CCAuto | CCImplicit => Some true
    | CCExplicit => Some false
    end
  else None.

(** Two sorted vectors are equal when the lists are permutations. *)
Definition same_elements (a b : list Z) : bool :=
  bool_decide (merge_sort Z.le a = merge_sort Z.le b).

Definition ConfStatesEqualIgnoringOrder (a b : ConfState) : bool :=
  same_elements (cs_voters a) (cs_voters b) &&
  same_elements (cs_learners a) (cs_learners b) &&
  same_elements (cs_voters_outgoing a) (cs_voters_outgoing b).

Section Raft.
Context {ENV : Env} {S : Type} {ST : Storage S}.

(** ** Members *)

Definition on_log {A} (m : M (RaftLog S) A) : M (Raft S) A :=
  zoom (fun r : Raft S => raft_log_ r) (fun l (r : Raft S) => r <| core_ := (core_ r) <| raft_log_ := l |> |>) m.

Definition on_tracker {A} (m : M ProgressTracker A) : M (Raft S) A :=
  zoom progress_tracker_ (fun t (r : Raft S) => r <| progress_tracker_ := t |>) m.

Definition on_read_only {A} (m : M ReadOnly A) : M (Raft S) A :=
  zoom (fun r : Raft S => read_only_ r) (fun x (r : Raft S) => r <| core_ := (core_ r) <| read_only_ := x |> |>) m.

Definition on_uncommitted {A} (m : M UncommittedState A) : M (Raft S) A :=
  zoom (fun r : Raft S => uncommitted_state_ r)
    (fun x (r : Raft S) => r <| core_ := (core_ r) <| uncommitted_state_ := x |> |>) m.

Definition this : M (Raft S) (Raft S) := get.

Definition last_index_of (r : Raft S) : outcome Z := LastIndex (raft_log_ r).

(** The progress of a peer; using an absent one is an assertion failure. *)
Definition get_progress (id : Z) (r : Raft S) : option Progress := progress_ (progress_tracker_ r) !! id.

Definition put_progress (id : Z) (p : Progress) (r : Raft S) : Raft S :=
  r <| progress_tracker_ :=
    (progress_tracker_ r) <| progress_ := <[id := p]> (progress_ (progress_tracker_ r)) |> |>.

Definition on_progress {A} (id : Z) (m : M Progress A) : M (Raft S) A := fun r =>
  match get_progress id r with
  | None => Abort (Panic "progress_.count(id) != 0")
  | Some p =>
      match m p with
      | Ret (a, p') => Ret (a, put_progress id p' r)
      | Abort f => Abort f
      end
  end.

(** A send function of [RaftCore], called with the progress of [id] and
    [messages_]. *)
Definition with_progress {A} (id : Z) (m : M (SendCtx S) A) : M (Raft S) A := fun r =>
  match get_progress id r with
  | None => Abort (Panic "progress_.count(id) != 0")
  | Some p =>
      match m (mkSendCtx (core_ r) p (messages_ r)) with
      | Ret (a, c) =>
          Ret (a, put_progress id (sc_pr c) (r <| core_ := sc_core c |> <| messages_ := sc_messages c |>))
      | Abort f => Abort f
      end
  end.

(** The loop over the progress map, in its iteration order. *)
Definition each_peer (body : Z -> M (Raft S) unit) : M (Raft S) unit :=
  let! r := this in
  foreach (iter (dom (progress_ (progress_tracker_ r)))) body.

Definition send (m : Message) : M (Raft S) unit :=
  let! m := getsO (fun r : Raft S => stamp (core_ r) m) in
  modify (fun r : Raft S => r <| messages_ := messages_ r ++ [m] |>).

Definition is_role (role : StateRole) (r : Raft S) : bool := bool_decide (state_ r = role).

(** ** Timeouts, reset, roles *)

Definition ResetRandomizedElectionTimeout : M (Raft S) unit :=
  let! r := this in
  core! randomized_election_timeout_ := draw (draws_ r) (min_election_timeout_ r) (max_election_timeout_ r -! 1) ;;;
  set! draws_ := Datatypes.S (draws_ r).

Definition AbortLeaderTransfer : M (Raft S) unit := core! lead_transferee_ := None.

(** [Reset] in three parts: the term, what belongs to the role, the peers. *)
Definition reset_term (term : Z) : M (Raft S) unit :=
  let! r := this in
  when (negb (term_ r =? term))
    (core! term_ := term ;;;
     core! vote_ := kInvalidId).

Definition reset_role : M (Raft S) unit :=
  core! leader_id_ := kInvalidId ;;;
  ResetRandomizedElectionTimeout ;;;
  core! election_elapsed_ := 0 ;;;
  core! heartbeat_elapsed_ := 0 ;;;
  AbortLeaderTransfer ;;;
  on_tracker ResetVotes ;;;
  core! pending_conf_index_ := 0 ;;;
  modify (fun r : Raft S => r <| core_ := (core_ r) <| read_only_ := ReadOnly.new (option_ (read_only_ r)) |> |>) ;;;
  core! pending_request_snapshot_ := kInvalidIndex.

Definition reset_peers : M (Raft S) unit :=
  let! last_index := getsO last_index_of in
  let! r := this in
  let committed := committed_ (raft_log_ r) in
  let persisted := persisted_ (raft_log_ r) in
  each_peer (fun id => on_progress id
    (Progress.Reset (last_index +! 1) ;;;
     when (id =? id_ r)
       (set! matched_ := persisted ;;;
        set! committed_index_ := committed))).

Definition Reset (term : Z) : M (Raft S) unit :=
  reset_term term ;;;
  reset_role ;;;
  reset_peers.

Definition BecomeFollower (term leader_id : Z) : M (Raft S) unit :=
  let! r := this in
  let pending_request_snapshot := pending_request_snapshot_ r in
  Reset term ;;;
  core! leader_id_ := leader_id ;;;
  core! state_ := Follower ;;;
  core! pending_request_snapshot_ := pending_request_snapshot ;;;
  on_log (set! max_apply_unpersisted_log_limit_ := 0).

Definition BecomePreCandidate : M (Raft S) unit :=
  let! r := this in
  assert (negb (is_role Leader r)) "invalid transition [leader -> pre-candidate]" ;;;
  core! state_ := PreCandidate ;;;
  on_tracker ResetVotes ;;;
  core! leader_id_ := kInvalidId.

Definition BecomeCandidate : M (Raft S) unit :=
  let! r := this in
  assert (negb (is_role Leader r)) "invalid transition [leader -> candidate]" ;;;
  Reset (term_ r +! 1) ;;;
  core! vote_ := id_ r ;;;
  core! state_ := Candidate ;;;
  modify (fun r : Raft S => r <| core_ := (core_ r) <| promotable_ :=
    JointContains (voters (conf_ (progress_tracker_ r))) (id_ r) |> |>).

(** ** Appending *)

(** [AppendEntry(entries)]: the entries get the node's term and consecutive
    indexes. *)
Fixpoint number_entries (term last_index : Z) (i : Z) (entries : list Entry) : list Entry :=
  match entries with
  | [] => []
  | e :: rest => e <| e_term := term |> <| e_index := u64 (last_index + i + 1) |> ::
                 number_entries term last_index (i + 1) rest
  end.

Definition AppendEntry (entries : list Entry) : M (Raft S) bool :=
  let! ok := on_uncommitted (MaybeIncreaseUncommittedSize entries) in
  if negb ok then ret false
  else
    let! last_index := getsO last_index_of in
    let! r := this in
    on_log (Append (number_entries (term_ r) last_index 0 entries)) ;;;
    ret true.

Definition BecomeLeader : M (Raft S) unit :=
  let! r := this in
  assert (negb (is_role Follower r)) "invalid transition [follower -> leader]" ;;;
  Reset (term_ r) ;;;
  core! leader_id_ := id_ r ;;;
  core! state_ := Leader ;;;
  let! last_index := getsO last_index_of in
  on_uncommitted (set! uncommitted_size := 0 ;;; set! last_log_tail_index := last_index) ;;;
  on_progress (id_ r) BecomeReplicate ;;;
  core! pending_conf_index_ := last_index ;;;
  let! ok := AppendEntry [empty_entry] in
  assert ok "appending an empty entry should never be dropped".

(** ** Sending *)

Definition SendAppend (to : Z) : M (Raft S) unit := with_progress to (RaftCore.SendAppend to).

Definition SendAppendAggressively (to : Z) : M (Raft S) unit :=
  with_progress to (RaftCore.SendAppendAggressively to).

Definition BroadcastAppend : M (Raft S) unit :=
  let! r := this in
  each_peer (fun id => if id =? id_ r then ret tt else SendAppend id).

Definition SendHeartbeat (to : Z) (ctx : option string) : M (Raft S) unit :=
  let! pr := getsO (fun r : Raft S => at_ to (progress_tracker_ r)) in
  let! r := this in
  send (empty_message <| m_to := to |> <| m_type := MsgHeartbeat |>
    <| m_commit := Z.min (matched_ pr) (committed_ (raft_log_ r)) |>
    <| m_context := default ""%string ctx |>).

Definition BroadcastHeartbeat_with (ctx : option string) : M (Raft S) unit :=
  let! r := this in
  each_peer (fun id => if id =? id_ r then ret tt else SendHeartbeat id ctx).

Definition BroadcastHeartbeat : M (Raft S) unit :=
  let! r := this in
  BroadcastHeartbeat_with (LastPendingRequestCtx (read_only_ r)).

Definition SendTimeoutNow (to : Z) : M (Raft S) unit :=
  send (empty_message <| m_to := to |> <| m_type := MsgTimeoutNow |>).

Definition SendRequestSnapshot : M (Raft S) unit :=
  let! last_index := getsO last_index_of in
  let! r := this in
  let m := empty_message <| m_type := MsgAppendResponse |> <| m_index := committed_ (raft_log_ r) |>
    <| m_reject := true |> <| m_reject_hint := last_index |> <| m_to := leader_id_ r |>
    <| m_request_snapshot := pending_request_snapshot_ r |> in
  let! term := getsO (fun r : Raft S => Term last_index (raft_log_ r)) in
  send (match term with Ok t => m <| m_log_term := t |> | Err _ => m end).

(** ** Commitment *)

Definition MaybeCommit : M (Raft S) bool :=
  let! (max_commit_index, _) := getsO (fun r : Raft S => MaxCommittedIndex (progress_tracker_ r)) in
  let! r := this in
  let! committed := on_log (RaftLog.MaybeCommit max_commit_index (term_ r)) in
  if committed then
    let! r := this in
    on_progress (id_ r) (UpdateCommitted (committed_ (raft_log_ r))) ;;;
    ret true
  else ret false.

Definition HasPendingConf (r : Raft S) : bool := applied_ (raft_log_ r) <? pending_conf_index_ r.

Definition ShouldBroadcastCommit (r : Raft S) : bool :=
  negb (skip_broadcast_commit_ r) || HasPendingConf r.

Definition OnPersistEntries (index term : Z) : M (Raft S) unit :=
  let! update := on_log (MaybePersist index term) in
  let! r := this in
  if update && is_role Leader r then
    let! updated := on_progress (id_ r) (MaybeUpdate index) in
    if updated then
      let! committed := MaybeCommit in
      let! r := this in
      when (committed && ShouldBroadcastCommit r) BroadcastAppend
    else ret tt
  else ret tt.

Definition OnPersistSnapshot (index : Z) : M (Raft S) unit :=
  on_log (MaybePersistSnapshot index) ;;; ret tt.

(** ** Elections *)

(** [Poll] calls [Campaign] and [Campaign] calls [Poll]: a won pre-election
    starts the election, a won election makes a leader.  [campaign] is the
    call [Campaign(kCampaignElection)]. *)
Definition PollWith (campaign : M (Raft S) unit) (from : Z) (vote : bool) : M (Raft S) VoteResult :=
  on_tracker (RecordVote from vote) ;;;
  let! r := this in
  let '(_, _, result) := CountVotes (progress_tracker_ r) in
  match result with
  | VotePending => ret tt
  | VoteLost => BecomeFollower (term_ r) kInvalidId
  | VoteWon =>
      if is_role PreCandidate r then campaign
      else BecomeLeader ;;; BroadcastAppend
  end ;;;
  ret result.

(** The vote requests to the other voters. *)
Definition send_vote_requests (campaign_type : CampaignType) (vote_msg : MessageType) (term : Z) :
    M (Raft S) unit :=
  let! (commit, commit_term) := getsO (fun r : Raft S => CommitInfo (raft_log_ r)) in
  let! r := this in
  foreach (iter (JointIDs (voters (conf_ (progress_tracker_ r))))) (fun id =>
    if id =? id_ r then ret tt
    else
      let! last_index := getsO last_index_of in
      let! last_term := getsO (fun r : Raft S => LastTerm (raft_log_ r)) in
      let m := empty_message <| m_to := id |> <| m_type := vote_msg |> <| m_term := term |>
        <| m_index := last_index |> <| m_log_term := last_term |> <| m_commit := commit |>
        <| m_commit_term := commit_term |> in
      send (if bool_decide (campaign_type = CampaignTransfer)
            then m <| m_context := kCampaignTransfer |> else m)).

Definition CampaignWith (campaign : M (Raft S) unit) (campaign_type : CampaignType) : M (Raft S) unit :=
  let! (vote_msg, term) :=
    (if bool_decide (campaign_type = CampaignPreElection) then
       BecomePreCandidate ;;;
       let! r := this in
       ret (MsgRequestPreVote, term_ r +! 1)
     else
       BecomeCandidate ;;;
       let! r := this in
       ret (MsgRequestVote, term_ r)) in
  let! r := this in
  let! result := PollWith campaign (id_ r) true in
  if bool_decide (result = VoteWon) then ret tt
  else send_vote_requests campaign_type vote_msg term.

(** The recursion is two calls deep: the inner election does not start
    another one. *)
Fixpoint CampaignFuel (fuel : nat) (campaign_type : CampaignType) : M (Raft S) unit :=
  match fuel with
  | O => abort NoFuel
  | Datatypes.S fuel' => CampaignWith (CampaignFuel fuel' CampaignElection) campaign_type
  end.

Definition Campaign : CampaignType -> M (Raft S) unit := CampaignFuel 2.

Definition Poll (from : Z) (vote : bool) : M (Raft S) VoteResult :=
  PollWith (CampaignFuel 1 CampaignElection) from vote.

(** The lambda of [HasUnappliedConfChanges]. *)
Definition scan_conf_change (ents : list Entry) (found : bool) : bool * bool :=
  if existsb (fun e => bool_decide (e_type e = EntryConfChangeV2)) ents then (true, false)
  else (found, true).

Definition HasUnappliedConfChanges (low high : Z) (ctx : GetEntriesContext) : M (Raft S) bool :=
  let! r := this in
  if committed_ (raft_log_ r) <=? applied_ (raft_log_ r) then ret false
  else
    let! res := on_log (Scan (Datatypes.S (Z.to_nat (high - low))) low high
                          (max_committed_size_per_ready_ r) ctx scan_conf_change false) in
    match res with
    | Ok found => ret found
    | Err _ => abort (Panic "error scanning unapplied entries [{}, {}): {:?}")
    end.

Definition Hup (transfer_leader : bool) : M (Raft S) unit :=
  let! r := this in
  if is_role Leader r then ret tt
  else
    let low := match MaybeFirstIndex (unstable_ (raft_log_ r)) with
               | Some idx => idx
               | None => applied_ (raft_log_ r) +! 1
               end in
    let high := committed_ (raft_log_ r) +! 1 in
    let! pending := HasUnappliedConfChanges low high ForTransferLeader in
    if pending then ret tt
    else if transfer_leader then Campaign CampaignTransfer
    else if pre_vote_ r then Campaign CampaignPreElection
    else Campaign CampaignElection.

Definition MaybeCommitByVote (m : Message) : M (Raft S) unit :=
  if (m_commit m =? 0) || (m_commit_term m =? 0) then ret tt
  else
    let! r := this in
    let last_commit := committed_ (raft_log_ r) in
    if (m_commit m <=? last_commit) || is_role Leader r then ret tt
    else
      let! committed := on_log (RaftLog.MaybeCommit (m_commit m) (m_commit_term m)) in
      if negb committed then ret tt
      else if negb (is_role Candidate r) && negb (is_role PreCandidate r) then ret tt
      else
        let! r := this in
        let low := last_commit +! 1 in
        let high := committed_ (raft_log_ r) +! 1 in
        let! found := HasUnappliedConfChanges low high (ForEmpty false) in
        when found (BecomeFollower (term_ r) kInvalidId).
(** ** Reads *)

(** A local read is answered through [read_states_], a forwarded one by a
    message; only data and context of its entries go back. *)
Definition HandleReadyReadIndex (req : Message) (index : Z) : M (Raft S) (option Message) :=
  let! r := this in
  if (m_from req =? kInvalidId) || (m_from req =? id_ r) then
    let ctx := match m_entries req with e :: _ => e_data e | [] => ""%string end in
    core! read_states_ := (read_states_ r ++ [mkReadState index ctx]) ;;;
    ret None
  else
    ret (Some (empty_message <| m_to := m_from req |> <| m_type := MsgReadIndexResp |>
      <| m_index := index |>
      <| m_entries := map (fun e => empty_entry <| e_data := e_data e |> <| e_context := e_context e |>)
                        (m_entries req) |>)).

Definition answer_read (req : Message) (index : Z) : M (Raft S) unit :=
  let! m := HandleReadyReadIndex req index in
  match m with
  | Some m => send m
  | None => ret tt
  end.

(** An acknowledged context answers its request and the ones before it. *)
Definition ack_read (id : Z) (ctx : string) : M (Raft S) unit :=
  let! acks := on_read_only (RecvACK id ctx) in
  match acks with
  | None => ret tt
  | Some acks =>
      let! r := this in
      if HasQuorum acks (progress_tracker_ r) then
        let! rss := on_read_only (Advance ctx) in
        foreach rss (fun rs => answer_read (ri_req rs) (ri_index rs))
      else ret tt
  end.

(** ** Configuration changes *)

Definition PostConfChange : M (Raft S) ConfState :=
  let! r := this in
  let conf := conf_ (progress_tracker_ r) in
  let cs := ToConfState conf in
  let is_voter := JointContains (voters conf) (id_ r) in
  core! promotable_ := is_voter ;;;
  if negb is_voter && is_role Leader r then ret cs
  else if negb (is_role Leader r) || bool_decide (cs_voters cs = []) then ret cs
  else
    let! committed := MaybeCommit in
    (if committed then BroadcastAppend
     else each_peer (fun id =>
       if id =? id_ r then ret tt
       else with_progress id (MaybeSendAppend id false) ;;; ret tt)) ;;;
    let! r := this in
    match LastPendingRequestCtx (read_only_ r) with
    | Some ctx => ack_read (id_ r) ctx
    | None => ret tt
    end ;;;
    let! r := this in
    match lead_transferee_ r with
    | Some t => when (negb (JointContains (voters (conf_ (progress_tracker_ r))) t)) AbortLeaderTransfer
    | None => ret tt
    end ;;;
    ret cs.

Definition ApplyConfChange (cc : ConfChangeV2) : M (Raft S) (Result ConfState) :=
  let! t := gets progress_tracker_ in
  let r :=
    (if cc_LeaveJoint cc then LeaveJoint t
     else match cc_EnterJoint cc with
          | Some auto_leave => EnterJoint auto_leave (cc_changes cc) t
          | None => Simple (cc_changes cc) t
          end) in
  match r with
  | Err e => ret (Err e)
  | Ok (cfg, changes) =>
      let! last_index := getsO last_index_of in
      on_tracker (ApplyConf cfg changes last_index) ;;;
      let! cs := PostConfChange in
      ret (Ok cs)
  end.

(** The entry that leaves a joint configuration. *)
Definition leave_joint_entry : Entry :=
  SetEntryChecksum (empty_entry <| e_type := EntryConfChangeV2 |>
    <| e_data := cc_encode empty_conf_change_v2 |>).

Definition CommitApplyInternal (applied : Z) (skip_check : bool) : M (Raft S) unit :=
  let! r := this in
  let old_applied := applied_ (raft_log_ r) in
  (if negb skip_check then on_log (AppliedTo applied)
   else assert (0 <? applied) "applied > 0" ;;; on_log (AppliedToUnchecked applied)) ;;;
  let! r := this in
  if auto_leave (conf_ (progress_tracker_ r)) && (old_applied <=? pending_conf_index_ r) &&
     (pending_conf_index_ r <=? applied) && is_role Leader r then
    let! ok := AppendEntry [leave_joint_entry] in
    assert ok "appending an empty EntryConfChangeV2 should never be dropped" ;;;
    let! last_index := getsO last_index_of in
    core! pending_conf_index_ := last_index
  else ret tt.

Definition CommitApply (applied : Z) : M (Raft S) unit := CommitApplyInternal applied false.

(** ** Construction *)

Definition LoadState (hs : HardState) : M (Raft S) unit :=
  let! r := this in
  let! last_index := getsO last_index_of in
  if (hs_commit hs <? committed_ (raft_log_ r)) || (last_index <? hs_commit hs) then
    abort (Panic "hs.commit {} is out of range [{}, {}]")
  else
    on_log (set! committed_ := hs_commit hs) ;;;
    core! term_ := hs_term hs ;;;
    core! vote_ := hs_vote hs.

(** The body of the constructor, after the members are built. *)
Definition construct (config : Config) : M (Raft S) unit :=
  match Validate config with
  | Err _ => abort (Panic "invalid config")
  | Ok _ => ret tt
  end ;;;
  let! r := this in
  let! raft_state := match GetInitialState (raft_log_ r) with
                     | Err _ => abort (Panic "initial state")
                     | Ok s => ret s
                     end in
  let! last_index := getsO last_index_of in
  let! restored := on_tracker (ConfChange.Restore last_index (rs_conf_state raft_state)) in
  match restored with
  | Err _ => abort (Panic "Configuration restore failed, err: {}")
  | Ok _ => ret tt
  end ;;;
  let! new_cs := PostConfChange in
  assert (ConfStatesEqualIgnoringOrder (rs_conf_state raft_state) new_cs)
    "invalid restore: configuration mismatch" ;;;
  when (c_load_state_on_startup config && negb (bool_decide (rs_hard_state raft_state = empty_hard_state)))
    (LoadState (rs_hard_state raft_state)) ;;;
  when (0 <? c_applied config) (CommitApplyInternal (c_applied config) true) ;;;
  let! r := this in
  BecomeFollower (term_ r) kInvalidId.

Definition new (config : Config) (store : S) (draws : nat) : outcome (Raft S) :=
  let? core := RaftCore.new config store in
  let? (_, r) := construct config
    (mkRaft core (Tracker.new (c_max_inflight_messages config)) [] config draws) in
  Ret r.
(** ** Handlers of a leader *)

Definition HandleAppendResponse (m : Message) : M (Raft S) unit :=
  let from := m_from m in
  let! next_probe_index :=
    (if m_reject m && (0 <? m_log_term m) then
       let! (i, _) := getsO (fun r : Raft S => FindConflictByTerm (m_reject_hint m) (m_log_term m) (raft_log_ r)) in
       ret i
     else ret (m_reject_hint m)) in
  let! r := this in
  match get_progress from r with
  | None => ret tt
  | Some _ =>
      on_progress from (set! recent_active_ := true ;;; UpdateCommitted (m_commit m)) ;;;
      if m_reject m then
        let! decreased := on_progress from (MaybeDecTo (m_index m) next_probe_index (m_request_snapshot m)) in
        if decreased then
          on_progress from
            (let! pr := get in
             when (bool_decide (Progress.state_ pr = Replicate)) BecomeProbe) ;;;
          SendAppend from
        else ret tt
      else
        let! old_paused := on_progress from (gets IsPaused) in
        let! updated := on_progress from (MaybeUpdate (m_index m)) in
        if negb updated then ret tt
        else
          on_progress from
            (let! pr := get in
             match Progress.state_ pr with
             | Probe => BecomeReplicate
             | Replicate =>
                 on_inflights (FreeTo (m_index m)) ;;;
                 let! pr := get in
                 when (IsSnapshotCaughtUp pr) BecomeProbe
             | PSnapshot => when (IsSnapshotCaughtUp pr) BecomeProbe
             end) ;;;
          let! committed := MaybeCommit in
          let! r := this in
          (if committed then when (ShouldBroadcastCommit r) BroadcastAppend
           else when old_paused (SendAppend from)) ;;;
          SendAppendAggressively from ;;;
          let! r := this in
          if bool_decide (lead_transferee_ r = Some from) then
            let! pr := getsO (fun r : Raft S => at_ from (progress_tracker_ r)) in
            let! last_index := getsO last_index_of in
            when (matched_ pr =? last_index) (SendTimeoutNow from)
          else ret tt
  end.

Definition HandleHeartbeatResponse (m : Message) : M (Raft S) unit :=
  let from := m_from m in
  let! r := this in
  match get_progress from r with
  | None => ret tt
  | Some _ =>
      on_progress from
        (UpdateCommitted (m_commit m) ;;;
         set! recent_active_ := true ;;;
         Resume ;;;
         let! pr := get in
         when (bool_decide (Progress.state_ pr = Replicate) && Full (inflights_ pr))
           (on_inflights FreeFirstOne)) ;;;
      let! pr := getsO (fun r : Raft S => at_ from (progress_tracker_ r)) in
      let! last_index := getsO last_index_of in
      when ((matched_ pr <? last_index) || negb (Progress.pending_request_snapshot_ pr =? kInvalidIndex))
        (SendAppend from) ;;;
      let! r := this in
      if negb (bool_decide (option_ (read_only_ r) = Safe)) || (slen (m_context m) =? 0) then ret tt
      else ack_read from (m_context m)
  end.

Definition HandleSnapshotStatus (m : Message) : M (Raft S) unit :=
  let! r := this in
  match get_progress (m_from m) r with
  | None => ret tt
  | Some pr =>
      if negb (bool_decide (Progress.state_ pr = PSnapshot)) then ret tt
      else
        on_progress (m_from m)
          ((if m_reject m then SnapshotFailure ;;; BecomeProbe else BecomeProbe) ;;;
           Pause ;;;
           set! Progress.pending_request_snapshot_ := kInvalidIndex)
  end.

Definition HandleUnreachable (m : Message) : M (Raft S) unit :=
  let! r := this in
  match get_progress (m_from m) r with
  | None => ret tt
  | Some pr => when (bool_decide (Progress.state_ pr = Replicate)) (on_progress (m_from m) BecomeProbe)
  end.

Definition HandleTransferLeader (m : Message) : M (Raft S) unit :=
  let from := m_from m in
  let! r := this in
  match get_progress from r with
  | None => ret tt
  | Some pr =>
      if bool_decide (from ∈ learners (conf_ (progress_tracker_ r))) then ret tt
      else if bool_decide (lead_transferee_ r = Some from) then ret tt
      else
        when (bool_decide (is_Some (lead_transferee_ r))) AbortLeaderTransfer ;;;
        if from =? id_ r then ret tt
        else
          core! election_elapsed_ := 0 ;;;
          core! lead_transferee_ := Some from ;;;
          let! last_index := getsO last_index_of in
          if matched_ pr =? last_index then SendTimeoutNow from else SendAppend from
  end.

Definition CheckQuorumActive : M (Raft S) bool :=
  let! r := this in
  on_tracker (QuorumRecentlyActive (id_ r)).

Definition CommitToCurrentTerm (r : Raft S) : outcome bool :=
  let? term := Term (committed_ (raft_log_ r)) (raft_log_ r) in
  Ret (result_is term (term_ r)).

(** The loop of [MSG_PROPOSE]: [None] drops the proposal, otherwise the
    position of its configuration change. *)
Fixpoint check_proposal (pending : bool) (i : Z) (entries : list Entry) (position : option Z) :
    option (option Z) :=
  match entries with
  | [] => Some position
  | ent :: rest =>
      if bool_decide (e_type ent = EntryConfChangeV2) then
        if pending || bool_decide (is_Some position) || (slen (e_data ent) =? 0) ||
           bool_decide (cc_decode (e_data ent) = None)
        then None
        else check_proposal pending (i + 1) rest (Some i)
      else check_proposal pending (i + 1) rest position
  end.

Definition dropped {A} : M (Raft S) (Result A) := ret (Err (ERaft ProposalDropped)).

(** [case MSG_PROPOSE] of [StepLeader]. *)
Definition propose (entries : list Entry) : M (Raft S) (Result unit) :=
  assert (negb (bool_decide (entries = []))) "stepped empty MsgProp" ;;;
  let! r := this in
  if bool_decide (get_progress (id_ r) r = None) then dropped
  else if bool_decide (is_Some (lead_transferee_ r)) then dropped
  else
    match check_proposal (HasPendingConf r) 0 entries None with
    | None => dropped
    | Some conf_change_position =>
        let! old_last_index := getsO last_index_of in
        let! ok := AppendEntry entries in
        if negb ok then dropped
        else
          match conf_change_position with
          | Some i => core! pending_conf_index_ := u64 (old_last_index + i + 1)
          | None => ret tt
          end ;;;
          BroadcastAppend ;;;
          ret (Ok tt)
    end.

(** [case MSG_READ_INDEX] of [StepLeader]. *)
Definition read_index (m : Message) : M (Raft S) unit :=
  let! current := getsO CommitToCurrentTerm in
  if negb current then ret tt
  else
    let! r := this in
    let committed := committed_ (raft_log_ r) in
    if IsSingleton (progress_tracker_ r) then answer_read m committed
    else
      match option_ (read_only_ r) with
      | Safe =>
          match m_entries m with
          | e :: _ =>
              on_read_only (AddRequest committed m (id_ r)) ;;;
              BroadcastHeartbeat_with (Some (e_data e))
          | [] => ret tt
          end
      | LeaseBased => answer_read m committed
      end.

Definition ok (m : M (Raft S) unit) : M (Raft S) (Result unit) := m ;;; ret (Ok tt).

Definition StepLeader (m : Message) : M (Raft S) (Result unit) :=
  match m_type m with
  | MsgBeat => ok BroadcastHeartbeat
  | MsgCheckQuorum => ok
      (let! active := CheckQuorumActive in
       let! r := this in
       when (negb active) (BecomeFollower (term_ r) kInvalidId))
  | MsgPropose => propose (m_entries m)
  | MsgReadIndex => ok (read_index m)
  | MsgAppendResponse => ok (HandleAppendResponse m)
  | MsgHeartbeatResponse => ok (HandleHeartbeatResponse m)
  | MsgSnapStatus => ok (HandleSnapshotStatus m)
  | MsgUnreachable => ok (HandleUnreachable m)
  | MsgTransferLeader => ok (HandleTransferLeader m)
  | _ => ret (Ok tt)
  end.
(** ** Handlers of a follower *)

Definition HandleAppendEntries (m : Message) : M (Raft S) unit :=
  let! r := this in
  let to_send := empty_message <| m_to := m_from m |> <| m_type := MsgAppendResponse |> in
  if negb (pending_request_snapshot_ r =? kInvalidIndex) then SendRequestSnapshot
  else if m_index m <? committed_ (raft_log_ r) then
    send (to_send <| m_index := committed_ (raft_log_ r) |> <| m_commit := committed_ (raft_log_ r) |>)
  else
    let! res := on_log (MaybeAppend (m_index m) (m_log_term m) (m_commit m) (m_entries m)) in
    match res with
    | Err _ => abort (Panic "MaybeAppend returned error: {}")
    | Ok res =>
        let! to_send :=
          (if ma_term_matched res then ret (to_send <| m_index := ma_last_index res |>)
           else
             let! last_index := getsO last_index_of in
             let! (hint_index, hint_term) := getsO (fun r : Raft S =>
               FindConflictByTerm (Z.min (m_index m) last_index) (m_log_term m) (raft_log_ r)) in
             match hint_term with
             | None => abort (Panic "term({}) must be valid")
             | Some hint_term =>
                 ret (to_send <| m_index := m_index m |> <| m_reject := true |>
                   <| m_reject_hint := hint_index |> <| m_log_term := hint_term |>)
             end) in
        let! r := this in
        send (to_send <| m_commit := committed_ (raft_log_ r) |>)
    end.

Definition HandleHeartbeat (m : Message) : M (Raft S) unit :=
  on_log (CommitTo (m_commit m)) ;;;
  let! r := this in
  if negb (pending_request_snapshot_ r =? kInvalidIndex) then SendRequestSnapshot
  else
    send (empty_message <| m_to := m_from m |> <| m_type := MsgHeartbeatResponse |>
      <| m_context := m_context m |> <| m_commit := committed_ (raft_log_ r) |>).

Definition Restore (snapshot : Snapshot) : M (Raft S) bool :=
  let! r := this in
  let cs := sm_conf_state (sn_meta snapshot) in
  if sn_index snapshot <? committed_ (raft_log_ r) then ret false
  else if negb (is_role Follower r) then
    BecomeFollower (term_ r +! 1) kInvalidId ;;;
    ret false
  else if negb (bool_decide (id_ r ∈ cs_voters cs ++ cs_learners cs ++ cs_voters_outgoing cs)) then ret false
  else
    let! matches :=
      (if pending_request_snapshot_ r =? kInvalidIndex
       then getsO (fun r : Raft S => MatchTerm (sn_index snapshot) (sn_term snapshot) (raft_log_ r))
       else ret false) in
    if matches then
      on_log (CommitTo (sn_index snapshot)) ;;;
      ret false
    else
      let! (res, restored_tracker) := getsO (fun _ =>
        ConfChange.Restore (sn_index snapshot +! 1) cs (Tracker.new (c_max_inflight_messages (config_ r)))) in
      match res with
      | Err _ => ret false
      | Ok _ =>
          let! res := on_log (RaftLog.Restore snapshot) in
          match res with
          | Err _ => ret false
          | Ok _ =>
              set! progress_tracker_ := restored_tracker ;;;
              PostConfChange ;;;
              core! pending_request_snapshot_ := kInvalidIndex ;;;
              ret true
          end
      end.

Definition HandleSnapshot (m : Message) : M (Raft S) unit :=
  let to_send := empty_message <| m_type := MsgAppendResponse |> <| m_to := m_from m |> in
  let! restored := Restore (m_snapshot m) in
  let! index :=
    (if restored then getsO last_index_of
     else let! r := this in ret (committed_ (raft_log_ r))) in
  send (to_send <| m_index := index |>).

(** The node hears from the leader of its term. *)
Definition hear_leader (m : Message) : M (Raft S) unit :=
  core! election_elapsed_ := 0 ;;;
  core! leader_id_ := m_from m.

Definition StepFollower (m : Message) : M (Raft S) (Result unit) :=
  let! r := this in
  let forward := ok (send (m <| m_to := leader_id_ r |>)) in
  match m_type m with
  | MsgPropose =>
      if leader_id_ r =? kInvalidId then dropped
      else if disable_proposal_forwarding_ r then dropped
      else forward
  | MsgAppend => ok (hear_leader m ;;; HandleAppendEntries m)
  | MsgHeartbeat => ok (hear_leader m ;;; HandleHeartbeat m)
  | MsgSnapshot => ok (hear_leader m ;;; HandleSnapshot m)
  | MsgTransferLeader => if leader_id_ r =? kInvalidId then ret (Ok tt) else forward
  | MsgTimeoutNow => ok (when (promotable_ r) (Hup true))
  | MsgReadIndex => if leader_id_ r =? kInvalidId then ret (Ok tt) else forward
  | MsgReadIndexResp =>
      if (leader_id_ r =? kInvalidId) || negb (m_from m =? leader_id_ r) then ret (Ok tt)
      else
        match m_entries m with
        | [e] =>
            core! read_states_ := (read_states_ r ++ [mkReadState (m_index m) (e_data e)]) ;;;
            on_log (RaftLog.MaybeCommit (m_index m) (m_term m)) ;;;
            ret (Ok tt)
        | _ => ret (Ok tt)
        end
  | _ => ret (Ok tt)
  end.

Definition StepCandidate (m : Message) : M (Raft S) (Result unit) :=
  let! r := this in
  match m_type m with
  | MsgPropose => dropped
  | MsgAppend => ok (BecomeFollower (m_term m) (m_from m) ;;; HandleAppendEntries m)
  | MsgHeartbeat => ok (BecomeFollower (m_term m) (m_from m) ;;; HandleHeartbeat m)
  | MsgSnapshot => ok (BecomeFollower (m_term m) (m_from m) ;;; HandleSnapshot m)
  | MsgRequestPreVoteResponse | MsgRequestVoteResponse =>
      if (is_role PreCandidate r && negb (mt_eqb (m_type m) MsgRequestPreVoteResponse)) ||
         (is_role Candidate r && negb (mt_eqb (m_type m) MsgRequestVoteResponse))
      then ret (Ok tt)
      else ok (Poll (m_from m) (negb (m_reject m)) ;;; MaybeCommitByVote m)
  | _ => ret (Ok tt)
  end.

(** ** Step *)

Definition is_vote_request (m : Message) : bool :=
  mt_eqb (m_type m) MsgRequestVote || mt_eqb (m_type m) MsgRequestPreVote.

(** The comparison of the message's term with the node's; [false] when the
    message has been dealt with. *)
Definition StepTerm (m : Message) : M (Raft S) bool :=
  let! r := this in
  let mt := m_type m in
  if m_term m =? 0 then ret true
  else if term_ r <? m_term m then
    let force := bool_decide (m_context m = kCampaignTransfer) in
    let in_lease := check_quorum_ r && negb (leader_id_ r =? kInvalidId) &&
                    (election_elapsed_ r <? election_timeout_ r) in
    if is_vote_request m && negb force && in_lease then ret false
    else
      (if mt_eqb mt MsgRequestPreVote || (mt_eqb mt MsgRequestPreVoteResponse && negb (m_reject m))
       then ret tt
       else if mt_eqb mt MsgAppend || mt_eqb mt MsgHeartbeat || mt_eqb mt MsgSnapshot
       then BecomeFollower (m_term m) (m_from m)
       else BecomeFollower (m_term m) kInvalidId) ;;;
      ret true
  else if m_term m <? term_ r then
    (if (check_quorum_ r || pre_vote_ r) && (mt_eqb mt MsgHeartbeat || mt_eqb mt MsgAppend) then
       send (empty_message <| m_to := m_from m |> <| m_type := MsgAppendResponse |>)
     else if mt_eqb mt MsgRequestPreVote then
       send (empty_message <| m_to := m_from m |> <| m_type := MsgRequestPreVoteResponse |>
         <| m_reject := true |> <| m_term := term_ r |>)
     else ret tt) ;;;
    ret false
  else ret true.

(** Whether a vote request is granted. *)
Definition grants (m : Message) (r : Raft S) : outcome bool :=
  let can_vote := (vote_ r =? m_from m) ||
                  ((vote_ r =? kInvalidId) && (leader_id_ r =? kInvalidId)) ||
                  (mt_eqb (m_type m) MsgRequestPreVote && (term_ r <? m_term m)) in
  if negb can_vote then Ret false
  else
    let? up_to_date := IsUpToDate (m_index m) (m_log_term m) (raft_log_ r) in
    if negb up_to_date then Ret false
    else
      let? last_index := last_index_of r in
      Ret ((last_index <? m_index m) || (priority_ r <=? m_priority m)).

(** [case MSG_REQUEST_VOTE] and [case MSG_REQUEST_PRE_VOTE]. *)
Definition StepVote (m : Message) : M (Raft S) unit :=
  let! granted := getsO (grants m) in
  let! resp_type := getsO (fun _ => VoteRespMsgType (m_type m)) in
  let to_send := empty_message <| m_to := m_from m |> <| m_type := resp_type |> in
  if granted then
    send (to_send <| m_reject := false |> <| m_term := m_term m |>) ;;;
    when (mt_eqb (m_type m) MsgRequestVote)
      (core! election_elapsed_ := 0 ;;;
       core! vote_ := m_from m)
  else
    let! (commit, commit_term) := getsO (fun r : Raft S => CommitInfo (raft_log_ r)) in
    let! r := this in
    send (to_send <| m_reject := true |> <| m_term := term_ r |>
      <| m_commit := commit |> <| m_commit_term := commit_term |>) ;;;
    MaybeCommitByVote m.

Definition Step (m : Message) : M (Raft S) (Result unit) :=
  let! go := StepTerm m in
  if negb go then ret (Ok tt)
  else
    let! r := this in
    match m_type m with
    | MsgHup => ok (when (promotable_ r) (Hup false))
    | MsgRequestVote | MsgRequestPreVote => ok (StepVote m)
    | _ =>
        match state_ r with
        | PreCandidate | Candidate => StepCandidate m
        | Follower => StepFollower m
        | Leader => StepLeader m
        end
    end.

(** ** Ticks *)

Definition local (mt : MessageType) : M (Raft S) unit :=
  let! r := this in
  Step (empty_message <| m_to := kInvalidId |> <| m_type := mt |> <| m_from := id_ r |>) ;;;
  ret tt.

Definition elapse : M (Raft S) unit :=
  modify (fun r : Raft S => r <| core_ := (core_ r) <| heartbeat_elapsed_ := heartbeat_elapsed_ r +! 1 |> |>) ;;;
  modify (fun r : Raft S => r <| core_ := (core_ r) <| election_elapsed_ := election_elapsed_ r +! 1 |> |>).

(** The end of both ticks: a leader sends its heartbeat. *)
Definition tick_beat (has_ready : bool) : M (Raft S) bool :=
  let! r := this in
  if negb (is_role Leader r) then ret has_ready
  else if heartbeat_timeout_ r <=? heartbeat_elapsed_ r then
    core! heartbeat_elapsed_ := 0 ;;;
    local MsgBeat ;;;
    ret true
  else ret has_ready.

Definition TickElection : M (Raft S) bool :=
  elapse ;;;
  let! r := this in
  let timeout := randomized_election_timeout_ r <=? election_elapsed_ r in
  when timeout
    (core! election_elapsed_ := 0 ;;;
     local MsgHup) ;;;
  tick_beat timeout.

Definition TickHeartbeat : M (Raft S) bool :=
  elapse ;;;
  let! r := this in
  let timeout := randomized_election_timeout_ r <=? election_elapsed_ r in
  when timeout
    (core! election_elapsed_ := 0 ;;;
     when (check_quorum_ r) (local MsgCheckQuorum) ;;;
     let! r := this in
     when (is_role Leader r && bool_decide (is_Some (lead_transferee_ r))) AbortLeaderTransfer) ;;;
  tick_beat (timeout && check_quorum_ r).

Definition Tick : M (Raft S) bool :=
  let! r := this in
  match state_ r with
  | Follower | Candidate | PreCandidate => TickElection
  | Leader => TickHeartbeat
  end.

(** ** The rest of the interface *)

Definition SetPriority (priority : Z) : M (Raft S) unit := core! priority_ := i64 priority.

Definition ReduceUncommittedSize (ents : list Entry) : M (Raft S) unit :=
  let! r := this in
  when (is_role Leader r) (on_uncommitted (MaybeReduceUncommittedSize ents) ;;; ret tt).

Definition RequestSnapshot : M (Raft S) (Result unit) :=
  let! r := this in
  let drop_ := ret (Err (ERaft RequestSnapshotDropped)) in
  if is_role Leader r then drop_
  else if leader_id_ r =? kInvalidId then drop_
  else if bool_decide (is_Some (snapshot_ (unstable_ (raft_log_ r)))) ||
          negb (pending_request_snapshot_ r =? kInvalidIndex) then drop_
  else
    let! request_index := getsO last_index_of in
    let! request_index_term := getsO (fun r : Raft S =>
      let? t := Term request_index (raft_log_ r) in Unwrap t) in
    if term_ r =? request_index_term then
      core! pending_request_snapshot_ := request_index ;;;
      SendRequestSnapshot ;;;
      ret (Ok tt)
    else drop_.

Definition hard_state (r : Raft S) : HardState :=
  mkHardState (term_ r) (vote_ r) (committed_ (raft_log_ r)).

Definition soft_state (r : Raft S) : SoftState := mkSoftState (leader_id_ r) (state_ r).

Definition Ping : M (Raft S) unit :=
  let! r := this in
  when (is_role Leader r) BroadcastHeartbeat.

Definition inflight_buffers_size (r : Raft S) : Z :=
  foldl (fun total '(_, pr) =>
      if buffer_is_allocated (inflights_ pr)
      then total +! u64 (BufferSize (inflights_ pr) * 8) else total)
    0 (iter_map (progress_ (progress_tracker_ r))).

Definition MaybeFreeInflightBuffers : M (Raft S) unit :=
  each_peer (fun id => on_progress id
    (let! pr := get in
     when ((Count (inflights_ pr) =? 0) && buffer_is_allocated (inflights_ pr))
       (on_inflights Inflights.Reset))).

Definition AdjustMaxInflightMsgs (id max_inflight : Z) : M (Raft S) unit :=
  let! r := this in
  match get_progress id r with
  | Some _ => on_progress id (on_inflights (SetCapacity max_inflight))
  | None => ret tt
  end.

Definition commit_and_broadcast : M (Raft S) unit :=
  let! committed := MaybeCommit in
  when committed BroadcastAppend.

Definition EnableGroupCommit (enable : bool) : M (Raft S) unit :=
  on_tracker (Tracker.EnableGroupCommit enable) ;;;
  let! r := this in
  when (is_role Leader r && negb enable) commit_and_broadcast.

Definition AssignCommitGroups (ids : list (Z * Z)) : M (Raft S) unit :=
  foreach ids (fun '(peer_id, group_id) =>
    assert (0 <? group_id) "group_id must be > 0" ;;;
    let! r := this in
    match get_progress peer_id r with
    | Some _ => on_progress peer_id (SetCommitGroupID group_id)
    | None => ret tt
    end) ;;;
  let! r := this in
  when (is_role Leader r && group_commit_ (progress_tracker_ r)) commit_and_broadcast.

Definition CheckGroupCommitConsistent (r : Raft S) : outcome (option bool) :=
  if negb (is_role Leader r) then Ret None
  else
    let? term_result := Term (applied_ (raft_log_ r)) (raft_log_ r) in
    if negb (result_is term_result (term_ r)) then Ret None
    else
      let? (index, use_group_commit) := MaxCommittedIndex (progress_tracker_ r) in
      Ret (Some (use_group_commit && (index =? committed_ (raft_log_ r)))).
End Raft.
