(* ===== verification/NodeInv.v ===== *)
(** * The invariant of a node

    Every operation of [Raft] keeps the node well formed and moves its hard
    state forward only: terms do not decrease, a vote is not changed within a
    term, committed entries stay.  An operation may raise the term and extend
    the log; [up n] bounds both by [n], so that the 64-bit counters do not
    wrap as long as there is room for [n] more. *)

From S2P Require Import Prelude Types Util Inflights Progress Quorum Tracker ConfChange Storage Unstable ReadOnly Config RaftLog RaftLogProps RaftCore RaftSend LogSafety Raft.

Create HintDb up.

Section NodeInv.
Context {ENV : Env} {S : Type} {ST : Storage S} {SL : StorageLaws S}.
Implicit Types r : Raft S.

Definition peers_ok (t : ProgressTracker) : Prop :=
  (forall id p, progress_ t !! id = Some p -> peer_ok p) /\ 0 <= Tracker.max_inflight_ t < 2 ^ 62.

Record node_ok (n : Z) (r : Raft S) : Prop := {
  ok_log : log_ok (raft_log_ r);
  ok_term : 0 <= term_ r;
  ok_term_room : term_ r + n < u64max;
  ok_log_room : v_last (log_view (raft_log_ r)) + n < u64max;
  ok_peers : peers_ok (progress_tracker_ r);
  ok_config : 0 <= c_max_inflight_messages (config_ r) < 2 ^ 62;
  ok_range : 0 <= min_election_timeout_ r < max_election_timeout_ r /\ max_election_timeout_ r < two64;
  ok_timeout : min_election_timeout_ r <= randomized_election_timeout_ r < max_election_timeout_ r
}.

Record node_moves (n : Z) (r r' : Raft S) : Prop := {
  mv_term : term_ r <= term_ r' <= term_ r + n;
  mv_vote : term_ r' = term_ r -> vote_ r <> kInvalidId -> vote_ r' = vote_ r;
  mv_log : log_moves n (raft_log_ r) (raft_log_ r');
  mv_id : id_ r' = id_ r
}.

Definition up (n : Z) (r r' : Raft S) : Prop := node_ok n r -> node_ok 0 r' /\ node_moves n r r'.

Lemma node_ok_weaken a b r : a <= b -> node_ok b r -> node_ok a r.
Proof. intros Hab []. constructor; (done || lia). Qed.

Lemma node_moves_refl r : node_moves 0 r r.
Proof. constructor; [lia|done|apply log_moves_refl|done]. Qed.

Lemma node_moves_weaken a b r r' : a <= b -> node_moves a r r' -> node_moves b r r'.
Proof. intros Hab [T V L I]. constructor; [lia|done|by eapply log_moves_weaken|done]. Qed.

Lemma node_moves_trans a b r1 r2 r3 : node_moves a r1 r2 -> node_moves b r2 r3 -> node_moves (a + b) r1 r3.
Proof.
  intros [T1 V1 L1 I1] [T2 V2 L2 I2]. constructor; [lia| |by eapply log_moves_trans|congruence].
  intros Ht Hv. rewrite V2; [apply V1; [lia|done]|lia|]. rewrite V1; [done|lia|done].
Qed.

(** What is left of the room after an operation. *)
Lemma node_ok_after a b r r' : node_ok (a + b) r -> node_ok 0 r' -> node_moves a r r' -> node_ok b r'.
Proof.
  intros [] [] [T _ L _]. constructor; try done; [lia|]. pose proof (lm_last _ _ _ L). lia.
Qed.

Lemma up_trans a b r1 r2 r3 : 0 <= a -> 0 <= b -> up a r1 r2 -> up b r2 r3 -> up (a + b) r1 r3.
Proof.
  intros Ha Hb H1 H2 Hok. destruct H1 as [Hok2 M1]; [by eapply node_ok_weaken; [|exact Hok]; lia|].
  destruct H2 as [Hok3 M2]; [by eapply node_ok_after|]. split; [done|]. by eapply node_moves_trans.
Qed.

Lemma up_weaken a b r r' : 0 <= a <= b -> up a r r' -> up b r r'.
Proof.
  intros Hab H Hok. destruct H as [Hok' M]; [by eapply node_ok_weaken; [|exact Hok]; lia|].
  split; [done|]. eapply node_moves_weaken; [|exact M]. lia.
Qed.

#[export] Instance up_preorder : PreOrder (up 0).
Proof.
  split.
  - intros r Hok. split; [done|apply node_moves_refl].
  - intros r1 r2 r3 H1 H2. exact (up_trans 0 0 _ _ _ ltac:(lia) ltac:(lia) H1 H2).
Qed.

Lemma pres_up_weaken {A} a b (m : M (Raft S) A) : 0 <= a <= b -> pres (up a) m -> pres (up b) m.
Proof. intros Hab H r x r' E. eapply up_weaken; [exact Hab|]. by eapply H. Qed.

Lemma pres_up_bind {A B} a b (m : M (Raft S) A) (k : A -> M (Raft S) B) : 0 <= a -> 0 <= b ->
  pres (up a) m -> (forall x, pres (up b) (k x)) -> pres (up (a + b)) (bind m k).
Proof.
  intros Ha Hb Hm Hk r x r' E. apply bind_Ret in E as (y & r1 & E1 & E2).
  eapply (up_trans a b); [done|done|by eapply Hm|by eapply Hk].
Qed.

(** ** Parts of a node *)

Lemma up_frame r r' : raft_log_ r' = raft_log_ r -> term_ r' = term_ r -> vote_ r' = vote_ r ->
  id_ r' = id_ r -> config_ r' = config_ r ->
  progress_ (progress_tracker_ r') = progress_ (progress_tracker_ r) ->
  Tracker.max_inflight_ (progress_tracker_ r') = Tracker.max_inflight_ (progress_tracker_ r) ->
  min_election_timeout_ r' = min_election_timeout_ r ->
  max_election_timeout_ r' = max_election_timeout_ r ->
  randomized_election_timeout_ r' = randomized_election_timeout_ r -> up 0 r r'.
Proof.
  intros El Et Ev Ei Ec Ep Em E1 E2 E3 [].
  assert (Hp : peers_ok (progress_tracker_ r')) by (unfold peers_ok in *; by rewrite Ep, Em).
  split.
  - constructor; rewrite ?El, ?Et, ?Ec, ?E1, ?E2, ?E3; done.
  - constructor; rewrite ?El, ?Et; [lia|done|apply log_moves_refl|done].
Qed.

Lemma up_on_log {A} n (m : M (RaftLog S) A) : 0 <= n -> pres (log_up n) m -> pres (up n) (on_log m).
Proof.
  intros Hn Hm. apply pres_zoom. intros r l' a E Hok. pose proof Hok as [].
  destruct (Hm _ _ _ E ok_log0 ok_log_room0) as [Hl Mv]. pose proof (lm_last _ _ _ Mv).
  split; constructor; cbn; try done; lia.
Qed.

(** Changes of the tracker that keep the peers well formed. *)
Definition tracker_up (t t' : ProgressTracker) : Prop := peers_ok t -> peers_ok t'.

#[export] Instance tracker_up_preorder : PreOrder tracker_up.
Proof. split; [by intros t H|]. intros t1 t2 t3 H1 H2 H. by apply H2, H1. Qed.

Lemma up_on_tracker {A} (m : M ProgressTracker A) : pres tracker_up m -> pres (up 0) (on_tracker m).
Proof.
  intros Hm. apply pres_zoom. intros r t' a E Hok. pose proof Hok as [].
  split; [|constructor; cbn; [lia|done|apply log_moves_refl|done]].
  constructor; cbn; try done. by eapply Hm.
Qed.

Definition peer_up (p p' : Progress) : Prop := peer_ok p -> peer_ok p'.

#[export] Instance peer_up_preorder : PreOrder peer_up.
Proof. split; [by intros t H|]. intros t1 t2 t3 H1 H2 H. by apply H2, H1. Qed.

Lemma up_put_progress id p r : peer_ok p -> up 0 r (put_progress id p r).
Proof.
  intros Hp Hok. pose proof Hok as [].
  split; [|constructor; cbn; [lia|done|apply log_moves_refl|done]].
  constructor; cbn; try done. destruct ok_peers0 as [Ha Hb]. split; [|done].
  intros id' p' E. cbn in E. apply lookup_insert_Some in E as [[_ <-]|[_ E]]; [done|by eapply Ha].
Qed.

Lemma up_on_progress {A} id (m : M Progress A) : pres peer_up m -> pres (up 0) (on_progress id m).
Proof.
  intros Hm r a r' E. unfold on_progress in E. destruct (get_progress id r) as [p|] eqn:Ep; [|done].
  destruct (m p) as [[a' p']|] eqn:Em; [|done]. injection E as _ <-. intros Hok.
  apply up_put_progress; [|done]. apply (Hm _ _ _ Em). by apply (ok_peers _ _ Hok) in Ep.
Qed.

Lemma up_with_progress {A} id (m : M (SendCtx S) A) : pres sends m ->
  (forall c a c', log_wf (raft_log_ (sc_core c)) -> peer_ok (sc_pr c) -> m c = Ret (a, c') -> peer_ok (sc_pr c')) ->
  pres (up 0) (with_progress id m).
Proof.
  intros Hs Hp r a r' E Hok. unfold with_progress in E. destruct (get_progress id r) as [p|] eqn:Ep; [|done].
  destruct (m _) as [[a' c']|] eqn:Em; [|done]. injection E as _ <-. pose proof Hok as [[Hw Hc] ? ? ? ? ? ? ?].
  assert (Pp : peer_ok p) by (by apply (ok_peers _ _ Hok) in Ep).
  destruct (Hs _ _ _ Em Hw) as (l' & Ec & Hsame & Hw' & _). cbn in Ec, Hsame.
  assert (Hlog : log_up 0 (raft_log_ r) l') by (apply log_up_reads; done).
  destruct (Hlog (conj Hw Hc) ltac:(lia)) as [Hl Mv]. pose proof (lm_last _ _ _ Mv).
  eapply (up_trans 0 0 _ (r <| core_ := sc_core c' |> <| messages_ := sc_messages c' |>)); [lia|lia| |
    apply up_put_progress; by eapply Hp; [| |exact Em]|done].
  intros _. rewrite Ec. split; constructor; cbn; try done; lia.
Qed.

(** ** Operations on one peer *)

Lemma peer_frame p p' : matched_ p' = matched_ p -> next_idx_ p' = next_idx_ p ->
  pending_snapshot_ p' = pending_snapshot_ p -> inflights_ p' = inflights_ p ->
  Progress.pending_request_snapshot_ p' = Progress.pending_request_snapshot_ p -> peer_up p p'.
Proof.
  intros E1 E2 E3 E4 E5 [[] Hr]. split; [|by rewrite E5]. constructor; rewrite ?E1, ?E2, ?E3, ?E4; done.
Qed.

Definition keeps_request (p p' : Progress) : Prop :=
  Progress.pending_request_snapshot_ p' = Progress.pending_request_snapshot_ p.

#[export] Instance keeps_request_preorder : PreOrder keeps_request.
Proof. split; [done|]. unfold keeps_request. intros ???. congruence. Qed.

Lemma on_inflights_request {A} (m : M Inflights A) : pres keeps_request (on_inflights m).
Proof. apply pres_zoom. done. Qed.

Ltac request_leaf := first [apply on_inflights_request | apply pres_modify; done].

Lemma peer_up_by {A} (m : M Progress A) : pres keeps_request m ->
  (forall p a p', Progress.wf p -> m p = Ret (a, p') -> Progress.wf p') -> pres peer_up m.
Proof. intros Hr Hw p a p' E [W Hp]. split; [by eapply Hw|]. by rewrite (Hr _ _ _ E). Qed.

Lemma BecomeProbe_up : pres peer_up BecomeProbe.
Proof.
  apply peer_up_by; [unfold BecomeProbe, ResetState; pres_tac request_leaf|].
  intros p a p' W E. destruct (BecomeProbe_spec p W) as (p1 & E1 & W1 & _). rewrite E in E1. by injection E1 as _ <-.
Qed.

Lemma BecomeReplicate_up : pres peer_up BecomeReplicate.
Proof.
  apply peer_up_by; [unfold BecomeReplicate, ResetState; pres_tac request_leaf|].
  intros p a p' W E. destruct (BecomeReplicate_spec p W) as (p1 & E1 & W1 & _). rewrite E in E1. by injection E1 as _ <-.
Qed.

Lemma MaybeUpdate_up n : 0 <= n < u64max -> pres peer_up (MaybeUpdate n).
Proof.
  intros Hn. apply peer_up_by; [unfold MaybeUpdate, Resume; pres_tac request_leaf|].
  intros p a p' W E. destruct (MaybeUpdate_run n p W Hn) as (p1 & E1 & W1 & _). rewrite E in E1. by injection E1 as _ <-.
Qed.

Lemma MaybeDecTo_up rejected hint request : is_u64 rejected -> 0 <= request < u64max ->
  pres peer_up (MaybeDecTo rejected hint request).
Proof.
  intros Hj Hq p a p' E [W Hp]. destruct (MaybeDecTo_run rejected hint request p W Hj) as (b & p1 & E1 & W1 & _).
  rewrite E in E1. injection E1 as _ <-. split; [done|].
  assert (H : pres (fun p p' => Progress.pending_request_snapshot_ p' = Progress.pending_request_snapshot_ p \/
      Progress.pending_request_snapshot_ p' = request) (MaybeDecTo rejected hint request)).
  { assert (PreOrder (fun p p' => Progress.pending_request_snapshot_ p' = Progress.pending_request_snapshot_ p \/
      Progress.pending_request_snapshot_ p' = request)).
    { split; [by left|]. intros ? ? ? [?|?] [?|?]; [left|right..]; congruence. }
    unfold MaybeDecTo, Resume. pres_tac ltac:(apply pres_modify; intros ?; cbn; auto). }
  destruct (H _ _ _ E) as [-> | ->]; done.
Qed.

Lemma refines_up (m : M Inflights unit) w : refines m w -> pres peer_up (on_inflights m).
Proof.
  intros Hr. apply pres_zoom. intros p i a E [W Hp]. split; [|done].
  destruct (Hr _ (wf_inflights p W)) as (i' & E' & Wi & _). rewrite E in E'. injection E' as _ <-.
  destruct W. by constructor.
Qed.

Lemma Progress_Reset_up next self persisted committed : 0 < next < two64 -> 0 <= persisted < next ->
  pres peer_up (Progress.Reset next ;;;
    when self (set! matched_ := persisted ;;; set! committed_index_ := committed)).
Proof.
  intros Hn Hp p a p' E [W _]. destruct (Reset_spec next p W) as (i & E1 & Wi & _).
  rewrite (bind_run _ _ _ _ _ E1) in E.
  assert (Hok : forall q, matched_ q = 0 \/ matched_ q = persisted -> next_idx_ q = next ->
    pending_snapshot_ q = 0 -> inflights_ q = i -> Progress.pending_request_snapshot_ q = 0 -> peer_ok q).
  { intros q Hm Hx Hs Hi Hq. split; [|rewrite Hq; unfold u64max; lia].
    constructor; rewrite ?Hx, ?Hs, ?Hi; try done; unfold u64max; lia. }
  destruct self; cbn in E; injection E as _ <-; apply Hok; cbn; auto.
Qed.

(** ** Operations on the tracker *)

Lemma tracker_frame t t' : progress_ t' = progress_ t -> Tracker.max_inflight_ t' = Tracker.max_inflight_ t ->
  tracker_up t t'.
Proof. intros E1 E2. unfold tracker_up, peers_ok. by rewrite E1, E2. Qed.

Lemma ResetVotes_up : pres tracker_up ResetVotes.
Proof. apply pres_modify. intros t. by apply tracker_frame. Qed.

Lemma RecordVote_up id vote : pres tracker_up (RecordVote id vote).
Proof. apply pres_modify. intros t. apply tracker_frame; by destruct (votes_ t !! id). Qed.

Lemma Tracker_EnableGroupCommit_up b : pres tracker_up (Tracker.EnableGroupCommit b).
Proof. apply pres_modify. intros t. by apply tracker_frame. Qed.

Lemma new_peer_ok next cap : 0 < next < two64 -> 0 <= cap < 2 ^ 62 ->
  peer_ok ((Progress.new next cap) <| recent_active_ := true |>).
Proof.
  intros Hn Hc. destruct (progress_wf_new next cap Hn Hc) as []. split; [by constructor|cbn; unfold u64max; lia].
Qed.

Lemma ApplyConf_up conf changes next : 0 < next < two64 -> pres tracker_up (ApplyConf conf changes next).
Proof.
  intros Hn t a t' E [Ha Hm]. unfold ApplyConf in E. apply bind_Ret in E as (? & t1 & E1 & E).
  injection E1 as _ <-. injection E as _ <-. split; [|done]. cbn. intros id p E.
  apply apply_changes_keep in E as [(q & E & ->) | ->]; [by eapply Ha|by apply new_peer_ok].
Qed.

Lemma QuorumRecentlyActive_up me : pres tracker_up (QuorumRecentlyActive me).
Proof.
  intros t a t' E [Ha Hm]. unfold QuorumRecentlyActive in E. rewrite bind_get in E.
  destruct (foldl (mark_active me) (∅, progress_ t) (iter_map (progress_ t))) as [active progress] eqn:Ef.
  apply bind_Ret in E as (? & t1 & E1 & E). injection E1 as _ <-. injection E as _ <-. split; [|done]. cbn.
  apply recently_active_loop in Ef as (_ & Hp & Ho); [|apply iter_map_nodup|intros id pr; apply iter_map_elem].
  intros id p E. destruct (progress_ t !! id) as [q|] eqn:Eq.
  - rewrite (Hp id q) in E by (by apply iter_map_elem). injection E as <-.
    by apply (peer_frame q), (Ha id).
  - rewrite Ho, Eq in E; [done|]. intros Hin. apply list_elem_of_fmap in Hin as ([i y] & -> & Hin).
    apply iter_map_elem in Hin. cbn in *. congruence.
Qed.

Lemma simple_each_up next ccs : 0 < next < two64 -> pres tracker_up (simple_each next ccs).
Proof.
  intros Hn. induction ccs as [|cc ccs IH]; cbn [simple_each];
    pres_tac ltac:(first [apply IH | by apply ApplyConf_up]).
Qed.

Lemma ConfRestore_up next cs : 0 < next < two64 -> pres tracker_up (ConfChange.Restore next cs).
Proof.
  intros Hn. unfold ConfChange.Restore.
  pres_tac ltac:(first [by apply ApplyConf_up | by apply simple_each_up]).
Qed.

(** ** Small methods *)

Ltac frame_leaf := apply pres_modify; intros ?; apply up_frame; reflexivity.

Lemma this_up : pres (up 0) this.
Proof. apply pres_get. typeclasses eauto. Qed.

Lemma send_up m : pres (up 0) (send m).
Proof. unfold send. pres_tac frame_leaf. Qed.

Lemma on_read_only_up {A} (m : M ReadOnly A) : pres (up 0) (on_read_only m).
Proof. apply pres_zoom. intros. by apply up_frame. Qed.

Lemma on_uncommitted_up {A} (m : M UncommittedState A) : pres (up 0) (on_uncommitted m).
Proof. apply pres_zoom. intros. by apply up_frame. Qed.

Lemma each_peer_up body : (forall id, pres (up 0) (body id)) -> pres (up 0) (each_peer body).
Proof.
  intros H. unfold each_peer. apply pres_bind; [typeclasses eauto|apply pres_get; typeclasses eauto|].
  intros r0. apply pres_foreach; [typeclasses eauto|done].
Qed.

Lemma SendAppend_up to : pres (up 0) (SendAppend to).
Proof.
  apply up_with_progress; [apply SendAppend_sends|]. intros c a c' W P E.
  apply bind_Ret in E as (b & c1 & E1 & E). injection E as _ <-. by eapply MaybeSendAppend_peer in E1 as [? _].
Qed.

Lemma MaybeSendAppend_up to b : pres (up 0) (with_progress to (MaybeSendAppend to b)).
Proof.
  apply up_with_progress; [apply MaybeSendAppend_sends|]. intros c a c' W P E. by eapply MaybeSendAppend_peer in E as [? _].
Qed.

(** Rounds of sending keep log and receiver well formed. *)
Definition ctx_up (c c' : SendCtx S) : Prop :=
  log_wf (raft_log_ (sc_core c)) -> peer_ok (sc_pr c) -> log_wf (raft_log_ (sc_core c')) /\ peer_ok (sc_pr c').

#[export] Instance ctx_up_preorder : PreOrder ctx_up.
Proof. split; [by intros c|]. intros c1 c2 c3 H1 H2 W P. destruct (H1 W P). by apply H2. Qed.

Lemma SendAppendAggressively_up to : pres (up 0) (SendAppendAggressively to).
Proof.
  apply up_with_progress; [apply SendAppendAggressively_sends|].
  intros c a c' W P E. refine (proj2 (pres_while ctx_up _ (MaybeSendAppend to false) _ _ _ _ E W P)).
  intros c1 b c2 E1 W1 P1. destruct (MaybeSendAppend_peer _ _ _ _ _ W1 P1 E1) as [P2 _].
  destruct (MaybeSendAppend_sends _ _ _ _ _ E1 W1) as (l2 & Ec & _ & W2 & _). split; [by rewrite Ec|done].
Qed.

(** ** Becoming a follower, candidate, leader *)

(** Nothing of the hard state changes. *)
Record same_hs (r r' : Raft S) : Prop := {
  sh_term : term_ r' = term_ r;
  sh_vote : vote_ r' = vote_ r;
  sh_log : raft_log_ r' = raft_log_ r;
  sh_id : id_ r' = id_ r
}.

#[export] Instance same_hs_preorder : PreOrder same_hs.
Proof. split; [by constructor|]. intros r1 r2 r3 [] []. constructor; congruence. Qed.

Lemma same_hs_zoom {T A} (view : Raft S -> T) put (m : M T A) :
  (forall r t, same_hs r (put t r)) -> pres same_hs (zoom view put m).
Proof. intros H. apply pres_zoom. auto. Qed.

Lemma same_hs_on_progress {A} id (m : M Progress A) : pres same_hs (on_progress (S := S) id m).
Proof.
  intros r a r' E. unfold on_progress in E. destruct (get_progress id r); [|done].
  destruct (m p) as [[]|]; [|done]. injection E as _ <-. by constructor.
Qed.

Ltac hs_leaf := first [ apply same_hs_zoom; by constructor | apply same_hs_on_progress
                      | apply pres_modify; by constructor ].

Lemma reset_role_hs : pres same_hs reset_role.
Proof. unfold reset_role, ResetRandomizedElectionTimeout, AbortLeaderTransfer, this. pres_tac hs_leaf. Qed.

Lemma reset_peers_hs : pres same_hs reset_peers.
Proof. unfold reset_peers, each_peer, this. pres_tac hs_leaf. Qed.

Lemma ResetRandomizedElectionTimeout_up : pres (up 0) ResetRandomizedElectionTimeout.
Proof.
  intros r a r' E Hok. pose proof Hok as []. unfold ResetRandomizedElectionTimeout, this in E.
  rewrite bind_get in E. apply bind_Ret in E as (? & r2 & E1 & E).
  injection E1 as _ <-. injection E as _ <-.
  split; [|constructor; cbn; [lia|done|apply log_moves_refl|done]]. constructor; cbn; try done.
  rewrite u64_id by (unfold is_u64, two64 in *; lia).
  pose proof (draw_range (draws_ r) (min_election_timeout_ r) (max_election_timeout_ r - 1) ltac:(lia)). lia.
Qed.

Lemma reset_role_up : pres (up 0) reset_role.
Proof.
  unfold reset_role, AbortLeaderTransfer.
  pres_tac ltac:(first [ apply ResetRandomizedElectionTimeout_up | apply up_on_tracker, ResetVotes_up | frame_leaf ]).
Qed.

Lemma last_index_run n r : node_ok n r -> last_index_of r = Ret (v_last (log_view (raft_log_ r))).
Proof. intros []. apply LastIndex_view, ok_log0. Qed.

Lemma reset_peers_up : pres (up 0) reset_peers.
Proof.
  intros r a r' E Hok. unfold reset_peers in E. apply bind_Ret in E as (last & r1 & E1 & E).
  apply getsO_Ret in E1 as (x & E1 & [= -> ->]). rewrite (last_index_run _ _ Hok) in E1. injection E1 as <-.
  unfold this in E. rewrite bind_get in E. pose proof Hok as [[Hw Hc] _ _ Hr _ _ _ _].
  pose proof (view_bounds _ Hw). destruct Hc. revert Hok. revert E. apply each_peer_up. intros id.
  apply up_on_progress, Progress_Reset_up; rewrite u64_id by u64_lia; unfold two64, u64max in *; lia.
Qed.

Lemma Reset_run term r a r' : node_ok 0 r -> 0 <= term < u64max -> Reset term r = Ret (a, r') ->
  node_ok 0 r' /\ term_ r' = term /\ vote_ r' = (if term_ r =? term then vote_ r else kInvalidId) /\
  raft_log_ r' = raft_log_ r /\ id_ r' = id_ r.
Proof.
  intros Hok Ht E. apply bind_Ret in E as (? & r1 & E1 & E). apply bind_Ret in E as (? & r2 & E2 & E).
  assert (H1 : node_ok 0 r1 /\ term_ r1 = term /\ vote_ r1 = (if term_ r =? term then vote_ r else kInvalidId) /\
    raft_log_ r1 = raft_log_ r /\ id_ r1 = id_ r).
  { unfold reset_term, this in E1. rewrite bind_get in E1. destruct (Z.eqb_spec (term_ r) term) as [He|He]; cbn in E1.
    - injection E1 as _ <-. by rewrite <- He.
    - injection E1 as _ <-. split; [|done]. destruct Hok. constructor; cbn; try done; lia. }
  destruct H1 as (Hok1 & Et & Ev & El & Ei).
  destruct (reset_role_hs _ _ _ E2) as [T2 V2 L2 I2]. destruct (reset_role_up _ _ _ E2 Hok1) as [Hok2 _].
  destruct (reset_peers_hs _ _ _ E) as [T3 V3 L3 I3]. destruct (reset_peers_up _ _ _ E Hok2) as [Hok3 _].
  split; [done|]. repeat split; congruence.
Qed.

(** After [Reset] the node is where it was, except for a new term. *)
Lemma reset_moves n r r' : node_ok n r -> 0 <= n -> node_ok 0 r' -> term_ r <= term_ r' <= term_ r + n ->
  vote_ r' = (if term_ r =? term_ r' then vote_ r else kInvalidId) -> raft_log_ r' = raft_log_ r ->
  id_ r' = id_ r -> node_ok 0 r' /\ node_moves n r r'.
Proof.
  intros Hok Hn Hok' Ht Hv El Ei. split; [done|]. constructor; [lia| | |done].
  - intros He _. by rewrite Hv, (proj2 (Z.eqb_eq _ _)).
  - rewrite El. eapply log_moves_weaken; [|apply log_moves_refl]. lia.
Qed.

Lemma BecomeFollower_up n term leader r a r' : 0 <= n -> term_ r <= term <= term_ r + n ->
  BecomeFollower term leader r = Ret (a, r') -> up n r r'.
Proof.
  intros Hn Ht E Hok. unfold BecomeFollower, this in E. rewrite bind_get in E. apply bind_Ret in E as (? & r1 & E1 & E).
  apply Reset_run in E1 as (Hok1 & Et & Ev & El & Ei); [|by eapply node_ok_weaken; [|exact Hok]; lia|destruct Hok; lia].
  destruct (reset_moves n r r1) as [_ M1]; try done; [lia|by rewrite Et|].
  match type of E with ?f r1 = _ => assert (Hup : pres (up 0) f) end.
  { pres_tac ltac:(first [apply up_on_log; [lia|apply set_limit_up] | frame_leaf]). }
  destruct (Hup _ _ _ E Hok1) as [Hok2 M2]. split; [done|].
  rewrite <- (Z.add_0_r n). by eapply node_moves_trans.
Qed.

Lemma BecomeFollower_same leader r a r' : BecomeFollower (term_ r) leader r = Ret (a, r') -> up 0 r r'.
Proof. apply BecomeFollower_up; lia. Qed.

Lemma BecomePreCandidate_up : pres (up 0) BecomePreCandidate.
Proof.
  unfold BecomePreCandidate, this. pres_tac ltac:(first [apply up_on_tracker, ResetVotes_up | frame_leaf]).
Qed.

Lemma BecomeCandidate_up : pres (up 1) BecomeCandidate.
Proof.
  intros r a r' E Hok. unfold BecomeCandidate, this in E. rewrite bind_get in E.
  apply bind_Ret in E as (? & r0 & E0 & E). apply assert_Ret in E0 as [_ [= -> ->]].
  apply bind_Ret in E as (? & r1 & E1 & E). pose proof Hok as [].
  rewrite u64_id in E1 by (unfold is_u64, two64, u64max in *; lia).
  apply Reset_run in E1 as (Hok1 & Et & Ev & El & Ei); [|by eapply node_ok_weaken; [|exact Hok]; lia|lia].
  cbn in E. injection E as _ <-. split.
  - destruct Hok1. constructor; done.
  - constructor; cbn; [lia|lia| |done]. rewrite El. eapply log_moves_weaken; [|apply log_moves_refl]. lia.
Qed.

Lemma number_entries_contiguous term last i entries : 0 <= last + i -> last + i + zlen entries < u64max ->
  contiguous (last + i + 1) (number_entries term last i entries).
Proof.
  revert i. induction entries as [|e es IH]; intros i Hi Hl; [done|]. cbn [number_entries contiguous]. cbn in Hl.
  split; [cbn; apply u64_id; unfold is_u64, two64, u64max in *; lia|].
  replace (last + i + 1 + 1) with (last + (i + 1) + 1) by lia. apply IH; lia.
Qed.

Lemma number_entries_length term last i entries : length (number_entries term last i entries) = length entries.
Proof. revert i. induction entries as [|e es IH]; intros i; cbn; [done|]. by rewrite IH. Qed.

Lemma AppendEntry_up entries : pres (up (zlen entries)) (AppendEntry entries).
Proof.
  intros r a r' E. unfold AppendEntry, this in E. apply bind_Ret in E as (ok & r1 & E1 & E).
  pose proof (on_uncommitted_up _ _ _ _ E1) as H1.
  rewrite <- (Z.add_0_l (zlen entries)). eapply (up_trans 0); [lia|lia|exact H1|].
  destruct ok; cbn in E; [|injection E as _ <-; eapply (up_weaken 0); [lia|reflexivity]].
  intros Hok. apply bind_Ret in E as (last & r2 & E2 & E).
  apply getsO_Ret in E2 as (x & E2 & [= -> ->]). rewrite (last_index_run _ _ Hok) in E2. injection E2 as <-.
  rewrite bind_get in E. apply bind_Ret in E as (z & r3 & E3 & E). injection E as _ <-.
  pose proof Hok as [[Hw Hc] _ _ Hr _ _ _ _]. pose proof (view_bounds _ Hw).
  set (ents := number_entries _ _ _ _) in E3.
  assert (Hlen : length ents = length entries) by apply number_entries_length.
  revert Hok. rewrite <- Hlen. revert E3. unfold on_log. intros E3. apply zoom_Ret in E3 as (i & l' & E3 & [= _ ->]).
  assert (Hc' : contiguous (v_last (log_view (raft_log_ r1)) + 1) ents).
  { pose proof (number_entries_contiguous (term_ r1) (v_last (log_view (raft_log_ r1))) 0 entries) as Hn.
    rewrite Z.add_0_r in Hn. apply Hn; lia. }
  pose proof (Append_up _ _ _ _ Hc' E3) as Hup. intros Hok. pose proof Hok as [].
  destruct (Hup ok_log0 ok_log_room0) as [Hl Mv]. pose proof (lm_last _ _ _ Mv).
  split; constructor; cbn; try done; lia.
Qed.

(** [runs R s m]: the run of [m] from [s], if it returns, is related by [R]. *)
Definition runs {A} (R : Raft S -> Raft S -> Prop) (r : Raft S) (m : M (Raft S) A) : Prop :=
  forall a r', m r = Ret (a, r') -> R r r'.

Lemma pres_runs {A} R r (m : M (Raft S) A) : pres R m -> runs R r m.
Proof. intros H a r'. apply H. Qed.

Lemma pres_this {A} R (k : Raft S -> M (Raft S) A) : (forall r, runs R r (k r)) -> pres R (bind this k).
Proof. intros H r a r' E. unfold this in E. rewrite bind_get in E. by eapply H. Qed.

Lemma runs_then {A B} r (m : M (Raft S) A) (k : A -> M (Raft S) B) n : 0 <= n ->
  runs (up n) r m -> (forall a, pres (up 0) (k a)) -> runs (up n) r (bind m k).
Proof.
  intros Hn Hm Hk a r' E. apply bind_Ret in E as (x & r1 & E1 & E). rewrite <- (Z.add_0_r n).
  eapply (up_trans n 0); [done|lia|by eapply Hm|by eapply Hk].
Qed.

Lemma runs_follow leader r : runs (up 0) r (BecomeFollower (term_ r) leader).
Proof. intros a r'. apply BecomeFollower_same. Qed.

Lemma Reset_same_up r : runs (up 0) r (Reset (term_ r)).
Proof.
  intros a r' E Hok. apply Reset_run in E as (Hok' & Et & Ev & El & Ei); [|done|destruct Hok; lia].
  apply reset_moves; (done || lia || by rewrite Et).
Qed.

Ltac peer_leaf := apply pres_modify; intros ?; apply peer_frame; reflexivity.

Lemma UpdateCommitted_up c : pres peer_up (UpdateCommitted c).
Proof. unfold UpdateCommitted. pres_tac peer_leaf. Qed.

#[local] Hint Resolve this_up send_up on_read_only_up on_uncommitted_up SendAppend_up MaybeSendAppend_up
  SendAppendAggressively_up BecomePreCandidate_up BecomeProbe_up BecomeReplicate_up UpdateCommitted_up
  up_on_progress up_on_tracker ResetVotes_up RecordVote_up QuorumRecentlyActive_up Tracker_EnableGroupCommit_up
  each_peer_up LogMaybeCommit_up CommitTo_up set_limit_up Scan_up AppliedTo_up : up.
#[local] Hint Extern 1 (pres (up 0) (on_log _)) => apply up_on_log; [lia|] : up.

Ltac up_leaf := first [ solve [auto with up] | frame_leaf | peer_leaf | apply each_peer_up; intros ?
                      | apply up_on_progress ].

Lemma BecomeLeader_up : pres (up 1) BecomeLeader.
Proof.
  apply pres_this. intros r. intros a r' E. apply bind_Ret in E as (? & r0 & E0 & E).
  apply assert_Ret in E0 as [_ [= -> ->]]. apply bind_Ret in E as (? & r1 & E1 & E).
  apply Reset_same_up in E1. rewrite <- (Z.add_0_l 1). eapply (up_trans 0 1); [lia|lia|exact E1|].
  revert E. clear. match goal with |- ?f r1 = _ -> _ => assert (H : pres (up 1) f); [|apply H] end.
  do 6 (apply (pres_up_bind 0 1); [lia|lia| |intros ?]; [pres_tac up_leaf|]).
  apply (pres_up_bind 1 0); [lia|lia|apply AppendEntry_up|intros ?]. pres_tac up_leaf.
Qed.

Lemma BroadcastAppend_up : pres (up 0) BroadcastAppend.
Proof. unfold BroadcastAppend. pres_tac up_leaf. Qed.

Lemma BroadcastHeartbeat_with_up ctx : pres (up 0) (BroadcastHeartbeat_with ctx).
Proof. unfold BroadcastHeartbeat_with, SendHeartbeat. pres_tac up_leaf. Qed.

Lemma SendRequestSnapshot_up : pres (up 0) SendRequestSnapshot.
Proof. unfold SendRequestSnapshot. pres_tac up_leaf. Qed.

Lemma MaybeCommit_up : pres (up 0) MaybeCommit.
Proof. unfold MaybeCommit. pres_tac up_leaf. Qed.

#[local] Hint Resolve BroadcastAppend_up BroadcastHeartbeat_with_up SendRequestSnapshot_up MaybeCommit_up : up.

Lemma HasUnappliedConfChanges_up low high ctx : pres (up 0) (HasUnappliedConfChanges low high ctx).
Proof. unfold HasUnappliedConfChanges. pres_tac up_leaf. Qed.

Lemma send_vote_requests_up t m term : pres (up 0) (send_vote_requests t m term).
Proof. unfold send_vote_requests. pres_tac up_leaf. Qed.
#[local] Hint Resolve HasUnappliedConfChanges_up send_vote_requests_up : up.

Lemma PollWith_up n campaign from vote : 1 <= n -> pres (up n) campaign -> pres (up n) (PollWith campaign from vote).
Proof.
  intros Hn Hc. rewrite <- (Z.add_0_l n). apply (pres_up_bind 0 n); [lia|lia|auto with up|intros ?].
  apply pres_this. intros r. destruct (CountVotes (progress_tracker_ r)) as [[? ?] []].
  - apply runs_then; [lia|apply pres_runs, (pres_up_weaken 0); [lia|pres_tac up_leaf]|intros ?; pres_tac up_leaf].
  - apply runs_then; [lia| |intros ?; pres_tac up_leaf]. intros a r' E. eapply (up_weaken 0); [lia|]. by eapply BecomeFollower_same.
  - apply runs_then; [lia| |intros ?; pres_tac up_leaf]. apply pres_runs. destruct (is_role PreCandidate r); [done|].
    apply (pres_up_weaken (1 + 0)); [lia|]. apply pres_up_bind; [lia|lia|apply BecomeLeader_up|auto with up].
Qed.

Lemma CampaignFuel_up fuel t : pres (up (Z.of_nat fuel + 1)) (CampaignFuel fuel t).
Proof.
  revert t. induction fuel as [|fuel IH]; intros t; cbn [CampaignFuel]; [pres_tac up_leaf|].
  replace (Z.of_nat (Datatypes.S fuel) + 1) with (1 + (Z.of_nat fuel + 1)) by lia.
  apply (pres_up_bind 1); [lia|lia| |].
  - destruct (bool_decide _); [apply (pres_up_weaken 0); [lia|pres_tac up_leaf]|].
    apply (pres_up_bind 1 0); [lia|lia|apply BecomeCandidate_up|intros ?; pres_tac up_leaf].
  - intros [vote_msg term]. rewrite <- (Z.add_0_l (Z.of_nat fuel + 1)).
    apply (pres_up_bind 0); [lia|lia|pres_tac up_leaf|intros r].
    rewrite <- (Z.add_0_r (Z.of_nat fuel + 1)). apply pres_up_bind; [lia|lia|apply PollWith_up; [lia|apply IH]|].
    intros ?. pres_tac up_leaf.
Qed.

Lemma Poll_up from vote : pres (up 2) (Poll from vote).
Proof. apply PollWith_up; [lia|]. exact (CampaignFuel_up 1 CampaignElection). Qed.

Lemma Hup_up b : pres (up 3) (Hup b).
Proof.
  apply (pres_up_bind 0 3); [lia|lia|pres_tac up_leaf|intros r].
  destruct (is_role Leader r); [apply (pres_up_weaken 0); [lia|pres_tac up_leaf]|].
  apply (pres_up_bind 0 3); [lia|lia|pres_tac up_leaf|intros pending].
  destruct pending; [apply (pres_up_weaken 0); [lia|pres_tac up_leaf]|].
  destruct b; [|destruct (pre_vote_ r)]; apply (CampaignFuel_up 2).
Qed.

Lemma HasUnappliedConfChanges_term low high ctx :
  pres (fun r r' => term_ r' = term_ r) (HasUnappliedConfChanges (S := S) low high ctx).
Proof.
  assert (PreOrder (fun r r' : Raft S => term_ r' = term_ r)) by (split; [done|intros ???; congruence]).
  unfold HasUnappliedConfChanges, this. pres_tac ltac:(apply pres_zoom; done).
Qed.

Lemma MaybeCommitByVote_up m : pres (up 0) (MaybeCommitByVote m).
Proof.
  unfold MaybeCommitByVote. destruct (_ || _); [pres_tac up_leaf|].
  pres_step; [pres_tac up_leaf|]. pres_step; [pres_tac up_leaf|]. pres_step; [pres_tac up_leaf|].
  pres_step; [pres_tac up_leaf|]. pres_step; [pres_tac up_leaf|].
  apply pres_this. intros r x r' E. apply bind_Ret in E as (found & r1 & E1 & E).
  pose proof (HasUnappliedConfChanges_term _ _ _ _ _ _ E1) as Ht.
  apply HasUnappliedConfChanges_up in E1. etransitivity; [exact E1|].
  destruct found; unfold when in E; [|by injection E as _ <-]. rewrite <- Ht in E. by eapply BecomeFollower_same.
Qed.

Lemma answer_read_up req index : pres (up 0) (answer_read req index).
Proof. unfold answer_read, HandleReadyReadIndex. pres_tac up_leaf. Qed.
#[local] Hint Resolve answer_read_up : up.

Lemma ack_read_up id ctx : pres (up 0) (ack_read id ctx).
Proof. unfold ack_read. pres_tac up_leaf. Qed.
#[local] Hint Resolve ack_read_up : up.

Lemma PostConfChange_up : pres (up 0) PostConfChange.
Proof. unfold PostConfChange, AbortLeaderTransfer. pres_tac up_leaf. Qed.
#[local] Hint Resolve PostConfChange_up : up.

(** A change of configuration gives new peers the last index as their next
    one: there has to be an entry. *)
Lemma ApplyConfChange_up cc r : 0 < v_last (log_view (raft_log_ r)) -> runs (up 0) r (ApplyConfChange cc).
Proof.
  intros Hl a r' E. unfold ApplyConfChange in E. rewrite bind_gets in E.
  set (res := if cc_LeaveJoint cc then _ else _) in E. destruct res as [[cfg changes]|e]; [|by injection E as _ <-].
  intros Hok. apply bind_Ret in E as (last & r1 & E1 & E). apply getsO_Ret in E1 as (x & E1 & [= -> ->]).
  rewrite (last_index_run _ _ Hok) in E1. injection E1 as <-. revert Hok. 
  match type of E with ?f r = _ => assert (H : node_ok 0 r -> pres (up 0) f); [|intros Hok; exact (H Hok _ _ _ E Hok)] end.
  intros Hok. pose proof (ok_log_room _ _ Hok).
  pres_tac ltac:(first [up_leaf | apply up_on_tracker, ApplyConf_up; unfold u64max, two64 in *; lia]).
Qed.

Lemma CommitApply_up applied : pres (up 1) (CommitApply applied).
Proof.
  apply (pres_up_bind 0 1); [lia|lia|pres_tac up_leaf|intros r]. cbn [negb].
  apply (pres_up_bind 0 1); [lia|lia|pres_tac up_leaf|intros ?].
  apply (pres_up_bind 0 1); [lia|lia|pres_tac up_leaf|intros r1].
  destruct (_ && _); [|apply (pres_up_weaken 0); [lia|pres_tac up_leaf]].
  apply (pres_up_bind 1 0); [lia|lia|apply AppendEntry_up|intros ?]. pres_tac up_leaf.
Qed.

(** ** Messages *)

(** What a message has to satisfy: a leader's message carries its term, a
    batch of entries is numbered from the index it follows, and the counters
    are below the invalid one. *)
Record msg_ok (m : Message) : Prop := {
  mo_term : 0 <= m_term m < u64max;
  mo_index : 0 <= m_index m < u64max;
  mo_log_term : 0 <= m_log_term m;
  mo_hint : 0 <= m_reject_hint m;
  mo_request : 0 <= m_request_snapshot m < u64max;
  mo_snapshot : 0 <= sn_index (m_snapshot m) < u64max;
  mo_leader : m_type m = MsgAppend \/ m_type m = MsgHeartbeat \/ m_type m = MsgSnapshot -> m_term m <> 0;
  mo_batch : m_type m = MsgAppend -> batch_ok (m_index m) (m_log_term m) (m_entries m)
}.

(** How far a message can move term and log. *)
Definition reach (m : Message) : Z := 3 + zlen (m_entries m) + sn_index (m_snapshot m).

Lemma HandleAppendResponse_up m : msg_ok m -> pres (up 0) (HandleAppendResponse m).
Proof.
  intros [Ht Hi _ _ Hr Hs _ _]. assert (is_u64 (m_index m)) by (unfold is_u64, two64, u64max in *; lia).
  unfold HandleAppendResponse, SendTimeoutNow. cbv zeta.
  pres_tac ltac:(first [ up_leaf | by apply MaybeDecTo_up | by apply MaybeUpdate_up
    | eapply refines_up, refines_FreeTo ]).
Qed.

Lemma Resume_up : pres peer_up Resume.
Proof. unfold Resume. pres_tac peer_leaf. Qed.

Lemma HandleHeartbeatResponse_up m : pres (up 0) (HandleHeartbeatResponse m).
Proof.
  unfold HandleHeartbeatResponse. cbv zeta. 
  pres_tac ltac:(first [ up_leaf | apply Resume_up | eapply refines_up, refines_FreeFirstOne ]).
Qed.

Lemma SnapshotFailure_up : pres peer_up SnapshotFailure.
Proof.
  apply pres_modify. intros p [[] Hp]. split; [|done]. constructor; cbn; done.
Qed.

Lemma HandleSnapshotStatus_up m : pres (up 0) (HandleSnapshotStatus m).
Proof.
  unfold HandleSnapshotStatus, Pause.
  pres_tac ltac:(first [ up_leaf | apply SnapshotFailure_up | apply BecomeProbe_up |
    apply pres_modify; intros ? [[] ?]; split; [by constructor|cbn; unfold kInvalidIndex, u64max; lia] ]).
Qed.

Lemma HandleUnreachable_up m : pres (up 0) (HandleUnreachable m).
Proof. unfold HandleUnreachable. pres_tac up_leaf. Qed.

Lemma HandleTransferLeader_up m : pres (up 0) (HandleTransferLeader m).
Proof. unfold HandleTransferLeader, SendTimeoutNow, AbortLeaderTransfer. cbv zeta. pres_tac up_leaf. Qed.

Lemma propose_up entries : pres (up (zlen entries)) (propose entries).
Proof.
  unfold propose, dropped. rewrite <- (Z.add_0_l (zlen entries)).
  assert (Hd : pres (up (zlen entries)) (ret (S := Raft S) (Err (A := unit) (ERaft ProposalDropped)))).
  { apply (pres_up_weaken 0); [lia|pres_tac up_leaf]. }
  apply (pres_up_bind 0); [lia|lia|pres_tac up_leaf|intros ?]. rewrite <- (Z.add_0_l (zlen entries)).
  apply (pres_up_bind 0); [lia|lia|pres_tac up_leaf|intros r].
  destruct (bool_decide _); [done|]. destruct (bool_decide _); [done|].
  destruct (check_proposal _ _ _ _) as [position|]; [|done]. rewrite <- (Z.add_0_l (zlen entries)).
  apply (pres_up_bind 0); [lia|lia|pres_tac up_leaf|intros last]. rewrite <- (Z.add_0_r (zlen entries)).
  apply pres_up_bind; [lia|lia|apply AppendEntry_up|intros ?]. pres_tac up_leaf.
Qed.

Lemma read_index_up m : pres (up 0) (read_index m).
Proof. unfold read_index. pres_tac up_leaf. Qed.

Lemma ok_up n m : 0 <= n -> pres (up n) m -> pres (up n) (ok m).
Proof. intros Hn Hm. rewrite <- (Z.add_0_r n). apply pres_up_bind; [done|lia|done|intros ?]. pres_tac up_leaf. Qed.

Lemma check_quorum_up : pres (up 0) (let! active := CheckQuorumActive in
  let! r := this in when (negb active) (BecomeFollower (S := S) (term_ r) kInvalidId)).
Proof.
  apply pres_bind; [typeclasses eauto|unfold CheckQuorumActive; pres_tac up_leaf|intros active].
  apply pres_this. intros r. destruct active; unfold when, negb; [apply pres_runs; pres_tac up_leaf|apply runs_follow].
Qed.

Lemma BroadcastHeartbeat_up : pres (up 0) BroadcastHeartbeat.
Proof. unfold BroadcastHeartbeat. pres_tac up_leaf. Qed.

#[local] Hint Resolve HandleHeartbeatResponse_up HandleSnapshotStatus_up HandleUnreachable_up
  HandleTransferLeader_up HandleAppendResponse_up read_index_up check_quorum_up BroadcastHeartbeat_up : up.

Lemma StepLeader_up m : msg_ok m -> pres (up (zlen (m_entries m))) (StepLeader m).
Proof.
  intros Hm. unfold StepLeader.
  destruct (m_type m); try apply propose_up; apply (pres_up_weaken 0); try lia;
    first [apply ok_up; [lia|]; auto with up | pres_tac up_leaf].
Qed.

Lemma runs_bind {A B} a b r (m : M (Raft S) A) (k : A -> M (Raft S) B) : 0 <= a -> 0 <= b ->
  runs (up a) r m -> (forall x r', m r = Ret (x, r') -> runs (up b) r' (k x)) -> runs (up (a + b)) r (bind m k).
Proof.
  intros Ha Hb Hm Hk x r' E. apply bind_Ret in E as (y & r1 & E1 & E2).
  eapply (up_trans a b); [done|done|by eapply Hm|by eapply Hk].
Qed.

Lemma HandleAppendEntries_up m : batch_ok (m_index m) (m_log_term m) (m_entries m) ->
  pres (up (zlen (m_entries m))) (HandleAppendEntries m).
Proof.
  intros Hb. apply pres_this. intros r.
  destruct (negb _); [apply pres_runs, (pres_up_weaken 0); [lia|pres_tac up_leaf]|].
  destruct (Z.ltb_spec (m_index m) (committed_ (raft_log_ r))) as [Hc|Hc];
    [apply pres_runs, (pres_up_weaken 0); [lia|pres_tac up_leaf]|].
  apply runs_then; [lia| |intros ?; pres_tac up_leaf].
  intros a r' E Hok. apply zoom_Ret in E as (x & l' & E & [= _ ->]).
  pose proof (MaybeAppend_up _ _ _ _ _ _ _ Hb Hc E) as Hup. pose proof Hok as [].
  destruct (Hup ok_log0 ok_log_room0) as [Hl Mv]. pose proof (lm_last _ _ _ Mv).
  split; constructor; cbn; try done; lia.
Qed.

Lemma HandleHeartbeat_up m : pres (up 0) (HandleHeartbeat m).
Proof. unfold HandleHeartbeat. pres_tac up_leaf. Qed.

Lemma new_tracker_ok cap : 0 <= cap < 2 ^ 62 -> peers_ok (Tracker.new cap).
Proof. intros Hc. split; [|done]. intros id p E. cbn in E. by rewrite lookup_empty in E. Qed.

Lemma set_tracker_up t r : (node_ok 0 r -> peers_ok t) -> runs (up 0) r (set! progress_tracker_ := t).
Proof.
  intros Ht a r' [= _ <-] Hok. pose proof (Ht Hok). pose proof Hok as [].
  split; constructor; cbn; try done; [lia|apply log_moves_refl].
Qed.

Lemma log_restored_up snapshot : 0 <= sn_index snapshot < u64max ->
  pres (up (sn_index snapshot)) (on_log (RaftLog.Restore snapshot)).
Proof.
  intros Hs r a r' E Hok. apply zoom_Ret in E as (x & l' & E & [= _ ->]).
  pose proof (Restore_up _ _ _ _ Hs E) as Hup. pose proof Hok as [].
  destruct (Hup ok_log0 ok_log_room0) as [Hl Mv]. pose proof (lm_last _ _ _ Mv).
  split; constructor; cbn; try done; lia.
Qed.

Lemma restored_up snapshot t : 0 <= sn_index snapshot < u64max -> peers_ok t ->
  pres (up (sn_index snapshot)) (let! res := on_log (RaftLog.Restore snapshot) in
    match res with
    | Err _ => ret false
    | Ok _ => set! progress_tracker_ := t ;;; PostConfChange ;;;
              core! pending_request_snapshot_ := kInvalidIndex ;;; ret true
    end).
Proof.
  intros Hs Ht. rewrite <- (Z.add_0_r (sn_index snapshot)). apply pres_up_bind; [lia|lia| |].
  - by apply log_restored_up.
  - intros [|]; [|pres_tac up_leaf]. apply pres_bind; [typeclasses eauto|intros r; by apply set_tracker_up|].
    intros ?. pres_tac up_leaf.
Qed.

Lemma Restore_snapshot_up snapshot : 0 <= sn_index snapshot < u64max -> pres (up (1 + sn_index snapshot)) (Restore snapshot).
Proof.
  intros Hs. apply pres_this. intros r. cbv zeta.
  destruct (_ <? _); [apply pres_runs, (pres_up_weaken 0); [lia|pres_tac up_leaf]|].
  destruct (negb (is_role Follower r)).
  { apply runs_then; [lia| |intros ?; pres_tac up_leaf]. intros a r' E Hok.
    revert Hok. apply (up_weaken 1); [lia|]. intros Hok. pose proof Hok as [].
    rewrite (u64_id (term_ r + 1)) in E by (unfold is_u64, two64, u64max in *; lia).
    revert Hok. eapply BecomeFollower_up; [..|exact E]; lia. }
  destruct (negb _); [apply pres_runs, (pres_up_weaken 0); [lia|pres_tac up_leaf]|].
  intros a r' E Hok.
  apply bind_Ret in E as (matches & r1 & E1 & E).
  assert (Hr : r1 = r). { destruct (_ =? _); [|by injection E1]. apply getsO_Ret in E1 as (? & _ & [= _ ->]). done. }
  rewrite Hr in E. clear r1 E1 Hr. destruct matches.
  { revert Hok. apply (up_weaken 0); [lia|]. revert E. 
    match goal with |- ?f r = _ -> _ => assert (H : pres (up 0) f) by pres_tac up_leaf; apply H end. }
  apply bind_Ret in E as ([res t] & r1 & E1 & E). apply getsO_Ret in E1 as (x & E1 & [= <- ->]).
  assert (Ht : peers_ok t).
  { eapply (ConfRestore_up (sn_index snapshot + 1)); [unfold two64, u64max in *; lia| |by apply new_tracker_ok, (ok_config _ _ Hok)].
    rewrite u64_id in E1 by (unfold is_u64, two64, u64max in *; lia). exact E1. }
  destruct res; [|injection E as _ <-; by apply (up_weaken 0); [lia|reflexivity|]].
  revert Hok. eapply up_weaken; [|by eapply restored_up]. lia.
Qed.

Lemma HandleSnapshot_up m : 0 <= sn_index (m_snapshot m) < u64max ->
  pres (up (1 + sn_index (m_snapshot m))) (HandleSnapshot m).
Proof.
  intros Hs. rewrite <- (Z.add_0_r (1 + _)). apply pres_up_bind; [lia|lia|by apply Restore_snapshot_up|intros ?].
  pres_tac up_leaf.
Qed.

Lemma Hup_when_up b c : pres (up 3) (when b (Hup c)).
Proof. destruct b; unfold when; [apply Hup_up|]. apply (pres_up_weaken 0); [lia|]. pres_tac up_leaf. Qed.

Lemma reach_pos m : msg_ok m -> 3 + zlen (m_entries m) <= reach m /\ 3 + sn_index (m_snapshot m) <= reach m.
Proof. intros []. unfold reach. lia. Qed.

Lemma hear_leader_up m : pres (up 0) (hear_leader m).
Proof. unfold hear_leader. pres_tac up_leaf. Qed.

(** The three messages of a leader, after what precedes their handler. *)
Lemma leader_message_up (before : M (Raft S) unit) m r : msg_ok m -> runs (up 0) r before ->
  (m_type m = MsgAppend -> runs (up (reach m)) r (ok (before ;;; HandleAppendEntries m))) /\
  runs (up (reach m)) r (ok (before ;;; HandleHeartbeat m)) /\
  runs (up (reach m)) r (ok (before ;;; HandleSnapshot m)).
Proof.
  intros Hm Hb. pose proof (reach_pos m Hm). pose proof (mo_snapshot m Hm).
  assert (Hok : forall h, pres (up (reach m)) h -> runs (up (reach m)) r (ok (before ;;; h))).
  { intros h Hh. apply runs_then; [lia| |intros ?; pres_tac up_leaf]. rewrite <- (Z.add_0_l (reach m)).
    apply runs_bind; [lia|lia|done|]. intros ? ? _. by apply pres_runs. }
  split; [intros Ha; apply Hok|split; apply Hok].
  - eapply pres_up_weaken; [|by apply HandleAppendEntries_up, (mo_batch m Hm)]. lia.
  - eapply pres_up_weaken; [|apply HandleHeartbeat_up]. lia.
  - eapply pres_up_weaken; [|by apply HandleSnapshot_up]. lia.
Qed.

Lemma StepFollower_up m : msg_ok m -> pres (up (reach m)) (StepFollower m).
Proof.
  intros Hm. pose proof (reach_pos m Hm). pose proof (mo_snapshot m Hm).
  apply pres_this. intros r. cbv zeta.
  destruct (leader_message_up (hear_leader m) m r Hm (pres_runs _ _ _ (hear_leader_up m))) as (H1 & H2 & H3).
  destruct (m_type m); try done; try by apply H1.
  all: apply pres_runs.
  all: try (apply (pres_up_weaken 3); [lia|]; apply ok_up; [lia|apply Hup_when_up]).
  all: apply (pres_up_weaken 0); [lia|].
  all: unfold dropped, ok; pres_tac up_leaf.
Qed.

Lemma StepCandidate_up m r : msg_ok m -> (m_term m <> 0 -> m_type m <> MsgRequestPreVote -> m_type m <> MsgRequestPreVoteResponse -> term_ r = m_term m) ->
  runs (up (reach m)) r (StepCandidate m).
Proof.
  intros Hm Ht. pose proof (reach_pos m Hm). pose proof (mo_snapshot m Hm). intros a r' E.
  unfold StepCandidate, this in E. rewrite bind_get in E. revert a r' E.
  match goal with |- forall a r', ?f r = _ -> _ => change (runs (up (reach m)) r f) end.
  assert (Hf : m_term m <> 0 -> m_type m <> MsgRequestPreVote -> m_type m <> MsgRequestPreVoteResponse ->
    runs (up 0) r (BecomeFollower (m_term m) (m_from m))).
  { intros H1 H2 H3. rewrite <- (Ht H1 H2 H3). apply runs_follow. }
  pose proof (mo_leader m Hm) as Hl. destruct (m_type m) eqn:Em;
    try (apply pres_runs, (pres_up_weaken 0); [lia|]; unfold dropped; pres_tac up_leaf; fail).
  1,3,4: destruct (leader_message_up _ m r Hm (Hf ltac:(auto) ltac:(done) ltac:(done))) as (H1 & H2 & H3); auto.
  all: apply pres_runs; destruct (_ || _); [apply (pres_up_weaken 0); [lia|pres_tac up_leaf]|].
  all: apply (pres_up_weaken (2 + 0)); [lia|]; apply ok_up; [lia|].
  all: apply pres_up_bind; [lia|lia|apply Poll_up|intros ?; apply MaybeCommitByVote_up].
Qed.

Lemma BecomeFollower_term term leader r a r' : node_ok 0 r -> 0 <= term < u64max ->
  BecomeFollower term leader r = Ret (a, r') -> term_ r' = term.
Proof.
  intros Hok Ht E. unfold BecomeFollower, this in E. rewrite bind_get in E. apply bind_Ret in E as (? & r1 & E1 & E).
  apply Reset_run in E1 as (_ & Et & _); [|done..]. cbn in E. by injection E as _ <-.
Qed.

Definition pre_vote_message (m : Message) : bool :=
  mt_eqb (m_type m) MsgRequestPreVote || mt_eqb (m_type m) MsgRequestPreVoteResponse.

Lemma StepTerm_run m r go r' : msg_ok m -> node_ok (m_term m) r -> StepTerm m r = Ret (go, r') ->
  node_ok 0 r' /\ node_moves (m_term m) r r' /\
  (go = true -> m_term m <> 0 -> pre_vote_message m = false -> term_ r' = m_term m).
Proof.
  intros Hm Hok E. pose proof (mo_term m Hm) as Ht.
  assert (Hok0 : node_ok 0 r) by (eapply node_ok_weaken; [|exact Hok]; lia).
  assert (Hsame : node_moves (m_term m) r r) by (eapply node_moves_weaken; [|apply node_moves_refl]; lia).
  assert (Hterm := ok_term _ _ Hok0).
  unfold StepTerm, this in E. rewrite bind_get in E. cbv zeta in E.
  destruct (Z.eqb_spec (m_term m) 0) as [H0|H0]; [injection E as <- <-; done|].
  destruct (Z.ltb_spec (term_ r) (m_term m)) as [Hlt|Hlt].
  - destruct (_ && _); [injection E as <- <-; done|]. apply bind_Ret in E as (u & r1 & E1 & E). injection E as <- <-.
    destruct (mt_eqb (m_type m) MsgRequestPreVote || _) eqn:Ep.
    + injection E1 as _ <-. split; [done|]. split; [done|]. intros _ _ Hp. unfold pre_vote_message in Hp.
      destruct (mt_eqb (m_type m) MsgRequestPreVote), (mt_eqb (m_type m) MsgRequestPreVoteResponse); done.
    + assert (Hf : exists leader, BecomeFollower (m_term m) leader r = Ret (u, r1)).
      { destruct (_ || _ || _); eauto. }
      destruct Hf as [leader Hf]. pose proof (BecomeFollower_term _ _ _ _ _ Hok0 Ht Hf) as Et.
      assert (Hup : up (m_term m) r r1) by (eapply BecomeFollower_up; [..|exact Hf]; lia).
      destruct (Hup Hok) as [H1 H2]. done.
  - destruct (Z.ltb_spec (m_term m) (term_ r)) as [Hgt|Hgt].
    2:{ injection E as <- <-. split; [done|]. split; [done|]. intros. lia. }
    apply bind_Ret in E as (u & r1 & E1 & E). injection E as <- <-.
    assert (Hup : up 0 r r1). { revert E1. match goal with |- ?f r = _ -> _ => assert (H : pres (up 0) f) by pres_tac up_leaf; apply H end. }
    destruct (Hup Hok0) as [H1 H2]. split; [done|]. split; [by eapply node_moves_weaken; [|exact H2]; lia|done].
Qed.

Lemma grants_can_vote m r : grants m r = Ret true -> m_type m = MsgRequestVote ->
  vote_ r = m_from m \/ vote_ r = kInvalidId /\ leader_id_ r = kInvalidId.
Proof.
  intros E Hm. unfold grants in E. rewrite Hm in E. cbn in E.
  destruct (Z.eqb_spec (vote_ r) (m_from m)); [by left|]. right.
  destruct (Z.eqb_spec (vote_ r) kInvalidId), (Z.eqb_spec (leader_id_ r) kInvalidId); done.
Qed.

Lemma StepVote_up m : pres (up 0) (StepVote m).
Proof.
  intros r a r' E. apply bind_Ret in E as (granted & r1 & E1 & E). apply getsO_Ret in E1 as (? & Hg & [= <- ->]).
  apply bind_Ret in E as (resp & r1 & E1 & E). apply getsO_Ret in E1 as (? & _ & [= <- ->]). destruct granted.
  - apply bind_Ret in E as (? & r1 & E1 & E). pose proof E1 as Hs. apply send_up in Hs.
    assert (Hv : same_hs r r1). { revert E1. assert (H : pres same_hs (send (S := S)
        (empty_message <| m_to := m_from m |> <| m_type := resp |> <| m_reject := false |> <| m_term := m_term m |>))).
      { unfold send, this. pres_tac hs_leaf. } apply H. }
    destruct (mt_eqb (m_type m) MsgRequestVote) eqn:Em; unfold when in E; [|by injection E as _ <-].
    assert (Hm : m_type m = MsgRequestVote) by (by destruct (m_type m)).
    cbn in E. injection E as _ <-. intros Hok. destruct (Hs Hok) as [[] [Mt Mv Ml Mi]], Hv as [Et Ev El Ei].
    split; constructor; cbn; try done. intros _ Hv. destruct (grants_can_vote _ _ Hg Hm) as [|[]]; congruence.
  - revert E. match goal with |- ?f r = _ -> _ => assert (H : pres (up 0) f); [|apply H] end.
    cbv zeta. pres_tac ltac:(first [apply MaybeCommitByVote_up | up_leaf]).
Qed.

Lemma Step_role_up m r : msg_ok m ->
  (m_term m <> 0 -> m_type m <> MsgRequestPreVote -> m_type m <> MsgRequestPreVoteResponse -> term_ r = m_term m) ->
  runs (up (reach m)) r (match state_ r with
    | PreCandidate | Candidate => StepCandidate m
    | Follower => StepFollower m
    | Leader => StepLeader m
    end).
Proof.
  intros Hm Ht. pose proof (reach_pos m Hm). pose proof (mo_snapshot m Hm). destruct (state_ r).
  - apply pres_runs. by apply StepFollower_up.
  - by apply StepCandidate_up.
  - apply pres_runs. eapply pres_up_weaken; [|by apply StepLeader_up]. lia.
  - by apply StepCandidate_up.
Qed.

Lemma Step_up m : msg_ok m -> pres (up (m_term m + reach m)) (Step m).
Proof.
  intros Hm r a r' E Hok. pose proof (mo_term m Hm). pose proof (reach_pos m Hm) as Hr. pose proof (mo_snapshot m Hm).
  apply bind_Ret in E as (go & r1 & E1 & E).
  destruct (StepTerm_run m r go r1 Hm) as (Hok1 & M1 & Ht); [eapply node_ok_weaken; [|exact Hok]; lia|done|].
  assert (Hok2 : node_ok (reach m) r1) by (by eapply node_ok_after).
  assert (Hup : up (reach m) r1 r').
  { destruct go; cbn [negb] in E; [|injection E as _ <-; by apply (up_weaken 0); [lia|reflexivity]].
    unfold this in E. rewrite bind_get in E. revert a r' E.
    match goal with |- forall a r', ?f r1 = _ -> _ => change (runs (up (reach m)) r1 f) end.
    assert (Ht' : m_term m <> 0 -> m_type m <> MsgRequestPreVote -> m_type m <> MsgRequestPreVoteResponse ->
      term_ r1 = m_term m).
    { intros H1 H2 H3. apply Ht; [done|done|]. unfold pre_vote_message. by destruct (m_type m). }
    pose proof (Step_role_up m r1 Hm Ht') as Hrole. destruct (m_type m); try exact Hrole.
    - apply pres_runs, (pres_up_weaken 3); [lia|]. apply ok_up; [lia|apply Hup_when_up].
    - apply pres_runs, (pres_up_weaken 0); [lia|]. apply ok_up; [lia|apply StepVote_up].
    - apply pres_runs, (pres_up_weaken 0); [lia|]. apply ok_up; [lia|apply StepVote_up]. }
  destruct (Hup Hok2) as [Hok3 M2]. split; [done|]. by eapply node_moves_trans.
Qed.

Lemma local_message_ok mt id : mt <> MsgAppend -> mt <> MsgHeartbeat -> mt <> MsgSnapshot ->
  msg_ok (empty_message <| m_to := kInvalidId |> <| m_type := mt |> <| m_from := id |>).
Proof. intros H1 H2 H3. constructor; cbn; unfold u64max; try lia; intuition congruence. Qed.

Lemma local_up mt : mt <> MsgAppend -> mt <> MsgHeartbeat -> mt <> MsgSnapshot -> pres (up 3) (local mt).
Proof.
  intros H1 H2 H3. apply (pres_up_bind 0 3); [lia|lia|pres_tac up_leaf|intros r].
  apply (pres_up_bind 3 0); [lia|lia| |intros ?; pres_tac up_leaf]. exact (Step_up _ (local_message_ok mt (id_ r) H1 H2 H3)).
Qed.

Lemma elapse_up : pres (up 0) elapse.
Proof. unfold elapse. pres_tac up_leaf. Qed.

Lemma tick_beat_up b : pres (up 3) (tick_beat b).
Proof.
  apply (pres_up_bind 0 3); [lia|lia|pres_tac up_leaf|intros r].
  destruct (negb _); [apply (pres_up_weaken 0); [lia|pres_tac up_leaf]|].
  destruct (_ <=? _); [|apply (pres_up_weaken 0); [lia|pres_tac up_leaf]].
  apply (pres_up_bind 0 3); [lia|lia|pres_tac up_leaf|intros ?].
  apply (pres_up_bind 3 0); [lia|lia|by apply local_up|intros ?; pres_tac up_leaf].
Qed.

Lemma when_up n b m : 0 <= n -> pres (up n) m -> pres (up n) (when b m).
Proof. intros Hn Hm. destruct b; unfold when; [done|]. apply (pres_up_weaken 0); [lia|pres_tac up_leaf]. Qed.

Lemma Tick_up : pres (up 6) Tick.
Proof.
  apply (pres_up_bind 0 6); [lia|lia|pres_tac up_leaf|intros r].
  assert (He : pres (up 6) TickElection).
  { apply (pres_up_bind 0 6); [lia|lia|apply elapse_up|intros ?].
    apply (pres_up_bind 0 6); [lia|lia|pres_tac up_leaf|intros r1].
    apply (pres_up_bind 3 3); [lia|lia| |intros ?; apply tick_beat_up]. apply when_up; [lia|].
    apply (pres_up_bind 0 3); [lia|lia|pres_tac up_leaf|intros ?; by apply local_up]. }
  assert (Hh : pres (up 6) TickHeartbeat).
  { apply (pres_up_bind 0 6); [lia|lia|apply elapse_up|intros ?].
    apply (pres_up_bind 0 6); [lia|lia|pres_tac up_leaf|intros r1].
    apply (pres_up_bind 3 3); [lia|lia| |intros ?; apply tick_beat_up]. apply when_up; [lia|].
    apply (pres_up_bind 0 3); [lia|lia|pres_tac up_leaf|intros ?].
    apply (pres_up_bind 3 0); [lia|lia|apply when_up; [lia|by apply local_up]|intros ?].
    unfold AbortLeaderTransfer. pres_tac up_leaf. }
  by destruct (state_ r).
Qed.

(** ** The other calls a node gets *)

Lemma OnPersistEntries_up index term : 0 <= index < u64max -> pres (up 0) (OnPersistEntries index term).
Proof.
  intros Hi. unfold OnPersistEntries.
  pres_tac ltac:(first [up_leaf | by apply MaybeUpdate_up | apply up_on_log; [lia|apply MaybePersist_up; lia]]).
Qed.

Lemma OnPersistSnapshot_up index : pres (up 0) (OnPersistSnapshot index).
Proof. unfold OnPersistSnapshot. pres_tac ltac:(first [up_leaf | apply up_on_log; [lia|apply MaybePersistSnapshot_up]]). Qed.

Lemma RequestSnapshot_up : pres (up 0) RequestSnapshot.
Proof. unfold RequestSnapshot. cbv zeta. pres_tac up_leaf. Qed.

Lemma Ping_up : pres (up 0) Ping.
Proof. unfold Ping. pres_tac up_leaf. Qed.

Lemma SetPriority_up p : pres (up 0) (SetPriority p).
Proof. unfold SetPriority. pres_tac up_leaf. Qed.

Lemma ReduceUncommittedSize_up ents : pres (up 0) (ReduceUncommittedSize ents).
Proof. unfold ReduceUncommittedSize. pres_tac up_leaf. Qed.

Lemma MaybeFreeInflightBuffers_up : pres (up 0) MaybeFreeInflightBuffers.
Proof. unfold MaybeFreeInflightBuffers. pres_tac ltac:(first [up_leaf | eapply refines_up, refines_Reset]). Qed.

Lemma AdjustMaxInflightMsgs_up id n : 0 <= n < 2 ^ 62 -> pres (up 0) (AdjustMaxInflightMsgs id n).
Proof.
  intros Hn. unfold AdjustMaxInflightMsgs. pres_tac ltac:(first [up_leaf | by eapply refines_up, refines_SetCapacity]).
Qed.

Lemma EnableGroupCommit_up b : pres (up 0) (EnableGroupCommit b).
Proof. unfold EnableGroupCommit, commit_and_broadcast. pres_tac up_leaf. Qed.

Lemma SetCommitGroupID_up g : pres peer_up (SetCommitGroupID g).
Proof. unfold SetCommitGroupID. pres_tac peer_leaf. Qed.

Lemma AssignCommitGroups_up ids : pres (up 0) (AssignCommitGroups ids).
Proof.
  unfold AssignCommitGroups, commit_and_broadcast.
  pres_tac ltac:(first [up_leaf | apply SetCommitGroupID_up]).
Qed.
End NodeInv.

(** The methods that neither raise the term nor extend the log. *)
#[export] Hint Resolve this_up send_up on_read_only_up on_uncommitted_up SendAppend_up MaybeSendAppend_up
  SendAppendAggressively_up BecomePreCandidate_up BecomeProbe_up BecomeReplicate_up UpdateCommitted_up
  up_on_progress up_on_tracker ResetVotes_up RecordVote_up QuorumRecentlyActive_up Tracker_EnableGroupCommit_up
  each_peer_up LogMaybeCommit_up CommitTo_up set_limit_up Scan_up AppliedTo_up BroadcastAppend_up
  BroadcastHeartbeat_with_up SendRequestSnapshot_up MaybeCommit_up HasUnappliedConfChanges_up send_vote_requests_up
  answer_read_up ack_read_up PostConfChange_up MaybeCommitByVote_up HandleHeartbeatResponse_up
  HandleSnapshotStatus_up HandleUnreachable_up HandleTransferLeader_up HandleAppendResponse_up read_index_up
  check_quorum_up BroadcastHeartbeat_up hear_leader_up HandleHeartbeat_up StepVote_up elapse_up Resume_up
  SnapshotFailure_up SetCommitGroupID_up : up.
#[export] Hint Extern 1 (pres (up 0) (on_log _)) => apply up_on_log; [lia|] : up.

Ltac up_leaf := first [ solve [auto with up] | apply pres_modify; intros ?; apply up_frame; reflexivity
                      | apply pres_modify; intros ?; apply peer_frame; reflexivity
                      | apply each_peer_up; intros ? | apply up_on_progress ].
