(* ===== verification/NodeStart.v ===== *)
(** * The first state of a node

    The constructor of [Raft] gives peers their next index from the last index
    of the log, which may be 0; the reset at its end corrects that.  The
    invariant of [NodeInv] holds when the constructor returns. *)

From S2P Require Import Prelude Types Util Inflights Progress Quorum Tracker ConfChange Storage MemStorage Unstable ReadOnly Config RaftLog RaftLogProps RaftCore RaftSend LogSafety Raft NodeInv.

Section NodeStart.
Context {ENV : Env} {S : Type} {ST : Storage S} {SL : StorageLaws S}.
Implicit Types r : Raft S.

Definition windows_ok (t : ProgressTracker) : Prop :=
  (forall id p, progress_ t !! id = Some p -> Inflights.wf (inflights_ p)) /\
  0 <= Tracker.max_inflight_ t < 2 ^ 62.

(** The invariant without the indexes of the peers and the timeout. *)
Record seed (r : Raft S) : Prop := {
  sd_log : log_ok (raft_log_ r);
  sd_term : 0 <= term_ r < u64max;
  sd_last : v_last (log_view (raft_log_ r)) < u64max;
  sd_windows : windows_ok (progress_tracker_ r);
  sd_config : 0 <= c_max_inflight_messages (config_ r) < 2 ^ 62;
  sd_range : 0 <= min_election_timeout_ r < max_election_timeout_ r /\ max_election_timeout_ r < two64
}.

Definition timed r : Prop :=
  min_election_timeout_ r <= randomized_election_timeout_ r < max_election_timeout_ r.

Lemma seed_node_ok r : seed r -> timed r -> peers_ok (progress_tracker_ r) -> node_ok 0 r.
Proof. intros [] Ht Hp. constructor; (done || lia). Qed.

Lemma seed_frame r r' : raft_log_ r' = raft_log_ r -> term_ r' = term_ r -> config_ r' = config_ r ->
  progress_ (progress_tracker_ r') = progress_ (progress_tracker_ r) ->
  Tracker.max_inflight_ (progress_tracker_ r') = Tracker.max_inflight_ (progress_tracker_ r) ->
  min_election_timeout_ r' = min_election_timeout_ r ->
  max_election_timeout_ r' = max_election_timeout_ r -> seed r -> seed r'.
Proof.
  intros El Et Ec Ep Em E1 E2 []. constructor; rewrite ?El, ?Et, ?Ec, ?E1, ?E2; try done.
  unfold windows_ok in *. by rewrite Ep, Em.
Qed.

(** ** The end of the constructor: [BecomeFollower] *)

Definition grows r r' : Prop := seed r -> seed r' /\ (timed r -> timed r').

#[export] Instance grows_preorder : PreOrder grows.
Proof. split; [by intros r|]. intros r1 r2 r3 H1 H2 H. destruct (H1 H) as [Hs Ht]. destruct (H2 Hs). auto. Qed.

Lemma grows_frame r r' : raft_log_ r' = raft_log_ r -> term_ r' = term_ r -> config_ r' = config_ r ->
  progress_ (progress_tracker_ r') = progress_ (progress_tracker_ r) ->
  Tracker.max_inflight_ (progress_tracker_ r') = Tracker.max_inflight_ (progress_tracker_ r) ->
  min_election_timeout_ r' = min_election_timeout_ r ->
  max_election_timeout_ r' = max_election_timeout_ r ->
  randomized_election_timeout_ r' = randomized_election_timeout_ r -> grows r r'.
Proof. intros ???? ? E1 E2 E3 Hs. split; [by revert Hs; apply seed_frame|]. unfold timed. by rewrite E1, E2, E3. Qed.

Ltac grow_leaf := first [ apply pres_modify; intros ?; apply grows_frame; reflexivity
                        | apply pres_zoom; intros ? t' a E; unfold ResetVotes, modify in E; injection E as _ <-;
                          apply grows_frame; reflexivity ].

Lemma timeout_seed r a r' : seed r -> ResetRandomizedElectionTimeout r = Ret (a, r') -> seed r' /\ timed r'.
Proof.
  intros Hs E. unfold ResetRandomizedElectionTimeout, this in E. rewrite bind_get in E.
  apply bind_Ret in E as (? & r2 & E1 & E). injection E1 as _ <-. injection E as _ <-. destruct Hs.
  split; [by constructor|]. unfold timed. cbn. rewrite u64_id by (unfold is_u64, two64 in *; lia).
  pose proof (draw_range (draws_ r) (min_election_timeout_ r) (max_election_timeout_ r - 1) ltac:(lia)). lia.
Qed.

Lemma reset_role_seed r a r' : seed r -> reset_role r = Ret (a, r') -> seed r' /\ timed r'.
Proof.
  intros Hs E. apply bind_Ret in E as (? & r1 & E1 & E). injection E1 as _ <-.
  apply bind_Ret in E as (? & r2 & E2 & E). apply timeout_seed in E2 as [Hs2 Ht2]; [|by revert Hs; apply seed_frame].
  match type of E with ?f r2 = _ => assert (H : pres grows f) by (unfold AbortLeaderTransfer; pres_tac grow_leaf) end.
  destruct (H _ _ _ E Hs2). auto.
Qed.

(** One peer of the loop of [Reset]. *)
Lemma reset_peer next (self : bool) persisted committed p a p' : 0 < next < two64 -> 0 <= persisted < next ->
  Inflights.wf (inflights_ p) ->
  (Progress.Reset next ;;; when self (set! matched_ := persisted ;;; set! committed_index_ := committed)) p = Ret (a, p') ->
  peer_ok p'.
Proof.
  intros Hn Hp Wi E. destruct (Reset_any next p Wi) as (i & E1 & Wi' & _).
  rewrite (bind_run _ _ _ _ _ E1) in E.
  destruct self; cbn in E; injection E as _ <-; (split; [constructor; cbn; try done; unfold u64max; lia|cbn; unfold u64max; lia]).
Qed.

Lemma foreach_peers next f ids r a r' :
  (forall id p a p', Inflights.wf (inflights_ p) -> f id p = Ret (a, p') -> peer_ok p') ->
  foreach ids (fun id => on_progress (S := S) id (f id)) r = Ret (a, r') -> seed r -> timed r ->
  0 < next ->
  seed r' /\ timed r' /\
  (forall id p, progress_ (progress_tracker_ r') !! id = Some p ->
     peer_ok p \/ (id ∉ ids) /\ progress_ (progress_tracker_ r) !! id = Some p).
Proof.
  intros Hf. revert r. induction ids as [|id ids IH]; intros r E Hs Ht Hn.
  { injection E as _ <-. split; [done|]. split; [done|]. intros id p Hp. right. split; [apply not_elem_of_nil|done]. }
  cbn in E. apply bind_Ret in E as (u & r1 & E1 & E). unfold on_progress in E1.
  destruct (get_progress id r) as [p|] eqn:Ep; [|done]. destruct (f id p) as [[x p']|] eqn:Ef; [|done].
  injection E1 as _ <-. pose proof (sd_windows _ Hs) as [Hw Hm].
  assert (Pp : peer_ok p') by (eapply Hf; [|exact Ef]; by eapply Hw).
  destruct (IH _ E) as (Hs' & Ht' & Hall); [|done|done|].
  - destruct Hs. constructor; cbn; try done. split; [|done]. cbn. intros id' q Hq.
    apply lookup_insert_Some in Hq as [[_ <-]|[_ Hq]]; [apply Pp|by eapply Hw].
  - split; [done|]. split; [done|]. intros id' q Hq. destruct (Hall id' q Hq) as [|[Hni Hq']]; [by left|].
    cbn in Hq'. apply lookup_insert_Some in Hq' as [[_ <-]|[Hne Hq']]; [by left|right].
    split; [|done]. by apply not_elem_of_cons.
Qed.

Lemma reset_peers_seed r a r' : seed r -> timed r -> reset_peers r = Ret (a, r') -> node_ok 0 r'.
Proof.
  intros Hs Ht E. unfold reset_peers in E. apply bind_Ret in E as (last & r1 & E1 & E).
  apply getsO_Ret in E1 as (x & E1 & [= -> ->]).
  pose proof Hs as [Hl ? ? ? ? ?]. pose proof Hl as [Hw [Hc1 Hc2 Hc3]].
  unfold last_index_of in E1. rewrite LastIndex_view in E1 by done. injection E1 as <-.
  unfold this in E. rewrite bind_get in E. cbv zeta in E. unfold each_peer, this in E. rewrite bind_get in E.
  pose proof (view_bounds _ Hw). rewrite (u64_id (_ + 1)) in E by (unfold is_u64, two64, u64max in *; lia).
  apply (foreach_peers (v_last (log_view (raft_log_ r)) + 1)) in E as (Hs' & Ht' & Hall); [|..|lia]; try done.
  - apply seed_node_ok; [done|done|]. split; [|apply (sd_windows _ Hs')]. intros id p Hp.
    destruct (Hall id p Hp) as [|[Hni Hq]]; [done|]. exfalso. apply Hni. rewrite (iter_perm _).
    apply elem_of_elements, elem_of_dom. eauto.
  - intros id p a' p' Wi Ep. eapply reset_peer; [..|exact Ep]; try done; unfold two64, u64max in *; lia.
Qed.

Lemma BecomeFollower_seed leader r a r' : seed r -> BecomeFollower (term_ r) leader r = Ret (a, r') -> node_ok 0 r'.
Proof.
  intros Hs E. unfold BecomeFollower, this in E. rewrite bind_get in E. apply bind_Ret in E as (? & r1 & E1 & E).
  apply bind_Ret in E1 as (? & r2 & E2 & E1). unfold reset_term, this in E2. rewrite bind_get, Z.eqb_refl in E2.
  injection E2 as _ <-. apply bind_Ret in E1 as (? & r3 & E3 & E1). apply reset_role_seed in E3 as [Hs3 Ht3]; [|done].
  apply reset_peers_seed in E1; [|done..]. revert E E1. match goal with |- ?f r1 = _ -> _ => intros E Hok; assert (Hup : pres (up 0) f) end.
  { pres_tac ltac:(first [apply up_on_log; [lia|apply set_limit_up] | apply pres_modify; intros ?; apply up_frame; reflexivity]). }
  by apply (Hup _ _ _ E).
Qed.

(** ** The constructor before its end *)

Definition windows_up (t t' : ProgressTracker) : Prop := windows_ok t -> windows_ok t'.

#[export] Instance windows_up_preorder : PreOrder windows_up.
Proof. split; [by intros t H|]. intros t1 t2 t3 H1 H2 H. by apply H2, H1. Qed.

Lemma ApplyConf_windows conf changes next : pres windows_up (ApplyConf conf changes next).
Proof.
  intros t a t' E [Ha Hm]. unfold ApplyConf in E. apply bind_Ret in E as (? & t1 & E1 & E).
  injection E1 as _ <-. injection E as _ <-. split; [|done]. cbn. intros id p E.
  apply apply_changes_keep in E as [(q & E & ->) | ->]; [by eapply Ha|by apply Inflights.wf_new].
Qed.

Lemma ConfRestore_windows next cs : pres windows_up (ConfChange.Restore next cs).
Proof.
  assert (H : forall ccs, pres windows_up (simple_each next ccs)).
  { induction ccs as [|cc ccs IH]; cbn [simple_each]; pres_tac ltac:(first [apply IH | apply ApplyConf_windows]). }
  unfold ConfChange.Restore. pres_tac ltac:(first [apply ApplyConf_windows | apply H]).
Qed.

Lemma log_new_ok config store l : st_inv store -> RaftLog.new config store = Ret l ->
  log_ok l /\ store_ l = store /\ log_view l = st_view store /\ committed_ l = v_dummy (st_view store).
Proof.
  intros Hi E. pose proof (st_view_wf _ Hi) as [Hd Hl Hc]. unfold RaftLog.new in E.
  rewrite (st_first _ Hi), (st_last _ Hi) in E. cbn in E.
  assert (Hdl : v_dummy (st_view store) <= v_last (st_view store)) by (unfold v_last; lia).
  rewrite (u64_id (v_last _ + 1)), (u64_id (_ + 1 - 1)), Z.add_simpl_r in E by (unfold is_u64, two64, u64max in *; lia).
  injection E as <-. 
  assert (Ev : log_view (mkRaftLog store (Unstable.new (v_last (st_view store) + 1)) (v_dummy (st_view store))
    (v_last (st_view store)) (v_dummy (st_view store)) (c_max_apply_unpersisted_log_limit config)) = st_view store).
  { unfold log_view. cbn. rewrite app_nil_r, take_ge by (unfold v_last in *; lia). by destruct (st_view store). }
  split; [|done]. split; [|constructor; rewrite ?Ev; cbn; lia].
  constructor; cbn; [done| |lia|done]. constructor; cbn; (done || unfold u64max in *; lia).
Qed.

(** The node the constructor starts from. *)
Definition built config core draws : Raft S := mkRaft core (Tracker.new (c_max_inflight_messages config)) [] config draws.

Record config_ok (config : Config) : Prop := {
  co_inflight : 0 <= c_max_inflight_messages config < 2 ^ 62;
  co_heartbeat : 0 <= c_heartbeat_tick config;
  co_max : c_max_election_tick config < two64
}.

Lemma built_seed config store core draws : config_ok config -> Validate config = Ok tt -> st_inv store ->
  RaftCore.new config store = Ret core ->
  seed (built config core draws) /\ state_ core = Follower /\ store_ (raft_log_ core) = store /\
  log_view (raft_log_ core) = st_view store /\ committed_ (raft_log_ core) = v_dummy (st_view store) /\ RaftCore.term_ core = 0.
Proof.
  intros [] Hv Hi E. unfold RaftCore.new in E. destruct (RaftLog.new config store) as [l|] eqn:El; [|done].
  injection E as <-. destruct (log_new_ok _ _ _ Hi El) as (Hl & Hs & Hw & Hc).
  pose proof (st_view_wf _ Hi) as [_ Hlast _]. apply Validate_Ok in Hv as (_ & _ & Hv1 & Hv2 & _).
  split; [|done]. constructor; cbn; try done.
  - by rewrite Hw.
  - split; [lia|]. unfold MaxElectionTick. destruct (_ =? _); [apply u64_range|done].
Qed.

Lemma PostConfChange_follower r : state_ r = Follower ->
  PostConfChange r = Ret (ToConfState (conf_ (progress_tracker_ r)), r <| core_ := (core_ r) <| promotable_ :=
    JointContains (voters (conf_ (progress_tracker_ r))) (id_ r) |> |>).
Proof.
  intros Hf. unfold PostConfChange, this. rewrite bind_get. cbv zeta.
  assert (Hl : is_role Leader r = false) by (unfold is_role; rewrite Hf; done).
  rewrite bind_modify, Hl, andb_false_r. done.
Qed.

(** A node during its construction: a follower with term [tm] and commit index
    [c] over the storage. *)
Definition starting tm c store r : Prop :=
  seed r /\ state_ r = Follower /\ log_view (raft_log_ r) = st_view store /\ committed_ (raft_log_ r) = c /\
  store_ (raft_log_ r) = store /\ term_ r = tm.

Lemma LoadState_starting hs tm c store r a r' : starting tm c store r -> 0 <= hs_term hs < u64max ->
  LoadState hs r = Ret (a, r') -> starting (hs_term hs) (hs_commit hs) store r'.
Proof.
  intros (Hs & Hf & Hv & Hc & Hst & Htm) Ht E. unfold LoadState, this in E. rewrite bind_get in E.
  apply bind_Ret in E as (last & r1 & E1 & E). apply getsO_Ret in E1 as (x & E1 & [= <- ->]).
  pose proof Hs as [[Hw [Hc1 Hc2 Hc3]] ? ? ? ? ?].
  unfold last_index_of in E1. rewrite LastIndex_view in E1 by done. injection E1 as <-.
  destruct (_ || _) eqn:Eb; [done|]. apply orb_false_iff in Eb as [E1%Z.ltb_ge E2%Z.ltb_ge].
  cbn in E. injection E as _ <-. destruct (cursors_view (raft_log_ r) ((raft_log_ r) <| committed_ := hs_commit hs |>))
    as [Ev Ew]; [done|done|].
  split; [|done]. constructor; cbn; try done. split; [by apply Ew|].
  constructor; cbn; rewrite ?Ev; lia.
Qed.

Lemma apply_starting applied tm c store r a r' : starting tm c store r -> applied <= c ->
  CommitApplyInternal applied true r = Ret (a, r') -> starting tm c store r'.
Proof.
  intros (Hs & Hf & Hv & Hc & Hst & Htm) Ha E. unfold CommitApplyInternal, this in E. rewrite bind_get in E. cbn [negb] in E.
  apply bind_Ret in E as (? & r1 & E1 & E). apply bind_Ret in E1 as (? & r2 & E2 & E1).
  apply assert_Ret in E2 as [Hp [= -> ->]]. apply Z.ltb_lt in Hp. injection E1 as _ <-. rewrite bind_get in E.
  match type of E with (if ?b then _ else _) _ = _ => assert (Hb : b = false) end.
  { unfold is_role. cbn. rewrite Hf. by rewrite andb_false_r. }
  rewrite Hb in E. injection E as _ <-.
  destruct (cursors_view (raft_log_ r) ((raft_log_ r) <| applied_ := applied |>)) as [Ev Ew]; [done|done|].
  pose proof Hs as [[Hw [Hc1 Hc2 Hc3]] ? ? ? ? ?].
  split; [|done]. constructor; cbn; try done. split; [by apply Ew|]. constructor; cbn; rewrite ?Ev; lia.
Qed.

(** The commit index a node starts with. *)
Definition start_commit (config : Config) (rs : RaftState) (v : LogView) : Z :=
  if c_load_state_on_startup config && negb (bool_decide (rs_hard_state rs = empty_hard_state))
  then hs_commit (rs_hard_state rs) else v_dummy v.

(** The term a node starts with. *)
Definition start_term (config : Config) (rs : RaftState) : Z :=
  if c_load_state_on_startup config && negb (bool_decide (rs_hard_state rs = empty_hard_state))
  then hs_term (rs_hard_state rs) else 0.

(** [BecomeFollower] in the term of the node changes neither term nor log. *)
Lemma BecomeFollower_log leader r a r' : BecomeFollower (term_ r) leader r = Ret (a, r') ->
  raft_log_ r' = (raft_log_ r) <| max_apply_unpersisted_log_limit_ := 0 |> /\ term_ r' = term_ r.
Proof.
  intros E. unfold BecomeFollower, this in E. rewrite bind_get in E. cbv zeta in E. apply bind_Ret in E as (? & r1 & E1 & E).
  unfold Reset in E1. apply bind_Ret in E1 as (? & r2 & E2 & E1). unfold reset_term, this in E2. rewrite bind_get, Z.eqb_refl in E2.
  injection E2 as _ <-. apply bind_Ret in E1 as (? & r3 & E3 & E1). destruct (reset_role_hs _ _ _ E3) as [T3 _ L3 _].
  destruct (reset_peers_hs _ _ _ E1) as [T1 _ L1 _]. rewrite !bind_modify in E. injection E as _ <-. cbn. split; congruence.
Qed.

(** The node the constructor returns. *)
Lemma new_node_started config store draws rs r : config_ok config -> st_inv store -> InitialState store = Ok rs ->
  0 <= hs_term (rs_hard_state rs) < u64max -> c_applied config <= start_commit config rs (st_view store) ->
  Raft.new config store draws = Ret r ->
  node_ok 0 r /\ store_ (raft_log_ r) = store /\ log_view (raft_log_ r) = st_view store /\
  committed_ (raft_log_ r) = start_commit config rs (st_view store) /\ term_ r = start_term config rs.
Proof.
  intros Hco Hi Hrs Ht Ha E. unfold Raft.new in E. destruct (RaftCore.new config store) as [core|] eqn:Ec; [|done].
  cbn [obind] in E. apply obind_Ret in E as ([a r1] & E & [= ->]). unfold construct in E.
  destruct (Validate config) as [[]|] eqn:Hv; [|done]. rewrite bind_ret in E.
  destruct (built_seed config store core draws Hco Hv Hi Ec) as (Hs & Hf & Hst & Hw & Hc & Htm).
  change (mkRaft core _ _ _ _) with (built config core draws) in E. unfold this in E. rewrite bind_get in E.
  unfold GetInitialState in E. change (raft_log_ (built config core draws)) with (raft_log_ core) in E.
  rewrite Hst, Hrs, bind_ret in E. apply bind_Ret in E as (last & r2 & E1 & E). apply getsO_Ret in E1 as (x & _ & [= <- ->]).
  apply bind_Ret in E as (restored & r2 & E1 & E). apply zoom_Ret in E1 as (y & t & E1 & [= -> ->]).
  apply ConfRestore_windows in E1 as Ht'. destruct y as [?|]; [|done]. rewrite bind_ret in E.
  set (r2 := (built config core draws) <| progress_tracker_ := t |>) in E.
  assert (Hs2 : starting 0 (v_dummy (st_view store)) store r2).
  { split; [|done]. destruct Hs. constructor; try done. by apply Ht'. }
  apply bind_Ret in E as (cs & r3 & E3 & E). rewrite PostConfChange_follower in E3 by done. injection E3 as <- <-.
  match type of E with ?f ?x = _ => set (r3 := x) in E end.
  assert (Hs3 : starting 0 (v_dummy (st_view store)) store r3).
  { destruct Hs2 as (H1 & H2). split; [by revert H1; apply seed_frame|exact H2]. }
  apply bind_Ret in E as (? & r4 & E4 & E). apply assert_Ret in E4 as [_ [= -> ->]].
  apply bind_Ret in E as (? & r5 & E5 & E).
  assert (Hs5 : starting (start_term config rs) (start_commit config rs (st_view store)) store r5).
  { unfold start_commit, start_term. destruct (_ && _); [by eapply LoadState_starting|]. by injection E5 as _ <-. }
  apply bind_Ret in E as (? & r6 & E6 & E).
  assert (Hs6 : starting (start_term config rs) (start_commit config rs (st_view store)) store r6).
  { destruct (0 <? c_applied config); [by eapply apply_starting|]. by injection E6 as _ <-. }
  rewrite bind_get in E. destruct Hs6 as (Hs6 & _ & Hv6 & Hc6 & Hst6 & Htm6). destruct (BecomeFollower_log _ _ _ _ E) as (Elog & Et).
  split; [by eapply BecomeFollower_seed|]. rewrite Elog, Et. cbn. split; [done|]. split; [exact Hv6|done].
Qed.

(** C18: A node that the constructor returns satisfies the invariant, when the
    storage does, its hard state has a term below the invalid one, and the
    applied index of the configuration is not past the commit index. *)
Theorem new_node_ok config store draws rs r : config_ok config -> st_inv store -> InitialState store = Ok rs ->
  0 <= hs_term (rs_hard_state rs) < u64max -> c_applied config <= start_commit config rs (st_view store) ->
  Raft.new config store draws = Ret r -> node_ok 0 r.
Proof. intros Hco Hi Hrs Ht Ha E. by apply (new_node_started config store draws rs r). Qed.
End NodeStart.

(** ** Witness

    A node of three voters over a store with entries 1 to 3 and commit 2. *)
Definition start_config : Config :=
  DefaultConfig <| c_id := 1 |> <| c_applied := 1 |> <| c_load_state_on_startup := true |>.

Definition start_state : RaftState := mkRaftState (mkHardState 1 2 2) (mkConfState [1; 2; 3] [] [] [] false).

Definition start_store : MemoryStorage := example_store <| raft_state_ := start_state |>.

Lemma new_node_ok_witness :
  exists r, Raft.new start_config start_store 0 = Ret r /\ hard_state r = mkHardState 1 2 2 /\ node_ok 0 r.
Proof.
  eexists. split; [vm_compute; reflexivity|]. split; [reflexivity|].
  apply (new_node_ok start_config start_store 0 start_state).
  - constructor; cbn; unfold two64; lia.
  - constructor; [constructor| |]; cbn; unfold v_last; cbn; unfold is_u64, two64, u64max; repeat split; try lia.
  - reflexivity.
  - cbn. unfold u64max. lia.
  - vm_compute. discriminate.
  - vm_compute. reflexivity.
Defined.
