(* ===== verification/NodeSafety.v ===== *)
(** * The life of a node

    A node is built by the constructor of [Raft] and then driven by the calls
    of its interface in any order.  The invariant of [NodeInv] holds from the
    first state on, and along every run terms do not decrease, a vote is kept
    within its term, and committed entries are final. *)

From S2P Require Import Prelude Types Util Inflights Progress Quorum Tracker ConfChange Storage MemStorage Unstable ReadOnly Config RaftLog RaftLogProps RaftCore RaftSend LogSafety Raft NodeInv.

(** The calls that change a node. *)
Inductive Input :=
| InStep (m : Message)
| InTick
| InPersistEntries (index term : Z)
| InPersistSnapshot (index : Z)
| InApply (applied : Z)
| InConfChange (cc : ConfChangeV2)
| InRequestSnapshot
| InPing
| InSetPriority (priority : Z)
| InReduceUncommitted (ents : list Entry)
| InFreeInflights
| InAdjustInflights (id capacity : Z)
| InGroupCommit (enable : bool)
| InAssignGroups (ids : list (Z * Z)).

Section NodeSafety.
Context {ENV : Env} {S : Type} {ST : Storage S} {SL : StorageLaws S}.
Implicit Types r : Raft S.

Definition ignore {A} (m : M (Raft S) A) : M (Raft S) unit := m ;;; ret tt.

Definition handle (i : Input) : M (Raft S) unit :=
  match i with
  | InStep m => ignore (Step m)
  | InTick => ignore Tick
  | InPersistEntries index term => OnPersistEntries index term
  | InPersistSnapshot index => OnPersistSnapshot index
  | InApply applied => CommitApply applied
  | InConfChange cc => ignore (ApplyConfChange cc)
  | InRequestSnapshot => ignore RequestSnapshot
  | InPing => Ping
  | InSetPriority priority => SetPriority priority
  | InReduceUncommitted ents => ReduceUncommittedSize ents
  | InFreeInflights => MaybeFreeInflightBuffers
  | InAdjustInflights id capacity => AdjustMaxInflightMsgs id capacity
  | InGroupCommit enable => EnableGroupCommit enable
  | InAssignGroups ids => AssignCommitGroups ids
  end.

(** What the callers have to respect. *)
Definition input_ok (i : Input) (r : Raft S) : Prop :=
  match i with
  | InStep m => msg_ok m
  | InPersistEntries index _ => 0 <= index < u64max
  | InConfChange _ => 0 < v_last (log_view (raft_log_ r))
  | InAdjustInflights _ capacity => 0 <= capacity < 2 ^ 62
  | _ => True
  end.

(** How far a call can move term and log. *)
Definition input_reach (i : Input) : Z :=
  match i with
  | InStep m => m_term m + reach m
  | InTick => 6
  | InApply _ => 1
  | _ => 0
  end.

Fixpoint total (ins : list Input) : Z :=
  match ins with
  | [] => 0
  | i :: ins => Z.max 0 (input_reach i) + total ins
  end.

(** A run of the node that does not panic. *)
Inductive node_run : list Input -> Raft S -> Raft S -> Prop :=
| run_nil r : node_run [] r r
| run_cons i ins r r1 r2 : input_ok i r -> handle i r = Ret (tt, r1) -> node_run ins r1 r2 ->
    node_run (i :: ins) r r2.

Lemma ignore_up {A} n r (m : M (Raft S) A) : 0 <= n -> runs (up n) r m -> runs (up n) r (ignore m).
Proof. intros Hn Hm. apply runs_then; [done|done|]. intros ?. apply pres_ret. typeclasses eauto. Qed.

Lemma handle_up i r : input_ok i r -> runs (up (Z.max 0 (input_reach i))) r (handle i).
Proof.
  intros Hi. destruct i; cbn [handle input_ok input_reach] in *.
  - pose proof (mo_term m Hi). pose proof (mo_snapshot m Hi). unfold reach. rewrite Z.max_r by lia.
    apply ignore_up; [lia|]. apply pres_runs. by apply Step_up.
  - apply ignore_up; [lia|]. apply pres_runs, Tick_up.
  - apply pres_runs. by apply OnPersistEntries_up.
  - apply pres_runs, OnPersistSnapshot_up.
  - apply pres_runs, CommitApply_up.
  - apply ignore_up; [lia|]. by apply ApplyConfChange_up.
  - apply ignore_up; [lia|]. apply pres_runs, RequestSnapshot_up.
  - apply pres_runs, Ping_up.
  - apply pres_runs, SetPriority_up.
  - apply pres_runs, ReduceUncommittedSize_up.
  - apply pres_runs, MaybeFreeInflightBuffers_up.
  - apply pres_runs. by apply AdjustMaxInflightMsgs_up.
  - apply pres_runs, EnableGroupCommit_up.
  - apply pres_runs, AssignCommitGroups_up.
Qed.

Lemma total_nonneg ins : 0 <= total ins.
Proof. induction ins; cbn; lia. Qed.

Lemma run_up ins r r' : node_run ins r r' -> up (total ins) r r'.
Proof.
  induction 1 as [r|i ins r r1 r2 Hi E _ IH]; [reflexivity|]. cbn.
  eapply up_trans; [lia|apply total_nonneg|by eapply handle_up|done].
Qed.

(** C4: Along every run of a node the invariant holds, the term does not
    decrease, the vote of a term is not changed once given, commit and applied
    index do not go back, and no committed entry is ever changed. *)
Theorem node_run_safe ins r r' : node_ok (total ins) r -> node_run ins r r' ->
  node_ok 0 r' /\ term_ r <= term_ r' /\
  (term_ r' = term_ r -> vote_ r <> kInvalidId -> vote_ r' = vote_ r) /\
  committed_ (raft_log_ r) <= committed_ (raft_log_ r') /\
  applied_ (raft_log_ r) <= applied_ (raft_log_ r') <= committed_ (raft_log_ r') /\
  (forall i, v_dummy (log_view (raft_log_ r')) < i <= committed_ (raft_log_ r) ->
     v_at (log_view (raft_log_ r')) i = v_at (log_view (raft_log_ r)) i).
Proof.
  intros Hok Hr. destruct (run_up _ _ _ Hr Hok) as [Hok' [Ht Hv [Hc Ha _ _ Hp] _]].
  destruct (ok_log _ _ Hok') as [_ [Hc1 Hc2 Hc3]]. split; [done|]. split; [lia|]. split; [done|]. split; [lia|]. split; [lia|done].
Qed.
End NodeSafety.

(** ** Witness

    The leader of [RaftSend], with two followers: an acknowledgement and the
    write of its own log commit entry 4, then it hears of a leader of term 3. *)
Definition example_conf : TrackerConfiguration := mkTrackerConf (mkJoint {[1; 2; 3]} ∅) ∅ ∅ false.

Definition example_tracker : ProgressTracker :=
  mkProgressTracker {[1 := example_peer Replicate; 2 := example_peer Replicate; 3 := example_peer Probe]}
    example_conf ∅ 4 false.

Definition example_node : Raft MemoryStorage :=
  mkRaft example_core example_tracker [] (DefaultConfig <| c_id := 1 |>) 0.

Definition example_inputs : list Input :=
  [ InStep (empty_message <| m_type := MsgAppendResponse |> <| m_from := 2 |> <| m_term := 2 |> <| m_index := 4 |>);
    InPersistEntries 4 2; InTick;
    InStep (empty_message <| m_type := MsgHeartbeat |> <| m_from := 3 |> <| m_term := 3 |> <| m_commit := 4 |>) ].

Lemma example_node_ok_at : node_ok 1000 example_node.
Proof.
  constructor; [|vm_compute; congruence..| | | |].
  - split; [exact example_log_wf|]. constructor; vm_compute; split; discriminate.
  - split; [|cbn; lia]. cbn. intros id p E.
    repeat apply lookup_insert_Some in E as [[_ <-]|[_ E]]; try apply example_peer_ok.
    apply lookup_singleton_Some in E as [_ <-]. apply example_peer_ok.
  - cbn. lia.
  - cbn. unfold two64. lia.
  - cbn. lia.
Qed.

Lemma example_node_ok : node_ok (total example_inputs) example_node.
Proof. eapply (node_ok_weaken _ 1000); [vm_compute; congruence|exact example_node_ok_at]. Qed.

Lemma example_run : exists r', node_run example_inputs example_node r' /\ hard_state r' = mkHardState 3 0 4.
Proof.
  eexists. split.
  - eapply run_cons; [constructor; cbn; unfold u64max; (lia || intuition congruence)|vm_compute; reflexivity|].
    eapply run_cons; [cbn; unfold u64max; lia|vm_compute; reflexivity|].
    eapply run_cons; [exact I|vm_compute; reflexivity|].
    eapply run_cons; [constructor; cbn; unfold u64max; (lia || intuition congruence)|vm_compute; reflexivity|].
    apply run_nil.
  - reflexivity.
Qed.

Lemma node_run_safe_witness :
  exists r', node_run example_inputs example_node r' /\ hard_state r' = mkHardState 3 0 4 /\ node_ok 0 r' /\
    term_ example_node <= term_ r'.
Proof.
  destruct example_run as (r' & H & Hh). exists r'. split; [exact H|]. split; [exact Hh|].
  destruct (node_run_safe example_inputs example_node r' example_node_ok H) as (Hok & Ht & _).
  split; [exact Hok|exact Ht].
Defined.
