(* ===== verification/Elections.v ===== *)
(** * Elections at a node

    What a node does in elections: the votes it gives away, the votes it counts
    as a candidate, and how it becomes a leader.  A grant is a positive answer
    to a vote request.  All methods but those of an election are [civic]: they
    send no grant, and make no leader and no candidate. *)

From S2P Require Import Prelude Types Util Inflights Progress Quorum Tracker ConfChange Storage Unstable ReadOnly Config RaftLog RaftLogProps RaftCore RaftSend LogSafety Raft NodeInv NodeSafety.

Create HintDb civic.

Definition is_grant (m : Message) : bool := mt_eqb (m_type m) MsgRequestVoteResponse && negb (m_reject m).

Definition ballots (ms : list Message) : list Message := filter (fun m => is_grant m = true) ms.

Arguments ballots : simpl never.

Lemma ballots_app a b : ballots (a ++ b) = ballots a ++ ballots b.
Proof. apply filter_app. Qed.

Lemma ballots_other m : is_grant m = false -> ballots [m] = [].
Proof. intros E. unfold ballots. rewrite filter_cons_False, filter_nil by congruence. done. Qed.

Section Elections.
Context {ENV : Env} {S : Type} {ST : Storage S} {SL : StorageLaws S}.
Implicit Types r : Raft S.

(** No grant is sent. *)
Record hushed r r' : Prop := {
  hu_ballots : ballots (messages_ r') = ballots (messages_ r);
  hu_id : id_ r' = id_ r
}.

#[export] Instance hushed_preorder : PreOrder hushed.
Proof. split; [by constructor|]. intros r1 r2 r3 [] []. constructor; congruence. Qed.

Record civic r r' : Prop := {
  cv_hushed : hushed r r';
  cv_leader : state_ r' = Leader -> state_ r = Leader /\ term_ r' = term_ r;
  cv_candidate : state_ r' = Candidate ->
    state_ r = Candidate /\ term_ r' = term_ r /\ votes_ (progress_tracker_ r') = votes_ (progress_tracker_ r)
}.

#[export] Instance civic_preorder : PreOrder civic.
Proof.
  split; [by constructor|]. intros r1 r2 r3 [H1 L1 C1] [H2 L2 C2]. constructor; [by transitivity r2| |].
  - intros H. destruct (L2 H) as [H' ->]. auto.
  - intros H. destruct (C2 H) as (H' & -> & ->). auto.
Qed.

Lemma hushed_frame r r' : messages_ r' = messages_ r -> id_ r' = id_ r -> hushed r r'.
Proof. intros Hm Hi. constructor; by rewrite ?Hm, ?Hi. Qed.

Lemma civic_frame r r' : messages_ r' = messages_ r -> id_ r' = id_ r -> state_ r' = state_ r -> term_ r' = term_ r ->
  votes_ (progress_tracker_ r') = votes_ (progress_tracker_ r) -> civic r r'.
Proof. intros Hm Hi Hs Ht Hv. constructor; [by apply hushed_frame|rewrite Hs, Ht; done|rewrite Hs, Ht, Hv; done]. Qed.

(** A node that ends up as a follower or asks for a pre-vote. *)
Lemma civic_ended r r' : hushed r r' -> state_ r' = Follower \/ state_ r' = PreCandidate -> civic r r'.
Proof. intros H [E|E]; constructor; rewrite ?E; done. Qed.

Lemma stamp_kind c m m' : stamp (S := S) c m = Ret m' ->
  m_type m' = m_type m /\ m_reject m' = m_reject m /\ m_to m' = m_to m /\
  (m_from m = kInvalidId -> m_from m' = id_ c) /\ (is_grant m = true -> m_term m' = m_term m).
Proof.
  unfold stamp. intros E. apply obind_Ret in E as (m1 & E1 & E).
  assert (H : m_type m1 = m_type m /\ m_reject m1 = m_reject m /\ m_to m1 = m_to m /\
    (m_from m = kInvalidId -> m_from m1 = id_ c) /\ (is_grant m = true -> m_term m1 = m_term m)).
  { unfold is_grant. destruct (Z.eqb_spec (m_from m) kInvalidId) as [F|F]; cbn in E1;
      destruct (m_type m) eqn:T; cbn in E1; destruct (m_term m =? 0); cbn in E1; try done;
      injection E1 as <-; cbn; rewrite ?T; done. }
  injection E as <-. destruct (_ || _); done.
Qed.

Lemma stamp_grant c m m' : stamp (S := S) c m = Ret m' -> is_grant m' = is_grant m.
Proof. intros E. apply stamp_kind in E as (T & R & _). unfold is_grant. by rewrite T, R. Qed.

(** ** Sending *)

Record ctx_civic (c c' : SendCtx S) : Prop := {
  cc_ballots : ballots (sc_messages c') = ballots (sc_messages c);
  cc_id : id_ (sc_core c') = id_ (sc_core c);
  cc_state : state_ (sc_core c') = state_ (sc_core c);
  cc_term : term_ (sc_core c') = term_ (sc_core c)
}.

#[export] Instance ctx_civic_preorder : PreOrder ctx_civic.
Proof. split; [by constructor|]. intros c1 c2 c3 [] []. constructor; congruence. Qed.

Lemma Send_civic m : is_grant m = false -> pres ctx_civic (RaftCore.Send m).
Proof.
  intros Hm c a c' E. unfold RaftCore.Send in E. apply bind_Ret in E as (m' & c1 & E1 & E). apply getsO_Ret in E1 as (x & E1 & [= -> ->]).
  injection E as _ <-. constructor; try done. cbn. rewrite ballots_app, (ballots_other x), app_nil_r; [done|].
  by rewrite (stamp_grant _ _ _ E1).
Qed.

Lemma batch_into_ballots to committed entries ms ms' x :
  batch_into to committed entries ms = Some (ms', x) -> ballots ms' = ballots ms.
Proof.
  revert ms' x. induction ms as [|m ms IH]; intros ms' x E; cbn in E; [done|].
  destruct (mt_eqb (m_type m) MsgAppend && _) eqn:T.
  - assert (G : is_grant m = false) by (unfold is_grant; by destruct (m_type m)).
    destruct (last entries); [destruct (negb _); [done|]|]; injection E as <- _; unfold ballots;
      rewrite !filter_cons_False; try done; unfold is_grant in *; cbn; by rewrite G.
  - destruct (batch_into _ _ _ ms) as [[ms1 y]|]; [|done]. injection E as <- _. unfold ballots in *.
    rewrite !filter_cons. by rewrite (IH ms1 y).
Qed.

Ltac ctx_leaf := first [apply pres_modify; by constructor | apply pres_zoom; by constructor].

Lemma TryBatching_civic to entries : pres ctx_civic (TryBatching to entries).
Proof.
  intros c a c' E. unfold TryBatching in E. rewrite bind_get in E.
  destruct (batch_into _ _ _ _) as [[ms x]|] eqn:B; [|by injection E as _ <-]. apply batch_into_ballots in B.
  apply bind_Ret in E as (? & c1 & E1 & E). injection E as _ <-.
  assert (H1 : ctx_civic c c1). { destruct x; [|by injection E1 as _ <-]. revert E1. unfold on_pr.
    match goal with |- ?f c = _ -> _ => assert (H : pres ctx_civic f) by ctx_leaf; apply H end. }
  destruct H1. constructor; cbn; congruence.
Qed.

Lemma PrepareSendEntries_civic m term entries c m' c' : PrepareSendEntries m term entries c = Ret (m', c') ->
  ctx_civic c c' /\ is_grant m' = false.
Proof.
  intros E. unfold PrepareSendEntries in E. rewrite bind_get in E. apply bind_Ret in E as (? & c1 & E1 & E). injection E as <- <-.
  split; [|done]. destruct (last entries); [|by injection E1 as _ <-]. revert E1. unfold on_pr.
  match goal with |- ?f c = _ -> _ => assert (H : pres ctx_civic f) by ctx_leaf; apply H end.
Qed.

Lemma PrepareSendSnapshot_civic m to c x c' : PrepareSendSnapshot m to c = Ret (x, c') ->
  ctx_civic c c' /\ match x with Some m' => is_grant m' = false | None => True end.
Proof.
  intros E. unfold PrepareSendSnapshot in E. rewrite bind_get in E. destruct (negb _); [by injection E as <- <-|].
  apply bind_Ret in E as (s & c1 & E1 & E).
  assert (H1 : ctx_civic c c1). { revert E1. unfold on_core_log.
    match goal with |- ?f c = _ -> _ => assert (H : pres ctx_civic f) by ctx_leaf; apply H end. }
  destruct s as [s|e]; [|destruct (is_storage _ _); [by injection E as <- <-|done]].
  destruct (_ =? 0); [done|]. apply bind_Ret in E as (? & c2 & E2 & E). injection E as <- <-. split; [|done].
  etransitivity; [exact H1|]. revert E2. unfold on_pr.
  match goal with |- ?f c1 = _ -> _ => assert (H : pres ctx_civic f) by ctx_leaf; apply H end.
Qed.

(** A message is prepared and sent. *)
Lemma prepared_civic {A B} (m : M (SendCtx S) A) (k : A -> M (SendCtx S) B) (Q : A -> Prop) :
  (forall c a c', m c = Ret (a, c') -> ctx_civic c c' /\ Q a) -> (forall a, Q a -> pres ctx_civic (k a)) -> pres ctx_civic (bind m k).
Proof.
  intros Hm Hk c b c' E. apply bind_Ret in E as (a & c1 & E1 & E). destruct (Hm _ _ _ E1) as [H1 H2].
  etransitivity; [exact H1|]. by eapply Hk.
Qed.

Lemma MaybeSendAppend_civic to allow_empty : pres ctx_civic (MaybeSendAppend to allow_empty).
Proof.
  unfold MaybeSendAppend. set (m := empty_message <| m_to := to |>).
  assert (Hs : pres ctx_civic (let! x := PrepareSendSnapshot (S := S) m to in
    match x with None => ret false | Some m => RaftCore.Send m ;;; ret true end)).
  { eapply prepared_civic; [apply PrepareSendSnapshot_civic|]. intros [m'|] Hm'; pres_tac ltac:(by apply Send_civic). }
  assert (He : forall term ents, pres ctx_civic (let! m := PrepareSendEntries (S := S) m term ents in RaftCore.Send m ;;; ret true)).
  { intros term ents. eapply prepared_civic; [apply PrepareSendEntries_civic|]. intros m' Hm'. pres_tac ltac:(by apply Send_civic). }
  cbv zeta. unfold on_core_log. repeat first [exact Hs | apply He | pres_step | apply TryBatching_civic | ctx_leaf].
Qed.

Lemma with_progress_civic {A} id (m : M (SendCtx S) A) : pres ctx_civic m -> pres civic (with_progress id m).
Proof.
  intros H r a r' E. unfold with_progress in E. destruct (get_progress id r) as [p|]; [|done].
  destruct (m _) as [[x c]|] eqn:Em; [|done]. injection E as _ <-. destruct (H _ _ _ Em) as [Hb Hi Hs Ht].
  constructor; [by constructor|cbn in *; rewrite Hs, Ht; done|cbn in *; rewrite Hs, Ht; done].
Qed.

Lemma on_progress_civic {A} id (m : M Progress A) : pres civic (on_progress id m).
Proof.
  intros r a r' E. unfold on_progress in E. destruct (get_progress id r); [|done].
  destruct (m p) as [[]|]; [|done]. injection E as _ <-. by apply civic_frame.
Qed.

Lemma on_tracker_civic {A} (m : M ProgressTracker A) : pres (fun t t' => votes_ t' = votes_ t) m -> pres civic (on_tracker m).
Proof. intros H. apply pres_zoom. intros r t a E. apply civic_frame; try done. exact (H _ _ _ E). Qed.

Lemma send_civic m : is_grant m = false -> pres civic (send m).
Proof.
  intros Hm r a r' E. unfold send in E. apply bind_Ret in E as (m' & r1 & E1 & E). apply getsO_Ret in E1 as (x & E1 & [= -> ->]).
  injection E as _ <-. constructor; try done. constructor; [|done]. cbn. rewrite ballots_app, (ballots_other x), app_nil_r; [done|].
  by rewrite (stamp_grant _ _ _ E1).
Qed.

#[export] Instance same_votes_preorder : PreOrder (fun t t' : ProgressTracker => votes_ t' = votes_ t).
Proof. split; [done|]. intros ???; congruence. Qed.

Ltac votes_leaf := apply pres_modify; intros ?; reflexivity.

Lemma QuorumRecentlyActive_votes id : pres (fun t t' => votes_ t' = votes_ t) (QuorumRecentlyActive id).
Proof. unfold QuorumRecentlyActive. pres_tac votes_leaf. Qed.

Lemma ApplyConf_votes cfg changes i : pres (fun t t' => votes_ t' = votes_ t) (ApplyConf cfg changes i).
Proof. unfold ApplyConf. pres_tac votes_leaf. Qed.

Lemma EnableGroupCommit_votes b : pres (fun t t' => votes_ t' = votes_ t) (Tracker.EnableGroupCommit b).
Proof. unfold Tracker.EnableGroupCommit. pres_tac votes_leaf. Qed.

Lemma on_log_civic {A} (m : M (RaftLog S) A) : pres civic (on_log m).
Proof. apply pres_zoom. intros. by apply civic_frame. Qed.

Lemma on_read_only_civic {A} (m : M ReadOnly A) : pres civic (on_read_only m).
Proof. apply pres_zoom. intros. by apply civic_frame. Qed.

Lemma on_uncommitted_civic {A} (m : M UncommittedState A) : pres civic (on_uncommitted m).
Proof. apply pres_zoom. intros. by apply civic_frame. Qed.

Lemma SendAppend_civic to : pres civic (SendAppend to).
Proof. apply with_progress_civic. unfold RaftCore.SendAppend. pres_tac ltac:(apply MaybeSendAppend_civic). Qed.

Lemma SendAppendAggressively_civic to : pres civic (SendAppendAggressively to).
Proof. apply with_progress_civic. intros c a c'. apply (pres_while _ _ _ (MaybeSendAppend_civic to false)). Qed.

Ltac civic_leaf := first
  [ apply on_log_civic | apply on_read_only_civic | apply on_uncommitted_civic | apply on_progress_civic
  | apply SendAppend_civic | apply SendAppendAggressively_civic | apply with_progress_civic, MaybeSendAppend_civic
  | apply send_civic; reflexivity | solve [auto with civic]
  | apply on_tracker_civic; first [apply QuorumRecentlyActive_votes | apply ApplyConf_votes | apply EnableGroupCommit_votes]
  | apply pres_modify; intros ?; apply civic_frame; reflexivity ].

Lemma BroadcastAppend_civic : pres civic BroadcastAppend.
Proof. unfold BroadcastAppend, each_peer, this. pres_tac civic_leaf. Qed.

Lemma BroadcastHeartbeat_with_civic ctx : pres civic (BroadcastHeartbeat_with ctx).
Proof. unfold BroadcastHeartbeat_with, SendHeartbeat, each_peer, this. pres_tac civic_leaf. Qed.

Lemma BroadcastHeartbeat_civic : pres civic BroadcastHeartbeat.
Proof. unfold BroadcastHeartbeat, this. pres_tac ltac:(first [apply BroadcastHeartbeat_with_civic | civic_leaf]). Qed.

Lemma SendRequestSnapshot_civic : pres civic SendRequestSnapshot.
Proof.
  unfold SendRequestSnapshot, this. pres_tac ltac:(first [apply send_civic; match goal with |- is_grant (match ?x with _ => _ end) = _ => by destruct x end | civic_leaf]).
Qed.

Lemma MaybeCommit_civic : pres civic MaybeCommit.
Proof. unfold MaybeCommit, this. pres_tac civic_leaf. Qed.

Lemma AppendEntry_civic entries : pres civic (AppendEntry entries).
Proof. unfold AppendEntry, this. pres_tac civic_leaf. Qed.

Lemma HasUnappliedConfChanges_civic low high ctx : pres civic (HasUnappliedConfChanges low high ctx).
Proof. unfold HasUnappliedConfChanges, this. pres_tac civic_leaf. Qed.

#[local] Hint Resolve BroadcastAppend_civic BroadcastHeartbeat_with_civic BroadcastHeartbeat_civic SendRequestSnapshot_civic
  MaybeCommit_civic AppendEntry_civic HasUnappliedConfChanges_civic : civic.

(** ** Changes of role *)

Lemma civic_hushed {A} (m : M (Raft S) A) : pres civic m -> pres hushed m.
Proof. intros H r a r' E. exact (cv_hushed _ _ (H _ _ _ E)). Qed.

Ltac hush_leaf := first
  [ apply civic_hushed; civic_leaf | apply pres_modify; intros ?; apply hushed_frame; reflexivity
  | apply pres_zoom; intros; apply hushed_frame; reflexivity ].

Lemma Reset_hushed term : pres hushed (Reset term).
Proof.
  unfold Reset, reset_term, reset_role, reset_peers, ResetRandomizedElectionTimeout, AbortLeaderTransfer, each_peer, on_tracker, this.
  pres_tac hush_leaf.
Qed.

Lemma BecomeFollower_civic term leader : pres civic (BecomeFollower term leader).
Proof.
  intros r a r' E. apply civic_ended.
  - revert E. assert (H : pres hushed (BecomeFollower term leader)); [|apply H].
    unfold BecomeFollower, this. pres_tac ltac:(first [apply Reset_hushed | hush_leaf]).
  - left. unfold BecomeFollower, this in E. rewrite bind_get in E. apply bind_Ret in E as (? & r1 & _ & E).
    cbn in E. by injection E as _ <-.
Qed.

Lemma BecomePreCandidate_civic : pres civic BecomePreCandidate.
Proof.
  intros r a r' E. apply civic_ended.
  - revert E. assert (H : pres hushed BecomePreCandidate); [|apply H]. unfold BecomePreCandidate, on_tracker, this. pres_tac hush_leaf.
  - right. unfold BecomePreCandidate, this in E. rewrite bind_get in E. apply bind_Ret in E as (? & r1 & _ & E).
    cbn in E. by injection E as _ <-.
Qed.

Lemma answer_read_civic req index : pres civic (answer_read req index).
Proof.
  intros r a r' E. unfold answer_read, HandleReadyReadIndex, this in E. apply bind_Ret in E as (x & r1 & E1 & E). rewrite bind_get in E1.
  destruct (_ || _).
  - apply bind_Ret in E1 as (? & r2 & E2 & E1). injection E1 as <- <-. injection E2 as _ <-. injection E as _ <-. by apply civic_frame.
  - injection E1 as <- <-. revert E. by apply send_civic.
Qed.
#[local] Hint Resolve BecomeFollower_civic BecomePreCandidate_civic answer_read_civic : civic.

Lemma ack_read_civic id ctx : pres civic (ack_read id ctx).
Proof. unfold ack_read, this. pres_tac civic_leaf. Qed.
#[local] Hint Resolve ack_read_civic : civic.

Lemma PostConfChange_civic : pres civic PostConfChange.
Proof. unfold PostConfChange, AbortLeaderTransfer, each_peer, this. pres_tac civic_leaf. Qed.
#[local] Hint Resolve PostConfChange_civic : civic.

Lemma ApplyConfChange_civic cc : pres civic (ApplyConfChange cc).
Proof. unfold ApplyConfChange. pres_tac civic_leaf. Qed.

Lemma CommitApply_civic applied : pres civic (CommitApply applied).
Proof. unfold CommitApply, CommitApplyInternal, this. pres_tac civic_leaf. Qed.

Lemma MaybeCommitByVote_civic m : pres civic (MaybeCommitByVote m).
Proof. unfold MaybeCommitByVote, this. pres_tac civic_leaf. Qed.

Lemma OnPersistEntries_civic index term : pres civic (OnPersistEntries index term).
Proof. unfold OnPersistEntries, this. pres_tac civic_leaf. Qed.

Lemma HandleAppendResponse_civic m : pres civic (HandleAppendResponse m).
Proof. unfold HandleAppendResponse, SendTimeoutNow, this. pres_tac civic_leaf. Qed.

Lemma HandleHeartbeatResponse_civic m : pres civic (HandleHeartbeatResponse m).
Proof. unfold HandleHeartbeatResponse, this. pres_tac civic_leaf. Qed.

Lemma HandleTransferLeader_civic m : pres civic (HandleTransferLeader m).
Proof. unfold HandleTransferLeader, AbortLeaderTransfer, SendTimeoutNow, this. pres_tac civic_leaf. Qed.

Lemma propose_civic entries : pres civic (propose entries).
Proof. unfold propose, dropped, this. pres_tac civic_leaf. Qed.

Lemma read_index_civic m : pres civic (read_index m).
Proof. unfold read_index, this. pres_tac civic_leaf. Qed.
#[local] Hint Resolve MaybeCommitByVote_civic HandleAppendResponse_civic HandleHeartbeatResponse_civic HandleTransferLeader_civic
  propose_civic read_index_civic : civic.

Lemma StepLeader_civic m : pres civic (StepLeader m).
Proof.
  unfold StepLeader, ok, CheckQuorumActive, HandleSnapshotStatus, HandleUnreachable, this. pres_tac civic_leaf.
Qed.

Lemma HandleAppendEntries_civic m : pres civic (HandleAppendEntries m).
Proof.
  unfold HandleAppendEntries, this. apply pres_bind; [typeclasses eauto|pres_tac civic_leaf|intros r]. cbv zeta.
  destruct (negb _); [pres_tac civic_leaf|]. destruct (_ <? _); [pres_tac civic_leaf|].
  apply pres_bind; [typeclasses eauto|pres_tac civic_leaf|intros [res|]; [|pres_tac civic_leaf]].
  intros r1 a r' E. apply bind_Ret in E as (x & r2 & E1 & E).
  assert (H : civic r1 r2 /\ is_grant x = false).
  { destruct (ma_term_matched res); [by injection E1 as <- <-|].
    apply bind_Ret in E1 as (l & r3 & E2 & E1). apply getsO_Ret in E2 as (? & _ & [= -> ->]).
    apply bind_Ret in E1 as ([hi ht] & r3 & E2 & E1). apply getsO_Ret in E2 as (? & _ & [= <- ->]).
    destruct ht; [|done]. by injection E1 as <- <-. }
  destruct H as [H Hx]. etransitivity; [exact H|]. rewrite bind_get in E. revert E. apply send_civic. exact Hx.
Qed.

Lemma HandleHeartbeat_civic m : pres civic (HandleHeartbeat m).
Proof. unfold HandleHeartbeat, this. pres_tac civic_leaf. Qed.

(** A node that neither leads nor runs for leader stays so. *)
Definition stands r : Prop := state_ r = Leader \/ state_ r = Candidate.
Definition lay r r' : Prop := hushed r r' /\ (~ stands r -> ~ stands r').

#[export] Instance lay_preorder : PreOrder lay.
Proof. split; [by split|]. intros r1 r2 r3 [H1 L1] [H2 L2]. split; [by transitivity r2|auto]. Qed.

Lemma civic_lay {A} (m : M (Raft S) A) : pres civic m -> pres lay m.
Proof.
  intros H r a r' E. destruct (H _ _ _ E) as [Hh Hl Hc]. split; [done|]. intros Hn [Hs|Hs]; apply Hn.
  - left. by apply Hl.
  - right. by apply Hc.
Qed.

Lemma lay_civic r r' : lay r r' -> ~ stands r -> civic r r'.
Proof.
  intros [Hh Hl] Hn. specialize (Hl Hn). unfold stands in Hl. constructor; [done| |]; intros E; destruct Hl; auto.
Qed.

Lemma Restore_civic snapshot : pres civic (Restore snapshot).
Proof.
  unfold Restore. intros r a r' E. unfold this in E. rewrite bind_get in E. cbv zeta in E. destruct (_ <? _); [by injection E as _ <-|].
  destruct (negb (is_role Follower r)) eqn:F.
  { revert E. match goal with |- ?f r = _ -> _ => assert (H : pres civic f) by pres_tac civic_leaf; apply H end. }
  apply lay_civic; [|intros [Hs|Hs]; unfold is_role in F; by rewrite Hs in F].
  revert E. match goal with |- ?f r = _ -> _ => assert (H : pres lay f); [|apply H] end.
  pres_tac ltac:(first [ apply civic_lay; civic_leaf | apply pres_modify; intros ?; (split; [by apply hushed_frame|done]) ]).
Qed.
#[local] Hint Resolve Restore_civic HandleAppendEntries_civic HandleHeartbeat_civic : civic.

Lemma HandleSnapshot_civic m : pres civic (HandleSnapshot m).
Proof. unfold HandleSnapshot, this. pres_tac civic_leaf. Qed.

Lemma RequestSnapshot_civic : pres civic RequestSnapshot.
Proof. unfold RequestSnapshot, this. pres_tac civic_leaf. Qed.

Lemma send_vote_requests_civic t mt term : mt <> MsgRequestVoteResponse -> pres civic (send_vote_requests t mt term).
Proof.
  intros Hm. unfold send_vote_requests, this. pres_tac ltac:(first [civic_leaf | apply send_civic;
    match goal with |- is_grant (if ?b then _ else _) = _ => destruct b end; unfold is_grant; cbn; by destruct mt]).
Qed.

Lemma StepTerm_civic m : pres civic (StepTerm m).
Proof. unfold StepTerm, this. cbv zeta. pres_tac civic_leaf. Qed.

(** ** Votes

    [cast v c t]: voter [v] is known to have granted its vote of term [t] to
    [c].  [conf] is the configuration of the voters, [sent] what the node has
    sent before; its other messages wait in [messages_]. *)
Section Seats.
Context (conf : JointConfiguration) (cast : Z -> Z -> Z -> Prop) (sent : list Message).

(** A ballot of the node that is still valid. *)
Definition kept (r : Raft S) (m : Message) : Prop :=
  (m_from m = id_ r /\ m_term m <> 0) /\
  (m_to m <> kInvalidId -> m_term m < term_ r \/ m_term m = term_ r /\ vote_ r = m_to m).

Definition backed (r : Raft S) (v : Z) : Prop := v = id_ r \/ cast v (id_ r) (term_ r).

(** What a node knows of its elections: its grants are covered by its term and
    vote, and those of one term go to one candidate; a candidate counts votes it has; a leader has those of a quorum. *)
Record seat (r : Raft S) : Prop := {
  se_ballots m : m ∈ ballots (sent ++ messages_ r) -> kept r m;
  se_unique m1 m2 : m1 ∈ ballots (sent ++ messages_ r) -> m2 ∈ ballots (sent ++ messages_ r) -> m_term m1 = m_term m2 ->
    m_to m1 <> kInvalidId -> m_to m2 <> kInvalidId -> m_to m1 = m_to m2;
  se_candidate : state_ r = Candidate ->
    vote_ r = id_ r /\ forall v, votes_ (progress_tracker_ r) !! v = Some true -> backed r v;
  se_leader : state_ r = Leader -> vote_ r = id_ r /\ exists Q, joint_quorum conf Q /\ forall v, v ∈ Q -> backed r v
}.

Definition voters_of (r : Raft S) : JointConfiguration := voters (conf_ (progress_tracker_ r)).

Record good (n : Z) (r : Raft S) : Prop := {
  go_ok : node_ok n r;
  go_id : id_ r <> kInvalidId;
  go_conf : voters_of r = conf;
  go_seat : seat r
}.

Definition sitting (n : Z) (r r' : Raft S) : Prop := good n r -> seat r'.

Lemma kept_moves n r r' m : node_moves n r r' -> kept r m -> kept r' m.
Proof.
  intros M [[Hf H0] Hk]. split; [by rewrite (mv_id _ _ _ M)|]. intros Ht. pose proof (mv_term _ _ _ M).
  destruct (Hk Ht) as [Hlt|[He Hv]]; [left; lia|]. destruct (decide (term_ r' = term_ r)) as [E|E]; [|left; lia].
  right. split; [congruence|]. rewrite (mv_vote _ _ _ M); congruence.
Qed.

Lemma civic_seat n r r' : civic r r' -> node_moves n r r' -> id_ r <> kInvalidId -> seat r -> seat r'.
Proof.
  intros [[Hb Hi] Hl Hc] M Hid [Sb Su Sc Sl]. rewrite ballots_app in Sb, Su.
  assert (Hv : term_ r' = term_ r -> vote_ r = id_ r -> vote_ r' = id_ r').
  { intros Ht Hv. rewrite (mv_vote _ _ _ M); congruence. }
  constructor; rewrite ?ballots_app, ?Hb; [|exact Su|..].
  - intros m Hm. eapply kept_moves; [exact M|]. by apply Sb.
  - intros Hs. destruct (Hc Hs) as (Hs' & Ht & Hvs). destruct (Sc Hs') as [Hv' Hk]. split; [auto|].
    intros v Ev. rewrite Hvs in Ev. unfold backed. rewrite Hi, Ht. by apply Hk.
  - intros Hs. destruct (Hl Hs) as (Hs' & Ht). destruct (Sl Hs') as (Hv' & Q & HQ & Hk). split; [auto|].
    exists Q. split; [done|]. intros v Ev. unfold backed. rewrite Hi, Ht. by apply Hk.
Qed.

Lemma civic_sits {A} n (m : M (Raft S) A) r : pres civic m -> runs (up n) r m -> runs (sitting n) r m.
Proof.
  intros Hc Hu a r' E [Hok Hid _ Hs]. destruct (Hu _ _ E Hok) as [_ M]. eapply civic_seat; [by eapply Hc|exact M|done|done].
Qed.

(** The voters stay. *)
Definition same_voters (r r' : Raft S) : Prop := voters_of r' = voters_of r.

#[export] Instance same_voters_preorder : PreOrder same_voters.
Proof. split; [done|]. intros r1 r2 r3 H1 H2. unfold same_voters in *. congruence. Qed.

Lemma good_after a b r r' : good (a + b) r -> 0 <= a -> 0 <= b -> up a r r' -> id_ r' = id_ r -> same_voters r r' -> seat r' -> good b r'.
Proof.
  intros [Hok Hid Hc Hs] Ha Hb Hu Hi Hv Hs'. destruct Hu as [Hok' M]; [by eapply node_ok_weaken; [|exact Hok]; lia|].
  constructor; [by eapply node_ok_after|congruence|by rewrite Hv|done].
Qed.

(** A civic prelude. *)
Lemma civic_good n r r' : good n r -> 0 <= n -> civic r r' -> up 0 r r' -> same_voters r r' -> good n r'.
Proof.
  intros Hg Hn Hc Hu Hv. apply (good_after 0 n r r'); try done; [by destruct Hc as [[]]|].
  destruct Hg as [Hok Hid _ Hs]. destruct Hu as [_ M]; [by eapply node_ok_weaken; [|exact Hok]; lia|]. by eapply civic_seat.
Qed.

Lemma sits_then {A B} n (m : M (Raft S) A) (k : A -> M (Raft S) B) : 0 <= n ->
  pres civic m -> pres (up 0) m -> pres same_voters m -> (forall a, pres (sitting n) (k a)) -> pres (sitting n) (bind m k).
Proof.
  intros Hn Hc Hu Hv Hk r b r' E Hg. apply bind_Ret in E as (a & r1 & E1 & E). eapply Hk; [exact E|].
  eapply civic_good; [exact Hg|done|by eapply Hc|by eapply Hu|by eapply Hv].
Qed.

(** A civic rest. *)
Lemma sits_after {A B} n j r (m : M (Raft S) A) (k : A -> M (Raft S) B) : 0 <= n -> 0 <= j -> runs (up n) r m ->
  runs (sitting n) r m -> (forall a, pres civic (k a)) -> (forall a, pres (up j) (k a)) -> runs (sitting (n + j)) r (bind m k).
Proof.
  intros Hn Hj Hu Hm Hc Hk b r' E [Hok Hid Hcf Hs]. apply bind_Ret in E as (a & r1 & E1 & E).
  assert (Hokn : node_ok n r) by (eapply node_ok_weaken; [|exact Hok]; lia).
  destruct (Hu _ _ E1 Hokn) as [Hok1 M1]. assert (Hs1 : seat r1) by (eapply Hm; [exact E1|by constructor]).
  assert (Hokj : node_ok j r1) by (by eapply node_ok_after). destruct (Hk _ _ _ _ E Hokj) as [_ M2].
  eapply civic_seat; [by eapply Hc|exact M2|by rewrite (mv_id _ _ _ M1)|done].
Qed.

Lemma sits_weaken {A} n j r (m : M (Raft S) A) : n <= j -> runs (sitting n) r m -> runs (sitting j) r m.
Proof. intros Hn Hm a r' E [Hok Hid Hc Hs]. eapply Hm; [exact E|]. constructor; try done. by eapply node_ok_weaken. Qed.

(** ** Running for leader *)

Lemma on_progress_voters {A} id (m : M Progress A) : pres same_voters (on_progress id m).
Proof.
  intros r a r' E. unfold on_progress in E. destruct (get_progress id r); [|done]. destruct (m p) as [[]|]; [|done]. by injection E as _ <-.
Qed.

Ltac voters_leaf := first [ by apply pres_modify | apply on_progress_voters
  | apply pres_zoom; intros ? ? ? ?; reflexivity | apply pres_zoom; intros ? ? ? [= _ <-]; reflexivity ].

Lemma Reset_voters term : pres same_voters (Reset term).
Proof.
  unfold Reset, reset_term, reset_role, reset_peers, ResetRandomizedElectionTimeout, AbortLeaderTransfer, each_peer, on_tracker, ResetVotes, this.
  pres_tac voters_leaf.
Qed.

Lemma BecomeFollower_voters term leader : pres same_voters (BecomeFollower term leader).
Proof. unfold BecomeFollower, on_log, this. pres_tac ltac:(first [apply Reset_voters | voters_leaf]). Qed.

Lemma StepTerm_voters m : pres same_voters (StepTerm m).
Proof. unfold StepTerm, send, this. cbv zeta. pres_tac ltac:(first [apply BecomeFollower_voters | voters_leaf]). Qed.

Lemma HasUnappliedConfChanges_voters low high ctx : pres same_voters (HasUnappliedConfChanges low high ctx).
Proof. unfold HasUnappliedConfChanges, on_log, this. pres_tac voters_leaf. Qed.

Lemma BecomePreCandidate_voters : pres same_voters BecomePreCandidate.
Proof. unfold BecomePreCandidate, on_tracker, ResetVotes, this. pres_tac voters_leaf. Qed.

(** [Reset] forgets the votes. *)
Lemma Reset_votes term r a r' : Reset term r = Ret (a, r') -> votes_ (progress_tracker_ r') = ∅.
Proof.
  intros E. apply bind_Ret in E as (? & r1 & _ & E). apply bind_Ret in E as (? & r2 & E2 & E).
  assert (PreOrder (fun r r' : Raft S => votes_ (progress_tracker_ r') = votes_ (progress_tracker_ r))) by (split; [done|intros ???; congruence]).
  assert (H3 : pres (fun r r' => votes_ (progress_tracker_ r') = votes_ (progress_tracker_ r)) (reset_peers (S := S))).
  { unfold reset_peers, each_peer, this. pres_tac ltac:(let E := fresh in intros ? ? ? E; unfold on_progress in E;
      destruct (get_progress _ _) as [pr|]; [|done]; revert E; match goal with |- context [match ?x with _ => _ end] => destruct x as [[]|] end; [|done]; by intros [= _ <-]). }
  rewrite (H3 _ _ _ E). unfold reset_role in E2. do 5 (apply bind_Ret in E2 as (? & ? & _ & E2)).
  apply bind_Ret in E2 as (? & r3 & E3 & E2). unfold on_tracker in E3. apply zoom_Ret in E3 as (? & t & [= _ <-] & [= _ ->]).
  cbn in E2. by injection E2 as _ <-.
Qed.

Lemma BecomeCandidate_run n r a r' : 0 <= n -> good (1 + n) r -> BecomeCandidate r = Ret (a, r') -> good n r' /\ state_ r' = Candidate.
Proof.
  intros Hn Hg E. pose proof (BecomeCandidate_up _ _ _ E) as Hu. pose proof Hg as [Hok Hid Hc [Sb Su _ _]]. rewrite ballots_app in Sb, Su.
  unfold BecomeCandidate, this in E. rewrite bind_get in E. apply bind_Ret in E as (? & r0 & E0 & E). apply assert_Ret in E0 as [_ [= -> ->]].
  apply bind_Ret in E as (? & r1 & E1 & E). pose proof (Reset_voters _ _ _ _ E1) as Hv. destruct (Reset_hushed _ _ _ _ E1) as [Hb Hi].
  pose proof (Reset_votes _ _ _ _ E1) as Hvs. assert (Ht : u64 (term_ r + 1) = term_ r + 1).
  { pose proof (ok_term _ _ Hok). pose proof (ok_term_room _ _ Hok). apply u64_id. unfold is_u64, two64, u64max in *. lia. }
  rewrite Ht in E1. apply Reset_run in E1 as (_ & Et & _); [|by eapply node_ok_weaken; [|exact Hok]; lia|].
  2: { pose proof (ok_term _ _ Hok). pose proof (ok_term_room _ _ Hok). lia. }
  cbn in E. injection E as _ <-. split; [|done]. apply (good_after 1 n r); try done.
  constructor; cbn; rewrite ?ballots_app, ?Hb; [|exact Su|intros _; split; [done|]; intros v; by rewrite Hvs|done].
  intros m Hm. destruct (Sb m Hm) as [Hf Hk]. unfold kept. cbn. rewrite Hi, Et. split; [done|].
  intros Hto. left. destruct (Hk Hto); lia.
Qed.

(** The election is won: the node takes its seat. *)
Definition crowned (r1 : Raft S) (leader : Z) : Raft S :=
  r1 <| core_ := (core_ r1) <| leader_id_ := leader |> |>
     <| core_ := (core_ (r1 <| core_ := (core_ r1) <| leader_id_ := leader |> |>)) <| state_ := Leader |> |>.

Lemma crowned_seat n r r1 a leader Q : joint_quorum conf Q -> (forall v, v ∈ Q -> backed r v) -> vote_ r = id_ r -> 0 <= n ->
  good n r -> Reset (term_ r) r = Ret (a, r1) ->
  node_ok n (crowned r1 leader) /\ node_moves 0 r (crowned r1 leader) /\ term_ r1 = term_ r /\ seat (crowned r1 leader).
Proof.
  intros HQ Hk Hv Hn [Hok Hid Hc [Sb Su _ _]] E1. rewrite ballots_app in Sb, Su. destruct (Reset_hushed _ _ _ _ E1) as [Hb Hi].
  assert (Hu : up 0 r r1) by (by eapply Reset_same_up). destruct Hu as [Hok1' M1]; [by eapply node_ok_weaken; [|exact Hok]; lia|].
  apply Reset_run in E1 as (Hok1 & Et & Ev & El & _); [|by eapply node_ok_weaken; [|exact Hok]; lia|destruct Hok; lia].
  rewrite Z.eqb_refl in Ev. split; [|split; [|split; [done|]]].
  - destruct Hok, Hok1. constructor; cbn; try done; [lia|]. rewrite El. done.
  - destruct M1. by constructor.
  - constructor; cbn; rewrite ?ballots_app, ?Hb; [|exact Su|done|].
    + intros m Hm. destruct (Sb m Hm) as [Hf Hkp]. unfold kept. cbn. rewrite Hi, Et, Ev. done.
    + intros _. split; [congruence|]. exists Q. split; [done|]. intros v Hq. unfold backed. cbn. rewrite Hi, Et. by apply Hk.
Qed.

Lemma BecomeLeader_sits r Q : joint_quorum conf Q -> (forall v, v ∈ Q -> backed r v) -> vote_ r = id_ r ->
  runs (sitting 1) r BecomeLeader.
Proof.
  intros HQ Hk Hv a r' E Hg. unfold BecomeLeader, this in E. rewrite bind_get in E. apply bind_Ret in E as (? & r0 & E0 & E).
  apply assert_Ret in E0 as [_ [= -> ->]]. apply bind_Ret in E as (? & r1 & E1 & E).
  destruct (crowned_seat 1 r r1 _ (id_ r) Q HQ Hk Hv ltac:(lia) Hg E1) as (Hok2 & M2 & _ & Hs2). rewrite !bind_modify in E.
  fold (crowned r1 (id_ r)) in E. match type of E with ?f _ = _ => assert (Hcv : pres civic f) by pres_tac civic_leaf; assert (Hup : pres (up 1) f) end.
  { do 4 (apply (pres_up_bind 0 1); [lia|lia|pres_tac up_leaf|intros ?]).
    apply (pres_up_bind 1 0); [lia|lia|apply AppendEntry_up|intros ?]. pres_tac up_leaf. }
  destruct (Hup _ _ _ E Hok2) as [_ M]. eapply civic_seat; [by eapply Hcv|exact M| |done].
  rewrite (mv_id _ _ _ M2). apply Hg.
Qed.

(** A vote that comes in is counted. *)
Lemma record_good n r from vote : good n r -> 0 <= n -> (state_ r = Candidate -> vote = true -> backed r from) ->
  forall a r1, on_tracker (RecordVote from vote) r = Ret (a, r1) ->
  good n r1 /\ core_ r1 = core_ r.
Proof.
  intros [Hok Hid Hc [Sb Su Sc Sl]] Hn Hb a r1 E. pose proof (up_on_tracker _ (RecordVote_up from vote) _ _ _ E) as Hu.
  unfold on_tracker in E. apply zoom_Ret in E as (? & t & [= _ <-] & [= _ ->]).
  set (r1 := _ <| progress_tracker_ := _ |>) in *. split; [|done].
  destruct Hu as [Hok1 M1]; [by eapply node_ok_weaken; [|exact Hok]; lia|].
  constructor; [by apply (node_ok_after 0 n r)|done| |].
  - subst r1. unfold voters_of in *. cbn. by destruct (votes_ _ !! from).
  - constructor; [exact Sb|exact Su| |exact Sl]. intros Hs. destruct (Sc Hs) as [Hv Hk]. split; [done|]. intros v Ev.
    unfold r1 in Ev. cbn in Ev. destruct (votes_ (progress_tracker_ r) !! from) eqn:Ef; [by apply Hk|].
    cbn in Ev. destruct (decide (from = v)) as [<-|Hne]; [|rewrite lookup_insert_ne in Ev by done; by apply Hk].
    rewrite lookup_insert_eq in Ev. injection Ev as ->. by apply Hb.
Qed.

Lemma won_quorum r granted rejected : voters_of r = conf -> CountVotes (progress_tracker_ r) = (granted, rejected, VoteWon) ->
  exists Q, joint_quorum conf Q /\ forall v, v ∈ Q -> votes_ (progress_tracker_ r) !! v = Some true.
Proof.
  intros Hc E. unfold CountVotes in E. destruct (foldl _ _ _) as [g j]. injection E as _ _ E. unfold GetVoteResult in E.
  change (voters (conf_ (progress_tracker_ r))) with (voters_of r) in E. rewrite Hc in E. apply JointWon in E.
  eexists. split; [exact E|]. intros v Hv. unfold yes_of in Hv. by apply elem_of_filter in Hv as [Hv _].
Qed.

Lemma PollWith_sits n campaign from vote r : 1 <= n -> pres (up n) campaign -> pres (sitting n) campaign -> 
  state_ r = Candidate \/ state_ r = PreCandidate -> (state_ r = Candidate -> vote = true -> backed r from) ->
  runs (sitting n) r (PollWith campaign from vote).
Proof.
  intros Hn Hcu Hcs Hst Hb a r' E Hg. unfold PollWith in E. apply bind_Ret in E as (? & r1 & E1 & E).
  destruct (record_good n r from vote Hg ltac:(lia) Hb _ _ E1) as [Hg1 Hcore]. unfold this in E. rewrite bind_get in E.
  assert (Hst1 : state_ r1 = Candidate \/ state_ r1 = PreCandidate) by (by rewrite Hcore). clear E1 Hb Hg Hcore Hst r.
  assert (Hr : forall A (x : A), pres civic (ret (S := Raft S) x)) by (intros; apply pres_ret; typeclasses eauto).
  assert (Hu : forall A (x : A), pres (up 0) (ret (S := Raft S) x)) by (intros; apply pres_ret; typeclasses eauto).
  destruct (CountVotes (progress_tracker_ r1)) as [[g j] []] eqn:Ec.
  - injection E as _ <-. apply Hg1.
  - revert E Hg1. rewrite <- (Z.add_0_r n). apply sits_after; try lia; [| |auto|auto].
    + intros ? r2 E2. eapply (up_weaken 0); [lia|]. by eapply BecomeFollower_same.
    + apply (sits_weaken 0); [lia|]. apply civic_sits; [apply BecomeFollower_civic|]. intros ? r2. apply BecomeFollower_same.
  - destruct (is_role PreCandidate r1) eqn:Hp.
    { revert E Hg1. rewrite <- (Z.add_0_r n). apply sits_after; try lia; auto; [by apply pres_runs|]. intros ? r2. apply Hcs. }
    destruct Hst1 as [Hst1|Hst1]; [|unfold is_role in Hp; by rewrite Hst1 in Hp].
    destruct (se_candidate _ (go_seat _ _ Hg1) Hst1) as [Hv Hk]. destruct (won_quorum r1 g j (go_conf _ _ Hg1) Ec) as (Q & HQ & Hvq).
    rewrite bind_bind in E. revert E Hg1. intros E Hg1.
    refine (sits_weaken 1 n r1 _ Hn (sits_after 1 0 r1 _ _ _ _ _ _ _ _) _ _ E Hg1); try lia.
    + apply pres_runs, BecomeLeader_up.
    + apply (BecomeLeader_sits r1 Q); auto.
    + intros ?. pres_tac civic_leaf.
    + intros ?. pres_tac up_leaf.
Qed.

Lemma CampaignFuel_sits fuel t : pres (sitting (Z.of_nat fuel + 1)) (CampaignFuel fuel t).
Proof.
  revert t. induction fuel as [|fuel IH]; intros t r a r' E Hg; cbn [CampaignFuel] in E; [done|].
  set (n := Z.of_nat fuel + 1). replace (Z.of_nat (Datatypes.S fuel) + 1) with (1 + n) in Hg by lia.
  unfold CampaignWith in E. apply bind_Ret in E as ([vote_msg term] & r1 & E1 & E).
  assert (H1 : good n r1 /\ (state_ r1 = Candidate \/ state_ r1 = PreCandidate) /\ vote_msg <> MsgRequestVoteResponse).
  { destruct (bool_decide _); apply bind_Ret in E1 as (? & r2 & E2 & E1); unfold this in E1; rewrite bind_get in E1; injection E1 as <- _ <-.
    - assert (Hg2 : good (1 + n) r2).
      { eapply civic_good; [exact Hg|lia|by eapply BecomePreCandidate_civic|by eapply BecomePreCandidate_up|by eapply BecomePreCandidate_voters]. }
      split; [destruct Hg2; constructor; try done; by eapply node_ok_weaken; [|done]; lia|]. split; [|done]. right.
      unfold BecomePreCandidate, this in E2. rewrite bind_get in E2. apply bind_Ret in E2 as (? & ? & _ & E2). cbn in E2. by injection E2 as _ <-.
    - destruct (BecomeCandidate_run n r _ _ ltac:(lia) Hg E2) as [Hg2 Hs]. auto. }
  destruct H1 as (Hg1 & Hst & Hm). unfold this in E. rewrite bind_get in E. revert E Hg1. rewrite <- (Z.add_0_r n).
  apply sits_after; try lia.
  - apply pres_runs, PollWith_up; [lia|apply CampaignFuel_up].
  - apply PollWith_sits; [lia|apply CampaignFuel_up|apply IH|done|]. intros _ _. by left.
  - intros ?. pres_tac ltac:(first [by apply send_vote_requests_civic | civic_leaf]).
  - intros ?. pres_tac up_leaf.
Qed.

Lemma Poll_sits from vote r : state_ r = Candidate \/ state_ r = PreCandidate ->
  (state_ r = Candidate -> vote = true -> backed r from) -> runs (sitting 2) r (Poll from vote).
Proof. intros Hs Hb. apply PollWith_sits; [lia|exact (CampaignFuel_up 1 _)|exact (CampaignFuel_sits 1 _)|done|done]. Qed.

Lemma civic_pres_sits {A} n (m : M (Raft S) A) : pres civic m -> pres (up n) m -> pres (sitting n) m.
Proof. intros Hc Hu r. apply civic_sits; [done|]. by apply pres_runs. Qed.

Lemma Hup_sits b : pres (sitting 3) (Hup b).
Proof.
  unfold Hup, this. apply sits_then; [lia|pres_tac civic_leaf|pres_tac up_leaf|pres_tac voters_leaf|intros r]. cbv zeta.
  assert (H0 : pres (sitting 3) (ret (S := Raft S) tt)).
  { apply civic_pres_sits; [pres_tac civic_leaf|]. apply (pres_up_weaken 0); [lia|]. pres_tac up_leaf. }
  destruct (is_role Leader r); [done|].
  apply sits_then; [lia|pres_tac civic_leaf|pres_tac up_leaf|apply HasUnappliedConfChanges_voters|intros pending].
  destruct pending; [done|]. destruct b; [|destruct (pre_vote_ r)]; exact (CampaignFuel_sits 2 _).
Qed.

Lemma Hup_when_sits b c : pres (sitting 3) (when b (Hup c)).
Proof.
  destruct b; unfold when; [apply Hup_sits|]. apply civic_pres_sits; [pres_tac civic_leaf|]. apply (pres_up_weaken 0); [lia|]. pres_tac up_leaf.
Qed.

(** ** Voting *)

Lemma StepVote_sits m r : (m_type m = MsgRequestVote -> m_term m <> 0 -> m_term m = term_ r) -> runs (sitting 0) r (StepVote m).
Proof.
  intros Ht a r' E Hg. pose proof (StepVote_up _ _ _ _ E) as Hu. pose proof Hg as [Hok Hid _ Hs]. destruct (Hu Hok) as [_ M].
  unfold StepVote in E. apply bind_Ret in E as (granted & r1 & E1 & E). apply getsO_Ret in E1 as (? & Eg & [= <- ->]).
  apply bind_Ret in E as (resp & r1 & E1 & E). apply getsO_Ret in E1 as (? & Er & [= <- ->]).
  destruct (decide (granted = true /\ m_type m = MsgRequestVote)) as [[-> Hm]|Hno].
  2: { eapply civic_seat; [|exact M|done|done]. revert E. destruct granted.
       - destruct (m_type m) eqn:T; try done; [by destruct Hno|]. injection Er as <-.
         match goal with |- ?f r = _ -> _ => assert (H : pres civic f) by pres_tac civic_leaf; apply H end.
       - cbv zeta. unfold this. match goal with |- ?f r = _ -> _ => assert (H : pres civic f); [|apply H] end.
         pres_tac ltac:(first [civic_leaf | apply send_civic; unfold is_grant; cbn; by rewrite andb_false_r]). }
  rewrite Hm in Er, E. injection Er as <-. apply bind_Ret in E as (? & r1 & E1 & E). cbn in E. injection E as _ <-.
  unfold send in E1. apply bind_Ret in E1 as (granted & r2 & E2 & E1). apply getsO_Ret in E2 as (? & E2 & [= <- ->]). injection E1 as _ <-.
  pose proof (stamp_kind _ _ _ E2) as (T & R & To & Fr & Tm). cbn in T, R, To. specialize (Fr eq_refl). specialize (Tm eq_refl). cbn in Tm.
  assert (Hnz : m_term m <> 0).
  { intros E0. unfold stamp in E2. cbn in E2. rewrite E0 in E2. done. }
  specialize (Ht Hm Hnz). pose proof (grants_can_vote _ _ Eg Hm) as Hcan. destruct Hs as [Sb Su Sc Sl].
  assert (Hvote : vote_ r = id_ r -> m_from m = id_ r) by (intros Hv; destruct Hcan as [|[H0 _]]; congruence).
  match type of M with node_moves _ _ ?x => set (r' := x) in * end.
  assert (Hg' : forall b, b ∈ ballots (sent ++ messages_ r') -> b ∈ ballots (sent ++ messages_ r) \/ b = granted).
  { intros b Hb. unfold r' in Hb. cbn in Hb. rewrite app_assoc, ballots_app in Hb. apply elem_of_app in Hb as [Hb|Hb]; [by left|right].
    unfold ballots in Hb. apply list_elem_of_filter in Hb as [_ Hb]. by apply list_elem_of_singleton in Hb. }
  assert (Hgr : m_term granted = term_ r' /\ vote_ r' = m_to granted) by (rewrite Tm, To; done).
  assert (Hold : forall b, b ∈ ballots (sent ++ messages_ r) -> kept r' b) by (intros b Hb; eapply kept_moves; [exact M|by apply Sb]).
  assert (Hone : forall b, b ∈ ballots (sent ++ messages_ r) -> m_term b = m_term granted -> m_to b <> kInvalidId -> m_to b = m_to granted).
  { intros b Hb Hte Hto. destruct (Hold b Hb) as [_ Hk]. destruct (Hk Hto) as [Hlt|[_ Hv]]; [lia|]. destruct Hgr. congruence. }
  constructor.
  - intros b [Hb|Hb]%Hg'; [by apply Hold|]. subst b. split; [split; [exact Fr|congruence]|]. intros _. right. apply Hgr.
  - intros m1 m2 [H1|H1]%Hg' [H2|H2]%Hg' Hte Ht1 Ht2; [by apply Su|subst m2; by apply Hone|subst m1; symmetry; by apply Hone|congruence].
  - intros Hst. destruct (Sc Hst) as [Hv Hk]. split; [auto|exact Hk].
  - intros Hst. destruct (Sl Hst) as [Hv Hk]. split; [auto|exact Hk].
Qed.

Lemma StepFollower_civic m : m_type m <> MsgTimeoutNow -> pres civic (StepFollower m).
Proof.
  intros Hm. unfold StepFollower, ok, hear_leader, dropped, this. cbv zeta. destruct (m_type m) eqn:T; try done;
  pres_tac ltac:(first [apply HandleSnapshot_civic | civic_leaf | apply send_civic; unfold is_grant; cbn; by rewrite T]).
Qed.

Lemma StepFollower_sits m : msg_ok m -> pres (sitting (reach m)) (StepFollower m).
Proof.
  intros Hm. pose proof (reach_pos m Hm). pose proof (mo_snapshot m Hm). destruct (decide (m_type m = MsgTimeoutNow)) as [T|T].
  - unfold StepFollower, this. apply sits_then; [lia|pres_tac civic_leaf|pres_tac up_leaf|pres_tac voters_leaf|intros r]. rewrite T.
    intros r1. apply (sits_weaken (3 + 0)); [lia|]. apply sits_after; [lia|lia|apply pres_runs, Hup_when_up|intros a r'; apply Hup_when_sits|..];
      intros ?; [pres_tac civic_leaf|pres_tac up_leaf].
  - apply civic_pres_sits; [by apply StepFollower_civic|by apply StepFollower_up].
Qed.

Lemma StepCandidate_sits m r : msg_ok m -> state_ r = Candidate \/ state_ r = PreCandidate ->
  (m_term m <> 0 -> m_type m <> MsgRequestPreVote -> m_type m <> MsgRequestPreVoteResponse -> term_ r = m_term m) ->
  (is_grant m = true -> m_term m <> 0 /\ cast (m_from m) (id_ r) (m_term m)) -> runs (sitting (reach m)) r (StepCandidate m).
Proof.
  intros Hm Hst Ht Hc. pose proof (reach_pos m Hm). pose proof (mo_snapshot m Hm).
  destruct (decide (m_type m = MsgRequestVoteResponse \/ m_type m = MsgRequestPreVoteResponse)) as [T|T].
  - intros a r' E Hg. unfold StepCandidate, this in E. rewrite bind_get in E. revert a r' E Hg.
    match goal with |- forall a r', ?f r = _ -> _ => change (runs (sitting (reach m)) r f) end. apply (sits_weaken (2 + 0)); [lia|].
    assert (Hnop : runs (sitting (2 + 0)) r (ret (Ok tt))).
    { apply civic_sits; [pres_tac civic_leaf|]. apply pres_runs, (pres_up_weaken 0); [lia|]. pres_tac up_leaf. }
    assert (Hpoll : (state_ r = Candidate -> m_type m = MsgRequestVoteResponse) ->
      runs (sitting (2 + 0)) r (ok (Poll (m_from m) (negb (m_reject m)) ;;; MaybeCommitByVote m))).
    { intros Hty. unfold ok. intros x r2. rewrite bind_bind. revert x r2.
      apply sits_after; [lia|lia|apply pres_runs, Poll_up| |intros ?; pres_tac civic_leaf|intros ?; pres_tac up_leaf].
      apply Poll_sits; [done|]. intros Hcand Hrej. assert (Hgr : is_grant m = true) by (unfold is_grant; rewrite Hty; done).
      destruct (Hc Hgr) as [Hnz Hcast]. right. rewrite Ht; [done|done|..]; rewrite Hty; done. }
    unfold is_role. destruct T as [T|T]; rewrite T; destruct Hst as [Hst|Hst]; rewrite Hst; cbn; first [exact Hnop | apply Hpoll; congruence].
  - apply civic_sits; [|by apply StepCandidate_up].
    unfold StepCandidate, ok, dropped, this. destruct (m_type m) eqn:Ty; try (by destruct T; auto);
    pres_tac ltac:(first [apply HandleSnapshot_civic | civic_leaf]).
Qed.

(** A message is handled; grants in it are known. *)
Lemma Step_sits m r : msg_ok m -> (is_grant m = true -> m_term m <> 0 /\ cast (m_from m) (id_ r) (m_term m)) ->
  runs (sitting (m_term m + reach m)) r (Step m).
Proof.
  intros Hm Hc a r' E Hg. pose proof (mo_term m Hm). pose proof (reach_pos m Hm). pose proof (mo_snapshot m Hm).
  unfold Step in E. apply bind_Ret in E as (go & r1 & E1 & E). pose proof Hg as [Hok Hid Hcf Hs].
  destruct (StepTerm_run m r go r1 Hm) as (Hok1 & M1 & Ht); [eapply node_ok_weaken; [|exact Hok]; lia|done|].
  pose proof (StepTerm_civic _ _ _ _ E1) as Hcv. pose proof (StepTerm_voters _ _ _ _ E1) as Hvo.
  assert (Hg1 : good (reach m) r1).
  { constructor; [by eapply node_ok_after|by rewrite (mv_id _ _ _ M1)|by rewrite Hvo|by eapply civic_seat]. }
  destruct go; cbn [negb] in E; [|injection E as _ <-; apply Hg1]. unfold this in E. rewrite bind_get in E.
  assert (Ht' : m_term m <> 0 -> m_type m <> MsgRequestPreVote -> m_type m <> MsgRequestPreVoteResponse -> term_ r1 = m_term m).
  { intros H2 H3 H4. apply Ht; [done|done|]. unfold pre_vote_message. by destruct (m_type m). }
  rewrite <- (mv_id _ _ _ M1) in Hc.
  assert (Hrole : runs (sitting (reach m)) r1 (match state_ r1 with PreCandidate | Candidate => StepCandidate m | Follower => StepFollower m | Leader => StepLeader m end)).
  { destruct (state_ r1) eqn:Hst; [intros x y; by apply StepFollower_sits|apply StepCandidate_sits; auto| |apply StepCandidate_sits; auto].
    apply (sits_weaken (zlen (m_entries m))); [lia|]. apply civic_sits; [apply StepLeader_civic|by apply pres_runs, StepLeader_up]. }
  revert a r' E Hg1. match goal with |- forall a r', ?f r1 = _ -> _ => change (runs (sitting (reach m)) r1 f) end.
  destruct (m_type m) eqn:T; try exact Hrole.
  - apply (sits_weaken (3 + 0)); [lia|]. apply sits_after; [lia|lia|apply pres_runs, Hup_when_up|intros x y; apply Hup_when_sits|..];
      intros ?; [pres_tac civic_leaf|pres_tac up_leaf].
  - apply (sits_weaken (0 + 0)); [lia|]. apply sits_after; [lia|lia|apply pres_runs, StepVote_up|apply StepVote_sits; intros; symmetry; apply Ht'; congruence|..];
      intros ?; [pres_tac civic_leaf|pres_tac up_leaf].
  - apply (sits_weaken (0 + 0)); [lia|]. apply sits_after; [lia|lia|apply pres_runs, StepVote_up|apply StepVote_sits; congruence|..];
      intros ?; [pres_tac civic_leaf|pres_tac up_leaf].
Qed.

Lemma beat_civic mt : mt = MsgBeat \/ mt = MsgCheckQuorum -> pres civic (local mt).
Proof.
  intros Hm. unfold local, this. apply pres_bind; [typeclasses eauto|pres_tac civic_leaf|intros r].
  apply pres_bind; [typeclasses eauto| |intros ?; pres_tac civic_leaf]. set (m := _ <| m_from := _ |>).
  assert (T : m_type m = mt) by done. clearbody m. unfold Step, this.
  apply pres_bind; [typeclasses eauto|apply StepTerm_civic|intros go]. destruct (negb go); [pres_tac civic_leaf|].
  apply pres_bind; [typeclasses eauto|pres_tac civic_leaf|intros r1].
  assert (Hcand : pres civic (StepCandidate m)).
  { unfold StepCandidate, this. apply pres_bind; [typeclasses eauto|pres_tac civic_leaf|intros ?]. rewrite T. destruct Hm as [->| ->]; pres_tac civic_leaf. }
  assert (Hfol : pres civic (StepFollower m)) by (apply StepFollower_civic; rewrite T; by destruct Hm as [->| ->]).
  rewrite T. destruct Hm as [->| ->]; destruct (state_ r1); first [done | apply StepLeader_civic].
Qed.

Lemma tick_beat_civic b : pres civic (tick_beat b).
Proof. unfold tick_beat, this. pres_tac ltac:(first [apply beat_civic; auto | civic_leaf]). Qed.

Lemma elapse_quiet : pres civic (elapse (S := S)) /\ pres same_voters (elapse (S := S)).
Proof. unfold elapse. split; [pres_tac civic_leaf|pres_tac voters_leaf]. Qed.

Lemma hup_sits : pres (sitting 3) (local MsgHup).
Proof.
  unfold local, this. intros r a r' E Hg. rewrite bind_get in E. revert a r' E Hg. set (m := _ <| m_from := _ |>).
  match goal with |- forall a r', ?f r = _ -> _ => change (runs (sitting (3 + 0)) r f) end.
  pose proof (local_message_ok MsgHup (id_ r) ltac:(done) ltac:(done) ltac:(done)) as Hm. fold m in Hm.
  apply sits_after; [lia|lia|apply pres_runs; exact (Step_up m Hm)|exact (Step_sits m r Hm ltac:(done))|..];
    intros ?; [pres_tac civic_leaf|pres_tac up_leaf].
Qed.

Lemma TickHeartbeat_civic : pres civic TickHeartbeat.
Proof.
  unfold TickHeartbeat, AbortLeaderTransfer, this.
  pres_tac ltac:(first [apply tick_beat_civic | apply elapse_quiet | apply beat_civic; auto | civic_leaf]).
Qed.

Lemma TickElection_sits : pres (sitting 6) TickElection.
Proof.
  unfold TickElection, this. apply sits_then; [lia|apply elapse_quiet|apply elapse_up|apply elapse_quiet|intros ?].
  apply sits_then; [lia|pres_tac civic_leaf|pres_tac up_leaf|pres_tac voters_leaf|intros r]. cbv zeta.
  intros r1. change 6 with (3 + 3). apply sits_after; [lia|lia| | |intros ?; apply tick_beat_civic|intros ?; apply tick_beat_up].
  - apply pres_runs, when_up; [lia|]. apply (pres_up_bind 0 3); [lia|lia|pres_tac up_leaf|intros ?; by apply local_up].
  - intros ? r'. destruct (_ <=? _); unfold when.
    + apply (sits_then 3); [lia|pres_tac civic_leaf|pres_tac up_leaf|pres_tac voters_leaf|intros ?; apply hup_sits].
    + apply civic_pres_sits; [pres_tac civic_leaf|]. apply (pres_up_weaken 0); [lia|]. pres_tac up_leaf.
Qed.

Lemma Tick_sits : pres (sitting 6) Tick.
Proof.
  intros r a r' E Hg. unfold Tick, this in E. rewrite bind_get in E. revert E Hg.
  destruct (state_ r) eqn:Hs; try apply TickElection_sits. intros E.
  assert (Ht : runs (up 6) r TickHeartbeat).
  { intros x y Exy. apply (Tick_up r x y). unfold Tick, this. by rewrite bind_get, Hs. }
  by apply (civic_sits 6 TickHeartbeat r TickHeartbeat_civic Ht a r').
Qed.

(** Every call of a node keeps its seat, when grants it is given are known. *)
Lemma handle_sits i r : input_ok i r ->
  (forall m, i = InStep m -> is_grant m = true -> m_term m <> 0 /\ cast (m_from m) (id_ r) (m_term m)) ->
  runs (sitting (Z.max 0 (input_reach i))) r (handle i).
Proof.
  intros Hi Hc.
  assert (Hcivic : pres civic (handle i) -> runs (sitting (Z.max 0 (input_reach i))) r (handle i)).
  { intros H. apply civic_sits; [done|by apply handle_up]. }
  assert (Hret : forall A (m : M (Raft S) A), pres civic m -> pres civic (ignore m)) by (intros; unfold ignore; pres_tac ltac:(done)).
  destruct i; cbn [handle input_ok input_reach] in *; try (solve [apply Hcivic; first
    [ apply OnPersistEntries_civic | apply CommitApply_civic | apply Hret, ApplyConfChange_civic | apply Hret, RequestSnapshot_civic
    | unfold OnPersistSnapshot, Ping, SetPriority, ReduceUncommittedSize, MaybeFreeInflightBuffers, AdjustMaxInflightMsgs,
        EnableGroupCommit, AssignCommitGroups, commit_and_broadcast, each_peer, this; pres_tac civic_leaf ]]).
  - pose proof (mo_term m Hi). pose proof (mo_snapshot m Hi). apply (sits_weaken (m_term m + reach m + 0)); [lia|]. unfold ignore.
    apply (sits_after (m_term m + reach m) 0); [unfold reach; lia|lia|by apply pres_runs, Step_up|by apply Step_sits; auto|..]; intros ?; [pres_tac civic_leaf|pres_tac up_leaf].
  - apply (sits_weaken (6 + 0)); [lia|]. apply sits_after; [lia|lia|apply pres_runs, Tick_up|intros a r'; apply Tick_sits|..];
      intros ?; [pres_tac civic_leaf|pres_tac up_leaf].
Qed.
End Seats.
End Elections.

(** The methods that send no grant and change no role of an election. *)
#[export] Hint Resolve on_log_civic on_read_only_civic on_uncommitted_civic on_progress_civic SendAppend_civic
  SendAppendAggressively_civic BroadcastAppend_civic BroadcastHeartbeat_with_civic BroadcastHeartbeat_civic
  SendRequestSnapshot_civic MaybeCommit_civic AppendEntry_civic HasUnappliedConfChanges_civic BecomeFollower_civic
  BecomePreCandidate_civic answer_read_civic ack_read_civic PostConfChange_civic MaybeCommitByVote_civic
  HandleAppendResponse_civic HandleHeartbeatResponse_civic HandleTransferLeader_civic propose_civic read_index_civic
  Restore_civic HandleAppendEntries_civic HandleHeartbeat_civic : civic.

Ltac civic_leaf := first [ solve [auto with civic] | apply send_civic; reflexivity
  | apply on_tracker_civic; first [apply QuorumRecentlyActive_votes | apply ApplyConf_votes | apply EnableGroupCommit_votes]
  | apply pres_modify; intros ?; apply civic_frame; reflexivity ].
