(* ===== verification/NodeLog.v ===== *)
(** * Calls that leave the log alone

    Most of what a node does neither changes its log nor sends entries that
    are not in it.  With batching off this holds of everything but a leader's
    appends, the entries a follower takes over and a restored snapshot. *)

From S2P Require Import Prelude Types Util Inflights Progress Quorum Tracker ConfChange Storage Unstable ReadOnly Config RaftLog RaftLogProps RaftCore RaftSend LogSafety Fragments Raft NodeInv NodeSafety Elections.

Create HintDb held.

Section NodeLog.
Context {ENV : Env} {S : Type} {ST : Storage S} {SL : StorageLaws S}.
Implicit Types r : Raft S.

(** ** Logs *)

Definition view_kept (l l' : RaftLog S) : Prop := log_wf l -> log_wf l' /\ log_view l' = log_view l.

#[export] Instance view_kept_preorder : PreOrder view_kept.
Proof.
  split; [by intros l W|]. intros l1 l2 l3 H1 H2 W. destruct (H1 W) as [W2 E2]. destruct (H2 W2) as [W3 E3]. split; [done|congruence].
Qed.

Lemma view_kept_cursors l l' : store_ l' = store_ l -> unstable_ l' = unstable_ l -> view_kept l l'.
Proof. intros Es Eu W. destruct (cursors_view l l' Es Eu) as [Ev Ew]. auto. Qed.

Lemma view_kept_reads {A} (m : M (RaftLog S) A) : pres reads m -> pres view_kept m.
Proof. intros H l a l' E W. destruct (H _ _ _ E W) as [Hs W']. split; [done|]. by apply same_log_view. Qed.

Ltac kept_leaf := first [ apply pres_modify; intros ?; apply view_kept_cursors; reflexivity | apply view_kept_reads, Slice_reads ].

Lemma CommitTo_kept c : pres view_kept (CommitTo c).
Proof. unfold CommitTo. pres_tac kept_leaf. Qed.

Lemma LogMaybeCommit_kept c t : pres view_kept (RaftLog.MaybeCommit c t).
Proof. unfold RaftLog.MaybeCommit. pres_tac ltac:(first [apply CommitTo_kept | kept_leaf]). Qed.

Lemma MaybePersist_kept i t : pres view_kept (MaybePersist i t).
Proof. unfold MaybePersist. pres_tac kept_leaf. Qed.

Lemma MaybePersistSnapshot_kept i : pres view_kept (MaybePersistSnapshot i).
Proof. unfold MaybePersistSnapshot. pres_tac kept_leaf. Qed.

Lemma AppliedTo_kept i : pres view_kept (AppliedTo i).
Proof. unfold AppliedTo, AppliedToUnchecked. pres_tac kept_leaf. Qed.

Lemma Scan_kept {A} fuel lo hi page ctx (f : list Entry -> A -> A * bool) a : pres view_kept (Scan fuel lo hi page ctx f a).
Proof.
  revert lo a. induction fuel as [|fuel IH]; intros lo a; cbn [Scan]; [apply pres_abort|]. pres_tac ltac:(first [apply IH | kept_leaf]).
Qed.

(** ** Nodes *)

Record steady r r' : Prop := {
  sd_view : log_view (raft_log_ r') = log_view (raft_log_ r);
  sd_batch : batch_append_ r' = batch_append_ r;
  sd_queue m : m ∈ messages_ r' -> carries m -> m ∈ messages_ r \/ sub (piece_of m) (log_view (raft_log_ r))
}.

Definition held r r' : Prop := log_wf (raft_log_ r) -> batch_append_ r = false -> log_wf (raft_log_ r') /\ steady r r'.

#[export] Instance steady_preorder : PreOrder steady.
Proof.
  split; [intros r; constructor; auto|]. intros r1 r2 r3 [V1 B1 Q1] [V2 B2 Q2]. constructor; [congruence|congruence|].
  intros m Hm Hc. destruct (Q2 m Hm Hc) as [H|H]; [auto|]. right. by rewrite <- V1.
Qed.

#[export] Instance held_preorder : PreOrder held.
Proof.
  split; [by intros r W B|]. intros r1 r2 r3 H1 H2 W B. destruct (H1 W B) as [W2 S2].
  destruct (H2 W2) as [W3 S3]; [by rewrite (sd_batch _ _ S2)|]. split; [done|by transitivity r2].
Qed.

Lemma held_frame r r' : raft_log_ r' = raft_log_ r -> messages_ r' = messages_ r -> batch_append_ r' = batch_append_ r -> held r r'.
Proof. intros El Em Eb W B. rewrite El. split; [done|]. constructor; rewrite ?El, ?Em; auto. Qed.

Lemma on_log_held {A} (m : M (RaftLog S) A) : pres view_kept m -> pres held (on_log m).
Proof.
  intros H. apply pres_zoom. intros r l' a E W B. destruct (H _ _ _ E W) as [W' V]. split; [done|]. constructor; cbn; auto.
Qed.

Lemma on_progress_held {A} id (m : M Progress A) : pres held (on_progress id m).
Proof.
  intros r a r' E. unfold on_progress in E. destruct (get_progress id r); [|done]. destruct (m p) as [[]|]; [|done].
  injection E as _ <-. by apply held_frame.
Qed.

Lemma stamp_type c m m' : stamp (S := S) c m = Ret m' -> m_type m' = m_type m.
Proof. intros E. by apply stamp_kind in E as (T & _). Qed.

Lemma queue_one r m' : m_type m' <> MsgAppend -> forall m, m ∈ messages_ r ++ [m'] -> carries m -> m ∈ messages_ r.
Proof.
  intros Hm m Hin [Hc _]. apply elem_of_app in Hin as [Hin|Hin]; [done|]. apply list_elem_of_singleton in Hin. congruence.
Qed.

Lemma send_held m : m_type m <> MsgAppend -> pres held (send m).
Proof.
  intros Hm r a r' E W B. unfold send in E. apply bind_Ret in E as (m' & r1 & E1 & E). apply getsO_Ret in E1 as (x & E1 & [= -> ->]).
  injection E as _ <-. split; [done|]. constructor; [done|done|]. intros y Hy Hc. left. cbn in Hy.
  eapply queue_one; [|exact Hy|exact Hc]. by rewrite (stamp_type _ _ _ E1).
Qed.

(** ** Sending *)

(** Entries that were read are a part of the log. *)
Lemma GetEntries_part l idx max ctx ents l' : log_wf l -> ents <> [] -> GetEntries idx max ctx l = Ret (Ok ents, l') ->
  v_dummy (log_view l) < idx <= v_last (log_view l) /\ idx + zlen ents <= v_last (log_view l) + 1 /\
  ents = v_slice (log_view l) idx (idx + zlen ents).
Proof.
  intros W Hne E. pose proof (view_bounds l W) as Hb. assert (Hi : v_dummy (log_view l) < idx <= v_last (log_view l)).
  { unfold GetEntries in E. rewrite (bind_run (getsO _) _ _ (v_last (log_view l)) l) in E by (unfold getsO; by rewrite LastIndex_view).
    destruct (Z.ltb_spec (v_last (log_view l)) idx); [by injection E as <- _|]. unfold Slice in E.
    apply bind_Ret in E as (b & l0 & Eb & E). apply getsO_Ret in Eb as (b' & Eb & [= -> ->]).
    destruct b' as [[]|]; [|discriminate]. apply MustCheckOutOfBounds_Ok in Eb; [lia|done]. }
  split; [done|]. apply GetEntries_slice in E; [by destruct E as (_ & ? & ?)|done|lia].
Qed.

(** What a send adds to the queue. *)
Definition adds (v : LogView) (c c' : SendCtx S) : Prop :=
  forall m, m ∈ sc_messages c' -> carries m -> m ∈ sc_messages c \/ sub (piece_of m) v.

Lemma send_snapshot_adds v m to c b c' :
  (let! x := PrepareSendSnapshot m to in match x with None => ret false | Some m => RaftCore.Send m ;;; ret true end) c = Ret (b, c') -> adds v c c'.
Proof.
  intros E. apply bind_Ret in E as (r & c1 & E1 & E). apply PrepareSendSnapshot_run in E1 as [Hm Hr]. destruct r as [m'|].
  - destruct Hr as [s ->]. apply bind_Ret in E as (? & c2 & E2 & E). injection E as _ <-. apply Send_run in E2 as (m2 & E2 & ->).
    apply stamp_type in E2. intros y Hy [Hc _]. cbn in Hy. rewrite Hm in Hy. apply elem_of_app in Hy as [Hy|Hy]; [by left|].
    apply list_elem_of_singleton in Hy. cbn in E2. congruence.
  - injection E as _ <-. intros y. rewrite Hm. by left.
Qed.

Lemma MaybeSendAppend_adds to allow_empty c b c' : log_wf (raft_log_ (sc_core c)) -> batch_append_ (sc_core c) = false ->
  MaybeSendAppend to allow_empty c = Ret (b, c') -> adds (log_view (raft_log_ (sc_core c))) c c'.
Proof.
  intros W B E. unfold MaybeSendAppend in E. rewrite bind_get in E. assert (Hsame : adds (log_view (raft_log_ (sc_core c))) c c) by (by left).
  destruct (IsPaused (sc_pr c)); [by injection E as _ <-|]. destruct (negb _); [by eapply send_snapshot_adds in E|].
  apply bind_Ret in E as (ents & c1 & E1 & E). unfold on_core_log in E1. apply zoom_Ret in E1 as (ents' & l1 & E1 & [= -> ->]).
  destruct (GetEntries_reads _ _ _ _ _ _ E1 W) as [Hs1 W1]. pose proof (same_log_view _ _ Hs1) as Hv1.
  destruct (negb allow_empty && _); [by injection E as _ <-|].
  apply bind_Ret in E as (tr & c2 & E2 & E). apply getsO_Ret in E2 as (tr' & E2 & [= -> ->]). cbn in E2.
  rewrite Term_view, Hv1 in E2 by (done || apply u64_range). injection E2 as <-.
  set (c1 := c <| sc_core := (sc_core c) <| raft_log_ := l1 |> |>) in E.
  destruct ents' as [ents|e].
  2:{ destruct (v_term _ _); (destruct (is_storage _ _); [by injection E as _ <-|by eapply send_snapshot_adds in E]). }
  destruct (v_term _ _) as [term|e] eqn:Et; [|by eapply send_snapshot_adds in E].
  rewrite B, bind_ret in E. apply send_entries_run in E as (_ & m & Hq & Hm & _ & Hi & Hlt & He & _).
  intros y Hy Hc. rewrite Hq in Hy. apply elem_of_app in Hy as [Hy|Hy]; [by left|]. apply list_elem_of_singleton in Hy as ->. right.
  destruct Hc as [_ Hne]. rewrite He in Hne. destruct (GetEntries_part _ _ _ _ _ _ W Hne E1) as (Hn & Hl & Hents).
  pose proof (view_bounds _ W) as Hb. rewrite (u64_id (next_idx_ (sc_pr c) - 1)) in Et by u64_lia. apply from_log_sub; [done|]. intros _. cbn in Hi.
  rewrite (u64_id (next_idx_ (sc_pr c) - 1)) in Hi by u64_lia. rewrite Hi, Hlt, He. split; [lia|]. split; [lia|]. split; [done|].
  by replace (next_idx_ (sc_pr c) - 1 + 1) with (next_idx_ (sc_pr c)) by lia.
Qed.

Definition ctx_held (c c' : SendCtx S) : Prop := log_wf (raft_log_ (sc_core c)) -> batch_append_ (sc_core c) = false ->
  log_wf (raft_log_ (sc_core c')) /\ log_view (raft_log_ (sc_core c')) = log_view (raft_log_ (sc_core c)) /\
  batch_append_ (sc_core c') = false /\ adds (log_view (raft_log_ (sc_core c))) c c'.

#[export] Instance ctx_held_preorder : PreOrder ctx_held.
Proof.
  split; [intros c W B; do 3 (split; [done|]); intros m Hm _; by left|]. intros c1 c2 c3 H1 H2 W B. destruct (H1 W B) as (W2 & V2 & B2 & Q2).
  destruct (H2 W2 B2) as (W3 & V3 & B3 & Q3). split; [done|]. split; [congruence|]. split; [done|].
  intros m Hm Hc. destruct (Q3 m Hm Hc) as [H|H]; [by apply Q2|right; by rewrite <- V2].
Qed.

Lemma MaybeSendAppend_ctx to allow_empty : pres ctx_held (MaybeSendAppend to allow_empty).
Proof.
  intros c b c' E W B. destruct (MaybeSendAppend_sends _ _ _ _ _ E W) as (l' & Ec & Hs & W' & _). rewrite Ec. cbn.
  split; [done|]. split; [by apply same_log_view|]. split; [done|]. by eapply MaybeSendAppend_adds.
Qed.

Lemma with_progress_held {A} id (m : M (SendCtx S) A) : pres ctx_held m -> pres held (with_progress id m).
Proof.
  intros H r a r' E W B. unfold with_progress in E. destruct (get_progress id r) as [p|]; [|done].
  destruct (m _) as [[x c]|] eqn:Em; [|done]. injection E as _ <-. destruct (H _ _ _ Em W B) as (W' & V' & B' & Q').
  split; [done|]. constructor; cbn; [done|by rewrite B, <- B'|exact Q'].
Qed.

Lemma SendAppend_held to : pres held (SendAppend to).
Proof. apply with_progress_held. unfold RaftCore.SendAppend. pres_tac ltac:(apply MaybeSendAppend_ctx). Qed.

Lemma SendAppendAggressively_held to : pres held (SendAppendAggressively to).
Proof. apply with_progress_held. intros c a c'. apply (pres_while _ _ _ (MaybeSendAppend_ctx to false)). Qed.

Ltac held_log := first [ apply CommitTo_kept | apply LogMaybeCommit_kept | apply MaybePersist_kept | apply MaybePersistSnapshot_kept
  | apply AppliedTo_kept | apply Scan_kept | kept_leaf ].

Ltac held_leaf := first
  [ apply on_log_held; held_log | apply on_progress_held | apply SendAppend_held | apply SendAppendAggressively_held
  | apply with_progress_held, MaybeSendAppend_ctx | apply send_held; discriminate | solve [auto with held]
  | apply pres_modify; intros ?; apply held_frame; reflexivity | apply pres_zoom; intros; apply held_frame; reflexivity ].

Lemma BroadcastAppend_held : pres held BroadcastAppend.
Proof. unfold BroadcastAppend, each_peer, this. pres_tac held_leaf. Qed.

Lemma BroadcastHeartbeat_with_held ctx : pres held (BroadcastHeartbeat_with ctx).
Proof. unfold BroadcastHeartbeat_with, SendHeartbeat, each_peer, this. pres_tac held_leaf. Qed.

Lemma BroadcastHeartbeat_held : pres held BroadcastHeartbeat.
Proof. unfold BroadcastHeartbeat, this. pres_tac ltac:(first [apply BroadcastHeartbeat_with_held | held_leaf]). Qed.

Lemma SendRequestSnapshot_held : pres held SendRequestSnapshot.
Proof.
  unfold SendRequestSnapshot, this. pres_tac ltac:(first [apply send_held; match goal with |- m_type (match ?x with _ => _ end) <> _ => by destruct x end | held_leaf]).
Qed.

Lemma MaybeCommit_held : pres held MaybeCommit.
Proof. unfold MaybeCommit, this. pres_tac held_leaf. Qed.

Lemma HasUnappliedConfChanges_held low high ctx : pres held (HasUnappliedConfChanges low high ctx).
Proof. unfold HasUnappliedConfChanges, this. pres_tac held_leaf. Qed.

Lemma Reset_held term : pres held (Reset term).
Proof.
  unfold Reset, reset_term, reset_role, reset_peers, ResetRandomizedElectionTimeout, AbortLeaderTransfer, each_peer, on_tracker, this.
  pres_tac held_leaf.
Qed.
#[local] Hint Resolve BroadcastAppend_held BroadcastHeartbeat_with_held BroadcastHeartbeat_held SendRequestSnapshot_held
  MaybeCommit_held HasUnappliedConfChanges_held Reset_held : held.

Lemma BecomeFollower_held term leader : pres held (BecomeFollower term leader).
Proof. unfold BecomeFollower, this. pres_tac held_leaf. Qed.

Lemma BecomePreCandidate_held : pres held BecomePreCandidate.
Proof. unfold BecomePreCandidate, on_tracker, this. pres_tac held_leaf. Qed.

Lemma BecomeCandidate_held : pres held BecomeCandidate.
Proof. unfold BecomeCandidate, this. pres_tac held_leaf. Qed.

Lemma answer_read_held req index : pres held (answer_read req index).
Proof.
  intros r a r' E. unfold answer_read, HandleReadyReadIndex, this in E. apply bind_Ret in E as (x & r1 & E1 & E). rewrite bind_get in E1.
  destruct (_ || _).
  - apply bind_Ret in E1 as (? & r2 & E2 & E1). injection E1 as <- <-. injection E2 as _ <-. injection E as _ <-. by apply held_frame.
  - injection E1 as <- <-. revert E. by apply send_held.
Qed.
#[local] Hint Resolve BecomeFollower_held BecomePreCandidate_held answer_read_held : held.

Lemma ack_read_held id ctx : pres held (ack_read id ctx).
Proof. unfold ack_read, on_read_only, this. pres_tac held_leaf. Qed.
#[local] Hint Resolve ack_read_held : held.

Lemma PostConfChange_held : pres held PostConfChange.
Proof. unfold PostConfChange, AbortLeaderTransfer, each_peer, this. pres_tac held_leaf. Qed.
#[local] Hint Resolve PostConfChange_held : held.

Lemma ApplyConfChange_held cc : pres held (ApplyConfChange cc).
Proof. unfold ApplyConfChange, on_tracker. pres_tac held_leaf. Qed.

Lemma MaybeCommitByVote_held m : pres held (MaybeCommitByVote m).
Proof. unfold MaybeCommitByVote, this. pres_tac held_leaf. Qed.

Lemma OnPersistEntries_held index term : pres held (OnPersistEntries index term).
Proof. unfold OnPersistEntries, this. pres_tac held_leaf. Qed.

Lemma HandleAppendResponse_held m : pres held (HandleAppendResponse m).
Proof. unfold HandleAppendResponse, SendTimeoutNow, this. pres_tac held_leaf. Qed.

Lemma HandleHeartbeatResponse_held m : pres held (HandleHeartbeatResponse m).
Proof. unfold HandleHeartbeatResponse, this. pres_tac held_leaf. Qed.

Lemma HandleTransferLeader_held m : pres held (HandleTransferLeader m).
Proof. unfold HandleTransferLeader, AbortLeaderTransfer, SendTimeoutNow, this. pres_tac held_leaf. Qed.

Lemma read_index_held m : pres held (read_index m).
Proof. unfold read_index, on_read_only, this. pres_tac held_leaf. Qed.
#[local] Hint Resolve MaybeCommitByVote_held HandleAppendResponse_held HandleHeartbeatResponse_held HandleTransferLeader_held
  read_index_held : held.

Lemma HandleHeartbeat_held m : pres held (HandleHeartbeat m).
Proof. unfold HandleHeartbeat, this. pres_tac held_leaf. Qed.

Lemma RequestSnapshot_held : pres held RequestSnapshot.
Proof. unfold RequestSnapshot, this. pres_tac held_leaf. Qed.

Lemma send_vote_requests_held t mt term : mt <> MsgAppend -> pres held (send_vote_requests t mt term).
Proof.
  intros Hm. unfold send_vote_requests, this. pres_tac ltac:(first [held_leaf | apply send_held;
    match goal with |- m_type (if ?b then _ else _) <> _ => by destruct b end]).
Qed.

Lemma StepTerm_held m : pres held (StepTerm m).
Proof. unfold StepTerm, this. cbv zeta. pres_tac held_leaf. Qed.

Lemma StepVote_held m : pres held (StepVote m).
Proof.
  unfold StepVote, this. apply pres_bind; [typeclasses eauto|pres_tac held_leaf|intros granted].
  intros r a r' E. apply bind_Ret in E as (resp & r1 & E1 & E). apply getsO_Ret in E1 as (? & Er & [= <- ->]).
  assert (Hr : resp <> MsgAppend) by (unfold VoteRespMsgType in Er; by destruct (m_type m); try done; injection Er as <-).
  revert E. cbv zeta. match goal with |- ?f r = _ -> _ => assert (H : pres held f); [|apply H] end.
  pres_tac ltac:(first [held_leaf | by apply send_held]).
Qed.

Lemma StepLeader_held m : m_type m <> MsgPropose -> pres held (StepLeader m).
Proof.
  intros Hm. unfold StepLeader, ok, CheckQuorumActive, HandleSnapshotStatus, HandleUnreachable, on_tracker, this. destruct (m_type m); try done; pres_tac held_leaf.
Qed.
End NodeLog.

(** The methods that leave the log alone. *)
#[export] Hint Resolve on_progress_held SendAppend_held SendAppendAggressively_held BroadcastAppend_held
  BroadcastHeartbeat_with_held BroadcastHeartbeat_held SendRequestSnapshot_held MaybeCommit_held
  HasUnappliedConfChanges_held Reset_held BecomeFollower_held BecomePreCandidate_held answer_read_held ack_read_held
  PostConfChange_held MaybeCommitByVote_held HandleAppendResponse_held HandleHeartbeatResponse_held
  HandleTransferLeader_held read_index_held HandleHeartbeat_held RequestSnapshot_held : held.

Ltac held_leaf := first [ solve [auto with held] | apply send_held; discriminate
  | apply on_log_held; first [ apply CommitTo_kept | apply LogMaybeCommit_kept | apply AppliedTo_kept | apply MaybePersistSnapshot_kept ]
  | apply pres_modify; intros ?; apply held_frame; reflexivity | apply pres_zoom; intros; apply held_frame; reflexivity ].
