(* ===== verification/NodeMoves.v ===== *)
(** * What a call of a node does, step by step

    A call of the interface of [Raft] is a sequence of moves: quiet ones, which
    leave the log alone and make no leader; a new candidacy; an election that
    is won; a leader's new entries; entries and snapshots that a follower takes
    over.  This is the abstract protocol the code implements. *)

From S2P Require Import Prelude Types Util Inflights Progress Quorum Tracker ConfChange Storage Unstable ReadOnly Config RaftLog RaftLogProps RaftCore RaftSend LogSafety Fragments Raft NodeInv NodeSafety Elections NodeLog.

Section NodeMoves.
Context {ENV : Env} {S : Type} {ST : Storage S} {SL : StorageLaws S}.
Context (conf : JointConfiguration) (cast : Z -> Z -> Z -> Prop) (sent : list Message).

(** The pieces of logs that come in from outside. *)
Context (given : LogView -> Prop).

Abbreviation seat := (Elections.seat conf cast sent).
Abbreviation view r := (log_view (raft_log_ r)).
Implicit Types r : Raft S.

(** The roles in an election do not grow. *)
Record civil r r' : Prop := {
  cl_leader : state_ r' = Leader -> state_ r = Leader /\ term_ r' = term_ r;
  cl_candidate : state_ r' = Candidate -> state_ r = Candidate /\ term_ r' = term_ r
}.

Lemma civic_civil r r' : civic r r' -> civil r r'.
Proof. intros [_ Hl Hc]. constructor; [done|]. intros H. destruct (Hc H) as (? & ? & _). done. Qed.

Lemma civil_roles r r' : state_ r' = state_ r -> term_ r' = term_ r -> civil r r'.
Proof. intros Es Et. constructor; rewrite Es, Et; done. Qed.

#[export] Instance civil_preorder : PreOrder civil.
Proof.
  split; [by constructor|]. intros r1 r2 r3 [L1 C1] [L2 C2]. constructor.
  - intros H. destruct (L2 H) as [H' ->]. auto.
  - intros H. destruct (C2 H) as [H' ->]. auto.
Qed.

Lemma StepVote_civil m : pres civil (StepVote m).
Proof.
  unfold StepVote, send, this. cbv zeta.
  pres_tac ltac:(first [ intros ? ? ? ?; apply civic_civil; by eapply MaybeCommitByVote_civic | apply pres_modify; intros ?; by apply civil_roles ]).
Qed.

(** New messages with entries come from the log. *)
Definition queues_from (v : LogView) r r' : Prop :=
  forall m, m ∈ messages_ r' -> carries m -> m ∈ messages_ r \/ sub (piece_of m) v.

Inductive move r r' : Prop :=
| mv_quiet : civil r r' -> steady r r' -> move r r'
| mv_stand : state_ r' = Candidate -> term_ r < term_ r' -> steady r r' -> move r r'
| mv_win Q : state_ r = Candidate -> state_ r' = Leader -> term_ r' = term_ r -> vote_ r = id_ r ->
    joint_quorum conf Q -> (forall v, v ∈ Q -> backed cast r v) -> steady r r' -> move r r'
| mv_append : state_ r = Leader -> state_ r' = Leader -> term_ r' = term_ r -> longer (term_ r) (view r) (view r') ->
    messages_ r' = messages_ r -> batch_append_ r' = batch_append_ r -> move r r'
| mv_take g p : given g -> joined (view r) g (view r') p -> civil r r' -> state_ r' <> Leader ->
    messages_ r' = messages_ r -> batch_append_ r' = batch_append_ r -> move r r'
| mv_restore g : given g -> sub (view r') g -> civil r r' -> state_ r' <> Leader ->
    queues_from (view r') r r' -> batch_append_ r' = batch_append_ r -> move r r'.

(** A new grant goes to the vote of the current term. *)
Definition fair r r' : Prop :=
  forall g, g ∈ ballots (messages_ r') -> g ∈ ballots (messages_ r) \/ m_term g = term_ r' /\ m_to g = vote_ r'.

Lemma hushed_fair r r' : hushed r r' -> fair r r'.
Proof. intros [Hb _] g Hg. left. by rewrite <- Hb. Qed.

(** A move of a node that knows its votes. *)
Record advance r r' : Prop := {
  ad_seat : seat r;
  ad_moves : exists n, node_moves n r r';
  ad_fair : fair r r';
  ad_move : move r r'
}.

Definition chain : Raft S -> Raft S -> Prop := rtc advance.

Record ready (n : Z) r : Prop := {
  rd_ok : node_ok n r;
  rd_id : id_ r <> kInvalidId;
  rd_batch : batch_append_ r = false;
  rd_seat : seat r
}.

Definition goes (n : Z) r r' : Prop := ready n r -> ready 0 r' /\ node_moves n r r' /\ chain r r'.

Lemma ready_weaken a b r : a <= b -> ready b r -> ready a r.
Proof. intros Hab []. constructor; try done. by eapply node_ok_weaken. Qed.

Lemma ready_after a b r r' : ready (a + b) r -> ready 0 r' -> node_moves a r r' -> ready b r'.
Proof. intros [] [] M. constructor; try done. by eapply node_ok_after. Qed.

Lemma goes_trans a b r1 r2 r3 : 0 <= a -> 0 <= b -> goes a r1 r2 -> goes b r2 r3 -> goes (a + b) r1 r3.
Proof.
  intros Ha Hb H1 H2 R. destruct H1 as (R2 & M1 & C1); [by eapply ready_weaken; [|exact R]; lia|].
  destruct H2 as (R3 & M2 & C2); [by eapply ready_after|]. split; [done|]. split; [by eapply node_moves_trans|].
  by etransitivity.
Qed.

Lemma goes_weaken a b r r' : 0 <= a <= b -> goes a r r' -> goes b r r'.
Proof.
  intros Hab H R. destruct H as (R' & M & C); [by eapply ready_weaken; [|exact R]; lia|].
  split; [done|]. split; [|done]. eapply node_moves_weaken; [|exact M]. lia.
Qed.

#[export] Instance goes_preorder : PreOrder (goes 0).
Proof.
  split; [intros r R; split; [done|]; split; [apply node_moves_refl|reflexivity]|].
  intros r1 r2 r3 H1 H2. exact (goes_trans 0 0 _ _ _ ltac:(lia) ltac:(lia) H1 H2).
Qed.

Lemma runs_goes_weaken {A} a b r (m : M (Raft S) A) : 0 <= a <= b -> runs (goes a) r m -> runs (goes b) r m.
Proof. intros Hab H x r' E. eapply goes_weaken; [exact Hab|]. by eapply H. Qed.

Lemma runs_goes_bind {A B} a b r (m : M (Raft S) A) (k : A -> M (Raft S) B) : 0 <= a -> 0 <= b ->
  runs (goes a) r m -> (forall x r', m r = Ret (x, r') -> runs (goes b) r' (k x)) -> runs (goes (a + b)) r (bind m k).
Proof.
  intros Ha Hb Hm Hk x r' E. apply bind_Ret in E as (y & r1 & E1 & E2). eapply (goes_trans a b); [done|done|by eapply Hm|by eapply Hk].
Qed.

(** A single move. *)
Lemma goes_move n r r' : (ready n r -> node_ok 0 r' /\ node_moves n r r' /\ seat r' /\
    batch_append_ r' = batch_append_ r /\ fair r r' /\ move r r') -> goes n r r'.
Proof.
  intros H R. destruct (H R) as (Hok & M & Hs & Hb & Hf & Hmv). pose proof R as [Rok Rid Rb Rs].
  split; [constructor; [done|by rewrite (mv_id _ _ _ M)|congruence|done]|]. split; [done|]. apply rtc_once. constructor; eauto.
Qed.

Lemma goes_quiet {A} n r (m : M (Raft S) A) : 0 <= n -> pres civic m -> runs (up n) r m -> pres held m -> runs (goes n) r m.
Proof.
  intros Hn Hc Hu Hh a r' E. apply goes_move. intros [Rok Rid Rb Rs]. destruct (Hu _ _ E Rok) as [Hok M].
  pose proof (Hc _ _ _ E) as C. destruct (Hh _ _ _ E) as [_ St]; [apply (ok_log _ _ Rok)|done|].
  split; [done|]. split; [done|]. split; [by eapply civic_seat|]. split; [apply St|]. split; [apply hushed_fair, C|].
  apply mv_quiet; [by apply civic_civil|done].
Qed.

Lemma pres_quiet {A} (m : M (Raft S) A) : pres civic m -> pres (up 0) m -> pres held m -> pres (goes 0) m.
Proof. intros Hc Hu Hh r. apply goes_quiet; [lia|done|by apply pres_runs|done]. Qed.

(** A quiet rest. *)
Lemma goes_then {A B} n r (m : M (Raft S) A) (k : A -> M (Raft S) B) : 0 <= n -> runs (goes n) r m ->
  (forall x, pres civic (k x)) -> (forall x, pres (up 0) (k x)) -> (forall x, pres held (k x)) -> runs (goes n) r (bind m k).
Proof.
  intros Hn Hm Hc Hu Hh. rewrite <- (Z.add_0_r n). apply runs_goes_bind; [done|lia|done|]. intros x r' _. by apply goes_quiet; [lia|..|apply pres_runs|].
Qed.

Ltac then_quiet := apply goes_then; [lia| |intros ?; pres_tac civic_leaf|intros ?; pres_tac up_leaf|intros ?; pres_tac held_leaf].
Ltac by_quiet := lazymatch goal with |- runs _ _ _ => apply pres_runs | _ => idtac end; apply pres_quiet; [pres_tac civic_leaf|pres_tac up_leaf|pres_tac held_leaf].
Ltac as_run R := match goal with |- forall a r', ?f ?r = _ -> _ => change (runs R r f) end.

(** ** A leader's entries *)

Lemma number_entries_terms term last i entries : Forall (fun e => e_term e = term) (number_entries term last i entries).
Proof. revert i. induction entries as [|e es IH]; intros i; cbn; by constructor. Qed.

Lemma AppendEntry_longer n entries r ok r' : node_ok n r -> zlen entries <= n -> AppendEntry entries r = Ret (ok, r') ->
  longer (term_ r) (view r) (view r') /\ state_ r' = state_ r /\ term_ r' = term_ r /\ messages_ r' = messages_ r /\ batch_append_ r' = batch_append_ r.
Proof.
  intros Hok Hn E. unfold AppendEntry, this in E. apply bind_Ret in E as (b & r1 & E1 & E).
  unfold on_uncommitted in E1. apply zoom_Ret in E1 as (b' & u & _ & [= -> ->]). destruct b'; cbn [negb] in E.
  2:{ injection E as _ <-. split; [|done]. constructor; [done| |cbn; lia]. intros i t Hi Ht. apply term_at_inside in Ht. cbn in *. lia. }
  apply bind_Ret in E as (last & r2 & E2 & E). apply getsO_Ret in E2 as (x & E2 & [= -> ->]).
  assert (Hok1 : node_ok n (r <| core_ := (core_ r) <| uncommitted_state_ := u |> |>)) by (by destruct Hok; constructor).
  rewrite (last_index_run _ _ Hok1) in E2. injection E2 as <-. rewrite bind_get in E. apply bind_Ret in E as (z & r3 & E3 & E). injection E as _ <-.
  unfold on_log in E3. apply zoom_Ret in E3 as (i & l' & E3 & [= _ ->]). split; [|done].
  destruct Hok as [Hl _ _ Hr _ _ _ _]. pose proof (view_bounds _ (proj1 Hl)).
  eapply (Append_longer (term_ r)); [exact Hl| | |apply number_entries_terms|exact E3].
  - pose proof (number_entries_contiguous (term_ r) (v_last (view r)) 0 entries) as Hc. rewrite Z.add_0_r in Hc. apply Hc; cbn in *; lia.
  - rewrite number_entries_length. lia.
Qed.

Lemma AppendEntry_goes entries r : state_ r = Leader -> runs (goes (zlen entries)) r (AppendEntry entries).
Proof.
  intros Hs ok r' E. apply goes_move. intros [Rok Rid Rb Rs]. destruct (AppendEntry_up _ _ _ _ E Rok) as [Hok M].
  destruct (AppendEntry_longer _ _ _ _ _ Rok (Z.le_refl _) E) as (Hl & Es & Et & Em & Eb).
  split; [done|]. split; [done|]. split; [eapply civic_seat; [by eapply AppendEntry_civic|exact M|done|done]|]. split; [done|].
  split; [by apply hushed_fair; eapply civic_hushed; [apply AppendEntry_civic|exact E]|].
  apply mv_append; congruence || done.
Qed.

Lemma propose_goes entries r : state_ r = Leader -> runs (goes (zlen entries)) r (propose entries).
Proof.
  intros Hs a r' E. assert (Hsame : goes (zlen entries) r r) by (apply (goes_weaken 0); [lia|reflexivity]).
  unfold propose, dropped, this in E. apply bind_Ret in E as (? & r1 & E1 & E). apply assert_Ret in E1 as [_ [= -> ->]].
  rewrite bind_get in E. destruct (bool_decide _); [by injection E as _ <-|]. destruct (bool_decide _); [by injection E as _ <-|].
  destruct (check_proposal _ _ _ _); [|by injection E as _ <-].
  apply bind_Ret in E as (last & r1 & E1 & E). apply getsO_Ret in E1 as (? & _ & [= <- ->]). revert a r' E.
  as_run (goes (zlen entries)).
  then_quiet. by apply AppendEntry_goes.
Qed.

Lemma CommitApply_goes applied r : runs (goes 1) r (CommitApply applied).
Proof.
  unfold CommitApply, CommitApplyInternal. intros a r' E. unfold this in E. rewrite bind_get in E. cbn [negb] in E. revert a r' E.
  as_run (goes (0 + 1)).
  apply runs_goes_bind; [lia|lia|by_quiet|].
  intros ? r1 _ a r' E. rewrite bind_get in E. destruct (_ && _) eqn:Eb; [|injection E as _ <-; apply (goes_weaken 0); [lia|reflexivity]].
  apply andb_true_iff in Eb as [_ Hs]. apply bool_decide_eq_true in Hs. revert a r' E.
  as_run (goes 1).
  then_quiet. by apply (AppendEntry_goes [leave_joint_entry]).
Qed.

(** ** Elections *)

Lemma BecomeCandidate_hushed : pres hushed (BecomeCandidate (S := S)).
Proof.
  unfold BecomeCandidate, this. pres_tac ltac:(first [apply Reset_hushed | apply pres_modify; intros ?; apply hushed_frame; reflexivity]).
Qed.

Lemma BecomeCandidate_goes r : voters_of r = conf -> runs (goes 1) r BecomeCandidate.
Proof.
  intros Hv a r' E. apply goes_move. intros [Rok Rid Rb Rs]. destruct (BecomeCandidate_up _ _ _ E Rok) as [Hok M].
  destruct (BecomeCandidate_run conf cast sent 0 r a r' ltac:(lia)) as [[_ _ _ Hs] Hst]; [by constructor|done|].
  destruct (BecomeCandidate_held _ _ _ E) as [_ Sd]; [apply (ok_log _ _ Rok)|done|].
  split; [done|]. split; [done|]. split; [done|]. split; [apply Sd|]. split; [apply hushed_fair; by eapply BecomeCandidate_hushed|].
  apply mv_stand; [done| |done].
  pose proof (ok_term _ _ Rok). pose proof (ok_term_room _ _ Rok).
  unfold BecomeCandidate, this in E. rewrite bind_get in E. apply bind_Ret in E as (? & r0 & E0 & E). apply assert_Ret in E0 as [_ [= -> ->]].
  apply bind_Ret in E as (? & r1 & E1 & E). rewrite (u64_id (term_ r + 1)) in E1 by u64_lia.
  apply Reset_run in E1 as (_ & Et & _); [|by eapply node_ok_weaken; [|exact Rok]; lia|lia]. cbn in E. injection E as _ <-. cbn. lia.
Qed.

Lemma BecomeLeader_goes r Q : voters_of r = conf -> state_ r = Candidate -> joint_quorum conf Q ->
  (forall v, v ∈ Q -> backed cast r v) -> vote_ r = id_ r -> runs (goes 1) r BecomeLeader.
Proof.
  intros Hv Hst HQ Hk Hvt a r' E. unfold BecomeLeader, this in E. rewrite bind_get in E. apply bind_Ret in E as (? & r0 & E0 & E).
  apply assert_Ret in E0 as [_ [= -> ->]]. apply bind_Ret in E as (? & r1 & E1 & E). rewrite !bind_modify in E.
  fold (crowned r1 (id_ r)) in E. apply (goes_trans 0 1 r (crowned r1 (id_ r))); [lia|lia| |].
  - apply goes_move. intros [Rok Rid Rb Rs].
    destruct (crowned_seat conf cast sent 0 r r1 _ (id_ r) Q HQ Hk Hvt ltac:(lia) ltac:(by constructor) E1) as (Hok2 & M2 & Et & Hs2).
    destruct (Reset_held _ _ _ _ E1) as [_ Sd]; [apply (ok_log _ _ Rok)|done|].
    assert (Sd' : steady r (crowned r1 (id_ r))) by (destruct Sd; by constructor).
    split; [done|]. split; [done|]. split; [done|]. split; [apply Sd|].
    split; [by apply hushed_fair; destruct (Reset_hushed _ _ _ _ E1); constructor|]. by apply (mv_win r _ Q).
  - revert a r' E. as_run (goes (0 + 1)). set (r2 := crowned r1 (id_ r)). assert (Hs2 : state_ r2 = Leader) by done. clearbody r2. clear - Hs2 SL.
    intros a r' E. apply bind_Ret in E as (last & r3 & E3 & E). apply getsO_Ret in E3 as (? & _ & [= <- ->]).
    revert a r' E. as_run (goes (0 + 1)). apply runs_goes_bind; [lia|lia|by_quiet|]. intros ? r3 E3.
    assert (Hs3 : state_ r3 = Leader) by (unfold on_uncommitted in E3; apply zoom_Ret in E3 as (? & ? & _ & [= _ ->]); done). clear E3.
    change 1 with (0 + 1). apply runs_goes_bind; [lia|lia|by_quiet|]. intros ? r4 E4.
    assert (Hs4 : state_ r4 = Leader).
    { unfold on_progress in E4. destruct (get_progress _ r3); [|done]. destruct (BecomeReplicate p) as [[]|]; [|done]. by injection E4 as _ <-. }
    change 1 with (0 + 1). apply runs_goes_bind; [lia|lia|by_quiet|]. intros ? r5 [= _ <-].
    then_quiet. by apply (AppendEntry_goes [empty_entry]).
Qed.

Lemma record_goes r from vote : voters_of r = conf -> (state_ r = Candidate -> vote = true -> backed cast r from) ->
  runs (goes 0) r (on_tracker (RecordVote from vote)).
Proof.
  intros Hv Hb a r' E. apply goes_move. intros [Rok Rid Rb Rs]. destruct (up_on_tracker _ (RecordVote_up from vote) _ _ _ E Rok) as [Hok M].
  destruct (record_good conf cast sent 0 r from vote ltac:(by constructor) ltac:(lia) Hb _ _ E) as [[_ _ _ Hs] Hcore].
  unfold on_tracker in E. apply zoom_Ret in E as (? & t & _ & [= _ ->]).
  split; [done|]. split; [done|]. split; [done|]. split; [done|]. split; [by left|]. apply mv_quiet; [by apply civil_roles|]. constructor; cbn; auto.
Qed.

Lemma PollWith_goes n campaign from vote r : 1 <= n -> (forall r, voters_of r = conf -> runs (goes n) r campaign) -> voters_of r = conf ->
  state_ r = Candidate \/ state_ r = PreCandidate -> (state_ r = Candidate -> vote = true -> backed cast r from) ->
  runs (goes n) r (PollWith campaign from vote).
Proof.
  intros Hn Hcp Hv Hst Hb. unfold PollWith. rewrite <- (Z.add_0_l n). apply runs_goes_bind; [lia|lia|by apply record_goes|].
  intros ? r1 E1 a r' E. unfold this in E. rewrite bind_get in E.
  assert (Hr1 : voters_of r1 = conf /\ state_ r1 = state_ r).
  { unfold on_tracker in E1. apply zoom_Ret in E1 as (? & t & [= _ <-] & [= _ ->]). unfold voters_of in *. cbn. by destruct (votes_ _ !! from). }
  destruct Hr1 as [Hv1 Hst1]. rewrite <- Hst1 in Hst. clear E1 Hb Hst1 Hv r.
  destruct (CountVotes (progress_tracker_ r1)) as [[g j] []] eqn:Ec; revert a r' E; as_run (goes n).
  - apply pres_runs. intros r a r' [= _ <-]. apply (goes_weaken 0); [lia|reflexivity].
  - apply (runs_goes_weaken 0); [lia|]. then_quiet.
    apply goes_quiet; [lia|apply BecomeFollower_civic|apply runs_follow|apply BecomeFollower_held].
  - destruct (is_role PreCandidate r1) eqn:Hp; [then_quiet; by apply Hcp|].
    destruct Hst as [Hst|Hst]; [|unfold is_role in Hp; by rewrite Hst in Hp]. intros a r' E R1.
    destruct (se_candidate _ _ _ _ (rd_seat _ _ R1) Hst) as [Hvt Hk]. destruct (won_quorum conf r1 g j Hv1 Ec) as (Q & HQ & Hvq).
    revert R1. revert a r' E. as_run (goes n). apply (runs_goes_weaken 1); [lia|]. intros a r' E. rewrite bind_bind in E. revert a r' E. as_run (goes 1).
    then_quiet. apply (BecomeLeader_goes r1 Q); auto.
Qed.

Lemma CampaignFuel_goes fuel t r : voters_of r = conf -> runs (goes (Z.of_nat fuel + 1)) r (CampaignFuel fuel t).
Proof.
  revert t r. induction fuel as [|fuel IH]; intros t r Hv; cbn [CampaignFuel]; [by intros a r'|].
  set (n := Z.of_nat fuel + 1) in *. replace (Z.of_nat (Datatypes.S fuel) + 1) with (1 + n) by lia. unfold CampaignWith.
  apply runs_goes_bind; [lia|lia| |].
  { destruct (bool_decide _); unfold this; [apply (runs_goes_weaken 0); [lia|]; by_quiet|]. then_quiet. by apply BecomeCandidate_goes. }
  intros [vote_msg term] r1 E1 a r' E R1. unfold this in E. rewrite bind_get in E.
  assert (H1 : voters_of r1 = conf /\ (state_ r1 = Candidate \/ state_ r1 = PreCandidate) /\ vote_msg <> MsgRequestVoteResponse /\ vote_msg <> MsgAppend).
  { destruct (bool_decide _); apply bind_Ret in E1 as (? & r2 & E2 & E1); unfold this in E1; rewrite bind_get in E1; injection E1 as <- _ <-.
    - split; [by rewrite (BecomePreCandidate_voters _ _ _ E2)|]. split; [|done]. right.
      unfold BecomePreCandidate, this in E2. rewrite bind_get in E2. apply bind_Ret in E2 as (? & ? & _ & E2). cbn in E2. by injection E2 as _ <-.
    - unfold BecomeCandidate, this in E2. rewrite bind_get in E2. apply bind_Ret in E2 as (? & ? & E0 & E2). apply assert_Ret in E0 as [_ [= -> ->]].
      apply bind_Ret in E2 as (? & r3 & E3 & E2). pose proof (Reset_voters _ _ _ _ E3) as Hr. cbn in E2. injection E2 as _ <-.
      split; [unfold same_voters, voters_of in *; cbn; congruence|]. by split; [left|]. }
  destruct H1 as (Hv1 & Hst & Hm1 & Hm2). revert R1. revert a r' E. as_run (goes n).
  apply goes_then; [lia| | | |]; [apply PollWith_goes; [lia|apply IH|done|done|by intros; left]|intros ?..].
  - pres_tac ltac:(first [by apply send_vote_requests_civic | civic_leaf]).
  - pres_tac up_leaf.
  - pres_tac ltac:(first [by apply send_vote_requests_held | held_leaf]).
Qed.

Lemma Hup_goes b r : voters_of r = conf -> runs (goes 3) r (Hup b).
Proof.
  intros Hv a r' E. unfold Hup, this in E. rewrite bind_get in E. cbv zeta in E.
  destruct (is_role Leader r); [injection E as _ <-; apply (goes_weaken 0); [lia|reflexivity]|]. revert a r' E. as_run (goes (0 + 3)).
  apply runs_goes_bind; [lia|lia|by_quiet|]. intros pending r1 E1. pose proof (HasUnappliedConfChanges_voters _ _ _ _ _ _ E1) as Hv1.
  assert (Hv2 : voters_of r1 = conf) by (by rewrite Hv1).
  destruct pending; [intros a r' [= _ <-]; apply (goes_weaken 0); [lia|reflexivity]|].
  destruct b; [|destruct (pre_vote_ r)]; exact (CampaignFuel_goes 2 _ _ Hv2).
Qed.

Lemma Hup_when_goes b c r : voters_of r = conf -> runs (goes 3) r (when b (Hup c)).
Proof.
  intros Hv. destruct b; unfold when; [by apply Hup_goes|]. intros a r' [= _ <-]. apply (goes_weaken 0); [lia|reflexivity].
Qed.

Lemma StepVote_fair m r a r' : (m_type m = MsgRequestVote -> m_term m <> 0 -> m_term m = term_ r) -> StepVote m r = Ret (a, r') -> fair r r'.
Proof.
  intros Ht E. unfold StepVote in E. apply bind_Ret in E as (granted & r1 & E1 & E). apply getsO_Ret in E1 as (? & _ & [= <- ->]).
  apply bind_Ret in E as (resp & r1 & E1 & E). apply getsO_Ret in E1 as (? & Er & [= <- ->]). cbv zeta in E.
  assert (Hcivic : forall A (k : M (Raft S) A) x, pres civic k -> k r = Ret (x, r') -> fair r r').
  { intros A k x Hk Ek. apply hushed_fair. by destruct (Hk _ _ _ Ek). }
  destruct granted.
  2:{ eapply Hcivic; [|exact E]. unfold this. pres_tac ltac:(first [civic_leaf | apply send_civic; unfold is_grant; cbn; by rewrite andb_false_r]). }
  destruct (m_type m) eqn:T; try done; injection Er as <-; [|eapply Hcivic; [|exact E]; pres_tac civic_leaf].
  apply bind_Ret in E as (? & r1 & E1 & E). cbn in E. injection E as _ <-. unfold send in E1.
  apply bind_Ret in E1 as (g & r2 & E2 & E1). apply getsO_Ret in E2 as (? & E2 & [= <- ->]). injection E1 as _ <-.
  pose proof (stamp_kind _ _ _ E2) as (_ & _ & To & _ & Tm). specialize (Tm eq_refl). cbn in To, Tm.
  assert (Hnz : m_term m <> 0) by (intros E0; unfold stamp in E2; cbn in E2; by rewrite E0 in E2).
  intros y Hx. cbn in *. rewrite ballots_app in Hx. apply elem_of_app in Hx as [Hx|Hx]; [by left|right].
  apply list_elem_of_filter in Hx as [_ Hx]. apply list_elem_of_singleton in Hx as ->. split; [|done]. rewrite Tm. auto.
Qed.

Lemma StepVote_goes m r : voters_of r = conf -> (m_type m = MsgRequestVote -> m_term m <> 0 -> m_term m = term_ r) ->
  runs (goes 0) r (StepVote m).
Proof.
  intros Hv Ht a r' E. apply goes_move. intros [Rok Rid Rb Rs]. destruct (StepVote_up _ _ _ _ E Rok) as [Hok M].
  pose proof (StepVote_sits conf cast sent m r Ht _ _ E ltac:(by constructor)) as Hs.
  destruct (StepVote_held _ _ _ _ E) as [_ Sd]; [apply (ok_log _ _ Rok)|done|].
  split; [done|]. split; [done|]. split; [done|]. split; [apply Sd|]. split; [by eapply StepVote_fair|]. apply mv_quiet; [|done].
  eapply StepVote_civil; exact E.
Qed.

(** ** What a follower takes over *)

Definition snapshot_piece (s : Snapshot) : LogView := mkView (sn_index s) (Some (sn_term s)) [].

Lemma MaybeAppend_goes m r : batch_ok (m_index m) (m_log_term m) (m_entries m) -> m_type m = MsgAppend ->
  (carries m -> given (piece_of m)) -> state_ r <> Leader -> committed_ (raft_log_ r) <= m_index m ->
  runs (goes (zlen (m_entries m))) r (on_log (MaybeAppend (m_index m) (m_log_term m) (m_commit m) (m_entries m))).
Proof.
  intros Hb Ht Hg Hs Hc a r' E. apply goes_move. intros [Rok Rid Rb Rs]. pose proof (on_log_civic _ _ _ _ E) as Cv.
  apply zoom_Ret in E as (x & l' & E & [= _ ->]). pose proof (MaybeAppend_up _ _ _ _ _ _ _ Hb Hc E) as Hup. pose proof Rok as [Rl Rt Rtr Rlr Rp Rc Rr Rto].
  destruct (Hup Rl Rlr) as [Hl Mv]. pose proof (lm_last _ _ _ Mv). set (r' := r <| core_ := _ |>) in *.
  assert (M : node_moves (zlen (m_entries m)) r r') by (constructor; cbn; try done; lia).
  split; [constructor; cbn; try done; lia|]. split; [done|]. split; [by eapply civic_seat|]. split; [done|]. split; [apply hushed_fair, Cv|].
  destruct (MaybeAppend_joined _ _ _ _ _ _ _ Rl Hb Hc E) as [Hv|(Hne & p & Hj)].
  - apply mv_quiet; [by apply civic_civil|]. constructor; cbn; auto.
  - apply (mv_take r r' (piece_of m) p); [by apply Hg|done|by apply civic_civil|done..].
Qed.

Lemma HandleAppendEntries_goes m r : batch_ok (m_index m) (m_log_term m) (m_entries m) -> m_type m = MsgAppend ->
  (carries m -> given (piece_of m)) -> state_ r <> Leader -> runs (goes (zlen (m_entries m))) r (HandleAppendEntries m).
Proof.
  intros Hb Ht Hg Hs a r' E. unfold HandleAppendEntries, this in E. rewrite bind_get in E. cbv zeta in E. revert a r' E. as_run (goes (zlen (m_entries m))).
  destruct (negb _); [apply (runs_goes_weaken 0); [lia|]; by_quiet|].
  destruct (Z.ltb_spec (m_index m) (committed_ (raft_log_ r))); [apply (runs_goes_weaken 0); [lia|]; by_quiet|].
  rewrite <- (Z.add_0_r (zlen _)). apply runs_goes_bind; [lia|lia|by apply MaybeAppend_goes|]. intros [res|e] r1 _; [|by intros a r'].
  apply pres_runs. set (reply := fun x => m_type x = MsgAppendResponse). apply (pres_bind_post _ _ _ reply).
  - by_quiet.
  - intros s x s' E. destruct (ma_term_matched res); [by injection E as <- _|].
    apply bind_Ret in E as (? & s1 & _ & E). apply bind_Ret in E as ([hi ht] & s2 & _ & E). destruct ht; [|done]. by injection E as <- _.
  - intros x Hx. apply pres_this. intros r2. apply pres_runs, pres_quiet; [apply send_civic|apply send_up|apply send_held; cbn; by rewrite Hx].
    unfold is_grant. cbn. by rewrite Hx.
Qed.

Lemma Restore_view snapshot r b r' : 0 <= sn_index snapshot < u64max -> node_ok (sn_index snapshot) r -> batch_append_ r = false ->
  Restore snapshot r = Ret (b, r') ->
  steady r r' \/ state_ r = Follower /\ view r' = snapshot_piece snapshot /\ batch_append_ r' = false /\ queues_from (view r') r r'.
Proof.
  intros Hi Hok B E. unfold Restore, this in E. rewrite bind_get in E. cbv zeta in E. destruct (ok_log _ _ Hok) as [W C].
  assert (Hheld : forall A (m : M (Raft S) A) a, pres held m -> m r = Ret (a, r') -> steady r r').
  { intros A m a Hm Em. by destruct (Hm _ _ _ Em W B). }
  destruct (_ <? _); [left; by injection E as _ <-|]. destruct (negb (is_role Follower r)) eqn:Hf.
  { left. eapply Hheld; [|exact E]. pres_tac held_leaf. }
  apply negb_false_iff, bool_decide_eq_true in Hf. destruct (negb _); [left; by injection E as _ <-|].
  apply bind_Ret in E as (matches & r1 & E1 & E).
  assert (Hr : r1 = r) by (destruct (_ =? _); [by apply getsO_Ret in E1 as (? & _ & [= _ ->])|by injection E1]).
  rewrite Hr in E. destruct matches; [left; eapply Hheld; [|exact E]; pres_tac held_leaf|].
  apply bind_Ret in E as ([res t] & r2 & E2 & E). apply getsO_Ret in E2 as (x & _ & [= <- ->]). destruct res; [|left; by injection E as _ <-].
  apply bind_Ret in E as (res & r2 & E2 & E). unfold on_log in E2. apply zoom_Ret in E2 as (y & l' & E2 & [= -> ->]).
  destruct (Restore_up _ _ _ _ Hi E2 (conj W C) (ok_log_room _ _ Hok)) as [[W' _] _].
  destruct (LogSafety.Restore_run _ _ _ _ Hi E2) as [[He ->]|(-> & _ & ->)].
  { left. destruct y as [[]|]; [done|]. injection E as _ <-. constructor; cbn; auto. }
  right. match type of E with ?f ?x = _ => set (r3 := x) in E; assert (Hh : pres held f) by pres_tac held_leaf end.
  destruct (Hh _ _ _ E W' B) as [_ [V3 B3 Q3]]. rewrite V3. split; [done|]. split; [done|]. split; [by rewrite B3|]. exact Q3.
Qed.

Lemma Restore_goes snapshot r : 0 <= sn_index snapshot < u64max -> given (snapshot_piece snapshot) ->
  runs (goes (1 + sn_index snapshot)) r (Restore snapshot).
Proof.
  intros Hi Hg b r' E. apply goes_move. intros [Rok Rid Rb Rs]. destruct (Restore_snapshot_up snapshot Hi _ _ _ E Rok) as [Hok M].
  pose proof (Restore_civic _ _ _ _ E) as Cv. assert (Hs : seat r') by (by eapply civic_seat).
  destruct (Restore_view snapshot r b r' Hi ltac:(eapply node_ok_weaken; [|exact Rok]; lia) Rb E) as [Sd|(Hf & Hv & Hb & Hq)].
  - split; [done|]. split; [done|]. split; [done|]. split; [apply Sd|]. split; [apply hushed_fair, Cv|]. apply mv_quiet; [by apply civic_civil|done].
  - split; [done|]. split; [done|]. split; [done|]. split; [congruence|]. split; [apply hushed_fair, Cv|]. apply (mv_restore r r' (snapshot_piece snapshot)); try done.
    + by rewrite Hv.
    + by apply civic_civil.
    + intros Hl. apply (cv_leader _ _ Cv) in Hl as [Hl _]. congruence.
    + congruence.
Qed.

Lemma HandleSnapshot_goes m r : 0 <= sn_index (m_snapshot m) < u64max -> given (snapshot_piece (m_snapshot m)) ->
  runs (goes (1 + sn_index (m_snapshot m))) r (HandleSnapshot m).
Proof. intros Hi Hg. unfold HandleSnapshot, this. then_quiet. by apply Restore_goes. Qed.

(** ** Messages *)

(** The parts of logs in a message are given. *)
Definition carried (m : Message) : Prop :=
  (carries m -> given (piece_of m)) /\ (m_type m = MsgSnapshot -> given (snapshot_piece (m_snapshot m))).

Lemma ok_goes n m r : 0 <= n -> runs (goes n) r m -> runs (goes n) r (ok m).
Proof. intros Hn Hm. unfold ok. then_quiet. done. Qed.

(** The messages of a leader, after what precedes their handler. *)
Lemma leader_message_goes (before : M (Raft S) unit) m r : msg_ok m -> carried m -> runs (goes 0) r before ->
  (forall a r', before r = Ret (a, r') -> state_ r' <> Leader) ->
  (m_type m = MsgAppend -> runs (goes (reach m)) r (ok (before ;;; HandleAppendEntries m))) /\
  runs (goes (reach m)) r (ok (before ;;; HandleHeartbeat m)) /\
  (m_type m = MsgSnapshot -> runs (goes (reach m)) r (ok (before ;;; HandleSnapshot m))).
Proof.
  intros Hm [Hc1 Hc2] Hb Hs. pose proof (reach_pos m Hm). pose proof (mo_snapshot m Hm).
  assert (Hok : forall h, (forall r', state_ r' <> Leader -> runs (goes (reach m)) r' h) -> runs (goes (reach m)) r (ok (before ;;; h))).
  { intros h Hh. apply ok_goes; [lia|]. rewrite <- (Z.add_0_l (reach m)). apply runs_goes_bind; [lia|lia|done|]. intros a r' E. apply Hh. by eapply Hs. }
  split; [intros Ht|split; [|intros Ht]]; apply Hok; intros r' Hs'.
  - eapply runs_goes_weaken; [|apply HandleAppendEntries_goes; [by apply (mo_batch m Hm)|done..]]. lia.
  - apply (runs_goes_weaken 0); [lia|]. by_quiet.
  - eapply runs_goes_weaken; [|apply HandleSnapshot_goes; auto]. lia.
Qed.

Lemma StepFollower_goes m r : msg_ok m -> carried m -> voters_of r = conf -> state_ r = Follower -> runs (goes (reach m)) r (StepFollower m).
Proof.
  intros Hm Hc Hv Hs a r' E. pose proof (reach_pos m Hm). pose proof (mo_snapshot m Hm). unfold StepFollower, this in E. rewrite bind_get in E. cbv zeta in E.
  revert a r' E. as_run (goes (reach m)).
  destruct (leader_message_goes (hear_leader m) m r Hm Hc) as (H1 & H2 & H3); [unfold hear_leader; by_quiet| |].
  { intros a r' E. cbn in E. injection E as _ <-. cbn. by rewrite Hs. }
  destruct (m_type m) eqn:Ty; try exact H2; try exact (H1 eq_refl); try exact (H3 eq_refl).
  all: try (apply (runs_goes_weaken 3); [lia|]; apply ok_goes; [lia|by apply Hup_when_goes]).
  all: apply (runs_goes_weaken 0); [lia|]; unfold dropped, ok.
  all: apply pres_runs, pres_quiet;
    [ pres_tac ltac:(first [civic_leaf | apply send_civic; unfold is_grant; cbn; by rewrite Ty]) | pres_tac up_leaf
    | pres_tac ltac:(first [held_leaf | apply send_held; cbn; by rewrite Ty]) ].
Qed.

Lemma StepCandidate_goes m r : msg_ok m -> carried m -> voters_of r = conf -> state_ r = Candidate \/ state_ r = PreCandidate ->
  (m_term m <> 0 -> m_type m <> MsgRequestPreVote -> m_type m <> MsgRequestPreVoteResponse -> term_ r = m_term m) ->
  (is_grant m = true -> m_term m <> 0 /\ cast (m_from m) (id_ r) (m_term m)) -> runs (goes (reach m)) r (StepCandidate m).
Proof.
  intros Hm Hc Hv Hst Ht Hg a r' E. pose proof (reach_pos m Hm). pose proof (mo_snapshot m Hm). unfold StepCandidate, this in E. rewrite bind_get in E.
  revert a r' E. as_run (goes (reach m)). pose proof (mo_leader m Hm) as Hl.
  assert (Hf : m_term m <> 0 -> m_type m <> MsgRequestPreVote -> m_type m <> MsgRequestPreVoteResponse ->
    runs (goes 0) r (BecomeFollower (m_term m) (m_from m))).
  { intros H1 H2 H3. rewrite <- (Ht H1 H2 H3). apply goes_quiet; [lia|apply BecomeFollower_civic|apply runs_follow|apply BecomeFollower_held]. }
  assert (Hn : forall a r', BecomeFollower (m_term m) (m_from m) r = Ret (a, r') -> state_ r' <> Leader).
  { intros a r' E. unfold BecomeFollower, this in E. rewrite bind_get in E. apply bind_Ret in E as (? & r1 & _ & E). cbn in E. by injection E as _ <-. }
  assert (Hnop : runs (goes (reach m)) r (ret (Ok tt))) by (apply (runs_goes_weaken 0); [lia|]; by_quiet).
  assert (Hpoll : (state_ r = Candidate -> m_type m = MsgRequestVoteResponse) ->
    runs (goes (reach m)) r (ok (Poll (m_from m) (negb (m_reject m)) ;;; MaybeCommitByVote m))).
  { intros Hty. apply (runs_goes_weaken 2); [lia|]. apply ok_goes; [lia|]. then_quiet.
    apply PollWith_goes; [lia|intros r1; exact (CampaignFuel_goes 1 _ r1)|done|done|]. intros Hcand Hrej.
    assert (Hgr : is_grant m = true) by (unfold is_grant; rewrite Hty; done). destruct (Hg Hgr) as [Hnz Hcast].
    right. rewrite Ht; [done|done|..]; rewrite Hty; done. }
  destruct (m_type m) eqn:Ty; try (apply (runs_goes_weaken 0); [lia|]; unfold dropped; by_quiet; fail).
  1,3,4: destruct (leader_message_goes _ m r Hm Hc (Hf ltac:(auto) ltac:(done) ltac:(done)) Hn) as (H1 & H2 & H3); auto.
  all: unfold is_role; destruct Hst as [Hst|Hst]; rewrite Hst; cbn; first [exact Hnop | apply Hpoll; congruence].
Qed.

Lemma StepLeader_goes m r : msg_ok m -> state_ r = Leader -> runs (goes (zlen (m_entries m))) r (StepLeader m).
Proof.
  intros Hm Hs. destruct (decide (m_type m = MsgPropose)) as [Ty|Ty].
  - unfold StepLeader. rewrite Ty. by apply propose_goes.
  - apply goes_quiet; [lia|apply StepLeader_civic|by apply pres_runs, StepLeader_up|by apply StepLeader_held].
Qed.

Lemma Step_goes m r : msg_ok m -> carried m -> voters_of r = conf ->
  (is_grant m = true -> m_term m <> 0 /\ cast (m_from m) (id_ r) (m_term m)) -> runs (goes (m_term m + reach m)) r (Step m).
Proof.
  intros Hm Hc Hv Hg. pose proof (mo_term m Hm). pose proof (reach_pos m Hm). pose proof (mo_snapshot m Hm). unfold Step.
  intros a r' E R. apply bind_Ret in E as (go & r1 & E1 & E).
  destruct (StepTerm_run m r go r1 Hm) as (Hok1 & M1 & Ht); [destruct R; eapply node_ok_weaken; [|done]; lia|done|].
  pose proof (StepTerm_voters _ _ _ _ E1) as Hvo. assert (Hv1 : voters_of r1 = conf) by (by rewrite Hvo).
  assert (G1 : goes (m_term m) r r1).
  { revert go r1 E1 Hok1 M1 Ht Hvo Hv1 E. intros go r1 E1 Hok1 M1 _ _ _ _. apply goes_move. intros [Rok Rid Rb Rs].
    pose proof (StepTerm_civic _ _ _ _ E1) as Cv. destruct (StepTerm_held _ _ _ _ E1) as [_ Sd]; [apply (ok_log _ _ Rok)|done|].
    split; [done|]. split; [done|]. split; [by eapply civic_seat|]. split; [apply Sd|]. split; [apply hushed_fair, Cv|]. apply mv_quiet; [by apply civic_civil|done]. }
  revert R. apply (goes_trans _ _ r r1); [lia|lia|done|]. destruct go; cbn [negb] in E.
  2:{ injection E as _ <-. apply (goes_weaken 0); [lia|reflexivity]. }
  unfold this in E. rewrite bind_get in E. rewrite <- (mv_id _ _ _ M1) in Hg.
  assert (Ht' : m_term m <> 0 -> m_type m <> MsgRequestPreVote -> m_type m <> MsgRequestPreVoteResponse -> term_ r1 = m_term m).
  { intros H2 H3 H4. apply Ht; [done|done|]. unfold pre_vote_message. by destruct (m_type m). }
  assert (Hrole : runs (goes (reach m)) r1 (match state_ r1 with PreCandidate | Candidate => StepCandidate m | Follower => StepFollower m | Leader => StepLeader m end)).
  { destruct (state_ r1) eqn:Hst; [by apply StepFollower_goes|apply StepCandidate_goes; auto| |apply StepCandidate_goes; auto].
    apply (runs_goes_weaken (zlen (m_entries m))); [lia|]. by apply StepLeader_goes. }
  revert a r' E. as_run (goes (reach m)). destruct (m_type m) eqn:T; try exact Hrole.
  - apply (runs_goes_weaken 3); [lia|]. apply ok_goes; [lia|by apply Hup_when_goes].
  - apply (runs_goes_weaken 0); [lia|]. apply ok_goes; [lia|]. apply StepVote_goes; [done|]. intros; symmetry; apply Ht'; congruence.
  - apply (runs_goes_weaken 0); [lia|]. apply ok_goes; [lia|]. apply StepVote_goes; [done|congruence].
Qed.

(** ** Ticks and the rest of the interface *)

Lemma local_goes mt r : mt <> MsgAppend -> mt <> MsgHeartbeat -> mt <> MsgSnapshot -> mt <> MsgRequestVoteResponse -> voters_of r = conf ->
  runs (goes 3) r (local mt).
Proof.
  intros H1 H2 H3 H4 Hv a r' E. unfold local, this in E. rewrite bind_get in E. revert a r' E. as_run (goes 3). then_quiet.
  refine (Step_goes (empty_message <| m_to := kInvalidId |> <| m_type := mt |> <| m_from := id_ r |>) r _ _ Hv _); [by apply local_message_ok|..].
  - split; [by intros [? ?]|done].
  - intros Hg. unfold is_grant in Hg. cbn in Hg. by destruct mt.
Qed.

Lemma beat_held mt : mt = MsgBeat \/ mt = MsgCheckQuorum -> pres held (local mt).
Proof.
  intros Hm. unfold local, this. apply pres_bind; [typeclasses eauto|pres_tac held_leaf|intros r].
  apply pres_bind; [typeclasses eauto| |intros ?; pres_tac held_leaf]. set (m := _ <| m_from := _ |>).
  assert (T : m_type m = mt) by done. clearbody m. unfold Step, this.
  apply pres_bind; [typeclasses eauto|apply StepTerm_held|intros go]. destruct (negb go); [pres_tac held_leaf|].
  apply pres_bind; [typeclasses eauto|pres_tac held_leaf|intros r1].
  assert (Hcand : pres held (StepCandidate m)).
  { unfold StepCandidate, this. apply pres_bind; [typeclasses eauto|pres_tac held_leaf|intros ?]. rewrite T. destruct Hm as [->| ->]; pres_tac held_leaf. }
  assert (Hfol : pres held (StepFollower m)).
  { unfold StepFollower, this. apply pres_bind; [typeclasses eauto|pres_tac held_leaf|intros ?]. rewrite T. destruct Hm as [->| ->]; pres_tac held_leaf. }
  assert (Hlead : pres held (StepLeader m)) by (apply StepLeader_held; rewrite T; by destruct Hm as [->| ->]).
  rewrite T. destruct Hm as [->| ->]; destruct (state_ r1); done.
Qed.

Lemma tick_beat_goes b r : runs (goes 3) r (tick_beat b).
Proof.
  apply goes_quiet; [lia|apply tick_beat_civic|apply pres_runs, tick_beat_up|]. unfold tick_beat, this.
  pres_tac ltac:(first [apply beat_held; by left | held_leaf]).
Qed.

Lemma TickElection_goes r : voters_of r = conf -> runs (goes 6) r TickElection.
Proof.
  intros Hv. unfold TickElection. change 6 with (0 + (3 + 3)). apply runs_goes_bind; [lia|lia|unfold elapse; by_quiet|].
  intros ? r1 [= _ <-] a r' E. unfold this in E. rewrite bind_get in E. cbv zeta in E. revert a r' E. as_run (goes (3 + 3)).
  apply runs_goes_bind; [lia|lia| |intros ? r3 _; apply tick_beat_goes]. destruct (_ <=? _); unfold when.
  - change 3 with (0 + 3). apply runs_goes_bind; [lia|lia|by_quiet|]. intros ? r3 [= _ <-]. by apply local_goes.
  - apply (runs_goes_weaken 0); [lia|]. by_quiet.
Qed.

Lemma TickHeartbeat_held : pres held TickHeartbeat.
Proof.
  unfold TickHeartbeat, tick_beat, elapse, AbortLeaderTransfer, this. pres_tac ltac:(first [apply beat_held; by auto | held_leaf]).
Qed.

Lemma Tick_goes r : voters_of r = conf -> runs (goes 6) r Tick.
Proof.
  intros Hv a r' E. pose proof E as E0. unfold Tick, this in E. rewrite bind_get in E.
  destruct (state_ r) eqn:Hs; try (revert E; by apply TickElection_goes). revert E. apply goes_quiet; [lia|apply TickHeartbeat_civic| |apply TickHeartbeat_held].
  intros x y Exy. apply (Tick_up r x y). unfold Tick, this. by rewrite bind_get, Hs.
Qed.

(** Every call of the interface is a sequence of moves. *)
Lemma handle_goes i r : input_ok i r -> voters_of r = conf -> (forall m, i = InStep m -> carried m) ->
  (forall m, i = InStep m -> is_grant m = true -> m_term m <> 0 /\ cast (m_from m) (id_ r) (m_term m)) ->
  runs (goes (Z.max 0 (input_reach i))) r (handle i).
Proof.
  intros Hi Hv Hc Hg.
  assert (Hquiet : pres civic (handle i) -> pres held (handle i) -> runs (goes (Z.max 0 (input_reach i))) r (handle i)).
  { intros Hcv Hh. apply goes_quiet; [lia|done|by apply handle_up|done]. }
  assert (Hret : forall A R (m : M (Raft S) A), PreOrder R -> pres R m -> pres R (ignore m)) by (intros; unfold ignore; pres_tac ltac:(done)).
  destruct i; cbn [handle input_ok input_reach] in *; try (solve [apply Hquiet;
    [ first [ apply OnPersistEntries_civic | apply Hret; [typeclasses eauto|apply ApplyConfChange_civic] | apply Hret; [typeclasses eauto|apply RequestSnapshot_civic]
    | unfold OnPersistSnapshot, Ping, SetPriority, ReduceUncommittedSize, MaybeFreeInflightBuffers, AdjustMaxInflightMsgs,
        EnableGroupCommit, AssignCommitGroups, commit_and_broadcast, each_peer, this; pres_tac civic_leaf ]
    | first [ apply OnPersistEntries_held | apply Hret; [typeclasses eauto|apply ApplyConfChange_held] | apply Hret; [typeclasses eauto|apply RequestSnapshot_held]
    | unfold OnPersistSnapshot, Ping, SetPriority, ReduceUncommittedSize, MaybeFreeInflightBuffers, AdjustMaxInflightMsgs,
        EnableGroupCommit, AssignCommitGroups, commit_and_broadcast, on_tracker, each_peer, this; pres_tac held_leaf ]]]).
  - pose proof (mo_term m Hi). pose proof (mo_snapshot m Hi). apply (runs_goes_weaken (m_term m + reach m)); [unfold reach; lia|].
    unfold ignore. apply goes_then; [unfold reach; lia|by apply Step_goes; auto|intros ?; pres_tac civic_leaf|intros ?; pres_tac up_leaf|intros ?; pres_tac held_leaf].
  - apply (runs_goes_weaken 6); [lia|]. unfold ignore. then_quiet. by apply Tick_goes.
  - apply (runs_goes_weaken 1); [lia|]. apply CommitApply_goes.
Qed.
End NodeMoves.
