(* ===== verification/NodeCalm.v ===== *)
(** * Calls that commit nothing

    Most of what a node does neither commits an entry nor believes a peer to
    have acknowledged more than before.  The exceptions are listed in
    [CommitRule]. *)

From S2P Require Import Prelude Types Util Inflights Progress Quorum Tracker ConfChange Storage Unstable ReadOnly Config RaftLog RaftLogProps RaftCore RaftSend LogSafety Raft NodeInv NodeSafety Elections.

Create HintDb calm.

(** The index a peer has acknowledged, 0 for an unknown peer. *)
Definition matched_in (m : gmap Z Progress) (p : Z) : Z := i_index (acked (AckedIndex m) p).

Lemma matched_in_insert m id q p : matched_in (<[id := q]> m) p = if decide (p = id) then matched_ q else matched_in m p.
Proof.
  unfold matched_in, acked, AckedIndex. destruct (decide (p = id)) as [->|Hp]; [by rewrite lookup_insert_eq|].
  by rewrite lookup_insert_ne.
Qed.

Lemma matched_in_lookup m p q : m !! p = Some q -> matched_in m p = matched_ q.
Proof. intros E. unfold matched_in, acked, AckedIndex. by rewrite E. Qed.

(** ** Peers and trackers *)

Definition lower (p p' : Progress) : Prop := Z.max 0 (matched_ p') <= Z.max 0 (matched_ p).

#[export] Instance lower_preorder : PreOrder lower.
Proof. unfold lower. split; [intros ?; lia|intros ???; lia]. Qed.

Lemma lower_matched {A} (m : M Progress A) : pres keeps_matched m -> pres lower m.
Proof. intros H p a p' E. apply H in E. unfold lower. rewrite E. lia. Qed.

Lemma on_inflights_lower {A} (m : M Inflights A) : pres lower (on_inflights m).
Proof. apply lower_matched, on_inflights_matched. Qed.

Ltac matched_leaf := first [ apply on_inflights_matched | apply pres_modify; done ].

Lemma BecomeProbe_matched : pres keeps_matched BecomeProbe.
Proof. unfold BecomeProbe, ResetState. pres_tac matched_leaf. Qed.

Lemma BecomeReplicate_matched : pres keeps_matched BecomeReplicate.
Proof. unfold BecomeReplicate, ResetState. pres_tac matched_leaf. Qed.

Lemma UpdateCommitted_matched c : pres keeps_matched (UpdateCommitted c).
Proof. unfold UpdateCommitted. pres_tac matched_leaf. Qed.

Lemma MaybeDecTo_matched rejected hint request : pres keeps_matched (MaybeDecTo rejected hint request).
Proof. unfold MaybeDecTo, Resume. pres_tac matched_leaf. Qed.

(** Operations on a peer that keep its acknowledged index. *)
Ltac peer_leaf := first [ apply BecomeProbe_matched | apply BecomeReplicate_matched | apply UpdateCommitted_matched | apply MaybeDecTo_matched | matched_leaf ].

Lemma Progress_Reset_lower next : pres lower (Progress.Reset next).
Proof. unfold Progress.Reset. pres_tac ltac:(first [apply on_inflights_lower | apply pres_modify; intros ?; unfold lower; cbn; lia]). Qed.

(** A tracker that believes no more than another, whoever the peer. *)
Definition tracker_lower (t t' : ProgressTracker) : Prop :=
  forall p, Z.max 0 (matched_in (progress_ t') p) <= Z.max 0 (matched_in (progress_ t) p).

#[export] Instance tracker_lower_preorder : PreOrder tracker_lower.
Proof. unfold tracker_lower. split; [intros ? ?; lia|]. intros t1 t2 t3 H1 H2 p. specialize (H1 p). specialize (H2 p). lia. Qed.

Lemma tracker_lower_same t t' : progress_ t' = progress_ t -> tracker_lower t t'.
Proof. intros E p. rewrite E. lia. Qed.

Lemma apply_change_lower n next m c p : Z.max 0 (matched_in (apply_change n next m c) p) <= Z.max 0 (matched_in m p).
Proof.
  destruct c as [id []]; cbn.
  - destruct (m !! id) eqn:E; [lia|]. rewrite matched_in_insert. destruct (decide _); cbn; lia.
  - unfold matched_in, acked, AckedIndex. destruct (decide (p = id)) as [->|Hp]; [rewrite lookup_delete_eq; cbn; lia|].
    rewrite lookup_delete_ne by done. lia.
Qed.

Lemma ApplyConf_lower conf changes next : pres tracker_lower (ApplyConf conf changes next).
Proof.
  unfold ApplyConf. pres_tac ltac:(apply pres_modify; intros t); [by apply tracker_lower_same|]. intros p. cbn.
  generalize (progress_ t). induction changes as [|c cs IH]; intros m; cbn [foldl]; [lia|].
  etransitivity; [apply IH|apply apply_change_lower].
Qed.

Lemma simple_each_lower {ENV : Env} next ccs : pres tracker_lower (simple_each next ccs).
Proof. induction ccs as [|cc ccs IH]; cbn [simple_each]; pres_tac ltac:(first [apply IH | apply ApplyConf_lower]). Qed.

Lemma ConfRestore_lower {ENV : Env} next cs : pres tracker_lower (ConfChange.Restore next cs).
Proof. unfold ConfChange.Restore. pres_tac ltac:(first [apply ApplyConf_lower | apply simple_each_lower]). Qed.

Lemma QuorumRecentlyActive_lower {ENV : Env} me : pres tracker_lower (QuorumRecentlyActive me).
Proof.
  intros t a t' E. unfold QuorumRecentlyActive in E. rewrite bind_get in E.
  destruct (foldl (mark_active me) (∅, progress_ t) (iter_map (progress_ t))) as [active progress] eqn:Ef.
  apply bind_Ret in E as (? & t1 & E1 & E). injection E1 as _ <-. injection E as _ <-.
  apply recently_active_loop in Ef as (_ & Hp & Ho); [|apply iter_map_nodup|intros id pr; apply iter_map_elem].
  intros p. cbn. destruct (progress_ t !! p) as [q|] eqn:Eq.
  - rewrite (matched_in_lookup _ _ _ Eq), (matched_in_lookup progress p _ (Hp p q ltac:(by apply iter_map_elem))). cbn. lia.
  - unfold matched_in, acked, AckedIndex. rewrite Ho, Eq; [lia|]. intros Hin. apply list_elem_of_fmap in Hin as ([i y] & -> & Hin).
    apply iter_map_elem in Hin. cbn in *. congruence.
Qed.

Section NodeCalm.
Context {ENV : Env} {S : Type} {ST : Storage S}.
Context (me : Z).
Implicit Types r : Raft S.

(** ** Logs *)

Definition log_even (l l' : RaftLog S) : Prop := committed_ l' = committed_ l.
Definition log_tame (l l' : RaftLog S) : Prop := committed_ l' <= committed_ l.

#[export] Instance log_even_preorder : PreOrder log_even.
Proof. unfold log_even. split; [done|]. intros ???. congruence. Qed.

#[export] Instance log_tame_preorder : PreOrder log_tame.
Proof. unfold log_tame. split; [intros ?; lia|intros ???; lia]. Qed.

Lemma even_tame {A} (m : M (RaftLog S) A) : pres log_even m -> pres log_tame m.
Proof. intros H l a l' E. apply H in E. unfold log_even, log_tame in *. lia. Qed.

Ltac even_leaf := first [ apply pres_modify; done | apply pres_zoom; done ].

Lemma Slice_even lo hi max ctx : pres log_even (Slice lo hi max ctx).
Proof. unfold Slice, on_store. cbv zeta. pres_tac even_leaf. Qed.

Lemma Scan_even {A} fuel lo hi page ctx (f : list Entry -> A -> A * bool) a : pres log_even (Scan fuel lo hi page ctx f a).
Proof.
  revert lo a. induction fuel as [|fuel IH]; intros lo a; cbn [Scan]; [apply pres_abort|]. pres_tac ltac:(first [apply IH | apply Slice_even | even_leaf]).
Qed.

Lemma MaybePersist_even i t : pres log_even (MaybePersist i t).
Proof. unfold MaybePersist. pres_tac even_leaf. Qed.

Lemma MaybePersistSnapshot_even i : pres log_even (MaybePersistSnapshot i).
Proof. unfold MaybePersistSnapshot. pres_tac even_leaf. Qed.

Lemma AppliedTo_even i : pres log_even (AppliedTo i).
Proof. unfold AppliedTo, AppliedToUnchecked. pres_tac even_leaf. Qed.

Lemma Append_tame entries : pres log_tame (Append entries).
Proof.
  unfold Append, on_unstable. destruct entries as [|e es]; [apply even_tame; pres_tac even_leaf|]. intros l a l' E. cbv zeta in E. rewrite bind_get in E.
  apply bind_Ret in E as (? & l1 & E1 & E). transitivity l1.
  - destruct (Z.ltb_spec (e_index e -! 1) (committed_ l)); unfold when in E1; injection E1 as _ <-; unfold log_tame; cbn; lia.
  - revert E. match goal with |- ?f l1 = _ -> _ => assert (H : pres log_tame f) by (apply even_tame; pres_tac even_leaf); apply H end.
Qed.

(** ** Nodes *)

(** No peer but the node itself is believed to have acknowledged more. *)
Definition trust r r' : Prop := id_ r = me ->
  id_ r' = me /\ forall p, p <> me ->
    Z.max 0 (matched_in (progress_ (progress_tracker_ r')) p) <= Z.max 0 (matched_in (progress_ (progress_tracker_ r)) p).

Definition calm r r' : Prop := trust r r' /\ (id_ r = me -> committed_ (raft_log_ r') <= committed_ (raft_log_ r)).

#[export] Instance trust_preorder : PreOrder trust.
Proof.
  split; [intros r Hr; split; [done|]; intros; lia|]. intros r1 r2 r3 H1 H2 Hr. destruct (H1 Hr) as [Hr2 L1].
  destruct (H2 Hr2) as [Hr3 L2]. split; [done|]. intros p Hp. specialize (L1 p Hp). specialize (L2 p Hp). lia.
Qed.

#[export] Instance calm_preorder : PreOrder calm.
Proof. split; [intros r; split; [reflexivity|lia]|]. intros r1 r2 r3 [T1 C1] [T2 C2]. split; [by transitivity r2|].
  intros Hr. specialize (C1 Hr). destruct (T1 Hr) as [Hr2 _]. specialize (C2 Hr2). lia. Qed.

Lemma pres_me {A} R (k : Raft S -> M (Raft S) A) : (forall r r', (id_ r = me -> R r r') -> R r r') ->
  (forall r, id_ r = me -> pres R (k r)) -> pres R (bind this k).
Proof. intros Hg H. apply pres_this. intros r a r' E. apply Hg. intros Hr. by eapply H. Qed.

Lemma calm_guard r r' : (id_ r = me -> calm r r') -> calm r r'.
Proof. intros H. split; [intros Hr; by apply H|]. intros Hr. by apply H. Qed.

Lemma trust_guard r r' : (id_ r = me -> trust r r') -> trust r r'.
Proof. intros H Hr. by apply H. Qed.

Lemma calm_trust {A} (m : M (Raft S) A) : pres calm m -> pres trust m.
Proof. intros H r a r' E. by destruct (H _ _ _ E). Qed.

Lemma trust_frame r r' : id_ r' = id_ r -> progress_tracker_ r' = progress_tracker_ r -> trust r r'.
Proof. intros Ei Ep Hr. rewrite Ei, Ep. split; [done|]. intros; lia. Qed.

Lemma calm_frame r r' : id_ r' = id_ r -> progress_tracker_ r' = progress_tracker_ r -> raft_log_ r' = raft_log_ r -> calm r r'.
Proof. intros Ei Ep El. split; [by apply trust_frame|]. rewrite El. lia. Qed.

Lemma on_log_trust {A} (m : M (RaftLog S) A) : pres trust (on_log m).
Proof. apply pres_zoom. intros r l a _. by apply trust_frame. Qed.

Lemma on_log_calm {A} (m : M (RaftLog S) A) : pres log_tame m -> pres calm (on_log m).
Proof. intros H. apply pres_zoom. intros r l a E. split; [by apply trust_frame|]. by apply H in E. Qed.

Lemma on_tracker_calm {A} (m : M ProgressTracker A) : pres tracker_lower m -> pres calm (on_tracker m).
Proof. intros H. apply pres_zoom. intros r t a E. split; [|cbn; lia]. intros Hr. split; [done|]. intros p _. by apply H in E. Qed.

Lemma put_calm id q r p : get_progress id r = Some p -> (id <> me -> lower p q) -> calm r (put_progress id q r).
Proof.
  intros Eg Hl. split; [|cbn; lia]. intros Hr. split; [done|]. intros x Hx. cbn. rewrite matched_in_insert.
  destruct (decide (x = id)) as [->|]; [|lia]. rewrite (matched_in_lookup _ _ _ Eg). by apply Hl.
Qed.

Lemma on_progress_calm {A} id (m : M Progress A) : (id <> me -> pres lower m) -> pres calm (on_progress id m).
Proof.
  intros H r a r' E. unfold on_progress in E. destruct (get_progress id r) as [p|] eqn:Eg; [|done].
  destruct (m p) as [[x q]|] eqn:Em; [|done]. injection E as _ <-. eapply put_calm; [exact Eg|]. intros Hne. by eapply H.
Qed.

(** Sending moves no acknowledgement and commits nothing. *)
Definition ctx_calm (c c' : SendCtx S) : Prop := id_ (sc_core c') = id_ (sc_core c) /\
  committed_ (raft_log_ (sc_core c')) <= committed_ (raft_log_ (sc_core c)) /\ matched_ (sc_pr c') = matched_ (sc_pr c).

#[export] Instance ctx_calm_preorder : PreOrder ctx_calm.
Proof. split; [intros c; repeat split; lia|]. intros c1 c2 c3 (A1 & B1 & C1) (A2 & B2 & C2). repeat split; congruence || lia. Qed.

Lemma on_pr_ctx_calm {A} (m : M Progress A) : pres keeps_matched m -> pres ctx_calm (on_pr m).
Proof. intros H. apply pres_zoom. intros c p a E. repeat split; [cbn; lia|by apply H in E]. Qed.

Lemma on_core_log_ctx_calm {A} (m : M (RaftLog S) A) : pres log_tame m -> pres ctx_calm (on_core_log m).
Proof. intros H. apply pres_zoom. intros c p a E. repeat split. by apply H in E. Qed.

Ltac ctx_leaf := first
  [ apply on_core_log_ctx_calm; unfold GetEntries, RaftLog.GetSnapshot, on_store; apply even_tame; pres_tac ltac:(first [apply Slice_even | even_leaf])
  | apply on_pr_ctx_calm; first [apply UpdateState_matched | apply BecomeSnapshot_matched]
  | apply pres_modify; intros ?; repeat split; cbn; lia ].

Lemma MaybeSendAppend_ctx_calm to allow_empty : pres ctx_calm (MaybeSendAppend to allow_empty).
Proof. unfold MaybeSendAppend, PrepareSendSnapshot, PrepareSendEntries, TryBatching, Send. cbv zeta. pres_tac ctx_leaf. Qed.

Lemma with_progress_calm {A} id (m : M (SendCtx S) A) : pres ctx_calm m -> pres calm (with_progress id m).
Proof.
  intros H r a r' E. unfold with_progress in E. destruct (get_progress id r) as [p|] eqn:Eg; [|done].
  destruct (m _) as [[x c]|] eqn:Em; [|done]. injection E as _ <-. destruct (H _ _ _ Em) as (Hi & Hc & Hm). cbn in *.
  etransitivity; [|eapply (put_calm id _ _ p); [exact Eg|]; intros _; unfold lower; rewrite Hm; lia].
  split; [|by intros _]. intros Hr. split; [cbn; congruence|]. intros; cbn; lia.
Qed.

Lemma SendAppend_calm to : pres calm (SendAppend to).
Proof. apply with_progress_calm. unfold RaftCore.SendAppend. pres_tac ltac:(apply MaybeSendAppend_ctx_calm). Qed.

Lemma SendAppendAggressively_calm to : pres calm (SendAppendAggressively to).
Proof. apply with_progress_calm. intros c a c'. apply (pres_while _ _ _ (MaybeSendAppend_ctx_calm to false)). Qed.

Lemma send_calm m : pres calm (send m).
Proof. unfold send. pres_tac ltac:(apply pres_modify; intros ?; by apply calm_frame). Qed.

Ltac calm_log := first [ apply Append_tame | apply even_tame; first [ apply Scan_even | apply MaybePersist_even | apply MaybePersistSnapshot_even | apply AppliedTo_even | even_leaf ] ].
Ltac calm_peer := first [ apply Progress_Reset_lower | apply lower_matched; pres_tac peer_leaf ].
Ltac calm_tracker := first [ apply ApplyConf_lower | apply QuorumRecentlyActive_lower
  | unfold RecordVote, ResetVotes, Tracker.EnableGroupCommit; apply pres_modify; intros ?; apply tracker_lower_same; try done; by case_match ].

Ltac calm_leaf := first
  [ apply SendAppend_calm | apply SendAppendAggressively_calm | apply with_progress_calm, MaybeSendAppend_ctx_calm | apply send_calm
  | solve [auto with calm] | apply on_log_calm; calm_log | apply on_progress_calm; intros _; pres_tac calm_peer | apply on_tracker_calm; calm_tracker
  | apply pres_modify; intros ?; apply calm_frame; reflexivity | apply pres_zoom; intros; apply calm_frame; reflexivity ].

Lemma BroadcastAppend_calm : pres calm BroadcastAppend.
Proof. unfold BroadcastAppend, each_peer, this. pres_tac calm_leaf. Qed.

Lemma BroadcastHeartbeat_with_calm ctx : pres calm (BroadcastHeartbeat_with ctx).
Proof. unfold BroadcastHeartbeat_with, SendHeartbeat, each_peer, this. pres_tac calm_leaf. Qed.

Lemma SendRequestSnapshot_calm : pres calm SendRequestSnapshot.
Proof. unfold SendRequestSnapshot, this. pres_tac calm_leaf. Qed.

Lemma HasUnappliedConfChanges_calm low high ctx : pres calm (HasUnappliedConfChanges low high ctx).
Proof. unfold HasUnappliedConfChanges, this. pres_tac calm_leaf. Qed.

Lemma reset_peers_calm : pres calm reset_peers.
Proof.
  unfold reset_peers, each_peer. apply pres_bind; [typeclasses eauto|pres_tac calm_leaf|intros last].
  apply pres_me; [apply calm_guard|]. intros r ->. cbv zeta. unfold this. apply pres_bind; [typeclasses eauto|pres_tac calm_leaf|intros r0].
  apply pres_foreach; [typeclasses eauto|]. intros id. apply on_progress_calm. intros Hne.
  rewrite (proj2 (Z.eqb_neq id me) Hne). unfold when. cbv iota. pres_tac calm_peer.
Qed.
#[local] Hint Resolve BroadcastAppend_calm BroadcastHeartbeat_with_calm SendRequestSnapshot_calm HasUnappliedConfChanges_calm reset_peers_calm : calm.

Lemma Reset_calm term : pres calm (Reset term).
Proof. unfold Reset, reset_term, reset_role, ResetRandomizedElectionTimeout, AbortLeaderTransfer, this. pres_tac calm_leaf. Qed.
#[local] Hint Resolve Reset_calm : calm.

Lemma BecomeFollower_calm term leader : pres calm (BecomeFollower term leader).
Proof. unfold BecomeFollower, this. pres_tac calm_leaf. Qed.

Lemma BecomePreCandidate_calm : pres calm BecomePreCandidate.
Proof. unfold BecomePreCandidate, this. pres_tac calm_leaf. Qed.

Lemma BecomeCandidate_calm : pres calm BecomeCandidate.
Proof. unfold BecomeCandidate, this. pres_tac calm_leaf. Qed.

Lemma AppendEntry_calm entries : pres calm (AppendEntry entries).
Proof. unfold AppendEntry, on_uncommitted, this. pres_tac calm_leaf. Qed.
#[local] Hint Resolve BecomeFollower_calm BecomePreCandidate_calm BecomeCandidate_calm AppendEntry_calm : calm.

Lemma BecomeLeader_calm : pres calm BecomeLeader.
Proof. unfold BecomeLeader, on_uncommitted, this. pres_tac calm_leaf. Qed.
#[local] Hint Resolve BecomeLeader_calm : calm.

Lemma send_vote_requests_calm t mt term : pres calm (send_vote_requests t mt term).
Proof. unfold send_vote_requests, this. pres_tac calm_leaf. Qed.

Lemma PollWith_calm campaign from vote : pres calm campaign -> pres calm (PollWith campaign from vote).
Proof. intros Hc. unfold PollWith, this. pres_tac ltac:(first [apply Hc | calm_leaf]). Qed.

Lemma CampaignFuel_calm fuel t : pres calm (CampaignFuel fuel t).
Proof.
  revert t. induction fuel as [|fuel IH]; intros t; cbn [CampaignFuel]; [apply pres_abort|]. unfold CampaignWith, this.
  pres_tac ltac:(first [apply PollWith_calm, IH | apply send_vote_requests_calm | calm_leaf]).
Qed.

Lemma Hup_calm b : pres calm (Hup b).
Proof. unfold Hup, Campaign, this. pres_tac ltac:(first [apply CampaignFuel_calm | calm_leaf]). Qed.

Lemma Poll_calm from vote : pres calm (Poll from vote).
Proof. apply PollWith_calm, CampaignFuel_calm. Qed.

Lemma answer_read_calm req index : pres calm (answer_read req index).
Proof. unfold answer_read, HandleReadyReadIndex, this. pres_tac calm_leaf. Qed.
#[local] Hint Resolve Hup_calm Poll_calm answer_read_calm : calm.

Lemma ack_read_calm id ctx : pres calm (ack_read id ctx).
Proof. unfold ack_read, on_read_only, this. pres_tac calm_leaf. Qed.
#[local] Hint Resolve ack_read_calm : calm.

Lemma StepTerm_calm m : pres calm (StepTerm m).
Proof. unfold StepTerm, this. cbv zeta. pres_tac calm_leaf. Qed.

Lemma propose_calm entries : pres calm (propose entries).
Proof. unfold propose, dropped, this. pres_tac calm_leaf. Qed.

Lemma read_index_calm m : pres calm (read_index m).
Proof. unfold read_index, on_read_only, this. pres_tac calm_leaf. Qed.

Lemma HandleHeartbeatResponse_calm m : pres calm (HandleHeartbeatResponse m).
Proof. unfold HandleHeartbeatResponse, Resume, this. pres_tac calm_leaf. Qed.

Lemma HandleTransferLeader_calm m : pres calm (HandleTransferLeader m).
Proof. unfold HandleTransferLeader, AbortLeaderTransfer, SendTimeoutNow, this. pres_tac calm_leaf. Qed.

Lemma HandleSnapshotStatus_calm m : pres calm (HandleSnapshotStatus m).
Proof. unfold HandleSnapshotStatus, SnapshotFailure, Pause, this. pres_tac calm_leaf. Qed.

Lemma HandleUnreachable_calm m : pres calm (HandleUnreachable m).
Proof. unfold HandleUnreachable, this. pres_tac calm_leaf. Qed.
#[local] Hint Resolve StepTerm_calm propose_calm read_index_calm HandleHeartbeatResponse_calm HandleTransferLeader_calm
  HandleSnapshotStatus_calm HandleUnreachable_calm : calm.

Lemma StepLeader_calm m : m_type m <> MsgAppendResponse -> pres calm (StepLeader m).
Proof.
  intros Hm. unfold StepLeader, ok, BroadcastHeartbeat, CheckQuorumActive, this. destruct (m_type m); try done; pres_tac calm_leaf.
Qed.

Lemma CommitApply_calm applied : pres calm (CommitApply applied).
Proof. unfold CommitApply, CommitApplyInternal, AppliedToUnchecked, this. pres_tac calm_leaf. Qed.

Lemma RequestSnapshot_calm : pres calm RequestSnapshot.
Proof. unfold RequestSnapshot, this. pres_tac calm_leaf. Qed.

(** Messages a node sends to itself. *)
Lemma local_calm mt : mt = MsgHup \/ mt = MsgBeat \/ mt = MsgCheckQuorum -> pres calm (local mt).
Proof.
  intros Hm. unfold local, this. apply pres_bind; [typeclasses eauto|pres_tac calm_leaf|intros r].
  apply pres_bind; [typeclasses eauto| |intros ?; pres_tac calm_leaf]. set (m := _ <| m_from := _ |>).
  assert (T : m_type m = mt) by done. clearbody m. unfold Step, this, ok.
  apply pres_bind; [typeclasses eauto|apply StepTerm_calm|intros go]. destruct (negb go); [pres_tac calm_leaf|].
  apply pres_bind; [typeclasses eauto|pres_tac calm_leaf|intros r1].
  assert (Hlead : pres calm (StepLeader m)) by (apply StepLeader_calm; rewrite T; by destruct Hm as [->|[->| ->]]).
  unfold StepCandidate, StepFollower, this. rewrite T. destruct Hm as [->|[->| ->]]; pres_tac ltac:(first [apply Hlead | calm_leaf]).
Qed.

Lemma Tick_calm : pres calm Tick.
Proof.
  unfold Tick, TickElection, TickHeartbeat, tick_beat, elapse, AbortLeaderTransfer, this.
  pres_tac ltac:(first [apply local_calm; by auto | calm_leaf]).
Qed.
End NodeCalm.

(** The methods that commit nothing. *)
#[export] Hint Resolve SendAppend_calm SendAppendAggressively_calm send_calm BroadcastAppend_calm BroadcastHeartbeat_with_calm
  SendRequestSnapshot_calm HasUnappliedConfChanges_calm Reset_calm BecomeFollower_calm BecomePreCandidate_calm BecomeCandidate_calm
  AppendEntry_calm BecomeLeader_calm Hup_calm Poll_calm answer_read_calm ack_read_calm StepTerm_calm CommitApply_calm
  RequestSnapshot_calm Tick_calm : calm.

Ltac calm_leaf := first
  [ solve [auto with calm] | apply with_progress_calm, MaybeSendAppend_ctx_calm
  | apply on_log_calm, even_tame; first [ apply MaybePersist_even | apply MaybePersistSnapshot_even ]
  | apply on_progress_calm; intros _; apply lower_matched; pres_tac peer_leaf
  | apply on_tracker_calm; first [ apply ApplyConf_lower | apply pres_modify; intros ?; by apply tracker_lower_same ]
  | apply pres_modify; intros ?; apply calm_frame; reflexivity | apply pres_zoom; intros; apply calm_frame; reflexivity ].
