(* ===== verification/CommitRule.v ===== *)
(** * When a node commits

    A leader commits an entry of its own term that a quorum of its voters has
    acknowledged, and nothing else; any other node commits what a message
    tells it, as far as its log agrees with the message.  An acknowledgement
    of another node is believed only when that node has sent it. *)

From S2P Require Import Prelude Types Util Inflights Progress Quorum Tracker ConfChange Storage MemStorage Unstable ReadOnly Config RaftLog RaftLogProps RaftCore RaftSend LogSafety Fragments Raft NodeInv NodeSafety Elections NodeLog NodeCalm.

Create HintDb learns.
Create HintDb keeps.
Create HintDb rests.

Section CommitRule.
Context {ENV : Env} {S : Type} {ST : Storage S} {SL : StorageLaws S}.
Implicit Types r : Raft S.
Abbreviation view r := (log_view (raft_log_ r)).
Abbreviation committed r := (committed_ (raft_log_ r)).
Abbreviation matched_of r := (matched_in (progress_ (progress_tracker_ r))).

(** ** Acknowledgements *)
Section Learns.
Context (me : Z) (bonus : Z -> Z).

(** A peer is believed to have acknowledged at most its bonus more. *)
Definition learns r r' : Prop := id_ r = me ->
  id_ r' = me /\ forall p, p <> me -> Z.max 0 (matched_of r' p) <= Z.max (Z.max 0 (matched_of r p)) (bonus p).

#[export] Instance learns_preorder : PreOrder learns.
Proof.
  split; [intros r Hr; split; [done|]; intros; lia|]. intros r1 r2 r3 H1 H2 Hr. destruct (H1 Hr) as [Hr2 L1].
  destruct (H2 Hr2) as [Hr3 L2]. split; [done|]. intros p Hp. specialize (L1 p Hp). specialize (L2 p Hp). lia.
Qed.

Lemma learns_guard r r' : (id_ r = me -> learns r r') -> learns r r'.
Proof. intros H Hr. by apply H. Qed.

Lemma calm_learns {A} (m : M (Raft S) A) : pres (calm me) m -> pres learns m.
Proof. intros H r a r' E Hr. destruct (H _ _ _ E) as [T _]. destruct (T Hr) as [Hr' L]. split; [done|]. intros p Hp. specialize (L p Hp). lia. Qed.

Lemma on_log_learns {A} (m : M (RaftLog S) A) : pres learns (on_log m).
Proof. apply pres_zoom. intros r l a _ Hr. split; [done|]. intros; cbn; lia. Qed.

Lemma on_progress_learns {A} id (m : M Progress A) :
  (id <> me -> forall p a p', m p = Ret (a, p') -> Z.max 0 (matched_ p') <= Z.max (Z.max 0 (matched_ p)) (bonus id)) -> pres learns (on_progress id m).
Proof.
  intros H r a r' E Hr. unfold on_progress in E. destruct (get_progress id r) as [p|] eqn:Eg; [|done].
  destruct (m p) as [[x q]|] eqn:Em; [|done]. injection E as _ <-. split; [done|]. intros x' Hx. cbn. rewrite matched_in_insert.
  destruct (decide (x' = id)) as [->|]; [|lia]. rewrite (matched_in_lookup _ _ _ Eg). by eapply H.
Qed.

Ltac learns_leaf := first [ solve [auto with learns] | apply on_log_learns | apply calm_learns; calm_leaf ].

Lemma MaybeCommit_learns : pres learns MaybeCommit.
Proof. unfold MaybeCommit, this. pres_tac learns_leaf. Qed.
#[local] Hint Resolve MaybeCommit_learns : learns.

Lemma MaybeCommitByVote_learns m : pres learns (MaybeCommitByVote m).
Proof. unfold MaybeCommitByVote, this. pres_tac learns_leaf. Qed.

Lemma PostConfChange_learns : pres learns PostConfChange.
Proof. unfold PostConfChange, AbortLeaderTransfer, each_peer, this. pres_tac learns_leaf. Qed.
#[local] Hint Resolve MaybeCommitByVote_learns PostConfChange_learns : learns.

Lemma ApplyConfChange_learns cc : pres learns (ApplyConfChange cc).
Proof. unfold ApplyConfChange. pres_tac learns_leaf. Qed.

Lemma OnPersistEntries_learns index term : pres learns (OnPersistEntries index term).
Proof.
  unfold OnPersistEntries. apply pres_bind; [typeclasses eauto|pres_tac learns_leaf|intros update].
  apply pres_me with me; [apply learns_guard|]. intros r Hr. unfold this. pres_tac ltac:(first [apply on_progress_learns; congruence | learns_leaf]).
Qed.

Lemma HandleAppendEntries_learns m : pres learns (HandleAppendEntries m).
Proof. unfold HandleAppendEntries, this. cbv zeta. pres_tac learns_leaf. Qed.

Lemma HandleHeartbeat_learns m : pres learns (HandleHeartbeat m).
Proof. unfold HandleHeartbeat, this. pres_tac learns_leaf. Qed.

Lemma Restore_learns snapshot : pres learns (Restore snapshot).
Proof.
  unfold Restore, this. apply pres_bind; [typeclasses eauto|pres_tac learns_leaf|intros r0]. cbv zeta.
  do 3 (apply pres_if; [pres_tac learns_leaf|]). apply pres_bind; [typeclasses eauto|pres_tac learns_leaf|intros matches].
  apply pres_if; [pres_tac learns_leaf|]. apply (pres_bind_post _ _ _ (fun x => forall p, Z.max 0 (matched_in (progress_ (snd x)) p) <= 0)).
  - pres_tac learns_leaf.
  - intros r [res t] r' E p. apply getsO_Ret in E as (? & E & [= <- _]). exact (ConfRestore_lower _ _ _ _ _ E p).
  - intros [res t] Ht. cbn in Ht. pres_tac learns_leaf. apply pres_modify. intros r Hr. split; [done|]. intros p Hp. cbn. specialize (Ht p). lia.
Qed.

Lemma HandleSnapshot_learns m : pres learns (HandleSnapshot m).
Proof. unfold HandleSnapshot, this. pres_tac ltac:(first [apply Restore_learns | learns_leaf]). Qed.
#[local] Hint Resolve HandleAppendEntries_learns HandleHeartbeat_learns HandleSnapshot_learns : learns.

Lemma StepFollower_learns m : pres learns (StepFollower m).
Proof. unfold StepFollower, hear_leader, dropped, ok, this. cbv zeta. pres_tac learns_leaf. Qed.

Lemma StepCandidate_learns m : pres learns (StepCandidate m).
Proof. unfold StepCandidate, dropped, ok, this. pres_tac learns_leaf. Qed.

Lemma StepVote_learns m : pres learns (StepVote m).
Proof. unfold StepVote, this. cbv zeta. pres_tac learns_leaf. Qed.

(** The only handler that raises the index of another node. *)
Lemma HandleAppendResponse_learns m : (m_reject m = false -> m_index m <= bonus (m_from m)) -> pres learns (HandleAppendResponse m).
Proof.
  intros Hb. unfold HandleAppendResponse, SendTimeoutNow, this.
  assert (Hu : m_reject m = false -> pres learns (on_progress (m_from m) (MaybeUpdate (m_index m)))).
  { intros Hr. apply on_progress_learns. intros _ p a p' E. specialize (Hb Hr). unfold MaybeUpdate, Resume in E. rewrite bind_get in E.
    destruct (Z.ltb_spec (matched_ p) (m_index m)); unfold when in E; cbn in E; destruct (_ <? _) in E; injection E as _ <-; cbn; lia. }
  destruct (m_reject m); pres_tac ltac:(first [by apply Hu | learns_leaf]).
Qed.
#[local] Hint Resolve StepFollower_learns StepCandidate_learns StepVote_learns : learns.

(** A leader counts the acknowledgements of its own term. *)
Lemma Step_learns m r : msg_ok m -> node_ok (m_term m) r ->
  (m_type m = MsgAppendResponse -> m_reject m = false -> state_ r = Leader -> m_term m = 0 \/ m_term m = term_ r -> m_index m <= bonus (m_from m)) ->
  runs learns r (Step m).
Proof.
  intros Hm Hok Hb a r' E. unfold Step in E. apply bind_Ret in E as (go & r1 & E1 & E). transitivity r1.
  { revert E1. apply (calm_learns (StepTerm m)), StepTerm_calm. }
  destruct (StepTerm_run m r go r1 Hm Hok E1) as (_ & _ & Ht). pose proof (StepTerm_civic _ _ _ _ E1) as Cv.
  destruct go; cbn [negb] in E; [|injection E as _ <-; reflexivity]. unfold this in E. rewrite bind_get in E.
  assert (Hl : state_ r1 = Leader -> pres learns (StepLeader m)).
  { intros Hs. destruct (cv_leader _ _ Cv Hs) as [Hs0 Et]. destruct (decide (m_type m = MsgAppendResponse)) as [Ty|Ty]; [|by apply calm_learns, StepLeader_calm].
    unfold StepLeader, ok. rewrite Ty. pres_tac ltac:(first [apply HandleAppendResponse_learns; intros Hrej | learns_leaf]). apply Hb; try done.
    destruct (Z.eq_dec (m_term m) 0); [by left|right]. rewrite <- Et. symmetry. apply Ht; [done|done|]. unfold pre_vote_message. by rewrite Ty. }
  revert E. match goal with |- ?f r1 = _ -> _ => assert (H : pres learns f); [|apply H] end. unfold ok, this.
  pres_tac ltac:(first [by apply Hl | learns_leaf]).
Qed.

Lemma handle_learns i r : input_ok i r -> node_ok (Z.max 0 (input_reach i)) r ->
  (forall m, i = InStep m -> m_type m = MsgAppendResponse -> m_reject m = false -> state_ r = Leader -> m_term m = 0 \/ m_term m = term_ r ->
     m_index m <= bonus (m_from m)) ->
  runs learns r (handle i).
Proof.
  intros Hi Hok Hb. destruct i; cbn [handle input_ok input_reach] in *.
  { unfold ignore. intros a r' E. apply bind_Ret in E as (x & r1 & E1 & E). injection E as _ <-. revert E1. apply Step_learns; [done| |by eauto].
    eapply node_ok_weaken; [|exact Hok]. pose proof (reach_pos _ Hi). lia. }
  all: apply pres_runs; unfold ignore, OnPersistSnapshot, Ping, BroadcastHeartbeat, SetPriority, ReduceUncommittedSize, on_uncommitted, MaybeFreeInflightBuffers,
      AdjustMaxInflightMsgs, EnableGroupCommit, AssignCommitGroups, SetCommitGroupID, Tracker.EnableGroupCommit, commit_and_broadcast, each_peer, this;
    pres_tac ltac:(first [apply ApplyConfChange_learns | apply OnPersistEntries_learns | learns_leaf]).
Qed.
End Learns.

(** ** A leader *)

Definition sound (l : RaftLog S) : Prop := log_wf l /\ v_dummy (log_view l) <= committed_ l <= v_last (log_view l).

(** The last committed entry is of the current term, and a quorum of the
    voters has acknowledged it. *)
Definition backed_commit r : Prop :=
  term_at (view r) (committed r) = Some (term_ r) /\
  joint_quorum (voters_of r) (ackers (JointIDs (voters_of r)) (AckedIndex (progress_ (progress_tracker_ r))) (committed r)).

(** Log, role and voters stay, and acknowledgements only grow. *)
Record rises r r' : Prop := {
  rs_wf : log_wf (raft_log_ r');
  rs_view : view r' = view r;
  rs_committed : committed r' = committed r;
  rs_state : state_ r' = state_ r;
  rs_term : term_ r' = term_ r;
  rs_voters : voters_of r' = voters_of r;
  rs_matched p : matched_of r p <= matched_of r' p
}.

Definition stays r r' : Prop := log_wf (raft_log_ r) -> rises r r'.

#[export] Instance stays_preorder : PreOrder stays.
Proof.
  split; [intros r W; constructor; done || intros; lia|]. intros r1 r2 r3 H1 H2 W. destruct (H1 W) as [W2 V2 C2 S2 T2 J2 M2].
  destruct (H2 W2) as [W3 V3 C3 S3 T3 J3 M3]. constructor; try congruence. intros p. specialize (M2 p). specialize (M3 p). lia.
Qed.

Lemma stays_frame r r' : raft_log_ r' = raft_log_ r -> state_ r' = state_ r -> term_ r' = term_ r ->
  conf_ (progress_tracker_ r') = conf_ (progress_tracker_ r) -> progress_ (progress_tracker_ r') = progress_ (progress_tracker_ r) -> stays r r'.
Proof.
  intros El Es Et Ec Ep W. constructor; rewrite ?El, ?Es, ?Et, ?Ep; try done. unfold voters_of. by rewrite Ec.
Qed.

Lemma CommitTo_run (l : RaftLog S) i x l' : log_wf l -> CommitTo i l = Ret (x, l') ->
  l' = l \/ committed_ l < i <= v_last (log_view l) /\ l' = l <| committed_ := i |>.
Proof.
  intros W E. unfold CommitTo in E. rewrite bind_get in E. destruct (Z.leb_spec i (committed_ l)); [left; by injection E as _ <-|].
  apply bind_Ret in E as (last & l1 & E1 & E). apply getsO_Ret in E1 as (? & E1 & [= <- ->]). rewrite LastIndex_view in E1 by done.
  injection E1 as <-. destruct (Z.ltb_spec (v_last (log_view l)) i); [left; by injection E as _ <-|]. right. cbn in E. by injection E as _ <-.
Qed.

(** The cursor of a log moves only to an entry of the given term. *)
Lemma LogMaybeCommit_run (l : RaftLog S) i t b l' : log_wf l -> v_dummy (log_view l) <= committed_ l <= v_last (log_view l) ->
  RaftLog.MaybeCommit i t l = Ret (b, l') ->
  l' = l \/ committed_ l < i <= v_last (log_view l) /\ term_at (log_view l) i = Some t /\ l' = l <| committed_ := i |>.
Proof.
  intros W Hc E. pose proof (view_bounds l W) as Hb. unfold RaftLog.MaybeCommit in E. rewrite bind_get in E.
  destruct (Z.ltb_spec (committed_ l) i); [|left; by injection E as _ <-]. apply bind_Ret in E as (x & l0 & E0 & E).
  apply getsO_Ret in E0 as (? & E0 & [= <- ->]). destruct (result_is x t) eqn:Hx; [|left; by injection E as _ <-].
  apply bind_Ret in E as (? & l1 & E1 & E). injection E as _ <-. destruct (CommitTo_run _ _ _ _ W E1) as [->|[Hi ->]]; [by left|right].
  split; [done|]. split; [|done]. rewrite Term_view in E0 by (done || u64_lia). injection E0 as <-. apply v_term_Some; [|lia].
  unfold result_is in Hx. destruct (v_term _ _); [|done]. by apply Z.eqb_eq in Hx as ->.
Qed.

Section Leader.
Context (c0 : Z).

Definition fine r : Prop := sound (raft_log_ r) /\ state_ r = Leader /\ (c0 < committed r -> backed_commit r).

Definition keeps r r' : Prop := fine r -> fine r'.

#[export] Instance keeps_preorder : PreOrder keeps.
Proof. split; [by intros r F|]. intros r1 r2 r3 H1 H2 F. by apply H2, H1. Qed.

Lemma rises_fine r r' : rises r r' -> fine r -> fine r'.
Proof.
  intros [W V C St T J Mt] ([_ Hc] & Hs & Hb). unfold fine, sound, backed_commit. rewrite V, C, St, T, J. split; [done|]. split; [done|].
  intros H. destruct (Hb H) as [Ht Hq]. split; [done|]. apply joint_quorum_ackers in Hq as [Q1 Q2]. apply joint_quorum_ackers.
  assert (Hm : forall X i, ackers X (AckedIndex (progress_ (progress_tracker_ r))) i ⊆ ackers X (AckedIndex (progress_ (progress_tracker_ r'))) i).
  { intros X i v. unfold ackers. rewrite !elem_of_filter. specialize (Mt v). unfold matched_in in Mt. intros []. split; [lia|done]. }
  split; [destruct Q1 as [|Q1]|destruct Q2 as [|Q2]]; try (by left); right; (eapply quorum_mono; [eassumption|apply Hm|unfold ackers; set_solver]).
Qed.

Lemma stays_keeps {A} (m : M (Raft S) A) : pres stays m -> pres keeps m.
Proof. intros H r a r' E F. eapply rises_fine; [|exact F]. by eapply H; [|apply F]. Qed.

Lemma on_progress_stays {A} id (m : M Progress A) : pres (fun p p' => matched_ p <= matched_ p') m -> pres stays (on_progress id m).
Proof.
  intros H r a r' E W. unfold on_progress in E. destruct (get_progress id r) as [p|] eqn:Eg; [|done].
  destruct (m p) as [[x q]|] eqn:Em; [|done]. injection E as _ <-. constructor; try done. intros x'. cbn. rewrite matched_in_insert.
  destruct (decide (x' = id)) as [->|]; [|lia]. rewrite (matched_in_lookup _ _ _ Eg). by eapply H.
Qed.

Lemma on_peer_stays {A} id (m : M Progress A) : pres keeps_matched m -> pres stays (on_progress id m).
Proof. intros H. apply on_progress_stays. intros p a p' E. apply H in E. rewrite E. lia. Qed.

Lemma MaybeUpdate_stays id n : pres stays (on_progress id (MaybeUpdate n)).
Proof.
  apply on_progress_stays. intros p a p' E. unfold MaybeUpdate, Resume in E. rewrite bind_get in E.
  destruct (Z.ltb_spec (matched_ p) n); unfold when in E; cbn in E; destruct (_ <? _) in E; injection E as _ <-; cbn; lia.
Qed.

Lemma with_progress_stays {A} id (m : M (SendCtx S) A) : pres sends m -> pres stays (with_progress id m).
Proof.
  intros H r a r' E W. unfold with_progress in E. destruct (get_progress id r) as [p|] eqn:Eg; [|done].
  destruct (m _) as [[x c]|] eqn:Em; [|done]. injection E as _ <-. destruct (H _ _ _ Em W) as (l' & Ec & Hs & W' & Hm). cbn in *.
  constructor; cbn; rewrite ?Ec; try done; [by apply same_log_view|apply Hs|]. intros x'. rewrite matched_in_insert.
  destruct (decide (x' = id)) as [->|]; [|lia]. rewrite (matched_in_lookup _ _ _ Eg), Hm. lia.
Qed.

Lemma MaybePersist_stays i t : pres stays (on_log (MaybePersist i t)).
Proof.
  intros r a r' E W. unfold on_log in E. apply zoom_Ret in E as (b & l' & E & [= _ ->]). destruct (MaybePersist_kept _ _ _ _ _ E W) as [W' V].
  constructor; try done. exact (MaybePersist_even _ _ _ _ _ E).
Qed.

Ltac stays_leaf := first
  [ solve [auto with keeps] | apply with_progress_stays; first [apply SendAppend_sends | apply SendAppendAggressively_sends | apply MaybeSendAppend_sends]
  | apply MaybePersist_stays | apply MaybeUpdate_stays | apply on_peer_stays; pres_tac peer_leaf
  | apply pres_modify; intros ?; by apply stays_frame | apply pres_zoom; intros; by apply stays_frame ].

Lemma send_stays m : pres stays (send m).
Proof. unfold send. pres_tac stays_leaf. Qed.
#[local] Hint Resolve send_stays : keeps.

Lemma BroadcastAppend_stays : pres stays BroadcastAppend.
Proof. unfold BroadcastAppend, SendAppend, each_peer, this. pres_tac stays_leaf. Qed.

Lemma ack_read_stays id ctx : pres stays (ack_read id ctx).
Proof. unfold ack_read, on_read_only, answer_read, HandleReadyReadIndex, this. pres_tac stays_leaf. Qed.
#[local] Hint Resolve BroadcastAppend_stays ack_read_stays : keeps.

(** The commit of a leader is backed by a quorum. *)
Lemma MaybeCommit_keeps : pres keeps MaybeCommit.
Proof.
  intros r a r' E. unfold MaybeCommit in E. apply bind_Ret in E as ([mci b] & r0 & E0 & E). apply getsO_Ret in E0 as (? & Em & [= <- ->]).
  unfold this in E. rewrite bind_get in E. apply bind_Ret in E as (changed & r1 & E1 & E). transitivity r1.
  2:{ revert E. apply stays_keeps. pres_tac stays_leaf. }
  clear E. intros ([W Hc] & Hs & Hb). unfold on_log in E1. apply zoom_Ret in E1 as (x & l' & E1 & [= _ ->]).
  destruct (LogMaybeCommit_run _ _ _ _ _ W Hc E1) as [->|(Hi & Ht & ->)]; [done|]. set (l' := _ <| committed_ := mci |>).
  destruct (cursors_view (raft_log_ r) l' eq_refl eq_refl) as [V W']. unfold fine, sound, backed_commit. cbn. rewrite V.
  split; [split; [by apply W'|lia]|]. split; [done|]. intros _. split; [done|]. by eapply JointCommitted_quorum.
Qed.
#[local] Hint Resolve MaybeCommit_keeps : keeps.

Ltac keeps_leaf := first [ apply MaybeCommit_keeps | apply stays_keeps; unfold SendAppend, SendAppendAggressively; stays_leaf ].

Lemma HandleAppendResponse_keeps m : pres keeps (HandleAppendResponse m).
Proof. unfold HandleAppendResponse, SendTimeoutNow, this. pres_tac keeps_leaf. Qed.

Lemma OnPersistEntries_keeps index term : pres keeps (OnPersistEntries index term).
Proof. unfold OnPersistEntries, this. pres_tac keeps_leaf. Qed.

Lemma PostConfChange_keeps : pres keeps PostConfChange.
Proof. unfold PostConfChange, AbortLeaderTransfer, each_peer, this. pres_tac keeps_leaf. Qed.

Lemma EnableGroupCommit_keeps b : pres keeps (EnableGroupCommit b).
Proof. unfold EnableGroupCommit, Tracker.EnableGroupCommit, commit_and_broadcast, on_tracker, this. pres_tac keeps_leaf. Qed.

Lemma AssignCommitGroups_keeps ids : pres keeps (AssignCommitGroups ids).
Proof. unfold AssignCommitGroups, SetCommitGroupID, commit_and_broadcast, this. pres_tac keeps_leaf. Qed.
End Leader.

Lemma leader_fine r : sound (raft_log_ r) -> state_ r = Leader -> fine (committed r) r.
Proof. intros Hl Hs. split; [done|]. split; [done|]. lia. Qed.

(** A change of the configuration comes before the commit. *)
Lemma ApplyConfChange_fine cc r a r' : sound (raft_log_ r) -> state_ r = Leader -> ApplyConfChange cc r = Ret (a, r') -> fine (committed r) r'.
Proof.
  intros Hl Hs E. pose proof (leader_fine r Hl Hs) as F. unfold ApplyConfChange in E. apply bind_Ret in E as (t & r0 & E0 & E). injection E0 as <- <-.
  cbv zeta in E. destruct (if cc_LeaveJoint cc then _ else _) as [[cfg changes]|]; [|by injection E as _ <-].
  apply bind_Ret in E as (last & r1 & E1 & E). apply getsO_Ret in E1 as (? & _ & [= <- ->]). apply bind_Ret in E as (? & r1 & E1 & E).
  assert (F1 : fine (committed r) r1).
  { unfold on_tracker in E1. apply zoom_Ret in E1 as (? & t & _ & [= _ ->]). split; [done|]. split; [done|]. cbn. lia. }
  apply bind_Ret in E as (cs & r2 & E2 & E). injection E as _ <-. by eapply PostConfChange_keeps.
Qed.

(** ** Any other node *)

(** What a message says about the commit of a node with log [v]. *)
Definition told (m : Message) (c : Z) (v : LogView) : Prop :=
  match m_type m with
  | MsgAppend => c <= m_commit m /\ c <= m_index m + zlen (m_entries m) /\ term_at v (m_index m) = Some (m_log_term m) /\
      forall e, e ∈ m_entries m -> term_at v (e_index e) = Some (e_term e)
  | MsgHeartbeat => c = m_commit m
  | MsgSnapshot => c = sn_index (m_snapshot m) /\ term_at v c = Some (sn_term (m_snapshot m))
  | MsgRequestVote | MsgRequestPreVote | MsgRequestVoteResponse | MsgRequestPreVoteResponse =>
      c = m_commit m /\ term_at v c = Some (m_commit_term m)
  | MsgReadIndexResp => c = m_index m /\ term_at v c = Some (m_term m)
  | _ => False
  end.

Definition follows (m : Message) r r' : Prop := committed r < committed r' -> state_ r' <> Leader /\ told m (committed r') (view r').

(** Log and commit stay, and nobody becomes leader. *)
Definition rests r r' : Prop := log_wf (raft_log_ r) ->
  log_wf (raft_log_ r') /\ view r' = view r /\ committed r' = committed r /\ (state_ r <> Leader -> state_ r' <> Leader).

#[export] Instance rests_preorder : PreOrder rests.
Proof.
  split; [by intros r W|]. intros r1 r2 r3 H1 H2 W. destruct (H1 W) as (W2 & V2 & C2 & S2). destruct (H2 W2) as (W3 & V3 & C3 & S3).
  split; [done|]. split; [congruence|]. split; [congruence|auto].
Qed.

Lemma follows_calm me m r r1 r' : id_ r = me -> calm me r r1 -> follows m r1 r' -> follows m r r'.
Proof. intros Hi [_ Hc] Hf H. specialize (Hc Hi). apply Hf. lia. Qed.

Lemma calm_follows me m r r' : id_ r = me -> calm me r r' -> follows m r r'.
Proof. intros Hi [_ Hc] H. specialize (Hc Hi). lia. Qed.

Lemma follows_rests m r r1 r' : log_wf (raft_log_ r1) -> follows m r r1 -> rests r1 r' -> follows m r r'.
Proof. intros W Hf Hr H. destruct (Hr W) as (_ & -> & -> & Hs). rewrite (proj1 (proj2 (proj2 (Hr W)))) in H. destruct (Hf H). auto. Qed.

Lemma rests_follows m r r' : log_wf (raft_log_ r) -> rests r r' -> follows m r r'.
Proof. intros W Hr H. destruct (Hr W) as (_ & _ & E & _). lia. Qed.

Lemma rests_frame r r' : raft_log_ r' = raft_log_ r -> state_ r' = state_ r \/ state_ r' <> Leader -> rests r r'.
Proof. intros El Es W. rewrite El. split; [done|]. split; [done|]. split; [done|]. destruct Es as [->|]; done. Qed.

Lemma on_log_rests {A} (m : M (RaftLog S) A) : pres view_kept m -> pres log_even m -> pres rests (on_log m).
Proof.
  intros Hv He. apply pres_zoom. intros r l' a E W. destruct (Hv _ _ _ E W) as [W' V]. apply He in E. by split; [|split].
Qed.

Lemma on_progress_rests {A} id (m : M Progress A) : pres rests (on_progress id m).
Proof.
  intros r a r' E. unfold on_progress in E. destruct (get_progress id r); [|done]. destruct (m p) as [[]|]; [|done].
  injection E as _ <-. apply rests_frame; [done|by left].
Qed.

Ltac rests_leaf := first
  [ solve [auto with rests] | apply on_progress_rests | apply on_log_rests; [apply Scan_kept|apply Scan_even]
  | apply on_log_rests; apply pres_modify; done || (intros ?; by apply view_kept_cursors)
  | apply pres_modify; intros ?; apply rests_frame; [reflexivity|first [by left | by right]]
  | apply pres_zoom; intros; apply rests_frame; [reflexivity|by left] ].

Lemma send_rests m : pres rests (send m).
Proof. unfold send. pres_tac rests_leaf. Qed.
#[local] Hint Resolve send_rests : rests.

Lemma SendRequestSnapshot_rests : pres rests SendRequestSnapshot.
Proof. unfold SendRequestSnapshot, this. pres_tac rests_leaf. Qed.

Lemma BecomeFollower_rests term leader : pres rests (BecomeFollower term leader).
Proof.
  unfold BecomeFollower, Reset, reset_term, reset_role, reset_peers, ResetRandomizedElectionTimeout, AbortLeaderTransfer, each_peer, on_tracker, this.
  pres_tac rests_leaf.
Qed.
#[local] Hint Resolve SendRequestSnapshot_rests BecomeFollower_rests : rests.

(** A commit up to a position whose term is known. *)
Lemma LogMaybeCommit_follows m i t r b r' : sound (raft_log_ r) -> state_ r <> Leader ->
  (forall v, term_at v i = Some t -> told m i v) -> on_log (RaftLog.MaybeCommit i t) r = Ret (b, r') -> follows m r r' /\ log_wf (raft_log_ r').
Proof.
  intros [W Hc] Hs Ht E. unfold on_log in E. apply zoom_Ret in E as (x & l' & E & [= _ ->]).
  destruct (LogMaybeCommit_run _ _ _ _ _ W Hc E) as [->|(Hi & Hti & ->)]; [split; [intros H; cbn in H; lia|done]|].
  set (l1 := _ <| committed_ := i |>). destruct (cursors_view (raft_log_ r) l1 eq_refl eq_refl) as [V W']. split; [|by apply W'].
  intros _. split; [done|]. rewrite <- V in Hti. exact (Ht _ Hti).
Qed.

Definition vote_message (m : Message) : Prop :=
  m_type m = MsgRequestVote \/ m_type m = MsgRequestPreVote \/ m_type m = MsgRequestVoteResponse \/ m_type m = MsgRequestPreVoteResponse.

Lemma MaybeCommitByVote_follows m r : vote_message m -> sound (raft_log_ r) -> runs (follows m) r (MaybeCommitByVote m).
Proof.
  intros Hm Hl a r' E. assert (Hsame : follows m r r) by (intros H; lia). unfold MaybeCommitByVote in E. destruct (_ || _); [by injection E as _ <-|].
  unfold this in E. rewrite bind_get in E. cbv zeta in E. destruct ((m_commit m <=? _) || is_role Leader r) eqn:Hr; [by injection E as _ <-|].
  apply orb_false_iff in Hr as [_ Hr]. apply bool_decide_eq_false in Hr. apply bind_Ret in E as (b & r1 & E1 & E).
  destruct (LogMaybeCommit_follows m (m_commit m) (m_commit_term m) r b r1 Hl Hr) as [F1 W1]; [|done|].
  { intros v Hv. unfold told. by destruct Hm as [->|[->|[->| ->]]]. }
  eapply follows_rests; [exact W1|exact F1|]. revert E. match goal with |- ?f r1 = _ -> _ => assert (H : pres rests f); [|apply H] end.
  unfold HasUnappliedConfChanges, this. pres_tac rests_leaf.
Qed.

Lemma HandleHeartbeat_follows m r : m_type m = MsgHeartbeat -> log_wf (raft_log_ r) -> state_ r <> Leader -> runs (follows m) r (HandleHeartbeat m).
Proof.
  intros Hm W Hs a r' E. unfold HandleHeartbeat in E. apply bind_Ret in E as (x & r1 & E1 & E). unfold on_log in E1.
  apply zoom_Ret in E1 as (y & l' & E1 & [= _ ->]). destruct (CommitTo_kept _ _ _ _ E1 W) as [W1 _]. set (r1 := r <| core_ := _ |>) in E.
  apply (follows_rests m r r1 r' W1).
  - intros H. split; [done|]. unfold told. rewrite Hm. cbn in *. destruct (CommitTo_run _ _ _ _ W E1) as [->|[_ ->]]; [lia|done].
  - revert E. match goal with |- ?f _ = _ -> _ => assert (H : pres rests f); [|apply H] end. unfold this. pres_tac rests_leaf.
Qed.

Lemma MaybeAppend_follows m r x r' : m_type m = MsgAppend -> batch_ok (m_index m) (m_log_term m) (m_entries m) -> log_ok (raft_log_ r) ->
  state_ r <> Leader -> committed r <= m_index m ->
  on_log (MaybeAppend (m_index m) (m_log_term m) (m_commit m) (m_entries m)) r = Ret (x, r') -> follows m r r' /\ log_wf (raft_log_ r').
Proof.
  intros Hm Hb Hok Hs Hi E. unfold on_log in E. apply zoom_Ret in E as (y & l' & E & [= _ ->]). pose proof Hok as [W [C _ _]]. pose proof (view_bounds _ W) as Hvb.
  pose proof (MaybeAppend_joined _ _ _ _ _ _ _ Hok Hb Hi E) as Hj. pose proof Hb as (H0 & Hl & Hc & Ht & Hz).
  destruct (MaybeAppend_cases (raft_log_ r) (m_index m) (m_log_term m) (m_commit m) (m_entries m) W C H0 Hl Hc Ht) as (y' & l2 & E2 & Ho).
  { destruct (Z.eq_dec (m_log_term m) 0) as [E0|]; [right; specialize (Hz E0); lia|by left]. }
  rewrite E2 in E. injection E as -> ->. unfold append_outcome in Ho.
  destruct y as [res|]; [|destruct Ho as [-> _]; split; [intros H; cbn in H; lia|done]].
  destruct (ma_term_matched res); [|destruct Ho as [-> _]; split; [intros H; cbn in H; lia|done]].
  destruct Ho as (W' & Hti & _ & _ & He & _ & Hcm & _). split; [|done]. intros H. split; [done|]. cbn in *.
  assert (Hin : v_dummy (view r) <= m_index m <= v_last (view r)).
  { destruct (Z.eq_dec (m_log_term m) 0) as [E0|]; [specialize (Hz E0); lia|by eapply v_term_inside]. }
  pose proof (v_term_Some _ _ _ Hti Hin) as Hta. unfold told. rewrite Hm. split; [lia|]. split; [lia|]. split.
  - destruct Hj as [->|(_ & p & Hj)]; [done|]. destruct (jo_meet _ _ _ _ Hj) as (t & _ & Hp). apply term_at_inside in Hp. cbn in Hp.
    rewrite (proj2 (jo_below _ _ _ _ Hj (m_index m) ltac:(lia))). done.
  - intros e Hel. destruct (He e Hel) as (e' & He' & <-). by apply term_at_entry.
Qed.

Lemma HandleAppendEntries_follows m r : m_type m = MsgAppend -> batch_ok (m_index m) (m_log_term m) (m_entries m) -> log_ok (raft_log_ r) ->
  state_ r <> Leader -> runs (follows m) r (HandleAppendEntries m).
Proof.
  intros Hm Hb Hok Hs a r' E. unfold HandleAppendEntries, this in E. rewrite bind_get in E. cbv zeta in E. pose proof Hok as [W _].
  destruct (negb _); [apply (rests_follows m _ _ W); by eapply SendRequestSnapshot_rests|].
  destruct (Z.ltb_spec (m_index m) (committed r)); [apply (rests_follows m _ _ W); by eapply send_rests|].
  apply bind_Ret in E as (x & r1 & E1 & E). destruct (MaybeAppend_follows m r x r1) as [F1 W1]; [done..|].
  apply (follows_rests m _ _ _ W1 F1). revert E. match goal with |- ?f _ = _ -> _ => assert (H' : pres rests f); [|apply H'] end.
  pres_tac rests_leaf.
Qed.

(** Snapshots *)
Lemma PostConfChange_rests r : state_ r <> Leader -> runs rests r PostConfChange.
Proof.
  intros Hs a r' E. unfold PostConfChange, this in E. rewrite bind_get in E. cbv zeta in E. rewrite bind_modify in E.
  unfold is_role in E. rewrite (bool_decide_eq_false_2 _ Hs) in E. rewrite andb_false_r in E. cbn in E. injection E as _ <-.
  apply rests_frame; [done|by left].
Qed.

(** The node has the entry at the end of the snapshot. *)
Lemma snapshot_matched m r x r' : m_type m = MsgSnapshot -> 0 <= sn_index (m_snapshot m) < u64max -> sound (raft_log_ r) -> state_ r <> Leader ->
  MatchTerm (sn_index (m_snapshot m)) (sn_term (m_snapshot m)) (raft_log_ r) = Ret true ->
  on_log (CommitTo (sn_index (m_snapshot m))) r = Ret (x, r') -> follows m r r' /\ log_wf (raft_log_ r').
Proof.
  intros Hm Hi [W Hc] Hs Hmt E. rewrite MatchTerm_view in Hmt by (done || u64_lia). injection Hmt as Hmt.
  unfold on_log in E. apply zoom_Ret in E as (y & l' & E & [= _ ->]). destruct (CommitTo_kept _ _ _ _ E W) as [W' V'].
  split; [|done]. intros H. split; [done|]. destruct (CommitTo_run _ _ _ _ W E) as [->|[Hsi ->]]; [cbn in H; lia|].
  unfold told. rewrite Hm. split; [done|]. cbn [committed_]. replace (view _) with (view r) by (symmetry; exact V'). apply v_term_Some; [|cbn; lia].
  unfold result_is in Hmt. cbn. destruct (v_term _ _); [|done]. by apply Z.eqb_eq in Hmt as ->.
Qed.

(** The snapshot replaces the log. *)
Lemma snapshot_taken m r x r' : m_type m = MsgSnapshot -> 0 <= sn_index (m_snapshot m) < u64max -> node_ok (sn_index (m_snapshot m)) r ->
  state_ r <> Leader -> on_log (RaftLog.Restore (m_snapshot m)) r = Ret (x, r') -> follows m r r' /\ log_wf (raft_log_ r').
Proof.
  intros Hm Hi Hok Hs E. unfold on_log in E. apply zoom_Ret in E as (y & l' & E & [= _ ->]).
  destruct (Restore_up _ _ _ _ Hi E (ok_log _ _ Hok) (ok_log_room _ _ Hok)) as [[W' _] _]. split; [|done].
  destruct (LogSafety.Restore_run _ _ _ _ Hi E) as [[_ ->]|(_ & _ & ->)]; [intros H; cbn in H; lia|]. intros _. split; [done|].
  unfold told. rewrite Hm. split; [done|]. cbn. unfold term_at. cbn. by rewrite Z.eqb_refl.
Qed.

Lemma Restore_follows m r : m_type m = MsgSnapshot -> 0 <= sn_index (m_snapshot m) < u64max -> node_ok (sn_index (m_snapshot m)) r ->
  state_ r <> Leader -> runs (fun r r' => follows m r r' /\ log_wf (raft_log_ r')) r (Restore (m_snapshot m)).
Proof.
  intros Hm Hi Hok Hs b r' E. destruct (ok_log _ _ Hok) as [W [Hc _ _]]. assert (Hsame : follows m r r /\ log_wf (raft_log_ r)) by (split; [intros H; lia|done]).
  unfold Restore, this in E. rewrite bind_get in E. cbv zeta in E. destruct (_ <? _); [by injection E as _ <-|]. destruct (negb _).
  { apply bind_Ret in E as (? & r1 & E1 & E). injection E as _ <-. apply BecomeFollower_rests in E1. split; [by apply rests_follows|by apply E1]. }
  destruct (negb _); [by injection E as _ <-|]. apply bind_Ret in E as (matches & r1 & E1 & E).
  assert (Hr : r1 = r /\ (matches = true -> MatchTerm (sn_index (m_snapshot m)) (sn_term (m_snapshot m)) (raft_log_ r) = Ret true)).
  { destruct (_ =? _); [|by injection E1 as <- <-]. apply getsO_Ret in E1 as (? & E1 & [= <- ->]). split; [done|]. by intros ->. }
  destruct Hr as [-> Hmt]. destruct matches.
  { apply bind_Ret in E as (? & r2 & E2 & E). injection E as _ <-. eapply (snapshot_matched m); [done|done|by split|done|by apply Hmt|exact E2]. }
  apply bind_Ret in E as ([res t] & r2 & E2 & E). apply getsO_Ret in E2 as (x & _ & [= <- ->]). destruct res; [|by injection E as _ <-].
  apply bind_Ret in E as (res & r2 & E2 & E). destruct (snapshot_taken m r res r2) as [F2 W2]; [done..|].
  assert (Hs2 : state_ r2 <> Leader) by (unfold on_log in E2; apply zoom_Ret in E2 as (? & ? & _ & [= _ ->]); done).
  destruct res; [|by injection E as _ <-]. rewrite bind_modify in E. set (r3 := _ <| progress_tracker_ := t |>) in E.
  apply bind_Ret in E as (cs & r4 & E4 & E). rewrite bind_modify in E. injection E as _ <-.
  assert (R : rests r2 r4) by (transitivity r3; [apply rests_frame; [done|by left]|by eapply PostConfChange_rests]).
  split; [|by apply R]. eapply follows_rests; [exact W2|exact F2|]. etransitivity; [exact R|]. apply rests_frame; [done|by left].
Qed.

Lemma HandleSnapshot_follows m r : m_type m = MsgSnapshot -> 0 <= sn_index (m_snapshot m) < u64max -> node_ok (sn_index (m_snapshot m)) r ->
  state_ r <> Leader -> runs (follows m) r (HandleSnapshot m).
Proof.
  intros Hm Hi Hok Hs a r' E. unfold HandleSnapshot in E. cbv zeta in E. apply bind_Ret in E as (b & r1 & E1 & E).
  destruct (Restore_follows m r Hm Hi Hok Hs _ _ E1) as [F1 W1]. eapply follows_rests; [exact W1|exact F1|].
  revert E. match goal with |- ?f _ = _ -> _ => assert (H' : pres rests f); [|apply H'] end. unfold this. pres_tac rests_leaf.
Qed.

(** ** Messages and calls *)

Lemma ok_follows m (f : M (Raft S) unit) r : runs (follows m) r f -> runs (follows m) r (ok f).
Proof. intros H a r' E. unfold ok in E. apply bind_Ret in E as (x & r1 & E1 & E). injection E as _ <-. by eapply H. Qed.

Lemma calm_runs {A} m (f : M (Raft S) A) r : (forall me, pres (calm me) f) -> runs (follows m) r f.
Proof. intros H a r' E. eapply calm_follows; [reflexivity|]. by eapply H. Qed.

(** The messages of a leader, after what precedes their handler. *)
Lemma leader_message_follows (before : M (Raft S) unit) m r : msg_ok m -> node_ok (reach m) r -> runs (up 0) r before ->
  (forall me, pres (calm me) before) -> (forall a r', before r = Ret (a, r') -> state_ r' <> Leader) ->
  (m_type m = MsgAppend -> runs (follows m) r (ok (before ;;; HandleAppendEntries m))) /\
  (m_type m = MsgHeartbeat -> runs (follows m) r (ok (before ;;; HandleHeartbeat m))) /\
  (m_type m = MsgSnapshot -> runs (follows m) r (ok (before ;;; HandleSnapshot m))).
Proof.
  intros Hm Hok Hu Hcalm Hs. pose proof (reach_pos m Hm). pose proof (mo_snapshot m Hm).
  assert (Hall : forall h, (forall r1, node_ok (reach m) r1 -> state_ r1 <> Leader -> runs (follows m) r1 h) -> runs (follows m) r (ok (before ;;; h))).
  { intros h Hh. apply ok_follows. intros a r' E. apply bind_Ret in E as (x & r1 & E1 & E).
    destruct (Hu _ _ E1) as [Hok1 M1]; [eapply node_ok_weaken; [|exact Hok]; lia|].
    eapply follows_calm; [reflexivity|by eapply Hcalm|]. eapply Hh; [|by eapply Hs|exact E]. eapply (node_ok_after 0); [|exact Hok1|exact M1]. done. }
  split; [|split]; intros Ty; apply Hall; intros r1 Hok1 Hs1; pose proof (ok_log _ _ Hok1) as Hl1.
  - apply HandleAppendEntries_follows; [done|by apply (mo_batch m Hm)|done|done].
  - apply HandleHeartbeat_follows; [done|apply Hl1|done].
  - apply HandleSnapshot_follows; [done|done| |done]. eapply node_ok_weaken; [|exact Hok1]. unfold reach. lia.
Qed.

Lemma StepFollower_follows m r : msg_ok m -> node_ok (reach m) r -> state_ r = Follower -> runs (follows m) r (StepFollower m).
Proof.
  intros Hm Hok Hs. destruct (leader_message_follows (hear_leader m) m r Hm Hok) as (H1 & H2 & H3).
  { apply pres_runs, hear_leader_up. }
  { intros me. unfold hear_leader. pres_tac calm_leaf. }
  { intros a r' E. cbn in E. injection E as _ <-. cbn. by rewrite Hs. }
  intros a r' E. unfold StepFollower, this in E. rewrite bind_get in E. cbv zeta in E. revert a r' E.
  match goal with |- forall a r', ?f r = _ -> _ => change (runs (follows m) r f) end.
  destruct (m_type m) eqn:Ty; try (by apply H1); try (by apply H2); try (by apply H3); try (solve [apply calm_runs; intros me; unfold dropped, ok; pres_tac calm_leaf]).
  destruct (_ || _); [apply calm_runs; intros me; pres_tac calm_leaf|].
  destruct (m_entries m) as [|e []]; [apply calm_runs; intros me; pres_tac calm_leaf| |apply calm_runs; intros me; pres_tac calm_leaf].
  intros a r' E. rewrite bind_modify in E. set (r1 := r <| core_ := _ |>) in E. apply bind_Ret in E as (b & r2 & E2 & E). injection E as _ <-.
  destruct (ok_log _ _ Hok) as [W [C _ _]]. destruct (LogMaybeCommit_follows m (m_index m) (m_term m) r1 b r2) as [F _]; [by split|by cbn; rewrite Hs| |done|exact F].
  intros v Hv. unfold told. by rewrite Ty.
Qed.

Lemma StepCandidate_follows m r : msg_ok m -> node_ok (reach m) r -> state_ r = Candidate \/ state_ r = PreCandidate ->
  (m_term m <> 0 -> m_type m <> MsgRequestPreVote -> m_type m <> MsgRequestPreVoteResponse -> term_ r = m_term m) -> runs (follows m) r (StepCandidate m).
Proof.
  intros Hm Hok Hs Ht. pose proof (mo_leader m Hm) as Hnz.
  assert (Hlead : (m_type m = MsgAppend \/ m_type m = MsgHeartbeat \/ m_type m = MsgSnapshot) -> term_ r = m_term m).
  { intros Ty. apply Ht; [by apply Hnz|by destruct Ty as [->|[->| ->]]..]. }
  assert (Hn : forall a r', BecomeFollower (m_term m) (m_from m) r = Ret (a, r') -> state_ r' <> Leader).
  { intros a r' E. unfold BecomeFollower, this in E. rewrite bind_get in E. apply bind_Ret in E as (? & r1 & _ & E). cbn in E. by injection E as _ <-. }
  assert (Hmsg : term_ r = m_term m ->
    (m_type m = MsgAppend -> runs (follows m) r (ok (BecomeFollower (m_term m) (m_from m) ;;; HandleAppendEntries m))) /\
    (m_type m = MsgHeartbeat -> runs (follows m) r (ok (BecomeFollower (m_term m) (m_from m) ;;; HandleHeartbeat m))) /\
    (m_type m = MsgSnapshot -> runs (follows m) r (ok (BecomeFollower (m_term m) (m_from m) ;;; HandleSnapshot m)))).
  { intros Et. apply leader_message_follows; [done|done|rewrite <- Et; apply runs_follow|intros me; apply BecomeFollower_calm|exact Hn]. }
  assert (Hpoll : vote_message m -> runs (follows m) r (ok (Poll (m_from m) (negb (m_reject m)) ;;; MaybeCommitByVote m))).
  { intros Hv. apply ok_follows. intros a r' E. apply bind_Ret in E as (x & r1 & E1 & E). eapply follows_calm; [reflexivity|by eapply Poll_calm|].
    destruct (Poll_up _ _ _ _ _ E1) as [Hok1 _]; [eapply node_ok_weaken; [|exact Hok]; pose proof (reach_pos m Hm); lia|].
    destruct (ok_log _ _ Hok1) as [W [C _ _]]. by eapply MaybeCommitByVote_follows; [|split|]. }
  unfold StepCandidate. intros a r' E. unfold this in E. rewrite bind_get in E. revert a r' E.
  match goal with |- forall a r', ?f r = _ -> _ => change (runs (follows m) r f) end.
  destruct (m_type m) eqn:Ty; try (solve [apply calm_runs; intros me; unfold dropped, ok; pres_tac calm_leaf]).
  all: try (destruct (Hmsg (Hlead ltac:(auto))) as (H1 & H2 & H3); first [by apply H1 | by apply H2 | by apply H3]).
  all: destruct (_ || _); [apply calm_runs; intros me; pres_tac calm_leaf|apply Hpoll; unfold vote_message; rewrite Ty; auto].
Qed.

Lemma StepVote_follows m r : vote_message m -> sound (raft_log_ r) -> runs (follows m) r (StepVote m).
Proof.
  intros Hv Hl a r' E. unfold StepVote in E. apply bind_Ret in E as (granted & r1 & E1 & E). apply getsO_Ret in E1 as (? & _ & [= <- ->]).
  apply bind_Ret in E as (resp & r1 & E1 & E). apply getsO_Ret in E1 as (? & _ & [= <- ->]). cbv zeta in E. destruct granted.
  { revert E. match goal with |- ?f _ = _ -> _ => assert (H : forall me, pres (calm me) f); [intros me; pres_tac calm_leaf|by apply calm_runs] end. }
  apply bind_Ret in E as ([commit ct] & r1 & E1 & E). apply getsO_Ret in E1 as (? & _ & [= <- ->]). unfold this in E. rewrite bind_get in E.
  apply bind_Ret in E as (? & r1 & E1 & E). eapply follows_calm; [reflexivity|by eapply send_calm|].
  destruct Hl as [W C]. destruct (send_rests _ _ _ _ E1 W) as (W1 & V1 & C1 & _). eapply MaybeCommitByVote_follows; [done| |exact E].
  split; [done|]. by rewrite V1, C1.
Qed.

(** A leader's commit through a message. *)
Definition leads r r' : Prop := committed r < committed r' -> state_ r = Leader /\ state_ r' = Leader /\ term_ r' = term_ r /\ backed_commit r'.

Lemma fine_leads r r' : civic r r' -> fine (committed r) r' -> leads r r'.
Proof. intros Cv (_ & Hs & Hb) H. destruct (cv_leader _ _ Cv Hs) as [? ?]. auto. Qed.

Lemma Step_commits m r : msg_ok m -> node_ok (m_term m + reach m) r -> runs (fun r r' => leads r r' \/ follows m r r') r (Step m).
Proof.
  intros Hm Hok a r' E. pose proof (reach_pos m Hm). pose proof (mo_term m Hm). unfold Step in E. apply bind_Ret in E as (go & r1 & E1 & E).
  destruct (StepTerm_run m r go r1 Hm) as (Hok1 & M1 & Ht); [eapply node_ok_weaken; [|exact Hok]; lia|done|].
  pose proof (StepTerm_civic _ _ _ _ E1) as Cv. pose proof (StepTerm_calm (id_ r) m r go r1 E1) as [_ Hcalm]. specialize (Hcalm eq_refl).
  assert (Hok2 : node_ok (reach m) r1) by (by eapply (node_ok_after (m_term m))).
  assert (Hf : follows m r1 r' -> leads r r' \/ follows m r r') by (intros Hf; right; intros H'; apply Hf; lia).
  destruct go; cbn [negb] in E; [|injection E as _ <-; right; intros H'; lia]. unfold this in E. rewrite bind_get in E.
  assert (Ht' : m_term m <> 0 -> m_type m <> MsgRequestPreVote -> m_type m <> MsgRequestPreVoteResponse -> term_ r1 = m_term m).
  { intros H2 H3 H4. apply Ht; [done|done|]. unfold pre_vote_message. by destruct (m_type m). }
  destruct (ok_log _ _ Hok1) as [W1 [C1 _ _]].
  assert (Hvote : vote_message m -> runs (follows m) r1 (ok (StepVote m))) by (intros Hv; by apply ok_follows, StepVote_follows).
  assert (Hhup : runs (follows m) r1 (ok (when (promotable_ r1) (Hup false)))) by (apply calm_runs; intros me; unfold ok; pres_tac calm_leaf).
  assert (Hrole : (match state_ r1 with PreCandidate | Candidate => StepCandidate m | Follower => StepFollower m | Leader => StepLeader m end) r1 = Ret (a, r') ->
    leads r r' \/ follows m r r').
  { clear E. intros E. destruct (state_ r1) eqn:Hs1; [apply Hf; by eapply StepFollower_follows|apply Hf; eapply StepCandidate_follows; eauto| |apply Hf; eapply StepCandidate_follows; eauto].
    destruct (decide (m_type m = MsgAppendResponse)) as [Ty|Ty]; [left|apply Hf; revert E; apply calm_runs; intros me; by apply StepLeader_calm].
    destruct (cv_leader _ _ Cv Hs1) as [Hs Et]. pose proof (fine_leads r1 r' (StepLeader_civic _ _ _ _ E)) as Hl. intros H'.
    destruct Hl as (_ & Hs' & Et' & Hb); [|lia|]; [|by rewrite Et', Et].
    unfold StepLeader in E. rewrite Ty in E. unfold ok in E. apply bind_Ret in E as (? & r2 & E2 & E). injection E as _ <-.
    eapply HandleAppendResponse_keeps; [exact E2|]. by apply leader_fine. }
  destruct (m_type m) eqn:T; try (by apply Hrole); apply Hf; revert E; first [apply Hhup | apply Hvote; unfold vote_message; rewrite T; auto].
Qed.

(** The calls with which a leader commits do nothing of the kind elsewhere. *)
Lemma not_leader r : state_ r <> Leader -> is_role Leader r = false.
Proof. intros Hs. unfold is_role. by apply bool_decide_eq_false_2. Qed.

Lemma OnPersistEntries_rests index term r : state_ r <> Leader -> runs rests r (OnPersistEntries index term).
Proof.
  intros Hs a r' E. unfold OnPersistEntries in E. apply bind_Ret in E as (update & r1 & E1 & E).
  assert (R : rests r r1) by (revert E1; apply on_log_rests; [apply MaybePersist_kept|apply MaybePersist_even]).
  assert (Hs1 : state_ r1 <> Leader) by (unfold on_log in E1; apply zoom_Ret in E1 as (? & ? & _ & [= _ ->]); done).
  unfold this in E. rewrite bind_get, (not_leader _ Hs1), andb_false_r in E. by injection E as _ <-.
Qed.

Lemma ApplyConfChange_rests cc r : state_ r <> Leader -> runs rests r (ApplyConfChange cc).
Proof.
  intros Hs a r' E. unfold ApplyConfChange in E. apply bind_Ret in E as (t & r0 & E0 & E). injection E0 as <- <-. cbv zeta in E.
  destruct (if cc_LeaveJoint cc then _ else _) as [[cfg changes]|]; [|by injection E as _ <-].
  apply bind_Ret in E as (last & r1 & E1 & E). apply getsO_Ret in E1 as (? & _ & [= <- ->]). apply bind_Ret in E as (? & r1 & E1 & E).
  unfold on_tracker in E1. apply zoom_Ret in E1 as (? & t & _ & [= _ ->]). apply bind_Ret in E as (cs & r2 & E2 & E). injection E as _ <-.
  transitivity (r <| progress_tracker_ := t |>); [apply rests_frame; [done|by left]|]. by eapply PostConfChange_rests.
Qed.

Lemma EnableGroupCommit_rests b r : state_ r <> Leader -> runs rests r (EnableGroupCommit b).
Proof.
  intros Hs a r' E. unfold EnableGroupCommit, on_tracker in E. apply bind_Ret in E as (? & r1 & E1 & E). apply zoom_Ret in E1 as (? & t & _ & [= _ ->]).
  unfold this in E. rewrite bind_get, not_leader in E by done. cbn in E. injection E as _ <-. apply rests_frame; [done|by left].
Qed.

Lemma AssignCommitGroups_rests ids r : state_ r <> Leader -> runs rests r (AssignCommitGroups ids).
Proof.
  intros Hs a r' E. unfold AssignCommitGroups in E. apply bind_Ret in E as (? & r1 & E1 & E).
  match type of E1 with ?f r = _ => assert (H : pres rests f) by (unfold this; pres_tac rests_leaf) end.
  intros W. destruct (H _ _ _ E1 W) as (W1 & V1 & C1 & Hs1). unfold this in E. rewrite bind_get, not_leader in E by auto. by injection E as _ <-.
Qed.

Lemma rests_leads r r' : log_wf (raft_log_ r) -> rests r r' -> leads r r'.
Proof. intros W R Hc. destruct (R W) as (_ & _ & E & _). lia. Qed.

(** A call with which a leader may commit. *)
Lemma leader_call (m : M (Raft S) unit) r a r' : sound (raft_log_ r) -> m r = Ret (a, r') -> pres civic m ->
  (state_ r = Leader -> fine (committed r) r') -> (state_ r <> Leader -> rests r r') -> leads r r'.
Proof.
  intros Hl E Hv Hf Hr. destruct (decide (state_ r = Leader)) as [Hs|Hs]; [|apply rests_leads; [apply Hl|auto]].
  apply fine_leads; [by eapply Hv|auto].
Qed.

Lemma handle_commits i r : input_ok i r -> node_ok (Z.max 0 (input_reach i)) r ->
  runs (fun r r' => leads r r' \/ exists m, i = InStep m /\ follows m r r') r (handle i).
Proof.
  intros Hi Hok [] r' E. assert (Hl : sound (raft_log_ r)) by (destruct (ok_log _ _ Hok) as [W [C _ _]]; by split).
  assert (Hcalm : (forall me, pres (calm me) (handle i)) -> leads r r').
  { intros H Hc. destruct (H (id_ r) _ _ _ E) as [_ Hle]. specialize (Hle eq_refl). lia. }
  pose proof (leader_fine r Hl) as Hf. destruct i; cbn [handle input_ok input_reach] in *;
    try (left; apply Hcalm; intros me;
      unfold ignore, OnPersistSnapshot, Ping, BroadcastHeartbeat, SetPriority, ReduceUncommittedSize, on_uncommitted, MaybeFreeInflightBuffers,
        AdjustMaxInflightMsgs, each_peer, this; pres_tac calm_leaf; fail).
  - unfold ignore in E. apply bind_Ret in E as (x & r1 & E1 & E). injection E as <-.
    destruct (Step_commits m r Hi) with x r1 as [H|H]; [eapply node_ok_weaken; [|exact Hok]; lia|done|by left|right; eauto].
  - left. eapply leader_call; [done|exact E|apply OnPersistEntries_civic|intros Hs; eapply OnPersistEntries_keeps; eauto|intros Hs; by eapply OnPersistEntries_rests].
  - left. unfold ignore in E. pose proof E as E'. apply bind_Ret in E' as (x & r1 & E1 & E'). injection E' as <-.
    eapply leader_call; [done|exact E| |intros Hs; by eapply ApplyConfChange_fine|intros Hs; by eapply ApplyConfChange_rests].
    apply pres_bind; [typeclasses eauto|apply ApplyConfChange_civic|intros ?; pres_tac civic_leaf].
  - left. eapply leader_call; [done|exact E| |intros Hs; eapply EnableGroupCommit_keeps; eauto|intros Hs; by eapply EnableGroupCommit_rests].
    unfold EnableGroupCommit, commit_and_broadcast, this. pres_tac civic_leaf.
  - left. eapply leader_call; [done|exact E| |intros Hs; eapply AssignCommitGroups_keeps; eauto|intros Hs; by eapply AssignCommitGroups_rests].
    unfold AssignCommitGroups, commit_and_broadcast, this. pres_tac civic_leaf.
Qed.

(** What an input adds to the acknowledgements of a node. *)
Definition credit (i : Input) r (p : Z) : Z :=
  match i with
  | InStep m => if bool_decide (m_type m = MsgAppendResponse /\ m_reject m = false /\ state_ r = Leader /\
                                (m_term m = 0 \/ m_term m = term_ r) /\ m_from m = p) then m_index m else 0
  | _ => 0
  end.

Lemma credit_message i r p : 0 < credit i r p -> exists m, i = InStep m /\ m_type m = MsgAppendResponse /\ m_from m = p /\ m_reject m = false /\
  state_ r = Leader /\ (m_term m = 0 \/ m_term m = term_ r) /\ credit i r p = m_index m.
Proof. destruct i; cbn; try lia. case_bool_decide as H; [|lia]. intros _. exists m. destruct H as (? & ? & ? & ? & ?). done. Qed.

(** C3: The rule of commitment.  Let a node that satisfies its invariant handle
    a call with arguments in range.  If its commit index rises, then either it
    was leader before and is leader of the same term afterwards, the entry at
    the new index is of that term, and a quorum of its voters, of both halves of
    a joint configuration, has acknowledged the index; or it is not leader
    afterwards and the call is a message that tells it the index: an append, and
    the index is at most the one it names and within its entries, which are in
    the log then; or another message, and the index is the one it names, at an
    entry of the term it names (a heartbeat names none).  If a leader's record of
    the index another node has acknowledged rises, then the call is an append
    response from that node that rejects nothing and has the leader's term or
    none, and the record is not above the index it names. *)
Theorem commit_rule i r r' : input_ok i r -> node_ok (Z.max 0 (input_reach i)) r -> handle i r = Ret (tt, r') ->
  (committed r < committed r' ->
     state_ r = Leader /\ state_ r' = Leader /\ term_ r' = term_ r /\ backed_commit r' \/
     exists m, i = InStep m /\ state_ r' <> Leader /\ told m (committed r') (view r')) /\
  (forall p, p <> id_ r -> matched_of r p < matched_of r' p -> exists m, i = InStep m /\ m_type m = MsgAppendResponse /\ m_from m = p /\
     m_reject m = false /\ state_ r = Leader /\ (m_term m = 0 \/ m_term m = term_ r) /\ matched_of r' p <= m_index m).
Proof.
  intros Hi Hok E. split.
  - intros Hc. destruct (handle_commits i r Hi Hok _ _ E) as [H|(m & -> & H)]; [left; auto|right; exists m]. destruct (H Hc). auto.
  - intros p Hp Hm. assert (H0 : 0 <= matched_of r p).
    { unfold matched_in, acked, AckedIndex. destruct (progress_ (progress_tracker_ r) !! p) as [q|] eqn:Eq; [|cbn; lia].
      destruct (ok_peers _ _ Hok) as [Ha _]. apply (Ha p q Eq). }
    destruct (handle_learns (id_ r) (credit i r) i r Hi Hok) with tt r' as [_ Hb]; [|done|done|].
    { intros m -> Ty Hrej Hs Ht. cbn. by rewrite bool_decide_true. }
    specialize (Hb p Hp). destruct (credit_message i r p) as (m & Ei & Ty & Hf & Hrej & Hs & Ht & Ec); [lia|]. exists m.
    do 6 (split; [done|]). lia.
Qed.
End CommitRule.

(** ** Witness

    The leader of [NodeSafety] hears that nodes 2 and 3 have entry 4, which is
    committed although the leader has not written it yet. *)
Definition commit_ack (from : Z) : Message :=
  empty_message <| m_type := MsgAppendResponse |> <| m_from := from |> <| m_term := 2 |> <| m_index := 4 |>.

Lemma commit_ack_ok from : msg_ok (commit_ack from).
Proof. constructor; cbn; unfold u64max; (lia || intuition congruence). Qed.

Definition acked_node : Raft MemoryStorage :=
  match handle (InStep (commit_ack 2)) example_node with Ret (_, r) => r | Abort _ => example_node end.

Lemma acked_node_ok : node_ok 10 acked_node.
Proof.
  destruct (handle_up (InStep (commit_ack 2)) example_node (commit_ack_ok 2) tt acked_node) as [Hok M].
  - vm_compute. reflexivity.
  - eapply (node_ok_weaken _ 1000); [vm_compute; congruence|exact example_node_ok_at].
  - eapply (node_ok_after (input_reach (InStep (commit_ack 2))) 10); [eapply (node_ok_weaken _ 1000); [vm_compute; congruence|exact example_node_ok_at]|exact Hok|].
    exact M.
Qed.

Lemma commit_rule_witness : exists r, handle (InStep (commit_ack 3)) acked_node = Ret (tt, r) /\
  committed_ (raft_log_ acked_node) = 2 /\ committed_ (raft_log_ r) = 4 /\ backed_commit r.
Proof.
  eexists. split; [vm_compute; reflexivity|]. split; [vm_compute; reflexivity|]. split; [vm_compute; reflexivity|].
  match goal with |- backed_commit ?r => destruct (commit_rule (InStep (commit_ack 3)) acked_node r) as [H _] end;
    [exact (commit_ack_ok 3)|eapply (node_ok_weaken _ 10); [vm_compute; congruence|exact acked_node_ok]|vm_compute; reflexivity|].
  destruct H as [(_ & _ & _ & H)|(m & _ & H & _)]; [vm_compute; reflexivity|exact H|].
  exfalso. apply H. vm_compute. reflexivity.
Defined.
