(* ===== verification/Cluster.v ===== *)
(** * Elections in a cluster

    Several nodes, each the [Raft] of the code, that call each other through a
    network which loses, repeats, delays and reorders messages.  A node sends
    what it has queued after its hard state is stored, as the driver does, and
    may crash at any point and start again from what is stored.  Whatever else
    happens, no term has two leaders. *)

From S2P Require Import Prelude Types Util Inflights Progress Quorum Tracker ConfChange Storage MemStorage Unstable ReadOnly Config RaftLog RaftLogProps RaftCore RaftSend LogSafety Raft NodeInv NodeStart NodeSafety Elections.

(** A node, its hard state in the storage, and all it ever sent. *)
Record Member (S : Type) := mkMember {
  mb_raft : Raft S;
  mb_stored : HardState;
  mb_sent : list Message
}.
Arguments mkMember {S}.
Arguments mb_raft {S}.
Arguments mb_stored {S}.
Arguments mb_sent {S}.

Abbreviation Cluster S := (gmap Z (Member S)).

(** What happens: a call of a node, the sending of its messages, a crash and a
    new start. *)
Inductive Event (S : Type) :=
| EvCall (n : Z) (i : Input)
| EvSend (n : Z)
| EvRestart (n : Z) (config : Config) (store : S) (draws : nat).
Arguments EvCall {S}.
Arguments EvSend {S}.
Arguments EvRestart {S}.

Definition event_reach {S} (e : Event S) : Z :=
  match e with EvCall _ i => Z.max 0 (input_reach i) | _ => 0 end.

Fixpoint events_reach {S} (evs : list (Event S)) : Z :=
  match evs with
  | [] => 0
  | e :: evs => event_reach e + events_reach evs
  end.

Lemma events_reach_nonneg {S} (evs : list (Event S)) : 0 <= events_reach evs.
Proof. induction evs as [|[]]; cbn; lia. Qed.

Section Cluster.
Context {ENV : Env} {S : Type} {ST : Storage S} {SL : StorageLaws S}.
Context (conf : JointConfiguration).

(** A grant that is delivered was sent by a member, to the node that gets it.
    All other messages are arbitrary. *)
Definition delivered (C : Cluster S) (n : Z) (m : Message) : Prop :=
  is_grant m = true -> m_to m = n /\ exists v mb, C !! v = Some mb /\ m ∈ mb_sent mb.

(** A run in which the voters do not change.  A node that starts again has the
    stored hard state and room for the rest of the run and [k] more. *)
Inductive cluster_run (k : Z) : list (Event S) -> Cluster S -> Cluster S -> Prop :=
| cr_nil C : cluster_run k [] C C
| cr_call n i evs C C' mb r :
    C !! n = Some mb -> input_ok i (mb_raft mb) -> (forall m, i = InStep m -> delivered C n m) ->
    handle i (mb_raft mb) = Ret (tt, r) -> voters_of r = conf ->
    cluster_run k evs (<[n := mkMember r (mb_stored mb) (mb_sent mb)]> C) C' -> cluster_run k (EvCall n i :: evs) C C'
| cr_send n evs C C' mb :
    C !! n = Some mb ->
    cluster_run k evs (<[n := mkMember ((mb_raft mb) <| messages_ := [] |>) (hard_state (mb_raft mb))
                              (mb_sent mb ++ messages_ (mb_raft mb))]> C) C' -> cluster_run k (EvSend n :: evs) C C'
| cr_restart n config store draws evs C C' mb rs r :
    C !! n = Some mb -> config_ok config -> c_id config = n -> c_load_state_on_startup config = true ->
    st_inv store -> InitialState store = Ok rs -> rs_hard_state rs = mb_stored mb ->
    c_applied config <= start_commit config rs (st_view store) -> v_last (st_view store) + (events_reach evs + k) < u64max ->
    Raft.new config store draws = Ret r -> voters_of r = conf ->
    cluster_run k evs (<[n := mkMember r (mb_stored mb) (mb_sent mb)]> C) C' ->
    cluster_run k (EvRestart n config store draws :: evs) C C'.

(** Nodes that have not sent anything yet, with room for a run. *)
Definition cluster_start (k : Z) (C : Cluster S) : Prop :=
  forall n mb, C !! n = Some mb ->
    node_ok k (mb_raft mb) /\ id_ (mb_raft mb) = n /\ n <> kInvalidId /\ voters_of (mb_raft mb) = conf /\
    state_ (mb_raft mb) = Follower /\ messages_ (mb_raft mb) = [] /\ mb_stored mb = hard_state (mb_raft mb) /\ mb_sent mb = [].

Definition leads (C : Cluster S) (n t : Z) : Prop :=
  exists mb, C !! n = Some mb /\ state_ (mb_raft mb) = Leader /\ term_ (mb_raft mb) = t.

(** ** The invariant *)

Definition cast_of (C : Cluster S) (v c t : Z) : Prop :=
  exists mb g, C !! v = Some mb /\ g ∈ ballots (mb_sent mb) /\ m_to g = c /\ m_term g = t.

(** [oath n] are grants that node [n] is held to as if it had sent them. *)
Definition bound (oath : Z -> list Message) (n : Z) (mb : Member S) : list Message := oath n ++ mb_sent mb.

Record member_ok (oath : Z -> list Message) (k : Z) (C : Cluster S) (n : Z) (mb : Member S) : Prop := {
  mk_good : good conf (cast_of C) (bound oath n mb) k (mb_raft mb);
  mk_id : id_ (mb_raft mb) = n;
  mk_term : 0 <= hs_term (mb_stored mb) /\ hs_term (mb_stored mb) + k < u64max;
  mk_stored g : g ∈ ballots (bound oath n mb) -> (m_from g = n /\ m_term g <> 0) /\
    (m_to g <> kInvalidId -> m_term g < hs_term (mb_stored mb) \/ m_term g = hs_term (mb_stored mb) /\ hs_vote (mb_stored mb) = m_to g)
}.

Definition cluster_inv (oath : Z -> list Message) (k : Z) (C : Cluster S) : Prop :=
  forall n mb, C !! n = Some mb -> member_ok oath k C n mb.

Lemma seat_mono (cast cast' : Z -> Z -> Z -> Prop) sent (r : Raft S) : (forall v c t, cast v c t -> cast' v c t) ->
  seat conf cast sent r -> seat conf cast' sent r.
Proof.
  intros Hc [Sb Su Sc Sl]. constructor; [done|done| |].
  - intros Hs. destruct (Sc Hs) as [Hv Hk]. split; [done|]. intros v Ev. destruct (Hk v Ev); [by left|right; auto].
  - intros Hs. destruct (Sl Hs) as (Hv & Q & HQ & Hk). split; [done|]. exists Q. split; [done|]. intros v Hq. destruct (Hk v Hq); [by left|right; auto].
Qed.

(** The other members, after a step of one. *)
Lemma member_mono oath a k C C' n mb : 0 <= a -> (forall v c t, cast_of C v c t -> cast_of C' v c t) ->
  member_ok oath (a + k) C n mb -> member_ok oath k C' n mb.
Proof.
  intros Ha Hc [[Hok Hid Hcf Hs] Hi Ht Hst]. constructor; [|done|lia|done].
  constructor; [eapply node_ok_weaken; [|exact Hok]; lia|done|done|by eapply seat_mono].
Qed.

(** One member steps, and what it sent stays sent. *)
Lemma cast_insert C n mb mb' : C !! n = Some mb -> (forall g, g ∈ mb_sent mb -> g ∈ mb_sent mb') ->
  forall v c t, cast_of C v c t -> cast_of (<[n := mb']> C) v c t.
Proof.
  intros Hn Hsent v c t (mv & g & Hv & Hg & Ht). unfold ballots in Hg. apply list_elem_of_filter in Hg as [Hg Hg'].
  destruct (decide (v = n)) as [->|Hne].
  - exists mb', g. rewrite lookup_insert_eq. split; [done|]. split; [|done]. apply list_elem_of_filter. split; [done|]. apply Hsent. congruence.
  - exists mv, g. rewrite lookup_insert_ne by done. split; [done|]. split; [|done]. by apply list_elem_of_filter.
Qed.

Lemma step_inv oath a k C n mb mb' : 0 <= a -> cluster_inv oath (a + k) C -> C !! n = Some mb ->
  (forall g, g ∈ mb_sent mb -> g ∈ mb_sent mb') -> member_ok oath k C n mb' -> cluster_inv oath k (<[n := mb']> C).
Proof.
  intros Ha Hinv Hn Hsent Hmb.
  pose proof (cast_insert C n mb mb' Hn Hsent) as Hc.
  intros x mx Hx. destruct (decide (x = n)) as [->|Hne].
  - rewrite lookup_insert_eq in Hx. injection Hx as <-. by apply (member_mono oath 0 k C).
  - rewrite lookup_insert_ne in Hx by done. eapply member_mono; [exact Ha|exact Hc|]. by apply Hinv.
Qed.

Lemma call_inv oath k C n i mb r : 0 <= k -> cluster_inv oath (Z.max 0 (input_reach i) + k) C -> C !! n = Some mb ->
  input_ok i (mb_raft mb) -> (forall m, i = InStep m -> delivered C n m) -> handle i (mb_raft mb) = Ret (tt, r) -> voters_of r = conf ->
  cluster_inv oath k (<[n := mkMember r (mb_stored mb) (mb_sent mb)]> C).
Proof.
  intros Hk Hinv Hn Hi Hd E Hv. apply (step_inv oath (Z.max 0 (input_reach i)) k C n mb); [lia|done|done|done|].
  destruct (Hinv n mb Hn) as [Hg Hid Ht Hst]. pose proof Hg as [Hok Hnz Hcf _].
  set (a := Z.max 0 (input_reach i)) in *. assert (Ha : 0 <= a) by lia.
  assert (Hok' : node_ok a (mb_raft mb)) by (eapply node_ok_weaken; [|exact Hok]; lia).
  destruct (handle_up i (mb_raft mb) Hi _ _ E Hok') as [Hok1 M1].
  assert (Hcast : forall m, i = InStep m -> is_grant m = true -> m_term m <> 0 /\ cast_of C (m_from m) (id_ (mb_raft mb)) (m_term m)).
  { intros m Em Hm. destruct (Hd m Em Hm) as (Hto & v & mv & Hv' & Hin). destruct (Hinv v mv Hv') as [_ _ _ Hsv].
    assert (Hb : m ∈ ballots (mb_sent mv)) by (by apply list_elem_of_filter).
    destruct (Hsv m) as [[Hf Hz] _]; [unfold bound; rewrite ballots_app; apply elem_of_app; by right|].
    split; [done|]. exists mv, m. rewrite Hf, Hid. done. }
  constructor; cbn; [|by rewrite (mv_id _ _ _ M1)|lia|exact Hst].
  constructor; [by eapply node_ok_after|by rewrite (mv_id _ _ _ M1)|done|].
  eapply (handle_sits conf (cast_of C) (bound oath n mb) i (mb_raft mb) Hi Hcast _ _ E). destruct Hg. by constructor.
Qed.

Lemma send_inv oath k C n mb : 0 <= k -> cluster_inv oath k C -> C !! n = Some mb ->
  cluster_inv oath k (<[n := mkMember ((mb_raft mb) <| messages_ := [] |>) (hard_state (mb_raft mb)) (mb_sent mb ++ messages_ (mb_raft mb))]> C).
Proof.
  intros Hk Hinv Hn. apply (step_inv oath 0 k C n mb); [lia|done|done|intros g Hg; cbn; apply elem_of_app; by left|].
  destruct (Hinv n mb Hn) as [[Hok Hnz Hcf [Sb Su Sc Sl]] Hid Ht Hst].
  constructor; cbn; [|done|destruct Hok; lia|].
  - constructor; [by destruct Hok; constructor|done|done|]. unfold bound in *. cbn.
    constructor; cbn; rewrite ?app_nil_r, ?app_assoc; [exact Sb|exact Su|exact Sc|exact Sl].
  - intros g Hg. unfold bound in *. cbn in Hg. rewrite app_assoc in Hg. rewrite <- Hid. exact (Sb g Hg).
Qed.

(** ** A node that starts again *)

(** A node under construction with vote [v]. *)
Definition quiet (config : Config) (v : Z) (r : Raft S) : Prop :=
  id_ r = c_id config /\ messages_ r = [] /\ state_ r = Follower /\ vote_ r = v /\ batch_append_ r = c_batch_append config.

Lemma quiet_frame config v (r r' : Raft S) : id_ r' = id_ r -> messages_ r' = messages_ r -> state_ r' = state_ r -> vote_ r' = vote_ r ->
  batch_append_ r' = batch_append_ r -> quiet config v r -> quiet config v r'.
Proof. intros E1 E2 E3 E4 E5 (?&?&?&?&?). unfold quiet. rewrite E1, E2, E3, E4, E5. done. Qed.

Lemma LoadState_quiet config hs v (r : Raft S) a r' : LoadState hs r = Ret (a, r') -> quiet config v r -> quiet config (hs_vote hs) r'.
Proof.
  intros E (?&?&?&?&?). unfold LoadState, this in E. rewrite bind_get in E. apply bind_Ret in E as (last & r1 & E1 & E).
  apply getsO_Ret in E1 as (x & _ & [= -> ->]). destruct (_ || _); [done|]. cbn in E. by injection E as _ <-.
Qed.

Lemma apply_quiet config applied v (r : Raft S) a r' : CommitApplyInternal applied true r = Ret (a, r') -> quiet config v r -> quiet config v r'.
Proof.
  intros E Hq. unfold CommitApplyInternal, this in E. rewrite bind_get in E. cbn [negb] in E.
  apply bind_Ret in E as (? & r1 & E1 & E). apply bind_Ret in E1 as (? & r2 & E2 & E1).
  apply assert_Ret in E2 as [_ [= -> ->]]. injection E1 as _ <-. rewrite bind_get in E.
  match type of E with (if ?b then _ else _) _ = _ => assert (Hb : b = false) end.
  { unfold is_role. cbn. destruct Hq as (_&_&Hf&_&_). rewrite Hf. by rewrite andb_false_r. }
  rewrite Hb in E. injection E as _ <-. by revert Hq; apply quiet_frame.
Qed.

Lemma BecomeFollower_queue term leader :
  pres (fun r r' : Raft S => messages_ r' = messages_ r /\ batch_append_ r' = batch_append_ r) (BecomeFollower term leader).
Proof.
  assert (PreOrder (fun r r' : Raft S => messages_ r' = messages_ r /\ batch_append_ r' = batch_append_ r))
    by (split; [done|intros ??? [] []; split; congruence]).
  unfold BecomeFollower, Reset, reset_term, reset_role, reset_peers, ResetRandomizedElectionTimeout, AbortLeaderTransfer, each_peer, on_tracker, on_log, this.
  pres_tac ltac:(first [by apply pres_modify | by apply pres_zoom | let E := fresh in intros ? ? ? E; unfold on_progress in E;
    destruct (get_progress _ _) as [pr|]; [|done]; revert E; match goal with |- context [match ?x with _ => _ end] => destruct x as [[]|] end; [|done]; by intros [= _ <-]]).
Qed.

Lemma BecomeFollower_quiet config leader v (r : Raft S) a r' : BecomeFollower (term_ r) leader r = Ret (a, r') ->
  quiet config v r -> quiet config v r'.
Proof.
  intros E (Hi & Hb & Hf & Hv & Hba). destruct (BecomeFollower_civic _ _ _ _ _ E) as [[_ Hi'] _ _].
  destruct (BecomeFollower_queue _ _ _ _ _ E) as [Hm Hbm].
  unfold BecomeFollower, this in E. rewrite bind_get in E. cbv zeta in E. apply bind_Ret in E as (? & r1 & E1 & E).
  unfold Reset in E1. apply bind_Ret in E1 as (? & r2 & E2 & E1). unfold reset_term, this in E2. rewrite bind_get, Z.eqb_refl in E2.
  injection E2 as _ <-. apply bind_Ret in E1 as (? & r3 & E3 & E1). destruct (reset_role_hs _ _ _ E3) as [_ V3 _ _].
  destruct (reset_peers_hs _ _ _ E1) as [_ V1 _ _]. rewrite !bind_modify in E. injection E as _ <-.
  split; [congruence|]. split; [congruence|]. split; [done|]. cbn in *. split; congruence.
Qed.

(** The node the constructor returns votes as its storage says. *)
Lemma new_node_quiet config store draws rs r : st_inv store -> InitialState store = Ok rs -> c_load_state_on_startup config = true ->
  Raft.new config store draws = Ret r -> quiet config (hs_vote (rs_hard_state rs)) r.
Proof.
  intros Hi Hrs Hl E. unfold Raft.new in E. destruct (RaftCore.new config store) as [core|] eqn:Ec; [|done].
  cbn [obind] in E. apply obind_Ret in E as ([a r1] & E & [= ->]). unfold construct in E.
  destruct (Validate config) as [[]|] eqn:Hv; [|done]. rewrite bind_ret in E.
  assert (Hq : quiet config 0 (built config core draws) /\ store_ (raft_log_ core) = store).
  { unfold RaftCore.new in Ec. destruct (RaftLog.new config store) as [l|] eqn:El; [|done]. injection Ec as <-.
    split; [done|]. by destruct (log_new_ok _ _ _ Hi El) as (_ & Hs & _). }
  destruct Hq as [Hq Hst]. change (mkRaft core _ _ _ _) with (built config core draws) in E. unfold this in E. rewrite bind_get in E.
  unfold GetInitialState in E. change (raft_log_ (built config core draws)) with (raft_log_ core) in E.
  rewrite Hst, Hrs, bind_ret in E. apply bind_Ret in E as (last & r2 & E1 & E). apply getsO_Ret in E1 as (x & _ & [= <- ->]).
  apply bind_Ret in E as (restored & r2 & E1 & E). apply zoom_Ret in E1 as (y & t & E1 & [= -> ->]).
  destruct y as [?|]; [|done]. rewrite bind_ret in E.
  apply bind_Ret in E as (cs & r3 & E3 & E). rewrite PostConfChange_follower in E3 by apply Hq. injection E3 as <- <-.
  match type of E with ?f ?x = _ => set (r3 := x) in E end.
  assert (H3 : quiet config 0 r3) by done. clearbody r3.
  apply bind_Ret in E as (? & r4 & E4 & E). apply assert_Ret in E4 as [_ [= -> ->]].
  apply bind_Ret in E as (? & r5 & E5 & E). rewrite Hl in E5.
  assert (H5 : quiet config (hs_vote (rs_hard_state rs)) r5).
  { cbn [andb] in E5. destruct (decide (rs_hard_state rs = empty_hard_state)) as [Ee|Ee].
    - rewrite bool_decide_true in E5 by done. injection E5 as _ <-. by rewrite Ee.
    - rewrite bool_decide_false in E5 by done. exact (LoadState_quiet _ _ _ _ _ _ E5 H3). }
  apply bind_Ret in E as (? & r6 & E6 & E).
  assert (H6 : quiet config (hs_vote (rs_hard_state rs)) r6).
  { destruct (0 <? c_applied config); [by eapply apply_quiet|]. by injection E6 as _ <-. }
  rewrite bind_get in E. by eapply BecomeFollower_quiet.
Qed.

Lemma start_term_stored config rs : c_load_state_on_startup config = true -> start_term config rs = hs_term (rs_hard_state rs).
Proof.
  intros Hl. unfold start_term. rewrite Hl. destruct (decide (rs_hard_state rs = empty_hard_state)) as [Ee|Ee].
  - rewrite bool_decide_true by done. by rewrite Ee.
  - by rewrite bool_decide_false.
Qed.

(** Grants that the stored hard state covers, in a node that has it. *)
Lemma restart_inv oath k C n mb config store draws rs r : 0 <= k -> cluster_inv oath k C -> C !! n = Some mb ->
  config_ok config -> c_id config = n -> c_load_state_on_startup config = true ->
  st_inv store -> InitialState store = Ok rs -> rs_hard_state rs = mb_stored mb ->
  c_applied config <= start_commit config rs (st_view store) -> v_last (st_view store) + k < u64max ->
  Raft.new config store draws = Ret r -> voters_of r = conf -> cluster_inv oath k (<[n := mkMember r (mb_stored mb) (mb_sent mb)]> C).
Proof.
  intros Hk Hinv Hn Hco Hid Hl Hi Hrs Hhs Ha Hroom E Hv. apply (step_inv oath 0 k C n mb); [lia|done|done|done|].
  destruct (Hinv n mb Hn) as [[_ Hnz _ [_ Su _ _]] Hidm Ht Hst].
  destruct (new_node_started config store draws rs r Hco Hi Hrs ltac:(rewrite Hhs; lia) Ha E) as (Hok & _ & Hview & _ & Htm).
  destruct (new_node_quiet config store draws rs r Hi Hrs Hl E) as (Hqi & Hqb & Hqs & Hqv & _).
  rewrite start_term_stored, Hhs in Htm by done. rewrite Hhs in Hqv.
  constructor; cbn; [|congruence|done|exact Hst]. unfold bound in *. cbn.
  constructor; [|congruence|done|].
  - destruct Hok. constructor; try done; [lia|]. by rewrite Hview.
  - assert (Hb : ballots ((oath n ++ mb_sent mb) ++ messages_ r) = ballots (oath n ++ mb_sent mb)).
    { by rewrite Hqb, app_nil_r. }
    constructor; rewrite ?Hb, ?Hqs; [|..|done|done].
    + intros g Hg. unfold kept. rewrite Hqi, Hid, Htm, Hqv. by apply Hst.
    + intros g1 g2 H1 H2. apply Su; rewrite ballots_app; apply elem_of_app; by left.
Qed.

(** ** Runs *)

Lemma run_inv oath k evs C C' : 0 <= k -> cluster_run k evs C C' -> cluster_inv oath (events_reach evs + k) C -> cluster_inv oath k C'.
Proof.
  intros Hk Hrun. induction Hrun as [C|n i evs C C' mb r Hn Hi Hd E Hv _ IH|n evs C C' mb Hn _ IH
    |n config store draws evs C C' mb rs r Hn Hco Hid Hl Hst Hrs Hhs Ha Hroom E Hv _ IH]; intros Hinv; cbn [events_reach event_reach] in Hinv.
  - done.
  - pose proof (events_reach_nonneg evs). apply IH. rewrite <- Z.add_assoc in Hinv. eapply call_inv; [lia|done..].
  - pose proof (events_reach_nonneg evs). apply IH. apply send_inv; [lia|done..].
  - pose proof (events_reach_nonneg evs). apply IH. eapply restart_inv; [lia|done..].
Qed.

Lemma start_inv k C : 0 <= k -> cluster_start k C -> cluster_inv (fun _ => []) k C.
Proof.
  intros Hk Hs n mb Hn. destruct (Hs n mb Hn) as (Hok & Hid & Hnz & Hv & Hf & Hm & Hst & Hsent).
  constructor; unfold bound; cbn; rewrite ?Hsent; [|done|rewrite Hst; destruct Hok; cbn; lia|intros g Hg; by apply elem_of_nil in Hg].
  constructor; [done|congruence|done|]. constructor; rewrite ?Hm, ?Hf; cbn; [intros g Hg; by apply elem_of_nil in Hg| |done|done].
  intros g1 g2 Hg. by apply elem_of_nil in Hg.
Qed.

(** A leader's vote for itself, as a grant. *)
Definition self_vote (n t : Z) : Message :=
  empty_message <| m_type := MsgRequestVoteResponse |> <| m_from := n |> <| m_to := n |> <| m_term := t |>.

(** A node that votes for itself in its term, with that stored, can be held to
    the vote. *)
Lemma pledge_inv k C n mb t : cluster_inv (fun _ => []) k C -> C !! n = Some mb -> t <> 0 ->
  term_ (mb_raft mb) = t -> vote_ (mb_raft mb) = n -> hs_term (mb_stored mb) = t -> hs_vote (mb_stored mb) = n ->
  cluster_inv (fun x => if decide (x = n) then [self_vote n t] else []) k C.
Proof.
  intros Hinv Hn Ht Htm Hvt Hst Hsv x mx Hx. destruct (decide (x = n)) as [->|Hne].
  2:{ destruct (Hinv x mx Hx) as [[Hok Hnz Hcf Hs] Hi Hr Hsr]. unfold bound in *.
      constructor; unfold bound; [|done|done|]; destruct (decide (x = n)); [done| |done|]; done. }
  assert (mx = mb) as -> by congruence. destruct (Hinv n mb Hx) as [[Hok Hnz Hcf [Sb Su Sc Sl]] Hi Hr Hsr].
  assert (Hb : forall ms g, g ∈ ballots ([self_vote n t] ++ ms) -> g = self_vote n t \/ g ∈ ballots ms).
  { intros ms g Hg. rewrite ballots_app in Hg. apply elem_of_app in Hg as [Hg|Hg]; [left|by right].
    unfold ballots in Hg. apply list_elem_of_filter in Hg as [_ Hg]. by apply list_elem_of_singleton in Hg. }
  constructor; [|done|done|]; unfold bound in *; rewrite decide_True by done; cbn [app] in *.
  - constructor; [done|done|done|]. constructor; [| |done|done].
    + intros g Hg. apply Hb in Hg as [->|Hg]; [|by apply Sb]. unfold kept. cbn. rewrite Hi. split; [done|]. intros _. by right.
    + intros g1 g2 H1 H2 Het Hz1 Hz2.
      assert (Hto : forall g, g ∈ ballots (mb_sent mb ++ messages_ (mb_raft mb)) -> m_term g = t -> m_to g <> kInvalidId -> m_to g = n).
      { intros g Hg Hgt Hgz. destruct (Sb g Hg) as [_ Hk]. destruct (Hk Hgz) as [Hlt|[_ Hv]]; [lia|congruence]. }
      apply Hb in H1 as [->|H1], H2 as [->|H2]; [done|symmetry; by apply Hto|by apply Hto|by apply Su].
  - intros g Hg. change ([self_vote n t] ++ mb_sent mb) with (self_vote n t :: mb_sent mb) in Hg. apply Hb in Hg as [->|Hg]; [|by apply Hsr].
    cbn. split; [done|]. intros _. by right.
Qed.

Lemma run_cast k evs C C' v c t : cluster_run k evs C C' -> cast_of C v c t -> cast_of C' v c t.
Proof.
  induction 1 as [C|n i evs C C' mb r Hn _ _ _ _ _ IH|n evs C C' mb Hn _ IH|n config store draws evs C C' mb rs r Hn _ _ _ _ _ _ _ _ _ _ _ IH];
    intros Hc; [done|apply IH; eapply cast_insert; try done..]. cbn. intros g Hg. apply elem_of_app. by left.
Qed.

(** ** One leader *)

(** The leaders of a term, when the first gave no vote to another node. *)
Lemma leaders_meet oath k C Q1 n1 n2 t : incoming_ conf <> ∅ -> cluster_inv oath k C ->
  joint_quorum conf Q1 -> (forall v, v ∈ Q1 -> v = n1 \/ cast_of C v n1 t) ->
  (forall n2', cast_of C n1 n2' t -> n2' <> kInvalidId -> n2' = n1) -> n1 <> kInvalidId -> leads C n2 t -> n1 = n2.
Proof.
  intros Hconf Hinv HQ1 Hb1 Hn1 Hz1 (mb & Hmb & Hs & Ht). destruct (Hinv n2 mb Hmb) as [[_ Hz2 _ [Sb _ _ Sl]] Hid _ _].
  destruct (Sl Hs) as (Hv2 & Q2 & HQ2 & Hb2). rewrite Hid in *.
  destruct (joint_quorum_intersection conf Q1 Q2 Hconf HQ1 HQ2) as (v & H1 & H2).
  destruct (Hb1 v H1) as [E1|Hc1], (Hb2 v H2) as [E2|Hc2]; rewrite ?Hid, ?Ht in *.
  - congruence.
  - symmetry. apply Hn1; congruence.
  - rewrite E2 in Hc1. destruct Hc1 as (mb' & g & Hm & Hg & Hto & Hgt). assert (mb' = mb) as -> by congruence.
    destruct (Sb g) as [_ Hk]; [unfold bound; rewrite !ballots_app, !elem_of_app; auto|]. destruct (Hk ltac:(congruence)) as [|[]]; [lia|congruence].
  - destruct Hc1 as (mv & g1 & Hv & Hg1 & <- & Ht1), Hc2 as (mv' & g2 & Hv' & Hg2 & <- & Ht2). assert (mv' = mv) as -> by congruence.
    destruct (Hinv v mv Hv) as [[_ _ _ [_ Su _ _]] _ _ _]. apply Su; try congruence; unfold bound; rewrite !ballots_app, !elem_of_app; auto.
Qed.

(** The hard state with the vote of a node for itself is stored. *)
Definition vote_stored (C : Cluster S) (n t : Z) : Prop :=
  exists mb, C !! n = Some mb /\ hs_term (mb_stored mb) = t /\ hs_vote (mb_stored mb) = n.

(** C1: No term has two leaders.  In a cluster whose nodes begin as followers,
    over a network that loses, repeats, delays and reorders messages, and with
    nodes that crash and start again from their stored hard state, let one node
    be leader of a term and, then or later in the run, a node be leader of the
    same term: they are the same node.  For a later leader the first must have
    stored its vote, as the driver does before it sends what a leader sends. *)
Theorem election_safety evs evs' C C1 C2 n1 n2 t : incoming_ conf <> ∅ ->
  cluster_start (events_reach evs + events_reach evs') C ->
  cluster_run (events_reach evs') evs C C1 -> cluster_run 0 evs' C1 C2 ->
  leads C1 n1 t -> evs' = [] \/ vote_stored C1 n1 t -> leads C2 n2 t -> n1 = n2.
Proof.
  intros Hconf Hstart Hrun Hrun' (mb & Hmb & Hs & Ht) Hst Hlead.
  pose proof (events_reach_nonneg evs). pose proof (events_reach_nonneg evs').
  assert (Hinv : cluster_inv (fun _ => []) (events_reach evs') C1) by (eapply run_inv; [lia|exact Hrun|]; apply start_inv; [lia|done]).
  destruct (Hinv n1 mb Hmb) as [[_ Hz _ [Sb _ _ Sl]] Hid _ _]. destruct (Sl Hs) as (Hv & Q & HQ & Hb). rewrite Hid in *.
  assert (Hb' : forall v, v ∈ Q -> v = n1 \/ cast_of C2 v n1 t).
  { intros v Hq. destruct (Hb v Hq) as [->|Hc]; [by left|right]. rewrite Hid, Ht in Hc. by eapply run_cast. }
  destruct Hst as [->|(mb' & Hmb' & Hst & Hsv)].
  - inversion Hrun'; subst C2. eapply (leaders_meet (fun _ => [])); try done.
    intros n2' (mb' & g & Hm & Hg & <- & Hgt) Hnz. assert (mb' = mb) as -> by congruence.
    destruct (Sb g) as [_ Hk]; [unfold bound; cbn; rewrite ballots_app, elem_of_app; auto|]. destruct (Hk Hnz) as [|[]]; [lia|congruence].
  - assert (mb' = mb) as -> by congruence. set (oath := fun x => if decide (x = n1) then [self_vote n1 t] else []).
    destruct (decide (t = 0)) as [->|Hnz].
    + assert (Hinv2 : cluster_inv (fun _ => []) 0 C2) by (eapply run_inv; [lia|exact Hrun'|]; by rewrite Z.add_0_r).
      eapply (leaders_meet (fun _ => [])); try done. intros n2' (mb' & g & Hm & Hg & _ & Hgt) _.
      destruct (Hinv2 n1 mb' Hm) as [_ _ _ Hsr]. by destruct (Hsr g) as [[_ ?] _].
    + assert (Hinv2 : cluster_inv oath 0 C2).
      { eapply run_inv; [lia|exact Hrun'|]. rewrite Z.add_0_r. by eapply pledge_inv. }
      eapply (leaders_meet oath); try done. intros n2' (mb' & g & Hm & Hg & <- & Hgt) Hnz'.
      destruct (Hinv2 n1 mb' Hm) as [[_ _ _ [_ Su _ _]] _ _ _]. change n1 with (m_to (self_vote n1 t)).
      apply Su; try done; unfold bound, oath; rewrite decide_True by done; rewrite !ballots_app, !elem_of_app; auto.
      left. left. by apply list_elem_of_singleton.
Qed.
End Cluster.

(** ** Witness

    Three voters, the first of which is elected; then the second crashes and
    starts again, and the third gets a message of the leader. *)
Definition trio_state (term vote : Z) : RaftState := mkRaftState (mkHardState term vote 2) (mkConfState [1; 2; 3] [] [] [] false).
Definition trio_store (term vote : Z) : MemoryStorage := example_store <| raft_state_ := trio_state term vote |>.
Definition trio_config (n : Z) : Config := start_config <| c_id := n |>.
Definition trio_conf : JointConfiguration := mkJoint {[1; 2; 3]} ∅.

Definition trio_node (n : Z) : Raft MemoryStorage :=
  match Raft.new (trio_config n) (trio_store 1 0) 0 with Ret r => r | Abort _ => example_node end.
Definition trio_member (n : Z) : Member MemoryStorage := mkMember (trio_node n) (mkHardState 1 0 2) [].
Definition trio : Cluster MemoryStorage := <[1 := trio_member 1]> (<[2 := trio_member 2]> {[3 := trio_member 3]}).

Definition trio_request : Message := empty_message <| m_type := MsgRequestVote |> <| m_to := 2 |> <| m_from := 1 |>
  <| m_term := 2 |> <| m_log_term := 3 |> <| m_index := 3 |>.
Definition trio_grant : Message := empty_message <| m_type := MsgRequestVoteResponse |> <| m_to := 1 |> <| m_from := 2 |> <| m_term := 2 |>.
Definition trio_beat : Message := empty_message <| m_type := MsgHeartbeat |> <| m_to := 3 |> <| m_from := 1 |> <| m_term := 2 |>.

Definition trio_election : list (Event MemoryStorage) :=
  [ EvCall 1 (InStep (empty_message <| m_type := MsgHup |>)); EvSend 1; EvCall 2 (InStep trio_request); EvSend 2;
    EvCall 1 (InStep trio_grant) ].
Definition trio_after : list (Event MemoryStorage) :=
  [ EvRestart 2 (trio_config 2) (trio_store 2 1) 0; EvCall 3 (InStep trio_beat) ].

Lemma trio_config_ok n : config_ok (trio_config n).
Proof. constructor; cbn; unfold two64; lia. Qed.

Lemma trio_store_inv term vote : st_inv (trio_store term vote).
Proof. constructor; [constructor| |]; cbn; unfold v_last; cbn; unfold is_u64, two64, u64max; repeat split; try lia. Qed.

Lemma trio_new n : n ∈ [1; 2; 3] -> Raft.new (trio_config n) (trio_store 1 0) 0 = Ret (trio_node n) /\
  voters_of (trio_node n) = trio_conf /\ state_ (trio_node n) = Follower /\ messages_ (trio_node n) = [] /\
  hard_state (trio_node n) = mkHardState 1 0 2 /\ id_ (trio_node n) = n /\ n <> 0.
Proof. intros Hn. repeat (apply elem_of_cons in Hn as [->|Hn]); [vm_compute; done..|by apply elem_of_nil in Hn]. Qed.

Lemma trio_started k : k <= 1000 -> cluster_start trio_conf k trio.
Proof.
  intros Hk n mb Hn. assert (Hm : n ∈ [1; 2; 3] /\ mb = trio_member n).
  { unfold trio in Hn. apply lookup_insert_Some in Hn as [[<- <-]|[_ Hn]]; [by split; [set_solver|]|].
    apply lookup_insert_Some in Hn as [[<- <-]|[_ Hn]]; [by split; [set_solver|]|].
    apply lookup_singleton_Some in Hn as [<- <-]. by split; [set_solver|]. }
  destruct Hm as [Hin ->]. destruct (trio_new n Hin) as (E & Hv & Hf & Hm & Hh & Hi & Hz). cbn [mb_raft mb_stored mb_sent trio_member].
  split; [|by rewrite Hh].
  destruct (new_node_started (trio_config n) (trio_store 1 0) 0 (trio_state 1 0) (trio_node n)) as (Hok & _ & Hview & _ & Ht);
    [apply trio_config_ok|apply trio_store_inv|done|cbn; unfold u64max; lia|vm_compute; discriminate|done|].
  destruct Hok. constructor; try done; [rewrite Ht, start_term_stored by done|rewrite Hview]; unfold v_last, u64max; cbn; lia.
Qed.

Lemma trio_runs : exists C1 C2, cluster_run trio_conf (events_reach trio_after) trio_election trio C1 /\
  cluster_run trio_conf 0 trio_after C1 C2 /\ leads C1 1 2 /\ vote_stored C1 1 2 /\ leads C2 1 2.
Proof.
  eexists _, _. split.
  { unfold trio_election.
    eapply cr_call; [vm_compute; reflexivity|constructor; cbn; unfold u64max; (lia || intuition congruence)|by intros m [= <-]|vm_compute; reflexivity|vm_compute; reflexivity|].
    eapply cr_send; [vm_compute; reflexivity|].
    eapply cr_call; [vm_compute; reflexivity|constructor; cbn; unfold u64max; (lia || intuition congruence)|by intros m [= <-]|vm_compute; reflexivity|vm_compute; reflexivity|].
    eapply cr_send; [vm_compute; reflexivity|].
    eapply cr_call; [vm_compute; reflexivity|constructor; cbn; unfold u64max; (lia || intuition congruence)| |vm_compute; reflexivity|vm_compute; reflexivity|].
    { intros m [= <-] _. split; [done|]. exists 2. eexists. split; [vm_compute; reflexivity|]. vm_compute. left. }
    apply cr_nil. }
  split.
  { unfold trio_after.
    eapply cr_restart; [vm_compute; reflexivity|apply trio_config_ok|done|done|apply trio_store_inv|reflexivity|reflexivity|vm_compute; discriminate|vm_compute; reflexivity|vm_compute; reflexivity|vm_compute; reflexivity|].
    eapply cr_call; [vm_compute; reflexivity|constructor; cbn; unfold u64max; (lia || intuition congruence)|by intros m [= <-]|vm_compute; reflexivity|vm_compute; reflexivity|].
    apply cr_nil. }
  split; [eexists; split; [vm_compute; reflexivity|done]|]. split; eexists; (split; [vm_compute; reflexivity|done]).
Qed.

Lemma election_safety_witness : exists C1 C2, cluster_run trio_conf (events_reach trio_after) trio_election trio C1 /\
  cluster_run trio_conf 0 trio_after C1 C2 /\ leads C1 1 2 /\ forall n, leads C2 n 2 -> 1 = n.
Proof.
  destruct trio_runs as (C1 & C2 & H1 & H2 & L1 & V1 & L2). exists C1, C2. split; [exact H1|]. split; [exact H2|]. split; [exact L1|].
  intros n Hn. apply (election_safety trio_conf trio_election trio_after trio C1 C2 1 n 2); [|apply trio_started; vm_compute; discriminate|exact H1|exact H2|exact L1|right; exact V1|exact Hn].
  vm_compute. discriminate.
Defined.
