(* ===== verification/LogMatching.v ===== *)
(** * Logs in a cluster

    The cluster of [Cluster], with the stored log of every node.  Append
    messages that are delivered were sent, and a snapshot that is delivered
    ends at a position of a stored log; all other messages are arbitrary.
    Batching is off: a batched message need not be a piece of the sender's log,
    see [RaftSend].  Then any two logs agree: an entry they have in common,
    with index and term, makes them equal up to it. *)

From S2P Require Import Prelude Types Util Inflights Progress Quorum Tracker ConfChange Storage MemStorage Unstable ReadOnly Config RaftLog RaftLogProps RaftCore RaftSend LogSafety Fragments Raft NodeInv NodeStart NodeSafety Elections NodeLog NodeMoves Cluster.

(** ** One node among others *)
Section Node.
Context {ENV : Env} {S : Type} {ST : Storage S} {SL : StorageLaws S}.
Context (conf : JointConfiguration) (cast : Z -> Z -> Z -> Prop) (sent : list Message).
Implicit Types r : Raft S.
Abbreviation view r := (log_view (raft_log_ r)).

(** The pieces a node holds: its log and its unsent messages. *)
Definition own r (F : LogView) : Prop := F = view r \/ exists m, m ∈ messages_ r /\ carries m /\ F = piece_of m.

(** The node is past standing in term [t], and never voted for another in it. *)
Record settled r (t : Z) : Prop := {
  st_past : t < term_ r \/ t = term_ r /\ vote_ r = id_ r /\ state_ r <> Candidate;
  st_loyal g : g ∈ ballots (sent ++ messages_ r) -> m_term g = t -> m_to g <> kInvalidId -> m_to g = id_ r
}.

(** The node was elected in term [t]. *)
Definition elected (c t : Z) : Prop := exists Q, joint_quorum conf Q /\ forall v, v ∈ Q -> v = c \/ cast v c t.

Definition mine r (t : Z) : Prop := elected (id_ r) t /\ settled r t.

Lemma settled_moves n r r' t : id_ r <> kInvalidId -> node_moves n r r' -> fair r r' ->
  (state_ r' = Candidate -> term_ r' = term_ r -> state_ r = Candidate) -> settled r t -> settled r' t.
Proof.
  intros Hid M Hf Hc [Hp Hl]. pose proof (mv_term _ _ _ M).
  assert (Hp' : t < term_ r' \/ t = term_ r' /\ vote_ r' = id_ r' /\ state_ r' <> Candidate).
  { destruct Hp as [Hp|(Hp & Hv & Hs)]; [left; lia|]. destruct (decide (term_ r' = term_ r)) as [Et|Et]; [|left; lia].
    right. split; [congruence|]. split; [|auto]. rewrite (mv_id _ _ _ M), <- Hv. apply (mv_vote _ _ _ M); congruence. }
  constructor; [done|]. rewrite (mv_id _ _ _ M). rewrite ballots_app in *. intros g Hg Ht Hto.
  apply elem_of_app in Hg as [Hg|Hg]; [apply Hl; [apply elem_of_app; by left|done..]|].
  destruct (Hf g Hg) as [Hg'|[Hgt Hgv]]; [apply Hl; [apply elem_of_app; by right|done..]|].
  destruct Hp' as [Hp'|(_ & Hv & _)]; [lia|]. rewrite Hgv, Hv. apply M.
Qed.

Section World.
(** All other pieces, the pieces of stored logs and sent messages among them,
    the pieces the node itself held before, and the terms in which other nodes
    were elected: as it is now, and also if the nodes start again. *)
Context (world given before : LogView -> Prop) (now stored : Z -> Z -> Prop) (me t0 : Z).
Hypothesis given_world : forall F, given F -> exists G, world G /\ sub F G.
Hypothesis stored_now : forall x t, stored x t -> now x t.

(** A term of an entry: an old one, or one with an elected leader. *)
Definition led_by (P : Z -> Z -> Prop) r (t : Z) : Prop := t <= t0 \/ (exists x, x <> id_ r /\ P x t) \/ mine r t.

Record tidy r : Prop := {
  td_me : id_ r = me;
  td_id : id_ r <> kInvalidId;
  td_agree F G : world F \/ own r F -> world G \/ own r G -> agree F G;
  td_own F i t : own r F -> term_at F i = Some t -> led_by stored r t;
  td_origin F i t : own r F -> term_at F i = Some t -> (exists G, (world G \/ before G) /\ term_at G i = Some t) \/ mine r t;
  td_given F i t : given F -> term_at F i = Some t -> led_by stored r t;
  td_world F i t : world F -> term_at F i = Some t -> led_by now r t;
  td_leader F i : state_ r = Leader -> world F \/ own r F -> term_at F i = Some (term_ r) -> i <= v_last (view r);
  td_old : t0 <= term_ r /\ (stands r -> t0 < term_ r)
}.

Hypothesis one_winner : forall r x, seat conf cast sent r -> state_ r = Candidate -> vote_ r = id_ r ->
  elected (id_ r) (term_ r) -> id_ r = me -> x <> id_ r -> now x (term_ r) -> False.

Lemma mine_moves r r' t : id_ r <> kInvalidId -> (exists n, node_moves n r r') -> fair r r' ->
  (state_ r' = Candidate -> term_ r' = term_ r -> state_ r = Candidate) -> mine r t -> mine r' t.
Proof.
  intros Hid [n M] Hf Hc [He Hs]. split; [by rewrite (mv_id _ _ _ M)|]. by eapply settled_moves.
Qed.

Lemma led_by_moves P r r' t : id_ r <> kInvalidId -> (exists n, node_moves n r r') -> fair r r' ->
  (state_ r' = Candidate -> term_ r' = term_ r -> state_ r = Candidate) -> led_by P r t -> led_by P r' t.
Proof.
  intros Hid [n M] Hf Hc [Ht|[(x & Hx & HP)|Hm]]; [by left|right; left; exists x; by rewrite (mv_id _ _ _ M)|].
  right. right. eapply mine_moves; eauto.
Qed.

Lemma led_by_now r t : led_by stored r t -> led_by now r t.
Proof. intros [H|[(x & Hx & HP)|H]]; [by left|right; left; eauto|by right; right]. Qed.

(** No piece has the term of a candidate that wins. *)
Lemma winner_fresh r F i : tidy r -> seat conf cast sent r -> state_ r = Candidate -> vote_ r = id_ r -> elected (id_ r) (term_ r) ->
  world F \/ own r F -> term_at F i <> Some (term_ r).
Proof.
  intros T Hs Hc Hv He HF Hi. pose proof (td_old _ T) as [_ Ho]. specialize (Ho (or_intror Hc)).
  assert (Hled : led_by now r (term_ r)) by (destruct HF as [HF|HF]; [by eapply td_world|by eapply led_by_now, td_own]).
  destruct Hled as [H|[(x & Hx & HP)|[_ [[H|(_ & _ & H)] _]]]]; [lia| |lia|done].
  eapply one_winner; [exact Hs|done|done|done|apply T|exact Hx|exact HP].
Qed.

(** Where the entries of the node's pieces come from after a move. *)
Lemma tidy_move r r' : tidy r -> advance conf cast sent given r r' ->
  (forall F i t, own r' F -> term_at F i = Some t -> (exists G, own r G /\ term_at G i = Some t) \/
     (exists G, given G /\ term_at G i = Some t) \/ mine r' t) ->
  (forall F G, own r' F -> world G \/ own r' G -> agree F G) ->
  (state_ r' = Candidate -> term_ r' = term_ r -> state_ r = Candidate) ->
  (forall F i, state_ r' = Leader -> world F \/ own r' F -> term_at F i = Some (term_ r') -> i <= v_last (view r')) ->
  (stands r' -> t0 < term_ r') -> tidy r'.
Proof.
  intros T [_ [n M] Hf _] Hpos Hag Hc Hl Hst. pose proof (td_id _ T) as Hid. pose proof (mv_term _ _ _ M) as Hmt. pose proof (proj1 (td_old _ T)).
  assert (Hled : forall P t, led_by P r t -> led_by P r' t) by (intros P t; apply led_by_moves; eauto).
  constructor.
  - rewrite (mv_id _ _ _ M). apply T.
  - by rewrite (mv_id _ _ _ M).
  - intros F G [HF|HF] [HG|HG]; [apply (td_agree _ T); by left|apply agree_sym; auto|auto|auto].
  - intros F i t HF Ht. destruct (Hpos F i t HF Ht) as [(G & HG & Hi)|[(G & HG & Hi)|Hm]].
    + apply Hled. by eapply td_own.
    + apply Hled. by eapply td_given.
    + by right; right.
  - intros F i t HF Ht. destruct (Hpos F i t HF Ht) as [(G & HG & Hi)|[(G & HG & Hi)|Hm]]; [| |by right].
    + destruct (td_origin _ T G i t HG Hi) as [H'|H']; [by left|right]. eapply mine_moves; eauto.
    + left. destruct (given_world G HG) as (G' & HG' & HS). exists G'. split; [by left|by apply HS].
  - intros F i t HF Ht. apply Hled. by eapply td_given.
  - intros F i t HF Ht. apply Hled. by eapply td_world.
  - done.
  - split; [lia|done].
Qed.

(** Every piece afterwards is a part of one before. *)
Lemma tidy_sub r r' : tidy r -> advance conf cast sent given r r' -> steady r r' ->
  (state_ r' = Candidate -> term_ r' = term_ r -> state_ r = Candidate) ->
  (state_ r' = Leader -> forall F i, world F \/ own r F -> term_at F i = Some (term_ r') -> i <= v_last (view r')) ->
  (stands r' -> t0 < term_ r') -> tidy r'.
Proof.
  intros T A [V _ Q] Hc Hl Hst.
  assert (Hsub : forall F, own r' F -> exists G, own r G /\ sub F G).
  { intros F [->|(m & Hm & Hca & ->)]; [exists (view r); by split; [left|rewrite V]|].
    destruct (Q m Hm Hca) as [Hq|Hq]; [exists (piece_of m); split; [right; eauto|done]|exists (view r); by split; [left|]]. }
  assert (Hbig : forall F, world F \/ own r' F -> exists G, (world G \/ own r G) /\ sub F G).
  { intros F [HF|HF]; [exists F; by split; [left|]|]. destruct (Hsub F HF) as (G & HG & HS). exists G. by split; [right|]. }
  apply (tidy_move r); try done.
  - intros F i t HF Ht. left. destruct (Hsub F HF) as (G & HG & HS). exists G. split; [done|by apply HS].
  - intros F G HF HG. destruct (Hbig F (or_intror HF)) as (F' & HF' & SF), (Hbig G HG) as (G' & HG' & SG).
    eapply agree_sub; [exact SF|]. apply agree_sym. eapply agree_sub; [exact SG|]. by apply (td_agree _ T).
  - intros F i Hlead HF Ht. destruct (Hbig F HF) as (G & HG & HS). eapply Hl; [done|exact HG|]. by apply HS.
Qed.

(** The log changes and the queue does not. *)
Lemma own_changed r r' : messages_ r' = messages_ r -> forall F, own r' F -> F = view r' \/ own r F.
Proof. intros Em F [->|(m & Hm & Hc & ->)]; [by left|]. rewrite Em in Hm. right. right. eauto. Qed.

Lemma own_changed_agree r r' : tidy r -> messages_ r' = messages_ r -> (forall G, world G \/ own r G -> agree (view r') G) ->
  forall F G, own r' F -> world G \/ own r' G -> agree F G.
Proof.
  intros T Em Hview. assert (Hv : forall G, world G \/ own r' G -> agree (view r') G).
  { intros G [HG|HG]; [apply Hview; by left|]. destruct (own_changed r r' Em G HG) as [->|HG']; [apply agree_refl|apply Hview; by right]. }
  intros F G HF HG. destruct (own_changed r r' Em F HF) as [->|HF']; [by apply Hv|].
  destruct HG as [HG|HG]; [apply (td_agree _ T); [by right|by left]|].
  destruct (own_changed r r' Em G HG) as [->|HG']; [apply agree_sym, Hview; by right|apply (td_agree _ T); by right].
Qed.

(** A leader has its term to itself. *)
Lemma leader_mine n r r' : seat conf cast sent r -> state_ r = Leader -> id_ r <> kInvalidId -> node_moves n r r' -> term_ r' = term_ r ->
  messages_ r' = messages_ r -> state_ r' = Leader -> mine r' (term_ r).
Proof.
  intros Hseat Hs Hid M Et Em Hs'. destruct (se_leader _ _ _ _ Hseat Hs) as (Hv & Q & HQ & Hb). split.
  - exists Q. split; [done|]. rewrite (mv_id _ _ _ M). exact Hb.
  - constructor; [right; split; [done|]; split; [|by rewrite Hs']; rewrite (mv_id _ _ _ M), <- Hv; apply (mv_vote _ _ _ M); congruence|].
    rewrite Em, (mv_id _ _ _ M). intros g Hg Hgt Hto. destruct (se_ballots _ _ _ _ Hseat g Hg) as [_ Hk].
    destruct (Hk Hto) as [|[_ Hvg]]; [lia|congruence].
Qed.

Lemma tidy_append r r' : tidy r -> advance conf cast sent given r r' -> state_ r = Leader -> state_ r' = Leader ->
  term_ r' = term_ r -> longer (term_ r) (view r) (view r') -> messages_ r' = messages_ r -> tidy r'.
Proof.
  intros T A Hs Hs' Et L Em. pose proof A as [Hseat [n M] Hf _]. apply (tidy_move r); try done.
  - intros F i t HF Ht. destruct (own_changed r r' Em F HF) as [->|HF']; [|left; eauto].
    destruct (Z.le_gt_cases i (v_last (view r))) as [Hi|Hi].
    + left. exists (view r). split; [by left|]. by rewrite <- (proj2 (lo_below _ _ _ L i Hi)).
    + right. right. rewrite (lo_above _ _ _ L i t Hi Ht). eapply leader_mine; [done|done|apply T|exact M|done..].
  - apply (own_changed_agree r); [done|done|]. intros G HG. eapply agree_longer; [exact L| |].
    + intros i Hi. by eapply td_leader.
    + apply (td_agree _ T); [right; by left|done].
  - congruence.
  - intros F i _ HF Ht. rewrite Et in Ht. assert (H : F = view r' \/ world F \/ own r F).
    { destruct HF as [HF|HF]; [auto|]. destruct (own_changed r r' Em F HF); auto. }
    destruct H as [->|HF']; [apply term_at_inside in Ht; lia|].
    pose proof (td_leader _ T F i Hs HF' Ht). pose proof (lo_last _ _ _ L). lia.
  - intros _. rewrite Et. apply (td_old _ T). by left.
Qed.

(** A node that follows stays old or follows. *)
Lemma follower_old r r' : tidy r -> civil r r' -> state_ r' <> Leader -> stands r' -> t0 < term_ r'.
Proof. intros T C Hs [?|Hst]; [done|]. destruct (cl_candidate _ _ C Hst) as [Hst' ->]. apply (td_old _ T). by right. Qed.

(** The log is joined from pieces that agree with all others. *)
Lemma tidy_take r r' g p : tidy r -> advance conf cast sent given r r' -> given g -> joined (view r) g (view r') p ->
  civil r r' -> state_ r' <> Leader -> messages_ r' = messages_ r -> tidy r'.
Proof.
  intros T A Hg J C Hs Em. destruct (given_world g Hg) as (g' & Hg' & Sg). apply (tidy_move r); try done.
  - intros F i t HF Ht. destruct (own_changed r r' Em F HF) as [->|HF']; [|left; eauto]. destruct (Z.le_gt_cases i p) as [Hi|Hi].
    + left. exists (view r). split; [by left|]. by rewrite <- (proj2 (jo_below _ _ _ _ J i Hi)).
    + right. left. exists g. split; [done|]. by rewrite <- (proj2 (jo_above _ _ _ _ J i Hi)).
  - apply (own_changed_agree r); [done|done|]. intros G HG. eapply agree_joined; [exact J|apply (td_agree _ T); [right; by left|done]|].
    eapply agree_sub; [exact Sg|]. apply (td_agree _ T); [by left|done].
  - intros Hc _. by apply C.
  - by eapply follower_old.
Qed.

(** The log is a part of a given piece. *)
Lemma tidy_restore r r' g : tidy r -> advance conf cast sent given r r' -> given g -> sub (view r') g ->
  civil r r' -> state_ r' <> Leader -> queues_from (view r') r r' -> tidy r'.
Proof.
  intros T A Hg Sv C Hs Hq. destruct (given_world g Hg) as (g' & Hg' & Sg).
  assert (Hown : forall F, own r' F -> sub F g \/ own r F).
  { intros F [->|(m & Hm & Hca & ->)]; [by left|]. destruct (Hq m Hm Hca) as [Hm'|Hm']; [right; right; eauto|left; by transitivity (view r')]. }
  assert (Hbig : forall F, world F \/ own r' F -> exists G, (world G \/ own r G) /\ sub F G).
  { intros F [HF|HF]; [exists F; by split; [left|]|]. destruct (Hown F HF) as [HF'|HF']; [exists g'|exists F; by split; [right|]].
    split; [by left|]. by transitivity g. }
  apply (tidy_move r); try done.
  - intros F i t HF Ht. destruct (Hown F HF) as [HF'|HF']; [|left; eauto]. right. left. exists g. split; [done|by apply HF'].
  - intros F G HF HG. destruct (Hbig F (or_intror HF)) as (F' & HF' & SF), (Hbig G HG) as (G' & HG' & SG).
    eapply agree_sub; [exact SF|]. apply agree_sym. eapply agree_sub; [exact SG|]. by apply (td_agree _ T).
  - intros Hc _. by apply C.
  - by eapply follower_old.
Qed.

Lemma tidy_advance r r' : tidy r -> advance conf cast sent given r r' -> tidy r'.
Proof.
  intros T A. pose proof A as [Hseat [n M] Hf Hmv]. pose proof (mv_term _ _ _ M) as Hmt. pose proof (td_old _ T) as [Ho Hst].
  destruct Hmv as [C Sd|Hc Ht Sd|Q Hc Hl Et Hv HQ Hb Sd|Hs Hs' Et L Em _|g p Hg J C Hs Em _|g Hg Sv C Hs Hq _].
  - apply (tidy_sub r); [done|done|done|intros H _; by apply C| |].
    + intros Hl F i HF Hi. destruct (cl_leader _ _ C Hl) as [Hl' Et]. rewrite (sd_view _ _ Sd). rewrite Et in Hi. by eapply td_leader.
    + intros [H|H]; [destruct (cl_leader _ _ C H) as [? ->]; apply Hst; by left|destruct (cl_candidate _ _ C H) as [? ->]; apply Hst; by right].
  - apply (tidy_sub r); [done|done|done|intros _ E; lia|congruence|lia].
  - apply (tidy_sub r); [done|done|done|congruence| |intros _; rewrite Et; apply Hst; by right].
    intros _ F i HF Hi. rewrite Et in Hi. exfalso. eapply winner_fresh; [exact T|done|done|done| |exact HF|exact Hi]. by exists Q.
  - by eapply tidy_append.
  - by eapply tidy_take.
  - by eapply tidy_restore.
Qed.

Lemma tidy_chain r r' : chain conf cast sent given r r' -> tidy r -> tidy r'.
Proof. induction 1 as [r|r r1 r2 A _ IH]; [done|]. intros T. apply IH. by eapply tidy_advance. Qed.

Lemma chain_mine r r' t : chain conf cast sent given r r' -> id_ r <> kInvalidId -> mine r t -> mine r' t.
Proof.
  induction 1 as [r|r r1 r2 A _ IH]; [done|]. intros Hid Hm. destruct A as [_ [n M] Hf Hmv].
  apply IH; [by rewrite (mv_id _ _ _ M)|]. eapply mine_moves; [done|eauto|done| |done].
  intros Hc Et. destruct Hmv as [C _|_ Ht _|Q _ Hl _ _ _ _ _|_ Hl _ _ _ _|g p _ _ C _ _ _|g _ _ C _ _ _];
    try congruence; try lia; by apply C.
Qed.
End World.
End Node.

(** ** The cluster *)

(** A member of the cluster with its stored log. *)
Record Replica (S : Type) := mkReplica {
  rp_member : Member S;
  rp_log : LogView
}.
Arguments mkReplica {S}.
Arguments rp_member {S}.
Arguments rp_log {S}.

Abbreviation Group S := (gmap Z (Replica S)).
Abbreviation rp_raft rp := (mb_raft (rp_member rp)).
Abbreviation rp_sent rp := (mb_sent (rp_member rp)).
Abbreviation rp_stored rp := (mb_stored (rp_member rp)).

Definition members {S} (C : Group S) : Cluster S := rp_member <$> C.

Section LogMatching.
Context {ENV : Env} {S : Type} {ST : Storage S} {SL : StorageLaws S}.
Context (conf : JointConfiguration).
Implicit Types C : Group S.
Abbreviation view r := (log_view (raft_log_ r)).

(** What the network delivers: grants and entries that were sent, snapshots
    that end at a position of a stored log, and anything else. *)
Record log_delivered C (n : Z) (m : Message) : Prop := {
  dl_grant : delivered (members C) n m;
  dl_entries : carries m -> exists x rp, C !! x = Some rp /\ m ∈ rp_sent rp;
  dl_snapshot : m_type m = MsgSnapshot ->
    exists x rp, C !! x = Some rp /\ term_at (rp_log rp) (sn_index (m_snapshot m)) = Some (sn_term (m_snapshot m))
}.

(** A node stores its log and its hard state and then sends; it starts again
    from what is stored, perhaps with a log that has been compacted. *)
Definition sends_all (rp : Replica S) : Replica S :=
  mkReplica (mkMember ((rp_raft rp) <| messages_ := [] |>) (hard_state (rp_raft rp)) (rp_sent rp ++ messages_ (rp_raft rp)))
    (view (rp_raft rp)).

Definition runs_as (rp : Replica S) (r : Raft S) : Replica S := mkReplica (mkMember r (rp_stored rp) (rp_sent rp)) (rp_log rp).

Inductive log_run (k : Z) : list (Event S) -> Group S -> Group S -> Prop :=
| lr_nil C : log_run k [] C C
| lr_call n i evs C C' rp r :
    C !! n = Some rp -> input_ok i (rp_raft rp) -> (forall m, i = InStep m -> log_delivered C n m) ->
    handle i (rp_raft rp) = Ret (tt, r) -> voters_of r = conf ->
    log_run k evs (<[n := runs_as rp r]> C) C' -> log_run k (EvCall n i :: evs) C C'
| lr_send n evs C C' rp :
    C !! n = Some rp -> log_run k evs (<[n := sends_all rp]> C) C' -> log_run k (EvSend n :: evs) C C'
| lr_restart n config store draws evs C C' rp rs r :
    C !! n = Some rp -> config_ok config -> c_id config = n -> c_load_state_on_startup config = true -> c_batch_append config = false ->
    st_inv store -> InitialState store = Ok rs -> rs_hard_state rs = rp_stored rp -> sub (st_view store) (rp_log rp) ->
    c_applied config <= start_commit config rs (st_view store) -> v_last (st_view store) + (events_reach evs + k) < u64max ->
    Raft.new config store draws = Ret r -> voters_of r = conf ->
    log_run k evs (<[n := runs_as rp r]> C) C' -> log_run k (EvRestart n config store draws :: evs) C C'.

(** A cluster that starts with logs that agree and terms that are not below
    those in the logs. *)
Definition log_start (t0 k : Z) C : Prop :=
  cluster_start conf k (members C) /\
  (forall n rp, C !! n = Some rp -> batch_append_ (rp_raft rp) = false /\ rp_log rp = view (rp_raft rp) /\ t0 <= term_ (rp_raft rp) /\
     forall i t, term_at (rp_log rp) i = Some t -> t <= t0) /\
  (forall n1 n2 rp1 rp2, C !! n1 = Some rp1 -> C !! n2 = Some rp2 -> agree (rp_log rp1) (rp_log rp2)).

(** The pieces that are stored or sent, and all pieces. *)
Definition kept_piece C (F : LogView) : Prop :=
  exists x rp, C !! x = Some rp /\ (F = rp_log rp \/ exists m, m ∈ rp_sent rp /\ carries m /\ F = piece_of m).

Definition piece C (F : LogView) : Prop := kept_piece C F \/ exists x rp, C !! x = Some rp /\ own (rp_raft rp) F.

Abbreviation cast C := (cast_of (members C)).

Definition led_now C (x t : Z) : Prop := exists rp, C !! x = Some rp /\ mine conf (cast C) (rp_sent rp) (rp_raft rp) t.

(** The stored hard state shows that the node has voted for itself in [t], or is past it. *)
Definition covered (hs : HardState) (x t : Z) : Prop := t < hs_term hs \/ t = hs_term hs /\ hs_vote hs = x.

Definition led_stored C (x t : Z) : Prop :=
  exists rp, C !! x = Some rp /\ mine conf (cast C) (rp_sent rp) (rp_raft rp) t /\ covered (rp_stored rp) x t.

Record log_inv (t0 k : Z) C : Prop := {
  li_members : cluster_inv conf (fun _ => []) k (members C);
  li_batch x rp : C !! x = Some rp -> batch_append_ (rp_raft rp) = false;
  li_agree F G : piece C F -> piece C G -> agree F G;
  li_own x rp F i t : C !! x = Some rp -> own (rp_raft rp) F -> term_at F i = Some t ->
    t <= t0 \/ (exists y, y <> x /\ led_stored C y t) \/ mine conf (cast C) (rp_sent rp) (rp_raft rp) t;
  li_kept F i t : kept_piece C F -> term_at F i = Some t -> t <= t0 \/ exists y, led_stored C y t;
  li_leader x rp F i : C !! x = Some rp -> state_ (rp_raft rp) = Leader -> piece C F -> term_at F i = Some (term_ (rp_raft rp)) ->
    i <= v_last (view (rp_raft rp));
  li_old x rp : C !! x = Some rp -> t0 <= hs_term (rp_stored rp) /\ t0 <= term_ (rp_raft rp) /\ (stands (rp_raft rp) -> t0 < term_ (rp_raft rp))
}.

Lemma members_lookup C x rp : C !! x = Some rp -> members C !! x = Some (rp_member rp).
Proof. intros E. unfold members. by rewrite lookup_fmap, E. Qed.

Lemma member_known t0 k C x rp : log_inv t0 k C -> C !! x = Some rp ->
  good conf (cast C) (rp_sent rp) k (rp_raft rp) /\ id_ (rp_raft rp) = x /\ x <> kInvalidId.
Proof.
  intros I Hx. destruct (li_members _ _ _ I x _ (members_lookup _ _ _ Hx)) as [Hg Hi _ _]. split; [exact Hg|].
  split; [done|]. destruct Hg as [_ Hz _ _]. congruence.
Qed.

(** Two elected nodes of a term: a voter of both, or one voted for the other. *)
Lemma elected_meet (c : Z -> Z -> Z -> Prop) a b t : incoming_ conf <> ∅ -> elected conf c a t -> elected conf c b t -> a <> b ->
  (exists v, c v a t /\ c v b t) \/ c b a t \/ c a b t.
Proof.
  intros Hconf (Q1 & HQ1 & H1) (Q2 & HQ2 & H2) Hne. destruct (joint_quorum_intersection conf Q1 Q2 Hconf HQ1 HQ2) as (v & Hv1 & Hv2).
  destruct (H1 v Hv1) as [E1|Hc1], (H2 v Hv2) as [E2|Hc2]; subst; eauto; done.
Qed.

Lemma cast_twice t0 k C v a b t : log_inv t0 k C -> cast C v a t -> cast C v b t -> a <> kInvalidId -> b <> kInvalidId -> a = b.
Proof.
  intros I (mv & g1 & Hv & Hg1 & <- & Ht1) (mv' & g2 & Hv' & Hg2 & <- & Ht2) Ha Hb. assert (mv' = mv) as -> by congruence.
  destruct (li_members _ _ _ I v mv Hv) as [[_ _ _ [_ Su _ _]] _ _ _]. apply Su; try congruence; unfold bound; rewrite !ballots_app, !elem_of_app; auto.
Qed.

(** The grants that count are sent. *)
Lemma cast_sent C x rp c t : C !! x = Some rp -> cast C x c t -> exists g, g ∈ ballots (rp_sent rp) /\ m_to g = c /\ m_term g = t.
Proof.
  intros Hx (mb & g & Hmb & Hg & Hto & Ht). rewrite (members_lookup _ _ _ Hx) in Hmb. injection Hmb as <-. eauto.
Qed.

(** The elected nodes of a term are the same, when one has its vote and the
    other never voted for another. *)
Lemma one_elected t0 k C n x rp rx t : incoming_ conf <> ∅ -> log_inv t0 k C -> C !! n = Some rp -> C !! x = Some rx ->
  elected conf (cast C) n t -> elected conf (cast C) x t ->
  (forall g, g ∈ ballots (rp_sent rp) -> m_term g = t -> m_to g <> kInvalidId -> m_to g = n) ->
  (forall g, g ∈ ballots (rp_sent rx) -> m_term g = t -> m_to g <> kInvalidId -> m_to g = x) -> n = x.
Proof.
  intros Hconf I Hn Hx En Ex Ln Lx. destruct (decide (n = x)) as [|Hne]; [done|].
  destruct (member_known _ _ _ _ _ I Hn) as (_ & _ & Hn0), (member_known _ _ _ _ _ I Hx) as (_ & _ & Hx0).
  destruct (elected_meet _ n x t Hconf En Ex Hne) as [(v & H1 & H2)|[H|H]].
  - by eapply cast_twice.
  - destruct (cast_sent _ _ _ _ _ Hx H) as (g & Hg & <- & Ht). apply Lx in Hg; congruence.
  - destruct (cast_sent _ _ _ _ _ Hn H) as (g & Hg & <- & Ht). apply Ln in Hg; congruence.
Qed.

(** ** A call *)

(** What node [n] sees of the others. *)
Definition world C (n : Z) (F : LogView) : Prop :=
  kept_piece C F \/ exists x rp, x <> n /\ C !! x = Some rp /\ own (rp_raft rp) F.

Definition given C (F : LogView) : Prop := exists G, kept_piece C G /\ sub F G.

Lemma piece_world C n rp F : C !! n = Some rp -> piece C F <-> world C n F \/ own (rp_raft rp) F.
Proof.
  intros Hn. split.
  - intros [H|(x & rx & Hx & H)]; [left; by left|]. destruct (decide (x = n)) as [->|Hne]; [right; congruence|left; right; eauto].
  - intros [[H|(x & rx & _ & Hx & H)]|H]; [by left|right; eauto|right; eauto].
Qed.

Lemma inv_tidy t0 k C n rp : log_inv t0 k C -> C !! n = Some rp ->
  tidy conf (cast C) (rp_sent rp) (world C n) (given C) (own (rp_raft rp)) (led_now C) (led_stored C) n t0 (rp_raft rp).
Proof.
  intros I Hn. destruct (member_known _ _ _ _ _ I Hn) as (Hg & Hid & Hnz).
  assert (Hst : forall x t, led_stored C x t -> x = n -> mine conf (cast C) (rp_sent rp) (rp_raft rp) t).
  { intros x t (rx & Hx & Hm & _) ->. congruence. }
  assert (Hkept : forall F i t, kept_piece C F -> term_at F i = Some t -> led_by conf (cast C) (rp_sent rp) t0 (led_stored C) (rp_raft rp) t).
  { intros F i t HF Ht. destruct (li_kept _ _ _ I F i t HF Ht) as [H|[y Hy]]; [by left|right].
    destruct (decide (y = n)) as [->|Hne]; [right; by eapply Hst|left; exists y; by rewrite Hid]. }
  constructor.
  - done.
  - congruence.
  - intros F G HF HG. apply (li_agree _ _ _ I); by apply (piece_world C n rp).
  - intros F i t HF Ht. destruct (li_own _ _ _ I n rp F i t Hn HF Ht) as [H|[(y & Hy & H)|H]]; [by left|right; left; exists y; by rewrite Hid|by right; right].
  - intros F i t HF Ht. left. exists F. by split; [right|].
  - intros F i t (G & HG & HS) Ht. apply (Hkept G i); [done|by apply HS].
  - intros F i t [HF|(x & rx & Hne & Hx & HF)] Ht.
    + apply (led_by_now _ _ _ (led_now C) (led_stored C)); [intros x y (ry & Hy & Hm & _); by exists ry|]. by eapply Hkept.
    + destruct (li_own _ _ _ I x rx F i t Hx HF Ht) as [H|[(y & Hy & H)|H]]; [by left| |right; left; exists x; split; [congruence|by exists rx]].
      right. destruct (decide (y = n)) as [->|Hne']; [right; by eapply Hst|left; exists y; split; [congruence|]]. destruct H as (ry & Hy' & Hm & _). by exists ry.
  - intros F i Hl HF Ht. apply (li_leader _ _ _ I n rp F i); [done|done|by apply (piece_world C n rp)|done].
  - apply (li_old _ _ _ I n rp Hn).
Qed.

(** A candidate that wins has no rival. *)
Lemma no_rival t0 k C n rp : incoming_ conf <> ∅ -> log_inv t0 k C -> C !! n = Some rp -> forall (r : Raft S) x,
  seat conf (cast C) (rp_sent rp) r -> state_ r = Candidate -> vote_ r = id_ r -> elected conf (cast C) (id_ r) (term_ r) ->
  id_ r = n -> x <> id_ r -> led_now C x (term_ r) -> False.
Proof.
  intros Hconf I Hn r x Hs _ Hv He Hid Hx (rx & Hx' & [Ex [_ Lx]]). apply Hx. symmetry. rewrite Hid in *.
  destruct (member_known _ _ _ _ _ I Hx') as (_ & Hidx & _). rewrite Hidx in *.
  eapply (one_elected _ _ _ n x rp rx); try done.
  - intros g Hg Ht Hto. destruct (se_ballots _ _ _ _ Hs g) as [_ Hk]; [rewrite ballots_app; apply elem_of_app; by left|].
    destruct (Hk Hto) as [|[_ Hvg]]; [lia|congruence].
  - intros g Hg Ht Hto. apply Lx; [rewrite ballots_app; apply elem_of_app; by left|done..].
Qed.

(** ** One replica steps *)
Section Replace.
Context (C : Group S) (n : Z) (rp rp' : Replica S).
Hypothesis Hn : C !! n = Some rp.
Hypothesis Hsent : forall m, m ∈ rp_sent rp -> m ∈ rp_sent rp'.
Abbreviation C' := (<[n := rp']> C).

Lemma members_insert : members C' = <[n := rp_member rp']> (members C).
Proof. unfold members. by rewrite fmap_insert. Qed.

Lemma cast_step v c t : cast C v c t -> cast C' v c t.
Proof. rewrite members_insert. eapply cast_insert; [by apply members_lookup|done]. Qed.

Lemma mine_cast sent (r : Raft S) t : mine conf (cast C) sent r t -> mine conf (cast C') sent r t.
Proof.
  intros [(Q & HQ & Hb) Hs]. split; [|done]. exists Q. split; [done|]. intros v Hv. destruct (Hb v Hv); [by left|right; by apply cast_step].
Qed.

Lemma led_stored_step t : (mine conf (cast C) (rp_sent rp) (rp_raft rp) t -> covered (rp_stored rp) n t ->
    mine conf (cast C) (rp_sent rp') (rp_raft rp') t /\ covered (rp_stored rp') n t) ->
  forall y, led_stored C y t -> led_stored C' y t.
Proof.
  intros H y (ry & Hy & Hm & Hc). destruct (decide (y = n)) as [->|Hne].
  - assert (ry = rp) as -> by congruence. destruct (H Hm Hc) as [Hm' Hc']. exists rp'. rewrite lookup_insert_eq. split; [done|].
    split; [by apply mine_cast|done].
  - exists ry. rewrite lookup_insert_ne by done. split; [done|]. split; [by apply mine_cast|done].
Qed.

(** The other replicas. *)
Lemma others x rx : C' !! x = Some rx -> x = n /\ rx = rp' \/ x <> n /\ C !! x = Some rx.
Proof. intros Hx. apply lookup_insert_Some in Hx as [[<- <-]|[Hne Hx]]; auto. Qed.
End Replace.

(** A leader elsewhere has the term to itself. *)
Lemma leader_alone t0 k C n x rp rx (r : Raft S) t : incoming_ conf <> ∅ -> log_inv t0 k C -> C !! n = Some rp -> C !! x = Some rx -> x <> n ->
  state_ (rp_raft rx) = Leader -> term_ (rp_raft rx) = t -> id_ r = n -> mine conf (cast C) (rp_sent rp) r t -> False.
Proof.
  intros Hconf I Hn Hx Hne Hl Ht Hid [En [_ Ln]]. apply Hne. symmetry.
  destruct (member_known _ _ _ _ _ I Hx) as ([_ _ _ Hs] & Hidx & Hz). destruct (se_leader _ _ _ _ Hs Hl) as (Hv & Q & HQ & Hb). rewrite Hid in *.
  eapply (one_elected _ _ _ n x rp rx); try done.
  - exists Q. split; [done|]. intros v Hv'. specialize (Hb v Hv'). unfold backed in Hb. by rewrite Hidx, Ht in Hb.
  - intros g Hg Hgt Hto. apply Ln; [rewrite ballots_app; apply elem_of_app; by left|done..].
  - intros g Hg Hgt Hto. destruct (se_ballots _ _ _ _ Hs g) as [_ Hk]; [rewrite ballots_app; apply elem_of_app; by left|].
    destruct (Hk Hto) as [|[_ Hvg]]; [lia|congruence].
Qed.

Lemma delivered_given C n m : log_delivered C n m -> carried (given C) m.
Proof.
  intros [_ He Hsn]. split.
  - intros Hc. destruct (He Hc) as (x & rx & Hx & Hm). exists (piece_of m). split; [|done]. exists x, rx. split; [done|]. right. eauto.
  - intros Ht. destruct (Hsn Ht) as (x & rx & Hx & Hat). exists (rp_log rx). split; [exists x, rx; split; [done|by left]|].
    constructor.
    + intros i e E. unfold v_at in E. cbn in E. by destruct (_ <? i).
    + intros i t E. unfold term_at in E. cbn in E. destruct (Z.eqb_spec i (sn_index (m_snapshot m))) as [->|_]; [congruence|].
      unfold v_at in E. cbn in E. by destruct (_ <? i).
Qed.

Lemma call_log_inv t0 k C n i rp r : incoming_ conf <> ∅ -> 0 <= k -> log_inv t0 (Z.max 0 (input_reach i) + k) C -> C !! n = Some rp ->
  input_ok i (rp_raft rp) -> (forall m, i = InStep m -> log_delivered C n m) -> handle i (rp_raft rp) = Ret (tt, r) -> voters_of r = conf ->
  log_inv t0 k (<[n := runs_as rp r]> C).
Proof.
  intros Hconf Hk I Hn Hi Hd E Hv. destruct (member_known _ _ _ _ _ I Hn) as ([Hok Hz Hcf Hs] & Hid & Hnz).
  pose proof (inv_tidy _ _ _ _ _ I Hn) as T. set (a := Z.max 0 (input_reach i)) in *. assert (Ha : 0 <= a) by lia.
  assert (Hinv' : cluster_inv conf (fun _ => []) k (members (<[n := runs_as rp r]> C))).
  { rewrite members_insert. eapply (call_inv conf (fun _ => []) k (members C) n i (rp_member rp) r); try done;
      [apply I|by apply members_lookup|]. intros m Hm. apply (Hd m Hm). }
  assert (Hg : forall m, i = InStep m -> is_grant m = true -> m_term m <> 0 /\ cast C (m_from m) (id_ (rp_raft rp)) (m_term m)).
  { intros m Hm Hgr. destruct (dl_grant _ _ _ (Hd m Hm) Hgr) as (Hto & v & mv & Hv' & Hin). destruct (li_members _ _ _ I v mv Hv') as [_ _ _ Hsv].
    assert (Hb : m ∈ ballots (mb_sent mv)) by (by apply list_elem_of_filter). destruct (Hsv m) as [[Hf Hz'] _]; [exact Hb|].
    split; [done|]. exists mv, m. rewrite Hf, Hid. done. }
  destruct (handle_goes conf (cast C) (rp_sent rp) (given C) i (rp_raft rp) Hi Hcf (fun m Hm => delivered_given _ _ _ (Hd m Hm)) Hg _ _ E) as (R' & M & Hch).
  { constructor; [eapply node_ok_weaken; [|exact Hok]; lia|done|by apply (li_batch _ _ _ I n)|done]. }
  assert (T' := tidy_chain conf (cast C) (rp_sent rp) (world C n) (given C) (own (rp_raft rp)) (led_now C) (led_stored C) n t0
    ltac:(intros F (G & HG & HS); exists G; by split; [left|]) ltac:(intros x t (rx & Hx & Hm & _); by exists rx)
    (fun r x => no_rival _ _ _ _ _ Hconf I Hn r x) _ _ Hch T).
  assert (Hmine : forall t, mine conf (cast C) (rp_sent rp) (rp_raft rp) t -> mine conf (cast C) (rp_sent rp) r t) by (intros t; by eapply chain_mine).
  set (C' := <[n := runs_as rp r]> C) in *.
  assert (Hled : forall y t, led_stored C y t -> led_stored C' y t) by (intros y t; apply (led_stored_step C n rp); [done|done|]; auto).
  assert (Hkept : forall F, kept_piece C' F -> kept_piece C F).
  { intros F (x & rx & Hx & HF). destruct (others _ _ _ _ _ Hx) as [[-> ->]|[_ Hx']]; [by exists n, rp|by exists x, rx]. }
  assert (Hpiece : forall F, piece C' F -> world C n F \/ own r F).
  { intros F [HF|(x & rx & Hx & HF)]; [left; left; auto|]. destruct (others _ _ _ _ _ Hx) as [[-> ->]|[Hne Hx']]; [by right|left; right; eauto]. }
  constructor.
  - done.
  - intros x rx Hx. destruct (others _ _ _ _ _ Hx) as [[-> ->]|[_ Hx']]; [apply R'|by eapply (li_batch _ _ _ I)].
  - intros F G HF HG. apply (td_agree _ _ _ _ _ _ _ _ _ _ _ T'); by apply Hpiece.
  - intros x rx F j t Hx HF Ht. destruct (others _ _ _ _ _ Hx) as [[-> ->]|[Hne Hx']].
    + destruct (td_own _ _ _ _ _ _ _ _ _ _ _ T' F j t HF Ht) as [H|[(y & Hy & H)|H]]; [by left| |right; right; by apply mine_cast with rp].
      right. left. exists y. split; [|by apply Hled]. by rewrite <- (td_me _ _ _ _ _ _ _ _ _ _ _ T').
    + destruct (li_own _ _ _ I x rx F j t Hx' HF Ht) as [H|[(y & Hy & H)|H]]; [by left|right; left; exists y; auto|right; right; by apply mine_cast with rp].
  - intros F j t HF Ht. destruct (li_kept _ _ _ I F j t (Hkept F HF) Ht) as [H|[y H]]; [by left|right; exists y; auto].
  - intros x rx F j Hx Hl HF Ht. destruct (others _ _ _ _ _ Hx) as [[-> ->]|[Hne Hx']].
    + apply (td_leader _ _ _ _ _ _ _ _ _ _ _ T' F j); auto.
    + destruct (Hpiece F HF) as [HW|HO]; [apply (li_leader _ _ _ I x rx F j Hx' Hl); [apply (piece_world C n rp); auto|done]|].
      destruct (td_origin _ _ _ _ _ _ _ _ _ _ _ T' F j _ HO Ht) as [(G & HG & Hi')|Hm].
      * apply (li_leader _ _ _ I x rx G j Hx' Hl); [|done]. by apply (piece_world C n rp).
      * exfalso. eapply (leader_alone _ _ C n x rp rx r); try done. apply T'.
  - intros x rx Hx. destruct (others _ _ _ _ _ Hx) as [[-> ->]|[_ Hx']]; [|by eapply (li_old _ _ _ I)].
    split; [apply (li_old _ _ _ I n rp Hn)|]. apply T'.
Qed.

(** ** Sending and starting again *)

Lemma mine_sent c sent (r : Raft S) t : mine conf c sent r t -> mine conf c (sent ++ messages_ r) (r <| messages_ := [] |>) t.
Proof. intros [He [Hp Hl]]. split; [done|]. constructor; [done|]. cbn. by rewrite app_nil_r. Qed.

Lemma settled_covered sent (r : Raft S) t : settled sent r t -> covered (hard_state r) (id_ r) t.
Proof. intros [[H|(H & Hv & _)] _]; [by left|by right]. Qed.

Lemma send_log_inv t0 k C n rp : 0 <= k -> log_inv t0 k C -> C !! n = Some rp -> log_inv t0 k (<[n := sends_all rp]> C).
Proof.
  intros Hk I Hn. destruct (member_known _ _ _ _ _ I Hn) as (Hg & Hid & Hnz). set (C' := <[n := sends_all rp]> C).
  assert (Hsent : forall m, m ∈ rp_sent rp -> m ∈ rp_sent (sends_all rp)) by (intros m Hm; cbn; apply elem_of_app; by left).
  assert (Hm' : forall t, mine conf (cast C) (rp_sent rp) (rp_raft rp) t ->
    mine conf (cast C) (rp_sent (sends_all rp)) (rp_raft (sends_all rp)) t /\ covered (rp_stored (sends_all rp)) n t).
  { intros t Hm. split; [by apply mine_sent|]. cbn. rewrite <- Hid. eapply settled_covered, (proj2 Hm). }
  assert (Hled : forall y t, led_stored C y t -> led_stored C' y t) by (intros y t; apply (led_stored_step C n rp); auto).
  assert (Hself : forall t, mine conf (cast C) (rp_sent rp) (rp_raft rp) t -> led_stored C' n t).
  { intros t Hm. exists (sends_all rp). unfold C'. rewrite lookup_insert_eq. split; [done|]. destruct (Hm' t Hm). split; [|done].
    by eapply mine_cast. }
  assert (Hkept : forall F, kept_piece C' F -> kept_piece C F \/ own (rp_raft rp) F).
  { intros F (x & rx & Hx & HF). destruct (others _ _ _ _ _ Hx) as [[-> ->]|[_ Hx']]; [|left; by exists x, rx]. cbn in HF.
    destruct HF as [->|(m & Hm & Hc & ->)]; [right; by left|]. apply elem_of_app in Hm as [Hm|Hm]; [left; exists n, rp; eauto 6|right; right; eauto]. }
  assert (Hown : forall x rx F, C' !! x = Some rx -> own (rp_raft rx) F -> exists ry, C !! x = Some ry /\ own (rp_raft ry) F).
  { intros x rx F Hx HF. destruct (others _ _ _ _ _ Hx) as [[-> ->]|[_ Hx']]; [|by exists rx]. exists rp. split; [done|]. left.
    destruct HF as [->|(m & Hm & _)]; [done|]. by apply elem_of_nil in Hm. }
  assert (Hpiece : forall F, piece C' F -> piece C F).
  { intros F [HF|(x & rx & Hx & HF)]; [destruct (Hkept F HF); [by left|right; eauto]|]. destruct (Hown x rx F Hx HF) as (ry & Hy & HF'). right. eauto. }
  constructor.
  - unfold C'. rewrite members_insert. by apply (send_inv conf (fun _ => []) k (members C) n (rp_member rp)); [|apply I|apply members_lookup].
  - intros x rx Hx. destruct (others _ _ _ _ _ Hx) as [[-> ->]|[_ Hx']]; [by apply (li_batch _ _ _ I n rp)|by eapply (li_batch _ _ _ I)].
  - intros F G HF HG. apply (li_agree _ _ _ I); auto.
  - intros x rx F i t Hx HF Ht. destruct (others _ _ _ _ _ Hx) as [[-> ->]|[Hne Hx']].
    + destruct (Hown n _ F Hx HF) as (ry & Hy & HF'). assert (ry = rp) as -> by congruence.
      destruct (li_own _ _ _ I n rp F i t Hn HF' Ht) as [H|[(y & Hy' & H)|H]]; [by left|right; left; exists y; auto|].
      right. right. eapply mine_cast; [done|done|]. by apply Hm'.
    + destruct (li_own _ _ _ I x rx F i t Hx' HF Ht) as [H|[(y & Hy' & H)|H]]; [by left|right; left; exists y; auto|].
      right. right. by eapply mine_cast.
  - intros F i t HF Ht. destruct (Hkept F HF) as [HK|HO].
    + destruct (li_kept _ _ _ I F i t HK Ht) as [H|[y H]]; [by left|right; exists y; auto].
    + destruct (li_own _ _ _ I n rp F i t Hn HO Ht) as [H|[(y & _ & H)|H]]; [by left|right; exists y; auto|right; exists n; auto].
  - intros x rx F i Hx Hl HF Ht. destruct (others _ _ _ _ _ Hx) as [[-> ->]|[_ Hx']].
    + by apply (li_leader _ _ _ I n rp F i Hn Hl); [apply Hpiece|].
    + by apply (li_leader _ _ _ I x rx F i Hx' Hl); [apply Hpiece|].
  - intros x rx Hx. destruct (others _ _ _ _ _ Hx) as [[-> ->]|[_ Hx']]; [|by eapply (li_old _ _ _ I)].
    cbn. destruct (li_old _ _ _ I n rp Hn) as (_ & H1 & H2). split; [done|]. split; [done|exact H2].
Qed.

Lemma restart_log_inv t0 k C n config store draws rp rs r : 0 <= k -> log_inv t0 k C -> C !! n = Some rp ->
  config_ok config -> c_id config = n -> c_load_state_on_startup config = true -> c_batch_append config = false ->
  st_inv store -> InitialState store = Ok rs -> rs_hard_state rs = rp_stored rp -> sub (st_view store) (rp_log rp) ->
  c_applied config <= start_commit config rs (st_view store) -> v_last (st_view store) + k < u64max ->
  Raft.new config store draws = Ret r -> voters_of r = conf -> log_inv t0 k (<[n := runs_as rp r]> C).
Proof.
  intros Hk I Hn Hco Hid Hl Hb Hi Hrs Hhs Hsub Ha Hroom E Hv. set (C' := <[n := runs_as rp r]> C).
  destruct (li_members _ _ _ I n _ (members_lookup _ _ _ Hn)) as [_ Hidm Ht _]. cbn in Hidm.
  assert (Hinv : cluster_inv conf (fun _ => []) k (members C')).
  { unfold C'. rewrite members_insert. by eapply (restart_inv conf (fun _ => []) k (members C) n (rp_member rp)); [|apply I|apply members_lookup|..]. }
  destruct (new_node_started config store draws rs r Hco Hi Hrs ltac:(rewrite Hhs; lia) Ha E) as (_ & _ & Hview & _ & Htm).
  destruct (new_node_quiet config store draws rs r Hi Hrs Hl E) as (Hqi & Hqm & Hqs & Hqv & Hqb).
  rewrite start_term_stored, Hhs in Htm by done. rewrite Hhs in Hqv.
  assert (Hm' : forall t, mine conf (cast C) (rp_sent rp) (rp_raft rp) t -> covered (rp_stored rp) n t -> mine conf (cast C) (rp_sent rp) r t).
  { intros t [He [_ Hlo]] Hcv. rewrite Hidm in *. split; [by rewrite Hqi, Hid|]. constructor.
    - rewrite Hqi, Hqv, Hqs, Htm, Hid. destruct Hcv as [H|[H1 H2]]; [by left|by right].
    - rewrite Hqm, Hqi, Hid, app_nil_r. intros g Hg. apply Hlo. rewrite ballots_app. apply elem_of_app. by left. }
  assert (Hled : forall y t, led_stored C y t -> led_stored C' y t) by (intros y t; apply (led_stored_step C n rp); [done|done|]; auto).
  assert (Hkept : forall F, kept_piece C' F -> kept_piece C F).
  { intros F (x & rx & Hx & HF). destruct (others _ _ _ _ _ Hx) as [[-> ->]|[_ Hx']]; [by exists n, rp|by exists x, rx]. }
  assert (Hown : forall F, own r F -> sub F (rp_log rp)).
  { intros F [->|(m & Hm & _)]; [by rewrite Hview|]. rewrite Hqm in Hm. by apply elem_of_nil in Hm. }
  assert (Hlog : kept_piece C (rp_log rp)) by (exists n, rp; auto).
  assert (Hpiece : forall F, piece C' F -> exists G, piece C G /\ sub F G).
  { intros F [HF|(x & rx & Hx & HF)]; [exists F; split; [left; auto|done]|].
    destruct (others _ _ _ _ _ Hx) as [[-> ->]|[Hne Hx']]; [exists (rp_log rp); split; [by left|auto]|exists F; split; [right; eauto|done]]. }
  constructor.
  - done.
  - intros x rx Hx. destruct (others _ _ _ _ _ Hx) as [[-> ->]|[_ Hx']]; [cbn; congruence|by eapply (li_batch _ _ _ I)].
  - intros F G HF HG. destruct (Hpiece F HF) as (F' & HF' & SF), (Hpiece G HG) as (G' & HG' & SG).
    eapply agree_sub; [exact SF|]. apply agree_sym. eapply agree_sub; [exact SG|]. by apply (li_agree _ _ _ I).
  - intros x rx F i t Hx HF Hft. destruct (others _ _ _ _ _ Hx) as [[-> ->]|[Hne Hx']].
    + apply (sub_term _ _ (Hown F HF)) in Hft. destruct (li_kept _ _ _ I _ i t Hlog Hft) as [H|[y H]]; [by left|]. right.
      destruct (decide (y = n)) as [->|Hy]; [right|left; exists y; auto]. destruct H as (ry & Hry & Hm & Hc). assert (ry = rp) as -> by congruence.
      eapply mine_cast; [done|done|]. by apply Hm'.
    + destruct (li_own _ _ _ I x rx F i t Hx' HF Hft) as [H|[(y & Hy' & H)|H]]; [by left|right; left; exists y; auto|]. right. right. by eapply mine_cast.
  - intros F i t HF Hft. destruct (li_kept _ _ _ I F i t (Hkept F HF) Hft) as [H|[y H]]; [by left|right; exists y; auto].
  - intros x rx F i Hx Hlead HF Hft. destruct (others _ _ _ _ _ Hx) as [[-> ->]|[_ Hx']]; [cbn in Hlead; congruence|].
    destruct (Hpiece F HF) as (G & HG & HS). apply (li_leader _ _ _ I x rx G i Hx' Hlead HG). by apply HS.
  - intros x rx Hx. destruct (others _ _ _ _ _ Hx) as [[-> ->]|[_ Hx']]; [|by eapply (li_old _ _ _ I)].
    cbn. destruct (li_old _ _ _ I n rp Hn) as (H1 & _). rewrite Htm. split; [done|]. split; [done|]. unfold stands. rewrite Hqs. by intros [].
Qed.

(** ** Runs *)

Lemma log_run_inv t0 k evs C C' : incoming_ conf <> ∅ -> 0 <= k -> log_run k evs C C' -> log_inv t0 (events_reach evs + k) C -> log_inv t0 k C'.
Proof.
  intros Hconf Hk Hrun. induction Hrun as [C|n i evs C C' rp r Hn Hi Hd E Hv _ IH|n evs C C' rp Hn _ IH
    |n config store draws evs C C' rp rs r Hn Hco Hid Hl Hb Hst Hrs Hhs Hsub Ha Hroom E Hv _ IH]; intros Hinv; cbn [events_reach event_reach] in Hinv.
  - done.
  - pose proof (events_reach_nonneg evs). apply IH. rewrite <- Z.add_assoc in Hinv. eapply call_log_inv; [done|lia|done..].
  - pose proof (events_reach_nonneg evs). apply IH. apply send_log_inv; [lia|done..].
  - pose proof (events_reach_nonneg evs). apply IH. eapply restart_log_inv; [lia|done..].
Qed.

Lemma log_start_inv t0 k C : 0 <= k -> log_start t0 k C -> log_inv t0 k C.
Proof.
  intros Hk (Hstart & Hlogs & Hag). pose proof (start_inv conf k (members C) Hk Hstart) as Hinv.
  assert (Hempty : forall x rp, C !! x = Some rp -> state_ (rp_raft rp) = Follower /\ messages_ (rp_raft rp) = [] /\
    rp_stored rp = hard_state (rp_raft rp) /\ rp_sent rp = []).
  { intros x rp Hx. destruct (Hstart x _ (members_lookup _ _ _ Hx)) as (_ & _ & _ & _ & Hf & Hm & Hst & Hs). done. }
  assert (Hpiece : forall F, piece C F -> exists x rp, C !! x = Some rp /\ F = rp_log rp).
  { intros F [(x & rp & Hx & HF)|(x & rp & Hx & HF)]; destruct (Hempty x rp Hx) as (_ & Hm & _ & Hs); exists x, rp; (split; [done|]).
    - destruct HF as [->|(m & Hin & _)]; [done|]. rewrite Hs in Hin. by apply elem_of_nil in Hin.
    - destruct HF as [->|(m & Hin & _)]; [|rewrite Hm in Hin; by apply elem_of_nil in Hin]. symmetry. by apply (Hlogs x). }
  assert (Hold : forall F i t, piece C F -> term_at F i = Some t -> t <= t0).
  { intros F i t HF Ht. destruct (Hpiece F HF) as (x & rp & Hx & ->). by eapply Hlogs. }
  constructor.
  - done.
  - intros x rp Hx. by apply (Hlogs x).
  - intros F G HF HG. destruct (Hpiece F HF) as (x & rp & Hx & ->), (Hpiece G HG) as (y & rq & Hy & ->). by eapply Hag.
  - intros x rp F i t Hx HF Ht. left. eapply Hold; [|exact Ht]. right. eauto.
  - intros F i t HF Ht. left. eapply Hold; [|exact Ht]. by left.
  - intros x rp F i Hx Hl. destruct (Hempty x rp Hx). congruence.
  - intros x rp Hx. destruct (Hempty x rp Hx) as (Hf & _ & -> & _). destruct (Hlogs x rp Hx) as (_ & _ & Ht & _).
    split; [done|]. split; [done|]. unfold stands. rewrite Hf. by intros [].
Qed.

(** The log of a node, as it is or as it is stored. *)
Definition log_of C (n : Z) (v : LogView) : Prop := exists rp, C !! n = Some rp /\ (v = view (rp_raft rp) \/ v = rp_log rp).

(** C2: Logs match.  In a cluster whose nodes begin with logs that agree, over
    a network that loses, repeats, delays and reorders messages, and with nodes
    that crash and start again from their stored state: if the logs of two nodes
    have an entry of the same index and term, then the entries they both have
    up to that index are the same.  This holds of the logs in memory and of the
    stored ones, also with compacted logs and snapshots, and whatever
    acknowledgements, heartbeats and proposals are delivered. *)
Theorem log_matching t0 evs C C' n1 n2 v1 v2 i e1 e2 : incoming_ conf <> ∅ ->
  log_start t0 (events_reach evs) C -> log_run 0 evs C C' -> log_of C' n1 v1 -> log_of C' n2 v2 ->
  v_at v1 i = Some e1 -> v_at v2 i = Some e2 -> e_term e1 = e_term e2 ->
  forall j a b, j <= i -> v_at v1 j = Some a -> v_at v2 j = Some b -> a = b.
Proof.
  intros Hconf Hstart Hrun Hv1 Hv2 H1 H2 He j a b Hj Ha Hb.
  assert (I : log_inv t0 0 C').
  { eapply log_run_inv; [done|lia|exact Hrun|]. rewrite Z.add_0_r. apply log_start_inv; [apply events_reach_nonneg|done]. }
  assert (Hp : forall n v, log_of C' n v -> piece C' v).
  { intros n v (rp & Hn & [->| ->]); [right; exists n, rp; split; [done|by left]|left; exists n, rp; auto]. }
  apply term_at_entry in H1, H2. rewrite <- He in H2.
  by destruct (li_agree _ _ _ I v1 v2 (Hp _ _ Hv1) (Hp _ _ Hv2) i _ j H1 H2 Hj) as [_ Hat]; eauto.
Qed.
End LogMatching.

(** ** Witness

    Three voters; the first is elected, sends its first entry to the second,
    which stores it, crashes and starts again. *)
Definition trio_replica (mb : Member MemoryStorage) : Replica MemoryStorage := mkReplica mb (log_view (raft_log_ (mb_raft mb))).
Definition trio_group : Group MemoryStorage := trio_replica <$> trio.

Definition trio_append : Message := empty_message <| m_type := MsgAppend |> <| m_to := 2 |> <| m_from := 1 |> <| m_term := 2 |>
  <| m_log_term := 1 |> <| m_index := 3 |> <| m_entries := [empty_entry <| e_term := 2 |> <| e_index := 4 |>] |> <| m_commit := 2 |>.

Definition trio_stored : MemoryStorage :=
  (trio_store 2 1) <| MemStorage.entries_ := three_entries ++ [empty_entry <| e_term := 2 |> <| e_index := 4 |>] |>.

Definition trio_replication : list (Event MemoryStorage) :=
  trio_election ++ [EvSend 1; EvCall 2 (InStep trio_append); EvSend 2; EvRestart 2 (trio_config 2) trio_stored 0].

Lemma three_terms i t : term_at (mkView 0 (Some 0) three_entries) i = Some t -> t <= 1.
Proof.
  unfold term_at, v_at. cbn [v_dummy v_dummy_term v_entries]. destruct (Z.eqb_spec i 0); [intros [= <-]; lia|].
  destruct (0 <? i); [|done]. destruct (Z.to_nat (i - 0 - 1)) as [|[|[|k]]]; cbn; [intros [= <-]; lia..|]. by destruct k.
Qed.

Lemma trio_group_start k : k <= 1000 -> log_start trio_conf 1 k trio_group.
Proof.
  intros Hk. assert (Hm : members trio_group = trio) 
    by (unfold members, trio_group; rewrite <- map_fmap_compose; apply map_fmap_id).
  assert (Hlog : forall n rp, trio_group !! n = Some rp -> batch_append_ (rp_raft rp) = false /\ rp_log rp = log_view (raft_log_ (rp_raft rp)) /\
    term_ (rp_raft rp) = 1 /\ rp_log rp = mkView 0 (Some 0) three_entries).
  { intros n rp E. unfold trio_group in E. rewrite lookup_fmap in E. destruct (trio !! n) as [mb|] eqn:Et; [|done]. injection E as <-.
    assert (Hn : n = 1 \/ n = 2 \/ n = 3).
    { unfold trio in Et. apply lookup_insert_Some in Et as [[? _]|[_ Et]]; [auto|]. apply lookup_insert_Some in Et as [[? _]|[_ Et]]; [auto|].
      apply lookup_singleton_Some in Et as [? _]. auto. }
    assert (E : mb = trio_member n) by (destruct Hn as [->|[->| ->]]; injection Et as <-; reflexivity). subst mb. cbn [rp_member rp_log trio_replica].
    split; [|split; [done|]]; [|split]; destruct Hn as [->|[->| ->]]; vm_compute; reflexivity. }
  split; [rewrite Hm; by apply trio_started|]. split.
  - intros n rp Hn. destruct (Hlog n rp Hn) as (Hb & Hv & Ht & Hl). split; [done|]. split; [done|]. split; [lia|].
    rewrite Hl. exact three_terms.
  - intros n1 n2 rp1 rp2 H1 H2. destruct (Hlog n1 rp1 H1) as (_ & _ & _ & ->), (Hlog n2 rp2 H2) as (_ & _ & _ & ->). apply agree_refl.
Qed.

Lemma trio_stored_inv : st_inv trio_stored.
Proof. constructor; [constructor| |]; cbn; unfold v_last; cbn; unfold is_u64, two64, u64max; repeat split; try lia. Qed.

Lemma trio_replicates : exists C', log_run trio_conf 0 trio_replication trio_group C' /\
  exists v1 v2, log_of C' 1 v1 /\ log_of C' 2 v2 /\ exists e, v_at v1 4 = Some e /\ v_at v2 4 = Some e.
Proof.
  assert (Hmsg : forall m, m_type m <> MsgAppend -> m_type m <> MsgSnapshot -> is_grant m = false -> forall C n, log_delivered (S := MemoryStorage) C n m).
  { intros m H1 H2 H3 C n. constructor; [intros Hg; congruence|by intros [? _]|done]. }
  eexists. split.
  { unfold trio_replication, trio_election. cbn [app].
    eapply lr_call; [vm_compute; reflexivity|constructor; cbn; unfold u64max; (lia || intuition congruence)|intros m [= <-]; by apply Hmsg|vm_compute; reflexivity|vm_compute; reflexivity|].
    eapply lr_send; [vm_compute; reflexivity|].
    eapply lr_call; [vm_compute; reflexivity|constructor; cbn; unfold u64max; (lia || intuition congruence)|intros m [= <-]; by apply Hmsg|vm_compute; reflexivity|vm_compute; reflexivity|].
    eapply lr_send; [vm_compute; reflexivity|].
    eapply lr_call; [vm_compute; reflexivity|constructor; cbn; unfold u64max; (lia || intuition congruence)| |vm_compute; reflexivity|vm_compute; reflexivity|].
    { intros m [= <-]. constructor; [|by intros [? _]|done]. intros _. split; [done|]. exists 2. eexists. split; [vm_compute; reflexivity|]. vm_compute. left. }
    eapply lr_send; [vm_compute; reflexivity|].
    eapply lr_call; [vm_compute; reflexivity| | |vm_compute; reflexivity|vm_compute; reflexivity|].
    { constructor; cbn; unfold u64max; try lia. intros _. repeat split; cbn; try lia; try (repeat constructor; done). }
    { intros m [= <-]. constructor; [done| |done]. intros _. exists 1. eexists. split; [vm_compute; reflexivity|]. vm_compute. right. right. right. left. }
    eapply lr_send; [vm_compute; reflexivity|].
    eapply lr_restart; [vm_compute; reflexivity|apply trio_config_ok|done|done|done|apply trio_stored_inv|reflexivity|vm_compute; reflexivity|vm_compute; by constructor|vm_compute; discriminate|vm_compute; reflexivity|vm_compute; reflexivity|vm_compute; reflexivity|].
    apply lr_nil. }
  eexists _, _. split; [eexists; split; [vm_compute; reflexivity|by left]|]. split; [eexists; split; [vm_compute; reflexivity|by left]|].
  eexists. split; vm_compute; reflexivity.
Qed.

Lemma log_matching_witness : exists C' v1 v2, log_run trio_conf 0 trio_replication trio_group C' /\ log_of C' 1 v1 /\ log_of C' 2 v2 /\
  forall j a b, j <= 4 -> v_at v1 j = Some a -> v_at v2 j = Some b -> a = b.
Proof.
  destruct trio_replicates as (C' & Hrun & v1 & v2 & H1 & H2 & e & E1 & E2). exists C', v1, v2. split; [exact Hrun|]. split; [exact H1|]. split; [exact H2|].
  apply (log_matching trio_conf 1 trio_replication trio_group C' 1 2 v1 v2 4 e e); [vm_compute; discriminate|apply trio_group_start; vm_compute; discriminate|exact Hrun|exact H1|exact H2|exact E1|exact E2|reflexivity].
Defined.
