(* ===== verification/Termination.v ===== *)
(** * Every call ends

    The model's loops carry fuel.  Under the invariant of [NodeInv] no call of
    the node's interface runs out of it: the loops of the code end. *)

From S2P Require Import Prelude Types Util Inflights Progress Quorum Tracker ConfChange Storage MemStorage Unstable ReadOnly Config RaftLog RaftLogProps RaftCore RaftSend LogSafety Raft NodeInv NodeSafety.

Section Termination.
Context {ENV : Env} {S : Type} {ST : Storage S} {SL : StorageLaws S}.
Implicit Types r : Raft S.

(** [halts n m]: [m] ends from every state with room for [n]. *)
Definition halts {A} (n : Z) (m : M (Raft S) A) : Prop := forall r, node_ok n r -> ends m r.

Lemma halts_bind {A B} a b (m : M (Raft S) A) (k : A -> M (Raft S) B) : 0 <= a -> 0 <= b ->
  halts a m -> pres (up a) m -> (forall x, halts b (k x)) -> halts (a + b) (bind m k).
Proof.
  intros Ha Hb Hm Hu Hk r Hok. assert (Hok1 : node_ok a r) by (eapply node_ok_weaken; [|exact Hok]; lia).
  apply ends_bind; [by apply Hm|]. intros x r' E. destruct (Hu _ _ _ E Hok1) as [Hok' Hmv].
  apply Hk. by eapply node_ok_after.
Qed.

Lemma halts_weaken {A} a b (m : M (Raft S) A) : a <= b -> halts a m -> halts b m.
Proof. intros Hab H r Hok. apply H. by eapply node_ok_weaken. Qed.

Lemma halts_nofuel {A} n (m : M (Raft S) A) : nofuel m -> halts n m.
Proof. intros H r _. apply H. Qed.

(** ** The log *)

Lemma LastIndex_ends (l : RaftLog S) : LastIndex l <> Abort NoFuel.
Proof. unfold LastIndex, Unwrap. nofuel_tac fail. Qed.

Lemma FirstIndex_ends (l : RaftLog S) : FirstIndex l <> Abort NoFuel.
Proof. unfold FirstIndex, Unwrap. nofuel_tac fail. Qed.

Lemma Term_ends i (l : RaftLog S) : st_inv (store_ l) -> Term i l <> Abort NoFuel.
Proof.
  intros Hi. unfold Term, MaybeTerm. cbv zeta.
  nofuel_tac ltac:(first [apply FirstIndex_ends | apply LastIndex_ends | apply vec_at_ends | by apply st_term_ends]).
Qed.

Lemma FindConflictByTerm_ends index term (l : RaftLog S) : log_wf l -> 0 <= term -> 0 <= index ->
  FindConflictByTerm index term l <> Abort NoFuel.
Proof.
  intros W Ht Hi. unfold FindConflictByTerm. rewrite LastIndex_view by done. cbn [obind].
  destruct (Z.ltb_spec (v_last (log_view l)) index) as [|Hl]; [done|]. pose proof (view_bounds l W) as Hb.
  assert (Hloop : forall n i, Z.of_nat n = i -> i <= v_last (log_view l) ->
    FindConflictByTerm_loop (Datatypes.S (Datatypes.S n)) i term l <> Abort NoFuel).
  { induction n as [|n IH]; intros i Hn Hil; cbn [FindConflictByTerm_loop];
      (rewrite Term_view by (done || unfold is_u64, two64, u64max in *; lia)); cbn [obind];
      (destruct (v_term (log_view l) i) as [t|e]; [|done]); (destruct (term <? t); [|done]).
    - rewrite Term_view by (done || apply u64_range). cbn [obind].
      assert (E : v_term (log_view l) (u64 (i - 1)) = Ok 0).
      { unfold v_term. subst i. change (u64 (Z.of_nat 0 - 1)) with u64max.
        destruct (v_at (log_view l) u64max) as [e|] eqn:Ea; [apply v_at_Some in Ea; lia|].
        rewrite (proj2 (Z.eqb_neq _ _)) by lia. done. }
      rewrite E. destruct (Z.ltb_spec term 0); [lia|done].
    - rewrite (u64_id (i - 1)) by (unfold is_u64, two64, u64max in *; lia). apply IH; lia. }
  apply Hloop; lia.
Qed.

Lemma Slice_length lo hi max ctx (l : RaftLog S) ents l' : log_wf l -> lo < hi ->
  Slice lo hi max ctx l = Ret (Ok ents, l') -> log_wf l' /\ 0 <= lo /\ hi < two64 /\ zlen ents <= hi - lo.
Proof.
  intros W Hlt E. pose proof (view_bounds l W) as Hb. pose proof E as E0. unfold Slice in E0.
  apply bind_Ret in E0 as (r & l1 & E1 & E0). apply getsO_Ret in E1 as (x & E1 & [= -> ->]).
  destruct x as [[]|]; [|discriminate]. pose proof (MustCheckOutOfBounds_Ok _ _ _ W E1) as Hr.
  destruct (Slice_view l lo hi max ctx W) as (r & l2 & E2 & _ & W2 & Hk); [lia..|].
  rewrite E in E2. injection E2 as <- <-. destruct Hk as (k & _ & -> & _). split; [done|].
  rewrite length_take. pose proof (v_slice_length (log_view l) lo hi) as Hl.
  unfold two64, u64max in *. lia.
Qed.

Lemma Scan_ends {A} fuel lo hi page ctx (f : list Entry -> A -> A * bool) a (l : RaftLog S) : log_wf l ->
  (Z.to_nat (hi - lo) < fuel)%nat -> ends (Scan fuel lo hi page ctx f a) l.
Proof.
  revert lo a l. induction fuel as [|fuel IH]; intros lo a l W Hf; [lia|]. cbn [Scan].
  destruct (Z.ltb_spec lo hi) as [Hlt|]; [|done]. apply ends_bind; [by apply Slice_ends|].
  intros ents l' E. destruct ents as [[|e ents]|]; [done| |done].
  destruct (Slice_length _ _ _ _ _ _ _ W Hlt E) as (W' & Hlo & Hhi & Hlen). cbv zeta.
  destruct (f (e :: ents) a) as [a' []]; cbn [negb]; [|done]. cbn in Hlen.
  apply IH; [done|]. cbn. rewrite u64_id by (unfold is_u64; lia). lia.
Qed.

(** ** Peers and tracker *)

Lemma nofuel_on_progress {A} id (m : M Progress A) : nofuel m -> nofuel (on_progress (S := S) id m).
Proof.
  intros H r. unfold on_progress, ends. destruct (get_progress id r) as [p|]; [|done]. specialize (H p).
  unfold ends in H. destruct (m p) as [[]|]; [done|]. congruence.
Qed.

Lemma FreeTo_nofuel to : nofuel (FreeTo to).
Proof.
  assert (H : forall n f i idx, FreeTo_loop n to f i idx <> Abort NoFuel).
  { induction n as [|n IH]; intros f i idx; cbn [FreeTo_loop]; nofuel_tac ltac:(first [apply vec_at_ends | apply IH | progress unfold unwrap_buffer]). }
  unfold FreeTo. cbv zeta. nofuel_tac ltac:(first [apply H | apply vec_at_ends | progress unfold unwrap_buffer | progress cbv zeta]).
Qed.

Lemma FreeFirstOne_nofuel : nofuel FreeFirstOne.
Proof. unfold FreeFirstOne. nofuel_tac ltac:(first [apply FreeTo_nofuel | apply vec_at_ends | progress unfold unwrap_buffer]). Qed.

Lemma Inflights_Reset_nofuel : nofuel Inflights.Reset.
Proof. unfold Inflights.Reset. nofuel_tac ltac:(progress unfold SetCapacity, unwrap_buffer). Qed.

Lemma SetCapacity_nofuel n : nofuel (SetCapacity n).
Proof. unfold SetCapacity. cbv zeta. nofuel_tac ltac:(first [apply vec_at_ends | progress unfold unwrap_buffer | progress cbv zeta]). Qed.

Lemma BecomeProbe_nofuel : nofuel BecomeProbe.
Proof. unfold BecomeProbe, ResetState, on_inflights. cbv zeta. nofuel_tac ltac:(apply Inflights_Reset_nofuel). Qed.

Lemma BecomeReplicate_nofuel : nofuel BecomeReplicate.
Proof. unfold BecomeReplicate, ResetState, on_inflights. nofuel_tac ltac:(apply Inflights_Reset_nofuel). Qed.

Lemma Progress_Reset_nofuel next : nofuel (Progress.Reset next).
Proof. unfold Progress.Reset, on_inflights. nofuel_tac ltac:(apply Inflights_Reset_nofuel). Qed.

Lemma MaybeUpdate_nofuel n : nofuel (MaybeUpdate n).
Proof. unfold MaybeUpdate, Resume. cbv zeta. nofuel_tac fail. Qed.

Lemma MaybeDecTo_nofuel a b c : nofuel (MaybeDecTo a b c).
Proof. unfold MaybeDecTo, Resume. nofuel_tac fail. Qed.

Lemma MaxCommittedIndex_ends t : MaxCommittedIndex t <> Abort NoFuel.
Proof.
  unfold MaxCommittedIndex, JointCommittedIndex, MajorityCommittedIndex. cbv zeta.
  nofuel_tac ltac:(apply vec_at_ends).
Qed.

Lemma ConfRestore_nofuel next cs : nofuel (ConfChange.Restore next cs).
Proof.
  assert (H : forall ccs, nofuel (simple_each next ccs)).
  { induction ccs as [|cc ccs IH]; cbn [simple_each]; unfold ApplyConf; nofuel_tac ltac:(apply IH). }
  unfold ConfChange.Restore, ApplyConf. nofuel_tac ltac:(apply H).
Qed.

(** ** The node *)

Lemma send_nofuel m : nofuel (send (S := S) m).
Proof. unfold send. nofuel_tac ltac:(progress unfold stamp). Qed.

Lemma halts_on_log {A} n (m : M (RaftLog S) A) : (forall l, log_ok l -> ends m l) -> halts n (on_log m).
Proof. intros H r Hok. apply ends_zoom, H, Hok. Qed.

Lemma halts_foreach {X} (l : list X) (body : X -> M (Raft S) unit) :
  (forall x, halts 0 (body x)) -> (forall x, pres (up 0) (body x)) -> halts 0 (foreach l body).
Proof.
  intros Hb Hu. induction l as [|x l IH]; cbn [foreach]; [by apply halts_nofuel|].
  apply (halts_bind 0 0); (lia || auto).
Qed.

Lemma halts_each_peer body : (forall id, halts 0 (body id)) -> (forall id, pres (up 0) (body id)) ->
  halts 0 (each_peer body).
Proof.
  intros Hb Hu. unfold each_peer. apply (halts_bind 0 0); [lia|lia|by apply halts_nofuel|apply this_up|].
  intros r. by apply halts_foreach.
Qed.

Lemma halts_with_progress {A} id (m : M (SendCtx S) A) :
  (forall c, log_wf (raft_log_ (sc_core c)) -> peer_ok (sc_pr c) -> ends m c) -> halts 0 (with_progress id m).
Proof.
  intros H r Hok. unfold with_progress, ends. destruct (get_progress id r) as [p|] eqn:Ep; [|done].
  specialize (H (mkSendCtx (core_ r) p (messages_ r))). unfold ends in H.
  destruct (m _) as [[]|]; [done|]. intros [= ->]. apply H; [apply Hok| |done]. by apply (ok_peers _ _ Hok) in Ep.
Qed.

Lemma SendAppend_halts to : halts 0 (SendAppend to).
Proof.
  apply halts_with_progress. intros c W P. apply ends_bind; [by apply MaybeSendAppend_ends|]. done.
Qed.

Lemma MaybeSendAppend_halts to b : halts 0 (with_progress to (MaybeSendAppend to b)).
Proof. apply halts_with_progress. intros c W P. by apply MaybeSendAppend_ends. Qed.

Lemma SendAppendAggressively_halts to : halts 0 (SendAppendAggressively to).
Proof. apply halts_with_progress. intros c W P. by apply SendAppendAggressively_ends. Qed.

Lemma getsO_log_halts {A} n (f : Raft S -> outcome A) :
  (forall r, log_ok (raft_log_ r) -> f r <> Abort NoFuel) -> halts n (getsO f).
Proof. intros H r Hok. apply ends_getsO, H, Hok. Qed.

(** [halts_tac] follows the structure of a method that neither raises the term
    nor extends the log. *)
Lemma log_ok_store (l : RaftLog S) : log_ok l -> st_inv (store_ l).
Proof. intros [[] _]. done. Qed.

Ltac nofuel_leaf := first [ apply nofuel_on_progress | apply send_nofuel | apply FreeTo_nofuel | apply FreeFirstOne_nofuel
  | apply BecomeProbe_nofuel | apply BecomeReplicate_nofuel | apply MaybeUpdate_nofuel | apply MaybeDecTo_nofuel
  | apply Inflights_Reset_nofuel | apply SetCapacity_nofuel | apply ConfRestore_nofuel | apply Progress_Reset_nofuel
  | apply MaxCommittedIndex_ends
  | apply LastIndex_ends | apply vec_at_ends | apply Term_ends, log_ok_store; assumption
  | progress unfold Resume, Pause, SnapshotFailure, UpdateCommitted, SetCommitGroupID, on_inflights, on_tracker,
      on_read_only, on_uncommitted, this, last_index_of, at_, RecordVote, ResetVotes, QuorumRecentlyActive
  | progress cbv zeta ].

Ltac halts_step leaf :=
  match goal with
  | |- halts _ (let '(_, _) := ?x in _) => destruct x
  | |- halts 0 (bind _ _) => apply (halts_bind 0 0); [lia|lia| |solve [pres_tac up_leaf]|intros ?]
  | |- halts 0 (foreach _ _) => apply halts_foreach; [intros ?|intros ?; solve [pres_tac up_leaf]]
  | |- halts 0 (each_peer _) => apply halts_each_peer; [intros ?|intros ?; solve [pres_tac up_leaf]]
  | |- halts _ (when ?b _) => destruct b; unfold when
  | |- halts _ (if ?b then _ else _) => destruct b
  | |- halts _ (match ?x with _ => _ end) => destruct x
  | |- halts _ (getsO _) => apply getsO_log_halts; intros ? ?; solve [nofuel_tac nofuel_leaf]
  | |- halts _ _ => leaf
  | |- halts _ _ => apply halts_nofuel; solve [nofuel_tac nofuel_leaf]
  end.
Ltac halts_with leaf := cbv zeta; repeat halts_step leaf.

Lemma SendHeartbeat_halts to ctx : halts 0 (SendHeartbeat to ctx).
Proof. unfold SendHeartbeat. halts_with fail. Qed.

Lemma BroadcastAppend_halts : halts 0 BroadcastAppend.
Proof. unfold BroadcastAppend. halts_with ltac:(apply SendAppend_halts). Qed.

Lemma BroadcastHeartbeat_with_halts ctx : halts 0 (BroadcastHeartbeat_with ctx).
Proof. unfold BroadcastHeartbeat_with, SendHeartbeat. halts_with fail. Qed.

Lemma SendRequestSnapshot_halts : halts 0 SendRequestSnapshot.
Proof. unfold SendRequestSnapshot. halts_with fail. Qed.

Lemma CommitTo_nofuel c : nofuel (CommitTo (S := S) c).
Proof. unfold CommitTo. nofuel_tac nofuel_leaf. Qed.

Lemma LogMaybeCommit_ends c t (l : RaftLog S) : log_ok l -> ends (RaftLog.MaybeCommit c t) l.
Proof.
  intros Hl. unfold RaftLog.MaybeCommit, ends. rewrite bind_get. destruct (_ <? _); [|done].
  apply ends_bind; [apply ends_getsO, Term_ends, log_ok_store, Hl|]. intros x l' _.
  destruct (result_is _ _); [|done]. apply ends_bind; [apply CommitTo_nofuel|done].
Qed.

Lemma MaybeCommit_halts : halts 0 MaybeCommit.
Proof. unfold MaybeCommit. halts_with ltac:(apply halts_on_log; intros; by apply LogMaybeCommit_ends). Qed.

Lemma HasUnappliedConfChanges_halts low high ctx : halts 0 (HasUnappliedConfChanges low high ctx).
Proof.
  unfold HasUnappliedConfChanges.
  halts_with ltac:(apply halts_on_log; intros l [W _]; apply Scan_ends; [exact W|lia]).
Qed.

Lemma send_vote_requests_halts t m term : halts 0 (send_vote_requests t m term).
Proof. unfold send_vote_requests, CommitInfo, LastTerm. halts_with fail. Qed.

Lemma answer_read_halts req index : halts 0 (answer_read req index).
Proof. unfold answer_read, HandleReadyReadIndex. halts_with fail. Qed.

Lemma RecvACK_nofuel id ctx : nofuel (RecvACK id ctx).
Proof. unfold RecvACK. nofuel_tac nofuel_leaf. Qed.

Lemma ReadOnly_Advance_nofuel ctx : nofuel (Advance ctx).
Proof.
  assert (H1 : forall p q i, find_ctx p q ctx i <> Abort NoFuel).
  { intros p q. induction q as [|x q IH]; intros i; cbn [find_ctx]; nofuel_tac ltac:(apply IH). }
  assert (H2 : forall n, nofuel (take_front n)).
  { induction n as [|n IH]; cbn [take_front]; nofuel_tac ltac:(apply IH). }
  unfold Advance. nofuel_tac ltac:(first [apply H1 | apply H2]).
Qed.

Lemma ack_read_halts id ctx : halts 0 (ack_read id ctx).
Proof.
  unfold ack_read.
  halts_with ltac:(first [apply answer_read_halts | apply halts_nofuel, nofuel_zoom, RecvACK_nofuel
    | apply halts_nofuel, nofuel_zoom, ReadOnly_Advance_nofuel]).
Qed.

Lemma PostConfChange_halts : halts 0 PostConfChange.
Proof.
  unfold PostConfChange, AbortLeaderTransfer.
  halts_with ltac:(first [apply MaybeCommit_halts | apply BroadcastAppend_halts | apply MaybeSendAppend_halts | apply ack_read_halts]).
Qed.

(** Roles *)

Ltac node_nofuel := first [ nofuel_leaf | progress unfold each_peer, on_log, when ].

Lemma Reset_nofuel term : nofuel (Reset (S := S) term).
Proof.
  unfold Reset, reset_term, reset_role, reset_peers, ResetRandomizedElectionTimeout, AbortLeaderTransfer.
  nofuel_tac node_nofuel.
Qed.

Lemma BecomeFollower_nofuel term leader : nofuel (BecomeFollower (S := S) term leader).
Proof. unfold BecomeFollower. nofuel_tac ltac:(first [apply Reset_nofuel | node_nofuel]). Qed.

Lemma BecomeCandidate_nofuel : nofuel (BecomeCandidate (S := S)).
Proof. unfold BecomeCandidate. nofuel_tac ltac:(first [apply Reset_nofuel | node_nofuel]). Qed.

Lemma BecomePreCandidate_nofuel : nofuel (BecomePreCandidate (S := S)).
Proof. unfold BecomePreCandidate. nofuel_tac node_nofuel. Qed.

Lemma Append_nofuel entries : nofuel (Append (S := S) entries).
Proof.
  unfold Append, on_unstable, TruncateAndAppend, Unstable.MustCheckOutOfBounds. nofuel_tac node_nofuel.
Qed.

Lemma AppendEntry_nofuel entries : nofuel (AppendEntry (S := S) entries).
Proof.
  unfold AppendEntry, on_uncommitted, MaybeIncreaseUncommittedSize.
  nofuel_tac ltac:(first [apply Append_nofuel | node_nofuel]).
Qed.

Lemma BecomeLeader_nofuel : nofuel (BecomeLeader (S := S)).
Proof. unfold BecomeLeader. nofuel_tac ltac:(first [apply Reset_nofuel | apply AppendEntry_nofuel | node_nofuel]). Qed.

(** A node that is not a pre-candidate does not campaign when it is polled. *)
Lemma PollWith_ends campaign from vote n r : 1 <= n -> node_ok n r ->
  (is_role PreCandidate r = true -> halts n campaign) -> ends (PollWith campaign from vote) r.
Proof.
  intros Hn Hok Hc. unfold PollWith. assert (Hok0 : node_ok 0 r) by (eapply node_ok_weaken; [|exact Hok]; lia).
  apply ends_bind; [apply (halts_nofuel 0); [nofuel_tac node_nofuel|done]|]. intros ? r1 E1.
  assert (Hp : is_role PreCandidate r1 = is_role PreCandidate r).
  { unfold is_role. apply zoom_Ret in E1 as (? & t & _ & [= _ ->]). done. }
  assert (Hup : up 0 r r1) by (by eapply up_on_tracker; [apply RecordVote_up|]).
  assert (Hok1 : node_ok n r1). { destruct (Hup Hok0). by apply (node_ok_after 0 n r). }
  unfold this, ends. rewrite bind_get. destruct (CountVotes _) as [[? ?] []]; apply ends_bind; try done.
  - apply BecomeFollower_nofuel.
  - rewrite <- Hp in Hc. destruct (is_role PreCandidate r1); [by apply Hc|].
    apply (halts_bind 1 0); [lia|lia|apply halts_nofuel, BecomeLeader_nofuel|apply BecomeLeader_up| |].
    + intros _. apply BroadcastAppend_halts.
    + eapply node_ok_weaken; [|exact Hok1]. lia.
Qed.

Lemma BecomeCandidate_role r a r' : BecomeCandidate r = Ret (a, r') -> state_ r' = Candidate.
Proof.
  intros E. unfold BecomeCandidate, this in E. rewrite bind_get in E. apply bind_Ret in E as (? & r0 & _ & E).
  apply bind_Ret in E as (? & r1 & _ & E). cbn in E. by injection E as _ <-.
Qed.

Lemma CampaignWith_halts n campaign t : 1 <= n -> pres (up n) campaign ->
  (t = CampaignPreElection -> halts n campaign) -> halts (1 + n) (CampaignWith campaign t).
Proof.
  intros Hn Hu Hc. unfold CampaignWith. intros r Hok. apply ends_bind.
  { apply (halts_nofuel 0); [|eapply node_ok_weaken; [|exact Hok]; lia]. destruct (bool_decide _);
      nofuel_tac ltac:(first [apply BecomePreCandidate_nofuel | apply BecomeCandidate_nofuel | node_nofuel]). }
  intros [vote_msg term] r1 E1.
  assert (H1 : node_ok n r1 /\ (is_role PreCandidate r1 = true -> halts n campaign)).
  { destruct (bool_decide (t = CampaignPreElection)) eqn:Ht.
    - apply bind_Ret in E1 as (? & r2 & E1 & E2). unfold this in E2. rewrite bind_get in E2. injection E2 as _ _ <-.
      apply BecomePreCandidate_up in E1. destruct E1 as [Hok1 M1]; [eapply node_ok_weaken; [|exact Hok]; lia|].
      split; [|intros _; apply Hc; by apply bool_decide_eq_true in Ht]. eapply node_ok_weaken; [|by eapply (node_ok_after 0 (1 + n))]. lia.
    - apply bind_Ret in E1 as (? & r2 & E1 & E2). unfold this in E2. rewrite bind_get in E2. injection E2 as _ _ <-.
      pose proof (BecomeCandidate_role _ _ _ E1) as Hr. apply BecomeCandidate_up in E1.
      destruct E1 as [Hok1 M1]; [eapply node_ok_weaken; [|exact Hok]; lia|].
      split; [by eapply node_ok_after|]. unfold is_role. rewrite Hr. by rewrite bool_decide_false. }
  destruct H1 as [Hok1 Hc1]. unfold this, ends. rewrite bind_get. apply ends_bind; [by eapply PollWith_ends|].
  intros result r2 E2. pose proof (PollWith_up n campaign (id_ r1) true Hn Hu _ _ _ E2 Hok1) as [Hok2 _].
  destruct (bool_decide (result = VoteWon)); [done|]. by apply send_vote_requests_halts.
Qed.

Lemma election_halts : halts 2 (CampaignFuel 1 CampaignElection).
Proof. apply (CampaignWith_halts 1); [lia|exact (CampaignFuel_up 0 CampaignElection)|discriminate]. Qed.

Lemma Campaign_halts t : halts 3 (Campaign t).
Proof. apply (CampaignWith_halts 2); [lia|exact (CampaignFuel_up 1 CampaignElection)|]. intros _. apply election_halts. Qed.

Lemma Poll_halts from vote : halts 2 (Poll from vote).
Proof. intros r Hok. eapply (PollWith_ends _ _ _ 2); [lia|done|]. intros _. apply election_halts. Qed.

Lemma Hup_halts b : halts 3 (Hup b).
Proof.
  unfold Hup. apply (halts_bind 0 3); [lia|lia|by apply halts_nofuel|apply this_up|intros r].
  destruct (is_role Leader r); [by apply halts_nofuel|]. cbv zeta.
  apply (halts_bind 0 3); [lia|lia|apply HasUnappliedConfChanges_halts|apply HasUnappliedConfChanges_up|].
  intros []; [by apply halts_nofuel|]. destruct b; [|destruct (pre_vote_ r)]; apply Campaign_halts.
Qed.

Lemma MaybeCommitByVote_halts m : halts 0 (MaybeCommitByVote m).
Proof.
  unfold MaybeCommitByVote. destruct (_ || _); [by apply halts_nofuel|].
  halts_with ltac:(first [ apply HasUnappliedConfChanges_halts | apply halts_nofuel, BecomeFollower_nofuel
    | apply halts_on_log; intros; by apply LogMaybeCommit_ends ]).
Qed.

(** ** Handlers *)

Lemma propose_halts entries : halts (zlen entries) (propose entries).
Proof.
  unfold propose, dropped. rewrite <- (Z.add_0_l (zlen entries)).
  apply (halts_bind 0); [lia|lia|apply halts_nofuel; nofuel_tac nofuel_leaf|pres_tac up_leaf|intros _].
  rewrite <- (Z.add_0_l (zlen entries)).
  apply (halts_bind 0); [lia|lia|by apply halts_nofuel|apply this_up|intros r].
  destruct (bool_decide _); [by apply halts_nofuel|]. destruct (bool_decide _); [by apply halts_nofuel|].
  destruct (check_proposal _ _ _ _) as [position|]; [|by apply halts_nofuel].
  rewrite <- (Z.add_0_l (zlen entries)).
  apply (halts_bind 0); [lia|lia|apply halts_nofuel; nofuel_tac nofuel_leaf|pres_tac up_leaf|intros last].
  rewrite <- (Z.add_0_r (zlen entries)).
  apply halts_bind; [lia|lia|apply halts_nofuel, AppendEntry_nofuel|apply AppendEntry_up|intros []; cbn [negb]].
  - halts_with ltac:(apply BroadcastAppend_halts).
  - by apply halts_nofuel.
Qed.

Lemma HandleAppendResponse_halts m : msg_ok m -> halts 0 (HandleAppendResponse m).
Proof.
  intros Hm. pose proof (mo_hint m Hm). assert (is_u64 (m_index m)) by (destruct Hm; unfold is_u64, two64, u64max in *; lia).
  unfold HandleAppendResponse, SendTimeoutNow. cbv zeta.
  apply (halts_bind 0 0); [lia|lia| |pres_tac up_leaf|intros next].
  { destruct (m_reject m && (0 <? m_log_term m)) eqn:Eb; [|by apply halts_nofuel].
    apply andb_true_iff in Eb as [_ Ht%Z.ltb_lt].
    apply (halts_bind 0 0); [lia|lia| |pres_tac up_leaf|intros [i o]; by apply halts_nofuel].
    apply getsO_log_halts. intros r [W _]. by apply FindConflictByTerm_ends; [|lia|]. }
  assert (Hu : forall id, pres (up 0) (on_progress (S := S) id (MaybeUpdate (m_index m)))).
  { intros id. apply up_on_progress, MaybeUpdate_up. destruct Hm. done. }
  assert (Hd : forall id, pres (up 0) (on_progress (S := S) id (MaybeDecTo (m_index m) next (m_request_snapshot m)))).
  { intros id. apply up_on_progress, MaybeDecTo_up; [done|]. destruct Hm. done. }
  assert (Hf : forall id, pres (up 0) (on_progress (S := S) id
    (let! pr := get in
     match Progress.state_ pr with
     | Probe => BecomeReplicate
     | Replicate => on_inflights (FreeTo (m_index m)) ;;; let! pr := get in when (IsSnapshotCaughtUp pr) BecomeProbe
     | PSnapshot => when (IsSnapshotCaughtUp pr) BecomeProbe
     end))).
  { intros id. pres_tac ltac:(first [up_leaf | eapply refines_up, refines_FreeTo]). }
  apply (halts_bind 0 0); [lia|lia|by apply halts_nofuel|apply this_up|intros r].
  destruct (get_progress (m_from m) r); [|by apply halts_nofuel].
  apply (halts_bind 0 0); [lia|lia|apply halts_nofuel; nofuel_tac nofuel_leaf|pres_tac up_leaf|intros _].
  destruct (m_reject m).
  - apply (halts_bind 0 0); [lia|lia|apply halts_nofuel; nofuel_tac nofuel_leaf|apply Hd|intros b].
    halts_with ltac:(apply SendAppend_halts).
  - apply (halts_bind 0 0); [lia|lia|apply halts_nofuel; nofuel_tac nofuel_leaf|pres_tac up_leaf|intros old].
    apply (halts_bind 0 0); [lia|lia|apply halts_nofuel; nofuel_tac nofuel_leaf|apply Hu|intros []; cbn [negb]; [|by apply halts_nofuel]].
    apply (halts_bind 0 0); [lia|lia|apply halts_nofuel; nofuel_tac nofuel_leaf|apply Hf|intros _].
    halts_with ltac:(first [apply MaybeCommit_halts | apply BroadcastAppend_halts | apply SendAppend_halts
      | apply SendAppendAggressively_halts]).
Qed.

Lemma HandleHeartbeatResponse_halts m : halts 0 (HandleHeartbeatResponse m).
Proof.
  unfold HandleHeartbeatResponse. cbv zeta.
  apply (halts_bind 0 0); [lia|lia|by apply halts_nofuel|apply this_up|intros r].
  destruct (get_progress (m_from m) r); [|by apply halts_nofuel].
  apply (halts_bind 0 0); [lia|lia|apply halts_nofuel; nofuel_tac nofuel_leaf| |intros _].
  { pres_tac ltac:(first [ up_leaf | apply Resume_up | eapply refines_up, refines_FreeFirstOne ]). }
  halts_with ltac:(first [apply SendAppend_halts | apply ack_read_halts]).
Qed.

Lemma HandleSnapshotStatus_halts m : halts 0 (HandleSnapshotStatus m).
Proof. apply halts_nofuel. unfold HandleSnapshotStatus. nofuel_tac nofuel_leaf. Qed.

Lemma HandleUnreachable_halts m : halts 0 (HandleUnreachable m).
Proof. apply halts_nofuel. unfold HandleUnreachable. nofuel_tac nofuel_leaf. Qed.

Lemma HandleTransferLeader_halts m : halts 0 (HandleTransferLeader m).
Proof.
  unfold HandleTransferLeader, SendTimeoutNow, AbortLeaderTransfer. halts_with ltac:(apply SendAppend_halts).
Qed.

Lemma read_index_halts m : halts 0 (read_index m).
Proof.
  unfold read_index, CommitToCurrentTerm.
  halts_with ltac:(first [apply answer_read_halts | apply BroadcastHeartbeat_with_halts
    | apply halts_nofuel, nofuel_zoom; unfold AddRequest; nofuel_tac nofuel_leaf]).
Qed.

Lemma ok_halts n m : 0 <= n -> halts n m -> pres (up n) m -> halts n (ok m).
Proof.
  intros Hn Hm Hu. rewrite <- (Z.add_0_r n). apply halts_bind; [done|lia|done|done|]. intros ?. by apply halts_nofuel.
Qed.

Lemma StepLeader_halts m : msg_ok m -> halts (zlen (m_entries m)) (StepLeader m).
Proof.
  intros Hm. unfold StepLeader. destruct (m_type m); try apply propose_halts;
    apply (halts_weaken 0); try lia; try (by apply halts_nofuel); apply ok_halts; try lia; auto with up.
  - unfold BroadcastHeartbeat. halts_with ltac:(apply BroadcastHeartbeat_with_halts).
  - by apply HandleAppendResponse_halts.
  - apply HandleHeartbeatResponse_halts.
  - apply HandleUnreachable_halts.
  - apply HandleSnapshotStatus_halts.
  - unfold CheckQuorumActive. halts_with ltac:(apply halts_nofuel, BecomeFollower_nofuel).
  - apply HandleTransferLeader_halts.
  - apply read_index_halts.
Qed.

Lemma MaybeAppend_ends idx term committed entries (l : RaftLog S) : log_ok l ->
  ends (MaybeAppend idx term committed entries) l.
Proof.
  intros Hl. assert (Hm : forall i t, MatchTerm i t l <> Abort NoFuel) by (intros; unfold MatchTerm; nofuel_tac nofuel_leaf).
  unfold MaybeAppend. apply ends_bind; [by apply ends_getsO|].
  intros b l1 E1. apply getsO_Ret in E1 as (? & _ & [= <- ->]). destruct b; cbn [negb]; [|done].
  apply ends_bind.
  { apply ends_getsO. induction entries as [|e es IH]; cbn [FindConflict]; [done|]. nofuel_tac ltac:(first [apply Hm | apply IH]). }
  intros c l2 E2. apply getsO_Ret in E2 as (? & _ & [= <- ->]). unfold ends. rewrite bind_get.
  match goal with |- ?f l <> _ => assert (H : nofuel f); [|apply H] end. cbv zeta.
  nofuel_tac ltac:(first [apply Append_nofuel | apply CommitTo_nofuel | nofuel_leaf]).
Qed.

Lemma HandleAppendEntries_halts m : msg_ok m -> batch_ok (m_index m) (m_log_term m) (m_entries m) ->
  halts (zlen (m_entries m)) (HandleAppendEntries m).
Proof.
  intros Hm Hb r Hok. pose proof (mo_log_term m Hm). pose proof (mo_index m Hm).
  assert (Hok0 : node_ok 0 r) by (eapply node_ok_weaken; [|exact Hok]; lia).
  unfold HandleAppendEntries, this, ends. rewrite bind_get. cbv zeta.
  destruct (negb _); [by apply SendRequestSnapshot_halts|].
  destruct (Z.ltb_spec (m_index m) (committed_ (raft_log_ r))) as [|Hc]; [apply send_nofuel|].
  apply ends_bind; [apply ends_zoom, MaybeAppend_ends, Hok|]. intros res r1 E1.
  assert (Hok1 : log_ok (raft_log_ r1)).
  { apply zoom_Ret in E1 as (x & l' & E1 & [= _ ->]). cbn.
    apply (MaybeAppend_up _ _ _ _ _ _ _ Hb Hc E1); apply Hok. }
  destruct res as [res|]; [|done]. apply ends_bind.
  - destruct (ma_term_matched res); [done|].
    apply ends_bind; [apply ends_getsO, LastIndex_ends|]. intros last r2 E2.
    apply getsO_Ret in E2 as (? & El & [= <- ->]). unfold last_index_of in El.
    rewrite LastIndex_view in El by apply Hok1. injection El as El.
    pose proof (view_bounds _ (proj1 Hok1)). apply ends_bind.
    + apply ends_getsO, FindConflictByTerm_ends; [apply Hok1|done|lia].
    + intros [i []] r2 _; done.
  - intros msg r2 _. unfold ends. rewrite bind_get. apply send_nofuel.
Qed.

Lemma HandleHeartbeat_halts m : halts 0 (HandleHeartbeat m).
Proof.
  unfold HandleHeartbeat.
  halts_with ltac:(first [apply SendRequestSnapshot_halts | apply halts_nofuel, nofuel_zoom, CommitTo_nofuel]).
Qed.

Lemma RaftLog_Restore_nofuel snapshot : nofuel (RaftLog.Restore (S := S) snapshot).
Proof. unfold RaftLog.Restore, on_unstable, Unstable.Restore. nofuel_tac nofuel_leaf. Qed.

(** The part of a run after a prefix that keeps the invariant. *)
Lemma ends_then {A B} a b r (m : M (Raft S) A) (k : A -> M (Raft S) B) : 0 <= a -> 0 <= b -> node_ok (a + b) r ->
  ends m r -> runs (up a) r m -> (forall x, halts b (k x)) -> ends (bind m k) r.
Proof.
  intros Ha Hb Hok Hm Hu Hk. apply ends_bind; [done|]. intros x r' E.
  destruct (Hu _ _ E) as [Hok' Hmv]; [eapply node_ok_weaken; [|exact Hok]; lia|].
  apply Hk. by eapply node_ok_after.
Qed.

Lemma Restore_halts snapshot : 0 <= sn_index snapshot < u64max -> halts (1 + sn_index snapshot) (Restore snapshot).
Proof.
  intros Hs r Hok. unfold Restore, this, ends. rewrite bind_get. cbv zeta.
  destruct (_ <? _); [done|]. destruct (negb (is_role _ _)).
  { apply ends_bind; [apply BecomeFollower_nofuel|]. intros; done. }
  destruct (negb _); [done|]. apply ends_bind.
  { destruct (_ =? _); [|done]. apply (getsO_log_halts (1 + sn_index snapshot)); [|done]. intros ? ?. unfold MatchTerm. nofuel_tac nofuel_leaf. }
  intros matches r1 E0. assert (r1 = r) as ->.
  { destruct (_ =? _); [|by injection E0]. by apply getsO_Ret in E0 as (? & _ & [= _ ->]). }
  destruct matches; [apply ends_bind; [apply ends_zoom, CommitTo_nofuel|done]|].
  apply ends_bind; [apply ends_getsO, ConfRestore_nofuel|]. intros [res t] r1 E1.
  apply getsO_Ret in E1 as (x & E1 & [= <- ->]). destruct res; [|done].
  assert (Ht : peers_ok t).
  { eapply (ConfRestore_up (sn_index snapshot + 1)); [unfold two64, u64max in *; lia| |by apply new_tracker_ok, (ok_config _ _ Hok)].
    rewrite u64_id in E1 by (unfold is_u64, two64, u64max in *; lia). exact E1. }
  apply (ends_then (sn_index snapshot) 0); [lia|lia|eapply node_ok_weaken; [|exact Hok]; lia|apply ends_zoom, RaftLog_Restore_nofuel| |].
  { apply pres_runs. by apply log_restored_up. }
  intros [|]; [|by apply halts_nofuel].
  apply (halts_bind 0 0); [lia|lia|by apply halts_nofuel|intros r1; by apply set_tracker_up|intros _].
  halts_with ltac:(apply PostConfChange_halts).
Qed.

Lemma HandleSnapshot_halts m : 0 <= sn_index (m_snapshot m) < u64max ->
  halts (1 + sn_index (m_snapshot m)) (HandleSnapshot m).
Proof.
  intros Hs. unfold HandleSnapshot. cbv zeta. rewrite <- (Z.add_0_r (1 + _)).
  apply halts_bind; [lia|lia|by apply Restore_halts|by apply Restore_snapshot_up|intros ?]. halts_with fail.
Qed.

Lemma leader_message_halts (before : M (Raft S) unit) m r : msg_ok m -> nofuel before -> runs (up 0) r before ->
  node_ok (reach m) r ->
  (m_type m = MsgAppend -> ends (ok (before ;;; HandleAppendEntries m)) r) /\
  ends (ok (before ;;; HandleHeartbeat m)) r /\ ends (ok (before ;;; HandleSnapshot m)) r.
Proof.
  intros Hm Hb Hu Hok. pose proof (reach_pos m Hm). pose proof (mo_snapshot m Hm).
  assert (Hall : forall h, halts (reach m) h -> ends (ok (before ;;; h)) r).
  { intros h Hh. apply ends_bind; [|done]. apply (ends_then 0 (reach m)); [lia|lia|done|apply Hb|done|done]. }
  split; [intros Ha; apply Hall|split; apply Hall].
  - eapply halts_weaken; [|by apply HandleAppendEntries_halts, (mo_batch m Hm)]. lia.
  - eapply halts_weaken; [|apply HandleHeartbeat_halts]. lia.
  - eapply halts_weaken; [|by apply HandleSnapshot_halts]. lia.
Qed.

Lemma Hup_when_halts b c : halts 3 (when b (Hup c)).
Proof. destruct b; unfold when; [apply Hup_halts|]. by apply halts_nofuel. Qed.

Lemma StepFollower_halts m : msg_ok m -> halts (reach m) (StepFollower m).
Proof.
  intros Hm r Hok. pose proof (reach_pos m Hm). pose proof (mo_snapshot m Hm).
  assert (Hn : nofuel (hear_leader (S := S) m)) by (unfold hear_leader; nofuel_tac nofuel_leaf).
  destruct (leader_message_halts _ m r Hm Hn (pres_runs _ _ _ (hear_leader_up m)) Hok) as (H1 & H2 & H3).
  unfold StepFollower, this, ends. rewrite bind_get. cbv zeta.
  destruct (m_type m); try done; try by apply H1.
  all: match goal with |- ?f ?x <> _ => let H := fresh in enough (H : halts (reach m) f) by (exact (H x Hok)) end.
  all: try (apply (halts_weaken 3); [lia|]; apply ok_halts; [lia|apply Hup_when_halts|apply Hup_when_up]).
  all: apply (halts_weaken 0); [lia|]; unfold dropped, ok.
  all: halts_with ltac:(apply halts_on_log; intros ? ?; by apply LogMaybeCommit_ends).
Qed.

Lemma StepCandidate_halts m r : msg_ok m -> node_ok (reach m) r ->
  (m_term m <> 0 -> m_type m <> MsgRequestPreVote -> m_type m <> MsgRequestPreVoteResponse -> term_ r = m_term m) ->
  ends (StepCandidate m) r.
Proof.
  intros Hm Hok Ht. pose proof (reach_pos m Hm). pose proof (mo_snapshot m Hm).
  unfold StepCandidate, this, ends. rewrite bind_get.
  assert (Hf : m_term m <> 0 -> m_type m <> MsgRequestPreVote -> m_type m <> MsgRequestPreVoteResponse ->
    runs (up 0) r (BecomeFollower (m_term m) (m_from m))).
  { intros H1 H2 H3. rewrite <- (Ht H1 H2 H3). apply runs_follow. }
  pose proof (mo_leader m Hm) as Hl. destruct (m_type m) eqn:Em; try done.
  1,3,4: destruct (leader_message_halts _ m r Hm (BecomeFollower_nofuel (m_term m) (m_from m))
    (Hf ltac:(auto) ltac:(done) ltac:(done)) Hok) as (H1 & H2 & H3); first [exact (H1 eq_refl) | exact (H1 Em) | exact H2 | exact H3].
  all: destruct (_ || _); [done|]; apply ends_bind; [|done].
  all: apply (ends_then 2 0); [lia|lia|eapply node_ok_weaken; [|exact Hok]; lia| |apply pres_runs, Poll_up|intros ?; apply MaybeCommitByVote_halts].
  all: apply Poll_halts; eapply node_ok_weaken; [|exact Hok]; lia.
Qed.

Lemma StepTerm_nofuel m : nofuel (StepTerm (S := S) m).
Proof. unfold StepTerm. nofuel_tac ltac:(first [apply BecomeFollower_nofuel | nofuel_leaf]). Qed.

Lemma IsUpToDate_ends index term (l : RaftLog S) : st_inv (store_ l) -> IsUpToDate index term l <> Abort NoFuel.
Proof. intros Hi. unfold IsUpToDate, LastTerm, Unwrap. nofuel_tac ltac:(first [by apply Term_ends | nofuel_leaf]). Qed.

Lemma StepVote_halts m : halts 0 (StepVote m).
Proof.
  unfold StepVote. cbv zeta.
  apply (halts_bind 0 0); [lia|lia| |solve [pres_tac up_leaf]|intros granted].
  { apply getsO_log_halts. intros r Hr. unfold grants. cbv zeta.
    nofuel_tac ltac:(first [apply IsUpToDate_ends, log_ok_store; assumption | nofuel_leaf]). }
  apply (halts_bind 0 0); [lia|lia| |solve [pres_tac up_leaf]|intros resp].
  { apply halts_nofuel, nofuel_getsO. intros r. unfold VoteRespMsgType. nofuel_tac fail. }
  destruct granted; [apply halts_nofuel; nofuel_tac nofuel_leaf|].
  apply (halts_bind 0 0); [lia|lia| |solve [pres_tac up_leaf]|intros [c ct]].
  { apply getsO_log_halts. intros r Hr. unfold CommitInfo, Unwrap. nofuel_tac nofuel_leaf. }
  halts_with ltac:(apply MaybeCommitByVote_halts).
Qed.

Lemma Step_role_ends m r : msg_ok m -> node_ok (reach m) r ->
  (m_term m <> 0 -> m_type m <> MsgRequestPreVote -> m_type m <> MsgRequestPreVoteResponse -> term_ r = m_term m) ->
  ends (match state_ r with
    | PreCandidate | Candidate => StepCandidate m
    | Follower => StepFollower m
    | Leader => StepLeader m
    end) r.
Proof.
  intros Hm Hok Ht. pose proof (reach_pos m Hm). pose proof (mo_snapshot m Hm). destruct (state_ r).
  - by apply StepFollower_halts.
  - by apply StepCandidate_halts.
  - apply StepLeader_halts; [done|]. eapply node_ok_weaken; [|exact Hok]. lia.
  - by apply StepCandidate_halts.
Qed.

Lemma Step_halts m : msg_ok m -> halts (m_term m + reach m) (Step m).
Proof.
  intros Hm r Hok. pose proof (mo_term m Hm). pose proof (reach_pos m Hm) as Hr. pose proof (mo_snapshot m Hm).
  apply ends_bind; [apply StepTerm_nofuel|]. intros go r1 E1.
  destruct (StepTerm_run m r go r1 Hm) as (Hok1 & M1 & Ht); [eapply node_ok_weaken; [|exact Hok]; lia|done|].
  assert (Hok2 : node_ok (reach m) r1) by (by eapply node_ok_after).
  destruct go; cbn [negb]; [|done]. unfold this, ends. rewrite bind_get.
  assert (Ht' : m_term m <> 0 -> m_type m <> MsgRequestPreVote -> m_type m <> MsgRequestPreVoteResponse ->
    term_ r1 = m_term m).
  { intros H1 H2 H3. apply Ht; [done|done|]. unfold pre_vote_message. by destruct (m_type m). }
  assert (node_ok 3 r1 /\ node_ok 0 r1) as [] by (split; (eapply node_ok_weaken; [|exact Hok2]; lia)).
  pose proof (Step_role_ends m r1 Hm Hok2 Ht') as Hrole. destruct (m_type m); try exact Hrole.
  - apply (ok_halts 3); [..|done]; [lia|apply Hup_when_halts|apply Hup_when_up].
  - apply (ok_halts 0); [..|done]; [lia|apply StepVote_halts|apply StepVote_up].
  - apply (ok_halts 0); [..|done]; [lia|apply StepVote_halts|apply StepVote_up].
Qed.

Lemma local_halts mt : mt <> MsgAppend -> mt <> MsgHeartbeat -> mt <> MsgSnapshot -> halts 3 (local mt).
Proof.
  intros H1 H2 H3. apply (halts_bind 0 3); [lia|lia|by apply halts_nofuel|apply this_up|intros r].
  pose proof (local_message_ok mt (id_ r) H1 H2 H3) as Hm.
  apply (halts_bind 3 0); [lia|lia|exact (Step_halts _ Hm)|exact (Step_up _ Hm)|intros ?; by apply halts_nofuel].
Qed.

Lemma when_halts n b m : halts n m -> halts n (when b m).
Proof. intros Hm. destruct b; unfold when; [done|]. by apply halts_nofuel. Qed.

Lemma tick_beat_halts b : halts 3 (tick_beat b).
Proof.
  apply (halts_bind 0 3); [lia|lia|by apply halts_nofuel|apply this_up|intros r].
  destruct (negb _); [by apply halts_nofuel|]. destruct (_ <=? _); [|by apply halts_nofuel].
  apply (halts_bind 0 3); [lia|lia|by apply halts_nofuel|pres_tac up_leaf|intros ?].
  apply (halts_bind 3 0); [lia|lia|by apply local_halts|by apply local_up|intros ?; by apply halts_nofuel].
Qed.

(** Both ticks: the elapsed ticks, the action of the election timeout, the heartbeat. *)
Lemma tick_halts (act : Raft S -> M (Raft S) unit) (ready : Raft S -> bool) :
  (forall r, halts 3 (act r)) -> (forall r, pres (up 3) (act r)) ->
  halts 6 (elapse ;;; let! r := this in act r ;;; tick_beat (ready r)).
Proof.
  intros Ha Hu. apply (halts_bind 0 6); [lia|lia|by apply halts_nofuel|apply elapse_up|intros ?].
  apply (halts_bind 0 6); [lia|lia|by apply halts_nofuel|apply this_up|intros r].
  apply (halts_bind 3 3); [lia|lia|apply Ha|apply Hu|intros ?; apply tick_beat_halts].
Qed.

Lemma Tick_halts : halts 6 Tick.
Proof.
  apply (halts_bind 0 6); [lia|lia|by apply halts_nofuel|apply this_up|intros r].
  assert (He : halts 6 TickElection).
  { refine (tick_halts (fun r => when _ (_ ;;; local MsgHup)) (fun r => _) _ _); intros r1.
    - apply when_halts. apply (halts_bind 0 3); [lia|lia|by apply halts_nofuel|pres_tac up_leaf|intros ?; by apply local_halts].
    - apply when_up; [lia|]. apply (pres_up_bind 0 3); [lia|lia|pres_tac up_leaf|intros ?; by apply local_up]. }
  assert (Hh : halts 6 TickHeartbeat).
  { refine (tick_halts (fun r => when _ (_ ;;; when (check_quorum_ r) _ ;;; _)) (fun r => _ && _) _ _); intros r1.
    - apply when_halts. apply (halts_bind 0 3); [lia|lia|by apply halts_nofuel|pres_tac up_leaf|intros ?].
      apply (halts_bind 3 0); [lia|lia|apply when_halts; by apply local_halts|apply when_up; [lia|by apply local_up]|intros ?].
      unfold AbortLeaderTransfer. apply halts_nofuel. nofuel_tac nofuel_leaf.
    - apply when_up; [lia|]. apply (pres_up_bind 0 3); [lia|lia|pres_tac up_leaf|intros ?].
      apply (pres_up_bind 3 0); [lia|lia|apply when_up; [lia|by apply local_up]|intros ?].
      unfold AbortLeaderTransfer. pres_tac up_leaf. }
  by destruct (state_ r).
Qed.

(** ** The other calls a node gets *)

Lemma ApplyConf_nofuel conf changes next : nofuel (ApplyConf conf changes next).
Proof. unfold ApplyConf. nofuel_tac nofuel_leaf. Qed.

Lemma ApplyConfChange_ends cc r : node_ok 0 r -> 0 < v_last (log_view (raft_log_ r)) -> ends (ApplyConfChange cc) r.
Proof.
  intros Hok Hl. unfold ApplyConfChange, ends. rewrite bind_gets.
  set (res := if cc_LeaveJoint cc then _ else _). destruct res as [[cfg changes]|e]; [|done].
  apply ends_bind; [apply ends_getsO, LastIndex_ends|]. intros last r1 E1.
  apply getsO_Ret in E1 as (x & E1 & [= -> ->]). rewrite (last_index_run _ _ Hok) in E1. injection E1 as <-.
  pose proof (ok_log_room _ _ Hok).
  match goal with |- ends ?f r => assert (H1 : halts 0 f); [|by apply H1] end.
  apply (halts_bind 0 0); [lia|lia|apply halts_nofuel, nofuel_zoom, ApplyConf_nofuel| |intros ?].
  { apply up_on_tracker, ApplyConf_up. unfold u64max, two64 in *; lia. }
  halts_with ltac:(apply PostConfChange_halts).
Qed.

Lemma CommitApply_halts applied : halts 1 (CommitApply applied).
Proof.
  apply halts_nofuel. unfold CommitApply, CommitApplyInternal, on_log, AppliedTo, AppliedToUnchecked.
  nofuel_tac ltac:(first [apply AppendEntry_nofuel | nofuel_leaf]).
Qed.

Lemma OnPersistEntries_halts index term : 0 <= index < u64max -> halts 0 (OnPersistEntries index term).
Proof.
  intros Hi. unfold OnPersistEntries.
  apply (halts_bind 0 0); [lia|lia| |apply up_on_log; [lia|apply MaybePersist_up; lia]|intros update].
  { apply halts_on_log. intros l Hl. unfold MaybePersist, ends. rewrite bind_get. destruct (_ && _); [|done].
    apply ends_bind; [apply ends_getsO, st_term_ends, log_ok_store, Hl|]. intros x l1 _. by destruct (result_is x term). }
  apply (halts_bind 0 0); [lia|lia|by apply halts_nofuel|apply this_up|intros r]. destruct (_ && _); [|by apply halts_nofuel].
  apply (halts_bind 0 0); [lia|lia|apply halts_nofuel; nofuel_tac nofuel_leaf|by apply up_on_progress, MaybeUpdate_up|intros ?].
  halts_with ltac:(first [apply MaybeCommit_halts | apply BroadcastAppend_halts]).
Qed.

Lemma OnPersistSnapshot_halts index : halts 0 (OnPersistSnapshot index).
Proof. apply halts_nofuel. unfold OnPersistSnapshot, on_log, MaybePersistSnapshot. nofuel_tac nofuel_leaf. Qed.

Lemma RequestSnapshot_halts : halts 0 RequestSnapshot.
Proof.
  unfold RequestSnapshot, Unwrap.
  halts_with ltac:(apply SendRequestSnapshot_halts).
Qed.

Lemma commit_and_broadcast_halts : halts 0 commit_and_broadcast.
Proof. unfold commit_and_broadcast. halts_with ltac:(first [apply MaybeCommit_halts | apply BroadcastAppend_halts]). Qed.

Lemma commit_and_broadcast_up : pres (up 0) commit_and_broadcast.
Proof. unfold commit_and_broadcast. pres_tac up_leaf. Qed.

Lemma handle_ends_at i r : input_ok i r -> node_ok (Z.max 0 (input_reach i)) r -> ends (handle i) r.
Proof.
  intros Hi. assert (Hig : forall A (m : M (Raft S) A), ends m r -> ends (ignore m) r).
  { intros A m Hm. by apply ends_bind. }
  destruct i; cbn [handle input_ok input_reach] in *; intros Hok.
  - apply Hig. pose proof (mo_term m Hi). pose proof (mo_snapshot m Hi). apply Step_halts; [done|].
    eapply node_ok_weaken; [|exact Hok]. lia.
  - apply Hig. by apply Tick_halts.
  - by apply OnPersistEntries_halts.
  - by apply OnPersistSnapshot_halts.
  - by apply CommitApply_halts.
  - apply Hig. by apply ApplyConfChange_ends.
  - apply Hig. by apply RequestSnapshot_halts.
  - apply (fun H : halts 0 Ping => H r Hok). unfold Ping, BroadcastHeartbeat. halts_with ltac:(apply BroadcastHeartbeat_with_halts).
  - done.
  - match goal with |- ends ?f r => enough (nofuel f) by auto end.
    unfold ReduceUncommittedSize, MaybeReduceUncommittedSize. nofuel_tac nofuel_leaf.
  - match goal with |- ends ?f r => enough (nofuel f) by auto end.
    unfold MaybeFreeInflightBuffers, each_peer. nofuel_tac nofuel_leaf.
  - match goal with |- ends ?f r => enough (nofuel f) by auto end.
    unfold AdjustMaxInflightMsgs. nofuel_tac nofuel_leaf.
  - apply (fun H : halts 0 (EnableGroupCommit enable) => H r Hok). unfold EnableGroupCommit, Tracker.EnableGroupCommit.
    halts_with ltac:(apply commit_and_broadcast_halts).
  - apply (fun H : halts 0 (AssignCommitGroups ids) => H r Hok). unfold AssignCommitGroups.
    halts_with ltac:(apply commit_and_broadcast_halts).
Qed.

(** C17: After any run of a node the next call ends too: no loop of the code
    (sending appends, scanning the log for configuration changes, walking back
    to a conflicting term, the election started by a won pre-election) runs for
    ever, so the call returns, or stops at a panic or an undefined access. *)
Theorem handle_ends ins i r r' : node_ok (total ins + Z.max 0 (input_reach i)) r -> node_run ins r r' ->
  input_ok i r' -> handle i r' <> Abort NoFuel.
Proof.
  intros Hok Hr Hi. pose proof (total_nonneg ins).
  destruct (run_up _ _ _ Hr) as [Hok' Hmv]; [eapply node_ok_weaken; [|exact Hok]; lia|].
  apply handle_ends_at; [done|]. by eapply node_ok_after.
Qed.
End Termination.

(** ** Witness: the follower of [NodeSafety]'s run starts an election. *)
Lemma example_node_room : node_ok (total example_inputs + 6) example_node.
Proof. eapply (node_ok_weaken _ 1000); [vm_compute; congruence|]. apply example_node_ok_at. Qed.

Lemma handle_ends_witness :
  exists r', node_run example_inputs example_node r' /\ handle InTick r' <> Abort NoFuel.
Proof.
  destruct example_run as (r' & H & _). exists r'. split; [exact H|].
  exact (handle_ends example_inputs InTick example_node r' example_node_room H I).
Defined.
