(* ===== verification/RawNode.v ===== *)
(** * The interface of the core

    Model of [lib/core/raw_node.cc]: [RawNode] hands the work of a node out
    as [Ready] values and learns through [Advance*] and [OnPersistReady] what
    has been persisted and applied. *)

From S2P Require Import Prelude Types Util Inflights Progress Quorum Tracker ConfChange Storage Unstable ReadOnly Config RaftLog RaftLogProps RaftCore Raft.

Inductive SnapshotStatus := Finish | Failure.

Definition IsLocalMessage (t : MessageType) : bool :=
  match t with
  | MsgHup | MsgBeat | MsgUnreachable | MsgSnapStatus | MsgCheckQuorum => true
  | _ => false
  end.

Definition IsResponseMessage (t : MessageType) : bool :=
  match t with
  | MsgAppendResponse | MsgRequestVoteResponse | MsgHeartbeatResponse | MsgUnreachable
  | MsgRequestPreVoteResponse => true
  | _ => false
  end.

Record LightReady := mkLightReady {
  lr_commit_index : option Z;
  lr_committed_entries : list Entry;
  lr_messages : list Message
}.
#[export] Instance LightReady_eta : Eta LightReady := fun l =>
  mkLightReady (lr_commit_index l) (lr_committed_entries l) (lr_messages l).

Record Ready := mkReady {
  rd_number : Z;
  rd_ss : option SoftState;
  rd_hs : option HardState;
  rd_read_states : list ReadState;
  rd_entries : list Entry;
  rd_snapshot : Snapshot;
  rd_is_persisted_msg : bool;
  rd_light : LightReady;
  rd_must_sync : bool
}.

Definition Messages (rd : Ready) : list Message :=
  if negb (rd_is_persisted_msg rd) then lr_messages (rd_light rd) else [].

Record ReadyRecord := mkReadyRecord {
  rr_number : Z;
  rr_last_entry : option (Z * Z);
  rr_snapshot : option (Z * Z)
}.

Record Status := mkStatus {
  s_id : Z;
  s_hs : HardState;
  s_ss : SoftState;
  s_applied : Z;
  s_progress : option ProgressTracker
}.

Record RawNode (S : Type) := mkRawNode {
  raft_ : Raft S;
  prev_ss_ : SoftState;
  prev_hs_ : HardState;
  max_number_ : Z;
  records_ : list ReadyRecord;
  commit_since_index_ : Z
}.
Arguments mkRawNode {S}.
Arguments raft_ {S}.
Arguments prev_ss_ {S}.
Arguments prev_hs_ {S}.
Arguments max_number_ {S}.
Arguments records_ {S}.
Arguments commit_since_index_ {S}.
#[export] Instance RawNode_eta S : Eta (RawNode S) := fun n =>
  mkRawNode (raft_ n) (prev_ss_ n) (prev_hs_ n) (max_number_ n) (records_ n) (commit_since_index_ n).

(** What a sequence of persisted records amounts to: the index of the last
    snapshot, and the last entry after it. *)
Fixpoint persisted_records (number : Z) (records : list ReadyRecord) (index term snap_index : Z) :
    Z * Z * Z * list ReadyRecord :=
  match records with
  | [] => (index, term, snap_index, [])
  | record :: rest =>
      if number <? rr_number record then (index, term, snap_index, record :: rest)
      else
        let '(index, term, snap_index) :=
          match rr_snapshot record with
          | Some (i, _) => (0, 0, i)
          | None => (index, term, snap_index)
          end in
        let '(index, term) :=
          match rr_last_entry record with
          | Some (i, t) => (i, t)
          | None => (index, term)
          end in
        persisted_records number rest index term snap_index
  end.

Section RawNode.
Context {ENV : Env} {S : Type} {ST : Storage S}.

Definition on_raft {A} (m : M (Raft S) A) : M (RawNode S) A :=
  zoom raft_ (fun r n => n <| raft_ := r |>) m.

Definition node : M (RawNode S) (RawNode S) := get.

Definition new (config : Config) (store : S) (draws : nat) : outcome (RawNode S) :=
  let? raft := Raft.new config store draws in
  let? _ := oassert (negb (c_id config =? 0)) "config.id must not be zero" in
  Ret (mkRawNode raft (soft_state raft) (hard_state raft) 0 [] (c_applied config)).

(** ** Calls into the node *)

Definition SetPriority (priority : Z) : M (RawNode S) unit := on_raft (Raft.SetPriority priority).

Definition RequestSnapshot : M (RawNode S) (Result unit) := on_raft Raft.RequestSnapshot.

Definition step_ignored (m : Message) : M (RawNode S) unit := on_raft (Raft.Step m) ;;; ret tt.

Definition TransferLeader (transferee : Z) : M (RawNode S) unit :=
  step_ignored (empty_message <| m_type := MsgTransferLeader |> <| m_from := transferee |>).

Definition ReadIndex (ctx : string) : M (RawNode S) unit :=
  step_ignored (empty_message <| m_type := MsgReadIndex |>
    <| m_entries := [empty_entry <| e_data := ctx |>] |>).

Definition GetStatus (n : RawNode S) : Status :=
  let r := raft_ n in
  mkStatus (id_ r) (hard_state r) (soft_state r) (applied_ (raft_log_ r))
    (if is_role Leader r then Some (progress_tracker_ r) else None).

Definition ReportUnreachable (id : Z) : M (RawNode S) unit :=
  step_ignored (empty_message <| m_type := MsgUnreachable |> <| m_from := id |>).

Definition ReportSnapshot (id : Z) (status : SnapshotStatus) : M (RawNode S) unit :=
  step_ignored (empty_message <| m_type := MsgSnapStatus |> <| m_from := id |>
    <| m_reject := match status with Failure => true | Finish => false end |>).

Definition Tick : M (RawNode S) bool := on_raft Raft.Tick.

Definition Campaign : M (RawNode S) (Result unit) :=
  on_raft (Raft.Step (empty_message <| m_type := MsgHup |>)).

Definition Propose (ctx data : string) : M (RawNode S) (Result unit) :=
  let! n := node in
  on_raft (Raft.Step (empty_message <| m_type := MsgPropose |> <| m_from := id_ (raft_ n) |>
    <| m_entries := [SetEntryChecksum (empty_entry <| e_data := data |> <| e_context := ctx |>)] |>)).

Definition Ping : M (RawNode S) unit := on_raft Raft.Ping.

Definition ProposeConfChange (ctx : string) (cc : ConfChangeV2) : M (RawNode S) (Result unit) :=
  on_raft (Raft.Step (empty_message <| m_type := MsgPropose |>
    <| m_entries := [SetEntryChecksum (empty_entry <| e_type := EntryConfChangeV2 |>
         <| e_data := cc_encode cc |> <| e_context := ctx |>)] |>)).

Definition ApplyConfChange (cc : ConfChangeV2) : M (RawNode S) (Result ConfState) :=
  on_raft (Raft.ApplyConfChange cc).

Definition Step (m : Message) : M (RawNode S) (Result unit) :=
  if IsLocalMessage (m_type m) then ret (Err (ERaft StepLocalMsg))
  else
    let! n := node in
    if negb (bool_decide (get_progress (m_from m) (raft_ n) = None)) || negb (IsResponseMessage (m_type m))
    then on_raft (Raft.Step m)
    else ret (Err (ERaft StepPeerNotFound)).

Definition OnEntriesFetched (ctx : GetEntriesContext) : M (RawNode S) unit :=
  match ctx with
  | ForSendAppend to term aggressively =>
      let! n := node in
      if negb (term_ (raft_ n) =? term) || negb (is_role Leader (raft_ n)) then ret tt
      else if bool_decide (get_progress to (raft_ n) = None) then ret tt
      else if aggressively then on_raft (Raft.SendAppendAggressively to)
      else on_raft (Raft.SendAppend to)
  | ForEmpty _ => ret tt
  | _ => abort (Panic "shouldn't call callback on non-async context")
  end.

(** ** Ready *)

Definition GetLightReady : M (RawNode S) LightReady :=
  let! n := node in
  let max_size := max_committed_size_per_ready_ (raft_ n) in
  let! committed_entries := on_raft (on_log (NextEntriesSince (commit_since_index_ n) (Some max_size))) in
  let committed_entries := default [] committed_entries in
  on_raft (Raft.ReduceUncommittedSize committed_entries) ;;;
  match last committed_entries with
  | Some e =>
      assert (commit_since_index_ n <? e_index e) "commit_since_index_ < e.index" ;;;
      set! commit_since_index_ := e_index e
  | None => ret tt
  end ;;;
  let! n := node in
  on_raft (set! messages_ := []) ;;;
  ret (mkLightReady None committed_entries (messages_ (raft_ n))).

Definition GetReady : M (RawNode S) Ready :=
  modify (fun n : RawNode S => n <| max_number_ := max_number_ n +! 1 |>) ;;;
  let! n := node in
  let number := max_number_ n in
  when (negb (bool_decide (ss_raft_state (prev_ss_ n) = Leader)) && is_role Leader (raft_ n))
    (set! records_ := [] ;;;
     foreach (records_ n) (fun r =>
       assert (bool_decide (rr_last_entry r = None)) "r.last_entry == std::nullopt" ;;;
       assert (bool_decide (rr_snapshot r = None)) "r.snapshot == std::nullopt")) ;;;
  let ss := soft_state (raft_ n) in
  let hs := hard_state (raft_ n) in
  let rd_ss := if bool_decide (ss = prev_ss_ n) then None else Some ss in
  let hs_changed := negb (bool_decide (hs = prev_hs_ n)) in
  let sync_hs := hs_changed && (negb (hs_vote hs =? hs_vote (prev_hs_ n)) ||
                                negb (hs_term hs =? hs_term (prev_hs_ n))) in
  let read_states := read_states_ (raft_ n) in
  on_raft (core! read_states_ := []) ;;;
  let! (snapshot, record_snapshot) :=
    match snapshot_ (unstable_ (raft_log_ (raft_ n))) with
    | None => ret (empty_snapshot, None)
    | Some snapshot =>
        assert (commit_since_index_ n <=? sn_index snapshot) "commit_since_index_ <= snapshot.index" ;;;
        set! commit_since_index_ := sn_index snapshot ;;;
        let! more := getsO (fun n : RawNode S =>
          HasNextEntriesSince (sn_index snapshot) (raft_log_ (raft_ n))) in
        assert (negb more) "has snapshot but also has committed entries since {}" ;;;
        ret (snapshot, Some (sn_index snapshot, sn_term snapshot))
    end in
  let entries := entries_ (unstable_ (raft_log_ (raft_ n))) in
  let last_entry := (fun e => (e_index e, e_term e)) <$> last entries in
  let must_sync := sync_hs || bool_decide (is_Some record_snapshot) || negb (bool_decide (entries = [])) in
  let is_persisted_msg := negb (is_role Leader (raft_ n)) in
  let! light := GetLightReady in
  modify (fun n : RawNode S => n <| records_ := records_ n ++ [mkReadyRecord number last_entry record_snapshot] |>) ;;;
  ret (mkReady number rd_ss (if hs_changed then Some hs else None) read_states entries snapshot
         is_persisted_msg light must_sync).

Definition HasReady (n : RawNode S) : outcome bool :=
  let r := raft_ n in
  if negb (bool_decide (messages_ r = [])) then Ret true
  else if negb (bool_decide (soft_state r = prev_ss_ n)) then Ret true
  else if negb (bool_decide (hard_state r = prev_hs_ n)) then Ret true
  else if negb (bool_decide (read_states_ r = [])) then Ret true
  else if negb (bool_decide (entries_ (unstable_ (raft_log_ r)) = [])) then Ret true
  else if match snapshot_ (unstable_ (raft_log_ r)) with
          | Some s => 0 <? sn_index s
          | None => false
          end then Ret true
  else HasNextEntriesSince (commit_since_index_ n) (raft_log_ r).

(** ** Persisting and applying *)

Definition OnPersistReady (number : Z) : M (RawNode S) unit :=
  let! n := node in
  let '(index, term, snap_index, records) := persisted_records number (records_ n) 0 0 0 in
  set! records_ := records ;;;
  when (negb (snap_index =? 0)) (on_raft (OnPersistSnapshot snap_index)) ;;;
  when (negb (index =? 0)) (on_raft (OnPersistEntries index term)).

Definition CommitReady (rd : Ready) : M (RawNode S) unit :=
  match rd_ss rd with Some ss => set! prev_ss_ := ss | None => ret tt end ;;;
  match rd_hs rd with Some hs => set! prev_hs_ := hs | None => ret tt end ;;;
  let! n := node in
  match last (records_ n) with
  | None => abort Undefined
  | Some rd_record =>
      assert (rr_number rd_record =? rd_number rd) "rd_record.number == rd.number" ;;;
      match rr_snapshot rd_record with
      | Some (index, _) => on_raft (on_log (RaftLog.StableSnapshot index))
      | None => ret tt
      end ;;;
      match rr_last_entry rd_record with
      | Some (index, term) => on_raft (on_log (RaftLog.StableEntries index term))
      | None => ret tt
      end
  end.

Definition AdvanceAppend (rd : Ready) : M (RawNode S) LightReady :=
  CommitReady rd ;;;
  let! n := node in
  OnPersistReady (max_number_ n) ;;;
  let! light_rd := GetLightReady in
  let! n := node in
  assert (is_role Leader (raft_ n) || bool_decide (lr_messages light_rd = []))
    "not leader but has new msg after advance" ;;;
  let hs := hard_state (raft_ n) in
  let! commit_index :=
    (if hs_commit (prev_hs_ n) <? hs_commit hs then
       set! prev_hs_ := ((prev_hs_ n) <| hs_commit := hs_commit hs |>) ;;;
       ret (Some (hs_commit hs))
     else
       assert (hs_commit hs =? hs_commit (prev_hs_ n)) "hs.commit == prev_hs.commit" ;;;
       ret None) in
  let! n := node in
  assert (bool_decide (hs = prev_hs_ n)) "hard state != prev_hs" ;;;
  ret (light_rd <| lr_commit_index := commit_index |>).

Definition AdvanceApplyTo (applied : Z) : M (RawNode S) unit := on_raft (CommitApply applied).

Definition AdvanceAppendAsync (rd : Ready) : M (RawNode S) unit := CommitReady rd.

Definition AdvanceApply : M (RawNode S) unit :=
  let! n := node in
  on_raft (CommitApply (commit_since_index_ n)).

Definition Advance (rd : Ready) : M (RawNode S) LightReady :=
  let! n := node in
  let applied := commit_since_index_ n in
  let! light_rd := AdvanceAppend rd in
  AdvanceApplyTo applied ;;;
  ret light_rd.
End RawNode.
