(* ===== verification/RawNodeProps.v ===== *)
(** * What a [Ready] hands out

    The committed entries of [GetReady] and [Advance] continue each other
    without a gap, and telling the node that the entries and the snapshot of a
    [Ready] are stable leaves its log as it was, if the storage holds them. *)

From S2P Require Import Prelude Types Util Inflights Progress Quorum Tracker ConfChange Storage Unstable ReadOnly Config RaftLog RaftLogProps RaftCore RaftSend LogSafety Raft NodeInv RawNode.

Section RawNodeProps.
Context {ENV : Env} {S : Type} {ST : Storage S} {SL : StorageLaws S}.
Implicit Types (l : RaftLog S) (r : Raft S) (n : RawNode S).

(** ** Operations that leave the log alone

    Cursors may move; the stored and the unstable part stay. *)

Definition quiet l l' : Prop :=
  log_wf l -> log_wf l' /\ st_view (store_ l') = st_view (store_ l) /\ unstable_ l' = unstable_ l.

#[export] Instance quiet_preorder : PreOrder quiet.
Proof.
  split; [by intros l W|]. intros l1 l2 l3 H1 H2 W. destruct (H1 W) as (W2 & S2 & U2). destruct (H2 W2) as (W3 & S3 & U3).
  split; [done|]. split; congruence.
Qed.

Lemma quiet_view l l' : quiet l l' -> log_wf l -> log_view l' = log_view l.
Proof. intros H W. destruct (H W) as (_ & Es & Eu). unfold log_view. by rewrite Es, Eu. Qed.

Lemma quiet_cursors l l' : store_ l' = store_ l -> unstable_ l' = unstable_ l -> quiet l l'.
Proof. intros Es Eu W. destruct (cursors_view l l' Es Eu) as [_ Hw]. split; [by apply Hw|]. by rewrite Es. Qed.

Lemma quiet_same l l' : same_log l l' -> log_wf l' -> quiet l l'.
Proof. intros (Hs & Hu & _) W' _. done. Qed.

Definition still r r' : Prop := quiet (raft_log_ r) (raft_log_ r').

#[export] Instance still_preorder : PreOrder still.
Proof. split; [intros r; apply quiet_preorder|]. intros r1 r2 r3. apply quiet_preorder. Qed.

Lemma still_frame r r' : raft_log_ r' = raft_log_ r -> still r r'.
Proof. intros E. unfold still. rewrite E. reflexivity. Qed.

Lemma still_on_log {A} (m : M (RaftLog S) A) : pres quiet m -> pres still (on_log m).
Proof. intros Hm. apply pres_zoom. intros r l' a E. by apply (Hm _ _ _ E). Qed.

Lemma still_on_progress {A} id (m : M Progress A) : pres still (on_progress id m).
Proof. intros r a r' E. apply still_frame. apply (same_hs_on_progress _ _ _ _ _ E). Qed.

Lemma still_with_progress {A} id (m : M (SendCtx S) A) : pres sends m -> pres still (with_progress id m).
Proof.
  intros Hs r a r' E W. unfold with_progress in E. destruct (get_progress id r) as [p|]; [|done].
  destruct (m _) as [[a' c']|] eqn:Em; [|done]. injection E as _ <-.
  destruct (Hs _ _ _ Em W) as (l' & Ec & Hsame & W' & _). cbn. rewrite Ec. by apply quiet_same.
Qed.

Ltac still_leaf :=
  first [ apply pres_modify; intros ?; apply still_frame; reflexivity
        | apply still_on_log | apply still_on_progress
        | apply still_with_progress; first [apply SendAppend_sends | apply MaybeSendAppend_sends]
        | apply pres_zoom; intros; apply still_frame; reflexivity ].

Lemma quiet_modify (f : RaftLog S -> RaftLog S) : (forall l, store_ (f l) = store_ l) -> (forall l, unstable_ (f l) = unstable_ l) ->
  pres quiet (modify f).
Proof. intros Hs Hu. apply pres_modify. intros l. by apply quiet_cursors. Qed.

Ltac quiet_tac := pres_tac ltac:(apply quiet_modify; reflexivity).

Lemma MaybeCommit_quiet i t : pres quiet (RaftLog.MaybeCommit i t).
Proof. unfold RaftLog.MaybeCommit, CommitTo. quiet_tac. Qed.

Lemma MaybePersist_quiet i t : pres quiet (MaybePersist i t).
Proof. unfold MaybePersist. quiet_tac. Qed.

Lemma MaybePersistSnapshot_quiet i : pres quiet (MaybePersistSnapshot i).
Proof. unfold MaybePersistSnapshot. quiet_tac. Qed.

Lemma AppliedTo_quiet i : pres quiet (AppliedTo i).
Proof. unfold AppliedTo, AppliedToUnchecked. quiet_tac. Qed.

Lemma MaybeCommit_still : pres still MaybeCommit.
Proof. unfold MaybeCommit, this. pres_tac ltac:(first [apply MaybeCommit_quiet | still_leaf]). Qed.

Lemma BroadcastAppend_still : pres still BroadcastAppend.
Proof. unfold BroadcastAppend, each_peer, SendAppend, this. pres_tac still_leaf. Qed.

Lemma ack_read_still id ctx : pres still (ack_read id ctx).
Proof.
  unfold ack_read, answer_read, HandleReadyReadIndex, send, this. pres_tac still_leaf.
Qed.

Lemma ApplyConfChange_still cc : pres still (Raft.ApplyConfChange cc).
Proof.
  unfold Raft.ApplyConfChange, PostConfChange, each_peer, AbortLeaderTransfer, this.
  pres_tac ltac:(first [ apply MaybeCommit_still | apply BroadcastAppend_still | apply ack_read_still | still_leaf ]).
Qed.

Lemma OnPersistEntries_still index term : pres still (OnPersistEntries index term).
Proof.
  unfold OnPersistEntries, this.
  pres_tac ltac:(first [ apply MaybeCommit_still | apply BroadcastAppend_still | apply MaybePersist_quiet | still_leaf ]).
Qed.

Lemma OnPersistSnapshot_still index : pres still (OnPersistSnapshot index).
Proof. unfold OnPersistSnapshot. pres_tac ltac:(first [apply MaybePersistSnapshot_quiet | still_leaf]). Qed.

Lemma ReduceUncommittedSize_still ents : pres still (ReduceUncommittedSize ents).
Proof. unfold ReduceUncommittedSize, this. pres_tac still_leaf. Qed.

(** ** Committed entries

    [hands v c c' ents]: the entries behind index [c] up to index [c']. *)
Definition hands (v : LogView) (c c' : Z) (ents : list Entry) : Prop := c <= c' /\ ents = v_slice v (c + 1) (c' + 1).

Lemma take_v_slice_exact v lo hi k : v_dummy v < lo ->
  take k (v_slice v lo hi) = v_slice v lo (lo + zlen (take k (v_slice v lo hi))).
Proof.
  intros Hd. unfold v_slice. rewrite take_take. set (x := drop _ _). set (m := Nat.min k _). rewrite length_take.
  replace (Z.to_nat (lo + Z.of_nat (m `min` length x) - lo)) with (m `min` length x)%nat by lia.
  destruct (Nat.le_ge_cases (length x) m).
  - rewrite Nat.min_r by lia. by rewrite !take_ge by lia.
  - by rewrite Nat.min_l by lia.
Qed.

Lemma v_slice_contiguous v lo hi : view_wf v -> v_dummy v < lo <= v_last v + 1 -> contiguous lo (v_slice v lo hi).
Proof.
  intros W Hlo. unfold v_slice. apply contiguous_take. pose proof (vw_contiguous v W) as Hc.
  replace lo with (v_dummy v + 1 + Z.of_nat (Z.to_nat (lo - v_dummy v - 1))) at 1 by lia.
  apply contiguous_drop; [|done]. unfold v_last in *. lia.
Qed.

Lemma up_log r l' : log_up 0 (raft_log_ r) l' -> up 0 r (r <| core_ := (core_ r) <| raft_log_ := l' |> |>).
Proof.
  intros H [Hlog Ht Htr Hlr Hp Hcf Hrg Hto]. destruct (H Hlog ltac:(lia)) as [Hl2 Mv]. pose proof (lm_last _ _ _ Mv).
  split; constructor; cbn; try done; lia.
Qed.

Lemma GetLightReady_spec n lr n' : node_ok 0 (raft_ n) ->
  v_dummy (log_view (raft_log_ (raft_ n))) <= commit_since_index_ n <= committed_ (raft_log_ (raft_ n)) ->
  GetLightReady n = Ret (lr, n') ->
  node_ok 0 (raft_ n') /\ node_moves 0 (raft_ n) (raft_ n') /\ still (raft_ n) (raft_ n') /\
  records_ n' = records_ n /\ max_number_ n' = max_number_ n /\
  hands (log_view (raft_log_ (raft_ n))) (commit_since_index_ n) (commit_since_index_ n') (lr_committed_entries lr) /\
  commit_since_index_ n' <= committed_ (raft_log_ (raft_ n')).
Proof.
  intros Hok Hc E. pose proof (ok_log _ _ Hok) as [W C]. pose proof (view_bounds _ W) as Hb. pose proof C as [Hcm _ _].
  unfold GetLightReady, node in E. rewrite bind_get in E. apply bind_Ret in E as (o & n1 & E1 & E).
  unfold on_raft, on_log in E1. apply zoom_Ret in E1 as (o1 & r1 & E1 & [= <- ->]). apply zoom_Ret in E1 as (o2 & l1 & E1 & [= <- ->]).
  destruct (NextEntriesSince_view (raft_log_ (raft_ n)) (commit_since_index_ n) (Some (max_committed_size_per_ready_ (raft_ n))) W Hcm)
    as (r & l2 & E2 & Hsame & W2 & Hhi & Hr); [lia|]. rewrite E2 in E1. injection E1 as <- <-.
  set (ents := default [] r) in *. set (v := log_view (raft_log_ (raft_ n))) in *. set (c := commit_since_index_ n) in *.
  assert (He : ents = v_slice v (c + 1) (c + 1 + zlen ents) /\ c + zlen ents <= committed_ (raft_log_ (raft_ n)) /\ contiguous (c + 1) ents).
  { subst ents. destruct r as [es|]; cbn [from_option]; unfold id; [|cbn; split; [symmetry; apply v_slice_nil; lia|split; [lia|done]]].
    destruct Hr as (k & _ & -> & _ & Hle). rewrite Z.max_l in * by lia. split; [apply take_v_slice_exact; lia|]. split.
    - rewrite length_take. assert (zlen (v_slice v (c + 1) (AppliedIndexUpperBound (raft_log_ (raft_ n)) + 1)) =
        AppliedIndexUpperBound (raft_log_ (raft_ n)) + 1 - (c + 1)) by (apply v_slice_length; lia). lia.
    - apply contiguous_take, v_slice_contiguous; [by apply log_view_wf|lia]. }
  destruct He as (He & Hlen & Hcon). apply bind_Ret in E as (? & n2 & E3 & E).
  unfold on_raft in E3. apply zoom_Ret in E3 as (? & r2 & E3 & [= <- ->]).
  match type of E3 with _ ?r0 = _ => set (r1 := r0) in * end.
  assert (Hup1 : up 0 (raft_ n) r1).
  { apply up_log, log_up_reads. by intros _. }
  assert (Hst1 : still (raft_ n) r1) by by apply quiet_same.
  pose proof (ReduceUncommittedSize_up _ _ _ _ E3) as Hup2. pose proof (ReduceUncommittedSize_still _ _ _ _ E3) as Hst2.
  destruct (up_trans 0 0 _ _ _ ltac:(lia) ltac:(lia) Hup1 Hup2 Hok) as [Hok2 Mv2].
  assert (Hst : still (raft_ n) r2) by (etransitivity; done). clear Hup1 Hup2 Hst1 Hst2.
  apply bind_Ret in E as (? & n3 & E4 & E). rewrite bind_get in E. unfold on_raft in E. apply bind_Ret in E as (? & n4 & E5 & E).
  apply zoom_Ret in E5 as (? & r4 & E5 & [= <- ->]). injection E5 as _ <-. injection E as <- <-.
  assert (Hn3 : raft_ n3 = r2 /\ records_ n3 = records_ n /\ max_number_ n3 = max_number_ n /\ commit_since_index_ n3 = c + zlen ents).
  { destruct (last ents) as [e|] eqn:El.
    - apply bind_Ret in E4 as (? & n5 & E6 & E4). apply assert_Ret in E6 as [_ [= -> ->]]. injection E4 as _ <-.
      split; [done|]. split; [done|]. split; [done|]. change (e_index e = c + zlen ents). rewrite (contiguous_last _ _ _ Hcon El). lia.
    - apply last_None in El. injection E4 as _ <-. cbn. rewrite El. cbn. split; [done|]. split; [done|]. split; [done|]. unfold c. lia. }
  destruct Hn3 as (Er3 & Erec & Enum & Esince). cbn. rewrite Er3, Erec, Enum, Esince.
  assert (Hup4 : up 0 r2 (r2 <| messages_ := [] |>)) by by apply up_frame.
  destruct (Hup4 Hok2) as [Hok4 Mv4]. pose proof (node_moves_trans 0 0 _ _ _ Mv2 Mv4) as Mv.
  split; [done|]. split; [done|]. split; [done|]. split; [done|]. split; [done|]. split.
  - split; [lia|]. rewrite He at 1. f_equal. lia.
  - pose proof (lm_committed _ _ _ (mv_log _ _ _ Mv)). cbn in *. lia.
Qed.

(** Where the committed entries of the next [Ready] start. *)
Definition ready_base n : Z :=
  match snapshot_ (unstable_ (raft_log_ (raft_ n))) with
  | Some s => sn_index s
  | None => commit_since_index_ n
  end.

Record ready_spec n (rd : Ready) n' : Prop := {
  gr_ok : node_ok 0 (raft_ n');
  gr_moves : node_moves 0 (raft_ n) (raft_ n');
  gr_still : still (raft_ n) (raft_ n');
  gr_records : records_ n' = [mkReadyRecord (max_number_ n')
    ((fun e => (e_index e, e_term e)) <$> last (entries_ (unstable_ (raft_log_ (raft_ n)))))
    ((fun s => (sn_index s, sn_term s)) <$> snapshot_ (unstable_ (raft_log_ (raft_ n))))];
  gr_number : rd_number rd = max_number_ n';
  gr_entries : rd_entries rd = entries_ (unstable_ (raft_log_ (raft_ n)));
  gr_snapshot : rd_snapshot rd = default empty_snapshot (snapshot_ (unstable_ (raft_log_ (raft_ n))));
  gr_hs hs : rd_hs rd = Some hs -> hs = hard_state (raft_ n);
  gr_hs_same : rd_hs rd = None -> hard_state (raft_ n) = prev_hs_ n;
  gr_base : commit_since_index_ n <= ready_base n;
  gr_hands : hands (log_view (raft_log_ (raft_ n))) (ready_base n) (commit_since_index_ n') (lr_committed_entries (rd_light rd));
  gr_since : commit_since_index_ n' <= committed_ (raft_log_ (raft_ n'))
}.

(** The node before its committed entries are taken: the snapshot moves
    [commit_since_index_]. *)
Lemma take_snapshot_run n o n' :
  match snapshot_ (unstable_ (raft_log_ (raft_ n))) with
  | None => ret (empty_snapshot, None)
  | Some snapshot =>
      assert (commit_since_index_ n <=? sn_index snapshot) "commit_since_index_ <= snapshot.index" ;;;
      set! commit_since_index_ := sn_index snapshot ;;;
      let! more := getsO (fun n : RawNode S => HasNextEntriesSince (sn_index snapshot) (raft_log_ (raft_ n))) in
      assert (negb more) "has snapshot but also has committed entries since {}" ;;;
      ret (snapshot, Some (sn_index snapshot, sn_term snapshot))
  end n = Ret (o, n') ->
  n' = n <| commit_since_index_ := ready_base n |> /\ commit_since_index_ n <= ready_base n /\
  o = (default empty_snapshot (snapshot_ (unstable_ (raft_log_ (raft_ n)))),
       (fun s => (sn_index s, sn_term s)) <$> snapshot_ (unstable_ (raft_log_ (raft_ n)))).
Proof.
  unfold ready_base. destruct (snapshot_ (unstable_ (raft_log_ (raft_ n)))) as [s|].
  - intros E. apply bind_Ret in E as (? & n1 & E1 & E). apply assert_Ret in E1 as [Hle [= -> ->]]. apply Z.leb_le in Hle.
    rewrite bind_modify in E. apply bind_Ret in E as (b & n2 & E2 & E). apply getsO_Ret in E2 as (b' & _ & [= -> ->]).
    apply bind_Ret in E as (? & n3 & E3 & E). apply assert_Ret in E3 as [_ [= -> ->]]. by injection E as <- <-.
  - intros [= <- <-]. split; [by destruct n|]. split; [lia|done].
Qed.

Lemma ready_base_bounds n : node_ok 0 (raft_ n) ->
  v_dummy (st_view (store_ (raft_log_ (raft_ n)))) <= commit_since_index_ n <= committed_ (raft_log_ (raft_ n)) ->
  v_dummy (log_view (raft_log_ (raft_ n))) <= ready_base n <= committed_ (raft_log_ (raft_ n)).
Proof.
  intros Hok Hc. pose proof (ok_log _ _ Hok) as [W [Hcm _ _]]. unfold ready_base.
  destruct (snapshot_ (unstable_ (raft_log_ (raft_ n)))) as [s|] eqn:Es.
  - rewrite (log_view_snapshot _ _ Es) in *. cbn in *. lia.
  - unfold log_view in *. rewrite Es in *. cbn in *. lia.
Qed.

Lemma GetReady_spec n rd n' : node_ok 0 (raft_ n) -> records_ n = [] ->
  v_dummy (st_view (store_ (raft_log_ (raft_ n)))) <= commit_since_index_ n <= committed_ (raft_log_ (raft_ n)) ->
  GetReady n = Ret (rd, n') -> ready_spec n rd n'.
Proof.
  intros Hok Hrec Hc E. pose proof (ready_base_bounds n Hok Hc) as Hbase.
  unfold GetReady, node in E. rewrite bind_modify, bind_get in E. apply bind_Ret in E as (? & n1 & E1 & E).
  assert (n1 = n <| max_number_ := max_number_ n +! 1 |>) as ->.
  { unfold when in E1. destruct (_ && _); [|by injection E1 as _ <-]. rewrite bind_modify in E1. cbn in E1. rewrite Hrec in E1.
    cbn in E1. injection E1 as _ <-. destruct n. cbn in *. by subst. }
  cbv zeta in E. apply bind_Ret in E as (? & n2 & E2 & E). unfold on_raft in E2. apply zoom_Ret in E2 as (? & r2 & E2 & [= <- ->]).
  injection E2 as _ <-. apply bind_Ret in E as ([snapshot rec] & n3 & E3 & E).
  match type of E3 with _ ?m = _ => set (n2 := m) in * end.
  apply (take_snapshot_run n2) in E3 as (-> & Hle & [= -> ->]).
  assert (Hup : up 0 (raft_ n) (raft_ n2)) by by apply up_frame. destruct (Hup Hok) as [Hok2 Mv2].
  assert (Est : still (raft_ n) (raft_ n2)) by by apply still_frame.
  apply bind_Ret in E as (light & n4 & E4 & E). rewrite bind_modify in E. injection E as <- <-.
  set (n3 := n2 <| commit_since_index_ := ready_base n2 |>) in *.
  assert (E3 : raft_log_ (raft_ n3) = raft_log_ (raft_ n) /\ commit_since_index_ n3 = ready_base n) by done. destruct E3 as [El3 Es3].
  destruct (GetLightReady_spec n3 light n4 Hok2 ltac:(by rewrite El3, Es3) E4) as (Hok4 & Mv4 & St4 & Er4 & En4 & Hh & Hs4).
  constructor; cbn.
  - done.
  - exact (node_moves_trans 0 0 _ _ _ Mv2 Mv4).
  - etransitivity; [exact Est|exact St4].
  - rewrite Er4, En4. cbn. by rewrite Hrec.
  - by rewrite En4.
  - done.
  - done.
  - intros hs. match goal with |- (if ?b then _ else _) = _ -> _ => destruct b end; [|done]. intros E. by injection E as <-.
  - clear E1. case_bool_decide as E; [intros _; exact E|by intros].
  - exact Hle.
  - exact Hh.
  - exact Hs4.
Qed.

(** ** Telling the node what is stable *)

(** The storage holds the whole log. *)
Definition stored l : Prop := st_view (store_ l) = log_view l.

(** The record of a [Ready] that carries the unstable part of [l]. *)
Definition record_of l (number : Z) : ReadyRecord :=
  mkReadyRecord number ((fun e => (e_index e, e_term e)) <$> last (entries_ (unstable_ l)))
    ((fun s => (sn_index s, sn_term s)) <$> snapshot_ (unstable_ l)).

(** Nothing is unstable any more. *)
Definition emptied l l' : Prop :=
  exists u, l' = l <| unstable_ := u |> /\ snapshot_ u = None /\ entries_ u = [] /\ entries_size_ u = 0 /\
    offset_ u = v_last (log_view l) + 1.

Lemma emptied_quiet l l' : log_wf l -> stored l -> emptied l l' -> log_wf l' /\ log_view l' = log_view l.
Proof.
  intros W Hs (u & -> & Es & Ee & Ez & Eo). pose proof (view_bounds l W) as Hb. split.
  - constructor; cbn.
    + apply W.
    + constructor; rewrite ?Ee, ?Eo, ?Ez; cbn; try lia; try done. by rewrite Es.
    + intros _. rewrite Hs, Eo. unfold v_last in *. lia.
    + intros _ _. by rewrite Hs, Eo.
  - transitivity (st_view (store_ l)); [|done]. unfold log_view at 1. cbn. rewrite Es, Ee, Eo, app_nil_r.
    rewrite take_ge; [by destruct (st_view (store_ l))|]. rewrite <- Hs. unfold v_last. lia.
Qed.

Lemma emptied_up l l' : stored l -> emptied l l' -> log_up 0 l l'.
Proof.
  intros Hs He [W C] Hb. destruct (emptied_quiet l l' W Hs He) as [W' Ev]. destruct He as (u & -> & _).
  split; [split; [done|]|]; constructor; rewrite ?Ev; cbn; (apply C || done || lia).
Qed.

(** [StableSnapshot] and [StableEntries] as [CommitReady] calls them. *)
Definition stabilise (record : ReadyRecord) : M (RaftLog S) unit :=
  match rr_snapshot record with Some (index, _) => RaftLog.StableSnapshot index | None => ret tt end ;;;
  match rr_last_entry record with Some (index, term) => RaftLog.StableEntries index term | None => ret tt end.

Lemma stabilise_run l number x l' : log_wf l -> stabilise (record_of l number) l = Ret (x, l') -> emptied l l'.
Proof.
  intros W E. pose proof (log_view_last l W) as Hlast. pose proof (view_bounds l W) as Hb.
  pose proof (lw_unstable l W) as [Ho Hu Hc Hsn Hsz]. unfold stabilise, record_of, RaftLog.StableSnapshot, RaftLog.StableEntries, on_unstable in E.
  cbn [rr_snapshot rr_last_entry] in E. apply bind_Ret in E as (? & l1 & E1 & E).
  assert (H1 : l1 = l <| unstable_ := (unstable_ l) <| snapshot_ := None |> |>).
  { destruct (snapshot_ (unstable_ l)) as [s|] eqn:Es; cbn in E1.
    - apply zoom_Ret in E1 as (? & u & E1 & [= _ ->]). unfold Unstable.StableSnapshot in E1. rewrite bind_get, Es in E1.
      destruct (negb _); [done|]. by injection E1 as _ <-.
    - injection E1 as _ <-. destruct l as [st [sn es sz off] c p a mx]. cbn in *. by subst. }
  subst l1. destruct (last (entries_ (unstable_ l))) as [e|] eqn:El; cbn in E.
  - apply zoom_Ret in E as (? & u & E & [= _ ->]). unfold Unstable.StableEntries in E. rewrite bind_get in E. cbn in E. unfold bind at 1 in E. cbn in E.
    rewrite El in E. destruct (_ || _); [done|]. injection E as _ <-.
    rewrite (contiguous_last _ _ _ Hc El), u64_id by (unfold is_u64, two64, u64max in *; rewrite Hlast in *; lia).
    eexists. split; [reflexivity|]. split; [done|]. split; [done|]. split; [done|]. cbn. lia.
  - injection E as _ <-. apply last_None in El. rewrite El in *. cbn in *. eexists. split; [reflexivity|]. split; [done|].
    split; [done|]. split; [done|]. cbn. lia.
Qed.

Lemma on_log_bind {A} (m1 : M (RaftLog S) unit) (m2 : M (RaftLog S) A) n :
  (on_raft (on_log m1) ;;; on_raft (on_log m2)) n = on_raft (on_log (m1 ;;; m2)) n.
Proof.
  unfold bind, on_raft, on_log, zoom. destruct (m1 _) as [[x l1]|f]; [|done]. cbn. by destruct (m2 l1) as [[y l2]|f].
Qed.

Lemma on_log_ret n : on_raft (on_log (ret tt)) n = Ret (tt, n).
Proof. by destruct n as [[[]]]. Qed.

Lemma stabilise_on_log record n x n' :
  (match rr_snapshot record with Some (index, _) => on_raft (on_log (RaftLog.StableSnapshot index)) | None => ret tt end ;;;
   match rr_last_entry record with Some (index, term) => on_raft (on_log (RaftLog.StableEntries index term)) | None => ret tt end) n
  = Ret (x, n') ->
  exists l', stabilise record (raft_log_ (raft_ n)) = Ret (tt, l') /\
    n' = n <| raft_ := (raft_ n) <| core_ := (core_ (raft_ n)) <| raft_log_ := l' |> |> |>.
Proof.
  intros E. assert (Ez : on_raft (on_log (stabilise record)) n = Ret (x, n')).
  { rewrite <- E. unfold stabilise. rewrite <- on_log_bind. unfold bind.
    destruct (rr_snapshot record) as [[si ?]|]; [destruct (on_raft _ n) as [[y n1]|]; [|done]|rewrite on_log_ret; unfold ret];
      destruct (rr_last_entry record) as [[ei et]|]; rewrite ?on_log_ret; done. }
  apply zoom_Ret in Ez as ([] & r1 & Ez & [= _ ->]). apply zoom_Ret in Ez as ([] & l' & Ez & [= ->]). by exists l'.
Qed.

Lemma CommitReady_spec n rd x n' : node_ok 0 (raft_ n) -> stored (raft_log_ (raft_ n)) ->
  records_ n = [record_of (raft_log_ (raft_ n)) (max_number_ n)] -> CommitReady rd n = Ret (x, n') ->
  node_ok 0 (raft_ n') /\ node_moves 0 (raft_ n) (raft_ n') /\
  log_view (raft_log_ (raft_ n')) = log_view (raft_log_ (raft_ n)) /\
  records_ n' = records_ n /\ max_number_ n' = max_number_ n /\ commit_since_index_ n' = commit_since_index_ n /\
  committed_ (raft_log_ (raft_ n')) = committed_ (raft_log_ (raft_ n)).
Proof.
  intros Hok Hs Hrec E. pose proof (ok_log _ _ Hok) as [W _]. unfold CommitReady, node in E.
  apply bind_Ret in E as (? & n1 & E1 & E). apply bind_Ret in E as (? & n2 & E2 & E). rewrite bind_get in E.
  assert (H2 : raft_ n2 = raft_ n /\ records_ n2 = records_ n /\ max_number_ n2 = max_number_ n /\ commit_since_index_ n2 = commit_since_index_ n).
  { assert (H1 : raft_ n1 = raft_ n /\ records_ n1 = records_ n /\ max_number_ n1 = max_number_ n /\ commit_since_index_ n1 = commit_since_index_ n)
      by (destruct (rd_ss rd); by injection E1 as _ <-).
    destruct (rd_hs rd); injection E2 as _ <-; exact H1. }
  destruct H2 as (Er & Erec & Enum & Esince). rewrite Erec, Hrec in E. cbn [last] in E.
  apply bind_Ret in E as (? & n3 & E3 & E). apply assert_Ret in E3 as [_ [= -> ->]].
  assert (Hz : exists l', emptied (raft_log_ (raft_ n)) l' /\ n' = n2 <| raft_ := (raft_ n) <| core_ := (core_ (raft_ n)) <| raft_log_ := l' |> |> |>).
  { rewrite <- Er.
    assert (Hrun : exists l', stabilise (record_of (raft_log_ (raft_ n)) (max_number_ n)) (raft_log_ (raft_ n2)) = Ret (tt, l') /\
      n' = n2 <| raft_ := (raft_ n2) <| core_ := (core_ (raft_ n2)) <| raft_log_ := l' |> |> |>).
    { by eapply stabilise_on_log. }
    destruct Hrun as (l' & Hrun & ->). exists l'. rewrite Er in *. split; [by eapply stabilise_run|done]. }
  destruct Hz as (l' & He & ->). pose proof (up_log (raft_ n) l' (emptied_up _ _ Hs He)) as Hup. destruct (Hup Hok) as [Hok' Mv].
  destruct (emptied_quiet _ _ W Hs He) as [W' Ev]. cbn. split; [done|]. split; [done|]. split; [done|]. split; [congruence|].
  split; [done|]. split; [done|]. by destruct He as (u & -> & _).
Qed.

Lemma OnPersistReady_spec n (entry : option (Z * Z)) (snapshot : option (Z * Z)) x n' : node_ok 0 (raft_ n) ->
  records_ n = [mkReadyRecord (max_number_ n) entry snapshot] ->
  (forall i t, entry = Some (i, t) -> 0 <= i < u64max) ->
  OnPersistReady (max_number_ n) n = Ret (x, n') ->
  node_ok 0 (raft_ n') /\ node_moves 0 (raft_ n) (raft_ n') /\ still (raft_ n) (raft_ n') /\
  records_ n' = [] /\ commit_since_index_ n' = commit_since_index_ n.
Proof.
  intros Hok Hrec Hent E. unfold OnPersistReady, node in E. rewrite bind_get, Hrec in E.
  destruct (persisted_records _ _ _ _ _) as [[[i t] s] recs] eqn:Ep.
  assert (Hi : (i = 0 \/ 0 <= i < u64max) /\ recs = []).
  { cbn in Ep. rewrite Z.ltb_irrefl in Ep. destruct snapshot as [[si st]|], entry as [[ei et]|]; cbn in Ep; injection Ep as <- <- <- <-; eauto. }
  destruct Hi as [Hi ->]. rewrite bind_modify in E. apply bind_Ret in E as (? & n1 & E1 & E).
  set (n0 := n <| records_ := [] |>) in *.
  assert (H1 : up 0 (raft_ n) (raft_ n1) /\ still (raft_ n) (raft_ n1) /\ records_ n1 = [] /\ commit_since_index_ n1 = commit_since_index_ n).
  { unfold when in E1. destruct (negb _).
    - apply zoom_Ret in E1 as (? & r1 & E1 & [= _ ->]). pose proof (OnPersistSnapshot_up _ _ _ _ E1) as Hu.
      pose proof (OnPersistSnapshot_still _ _ _ _ E1) as Hs. done.
    - injection E1 as _ <-. split; [by apply up_frame|]. split; [by apply still_frame|done]. }
  destruct H1 as (U1 & S1 & R1 & C1). unfold when in E. destruct (Z.eqb_spec i 0) as [Hz|Hz]; cbn [negb] in E.
  - injection E as _ <-. destruct (U1 Hok) as [? ?]. done.
  - destruct Hi as [|Hi]; [done|]. apply zoom_Ret in E as (? & r1 & E & [= _ ->]). cbn.
    pose proof (OnPersistEntries_up _ _ Hi _ _ _ E) as U2. pose proof (OnPersistEntries_still _ _ _ _ _ E) as S2.
    destruct (up_trans 0 0 _ _ _ ltac:(lia) ltac:(lia) U1 U2 Hok) as [Hok2 Mv2]. split; [done|]. split; [done|].
    split; [etransitivity; [exact S1|exact S2]|done].
Qed.

(** What the node is like once it was told that a [Ready] is persisted and,
    with [Advance], applied. *)
Lemma v_at_slice v lo hi k : v_dummy v < lo ->
  v_slice v lo hi !! k = (if decide (Z.of_nat k < hi - lo) then v_at v (lo + Z.of_nat k) else None).
Proof.
  intros Hd. unfold v_slice, v_at. case_decide.
  - rewrite lookup_take_lt, lookup_drop by lia. rewrite (proj2 (Z.ltb_lt _ _)) by lia. f_equal. lia.
  - apply lookup_take_ge. lia.
Qed.

(** Logs that agree between two indexes have the same entries there. *)
Lemma v_slice_ext v v' lo hi : v_dummy v < lo -> v_dummy v' < lo -> (forall i, lo <= i < hi -> v_at v' i = v_at v i) ->
  v_slice v' lo hi = v_slice v lo hi.
Proof.
  intros Hd Hd' H. apply list_eq. intros k. rewrite !v_at_slice by done. case_decide; [|done]. apply H. lia.
Qed.

(** A leader that leaves a joint configuration appends to its log and keeps
    the place where the log starts. *)
Definition anchored {X} (f : X -> Unstable) (x x' : X) : Prop := snapshot_ (f x') = snapshot_ (f x).

#[export] Instance anchored_preorder {X} (f : X -> Unstable) : PreOrder (anchored f).
Proof. split; [done|]. intros x1 x2 x3 H1 H2. unfold anchored in *. congruence. Qed.

Lemma TruncateAndAppend_anchored ents : pres (anchored id) (TruncateAndAppend ents).
Proof. unfold TruncateAndAppend. pres_tac ltac:(by apply pres_modify). Qed.

Lemma Append_anchored ents : pres (anchored unstable_) (RaftLog.Append (S := S) ents).
Proof.
  unfold RaftLog.Append, on_unstable.
  pres_tac ltac:(first [by apply pres_modify | apply pres_zoom; intros ? ? ? E; by apply TruncateAndAppend_anchored in E]).
Qed.

Lemma AppliedTo_anchored i : pres (anchored unstable_) (RaftLog.AppliedTo (S := S) i).
Proof. unfold RaftLog.AppliedTo, AppliedToUnchecked. pres_tac ltac:(by apply pres_modify). Qed.

Lemma on_log_anchored {A} (m : M (RaftLog S) A) : pres (anchored unstable_) m -> pres (anchored (fun r => unstable_ (raft_log_ r))) (on_log m).
Proof. intros Hm. apply pres_zoom. intros r l' a E. by apply (Hm _ _ _ E). Qed.

Lemma CommitApply_anchored applied : pres (anchored (fun r => unstable_ (raft_log_ r))) (CommitApply (S := S) applied).
Proof.
  unfold CommitApply, CommitApplyInternal, AppendEntry, on_uncommitted, this. cbn [negb].
  pres_tac ltac:(first [ by apply pres_modify | apply on_log_anchored; first [apply AppliedTo_anchored | apply Append_anchored]
                       | by apply pres_zoom ]).
Qed.

Lemma anchored_dummy l l' : log_wf l -> log_wf l' -> anchored unstable_ l l' -> st_view (store_ l') = st_view (store_ l) ->
  v_dummy (log_view l') = v_dummy (log_view l).
Proof. intros W W' Ha Es. unfold log_view. rewrite Ha, Es. by destruct (snapshot_ _). Qed.

Record advance_spec (room : Z) n (ents : list Entry) n' : Prop := {
  av_ok : node_ok 0 (raft_ n');
  av_moves : node_moves room (raft_ n) (raft_ n');
  av_records : records_ n' = [];
  av_hands : hands (log_view (raft_log_ (raft_ n))) (commit_since_index_ n) (commit_since_index_ n') ents;
  av_since : commit_since_index_ n' <= committed_ (raft_log_ (raft_ n'));
  av_dummy : v_dummy (log_view (raft_log_ (raft_ n'))) = v_dummy (log_view (raft_log_ (raft_ n)));
  av_prefix i : v_dummy (log_view (raft_log_ (raft_ n'))) < i <= commit_since_index_ n' ->
    v_at (log_view (raft_log_ (raft_ n'))) i = v_at (log_view (raft_log_ (raft_ n))) i
}.

Definition advance_pre n : Prop :=
  stored (raft_log_ (raft_ n)) /\ records_ n = [record_of (raft_log_ (raft_ n)) (max_number_ n)] /\
  v_dummy (log_view (raft_log_ (raft_ n))) <= commit_since_index_ n <= committed_ (raft_log_ (raft_ n)).

Lemma AdvanceAppend_spec n rd lr n' : node_ok 0 (raft_ n) -> advance_pre n -> AdvanceAppend rd n = Ret (lr, n') ->
  advance_spec 0 n (lr_committed_entries lr) n'.
Proof.
  intros Hok (Hs & Hrec & Hc) E. pose proof (ok_log _ _ Hok) as [W _]. unfold AdvanceAppend, node in E.
  apply bind_Ret in E as (? & n1 & E1 & E). destruct (CommitReady_spec _ _ _ _ Hok Hs Hrec E1) as (Hok1 & M1 & V1 & R1 & N1 & C1 & K1).
  rewrite bind_get in E. apply bind_Ret in E as (? & n2 & E2 & E). rewrite Hrec, <- N1 in R1.
  opose proof (OnPersistReady_spec n1 _ _ _ n2 Hok1 R1 _ E2) as (Hok2 & M2 & S2 & R2 & C2).
  { intros i t Hi. apply fmap_Some in Hi as (e & He & [= -> ->]). pose proof (lw_unstable _ W) as [Ho Hu Hcn _ _].
    rewrite (contiguous_last _ _ _ Hcn He). destruct (entries_ (unstable_ (raft_log_ (raft_ n)))); [done|]. cbn [length] in *. lia. }
  apply bind_Ret in E as (light & n3 & E3 & E).
  assert (V2 : log_view (raft_log_ (raft_ n2)) = log_view (raft_log_ (raft_ n))) by (rewrite (quiet_view _ _ S2); [done|apply Hok1]).
  assert (Hc2 : v_dummy (log_view (raft_log_ (raft_ n2))) <= commit_since_index_ n2 <= committed_ (raft_log_ (raft_ n2))).
  { rewrite V2, C2, C1. pose proof (lm_committed _ _ _ (mv_log _ _ _ M2)). lia. }
  destruct (GetLightReady_spec _ _ _ Hok2 Hc2 E3) as (Hok3 & M3 & S3 & R3 & N3 & H3 & K3). rewrite V2, C2, C1 in H3.
  rewrite bind_get in E. apply bind_Ret in E as (? & n4 & E4 & E). apply assert_Ret in E4 as [_ [= -> ->]].
  apply bind_Ret in E as (ci & n5 & E5 & E).
  assert (H5 : raft_ n5 = raft_ n3 /\ records_ n5 = records_ n3 /\ commit_since_index_ n5 = commit_since_index_ n3).
  { destruct (_ <? _); [by injection E5 as _ <-|]. apply bind_Ret in E5 as (? & n6 & E6 & E5). apply assert_Ret in E6 as [_ [= -> ->]].
    by injection E5 as _ <-. }
  destruct H5 as (Er & Erec & Es). rewrite bind_get in E. apply bind_Ret in E as (? & n6 & E6 & E). apply assert_Ret in E6 as [_ [= -> ->]].
  injection E as <- <-. constructor; cbn; rewrite ?Er, ?Erec, ?Es; [done| |congruence|done|done| |].
  - exact (node_moves_trans 0 0 _ _ _ (node_moves_trans 0 0 _ _ _ M1 M2) M3).
  - by rewrite (quiet_view _ _ S3), V2 by apply Hok2.
  - intros i _. by rewrite (quiet_view _ _ S3), V2 by apply Hok2.
Qed.

Lemma Advance_spec n rd lr n' : node_ok 1 (raft_ n) -> advance_pre n -> Advance rd n = Ret (lr, n') ->
  advance_spec 1 n (lr_committed_entries lr) n'.
Proof.
  intros Hok Hpre E. unfold Advance, node in E. rewrite bind_get in E. apply bind_Ret in E as (light & n1 & E1 & E).
  assert (Hok0 : node_ok 0 (raft_ n)) by (eapply node_ok_weaken; [|exact Hok]; lia).
  destruct (AdvanceAppend_spec _ _ _ _ Hok0 Hpre E1) as [Hok1 M1 R1 H1 K1 D1 P1].
  apply bind_Ret in E as (? & n2 & E2 & E). injection E as <- <-. unfold AdvanceApplyTo, on_raft in E2.
  apply zoom_Ret in E2 as (? & r2 & E2 & [= _ ->]). cbn.
  destruct (CommitApply_up _ _ _ _ E2) as [Hok2 M2]; [by apply (node_ok_after 0 1 _ _ Hok Hok1 M1)|].
  pose proof (mv_log _ _ _ M2) as Lm. pose proof (lm_committed _ _ _ Lm). pose proof (lm_dummy _ _ _ Lm).
  constructor; cbn; [done|exact (node_moves_trans 0 1 _ _ _ M1 M2)|done|done|lia| |].
  { rewrite <- D1. apply anchored_dummy; [apply Hok1|apply Hok2| |apply Lm]. exact (CommitApply_anchored _ _ _ _ E2). }
  intros i Hi. rewrite (lm_prefix _ _ _ Lm) by lia. apply P1. lia.
Qed.
End RawNodeProps.
