(* ===== verification/Bytes.v ===== *)
(** * Bytes

    Byte strings of files and buffers, as lists of integers in [[0, 256)]; the
    little-endian layout the code gives its structs by [memcpy]; reads and
    writes at an offset. *)

From S2P Require Import Prelude.

Definition two32 : Z := 4294967296.

(** Conversion to [uint32_t]. *)
Definition u32 (x : Z) : Z := x mod two32.
Definition is_u32 (x : Z) : Prop := 0 <= x < two32.

(** The [n] bytes of an unsigned integer, and back. *)
Fixpoint le (n : nat) (x : Z) : list Z :=
  match n with
  | O => []
  | S n' => x mod 256 :: le n' (x / 256)
  end.

Fixpoint of_le (l : list Z) : Z :=
  match l with
  | [] => 0
  | b :: l' => b + 256 * of_le l'
  end.

(** [len] bytes from offset [off]. *)
Definition sub (off len : Z) (l : list Z) : list Z := take (Z.to_nat len) (drop (Z.to_nat off) l).

Definition zeros (n : Z) : list Z := replicate (Z.to_nat n) 0.

(** A file after a write of [data] at [off]; a gap is filled with zeros. *)
Definition splice (off : Z) (data l : list Z) : list Z :=
  take (Z.to_nat off) (l ++ zeros (off - zlen l)) ++ data ++ drop (Z.to_nat off + length data) l.

(** A file cut, or extended with zeros, to a length. *)
Definition resize (n : Z) (l : list Z) : list Z := take (Z.to_nat n) (l ++ zeros (n - zlen l)).

(** ** Lemmas *)

Lemma le_length n x : length (le n x) = n.
Proof. revert x. induction n as [|n IH]; intros x; cbn; [done|]. by rewrite IH. Qed.

Lemma of_le_le n x : 0 <= x < 256 ^ Z.of_nat n -> of_le (le n x) = x.
Proof.
  revert x. induction n as [|n IH]; intros x Hx; cbn [le of_le]; [cbn in Hx; lia|].
  rewrite IH; [pose proof (Z.div_mod x 256); lia|].
  rewrite Nat2Z.inj_succ, Z.pow_succ_r in Hx by lia.
  split; [apply Z.div_pos; lia|]. apply Z.div_lt_upper_bound; lia.
Qed.

Lemma of_le8 x : is_u64 x -> of_le (le 8 x) = x.
Proof. exact (of_le_le 8 x). Qed.

Lemma of_le4 x : is_u32 x -> of_le (le 4 x) = x.
Proof. exact (of_le_le 4 x). Qed.

Lemma of_le2 x : 0 <= x < 65536 -> of_le (le 2 x) = x.
Proof. exact (of_le_le 2 x). Qed.

Lemma of_le1 x : 0 <= x < 256 -> of_le (le 1 x) = x.
Proof. exact (of_le_le 1 x). Qed.

Lemma le_bytes n x : Forall (fun b => 0 <= b < 256) (le n x).
Proof. revert x. induction n as [|n IH]; intros x; cbn; constructor; [apply Z.mod_pos_bound; lia|done]. Qed.

Lemma is_u32_u32 x : is_u32 x -> u32 x = x.
Proof. apply Z.mod_small. Qed.

Lemma sub_length off len l : 0 <= off -> 0 <= len -> off + len <= zlen l -> zlen (sub off len l) = len.
Proof. intros. unfold sub. rewrite length_take, length_drop. lia. Qed.

Lemma sub_length_le off len l : zlen (sub off len l) <= Z.max 0 len.
Proof. unfold sub. rewrite length_take. lia. Qed.

Lemma sub_app_l off len a b : 0 <= off -> 0 <= len -> off + len <= zlen a -> sub off len (a ++ b) = sub off len a.
Proof.
  intros. unfold sub. rewrite drop_app_le by lia. rewrite take_app_le; [done|]. rewrite length_drop. lia.
Qed.

Lemma sub_app_r off len a b : zlen a <= off -> sub off len (a ++ b) = sub (off - zlen a) len b.
Proof.
  intros. unfold sub. rewrite drop_app_ge by lia. do 2 f_equal. lia.
Qed.

Lemma sub_whole l : sub 0 (zlen l) l = l.
Proof. unfold sub. rewrite Nat2Z.id, drop_0. by rewrite take_ge. Qed.

(** The bytes between a prefix and a suffix. *)
Lemma sub_middle off len a b c : off = zlen a -> len = zlen b -> sub off len (a ++ b ++ c) = b.
Proof.
  intros -> ->. rewrite sub_app_r, Z.sub_diag, sub_app_l by lia. apply sub_whole.
Qed.

Lemma sub_prefix len a b : len = zlen a -> sub 0 len (a ++ b) = a.
Proof. intros ->. exact (sub_middle 0 (zlen a) [] a b eq_refl eq_refl). Qed.

Lemma splice_append a data b : splice (zlen a) data (a ++ b) = a ++ data ++ drop (length data) b.
Proof.
  unfold splice. rewrite Nat2Z.id. rewrite <- app_assoc, take_app_length, drop_app_ge by lia.
  do 3 f_equal. lia.
Qed.

Lemma resize_prefix a b : resize (zlen a) (a ++ b) = a.
Proof. unfold resize. rewrite Nat2Z.id, <- app_assoc. apply take_app_length. Qed.

Lemma resize_longer n l : zlen l <= n -> resize n l = l ++ zeros (n - zlen l).
Proof.
  intros Hn. unfold resize. apply take_ge. rewrite length_app. unfold zeros. rewrite length_replicate. lia.
Qed.

Lemma zeros_length n : 0 <= n -> zlen (zeros n) = n.
Proof. intros. unfold zeros. rewrite length_replicate. lia. Qed.

Lemma resize_empty n : resize (Z.max n 0) [] = zeros (Z.max n 0).
Proof. rewrite resize_longer by (cbn; lia). cbn [app length Z.of_nat]. by rewrite Z.sub_0_r. Qed.
