(* ===== verification/Capnp.v ===== *)
(** * Messages as bytes

    The wrappers of [include/raftpp/core/capnp_util.h] around Cap'n Proto.
    [messageToFlatArray] and [FlatArrayMessageReader] are parameters, one pair
    per message type; what the code relies on is that a message reads back as
    it was written as long as it is within the reader's default traversal limit
    of 8 Mi words, and that it takes a whole number of words. *)

From S2P Require Import Prelude Types Bytes.

Definition kWord : Z := 8.
Definition kTraversalLimit : Z := 67108864.

Class Serializable (T : Type) := {
  messageToFlatArray : T -> list Z;
  (** [None] when the reader throws. *)
  FlatArrayMessageReader : list Z -> option T;
  flat_words t : (8 | zlen (messageToFlatArray t));
  flat_nonempty t : 0 < zlen (messageToFlatArray t);
  flat_bytes t : Forall (fun b => 0 <= b < 256) (messageToFlatArray t);
  flat_read t : zlen (messageToFlatArray t) <= kTraversalLimit ->
    FlatArrayMessageReader (messageToFlatArray t) = Some t
}.

Section Capnp.
Context {T : Type} `{!Serializable T}.

Definition toBytes (msg : T) : list Z := messageToFlatArray msg.

(** [throw] is [None]. *)
Definition fromWords (words : list Z) : option T := FlatArrayMessageReader words.

Definition fromBytes (bytes : list Z) : option T :=
  if negb (zlen bytes mod kWord =? 0) then None else FlatArrayMessageReader bytes.

(** A payload read as words: [word_count = payload.size() / sizeof(word)]. *)
Definition fromPayload (payload : list Z) : option T :=
  fromWords (sub 0 (zlen payload / kWord * kWord) payload).

Lemma toBytes_words msg : zlen (toBytes msg) mod 8 = 0.
Proof. apply Z.mod_divide; [lia|]. apply flat_words. Qed.

Lemma fromPayload_toBytes msg : zlen (toBytes msg) <= kTraversalLimit -> fromPayload (toBytes msg) = Some msg.
Proof.
  intros Hl. unfold fromPayload, fromWords. pose proof (toBytes_words msg) as Hw. unfold kWord.
  replace (zlen (toBytes msg) / 8 * 8) with (zlen (toBytes msg)) by (pose proof (Z.div_mod (zlen (toBytes msg)) 8); lia).
  rewrite sub_whole. by apply flat_read.
Qed.

Lemma fromBytes_toBytes msg : zlen (toBytes msg) <= kTraversalLimit -> fromBytes (toBytes msg) = Some msg.
Proof. intros Hl. unfold fromBytes, kWord. rewrite toBytes_words. by apply flat_read. Qed.
End Capnp.

(** ** A concrete serialisation

    Used to evaluate the model in the witnesses: integers as their bits, strings
    and lists with their length first, padded to whole words. *)

Class Enc (T : Type) := {
  enc : T -> list Z;
  dec : list Z -> option (T * list Z);
  enc_bytes t : Forall (fun b => 0 <= b < 256) (enc t);
  dec_enc t rest : dec (enc t ++ rest) = Some (t, rest)
}.

Fixpoint enc_pos (p : positive) : list Z :=
  match p with
  | xH => [2]
  | xO q => 0 :: enc_pos q
  | xI q => 1 :: enc_pos q
  end.

Fixpoint dec_pos (l : list Z) : option (positive * list Z) :=
  match l with
  | [] => None
  | b :: l' =>
      if b =? 2 then Some (xH, l')
      else match dec_pos l' with
           | Some (q, rest) => Some (if b =? 0 then xO q else xI q, rest)
           | None => None
           end
  end.

Definition enc_Z (z : Z) : list Z :=
  match z with
  | Z0 => [0]
  | Zpos p => 1 :: enc_pos p
  | Zneg p => 2 :: enc_pos p
  end.

Definition dec_Z (l : list Z) : option (Z * list Z) :=
  match l with
  | [] => None
  | b :: l' =>
      if b =? 0 then Some (0, l')
      else match dec_pos l' with
           | Some (p, rest) => Some (if b =? 1 then Zpos p else Zneg p, rest)
           | None => None
           end
  end.

#[export] Program Instance Enc_Z : Enc Z := {| enc := enc_Z; dec := dec_Z |}.
Next Obligation.
  assert (H : forall p, Forall (fun b => 0 <= b < 256) (enc_pos p)).
  { induction p; cbn; repeat constructor; (done || lia). }
  intros []; cbn; repeat constructor; (apply H || lia).
Qed.
Next Obligation.
  assert (H : forall p rest, dec_pos (enc_pos p ++ rest) = Some (p, rest)).
  { induction p as [p IH|p IH|]; intros rest; cbn; try rewrite IH; done. }
  intros [] rest; cbn; try rewrite H; done.
Qed.

#[export] Program Instance Enc_prod {A B} `{Enc A, Enc B} : Enc (A * B) := {|
  enc p := enc p.1 ++ enc p.2;
  dec l := match dec l with
           | Some (a, l1) => match dec l1 with Some (b, l2) => Some ((a, b), l2) | None => None end
           | None => None
           end |}.
Next Obligation. intros. cbn. apply Forall_app. split; apply enc_bytes. Qed.
Next Obligation. intros A B ? ? [a b] rest. cbn. by rewrite <- app_assoc, !dec_enc. Qed.

Fixpoint dec_n {A} `{Enc A} (n : nat) (l : list Z) : option (list A * list Z) :=
  match n with
  | O => Some ([], l)
  | S n' =>
      match dec l with
      | Some (a, l1) => match dec_n n' l1 with Some (r, l2) => Some (a :: r, l2) | None => None end
      | None => None
      end
  end.

#[export] Program Instance Enc_list {A} `{Enc A} : Enc (list A) := {|
  enc l := enc (zlen l) ++ flat_map enc l;
  dec l := match dec l with Some (n, l1) => dec_n (Z.to_nat n) l1 | None => None end |}.
Next Obligation.
  intros A ? l. apply Forall_app. split; [apply enc_bytes|]. induction l as [|a l IH]; cbn; [constructor|].
  apply Forall_app. split; [apply enc_bytes|done].
Qed.
Next Obligation.
  intros A ? l rest. cbn. rewrite <- app_assoc. rewrite (dec_enc (Enc := Enc_Z)), Nat2Z.id.
  induction l as [|a l IH]; cbn; [done|]. by rewrite <- app_assoc, dec_enc, IH.
Qed.

(** Through a bijection. *)
Program Definition Enc_via {A B} `{Enc B} (f : A -> B) (g : B -> A) (gf : forall a, g (f a) = a) : Enc A := {|
  enc a := enc (f a);
  dec l := match dec l with Some (b, rest) => Some (g b, rest) | None => None end |}.
Next Obligation. intros. apply enc_bytes. Qed.
Next Obligation. intros A B ? f g gf a rest. cbn. by rewrite dec_enc, gf. Qed.

#[export] Instance Enc_ascii : Enc ascii.
Proof.
  refine (Enc_via (fun a => Z.of_N (N_of_ascii a)) (fun z => ascii_of_N (Z.to_N z)) _).
  intros a. rewrite N2Z.id. apply ascii_N_embedding.
Defined.

#[export] Instance Enc_string : Enc string.
Proof. refine (Enc_via list_ascii_of_string string_of_list_ascii _). apply string_of_list_ascii_of_string. Defined.

#[export] Instance Enc_bool : Enc bool.
Proof. refine (Enc_via (fun b : bool => if b then 1 else 0) (fun z => z =? 1) _). by intros []. Defined.

#[export] Instance Enc_EntryType : Enc EntryType.
Proof.
  refine (Enc_via (fun t => match t with EntryNormal => 0 | EntryConfChange => 1 | EntryConfChangeV2 => 2 end)
    (fun z => if z =? 0 then EntryNormal else if z =? 1 then EntryConfChange else EntryConfChangeV2) _).
  by intros [].
Defined.

#[export] Instance Enc_Entry : Enc Entry.
Proof.
  refine (Enc_via (fun e => (e_type e, (e_term e, (e_index e, (e_data e, (e_context e, e_checksum e))))))
    (fun p => mkEntry p.1 p.2.1 p.2.2.1 p.2.2.2.1 p.2.2.2.2.1 p.2.2.2.2.2) _).
  by intros [].
Defined.

#[export] Instance Enc_HardState : Enc HardState.
Proof.
  refine (Enc_via (fun h => (hs_term h, (hs_vote h, hs_commit h))) (fun p => mkHardState p.1 p.2.1 p.2.2) _).
  by intros [].
Defined.

#[export] Instance Enc_ConfState : Enc ConfState.
Proof.
  refine (Enc_via (fun c => (cs_voters c, (cs_learners c, (cs_voters_outgoing c, (cs_learners_next c, cs_auto_leave c)))))
    (fun p => mkConfState p.1 p.2.1 p.2.2.1 p.2.2.2.1 p.2.2.2.2) _).
  by intros [].
Defined.

#[export] Instance Enc_Snapshot : Enc Snapshot.
Proof.
  refine (Enc_via (fun s => (sn_data s, (sm_conf_state (sn_meta s), (sm_index (sn_meta s), sm_term (sn_meta s)))))
    (fun p => mkSnapshot p.1 (mkSnapshotMetadata p.2.1 p.2.2.1 p.2.2.2)) _).
  by intros [? []].
Defined.

Definition pad_words (l : list Z) : list Z := l ++ zeros (8 - zlen l mod 8).

Program Definition Enc_Serializable {T} (E : Enc T) : Serializable T := {|
  messageToFlatArray t := pad_words (enc t);
  FlatArrayMessageReader l := match dec l with Some (t, _) => Some t | None => None end |}.
Next Obligation.
  intros T E t. unfold pad_words. rewrite length_app, Nat2Z.inj_add.
  pose proof (Z.mod_pos_bound (zlen (enc t)) 8). rewrite zeros_length by lia.
  exists (zlen (enc t) / 8 + 1). pose proof (Z.div_mod (zlen (enc t)) 8). lia.
Qed.
Next Obligation.
  intros T E t. unfold pad_words. rewrite length_app, Nat2Z.inj_add.
  pose proof (Z.mod_pos_bound (zlen (enc t)) 8). rewrite zeros_length by lia. lia.
Qed.
Next Obligation.
  intros T E t. unfold pad_words. apply Forall_app. split; [apply enc_bytes|]. apply Forall_replicate. lia.
Qed.
Next Obligation. intros T E t _. unfold pad_words. by rewrite dec_enc. Qed.
