(* ===== verification/Record.v ===== *)
(** * Records of the write-ahead log

    Model of [include/raftpp/raftor/wal/record.h], [lib/raftor/wal/record.cc]
    and [lib/raftor/wal/crc32c.cc]: the headers of segments, records and the
    metadata file with their layout in memory (little endian), and the building
    and parsing of checksummed records.  [crc32c::Extend] is a parameter that
    returns a [uint32_t]. *)

From S2P Require Import Prelude Bytes.

Class Crc := {
  crc32c_Extend : Z -> list Z -> Z;
  crc32c_range crc data : is_u32 (crc32c_Extend crc data)
}.

Definition kSegmentMagic : Z := 0x57414C31.
Definition kMetadataMagic : Z := 0x4D455441.
Definition kFormatVersion : Z := 1.

Inductive RecordType := RtEntry | RtEntryBatch | RtHardState.

Definition record_code (t : RecordType) : Z :=
  match t with RtEntry => 1 | RtEntryBatch => 2 | RtHardState => 3 end.

(** [static_cast<RecordType>]; other values match no case of a [switch]. *)
Definition record_type (code : Z) : option RecordType :=
  if code =? 1 then Some RtEntry
  else if code =? 2 then Some RtEntryBatch
  else if code =? 3 then Some RtHardState
  else None.

Record SegmentHeader := mkSegmentHeader {
  sh_magic : Z;
  sh_version : Z;
  sh_segment_id : Z;
  sh_first_index : Z;
  sh_reserved : Z
}.

Definition sizeof_SegmentHeader : Z := 32.

Definition new_segment_header (segment_id first_index : Z) : SegmentHeader :=
  mkSegmentHeader kSegmentMagic kFormatVersion segment_id first_index 0.

Definition sh_IsValid (h : SegmentHeader) : bool :=
  (sh_magic h =? kSegmentMagic) && (sh_version h =? kFormatVersion).

Definition sh_Serialize (h : SegmentHeader) : list Z :=
  le 4 (sh_magic h) ++ le 4 (sh_version h) ++ le 8 (sh_segment_id h) ++ le 8 (sh_first_index h) ++ le 8 (sh_reserved h).

Definition sh_Deserialize (b : list Z) : SegmentHeader :=
  mkSegmentHeader (of_le (sub 0 4 b)) (of_le (sub 4 4 b)) (of_le (sub 8 8 b)) (of_le (sub 16 8 b)) (of_le (sub 24 8 b)).

Record RecordHeader := mkRecordHeader {
  rh_crc : Z;
  rh_type : Z;
  rh_flags : Z;
  rh_reserved : Z;
  rh_length : Z;
  rh_padding : Z
}.

Definition sizeof_RecordHeader : Z := 16.

(** The bytes of a header from [type] on, which the checksum covers. *)
Definition rh_tail (h : RecordHeader) : list Z :=
  le 1 (rh_type h) ++ le 1 (rh_flags h) ++ le 2 (rh_reserved h) ++ le 4 (rh_length h) ++ le 4 (rh_padding h).

Definition rh_Serialize (h : RecordHeader) : list Z := le 4 (rh_crc h) ++ rh_tail h.

Definition rh_Deserialize (b : list Z) : RecordHeader :=
  mkRecordHeader (of_le (sub 0 4 b)) (of_le (sub 4 1 b)) (of_le (sub 5 1 b)) (of_le (sub 6 2 b)) (of_le (sub 8 4 b))
    (of_le (sub 12 4 b)).

Definition CalculatePadding (length : Z) : Z :=
  let total := u32 (sizeof_RecordHeader + length) in
  let remainder := total mod 8 in
  if remainder =? 0 then 0 else 8 - remainder.

Definition TotalSize (h : RecordHeader) : Z := u32 (sizeof_RecordHeader + rh_length h + rh_padding h).

Record MetadataHeader := mkMetadataHeader {
  mh_magic : Z;
  mh_version : Z;
  mh_crc : Z;
  mh_reserved : Z
}.

Definition sizeof_MetadataHeader : Z := 16.

Definition mh_IsValid (h : MetadataHeader) : bool :=
  (mh_magic h =? kMetadataMagic) && (mh_version h =? kFormatVersion).

Record MetadataContent := mkMetadataContent {
  mc_first_index : Z;
  mc_snapshot_index : Z;
  mc_snapshot_term : Z
}.

Definition sizeof_MetadataContent : Z := 24.

Section Record.
Context {CR : Crc}.

(** [CRC32C]: [Update] in turn with the parts, [Finalize]. *)
Definition Update (crc : Z) (data : list Z) : Z := crc32c_Extend crc data.

Definition record_crc (h : RecordHeader) (payload : list Z) : Z := Update (Update 0 (rh_tail h)) payload.

Definition Build (type_ : RecordType) (payload_ : list Z) : list Z :=
  let length := u32 (zlen payload_) in
  let header := mkRecordHeader 0 (record_code type_) 0 0 length (CalculatePadding length) in
  let header := mkRecordHeader (record_crc header payload_) (rh_type header) (rh_flags header) (rh_reserved header)
                  (rh_length header) (rh_padding header) in
  rh_Serialize header ++ payload_ ++ zeros (rh_padding header).

(** [RecordParser]: the header and the payload when the record is valid. *)
Definition RecordParser (data : list Z) : option (RecordHeader * list Z) :=
  if zlen data <? sizeof_RecordHeader then None
  else
    let header := rh_Deserialize (sub 0 sizeof_RecordHeader data) in
    let expected_size := sizeof_RecordHeader + rh_length header + rh_padding header in
    if zlen data <? expected_size then None
    else
      let payload := sub sizeof_RecordHeader (rh_length header) data in
      if record_crc header payload =? rh_crc header then Some (header, payload) else None.

(** ** Layout *)

Lemma sh_Serialize_length h : zlen (sh_Serialize h) = sizeof_SegmentHeader.
Proof. reflexivity. Qed.

Lemma rh_Serialize_length h : zlen (rh_Serialize h) = sizeof_RecordHeader.
Proof. reflexivity. Qed.

Lemma sh_roundtrip id first : is_u64 id -> is_u64 first ->
  sh_Deserialize (sh_Serialize (new_segment_header id first)) = new_segment_header id first.
Proof.
  intros Hi Hf. unfold sh_Deserialize.
  change (sub 8 8 _) with (le 8 id). change (sub 16 8 _) with (le 8 first).
  rewrite !of_le8 by assumption. reflexivity.
Qed.

Record header_fits (h : RecordHeader) : Prop := {
  hf_crc : is_u32 (rh_crc h);
  hf_type : 0 <= rh_type h < 256;
  hf_flags : 0 <= rh_flags h < 256;
  hf_reserved : 0 <= rh_reserved h < 65536;
  hf_length : is_u32 (rh_length h);
  hf_padding : is_u32 (rh_padding h)
}.

Lemma rh_roundtrip h : header_fits h -> rh_Deserialize (rh_Serialize h) = h.
Proof.
  intros []. unfold rh_Deserialize.
  change (sub 0 4 _) with (le 4 (rh_crc h)). change (sub 4 1 _) with (le 1 (rh_type h)).
  change (sub 5 1 _) with (le 1 (rh_flags h)). change (sub 6 2 _) with (le 2 (rh_reserved h)).
  change (sub 8 4 _) with (le 4 (rh_length h)). change (sub 12 4 _) with (le 4 (rh_padding h)).
  rewrite !of_le4, of_le2, !of_le1 by assumption. by destruct h.
Qed.

Lemma CalculatePadding_range length : 0 <= CalculatePadding length < 8.
Proof.
  unfold CalculatePadding. pose proof (Z.mod_pos_bound (u32 (sizeof_RecordHeader + length)) 8).
  destruct (Z.eqb_spec (u32 (sizeof_RecordHeader + length) mod 8) 0); lia.
Qed.

(** The payloads a record can hold. *)
Definition fits_record (payload : list Z) : Prop := zlen payload < 4294967264.

Definition built_header (t : RecordType) (payload : list Z) : RecordHeader :=
  let h := mkRecordHeader 0 (record_code t) 0 0 (zlen payload) (CalculatePadding (zlen payload)) in
  mkRecordHeader (record_crc h payload) (rh_type h) (rh_flags h) (rh_reserved h) (rh_length h) (rh_padding h).

Lemma Build_eq t payload : fits_record payload ->
  Build t payload = rh_Serialize (built_header t payload) ++ payload ++ zeros (CalculatePadding (zlen payload)).
Proof. intros Hp. unfold Build. rewrite is_u32_u32 by (unfold fits_record, is_u32, two32 in *; lia). reflexivity. Qed.

Lemma built_header_fits t payload : fits_record payload -> header_fits (built_header t payload).
Proof.
  intros Hp. unfold fits_record in Hp. pose proof (CalculatePadding_range (zlen payload)).
  constructor; cbn; try (unfold is_u32, two32; lia); [apply crc32c_range|destruct t; cbn; lia].
Qed.

Lemma Build_size t payload : fits_record payload ->
  zlen (Build t payload) = sizeof_RecordHeader + zlen payload + CalculatePadding (zlen payload).
Proof.
  intros Hp. rewrite Build_eq by done. rewrite !length_app, !Nat2Z.inj_add, rh_Serialize_length.
  rewrite zeros_length by (pose proof (CalculatePadding_range (zlen payload)); lia). lia.
Qed.

Lemma Build_fits t payload : fits_record payload -> is_u32 (zlen (Build t payload)).
Proof.
  intros Hp. rewrite Build_size by done. pose proof (CalculatePadding_range (zlen payload)).
  unfold fits_record, is_u32, two32, sizeof_RecordHeader in *. lia.
Qed.

(** The length a reader computes from the header. *)
Lemma Build_TotalSize t payload : fits_record payload -> TotalSize (built_header t payload) = zlen (Build t payload).
Proof.
  intros Hp. pose proof (Build_fits t payload Hp) as Hf. rewrite Build_size in * by done.
  unfold TotalSize. cbn [built_header rh_length rh_padding]. by apply is_u32_u32.
Qed.

Lemma Build_aligned t payload : fits_record payload -> (8 | zlen (Build t payload)).
Proof.
  intros Hp. rewrite Build_size by done. unfold CalculatePadding.
  rewrite is_u32_u32 by (unfold fits_record, is_u32, two32, sizeof_RecordHeader in *; lia).
  set (n := sizeof_RecordHeader + zlen payload). pose proof (Z.div_mod n 8). pose proof (Z.mod_pos_bound n 8).
  destruct (Z.eqb_spec (n mod 8) 0); [exists (n / 8)|exists (n / 8 + 1)]; lia.
Qed.

Lemma Build_header t payload rest : fits_record payload ->
  rh_Deserialize (sub 0 sizeof_RecordHeader (Build t payload ++ rest)) = built_header t payload.
Proof.
  intros Hp. rewrite Build_eq, <- app_assoc by done. rewrite sub_prefix by done.
  by apply rh_roundtrip, built_header_fits.
Qed.

Lemma parse_Build t payload rest : fits_record payload ->
  RecordParser (Build t payload ++ rest) = Some (built_header t payload, payload).
Proof.
  intros Hp. pose proof (CalculatePadding_range (zlen payload)) as Hr. unfold RecordParser.
  rewrite Build_header, length_app, Nat2Z.inj_add, Build_size by done. cbn [built_header rh_length rh_padding].
  destruct (Z.ltb_spec (sizeof_RecordHeader + zlen payload + CalculatePadding (zlen payload) + zlen rest) sizeof_RecordHeader);
    [unfold sizeof_RecordHeader in *; lia|].
  destruct (Z.ltb_spec (sizeof_RecordHeader + zlen payload + CalculatePadding (zlen payload) + zlen rest)
    (sizeof_RecordHeader + zlen payload + CalculatePadding (zlen payload))); [lia|].
  rewrite Build_eq, <- !app_assoc, sub_middle by done. unfold record_crc. cbn [rh_crc rh_tail].
  by rewrite Z.eqb_refl.
Qed.

(** A record cut short is not parsed. *)
Lemma parse_torn t payload n : fits_record payload -> (n < length (Build t payload))%nat ->
  RecordParser (take n (Build t payload)) = None.
Proof.
  intros Hp Hn. unfold RecordParser.
  assert (Hl : zlen (take n (Build t payload)) = Z.of_nat n) by (rewrite length_take; lia). rewrite Hl.
  destruct (Z.ltb_spec (Z.of_nat n) sizeof_RecordHeader) as [|Hh]; [done|].
  assert (E : sub 0 sizeof_RecordHeader (take n (Build t payload)) = sub 0 sizeof_RecordHeader (Build t payload ++ [])).
  { rewrite app_nil_r. rewrite <- (take_drop n (Build t payload)) at 2.
    symmetry. apply sub_app_l; [lia|unfold sizeof_RecordHeader; lia|]. lia. }
  rewrite E, Build_header by done. cbn [built_header rh_length rh_padding].
  pose proof (Build_size t payload Hp).
  destruct (Z.ltb_spec (Z.of_nat n) (sizeof_RecordHeader + zlen payload + CalculatePadding (zlen payload))); [done|lia].
Qed.

(** C35: A record that is written is read back: whatever follows it in the file,
    the parser accepts it with the type and the payload given to the builder,
    the header's total size is the number of bytes written, and this is a
    multiple of eight.  A proper prefix of a record is never accepted.  The
    length of the payload fits the 32 bits the format has for it. *)
Theorem record_roundtrip t payload rest : fits_record payload ->
  (exists h, RecordParser (Build t payload ++ rest) = Some (h, payload) /\
     record_type (rh_type h) = Some t /\ TotalSize h = zlen (Build t payload)) /\
  (8 | zlen (Build t payload)) /\
  (forall n, (n < length (Build t payload))%nat -> RecordParser (take n (Build t payload)) = None).
Proof.
  intros Hp. split; [|split; [by apply Build_aligned|intros n; by apply parse_torn]].
  exists (built_header t payload). split; [by apply parse_Build|]. split; [by destruct t|by apply Build_TotalSize].
Qed.
End Record.

(** ** A checksum for the witnesses: the sum of the bytes. *)
#[export] Program Instance sum_crc : Crc := {|
  crc32c_Extend crc data := u32 (foldl Z.add crc data) |}.
Next Obligation. intros. apply Z.mod_pos_bound. done. Qed.

Lemma record_roundtrip_witness :
  exists h, RecordParser (Build RtHardState [7; 8; 9] ++ [1; 2]) = Some (h, [7; 8; 9]) /\
    zlen (Build RtHardState [7; 8; 9]) = 24.
Proof.
  destruct (record_roundtrip RtHardState [7; 8; 9] [1; 2] eq_refl) as [(h & E & _) _].
  exists h. split; [exact E|reflexivity].
Defined.
