(* ===== verification/WalIndex.v ===== *)
(** * The in-memory index of the write-ahead log

    Model of [lib/raftor/wal/wal_index.cc]: where the record of each entry is,
    for a contiguous range of indexes. *)

From S2P Require Import Prelude Bytes.

Record IndexEntry := mkIndexEntry {
  ie_segment_id : Z;
  ie_offset : Z;
  ie_length : Z;
  ie_term : Z
}.

Record WALIndex := mkWALIndex {
  ix_first_index_ : Z;
  ix_entries_ : list IndexEntry
}.
#[export] Instance WALIndex_eta : Eta WALIndex := fun x => mkWALIndex (ix_first_index_ x) (ix_entries_ x).

Definition new_index : WALIndex := mkWALIndex 1 [].

Definition ix_empty (x : WALIndex) : bool := bool_decide (ix_entries_ x = []).

Definition ix_last_index (x : WALIndex) : Z :=
  if ix_empty x then ix_first_index_ x -! 1 else u64 (ix_first_index_ x + zlen (ix_entries_ x)) -! 1.

Definition ix_Insert (index segment_id offset length term : Z) : M WALIndex unit :=
  let! x := get in
  when (ix_empty x) (set! ix_first_index_ := index) ;;;
  let! x := get in
  let expected_index := u64 (ix_first_index_ x + zlen (ix_entries_ x)) in
  if negb (index =? expected_index) && ((index <? ix_first_index_ x) || (expected_index <? index)) then ret tt
  else set! ix_entries_ := (ix_entries_ x ++ [mkIndexEntry segment_id offset length term]).

Definition ix_Lookup (index : Z) (x : WALIndex) : option IndexEntry :=
  if ix_empty x || (index <? ix_first_index_ x) || (ix_last_index x <? index) then None
  else ix_entries_ x !! Z.to_nat (index -! ix_first_index_ x).

Definition ix_Term (index : Z) (x : WALIndex) : option Z :=
  match ix_Lookup index x with
  | Some e => Some (ie_term e)
  | None => None
  end.

Definition ix_TruncateFrom (index : Z) : M WALIndex unit :=
  let! x := get in
  if ix_empty x || (ix_last_index x <? index) then ret tt
  else if index <=? ix_first_index_ x then set! ix_entries_ := []
  else set! ix_entries_ := take (Z.to_nat (index -! ix_first_index_ x)) (ix_entries_ x).

Definition ix_TruncateBefore (index : Z) : M WALIndex unit :=
  let! x := get in
  if ix_empty x || (index <=? ix_first_index_ x) then ret tt
  else if ix_last_index x +! 1 <? index then
    set! ix_entries_ := [] ;;;
    set! ix_first_index_ := index
  else
    set! ix_entries_ := drop (Z.to_nat (index -! ix_first_index_ x)) (ix_entries_ x) ;;;
    set! ix_first_index_ := index.

Definition ix_Clear : M WALIndex unit :=
  set! ix_entries_ := [] ;;;
  set! ix_first_index_ := 1.

Definition ix_SetFirstIndex (first_index : Z) : M WALIndex unit := set! ix_first_index_ := first_index.

(** ** What the operations do to the map they represent *)

(** Indexes are positive and below 2^64 - 1. *)
Definition index_wf (x : WALIndex) : Prop :=
  0 < ix_first_index_ x /\ ix_first_index_ x + zlen (ix_entries_ x) < u64max.

Lemma ix_empty_false x e l : ix_entries_ x = e :: l -> ix_empty x = false.
Proof. intros E. unfold ix_empty. by rewrite E. Qed.

Lemma ix_last_index_eq x : index_wf x -> ix_last_index x = ix_first_index_ x + zlen (ix_entries_ x) - 1.
Proof.
  intros [Hf Hl]. unfold ix_last_index, ix_empty. destruct (ix_entries_ x) as [|e l]; cbn in *; u64_simpl; lia.
Qed.

Lemma ix_Lookup_eq i x : index_wf x -> 0 <= i ->
  ix_Lookup i x = if i <? ix_first_index_ x then None else ix_entries_ x !! Z.to_nat (i - ix_first_index_ x).
Proof.
  intros W Hi. unfold ix_Lookup. rewrite ix_last_index_eq by done. pose proof W as [Hf Hl].
  unfold ix_empty. destruct (bool_decide_reflect (ix_entries_ x = [])) as [E|E]; cbn [orb].
  - rewrite E. by destruct (i <? ix_first_index_ x).
  - destruct (Z.ltb_spec i (ix_first_index_ x)); cbn [orb]; [done|].
    destruct (Z.ltb_spec (ix_first_index_ x + zlen (ix_entries_ x) - 1) i).
    + symmetry. apply lookup_ge_None. lia.
    + by u64_simpl.
Qed.

Lemma ix_Insert_run i sid off len t x : index_wf x -> i = ix_first_index_ x + zlen (ix_entries_ x) ->
  ix_Insert i sid off len t x = Ret (tt, mkWALIndex (ix_first_index_ x) (ix_entries_ x ++ [mkIndexEntry sid off len t])).
Proof.
  destruct x as [first l]. cbn [ix_first_index_ ix_entries_]. intros [Hf Hl] ->. cbn -[u64max] in Hf, Hl.
  unfold ix_Insert, ix_empty. rewrite bind_get. destruct l as [|e l].
  - cbn -[u64 u64max]. cbn -[u64max] in Hl. rewrite !Z.add_0_r in *. u64_simpl. by rewrite Z.eqb_refl.
  - cbn [bool_decide]. rewrite bool_decide_eq_false_2 by done. unfold when. rewrite bind_ret, bind_get.
    cbn [ix_first_index_ ix_entries_]. u64_simpl. by rewrite Z.eqb_refl.
Qed.

Lemma ix_TruncateFrom_run i x : index_wf x -> ix_first_index_ x <= i ->
  ix_TruncateFrom i x = Ret (tt, mkWALIndex (ix_first_index_ x) (take (Z.to_nat (i - ix_first_index_ x)) (ix_entries_ x))).
Proof.
  intros W Hi. unfold ix_TruncateFrom. rewrite bind_get, ix_last_index_eq by done. pose proof W as [Hf Hl].
  destruct x as [first l]; cbn -[u64 u64max] in *. unfold ix_empty. cbn -[u64 u64max].
  destruct (bool_decide_reflect (l = [])) as [->|E]; cbn [orb].
  { by rewrite take_nil. }
  destruct (Z.ltb_spec (first + zlen l - 1) i).
  { rewrite take_ge by lia. done. }
  destruct (Z.leb_spec i first).
  - replace i with first by lia. by rewrite Z.sub_diag.
  - u64_simpl. done.
Qed.

Lemma ix_TruncateBefore_run i x : index_wf x -> ix_first_index_ x <= i -> i < u64max -> ix_entries_ x <> [] ->
  ix_TruncateBefore i x = Ret (tt, mkWALIndex i (drop (Z.to_nat (i - ix_first_index_ x)) (ix_entries_ x))).
Proof.
  intros W Hi Hm Hne. unfold ix_TruncateBefore. rewrite bind_get, ix_last_index_eq by done. pose proof W as [Hf Hl].
  destruct x as [first l]; cbn -[u64 u64max] in *. unfold ix_empty. cbn -[u64 u64max].
  destruct (bool_decide_reflect (l = [])) as [->|E]; cbn [orb]; [done|].
  destruct (Z.leb_spec i first).
  { replace i with first by lia. by rewrite Z.sub_diag. }
  u64_simpl. destruct (Z.ltb_spec (first + zlen l - 1 + 1) i); [|done].
  rewrite drop_ge by lia. done.
Qed.

(** The index is a finite map from a contiguous range of entry indexes to
    record positions: appending the next index adds exactly that binding,
    truncating a suffix keeps the bindings below, truncating a prefix those from
    the given index on. *)
Theorem index_operations_refine_map x i sid off len t : index_wf x -> 0 < i < u64max ->
  (i = ix_first_index_ x + zlen (ix_entries_ x) -> i + 1 < u64max ->
     exists y, ix_Insert i sid off len t x = Ret (tt, y) /\ index_wf y /\ forall j, 0 <= j ->
       ix_Lookup j y = if j =? i then Some (mkIndexEntry sid off len t) else ix_Lookup j x) /\
  (ix_first_index_ x <= i -> exists y, ix_TruncateFrom i x = Ret (tt, y) /\
     index_wf y /\ forall j, 0 <= j -> ix_Lookup j y = if j <? i then ix_Lookup j x else None) /\
  (ix_first_index_ x <= i -> ix_entries_ x <> [] -> exists y, ix_TruncateBefore i x = Ret (tt, y) /\
     index_wf y /\ ix_first_index_ y = i /\ forall j, 0 <= j -> ix_Lookup j y = if i <=? j then ix_Lookup j x else None).
Proof.
  intros W Hi. pose proof W as [Hf Hl]. split; [|split].
  - intros Ei Hb. rewrite ix_Insert_run by done. eexists. split; [done|].
    assert (Wy : index_wf (mkWALIndex (ix_first_index_ x) (ix_entries_ x ++ [mkIndexEntry sid off len t]))).
    { split; [done|]. cbn -[u64max]. rewrite length_app. cbn -[u64max]. lia. }
    split; [done|]. intros j Hj. rewrite !ix_Lookup_eq by done. cbn -[lookup].
    destruct (Z.ltb_spec j (ix_first_index_ x)); destruct (Z.eqb_spec j i); try lia; try done.
    + rewrite lookup_app_r by lia. replace (Z.to_nat _ - _)%nat with 0%nat by lia. done.
    + destruct (decide (j < i)); [by rewrite lookup_app_l by lia|]. rewrite !lookup_ge_None_2; [done|lia|].
      rewrite length_app. cbn. lia.
  - intros Hle. rewrite ix_TruncateFrom_run by done. eexists. split; [done|].
    split; [split; [done|]; cbn -[u64max]; rewrite length_take; lia|]. intros j Hj.
    rewrite !ix_Lookup_eq; [|done|done|split; [done|]; cbn -[u64max]; rewrite length_take; lia|done]. cbn -[lookup].
    destruct (Z.ltb_spec j (ix_first_index_ x)), (Z.ltb_spec j i); try lia; try done.
    + by rewrite lookup_take_lt by lia.
    + rewrite lookup_take_ge by lia. done.
  - intros Hle Hne. rewrite ix_TruncateBefore_run by (done || lia). eexists. split; [done|].
    assert (Wy : index_wf (mkWALIndex i (drop (Z.to_nat (i - ix_first_index_ x)) (ix_entries_ x)))).
    { split; [cbn; lia|]. cbn -[u64max]. rewrite length_drop.
      destruct (decide (i - ix_first_index_ x <= zlen (ix_entries_ x))); lia. }
    split; [done|]. split; [done|]. intros j Hj. rewrite !ix_Lookup_eq by done. cbn -[lookup].
    destruct (Z.ltb_spec j i), (Z.leb_spec i j), (Z.ltb_spec j (ix_first_index_ x)); try lia; try done.
    rewrite lookup_drop. f_equal. lia.
Qed.

Lemma index_operations_refine_map_witness :
  let x := mkWALIndex 5 [mkIndexEntry 1 32 40 2; mkIndexEntry 1 72 40 2] in
  exists y, ix_Insert 7 1 112 48 3 x = Ret (tt, y) /\ ix_Lookup 7 y = Some (mkIndexEntry 1 112 48 3) /\
    ix_Lookup 6 y = ix_Lookup 6 x.
Proof.
  intros x. destruct (index_operations_refine_map x 7 1 112 48 3) as [H _].
  - split; vm_compute; congruence.
  - split; vm_compute; congruence.
  - destruct (H eq_refl eq_refl) as (y & E & _ & Hl). exists y. split; [exact E|]. split; [exact (Hl 7 ltac:(lia))|exact (Hl 6 ltac:(lia))].
Defined.
