(* ===== verification/Disk.v ===== *)
(** * The directory of a write-ahead log and the calls on it

    The files of the log's directory as byte strings, and the system calls the
    code makes on them ([include/raftpp/raftor/wal/env.h],
    [lib/raftor/wal/env.cc] and the calls of the other files).  What the
    operating system answers to each call is a parameter: a call may succeed,
    fail, be interrupted, or transfer fewer bytes than asked for.  Files are
    named by their name in the directory; the code keeps no file open that it
    has unlinked. *)

From S2P Require Import Prelude Types Bytes.

(** ** Calls *)

Inductive io_answer :=
| IoOk
| IoErr
| IoIntr
| IoShort (count : Z).

(** The answer to each call; calls are not interrupted for ever. *)
Class Io := {
  answer : nat -> io_answer;
  io_patience : nat;
  io_progress n : exists k, (k < io_patience)%nat /\ answer (n + k) <> IoIntr
}.

Record Disk := mkDisk {
  dir_exists : bool;
  files : gmap string (list Z);
  calls : nat
}.
#[export] Instance Disk_eta : Eta Disk := fun d => mkDisk (dir_exists d) (files d) (calls d).

(** What a call that reports success, failure or a count returns. *)
Inductive io_status := Done | Interrupted | Failed.

Definition is_done (s : io_status) : bool := match s with Done => true | _ => false end.

Section Disk.
Context {IO : Io}.

Definition syscall : M Disk io_answer :=
  let! d := get in
  set! calls := S (calls d) ;;;
  ret (answer (calls d)).

Definition status (a : io_answer) : io_status :=
  match a with
  | IoErr => Failed
  | IoIntr => Interrupted
  | _ => Done
  end.

(** A call without a count: [effect] happens when it succeeds. *)
Definition call (guard : Disk -> bool) (effect : Disk -> Disk) : M Disk io_status :=
  let! a := syscall in
  let! d := get in
  match status a with
  | Done => if guard d then modify effect ;;; ret Done else ret Failed
  | s => ret s
  end.

Definition always (_ : Disk) : bool := true.
Definition has_file (name : string) (d : Disk) : bool := bool_decide (is_Some (files d !! name)).
Definition content (name : string) (d : Disk) : list Z := default [] (files d !! name).
Definition put_file (name : string) (bytes : list Z) (d : Disk) : Disk := d <| files := <[name := bytes]> (files d) |>.

(** [CreateDirectories] *)
Definition sys_mkdir : M Disk io_status := call always (fun d => d <| dir_exists := true |>).

(** [open] with [O_CREAT | O_EXCL], [O_CREAT | O_TRUNC], and of an existing file. *)
Definition sys_open_new (name : string) : M Disk io_status :=
  call (fun d => dir_exists d && negb (has_file name d)) (put_file name []).
Definition sys_open_trunc (name : string) : M Disk io_status := call dir_exists (put_file name []).
Definition sys_open (name : string) : M Disk io_status := call (has_file name) (fun d => d).
Definition sys_open_dir : M Disk io_status := call dir_exists (fun d => d).

Definition sys_sync : M Disk io_status := call always (fun d => d).
Definition sys_close : M Disk io_status := call always (fun d => d).
Definition sys_stat : M Disk io_status := call always (fun d => d).
Definition sys_unlink (name : string) : M Disk io_status :=
  call (has_file name) (fun d => d <| files := delete name (files d) |>).
(** [std::filesystem::remove], for which an absent file is no error. *)
Definition sys_remove (name : string) : M Disk io_status :=
  call always (fun d => d <| files := delete name (files d) |>).
Definition sys_rename (from to : string) : M Disk io_status :=
  call (has_file from) (fun d => d <| files := <[to := content from d]> (delete from (files d)) |>).
Definition sys_truncate (name : string) (size : Z) : M Disk io_status :=
  call (has_file name) (fun d => put_file name (resize size (content name d)) d).

(** [posix_fallocate] extends a file with zeros. *)
Definition sys_fallocate (name : string) (size : Z) : M Disk io_status :=
  call (has_file name) (fun d => put_file name (resize (Z.max size (zlen (content name d))) (content name d)) d).

(** The bytes a call that may be short transfers. *)
Definition transferred (a : io_answer) (size : Z) : Z :=
  match a with
  | IoShort n => Z.min (Z.max 0 n) size
  | _ => size
  end.

(** [pwrite]: the number of bytes written. *)
Definition sys_write (name : string) (offset : Z) (data : list Z) : M Disk (io_status * Z) :=
  let! a := syscall in
  match status a with
  | Done =>
      let n := transferred a (zlen data) in
      modify (fun d => put_file name (splice offset (sub 0 n data) (content name d)) d) ;;;
      ret (Done, n)
  | s => ret (s, 0)
  end.

(** [pread]: the bytes read, at most [size]. *)
Definition sys_read (name : string) (offset size : Z) : M Disk (io_status * list Z) :=
  let! a := syscall in
  let! d := get in
  match status a with
  | Done => let data := sub offset size (content name d) in ret (Done, sub 0 (transferred a (zlen data)) data)
  | s => ret (s, [])
  end.

(** [std::filesystem::directory_iterator]: the names in the directory, in some
    order; the iterator is at its end when the directory cannot be read. *)
Definition sys_list : M Disk (list string) :=
  let! a := syscall in
  let! d := get in
  match status a with
  | Done => ret (elements (dom (files d)))
  | _ => ret []
  end.

(** Calls whose failure is reported as [message]. *)
Definition or_fail (m : M Disk io_status) (message : string) : M Disk (Result unit) :=
  let! s := m in
  match s with
  | Done => rok tt
  | _ => rfail (EStorageOther message)
  end.

(** Calls whose result the code ignores. *)
Definition quietly (m : M Disk io_status) : M Disk unit := m ;;; ret tt.
End Disk.

(** ** Total correctness

    [wp m Q s]: [m] returns from [s], with [Q] of its result. *)
Definition wp {S A} (m : M S A) (Q : A -> S -> Prop) (s : S) : Prop :=
  match m s with
  | Ret (a, s') => Q a s'
  | Abort _ => False
  end.

Section Wp.
Context {S : Type}.
Implicit Types s : S.

Lemma wp_ret {A} (a : A) Q s : Q a s -> wp (ret a) Q s.
Proof. done. Qed.

Lemma wp_bind {A B} (m : M S A) (k : A -> M S B) Q s : wp m (fun a s' => wp (k a) Q s') s -> wp (bind m k) Q s.
Proof. unfold wp, bind. destruct (m s) as [[a s']|]; done. Qed.

Lemma wp_mono {A} (m : M S A) (P Q : A -> S -> Prop) s : wp m P s -> (forall a s', P a s' -> Q a s') -> wp m Q s.
Proof. unfold wp. destruct (m s) as [[a s']|]; [auto|done]. Qed.

Lemma wp_get Q s : Q s s -> wp get Q s.
Proof. done. Qed.

Lemma wp_gets {A} (f : S -> A) Q s : Q (f s) s -> wp (gets f) Q s.
Proof. done. Qed.

Lemma wp_modify f Q s : Q tt (f s) -> wp (modify f) Q s.
Proof. done. Qed.

Lemma wp_zoom {T A} (view : S -> T) put (m : M T A) Q s :
  wp m (fun a t => Q a (put t s)) (view s) -> wp (zoom view put m) Q s.
Proof. unfold wp, zoom. destruct (m (view s)) as [[a t]|]; done. Qed.

Lemma wp_mrbind {A B} (m : M S (Result A)) (k : A -> M S (Result B)) Q s :
  wp m (fun r s' => match r with Ok a => wp (k a) Q s' | Err e => Q (Err e) s' end) s -> wp (mrbind m k) Q s.
Proof. unfold mrbind. intros Hm. apply wp_bind. eapply wp_mono; [exact Hm|]. by intros [a|e] s'. Qed.

Lemma wp_run {A} (m : M S A) x s' Q s : m s = Ret (x, s') -> Q x s' -> wp m Q s.
Proof. unfold wp. by intros ->. Qed.

Lemma wp_Ret {A} (m : M S A) Q s : wp m Q s <-> exists a s', m s = Ret (a, s') /\ Q a s'.
Proof.
  unfold wp. destruct (m s) as [[a s']|f]; [split; [eauto|]|split; [done|]].
  - by intros (? & ? & [= <- <-] & ?).
  - by intros (? & ? & ? & _).
Qed.

(** An invariant of a loop. *)
Lemma wp_foreach {X} (l : list X) (body : X -> M S unit) (I : list X -> S -> Prop) Q s :
  I l s -> (forall x l' s, I (x :: l') s -> wp (body x) (fun _ s' => I l' s') s) -> (forall s, I [] s -> Q tt s) ->
  wp (foreach l body) Q s.
Proof.
  intros Hi Hb Hq. revert s Hi. induction l as [|x l IH]; intros s Hi; cbn [foreach]; [by apply wp_ret, Hq|].
  apply wp_bind. eapply wp_mono; [by apply Hb|]. intros ? s' Hi'. by apply IH.
Qed.

Lemma wp_foreachM {X} (l : list X) (body : X -> M S (Result unit)) (I : list X -> S -> Prop) (Q : Result unit -> S -> Prop) s :
  I l s ->
  (forall x l' s, I (x :: l') s ->
     wp (body x) (fun r s' => match r with Ok _ => I l' s' | Err e => Q (Err e) s' end) s) ->
  (forall s, I [] s -> Q (Ok tt) s) -> wp (foreachM l body) Q s.
Proof.
  intros Hi Hb Hq. revert s Hi. induction l as [|x l IH]; intros s Hi; cbn [foreachM]; [by apply wp_ret, Hq|].
  apply wp_mrbind. eapply wp_mono; [by apply Hb|]. intros [[]|e] s' H'; [by apply IH|done].
Qed.
End Wp.

(** [wp_step] runs the head of a method. *)
Ltac wp_step :=
  cbv beta;
  match goal with
  | |- wp (bind _ _) _ _ => apply wp_bind
  | |- wp (mrbind _ _) _ _ => apply wp_mrbind
  | |- wp (ret _) _ _ => apply wp_ret
  | |- wp (rok _) _ _ => apply wp_ret
  | |- wp (rfail _) _ _ => apply wp_ret
  | |- wp get _ _ => apply wp_get
  | |- wp (gets _) _ _ => apply wp_gets
  | |- wp (modify _) _ _ => apply wp_modify
  | |- wp (zoom _ _ _) _ _ => apply wp_zoom
  end; cbv beta.
Ltac wp_steps := repeat wp_step.

(** ** What the calls do *)

Section Calls.
Context {IO : Io}.

(** Disks with the same files. *)
Definition same_files (d d' : Disk) : Prop := files d' = files d /\ dir_exists d' = dir_exists d.

#[export] Instance same_files_preorder : PreOrder same_files.
Proof. split; [done|]. intros d1 d2 d3 [E1 E2] [E3 E4]. split; congruence. Qed.

(** Some call does not do what it was asked. *)
Definition io_fault : Prop := exists n, answer n <> IoOk.

Lemma wp_syscall Q d : (forall a, (a <> IoOk -> io_fault) -> Q a (d <| calls := S (calls d) |>)) -> wp syscall Q d.
Proof. intros HQ. apply HQ. intros Ha. by exists (calls d). Qed.

Lemma wp_call guard effect Q d :
  (forall d1, same_files d d1 -> guard d1 = true -> Q Done (effect d1)) ->
  (forall d1 s, same_files d d1 -> s <> Done -> (guard d1 = true -> io_fault) -> Q s d1) -> wp (call guard effect) Q d.
Proof.
  intros Hok Hno. unfold call. wp_step. apply wp_syscall. intros a Ha. wp_steps.
  set (d1 := d <| calls := _ |>). assert (Hs : same_files d d1) by done.
  destruct (status a) eqn:Es; [|apply Hno; [done|done|]; intros _; apply Ha; by destruct a..].
  destruct (guard d1) eqn:E; [by apply Hok|]. apply Hno; [done|done|congruence].
Qed.

(** A call that does nothing to the files. *)
Lemma wp_inert guard Q d : (forall s d1, same_files d d1 -> (s <> Done -> guard d1 = true -> io_fault) -> Q s d1) ->
  wp (call guard (fun d => d)) Q d.
Proof. intros HQ. apply wp_call; intros; by apply HQ. Qed.

(** The errors of failed calls. *)
Definition io_error (e : RaftError) : Prop := (exists msg, e = EStorageOther msg) /\ io_fault.

Lemma io_error_intro msg : io_fault -> io_error (EStorageOther msg).
Proof. intros Hf. split; [eauto|done]. Qed.

Lemma has_file_true name d x : files d !! name = Some x -> has_file name d = true.
Proof. intros E. unfold has_file. by rewrite E. Qed.

Lemma wp_write name off data Q d :
  (forall d1, same_files d d1 -> Q (Done, zlen data) (put_file name (splice off data (content name d)) d1)) ->
  (forall d1 n, same_files d d1 -> 0 <= n < zlen data -> io_fault ->
     Q (Done, n) (put_file name (splice off (sub 0 n data) (content name d)) d1)) ->
  (forall d1 s, same_files d d1 -> s <> Done -> io_fault -> Q (s, 0) d1) -> wp (sys_write name off data) Q d.
Proof.
  intros Hok Hshort Hno. unfold sys_write. wp_step. apply wp_syscall. intros a Ha.
  set (d1 := d <| calls := _ |>). assert (Hs : same_files d d1) by done.
  assert (Hc : content name d1 = content name d) by done.
  destruct (status a) eqn:Ea; [|apply wp_ret, Hno; [done|done|]; apply Ha; by destruct a..]. cbv zeta. wp_steps. rewrite Hc.
  assert (Hn : 0 <= transferred a (zlen data) <= zlen data) by (destruct a; cbn; lia).
  destruct (decide (transferred a (zlen data) = zlen data)) as [->|]; [rewrite sub_whole; by apply Hok|].
  apply Hshort; [done|lia|]. apply Ha. intros ->. done.
Qed.

Lemma wp_read name off size Q d :
  (forall d1, same_files d d1 -> Q (Done, sub off size (content name d)) d1) ->
  (forall d1 n, same_files d d1 -> 0 <= n < zlen (sub off size (content name d)) -> io_fault ->
     Q (Done, sub 0 n (sub off size (content name d))) d1) ->
  (forall d1 s, same_files d d1 -> s <> Done -> io_fault -> Q (s, []) d1) -> wp (sys_read name off size) Q d.
Proof.
  intros Hok Hshort Hno. unfold sys_read. wp_step. apply wp_syscall. intros a Ha. wp_steps.
  set (d1 := d <| calls := _ |>). assert (Hs : same_files d d1) by done.
  assert (Hc : content name d1 = content name d) by done.
  destruct (status a) eqn:Ea; [|apply wp_ret, Hno; [done|done|]; apply Ha; by destruct a..]. rewrite Hc. cbv zeta.
  set (data := sub off size (content name d)). apply wp_ret.
  assert (Hn : 0 <= transferred a (zlen data) <= zlen data) by (destruct a; cbn; lia).
  destruct (decide (transferred a (zlen data) = zlen data)) as [->|]; [rewrite sub_whole; by apply Hok|].
  apply Hshort; [done|fold data; lia|]. apply Ha. intros ->. done.
Qed.

Lemma wp_list Q d :
  (forall d1, same_files d d1 -> Q (elements (dom (files d))) d1) ->
  (forall d1, same_files d d1 -> io_fault -> Q [] d1) -> wp sys_list Q d.
Proof.
  intros Hok Hno. unfold sys_list. wp_step. apply wp_syscall. intros a Ha. wp_steps.
  destruct (status a) eqn:Ea; [by apply Hok|apply Hno; [done|]; apply Ha; by destruct a..].
Qed.

Lemma wp_or_fail m msg Q d :
  wp m (fun s d' => Q (match s with Done => Ok tt | _ => Err (EStorageOther msg) end) d') d -> wp (or_fail m msg) Q d.
Proof. intros Hm. unfold or_fail. wp_step. eapply wp_mono; [exact Hm|]. by intros [] d'. Qed.

Lemma wp_quietly m Q d : wp m (fun _ d' => Q tt d') d -> wp (quietly m) Q d.
Proof. intros Hm. unfold quietly. wp_step. eapply wp_mono; [exact Hm|]. done. Qed.

Lemma same_files_content name d d1 : same_files d d1 -> content name d1 = content name d.
Proof. unfold content. by intros [-> _]. Qed.
End Calls.

(** An operating system that never fails, and one whose [n]-th call gets an
    answer of its own. *)
Program Definition reliable_io : Io := {| answer n := IoOk; io_patience := 1 |}.
Next Obligation. intros n. exists 0%nat. split; [lia|done]. Qed.

Program Definition faulty_io (n : nat) (a : io_answer) (_ : a <> IoIntr) : Io := {|
  answer k := if Nat.eqb k n then a else IoOk; io_patience := 1 |}.
Next Obligation. intros n a Ha k. exists 0%nat. split; [lia|]. cbn. by destruct (_ =? _)%nat. Qed.
