(* ===== verification/Metadata.v ===== *)
(** * The metadata file of the write-ahead log

    Model of [lib/raftor/wal/metadata_store.cc]: hard state, configuration,
    peer addresses and log bounds in one checksummed file, which is replaced by
    renaming a temporary file. *)

From S2P Require Import Prelude Types Bytes Capnp Record Disk.

Record PeerAddress := mkPeerAddress {
  pa_id : Z;
  pa_addr : string
}.

(** [hard_state] and [conf_state] are pointers, null in a default value. *)
Record WALMetadata := mkWALMetadata {
  wm_hard_state : option HardState;
  wm_conf_state : option ConfState;
  wm_peer_addresses : list PeerAddress;
  wm_first_index : Z;
  wm_snapshot_index : Z;
  wm_snapshot_term : Z
}.
#[export] Instance WALMetadata_eta : Eta WALMetadata := fun m =>
  mkWALMetadata (wm_hard_state m) (wm_conf_state m) (wm_peer_addresses m) (wm_first_index m) (wm_snapshot_index m)
    (wm_snapshot_term m).

Definition default_metadata : WALMetadata := mkWALMetadata None None [] 1 0 0.

Definition kMetadataFile : string := "metadata".
Definition kMetadataTmpFile : string := "metadata.tmp".

(** The messages in the files of the log. *)
Class Capnp := {
  capnp_Entry :: Serializable Entry;
  capnp_HardState :: Serializable HardState;
  capnp_ConfState :: Serializable ConfState;
  capnp_Snapshot :: Serializable Snapshot;
  (** [msg::PeerAddressBook]: a list of node id and address. *)
  capnp_PeerAddressBook :: Serializable (list PeerAddress)
}.

Section Metadata.
Context {CR : Crc} {CP : Capnp}.

Definition content_bytes (c : MetadataContent) : list Z :=
  le 8 (mc_first_index c) ++ le 8 (mc_snapshot_index c) ++ le 8 (mc_snapshot_term c).

Definition header_bytes (h : MetadataHeader) : list Z :=
  le 4 (mh_magic h) ++ le 4 (mh_version h) ++ le 4 (mh_crc h) ++ le 4 (mh_reserved h).

(** Everything after the checksum field. *)
Definition crc_offset : Z := 12.

Definition Serialize (meta : WALMetadata) : list Z :=
  let hard_state_bytes := match wm_hard_state meta with Some hs => toBytes hs | None => [] end in
  let conf_state_bytes := match wm_conf_state meta with Some cs => toBytes cs | None => [] end in
  let peer_address_book_bytes :=
    if bool_decide (wm_peer_addresses meta = []) then [] else toBytes (wm_peer_addresses meta) in
  let total_size := sizeof_MetadataHeader + sizeof_MetadataContent + 4 + zlen hard_state_bytes + 4 +
                    zlen conf_state_bytes + 4 + zlen peer_address_book_bytes in
  let content := mkMetadataContent (wm_first_index meta) (wm_snapshot_index meta) (wm_snapshot_term meta) in
  let hs_len := u32 (zlen hard_state_bytes) in
  let cs_len := u32 (zlen conf_state_bytes) in
  let peer_address_book_len := u32 (zlen peer_address_book_bytes) in
  let data := resize total_size
    (zeros sizeof_MetadataHeader ++ content_bytes content ++
     le 4 hs_len ++ sub 0 hs_len hard_state_bytes ++
     le 4 cs_len ++ sub 0 cs_len conf_state_bytes ++
     le 4 peer_address_book_len ++ sub 0 peer_address_book_len peer_address_book_bytes) in
  let crc := Update 0 (sub crc_offset (zlen data - crc_offset) data) in
  let header := mkMetadataHeader kMetadataMagic kFormatVersion crc 0 in
  splice 0 (header_bytes header) data.

Definition too_small {A} : Result A := Err (EStorage MetadataFileTooSmall).

(** The messages read out of the file; [None] for a length of 0. *)
Definition read_message {T} `{!Serializable T} (offset len : Z) (data : list Z) (ec : StorageErrorCode) :
    Result (option T) :=
  if 0 <? len then
    if zlen data <? offset + len then too_small
    else match fromPayload (sub offset len data) with
         | Some t => Ok (Some t)
         | None => Err (EStorage ec)
         end
  else Ok None.

(** The address book, absent from files of an older format. *)
Definition read_book (offset : Z) (data : list Z) : Result (list PeerAddress) :=
  if offset <? zlen data then
    if zlen data - offset <? 4 then too_small
    else
      let len := of_le (sub offset 4 data) in
      let offset := offset + 4 in
      if zlen data - offset <? len then too_small
      else
        let* (book, offset) :=
          (if 0 <? len then
             match fromBytes (sub offset len data) with
             | Some book => Ok (book, offset + len)
             | None => Err (EStorage PeerAddressBookParseError)
             end
           else Ok ([], offset)) in
        if negb (offset =? zlen data) then too_small else Ok book
  else Ok [].

Definition Deserialize (data : list Z) : Result WALMetadata :=
  if zlen data <? sizeof_MetadataHeader + sizeof_MetadataContent then too_small
  else
    let header := mkMetadataHeader (of_le (sub 0 4 data)) (of_le (sub 4 4 data)) (of_le (sub 8 4 data))
                    (of_le (sub 12 4 data)) in
    if negb (mh_IsValid header) then Err (EStorage InvalidMetadataHeader)
    else if negb (Update 0 (sub crc_offset (zlen data - crc_offset) data) =? mh_crc header) then
      Err (EStorage MetadataCrcMismatch)
    else
      let offset := 40 in
      if zlen data <? offset + 4 then too_small
      else
        let hs_len := of_le (sub offset 4 data) in
        let offset := offset + 4 in
        let* hs := read_message offset hs_len data HardStateParseError in
        let offset := offset + hs_len in
        if zlen data <? offset + 4 then too_small
        else
          let cs_len := of_le (sub offset 4 data) in
          let offset := offset + 4 in
          let* cs := read_message offset cs_len data ConfStateParseError in
          let offset := offset + cs_len in
          let* book := read_book offset data in
          Ok (mkWALMetadata (Some (default empty_hard_state hs)) (Some (default empty_conf_state cs)) book
                (of_le (sub 16 8 data)) (of_le (sub 24 8 data)) (of_le (sub 32 8 data))).

Context {IO : Io}.

Definition Exists (d : Disk) : bool := has_file kMetadataFile d.

Definition AtomicWrite (data : list Z) : M Disk (Result unit) :=
  try! _ := or_fail (sys_open_trunc kMetadataTmpFile) "failed to create temp metadata: {}" in
  let! (s, written) := sys_write kMetadataTmpFile 0 data in
  if negb (is_done s && (written =? zlen data)) then
    quietly sys_close ;;;
    quietly (sys_unlink kMetadataTmpFile) ;;;
    rfail (EStorageOther "failed to write temp metadata: {}")
  else
    let! s := sys_sync in
    if negb (is_done s) then
      quietly sys_close ;;;
      quietly (sys_unlink kMetadataTmpFile) ;;;
      rfail (EStorageOther "failed to sync temp metadata: {}")
    else
      quietly sys_close ;;;
      let! s := sys_rename kMetadataTmpFile kMetadataFile in
      if negb (is_done s) then
        quietly (sys_unlink kMetadataTmpFile) ;;;
        rfail (EStorageOther "failed to rename metadata: {}")
      else
        let! s := sys_open_dir in
        match s with
        | Done => quietly sys_sync ;;; quietly sys_close
        | _ => ret tt
        end ;;;
        rok tt.

Definition Save (meta : WALMetadata) : M Disk (Result unit) := AtomicWrite (Serialize meta).

Definition Load : M Disk (Result WALMetadata) :=
  let! d := get in
  if negb (Exists d) then rok default_metadata
  else
    try! _ := or_fail (sys_open kMetadataFile) "failed to open metadata: {}" in
    let! s := sys_stat in
    match s with
    | Done =>
        let! size := gets (fun d => zlen (content kMetadataFile d)) in
        let! (s, data) := sys_read kMetadataFile 0 size in
        quietly sys_close ;;;
        if negb (is_done s && (zlen data =? size)) then
          rfail (EStorageOther "failed to read metadata: {}")
        else ret (Deserialize data)
    | _ =>
        quietly sys_close ;;;
        rfail (EStorageOther "failed to get metadata size: {}")
    end.

Definition Initialize : M Disk (Result unit) :=
  let! d := get in
  try! _ := (if negb (dir_exists d) then or_fail sys_mkdir "failed to create directory: {}" else rok tt) in
  let! d := get in
  if negb (Exists d) then Save default_metadata else rok tt.

Definition SizeBytes (d : Disk) : Z :=
  u64 (zlen (content kMetadataFile d) + zlen (content kMetadataTmpFile d)).

(** ** Round trip *)

(** What a reader makes of metadata: absent messages are empty ones. *)
Definition loaded (meta : WALMetadata) : WALMetadata :=
  meta <| wm_hard_state := Some (default empty_hard_state (wm_hard_state meta)) |>
       <| wm_conf_state := Some (default empty_conf_state (wm_conf_state meta)) |>.

(** Metadata within the bounds of its fields and of the message reader. *)
Record metadata_fits (meta : WALMetadata) : Prop := {
  mf_first : is_u64 (wm_first_index meta);
  mf_index : is_u64 (wm_snapshot_index meta);
  mf_term : is_u64 (wm_snapshot_term meta);
  mf_hard : forall hs, wm_hard_state meta = Some hs -> zlen (toBytes hs) <= kTraversalLimit;
  mf_conf : forall cs, wm_conf_state meta = Some cs -> zlen (toBytes cs) <= kTraversalLimit;
  mf_book : zlen (toBytes (wm_peer_addresses meta)) <= kTraversalLimit
}.

(** The file as its parts, with the checksum at its place. *)
Definition layout (crc : Z) (meta : WALMetadata) (hs cs book : list Z) : list Z :=
  le 4 kMetadataMagic ++ le 4 kFormatVersion ++ le 4 crc ++ le 4 0 ++
  le 8 (wm_first_index meta) ++ le 8 (wm_snapshot_index meta) ++ le 8 (wm_snapshot_term meta) ++
  le 4 (zlen hs) ++ hs ++ le 4 (zlen cs) ++ cs ++ le 4 (zlen book) ++ book.

Definition hs_bytes (meta : WALMetadata) : list Z :=
  match wm_hard_state meta with Some hs => toBytes hs | None => [] end.
Definition cs_bytes (meta : WALMetadata) : list Z :=
  match wm_conf_state meta with Some cs => toBytes cs | None => [] end.
Definition book_bytes (meta : WALMetadata) : list Z :=
  if bool_decide (wm_peer_addresses meta = []) then [] else toBytes (wm_peer_addresses meta).

(** The bytes the checksum covers. *)
Definition covered (meta : WALMetadata) : list Z :=
  le 4 0 ++ le 8 (wm_first_index meta) ++ le 8 (wm_snapshot_index meta) ++ le 8 (wm_snapshot_term meta) ++
  le 4 (zlen (hs_bytes meta)) ++ hs_bytes meta ++ le 4 (zlen (cs_bytes meta)) ++ cs_bytes meta ++
  le 4 (zlen (book_bytes meta)) ++ book_bytes meta.

Lemma bytes_fit meta : metadata_fits meta ->
  is_u32 (zlen (hs_bytes meta)) /\ is_u32 (zlen (cs_bytes meta)) /\ is_u32 (zlen (book_bytes meta)).
Proof.
  intros [_ _ _ Hh Hc Hb]. unfold hs_bytes, cs_bytes, book_bytes, is_u32, two32, kTraversalLimit in *.
  repeat split; try lia.
  - destruct (wm_hard_state meta) as [hs|]; [specialize (Hh hs eq_refl); lia|cbn; lia].
  - destruct (wm_conf_state meta) as [cs|]; [specialize (Hc cs eq_refl); lia|cbn; lia].
  - destruct (bool_decide _); [cbn; lia|lia].
Qed.

Lemma Serialize_eq meta : metadata_fits meta ->
  Serialize meta = layout (Update 0 (covered meta)) meta (hs_bytes meta) (cs_bytes meta) (book_bytes meta).
Proof.
  intros Hm. destruct (bytes_fit meta Hm) as (Hh & Hc & Hb).
  unfold Serialize. fold (hs_bytes meta) (cs_bytes meta) (book_bytes meta).
  rewrite !(is_u32_u32 (zlen _)), !sub_whole by assumption. cbv zeta.
  set (body := _ ++ _ ++ le 4 (zlen (hs_bytes meta)) ++ _).
  assert (Hbody : body = zeros 12 ++ covered meta) by reflexivity.
  assert (Hlen : zlen body = 16 + 24 + 4 + zlen (hs_bytes meta) + 4 + zlen (cs_bytes meta) + 4 + zlen (book_bytes meta)).
  { rewrite Hbody. unfold covered. rewrite !length_app, !le_length. unfold zeros. rewrite length_replicate. lia. }
  assert (Hr : resize (16 + 24 + 4 + zlen (hs_bytes meta) + 4 + zlen (cs_bytes meta) + 4 + zlen (book_bytes meta)) body = body).
  { rewrite <- Hlen. rewrite <- (app_nil_r body) at 2. apply resize_prefix. }
  unfold sizeof_MetadataHeader, sizeof_MetadataContent. rewrite Hr. clear Hr.
  assert (Hs : sub crc_offset (zlen body - crc_offset) body = covered meta).
  { rewrite Hbody at 2. rewrite <- (app_nil_r (covered meta)) at 1.
    apply sub_middle; [reflexivity|]. rewrite Hbody, length_app. change (length (zeros 12)) with 12%nat.
    unfold crc_offset. lia. }
  rewrite Hs. exact (splice_append [] _ _).
Qed.

Lemma read_message_at {T} `{!Serializable T} (o : option T) pre post ec off len :
  off = zlen pre -> len = zlen (match o with Some t => toBytes t | None => [] end) ->
  (forall t, o = Some t -> zlen (toBytes t) <= kTraversalLimit) ->
  read_message off len (pre ++ match o with Some t => toBytes t | None => [] end ++ post) ec = Ok o.
Proof.
  intros -> -> Ht. unfold read_message. destruct o as [t|]; [|done]. specialize (Ht t eq_refl).
  pose proof (flat_nonempty t) as Hp. change (messageToFlatArray t) with (toBytes t) in Hp.
  rewrite (proj2 (Z.ltb_lt _ _) Hp). rewrite !length_app.
  destruct (Z.ltb_spec (Z.of_nat (length pre + (length (toBytes t) + length post))) (zlen pre + zlen (toBytes t))); [lia|].
  rewrite sub_middle by done. by rewrite fromPayload_toBytes.
Qed.

Lemma read_book_at pre bytes (l : list PeerAddress) off : off = zlen pre -> zlen bytes <= kTraversalLimit ->
  (bytes = [] /\ l = [] \/ 0 < zlen bytes /\ fromBytes bytes = Some l) ->
  read_book off (pre ++ le 4 (zlen bytes) ++ bytes) = Ok l.
Proof.
  intros -> Hl Hb. unfold read_book.
  assert (Hu : is_u32 (zlen bytes)) by (unfold is_u32, two32, kTraversalLimit in *; lia).
  assert (Es : sub (zlen pre + 4) (zlen bytes) (pre ++ le 4 (zlen bytes) ++ bytes) = bytes).
  { rewrite app_assoc. rewrite <- (app_nil_r bytes) at 3. apply sub_middle; [rewrite length_app, le_length; lia|done]. }
  rewrite sub_middle, of_le4, Es, !length_app, le_length by done.
  rewrite (proj2 (Z.ltb_lt (zlen pre) _)) by lia.
  rewrite (proj2 (Z.ltb_ge (_ - _) 4)) by lia. rewrite (proj2 (Z.ltb_ge (_ - _) (zlen bytes))) by lia.
  destruct Hb as [[-> ->]|[Hp Hr]].
  - change (0 <? zlen []) with false. cbn [rbind]. rewrite (proj2 (Z.eqb_eq _ _)) by (cbn [length]; lia). done.
  - rewrite (proj2 (Z.ltb_lt _ _) Hp), Hr. cbn [rbind]. rewrite (proj2 (Z.eqb_eq _ _)) by lia. done.
Qed.

Lemma Deserialize_Serialize meta : metadata_fits meta -> Deserialize (Serialize meta) = Ok (loaded meta).
Proof.
  intros Hm. pose proof Hm as [Hf Hi Ht Hh Hc Hb]. destruct (bytes_fit meta Hm) as (Lh & Lc & _).
  rewrite Serialize_eq by done. set (crc := Update 0 (covered meta)). set (data := layout _ _ _ _ _).
  assert (Hlen : zlen data = 52 + zlen (hs_bytes meta) + zlen (cs_bytes meta) + zlen (book_bytes meta)).
  { unfold data, layout. rewrite !length_app, !le_length. lia. }
  assert (Hcrc : is_u32 crc) by apply crc32c_range.
  assert (Hcov : sub crc_offset (zlen data - crc_offset) data = covered meta).
  { change data with ((le 4 kMetadataMagic ++ le 4 kFormatVersion ++ le 4 crc) ++ covered meta).
    rewrite <- (app_nil_r (covered meta)) at 2. apply sub_middle; [reflexivity|].
    rewrite length_app. change (length (_ ++ _ ++ _)) with 12%nat. unfold crc_offset. lia. }
  unfold Deserialize. rewrite Hcov, Hlen. fold crc.
  change (sub 0 4 data) with (le 4 kMetadataMagic). change (sub 4 4 data) with (le 4 kFormatVersion).
  change (sub 8 4 data) with (le 4 crc). change (sub 16 8 data) with (le 8 (wm_first_index meta)).
  change (sub 24 8 data) with (le 8 (wm_snapshot_index meta)). change (sub 32 8 data) with (le 8 (wm_snapshot_term meta)).
  change (sub 40 4 data) with (le 4 (zlen (hs_bytes meta))).
  cbn [mh_crc mh_magic mh_version mh_IsValid]. rewrite !of_le8, (of_le4 crc), (of_le4 (zlen (hs_bytes meta))) by assumption.
  rewrite Z.eqb_refl. unfold sizeof_MetadataHeader, sizeof_MetadataContent, mh_IsValid.
  cbn [mh_magic mh_version]. rewrite (of_le4 kMetadataMagic), (of_le4 kFormatVersion) by done. cbn [negb andb Z.eqb Pos.eqb].
  set (lh := zlen (hs_bytes meta)) in *. set (lc := zlen (cs_bytes meta)) in *.
  rewrite (proj2 (Z.ltb_ge (52 + lh + lc + _) (16 + 24))) by lia. rewrite (proj2 (Z.ltb_ge _ (40 + 4))) by lia.
  set (pre1 := le 4 kMetadataMagic ++ le 4 kFormatVersion ++ le 4 crc ++ le 4 0 ++ le 8 (wm_first_index meta) ++
    le 8 (wm_snapshot_index meta) ++ le 8 (wm_snapshot_term meta) ++ le 4 lh).
  set (post1 := le 4 lc ++ cs_bytes meta ++ le 4 (zlen (book_bytes meta)) ++ book_bytes meta).
  assert (E1 : data = pre1 ++ hs_bytes meta ++ post1) by reflexivity.
  assert (Hs : read_message (40 + 4) lh data HardStateParseError = Ok (wm_hard_state meta)).
  { rewrite E1. apply read_message_at; [reflexivity|done|exact Hh]. }
  rewrite Hs. cbn [rbind]. rewrite (proj2 (Z.ltb_ge _ (40 + 4 + lh + 4))) by lia.
  assert (E2 : sub (40 + 4 + lh) 4 data = le 4 lc).
  { rewrite E1, app_assoc. apply sub_middle; [rewrite length_app; fold lh|done]. 
    change (length pre1) with 44%nat. unfold lh. lia. }
  rewrite E2, of_le4 by done.
  assert (E3 : data = (pre1 ++ hs_bytes meta ++ le 4 lc) ++ cs_bytes meta ++ le 4 (zlen (book_bytes meta)) ++ book_bytes meta).
  { rewrite E1. unfold post1. by rewrite <- !app_assoc. }
  assert (Hcs : read_message (40 + 4 + lh + 4) lc data ConfStateParseError = Ok (wm_conf_state meta)).
  { rewrite E3. apply read_message_at; [|done|exact Hc]. rewrite !length_app, le_length.
    change (length pre1) with 44%nat. unfold lh. lia. }
  rewrite Hcs. cbn [rbind].
  assert (Hbk : read_book (40 + 4 + lh + 4 + lc) data = Ok (wm_peer_addresses meta)).
  { rewrite E3, app_assoc. apply read_book_at.
    - rewrite !length_app, le_length. change (length pre1) with 44%nat. unfold lh, lc. lia.
    - unfold book_bytes. destruct (bool_decide _); [cbn; unfold kTraversalLimit; lia|done].
    - unfold book_bytes. destruct (bool_decide_reflect (wm_peer_addresses meta = [])); [by left|right].
      split; [apply flat_nonempty|by apply fromBytes_toBytes]. }
  rewrite Hbk. done.
Qed.

(** ** The store *)

(** Everything but the file and its temporary is as before. *)
Definition others_kept (d d' : Disk) : Prop :=
  dir_exists d' = dir_exists d /\
  forall name, name <> kMetadataFile -> name <> kMetadataTmpFile -> files d' !! name = files d !! name.

(** The steps before the rename only touch the temporary file. *)
Definition staged (d d' : Disk) : Prop := others_kept d d' /\ files d' !! kMetadataFile = files d !! kMetadataFile.

Lemma staged_same d d1 d2 : staged d d1 -> same_files d1 d2 -> staged d d2.
Proof.
  intros [[Hd Ho] Hm] [Ef Ed]. unfold staged, others_kept. rewrite Ef, Ed. done.
Qed.

Lemma staged_put d d1 x : staged d d1 -> staged d (put_file kMetadataTmpFile x d1).
Proof.
  intros [[Hd Ho] Hm]. split; [split; [done|]|].
  - intros name N1 N2. cbn. rewrite lookup_insert_ne by congruence. by apply Ho.
  - cbn. by rewrite lookup_insert_ne by done.
Qed.

Lemma staged_delete d d1 : staged d d1 -> staged d (d1 <| files := delete kMetadataTmpFile (files d1) |>).
Proof.
  intros [[Hd Ho] Hm]. split; [split; [done|]|].
  - intros name N1 N2. cbn. rewrite lookup_delete_ne by congruence. by apply Ho.
  - cbn. by rewrite lookup_delete_ne by done.
Qed.

Lemma wp_unlink_tmp Q d d1 : staged d d1 -> (forall s d2, staged d d2 -> Q s d2) -> wp (sys_unlink kMetadataTmpFile) Q d1.
Proof.
  intros Hs HQ. apply wp_call; intros; apply HQ.
  - apply staged_delete. by eapply staged_same.
  - by eapply staged_same.
Qed.

Definition write_post (data : list Z) (d : Disk) (r : Result unit) (d' : Disk) : Prop :=
  others_kept d d' /\
  match r with
  | Ok _ => files d' !! kMetadataFile = Some data
  | Err e => files d' !! kMetadataFile = files d !! kMetadataFile /\ io_error e
  end.

Lemma staged_error data d d' msg : staged d d' -> io_fault -> write_post data d (Err (EStorageOther msg)) d'.
Proof. intros [Ho Hm] Hf. split; [done|]. split; [done|]. by apply io_error_intro. Qed.

(** The cleanup of the error paths. *)
Lemma wp_cleanup data d d1 msg : staged d d1 -> io_fault ->
  wp (quietly sys_close ;;; quietly (sys_unlink kMetadataTmpFile) ;;; rfail (EStorageOther msg)) (write_post data d) d1.
Proof.
  intros Hs Hf. wp_step. apply wp_quietly, wp_inert. intros _ d2 S2 _. wp_step.
  apply wp_quietly, (wp_unlink_tmp _ d); [by eapply staged_same|]. intros _ d3 S3. wp_step. by apply staged_error.
Qed.

Lemma AtomicWrite_spec data d : dir_exists d = true -> wp (AtomicWrite data) (write_post data d) d.
Proof.
  intros Hdir. unfold AtomicWrite. wp_step. apply wp_or_fail. assert (S0 : staged d d) by done.
  apply wp_call; [intros d1 S1 _|intros d1 [] S1 Hn Hf; try done; (apply staged_error; [by eapply staged_same|];
    apply Hf; destruct S1; congruence)].
  pose proof (staged_put d d1 [] (staged_same _ _ _ S0 S1)) as S2. set (d2 := put_file _ _ d1) in *.
  wp_step. apply wp_write.
  2:{ intros d3 n S3 Hn Hf. cbn [is_done andb]. rewrite (proj2 (Z.eqb_neq _ _)) by lia. cbn [negb].
      apply wp_cleanup; [|done]. apply staged_put. by eapply staged_same. }
  2:{ intros d3 [] S3 Hn Hf; try done; apply wp_cleanup; try done; by eapply staged_same. }
  intros d3 S3. cbn [is_done andb]. rewrite Z.eqb_refl. cbn [negb].
  assert (Ec : content kMetadataTmpFile d2 = []) by (unfold content, d2; cbn; by rewrite lookup_insert_eq).
  rewrite Ec. replace (splice 0 data []) with data by (unfold splice; cbn; by rewrite drop_nil, app_nil_r).
  pose proof (staged_put d d3 data (staged_same _ _ _ S2 S3)) as S4. set (d4 := put_file _ _ d3) in *.
  assert (Et : files d4 !! kMetadataTmpFile = Some data) by (cbn; by rewrite lookup_insert_eq).
  wp_step. apply wp_inert. intros s d5 S5 Hf5. assert (Sd5 := staged_same _ _ _ S4 S5).
  destruct s; cbn [is_done negb]; [|apply wp_cleanup; [done|by apply Hf5]..].
  wp_step. apply wp_quietly, wp_inert. intros _ d6 S6 _. wp_step. assert (Sd6 := staged_same _ _ _ Sd5 S6).
  assert (Et6 : files d6 !! kMetadataTmpFile = Some data) by (destruct S5 as [E5 _], S6 as [E6 _]; by rewrite E6, E5).
  apply wp_call; [intros d7 S7 _|intros d7 s7 S7 Hn Hf].
  2:{ assert (Sd7 := staged_same _ _ _ Sd6 S7).
      assert (Hf7 : io_fault) by (apply Hf; eapply has_file_true; destruct S7 as [-> _]; exact Et6).
      destruct s7; [done|..]; cbn [is_done negb]; wp_step;
      (apply wp_quietly, (wp_unlink_tmp _ d); [done|]; intros _ d8 S8; wp_step; by apply staged_error). }
  cbn [is_done negb].
  assert (Sd7 := staged_same _ _ _ Sd6 S7). set (d8 := d7 <| files := _ |>).
  assert (H8 : write_post data d (Ok tt) d8).
  { destruct Sd7 as [[Hd Ho] _]. split; [split; [done|]|].
    - intros name N1 N2. unfold d8. cbn. rewrite lookup_insert_ne, lookup_delete_ne by congruence. by apply Ho.
    - unfold d8. cbn. rewrite lookup_insert_eq. f_equal. unfold content. destruct S7 as [F7 _]. by rewrite F7, Et6. }
  assert (Hend : forall d9, same_files d8 d9 -> write_post data d (Ok tt) d9).
  { intros d9 [Ef Ed]. destruct H8 as [[Hd Ho] Hm]. unfold write_post, others_kept. by rewrite Ef, Ed. }
  wp_step. apply wp_inert. intros s9 d9 S9 _. destruct s9; wp_steps; try by apply Hend.
  apply wp_quietly, wp_inert. intros _ d10 S10 _. apply wp_quietly, wp_inert. intros _ d11 S11 _.
  wp_step. apply Hend. etransitivity; [exact S9|]. by etransitivity.
Qed.

(** What [Load] may answer for [meta] in the file. *)
Definition load_post (meta : WALMetadata) (r : Result WALMetadata) : Prop :=
  match r with
  | Ok m => m = loaded meta
  | Err e => io_error e
  end.

Lemma Load_spec meta d : metadata_fits meta -> files d !! kMetadataFile = Some (Serialize meta) ->
  wp Load (fun r d' => same_files d d' /\ load_post meta r) d.
Proof.
  intros Hm Hf. assert (Hc : forall d', same_files d d' -> content kMetadataFile d' = Serialize meta).
  { intros d' [E _]. unfold content. by rewrite E, Hf. }
  unfold Load. wp_steps. unfold Exists. rewrite (has_file_true _ _ _ Hf). cbn [negb]. wp_step. apply wp_or_fail, wp_inert.
  intros s d1 S1 Hf1.
  destruct s; [|(split; [done|]; apply io_error_intro, Hf1; [done|]; eapply has_file_true; destruct S1 as [-> _]; exact Hf)..].
  wp_step. apply wp_inert. intros s d2 S2 Hf2. assert (S2' : same_files d d2) by (by etransitivity).
  assert (Hend : forall d3 d4 r, same_files d2 d3 -> same_files d3 d4 -> load_post meta r -> same_files d d4 /\ load_post meta r).
  { intros. split; [|done]. etransitivity; [exact S2'|]. by etransitivity. }
  destruct s; [|(wp_step; apply wp_quietly, wp_inert; intros _ d3 S3 _; wp_step; eapply Hend;
    [reflexivity|done|by apply io_error_intro, Hf2])..].
  wp_steps. rewrite (Hc d2) by done. apply wp_read; try rewrite (Hc d2) by done; rewrite ?sub_whole.
  - intros d3 S3. wp_step. apply wp_quietly, wp_inert. intros _ d4 S4 _. cbn [is_done andb]. rewrite Z.eqb_refl.
    cbn [negb]. wp_step. eapply Hend; [done|done|]. by rewrite Deserialize_Serialize.
  - intros d3 n S3 Hn Hf3. wp_step. apply wp_quietly, wp_inert. intros _ d4 S4 _. cbn [is_done andb].
    rewrite (proj2 (Z.eqb_neq _ _)); [cbn [negb]; wp_step; eapply Hend; [done|done|by apply io_error_intro]|]. rewrite sub_length; lia.
  - intros d3 s S3 Hs Hf3. wp_step. apply wp_quietly, wp_inert. intros _ d4 S4 _.
    destruct s; [done|..]; cbn [is_done andb negb]; wp_step; (eapply Hend; [done|done|by apply io_error_intro]).
Qed.

(** The metadata file round trips: what [Deserialize] reads from the bytes
    of [Serialize] is the metadata, with an empty message for one that is
    missing; so hard state, configuration, peer addresses and log bounds come
    back as they were saved. *)
Theorem metadata_roundtrip meta : metadata_fits meta -> Deserialize (Serialize meta) = Ok (loaded meta).
Proof. apply Deserialize_Serialize. Qed.

(** C22: Saving metadata is atomic whatever the system calls answer: if [Save]
    reports success the next [Load] gives the new metadata, if it reports a
    failure the next [Load] gives the old metadata; either fails only because a
    system call did, and no other file changes. *)
Theorem metadata_save_atomic old new d : metadata_fits old -> metadata_fits new -> dir_exists d = true ->
  files d !! kMetadataFile = Some (Serialize old) ->
  wp (let! saved := Save new in let! r := Load in ret (saved, r))
    (fun '(saved, r) d' => others_kept d d' /\ (forall e, saved = Err e -> io_error e) /\
       match r with
       | Ok meta => meta = loaded (match saved with Ok _ => new | Err _ => old end)
       | Err e => io_error e
       end) d.
Proof.
  intros Ho Hn Hd Hf. wp_step. eapply wp_mono; [by apply AtomicWrite_spec|]. intros saved d1 [Hk Hs].
  set (meta := match saved with Ok _ => new | Err _ => old end).
  assert (Hm : metadata_fits meta) by (by destruct saved).
  assert (Hf1 : files d1 !! kMetadataFile = Some (Serialize meta)).
  { unfold meta. destruct saved; [done|]. destruct Hs as [-> _]. done. }
  wp_step. eapply wp_mono; [by apply Load_spec|]. intros r d2 [[Ef Ed] Hr]. wp_step. split; [|split; [|done]].
  - destruct Hk as [Hd' Hk]. unfold others_kept. by rewrite Ef, Ed.
  - intros e ->. by destruct Hs.
Qed.
End Metadata.

(** ** A serialisation for the witnesses *)

#[export] Instance Enc_PeerAddress : Enc PeerAddress.
Proof. refine (Enc_via (fun p => (pa_id p, pa_addr p)) (fun p => mkPeerAddress p.1 p.2) _). by intros []. Defined.

#[export] Instance plain_capnp : Capnp := {|
  capnp_Entry := Enc_Serializable Enc_Entry;
  capnp_HardState := Enc_Serializable Enc_HardState;
  capnp_ConfState := Enc_Serializable Enc_ConfState;
  capnp_Snapshot := Enc_Serializable Enc_Snapshot;
  capnp_PeerAddressBook := Enc_Serializable Enc_list
|}.

Definition example_metadata (term : Z) : WALMetadata :=
  mkWALMetadata (Some (mkHardState term 2 7)) None [mkPeerAddress 1 "a:1"; mkPeerAddress 2 "b:2"] 4 3 1.

Lemma example_metadata_fits term : term = 2 \/ term = 3 -> metadata_fits (example_metadata term).
Proof.
  intros Ht. constructor; cbn; try (unfold is_u64, two64; lia).
  - intros hs [= <-]. destruct Ht as [-> | ->]; vm_compute; congruence.
  - done.
  - vm_compute. congruence.
Qed.

Lemma metadata_roundtrip_witness :
  Deserialize (Serialize (example_metadata 2)) = Ok (loaded (example_metadata 2)).
Proof. exact (metadata_roundtrip (example_metadata 2) (example_metadata_fits 2 (or_introl eq_refl))). Defined.

(** The second call, the write of the temporary file, is short. *)
Definition short_write_io : Io := faulty_io 1 (IoShort 5) ltac:(done).

Lemma metadata_save_atomic_witness :
  let d := mkDisk true {[kMetadataFile := Serialize (example_metadata 2)]} 0 in
  exists saved r d', (let! saved := Save (IO := short_write_io) (example_metadata 3) in
    let! r := Load (IO := short_write_io) in ret (saved, r)) d = Ret ((saved, r), d') /\
    r = Ok (loaded (example_metadata 2)).
Proof.
  intros d. pose proof (metadata_save_atomic (IO := short_write_io) (example_metadata 2) (example_metadata 3) d
    (example_metadata_fits 2 (or_introl eq_refl)) (example_metadata_fits 3 (or_intror eq_refl)) eq_refl eq_refl) as Hs.
  apply wp_Ret in Hs as ([saved r] & d' & E & _ & _ & Hr). exists saved, r, d'. split; [exact E|].
  assert (Ev : fst <$> (match (let! saved := Save (IO := short_write_io) (example_metadata 3) in
    let! r := Load (IO := short_write_io) in ret (saved, r)) d with Ret p => Some p | Abort _ => None end) =
    Some (Err (EStorageOther "failed to write temp metadata: {}"), Ok (loaded (example_metadata 2)))) by (vm_compute; reflexivity).
  rewrite E in Ev. injection Ev as _ ->. reflexivity.
Defined.
