(* ===== verification/Segment.v ===== *)
(** * Segment files

    Model of [lib/raftor/wal/segment.cc] and [include/raftpp/raftor/wal/
    wal_config.h]: the two I/O backends and their selection, one segment file
    with its operations, and the names of segment files. *)

From S2P Require Import Prelude Types Bytes Record Disk.

(** ** I/O backends *)

Inductive WALIoBackend := BackendAuto | BackendPosix | BackendIoUring.

Record WALConfig := mkWALConfig {
  wc_io_backend : WALIoBackend;
  wc_uring_queue_depth : Z;
  wc_segment_size : Z;
  wc_write_buffer_size : Z;
  wc_sync_on_write : bool;
  wc_preallocate : bool
}.

Definition default_wal_config : WALConfig := mkWALConfig BackendAuto 256 67108864 4194304 true true.

(** The platform and its io_uring: whether a queue of some depth can be set up,
    and which of read, write and fsync the probe reports, if there is one. *)
Class Platform := {
  is_linux : bool;
  has_liburing : bool;
  io_uring_queue_init : Z -> bool;
  io_uring_get_probe_ring : option (bool * bool * bool)
}.

Inductive SegmentIo := PosixSegmentIo | IoUringSegmentIo.

Section SegmentIo.
Context {IO : Io} {PF : Platform}.

Definition posix_PWrite (name : string) (offset : Z) (data : list Z) : M Disk (Result unit) :=
  let! (s, written) := sys_write name offset data in
  if negb (is_done s) then rfail (EStorageOther "pwrite failed: {}")
  else if negb (written =? zlen data) then rfail (EStorageOther "short write: expected {}, got {}")
  else rok tt.

Definition posix_PRead (name : string) (offset length : Z) : M Disk (Result (list Z)) :=
  let! (s, data) := sys_read name offset length in
  if negb (is_done s) then rfail (EStorageOther "pread failed: {}")
  else if negb (zlen data =? length) then rfail (EStorageOther "short read: expected {}, got {}")
  else rok data.

Definition posix_Sync : M Disk (Result unit) := or_fail sys_sync "sync failed: {}".

(** [do rc = call; while (rc == -EINTR)]. *)
Fixpoint retry (fuel : nat) (m : M Disk io_status) : M Disk io_status :=
  match fuel with
  | O => abort NoFuel
  | S n =>
      let! s := m in
      match s with
      | Interrupted => retry n m
      | _ => ret s
      end
  end.

(** The calls of [liburing] without an effect on the files. *)
Definition uring_call : M Disk io_status := call always (fun d => d).

(** [SubmitAndWaitLocked] up to the completion. *)
Definition uring_submit_and_wait : M Disk (Result unit) :=
  try! _ := or_fail (retry io_patience uring_call) "io_uring_submit failed: {}" in
  or_fail (retry io_patience uring_call) "io_uring_wait_cqe failed: {}".

Definition uring_PWrite (name : string) (offset : Z) (data : list Z) : M Disk (Result unit) :=
  try! _ := or_fail uring_call "io_uring_get_sqe failed for write" in
  try! _ := uring_submit_and_wait in
  let! (s, res) := sys_write name offset data in
  if negb (is_done s) then rfail (EStorageOther "io_uring {} failed: {}")
  else if negb (res =? zlen data) then rfail (EStorageOther "short {}: expected {}, got {}")
  else rok tt.

Definition uring_PRead (name : string) (offset length : Z) : M Disk (Result (list Z)) :=
  try! _ := or_fail uring_call "io_uring_get_sqe failed for read" in
  try! _ := uring_submit_and_wait in
  let! (s, data) := sys_read name offset length in
  if negb (is_done s) then rfail (EStorageOther "io_uring {} failed: {}")
  else if negb (zlen data =? length) then rfail (EStorageOther "short {}: expected {}, got {}")
  else rok data.

Definition uring_Sync : M Disk (Result unit) :=
  try! _ := or_fail uring_call "io_uring_get_sqe failed for fsync" in
  try! _ := uring_submit_and_wait in
  or_fail sys_sync "io_uring {} failed: {}".

Definition PWrite (io : SegmentIo) : string -> Z -> list Z -> M Disk (Result unit) :=
  match io with PosixSegmentIo => posix_PWrite | IoUringSegmentIo => uring_PWrite end.
Definition PRead (io : SegmentIo) : string -> Z -> Z -> M Disk (Result (list Z)) :=
  match io with PosixSegmentIo => posix_PRead | IoUringSegmentIo => uring_PRead end.
Definition io_Sync (io : SegmentIo) : M Disk (Result unit) :=
  match io with PosixSegmentIo => posix_Sync | IoUringSegmentIo => uring_Sync end.

Definition IoUringEngine_Create (queue_depth : Z) : Result unit :=
  if queue_depth =? 0 then Err (EStorage IoUringInitFailed)
  else if negb (io_uring_queue_init queue_depth) then Err (EStorage IoUringInitFailed)
  else match io_uring_get_probe_ring with
       | None => Err (EStorage IoUringProbeMissingOp)
       | Some (has_read, has_write, has_fsync) =>
           if negb has_read || negb has_write || negb has_fsync then Err (EStorage IoUringProbeMissingOp) else Ok tt
       end.

Definition BuildIoUringFallbackNote (err : RaftError) : string :=
  if is_storage err IoUringNotLinux then "io_uring not supported on this platform; falling back to posix"
  else if is_storage err IoUringNotBuilt then "io_uring support not built; falling back to posix"
  else if is_storage err IoUringInitFailed then "io_uring init failed; falling back to posix"
  else if is_storage err IoUringProbeMissingOp then "io_uring missing required operations; falling back to posix"
  else "io_uring unavailable ({}); falling back to posix".

Record SegmentIoBackendSelection := mkSelection {
  sel_io_factory : SegmentIo;
  sel_effective_backend : WALIoBackend;
  sel_note : string
}.

Definition SelectSegmentIoBackend (config : WALConfig) : Result SegmentIoBackendSelection :=
  let posix note := mkSelection PosixSegmentIo BackendPosix note in
  let uring := mkSelection IoUringSegmentIo BackendIoUring "" in
  match wc_io_backend config with
  | BackendPosix => Ok (posix ""%string)
  | backend =>
      let engine :=
        if is_linux && has_liburing then IoUringEngine_Create (wc_uring_queue_depth config)
        else Err (EStorage (if is_linux then IoUringNotBuilt else IoUringNotLinux)) in
      match engine with
      | Ok _ => Ok uring
      | Err e => match backend with
                 | BackendIoUring => Err e
                 | _ => Ok (posix (BuildIoUringFallbackNote e))
                 end
      end
  end.

(** ** Segments *)

(** [fd_ >= 0] is [sg_open]. *)
Record Segment := mkSegment {
  sg_open : bool;
  sg_segment_id_ : Z;
  sg_first_index_ : Z;
  sg_write_offset_ : Z;
  sg_file_size_ : Z;
  sg_path_ : string;
  sg_io_ : SegmentIo
}.
#[export] Instance Segment_eta : Eta Segment := fun s =>
  mkSegment (sg_open s) (sg_segment_id_ s) (sg_first_index_ s) (sg_write_offset_ s) (sg_file_size_ s) (sg_path_ s)
    (sg_io_ s).

Definition Create (path : string) (segment_id first_index : Z) (preallocate : bool) (preallocate_size : Z)
    (io : SegmentIo) : M Disk (Result Segment) :=
  try! _ := or_fail (sys_open_new path) "failed to create segment {}: {}" in
  (if preallocate && (0 <? preallocate_size) && is_linux then quietly (sys_fallocate path preallocate_size) else ret tt) ;;;
  let header := sh_Serialize (new_segment_header segment_id first_index) in
  let abandon message := (quietly sys_close ;;; quietly (sys_unlink path) ;;; rfail (EStorageOther message)) in
  let! (s, written) := sys_write path 0 header in
  if negb (is_done s && (written =? zlen header)) then abandon "failed to write segment header: {}"%string
  else
    let! s := sys_stat in
    if negb (is_done s) then abandon "failed to stat segment: {}"%string
    else
      let! size := gets (fun d => zlen (content path d)) in
      rok (mkSegment true segment_id first_index sizeof_SegmentHeader size path io).

Definition Open (path : string) (io : SegmentIo) : M Disk (Result Segment) :=
  try! _ := or_fail (sys_open path) "failed to open segment {}: {}" in
  let! (s, buf) := sys_read path 0 sizeof_SegmentHeader in
  if negb (is_done s && (zlen buf =? sizeof_SegmentHeader)) then
    quietly sys_close ;;;
    rfail (EStorageOther "failed to read segment header: {}")
  else
    let header := sh_Deserialize buf in
    if negb (sh_IsValid header) then
      quietly sys_close ;;;
      rfail (EStorage InvalidSegmentHeader)
    else
      let! s := sys_stat in
      if negb (is_done s) then
        quietly sys_close ;;;
        rfail (EStorageOther "failed to stat segment: {}")
      else
        let! size := gets (fun d => zlen (content path d)) in
        rok (mkSegment true (sh_segment_id header) (sh_first_index header) size size path io).

(** A segment and the directory. *)
Record SegCtx := mkSegCtx {
  sc_disk : Disk;
  sc_seg : Segment
}.
#[export] Instance SegCtx_eta : Eta SegCtx := fun c => mkSegCtx (sc_disk c) (sc_seg c).

Definition on_disk {A} (m : M Disk A) : M SegCtx A := zoom sc_disk (fun d c => c <| sc_disk := d |>) m.
Definition on_seg {A} (m : M Segment A) : M SegCtx A := zoom sc_seg (fun s c => c <| sc_seg := s |>) m.

Definition Append (data : list Z) : M SegCtx (Result unit) :=
  let! s := gets sc_seg in
  if negb (sg_open s) then rfail (EStorage SegmentNotOpen)
  else
    try! _ := on_disk (PWrite (sg_io_ s) (sg_path_ s) (sg_write_offset_ s) data) in
    on_seg (set! sg_write_offset_ := (sg_write_offset_ s +! zlen data)) ;;;
    let! s := gets sc_seg in
    (if sg_file_size_ s <? sg_write_offset_ s then on_seg (set! sg_file_size_ := sg_write_offset_ s) else ret tt) ;;;
    rok tt.

Definition Read (offset length : Z) : M SegCtx (Result (list Z)) :=
  let! s := gets sc_seg in
  if negb (sg_open s) then rfail (EStorage SegmentNotOpen)
  else on_disk (PRead (sg_io_ s) (sg_path_ s) offset length).

Definition Sync : M SegCtx (Result unit) :=
  let! s := gets sc_seg in
  if negb (sg_open s) then rfail (EStorage SegmentNotOpen)
  else on_disk (io_Sync (sg_io_ s)).

Definition Truncate (offset : Z) : M SegCtx (Result unit) :=
  let! s := gets sc_seg in
  if negb (sg_open s) then rfail (EStorage SegmentNotOpen)
  else
    try! _ := on_disk (or_fail (sys_truncate (sg_path_ s) offset) "failed to truncate segment: {}") in
    on_seg (set! sg_write_offset_ := offset) ;;;
    on_seg (set! sg_file_size_ := offset) ;;;
    rok tt.

Definition Close : M SegCtx (Result unit) :=
  let! s := gets sc_seg in
  if sg_open s then
    try! _ := on_disk (or_fail sys_close "failed to close segment: {}") in
    on_seg (set! sg_open := false) ;;;
    rok tt
  else rok tt.

Definition IsFull (threshold : Z) (s : Segment) : bool := threshold <=? sg_write_offset_ s.
End SegmentIo.

(** ** File names *)

Definition digit (n : Z) : ascii := ascii_of_N (Z.to_N (48 + n)).

(** The decimal digits of a [uint64_t], of which there are at most 20. *)
Fixpoint decimal_loop (fuel : nat) (n : Z) (acc : string) : string :=
  match fuel with
  | O => acc
  | S fuel =>
      let acc := String (digit (n mod 10)) acc in
      if n / 10 =? 0 then acc else decimal_loop fuel (n / 10) acc
  end.
Definition decimal (n : Z) : string := decimal_loop 20 n "".

(** [{:06d}] *)
Fixpoint pad_zeros (n : nat) (s : string) : string :=
  match n with
  | O => s
  | S n => String "0" (pad_zeros n s)
  end.
Definition format_06d (n : Z) : string := let s := decimal n in pad_zeros (6 - String.length s) s.

Definition MakeSegmentFilename (segment_id : Z) : string :=
  ("segment-" ++ format_06d segment_id ++ ".wal")%string.

Definition is_digit (c : ascii) : bool := let n := N_of_ascii c in (48 <=? n)%N && (n <=? 57)%N.

Fixpoint all_digits (s : string) : bool :=
  match s with
  | EmptyString => true
  | String c s => is_digit c && all_digits s
  end.

Fixpoint stoull (acc : Z) (s : string) : Z :=
  match s with
  | EmptyString => acc
  | String c s => stoull (10 * acc + (Z.of_N (N_of_ascii c) - 48)) s
  end.

(** The pattern [segment-(\d{6})\.wal]. *)
Definition ParseSegmentId (filename : string) : option Z :=
  let digits := String.substring 8 6 filename in
  if (String.length filename =? 18)%nat && String.prefix "segment-" filename && all_digits digits &&
     String.eqb (String.substring 14 4 filename) ".wal"
  then Some (stoull 0 digits) else None.

(** ** Lemmas on file names *)

Definition six (n : Z) : string :=
  String (digit (n / 100000 mod 10)) (String (digit (n / 10000 mod 10)) (String (digit (n / 1000 mod 10))
    (String (digit (n / 100 mod 10)) (String (digit (n / 10 mod 10)) (String (digit (n mod 10)) EmptyString))))).

Lemma digit_value d : 0 <= d < 10 -> Z.of_N (N_of_ascii (digit d)) = 48 + d.
Proof. intros Hd. unfold digit. rewrite N_ascii_embedding by lia. lia. Qed.

Lemma digit_is_digit d : 0 <= d < 10 -> is_digit (digit d) = true.
Proof. intros Hd. unfold is_digit. pose proof (digit_value d Hd). apply andb_true_iff. split; apply N.leb_le; lia. Qed.

Lemma decimal_step fuel n acc :
  decimal_loop (S fuel) n acc =
  if n / 10 =? 0 then String (digit (n mod 10)) acc else decimal_loop fuel (n / 10) (String (digit (n mod 10)) acc).
Proof. reflexivity. Qed.

Lemma div10_div n k : 0 < k -> n / k / 10 = n / (10 * k).
Proof. intros. rewrite Z.div_div by lia. f_equal. lia. Qed.

Lemma div_zero n k : 0 <= n -> 0 < k -> n / k = 0 <-> n < k.
Proof. intros. rewrite Z.div_small_iff by lia. lia. Qed.

Ltac high_digits Hz :=
  try rewrite (Hz 10) by lia; try rewrite (Hz 100) by lia; try rewrite (Hz 1000) by lia;
  try rewrite (Hz 10000) by lia; try rewrite (Hz 100000) by lia; reflexivity.

Lemma format_06d_six n : 0 <= n < 1000000 -> format_06d n = six n.
Proof.
  intros Hn. unfold format_06d, decimal, six.
  assert (Hz : forall k, 0 < k -> n < k -> n / k mod 10 = 0) by (intros; by rewrite Z.div_small by lia).
  rewrite decimal_step. destruct (Z.eqb_spec (n / 10) 0) as [E|_].
  { apply div_zero in E; [|lia..]. high_digits Hz. }
  rewrite decimal_step, div10_div by lia. destruct (Z.eqb_spec (n / (10 * 10)) 0) as [E|_].
  { apply div_zero in E; [|lia..]. high_digits Hz. }
  rewrite decimal_step, div10_div by lia. destruct (Z.eqb_spec (n / (10 * (10 * 10))) 0) as [E|_].
  { apply div_zero in E; [|lia..]. high_digits Hz. }
  rewrite decimal_step, div10_div by lia. destruct (Z.eqb_spec (n / (10 * (10 * (10 * 10)))) 0) as [E|_].
  { apply div_zero in E; [|lia..]. high_digits Hz. }
  rewrite decimal_step, div10_div by lia. destruct (Z.eqb_spec (n / (10 * (10 * (10 * (10 * 10))))) 0) as [E|_].
  { apply div_zero in E; [|lia..]. high_digits Hz. }
  rewrite decimal_step, div10_div by lia. destruct (Z.eqb_spec (n / (10 * (10 * (10 * (10 * (10 * 10)))))) 0) as [E|E].
  { apply div_zero in E; [|lia..]. high_digits Hz. }
  rewrite div_zero in E by lia. lia.
Qed.

Lemma stoull_six n : 0 <= n < 1000000 -> stoull 0 (six n) = n.
Proof.
  intros Hn. unfold six. cbn [stoull]. rewrite !digit_value by (apply Z.mod_pos_bound; lia).
  Z.div_mod_to_equations. lia.
Qed.

Lemma all_digits_six n : all_digits (six n) = true.
Proof. unfold six. cbn [all_digits]. rewrite !digit_is_digit by (apply Z.mod_pos_bound; lia). reflexivity. Qed.

Lemma decimal_loop_length fuel n acc : (String.length acc < String.length (decimal_loop (S fuel) n acc))%nat.
Proof.
  revert n acc. induction fuel as [|fuel IH]; intros n acc.
  - cbn. destruct (_ =? _); cbn; lia.
  - rewrite decimal_step. destruct (_ =? _); [cbn; lia|]. etransitivity; [|apply IH]. cbn. lia.
Qed.

Lemma decimal_long n : 1000000 <= n -> (6 < String.length (decimal n))%nat.
Proof.
  intros Hn. unfold decimal.
  rewrite decimal_step, (proj2 (Z.eqb_neq _ _)) by (rewrite div_zero by lia; lia).
  do 5 (rewrite decimal_step, div10_div by lia; rewrite (proj2 (Z.eqb_neq _ _)) by (rewrite div_zero by lia; lia)).
  exact (decimal_loop_length 13 _ (String _ (String _ (String _ (String _ (String _ (String _ EmptyString))))))).
Qed.

Lemma parse_filename id : 0 <= id ->
  ParseSegmentId (MakeSegmentFilename id) = if id <? 1000000 then Some id else None.
Proof.
  intros Hid. unfold ParseSegmentId, MakeSegmentFilename. destruct (Z.ltb_spec id 1000000).
  - rewrite format_06d_six by lia.
    change (String.substring 8 6 ("segment-" ++ six id ++ ".wal")) with (six id).
    change (String.length ("segment-" ++ six id ++ ".wal") =? 18)%nat with true.
    change (String.prefix "segment-" ("segment-" ++ six id ++ ".wal")) with true.
    change (String.eqb (String.substring 14 4 ("segment-" ++ six id ++ ".wal")) ".wal") with true.
    rewrite all_digits_six, stoull_six by lia. reflexivity.
  - assert (Hl : (6 < String.length (format_06d id))%nat).
    { unfold format_06d. pose proof (decimal_long id). replace (6 - String.length (decimal id))%nat with 0%nat by lia.
      cbn [pad_zeros]. auto. }
    rewrite !string_app_length. cbn [String.length].
    rewrite (proj2 (Nat.eqb_neq _ 18)) by lia. reflexivity.
Qed.

(** The name of a segment file gives back the segment's number, as recovery
    needs, for the first million segments; from segment 1000000 on the name has
    more digits than the pattern of [ParseSegmentId] accepts and the file is not
    recognised. *)
Theorem segment_filename_roundtrip id : 0 <= id ->
  ParseSegmentId (MakeSegmentFilename id) = if id <? 1000000 then Some id else None.
Proof. apply parse_filename. Qed.

Lemma segment_filename_roundtrip_witness :
  ParseSegmentId (MakeSegmentFilename 999999) = Some 999999 /\ ParseSegmentId (MakeSegmentFilename 1000000) = None.
Proof.
  split; [exact (segment_filename_roundtrip 999999 ltac:(lia))|exact (segment_filename_roundtrip 1000000 ltac:(lia))].
Defined.
