(* ===== verification/SegmentProps.v ===== *)
(** * Properties of segment files

    What the operations of a segment do to its file, for every behaviour of the
    operating system: on success the file is as it should be, on failure the
    bytes below the write offset are untouched. *)

From S2P Require Import Prelude Types Bytes Record Disk Segment.

Section SegmentProps.
Context {IO : Io} {PF : Platform}.

(** ** Interrupted calls *)

Lemma uring_call_run d : uring_call d = Ret (status (answer (calls d)), d <| calls := S (calls d) |>).
Proof. unfold uring_call, call, syscall. cbn. by destruct (status (answer (calls d))). Qed.

Lemma retry_run n k d : (k < n)%nat -> answer (calls d + k) <> IoIntr ->
  wp (retry n uring_call) (fun s d' => same_files d d' /\ s <> Interrupted /\ (s <> Done -> io_fault)) d.
Proof.
  revert k d. induction n as [|n IH]; intros k d Hk Ha; [lia|]. cbn [retry]. unfold wp, bind.
  rewrite uring_call_run. destruct (status (answer (calls d))) eqn:E; [done| |].
  2: { split; [done|]. split; [done|]. intros _. exists (calls d). intros E'. by rewrite E' in E. }
  destruct k as [|k].
  - exfalso. rewrite Nat.add_0_r in Ha. destruct (answer (calls d)); done.
  - set (d1 := d <| calls := S (calls d) |>).
    change (wp (retry n uring_call) (fun s d' => same_files d d' /\ s <> Interrupted /\ (s <> Done -> io_fault)) d1).
    eapply wp_mono; [apply (IH k); [lia|]|by intros s d' []]. unfold d1. cbn.
    by rewrite <- plus_n_Sm in Ha.
Qed.

(** A row of interruptions ends. *)
Lemma retry_spec d :
  wp (retry io_patience uring_call) (fun s d' => same_files d d' /\ s <> Interrupted /\ (s <> Done -> io_fault)) d.
Proof. destruct (io_progress (calls d)) as (k & Hk & Ha). by eapply retry_run. Qed.

(** A call that only succeeds or fails. *)
Definition inert {A} (m : M Disk (Result A)) (Q : A -> Prop) : Prop := forall d,
  wp m (fun r d' => same_files d d' /\ match r with Ok a => Q a | Err e => io_error e end) d.

Lemma inert_or_fail m msg : (forall d, wp m (fun s d' => same_files d d' /\ (s <> Done -> io_fault)) d) ->
  inert (or_fail m msg) (fun _ => True).
Proof.
  intros Hm d. apply wp_or_fail. eapply wp_mono; [apply Hm|]. intros [] d' [Hs Hf]; (split; [done|]); [done|by apply io_error_intro, Hf..].
Qed.

Lemma inert_bind {A B} (m : M Disk (Result A)) (k : A -> M Disk (Result B)) P Q :
  inert m P -> (forall a, P a -> inert (k a) Q) -> inert (mrbind m k) Q.
Proof.
  intros Hm Hk d. wp_step. eapply wp_mono; [apply Hm|]. intros [a|e] d' [Hs Ha]; [|done].
  eapply wp_mono; [by apply Hk|]. intros r d2 [Hs2 Hr]. split; [by etransitivity|done].
Qed.

Lemma inert_call msg : inert (or_fail (call always (fun d => d)) msg) (fun _ => True).
Proof. apply inert_or_fail. intros d. apply wp_inert. intros s d1 Hs Hf. split; [done|]. intros Hn. by apply Hf. Qed.

Lemma inert_uring : inert uring_submit_and_wait (fun _ => True).
Proof.
  assert (Hr : forall msg, inert (or_fail (retry io_patience uring_call) msg) (fun _ => True)).
  { intros msg. apply inert_or_fail. intros d. eapply wp_mono; [apply retry_spec|]. by intros s d' (? & _ & ?). }
  eapply inert_bind; [apply Hr|]. intros _ _. apply Hr.
Qed.

Lemma inert_Sync io : inert (io_Sync io) (fun _ => True).
Proof.
  destruct io; cbn [io_Sync].
  - apply inert_call.
  - eapply inert_bind; [apply inert_call|]. intros _ _. eapply inert_bind; [apply inert_uring|]. intros _ _. apply inert_call.
Qed.

(** ** Reads and writes *)

(** The file [name] after a write at [off]; nothing else changes. *)
Definition wrote (name : string) (off : Z) (data : list Z) (d d' : Disk) : Prop :=
  dir_exists d' = dir_exists d /\ files d' = <[name := splice off data (content name d)]> (files d).

Definition torn (name : string) (off : Z) (data : list Z) (d d' : Disk) : Prop :=
  same_files d d' \/ exists n, 0 <= n < zlen data /\ wrote name off (sub 0 n data) d d'.

Definition write_spec (name : string) (off : Z) (data : list Z) (d : Disk) (r : Result unit) (d' : Disk) : Prop :=
  match r with
  | Ok _ => wrote name off data d d'
  | Err e => io_error e /\ torn name off data d d'
  end.

Lemma wrote_put name off data d d1 : same_files d d1 ->
  wrote name off data d (put_file name (splice off data (content name d)) d1).
Proof. intros [Ef Ed]. split; cbn; [done|]. by rewrite Ef. Qed.

(** The end of both backends' writes. *)
Lemma write_end name off data msg1 msg2 d :
  wp (let! (s, n) := sys_write name off data in
      if negb (is_done s) then rfail (EStorageOther msg1)
      else if negb (n =? zlen data) then rfail (EStorageOther msg2) else rok tt) (write_spec name off data d) d.
Proof.
  wp_step. apply wp_write.
  - intros d1 Hs. cbn [is_done negb]. rewrite Z.eqb_refl. cbn [negb]. wp_step. by apply wrote_put.
  - intros d1 n Hs Hn Hf. cbn [is_done negb]. rewrite (proj2 (Z.eqb_neq _ _)) by lia. cbn [negb]. wp_step.
    split; [by apply io_error_intro|]. right. exists n. split; [done|]. by apply wrote_put.
  - intros d1 s Hs Hn Hf. destruct s; [done|..]; cbn [is_done negb]; wp_step; (split; [by apply io_error_intro|by left]).
Qed.

Lemma wrote_before name off data d d1 d' : same_files d d1 -> wrote name off data d1 d' -> wrote name off data d d'.
Proof. intros Hs [Ed Ef]. pose proof Hs as [Hf Hd]. rewrite (same_files_content _ _ _ Hs), Hf in Ef. split; congruence. Qed.

Lemma write_before name off data d d1 r d' : same_files d d1 -> write_spec name off data d1 r d' -> write_spec name off data d r d'.
Proof.
  intros Hs. unfold write_spec. destruct r as [[]|e].
  - by apply wrote_before.
  - intros [He [Ht|(n & Hn & Ht)]]; (split; [done|]).
    + left. by etransitivity.
    + right. exists n. split; [done|]. by eapply wrote_before.
Qed.

Lemma PWrite_spec io name off data d : wp (PWrite io name off data) (write_spec name off data d) d.
Proof.
  destruct io; cbn [PWrite]; [apply write_end|]. unfold uring_PWrite. wp_step.
  eapply wp_mono; [apply inert_call|]. intros [[]|e] d1 [S1 He]; [|split; [done|by left]]. wp_step.
  eapply wp_mono; [apply inert_uring|]. intros [[]|e] d2 [S2 He2]; [|split; [done|left; by etransitivity]].
  eapply wp_mono; [apply write_end|]. intros r d3. apply write_before. by etransitivity.
Qed.

Definition read_spec (name : string) (off len : Z) (d : Disk) (r : Result (list Z)) (d' : Disk) : Prop :=
  same_files d d' /\
  match r with
  | Ok data => data = sub off len (content name d) /\ zlen data = len
  | Err e => zlen (sub off len (content name d)) = len -> io_error e
  end.

Lemma read_end name off len msg1 msg2 d :
  wp (let! (s, data) := sys_read name off len in
      if negb (is_done s) then rfail (EStorageOther msg1)
      else if negb (zlen data =? len) then rfail (EStorageOther msg2) else rok data) (read_spec name off len d) d.
Proof.
  wp_step. apply wp_read.
  - intros d1 Hs. cbn [is_done negb]. destruct (Z.eqb_spec (zlen (sub off len (content name d))) len); cbn [negb]; wp_step;
      by (split; [done|]).
  - intros d1 n Hs Hn Hf. cbn [is_done negb]. rewrite (proj2 (Z.eqb_neq _ _)); [cbn [negb]; wp_step; split; [done|]; intros _; by apply io_error_intro|].
    rewrite sub_length by lia. pose proof (sub_length_le off len (content name d)). lia.
  - intros d1 s Hs Hn Hf. destruct s; [done|..]; cbn [is_done negb]; wp_step; (split; [done|intros _; by apply io_error_intro]).
Qed.

Lemma PRead_spec io name off len d : wp (PRead io name off len) (read_spec name off len d) d.
Proof.
  destruct io; cbn [PRead]; [apply read_end|]. unfold uring_PRead. wp_step.
  eapply wp_mono; [apply inert_call|]. intros [[]|e] d1 [S1 He]; [|done]. wp_step.
  eapply wp_mono; [apply inert_uring|]. intros [[]|e] d2 [S2 He2]; [|split; [by etransitivity|done]].
  assert (S3 : same_files d d2) by (by etransitivity).
  eapply wp_mono; [apply read_end|]. intros r d3 [S4 Hr]. rewrite (same_files_content _ _ _ S3) in Hr.
  split; [by etransitivity|done].
Qed.

(** ** Segments *)

Definition seg_header (s : Segment) : list Z := sh_Serialize (new_segment_header (sg_segment_id_ s) (sg_first_index_ s)).

(** The file of an open segment: its header, the bytes written to it, and what
    is behind the write offset. *)
Record seg_holds (d : Disk) (s : Segment) (body rest : list Z) : Prop := {
  sh_open : sg_open s = true;
  sh_file : files d !! sg_path_ s = Some (seg_header s ++ body ++ rest);
  sh_offset : sg_write_offset_ s = sizeof_SegmentHeader + zlen body
}.

(** Only the file [name] may change. *)
Definition only (name : string) (d d' : Disk) : Prop :=
  dir_exists d' = dir_exists d /\ forall n, n <> name -> files d' !! n = files d !! n.

(** The segment with another write offset. *)
Definition moved (s : Segment) (off : Z) (s' : Segment) : Prop :=
  s' = s <| sg_write_offset_ := off |> <| sg_file_size_ := sg_file_size_ s' |>.

Lemma only_refl name d : only name d d.
Proof. done. Qed.

Lemma same_files_only name d d' : same_files d d' -> only name d d'.
Proof. intros [Ef Ed]. split; [done|]. by rewrite Ef. Qed.

Lemma only_trans name d1 d2 d3 : only name d1 d2 -> only name d2 d3 -> only name d1 d3.
Proof. intros [E1 H1] [E2 H2]. split; [congruence|]. intros n Hn. rewrite H2, H1 by done. done. Qed.

Lemma wrote_only name off data d d' : wrote name off data d d' -> only name d d'.
Proof. intros [Ed Ef]. split; [done|]. intros n Hn. by rewrite Ef, lookup_insert_ne by congruence. Qed.

Lemma seg_holds_same d d' s body rest : same_files d d' -> seg_holds d s body rest -> seg_holds d' s body rest.
Proof. intros [Ef _] []. split; [done| |done]. by rewrite Ef. Qed.

Lemma seg_holds_only d d' s name body rest : only name d d' -> sg_path_ s <> name -> seg_holds d s body rest -> seg_holds d' s body rest.
Proof. intros [_ Ho] Hn []. split; [done| |done]. by rewrite Ho. Qed.

Lemma seg_header_length s : zlen (seg_header s) = sizeof_SegmentHeader.
Proof. reflexivity. Qed.

Lemma holds_content d s body rest : seg_holds d s body rest -> content (sg_path_ s) d = seg_header s ++ body ++ rest.
Proof. intros []. unfold content. by rewrite sh_file0. Qed.

(** A write at the write offset. *)
Lemma holds_splice s body rest data :
  splice (sizeof_SegmentHeader + zlen body) data (seg_header s ++ body ++ rest) =
  seg_header s ++ (body ++ data) ++ drop (length data) rest.
Proof.
  rewrite app_assoc, <- (seg_header_length s), <- Nat2Z.inj_add, <- length_app, splice_append. by rewrite <- !app_assoc.
Qed.

Lemma wrote_holds d d' s body rest data off sz : seg_holds d s body rest ->
  wrote (sg_path_ s) (sg_write_offset_ s) data d d' -> off = sizeof_SegmentHeader + zlen body + zlen data ->
  seg_holds d' (s <| sg_write_offset_ := off |> <| sg_file_size_ := sz |>) (body ++ data) (drop (length data) rest).
Proof.
  intros Hh [_ Ef] ->. pose proof Hh as []. split; [done| |cbn; rewrite length_app; lia].
  cbn. rewrite Ef, lookup_insert_eq. f_equal. rewrite (holds_content _ _ _ _ Hh), sh_offset0. apply holds_splice.
Qed.

Lemma torn_holds d d' s body rest data : seg_holds d s body rest ->
  torn (sg_path_ s) (sg_write_offset_ s) data d d' -> only (sg_path_ s) d d' /\ exists rest', seg_holds d' s body rest'.
Proof.
  intros Hh [Hs|(n & Hn & Hw)].
  - split; [by apply same_files_only|]. exists rest. by eapply seg_holds_same.
  - split; [by eapply wrote_only|]. exists (sub 0 n data ++ drop (length (sub 0 n data)) rest).
    pose proof Hh as []. destruct Hw as [_ Ef]. split; [done| |done].
    rewrite Ef, lookup_insert_eq. f_equal. rewrite (holds_content _ _ _ _ Hh), sh_offset0, holds_splice.
    by rewrite <- app_assoc.
Qed.

Lemma Append_spec data d s body rest : seg_holds d s body rest -> sizeof_SegmentHeader + zlen body + zlen data < two64 ->
  wp (Append data) (fun r c => only (sg_path_ s) d (sc_disk c) /\
    match r with
    | Ok _ => seg_holds (sc_disk c) (sc_seg c) (body ++ data) (drop (length data) rest) /\
              moved s (sizeof_SegmentHeader + zlen body + zlen data) (sc_seg c)
    | Err e => io_error e /\ sc_seg c = s /\ exists rest', seg_holds (sc_disk c) s body rest'
    end) (mkSegCtx d s).
Proof.
  intros Hh Hb. pose proof Hh as []. unfold Append. wp_steps. cbn [sc_seg]. rewrite sh_open0. cbn [negb].
  wp_step. unfold on_disk. wp_step. cbn [sc_disk]. eapply wp_mono; [apply PWrite_spec|]. intros [[]|e] d1 Hw; cbn [write_spec] in Hw.
  2:{ destruct Hw as [He Ht]. destruct (torn_holds _ _ _ _ _ _ Hh Ht) as [Ho Hr]. cbn. done. }
  pose proof (wrote_only _ _ _ _ _ Hw) as Ho.
  assert (Hoff : sg_write_offset_ s +! zlen data = sizeof_SegmentHeader + zlen body + zlen data).
  { rewrite sh_offset0. apply u64_id. unfold is_u64, sizeof_SegmentHeader in *. lia. }
  unfold on_seg. wp_steps. cbn -[u64]. rewrite Hoff.
  destruct (_ <? _); wp_steps; cbn -[u64]; rewrite ?Hoff; (split; [done|]); (split; [|reflexivity]);
    by eapply wrote_holds.
Qed.

Lemma Read_spec off len d s body rest : seg_holds d s body rest ->
  wp (Read off len) (fun r c => same_files d (sc_disk c) /\ sc_seg c = s /\
    match r with
    | Ok data => data = sub off len (seg_header s ++ body ++ rest) /\ zlen data = len
    | Err e => zlen (sub off len (seg_header s ++ body ++ rest)) = len -> io_error e
    end) (mkSegCtx d s).
Proof.
  intros Hh. pose proof Hh as []. unfold Read. wp_steps. cbn [sc_seg]. rewrite sh_open0. cbn [negb].
  unfold on_disk. wp_step. cbn [sc_disk]. eapply wp_mono; [apply PRead_spec|]. intros r d1 [Hs Hr]. cbn.
  rewrite (holds_content _ _ _ _ Hh) in Hr. by destruct r.
Qed.

Lemma Sync_spec d s : sg_open s = true -> wp Sync (fun r c => same_files d (sc_disk c) /\ sc_seg c = s /\
  match r with Ok _ => True | Err e => io_error e end) (mkSegCtx d s).
Proof.
  intros Ho. unfold Sync. wp_steps. cbn [sc_seg]. rewrite Ho. cbn [negb]. unfold on_disk. wp_step. cbn [sc_disk].
  eapply wp_mono; [apply inert_Sync|]. intros r d1 [Hs Hr]. cbn. by destruct r.
Qed.

Lemma Close_spec d s : sg_open s = true -> wp Close (fun r c => same_files d (sc_disk c) /\
  match r with Ok _ => sc_seg c = s <| sg_open := false |> | Err e => io_error e /\ sc_seg c = s end) (mkSegCtx d s).
Proof.
  intros Ho. unfold Close. wp_steps. cbn [sc_seg]. rewrite Ho. wp_step. unfold on_disk. wp_step. cbn [sc_disk].
  eapply wp_mono; [apply inert_call|]. intros [[]|e] d1 [Hs He]; [|done]. unfold on_seg. wp_steps. done.
Qed.

Lemma Truncate_spec d s b1 b2 rest : seg_holds d s (b1 ++ b2) rest ->
  wp (Truncate (sizeof_SegmentHeader + zlen b1)) (fun r c => only (sg_path_ s) d (sc_disk c) /\
    match r with
    | Ok _ => seg_holds (sc_disk c) (sc_seg c) b1 [] /\ moved s (sizeof_SegmentHeader + zlen b1) (sc_seg c)
    | Err e => io_error e /\ same_files d (sc_disk c) /\ sc_seg c = s
    end) (mkSegCtx d s).
Proof.
  intros Hh. pose proof Hh as []. unfold Truncate. wp_steps. cbn [sc_seg]. rewrite sh_open0. cbn [negb].
  wp_step. unfold on_disk. wp_step. cbn [sc_disk]. apply wp_or_fail. apply wp_call.
  - intros d1 Hs _. unfold on_seg. wp_steps. cbn.
    assert (Hc : content (sg_path_ s) d1 = (seg_header s ++ b1) ++ b2 ++ rest).
    { rewrite (same_files_content _ _ _ Hs), (holds_content _ _ _ _ Hh). by rewrite <- !app_assoc. }
    assert (Hr : resize (sizeof_SegmentHeader + zlen b1) (content (sg_path_ s) d1) = seg_header s ++ b1).
    { rewrite Hc, <- (seg_header_length s), <- Nat2Z.inj_add, <- length_app. apply resize_prefix. }
    rewrite Hr. split; [|split; [|reflexivity]].
    + apply (only_trans _ _ d1); [by apply same_files_only|]. split; [done|]. intros n Hn. cbn.
      by rewrite lookup_insert_ne by congruence.
    + split; [done| |cbn; lia]. cbn. rewrite lookup_insert_eq. by rewrite app_nil_r.
  - intros d1 st Hs Hst Hf. cbn.
    assert (Hff : io_fault) by (apply Hf; eapply has_file_true; destruct Hs as [-> _]; exact sh_file0).
    destruct st; [done|..]; (split; [by apply same_files_only|]); (split; [by apply io_error_intro|done]).
Qed.

(** A new segment holds nothing; space reserved for it is zero. *)
Definition created (path : string) (id first size : Z) (io : SegmentIo) (d : Disk) (r : Result Segment) (d' : Disk) : Prop :=
  only path d d' /\
  match r with
  | Ok s => files d !! path = None /\ s = mkSegment true id first sizeof_SegmentHeader (sg_file_size_ s) path io /\
            exists n, 0 <= n <= Z.max 0 (size - sizeof_SegmentHeader) /\ seg_holds d' s [] (zeros n)
  | Err e => (exists msg, e = EStorageOther msg) /\ (dir_exists d = true -> files d !! path = None -> io_fault)
  end.

(** The error paths remove the file. *)
Lemma create_abandon path id first size io d d1 msg : only path d d1 -> io_fault ->
  wp (quietly sys_close ;;; quietly (sys_unlink path) ;;; rfail (EStorageOther msg)) (created path id first size io d) d1.
Proof.
  intros Ho Hf. wp_step. apply wp_quietly, wp_inert. intros _ d2 S2 _. wp_step.
  assert (O2 : only path d d2) by (apply (only_trans _ _ d1); [done|by apply same_files_only]). apply wp_quietly, wp_call.
  - intros d3 S3 _. wp_step. split; [|split; [eauto|done]].
    apply (only_trans _ _ d2); [done|]. apply (only_trans _ _ d3); [by apply same_files_only|].
    split; [done|]. intros n Hn. cbn. by rewrite lookup_delete_ne by congruence.
  - intros d3 s S3 _ _. wp_step. split; [|split; [eauto|done]].
    apply (only_trans _ _ d2); [done|by apply same_files_only].
Qed.

Lemma only_put path d d1 x : only path d d1 -> only path d (put_file path x d1).
Proof. intros Ho. apply (only_trans _ _ d1); [done|]. split; [done|]. intros n Hn. cbn. by rewrite lookup_insert_ne by congruence. Qed.

Lemma only_same path d d1 d2 : only path d d1 -> same_files d1 d2 -> only path d d2.
Proof. intros Ho Hs. apply (only_trans _ _ d1); [done|by apply same_files_only]. Qed.

Lemma Create_spec path id first pre size io d : wp (Create path id first pre size io) (created path id first size io d) d.
Proof.
  set (header := sh_Serialize (new_segment_header id first)).
  unfold Create. wp_step. apply wp_or_fail, wp_call.
  2:{ intros d1 s S1 Hn Hf.
      assert (He : dir_exists d = true -> files d !! path = None -> io_fault).
      { intros Hd Hp. apply Hf. destruct S1 as [Ef Ed]. unfold has_file. by rewrite Ed, Hd, Ef, Hp. }
      destruct s; [done|..]; (split; [by apply same_files_only|]); (split; [eauto|done]). }
  intros d1 S1 Hg. apply andb_true_iff in Hg as [_ Hg]. unfold has_file in Hg. apply negb_true_iff, bool_decide_eq_false in Hg.
  assert (Hnew : files d !! path = None).
  { destruct S1 as [Ef _]. rewrite <- Ef. by apply eq_None_not_Some. }
  set (d2 := put_file path [] d1). assert (O2 : only path d d2) by (by apply only_put, same_files_only).
  wp_step.
  eapply (wp_mono _ (fun _ d3 => only path d d3 /\ exists n, n <= Z.max size 0 /\ files d3 !! path = Some (zeros n))).
  { assert (Hz : files d2 !! path = Some (zeros 0)) by (cbn; by rewrite lookup_insert_eq).
    destruct (_ && _); [|apply wp_ret; split; [done|]; exists 0; split; [lia|done]]. apply wp_quietly, wp_call.
    - intros d3 S3 _. assert (Hc : content path d3 = zeros 0) by (unfold content; destruct S3 as [-> _]; by rewrite Hz).
      split; [apply only_put; by eapply only_same|]. exists (Z.max size 0). split; [lia|]. unfold put_file. cbn.
      rewrite lookup_insert_eq, Hc. f_equal. apply resize_empty.
    - intros d3 s S3 _ _. split; [by eapply only_same|]. exists 0. split; [lia|]. destruct S3 as [-> _]. done. }
  intros _ d3 [O3 (m & Hmle & Hm)]. fold header. wp_step.
  assert (Hc3 : content path d3 = zeros m) by (unfold content; by rewrite Hm).
  apply wp_write.
  2:{ intros d4 n S4 Hn Hf. cbn [is_done andb]. rewrite (proj2 (Z.eqb_neq _ _)) by lia. cbn [negb]. apply create_abandon; [|done].
      apply (only_trans _ _ d3); [done|]. eapply wrote_only. by apply wrote_put. }
  2:{ intros d4 s S4 Hn Hf. destruct s; [done|..]; (apply create_abandon; [|done]); by eapply only_same. }
  intros d4 S4. cbn [is_done andb]. rewrite Z.eqb_refl. cbn [negb]. rewrite Hc3.
  set (d5 := put_file path (splice 0 header (zeros m)) d4).
  assert (O5 : only path d d5) by (apply only_put; by eapply only_same).
  wp_step. apply wp_inert. intros s d6 S6 Hf. assert (O6 : only path d d6) by (by eapply only_same).
  destruct s; cbn [is_done negb]; [|apply create_abandon; [done|by apply Hf]..]. wp_steps. split; [done|]. split; [done|]. split; [done|].
  assert (Hd : splice 0 header (zeros m) = header ++ zeros (Z.max 0 (m - 32))).
  { change (splice 0 header (zeros m)) with (header ++ drop 32 (zeros m)). f_equal.
    unfold zeros. rewrite drop_replicate. f_equal. lia. }
  exists (Z.max 0 (m - 32)). split; [unfold sizeof_SegmentHeader; lia|]. split; [done| |done]. destruct S6 as [Ef6 _]. cbn [sg_path_].
  rewrite Ef6. unfold d5. rewrite Hd. exact (lookup_insert_eq _ _ _).
Qed.

Definition opened (path : string) (id first : Z) (x : list Z) (io : SegmentIo) (d : Disk) (r : Result Segment) (d' : Disk) : Prop :=
  same_files d d' /\
  match r with
  | Ok s => s = mkSegment true id first (sizeof_SegmentHeader + zlen x) (sizeof_SegmentHeader + zlen x) path io
  | Err e => io_error e
  end.

Lemma Open_spec path io id first x d : files d !! path = Some (sh_Serialize (new_segment_header id first) ++ x) ->
  is_u64 id -> is_u64 first -> wp (Open path io) (opened path id first x io d) d.
Proof.
  intros Hf Hi Hfi. set (header := sh_Serialize (new_segment_header id first)) in *.
  assert (Hc : forall d', same_files d d' -> content path d' = header ++ x).
  { intros d' [E _]. unfold content. by rewrite E, Hf. }
  assert (Hcl : forall d1 msg, same_files d d1 -> io_fault -> wp (quietly sys_close ;;; rfail (EStorageOther msg))
    (opened path id first x io d) d1).
  { intros d1 msg S1 He. wp_step. apply wp_quietly, wp_inert. intros _ d2 S2 _. wp_step. split; [by etransitivity|]. by apply io_error_intro. }
  unfold Open. wp_step. apply wp_or_fail, wp_inert. intros s d1 S1 He.
  assert (He1 : s <> Done -> io_fault) by (intros Hn; apply He; [done|]; eapply has_file_true; destruct S1 as [-> _]; exact Hf).
  destruct s; [|split; [done|]; by apply io_error_intro, He1..]. wp_step.
  assert (Hsub : sub 0 sizeof_SegmentHeader (content path d1) = header) by (rewrite Hc by done; by apply sub_prefix).
  apply wp_read; rewrite ?Hsub.
  2:{ intros d2 n S2 Hn Hff. cbn [is_done andb]. rewrite (proj2 (Z.eqb_neq _ _)); [apply Hcl; [by etransitivity|done]|].
      change (zlen header) with sizeof_SegmentHeader in Hn. rewrite sub_length; [lia|lia|lia|].
      change (zlen header) with sizeof_SegmentHeader. lia. }
  2:{ intros d2 s S2 Hn Hff. destruct s; [done|..]; (apply Hcl; [by etransitivity|done]). }
  intros d2 S2. rewrite ?Hsub. cbn [is_done andb]. change (zlen header =? sizeof_SegmentHeader) with true. cbn [negb].
  unfold header at 1. rewrite sh_roundtrip by done. change (sh_IsValid _) with true. cbn [negb].
  assert (S3 : same_files d d2) by (by etransitivity).
  wp_step. apply wp_inert. intros s d3 S4 Hff. assert (S5 : same_files d d3) by (by etransitivity).
  destruct s; cbn [is_done negb]; [|apply Hcl; [done|by apply Hff]..]. wp_steps. split; [done|]. cbn [sh_segment_id sh_first_index new_segment_header].
  rewrite Hc by done. rewrite length_app, Nat2Z.inj_add. unfold header. by rewrite sh_Serialize_length, sh_roundtrip by done.
Qed.
End SegmentProps.
