(* ===== verification/SegmentManager.v ===== *)
(** * The segments of a log

    Model of [lib/raftor/wal/segment_manager.cc]: the ordered map from segment
    numbers to open segments, with the directory they are in.  A [Segment*] is
    the number of a segment in the map; using one that is not there would be a
    dangling pointer. *)

From S2P Require Import Prelude Types Bytes Record Disk Segment.

(** ** [std::map<uint64_t, T>]: bindings in the order of their keys *)

Fixpoint smap_find {T} (k : Z) (m : list (Z * T)) : option T :=
  match m with
  | [] => None
  | (k', v) :: m' => if k' =? k then Some v else smap_find k m'
  end.

(** [m[k] = v] *)
Fixpoint smap_insert {T} (k : Z) (v : T) (m : list (Z * T)) : list (Z * T) :=
  match m with
  | [] => [(k, v)]
  | (k', v') :: m' =>
      if k =? k' then (k, v) :: m'
      else if k <? k' then (k, v) :: m
      else (k', v') :: smap_insert k v m'
  end.

Definition smap_erase {T} (k : Z) (m : list (Z * T)) : list (Z * T) :=
  filter (fun p => negb (p.1 =? k) = true) m.

(** [m.empty() ? 0 : m.rbegin()->first] *)
Definition smap_last_key {T} (m : list (Z * T)) : Z :=
  match last m with
  | Some (k, _) => k
  | None => 0
  end.

Record SegmentManager := mkSegmentManager {
  mg_disk : Disk;
  mg_config_ : WALConfig;
  mg_io_factory_ : SegmentIo;
  mg_segments_ : list (Z * Segment);
  mg_current_segment_id_ : Z
}.
#[export] Instance SegmentManager_eta : Eta SegmentManager := fun g =>
  mkSegmentManager (mg_disk g) (mg_config_ g) (mg_io_factory_ g) (mg_segments_ g) (mg_current_segment_id_ g).

Record SegmentInfo := mkSegmentInfo {
  si_segment_id : Z;
  si_first_index : Z;
  si_path : string
}.

Definition name_le (a b : string) : Prop := String.leb a b = true.
#[export] Instance name_le_dec a b : Decision (name_le a b).
Proof. unfold name_le. apply _. Defined.

Section SegmentManager.
Context {IO : Io} {PF : Platform}.

Definition on_mg_disk {A} (m : M Disk A) : M SegmentManager A := zoom mg_disk (fun d g => g <| mg_disk := d |>) m.

(** A method of the segment with number [id]. *)
Definition on_segment {A} (id : Z) (m : M SegCtx A) : M SegmentManager A := fun g =>
  match smap_find id (mg_segments_ g) with
  | Some s =>
      match m (mkSegCtx (mg_disk g) s) with
      | Ret (a, c) => Ret (a, g <| mg_disk := sc_disk c |> <| mg_segments_ := smap_insert id (sc_seg c) (mg_segments_ g) |>)
      | Abort f => Abort f
      end
  | None => Abort Undefined
  end.

(** A field of it. *)
Definition segment_get {A} (id : Z) (f : Segment -> A) (g : SegmentManager) : outcome A :=
  match smap_find id (mg_segments_ g) with
  | Some s => Ret (f s)
  | None => Abort Undefined
  end.

Definition mg_HasSegments (g : SegmentManager) : bool := match mg_segments_ g with [] => false | _ => true end.

(** The loop of [Initialize] over the segment files. *)
Definition open_segment (path : string) : M SegmentManager unit :=
  let! io := gets mg_io_factory_ in
  let! r := on_mg_disk (Open path io) in
  match r with
  | Err _ => ret tt
  | Ok segment =>
      let seg_id := sg_segment_id_ segment in
      modify (fun g => g <| mg_segments_ := smap_insert seg_id segment (mg_segments_ g) |>) ;;;
      let! g := get in
      when (mg_current_segment_id_ g <? seg_id) (set! mg_current_segment_id_ := seg_id)
  end.

Definition mg_Initialize : M SegmentManager (Result unit) :=
  let! d := gets mg_disk in
  try! _ := (if negb (dir_exists d) then on_mg_disk (or_fail sys_mkdir "failed to create WAL directory: {}") else rok tt) in
  let! names := on_mg_disk sys_list in
  let segment_paths := filter (fun name => is_Some (ParseSegmentId name)) names in
  let segment_paths := merge_sort name_le segment_paths in
  foreach segment_paths open_segment ;;;
  rok tt.

Definition RollToNewSegment (first_index : Z) : M SegmentManager (Result Z) :=
  let! g := get in
  match smap_find (mg_current_segment_id_ g) (mg_segments_ g) with
  | Some _ => on_segment (mg_current_segment_id_ g) Sync ;;; ret tt
  | None => ret tt
  end ;;;
  let! g := get in
  let new_segment_id := mg_current_segment_id_ g +! 1 in
  let path := MakeSegmentFilename new_segment_id in
  try! segment := on_mg_disk (Create path new_segment_id first_index (wc_preallocate (mg_config_ g))
                                (wc_segment_size (mg_config_ g)) (mg_io_factory_ g)) in
  modify (fun g => g <| mg_segments_ := smap_insert new_segment_id segment (mg_segments_ g) |>) ;;;
  set! mg_current_segment_id_ := new_segment_id ;;;
  rok new_segment_id.

Definition GetCurrentSegment (first_index_hint : Z) : M SegmentManager (Result Z) :=
  let! g := get in
  if negb (mg_HasSegments g) then RollToNewSegment first_index_hint
  else match smap_find (mg_current_segment_id_ g) (mg_segments_ g) with
       | Some _ => rok (mg_current_segment_id_ g)
       | None => rfail (EStorage CurrentSegmentNotFound)
       end.

(** The last segment, in the order of numbers, before the first one that starts
    after [index]. *)
Fixpoint segment_for_index (index : Z) (m : list (Z * Segment)) (result : option Z) : option Z :=
  match m with
  | [] => result
  | (seg_id, segment) :: m' =>
      if sg_first_index_ segment <=? index then segment_for_index index m' (Some seg_id) else result
  end.
Definition GetSegmentForIndex (index : Z) (g : SegmentManager) : option Z :=
  segment_for_index index (mg_segments_ g) None.

Definition RemoveSegment (segment_id : Z) : M SegmentManager (Result unit) :=
  let! g := get in
  match smap_find segment_id (mg_segments_ g) with
  | None => rok tt
  | Some s =>
      on_segment segment_id Close ;;;
      modify (fun g => g <| mg_segments_ := smap_erase segment_id (mg_segments_ g) |>) ;;;
      let! g := get in
      when (mg_current_segment_id_ g =? segment_id)
        (set! mg_current_segment_id_ := smap_last_key (mg_segments_ g)) ;;;
      on_mg_disk (or_fail (sys_remove (sg_path_ s)) "failed to remove segment file: {}")
  end.

Definition RemoveSegmentsBefore (segment_id : Z) : M SegmentManager (Result unit) :=
  let! g := get in
  foreachM (filter (fun id => (id <? segment_id) = true) (mg_segments_ g).*1) RemoveSegment.

Definition RemoveAllSegments : M SegmentManager (Result unit) :=
  let! g := get in
  foreachM (mg_segments_ g).*1 RemoveSegment.

Definition ListSegments (g : SegmentManager) : list SegmentInfo :=
  (fun p => mkSegmentInfo p.1 (sg_first_index_ p.2) (sg_path_ p.2)) <$> mg_segments_ g.

Definition TotalSizeBytes (g : SegmentManager) : Z :=
  foldl (fun total '(_, s) => u64 (total + sg_file_size_ s)) 0 (mg_segments_ g).

Definition SyncAll : M SegmentManager (Result unit) :=
  let! g := get in
  foreachM (mg_segments_ g).*1 (fun seg_id => on_segment seg_id Sync).

Definition CloseAll : M SegmentManager (Result unit) :=
  let! g := get in
  try! _ := foreachM (mg_segments_ g).*1 (fun seg_id => on_segment seg_id Close) in
  set! mg_segments_ := [] ;;;
  rok tt.

Definition NextSegmentId (g : SegmentManager) : Z := mg_current_segment_id_ g +! 1.
End SegmentManager.

Definition new_segment_manager (d : Disk) (config : WALConfig) (io : SegmentIo) : SegmentManager :=
  mkSegmentManager d config io [] 0.
