(* ===== verification/SnapshotFile.v ===== *)
(** * The snapshot file

    Model of the file functions of [lib/raftor/wal/wal.cc] (lines 28 to 190):
    writing and reading a whole file in the face of short transfers and
    interruptions, and the atomic replacement of the snapshot. *)

From S2P Require Import Prelude Types Bytes Capnp Record Disk Metadata.

Definition kSnapshotFile : string := "snapshot".
Definition kSnapshotTmpFile : string := "snapshot.tmp".

Section SnapshotFile.
Context {IO : Io} {CP : Capnp}.

Definition SyncDirectory : M Disk (Result unit) :=
  try! _ := or_fail sys_open_dir "failed to open snapshot directory for sync: {}" in
  let! s := sys_sync in
  quietly sys_close ;;;
  match s with
  | Done => rok tt
  | _ => rfail (EStorageOther "failed to sync snapshot directory: {}")
  end.

Fixpoint WriteAll_loop (fuel : nat) (name : string) (written : Z) (data : list Z) : M Disk (Result unit) :=
  match fuel with
  | O => abort NoFuel
  | S fuel =>
      if written <? zlen data then
        let! (s, n) := sys_write name written (sub written (zlen data - written) data) in
        match s with
        | Interrupted => WriteAll_loop fuel name written data
        | Failed => rfail (EStorageOther "failed to write snapshot: {}")
        | Done =>
            if n =? 0 then rfail (EStorageOther "failed to write snapshot: zero-byte write")
            else WriteAll_loop fuel name (written + n) data
        end
      else rok tt
  end.

(** Enough turns for every byte to be written alone, after the longest row of
    interruptions. *)
Definition io_fuel (data : list Z) : nat := S (S (length data) * S io_patience).

Definition WriteAll (name : string) (data : list Z) : M Disk (Result unit) :=
  WriteAll_loop (io_fuel data) name 0 data.

Fixpoint ReadFile_loop (fuel : nat) (name : string) (size : Z) (data : list Z) : M Disk (Result (list Z)) :=
  match fuel with
  | O => abort NoFuel
  | S fuel =>
      if zlen data <? size then
        let! (s, more) := sys_read name (zlen data) (size - zlen data) in
        match s with
        | Interrupted => ReadFile_loop fuel name size data
        | Failed => quietly sys_close ;;; rfail (EStorageOther "failed to read snapshot: {}")
        | Done =>
            if zlen more =? 0 then quietly sys_close ;;; rfail (EStorageOther "failed to read snapshot: unexpected EOF")
            else ReadFile_loop fuel name size (data ++ more)
        end
      else
        quietly sys_close ;;;
        rok data
  end.

Definition ReadFile (name : string) : M Disk (Result (list Z)) :=
  try! _ := or_fail (sys_open name) "failed to open snapshot: {}" in
  let close_fail message := (quietly sys_close ;;; rfail (EStorageOther message)) in
  let! s := sys_stat in
  match s with
  | Done =>
      let! bytes := gets (content name) in
      let size := zlen bytes in
      if two32 - 1 <? size then close_fail "failed to read snapshot: file size exceeds maximum limit"%string
      else
        let! s := sys_stat in
        match s with
        | Done => ReadFile_loop (io_fuel bytes) name size []
        | _ => close_fail "failed to rewind snapshot: {}"%string
        end
  | _ => close_fail "failed to get snapshot size: {}"%string
  end.

Definition PersistSnapshotFile (snapshot : Snapshot) : M Disk (Result unit) :=
  try! _ := or_fail sys_mkdir "failed to create snapshot directory: {}" in
  let bytes := toBytes snapshot in
  try! _ := or_fail (sys_open_trunc kSnapshotTmpFile) "failed to create snapshot temp file: {}" in
  let cleanup_tmp := quietly (sys_unlink kSnapshotTmpFile) in
  let! r := WriteAll kSnapshotTmpFile bytes in
  match r with
  | Err e => quietly sys_close ;;; cleanup_tmp ;;; rfail e
  | Ok _ =>
      let! s := sys_sync in
      match s with
      | Done =>
          let! s := sys_close in
          match s with
          | Done =>
              let! s := sys_rename kSnapshotTmpFile kSnapshotFile in
              match s with
              | Done => SyncDirectory
              | _ => cleanup_tmp ;;; rfail (EStorageOther "failed to install snapshot file: {}")
              end
          | _ => cleanup_tmp ;;; rfail (EStorageOther "failed to close snapshot temp file: {}")
          end
      | _ => quietly sys_close ;;; cleanup_tmp ;;; rfail (EStorageOther "failed to sync snapshot temp file: {}")
      end
  end.
End SnapshotFile.
