(* ===== verification/SnapshotProps.v ===== *)
(** * Properties of the snapshot file

    The loops that write and read a whole file end for every row of
    interruptions and short transfers, and replacing the snapshot is atomic. *)

From S2P Require Import Prelude Types Bytes Capnp Record Disk Metadata SnapshotFile.

Section SnapshotProps.
Context {IO : Io} {CP : Capnp}.

(** The disk after one more call. *)
Definition tick (d : Disk) : Disk := d <| calls := S (calls d) |>.

Lemma sys_write_run name off data d : sys_write name off data d =
  match status (answer (calls d)) with
  | Done =>
      let n := transferred (answer (calls d)) (zlen data) in
      Ret ((Done, n), put_file name (splice off (sub 0 n data) (content name d)) (tick d))
  | s => Ret ((s, 0), tick d)
  end.
Proof. unfold sys_write, syscall, bind, get, gets, modify, ret. cbn. by destruct (answer (calls d)). Qed.

Lemma sys_read_run name off size d : sys_read name off size d =
  match status (answer (calls d)) with
  | Done => let data := sub off size (content name d) in
            Ret ((Done, sub 0 (transferred (answer (calls d)) (zlen data)) data), tick d)
  | s => Ret ((s, []), tick d)
  end.
Proof. unfold sys_read, syscall, bind, get, gets, modify, ret. cbn. by destruct (answer (calls d)). Qed.

Lemma transferred_range a size : 0 <= size -> 0 <= transferred a size <= size.
Proof. destruct a; cbn; lia. Qed.

Lemma not_ok_fault d : answer (calls d) <> IoOk -> io_fault.
Proof. by exists (calls d). Qed.

(** ** Writing *)

(** Only the file [name] is written. *)
Definition wrote_file (name : string) (d d' : Disk) (bytes : list Z) : Prop :=
  dir_exists d' = dir_exists d /\ files d' = <[name := bytes]> (files d).

Lemma rest_of (a b : list Z) : sub (zlen a) (zlen (a ++ b) - zlen a) (a ++ b) = b.
Proof. rewrite <- (app_nil_r b) at 2. apply sub_middle; [done|]. rewrite length_app. lia. Qed.

Lemma append_file name d d1 (a b : list Z) : dir_exists d1 = dir_exists d -> files d1 = <[name := a]> (files d) ->
  wrote_file name d (put_file name (splice (zlen a) b (content name d1)) (tick d1)) (a ++ b).
Proof.
  intros Ed Ef. split; [done|]. cbn. rewrite Ef, insert_insert_eq. do 2 f_equal. unfold content. rewrite Ef, lookup_insert_eq. cbn.
  rewrite <- (app_nil_r a) at 2. rewrite splice_append, drop_nil, app_nil_r. done.
Qed.

(** One turn makes progress or uses up an interruption: [k] is the length of
    the row of interruptions ahead. *)
Lemma WriteAll_loop_spec name fuel : forall a b d d1 k, wrote_file name d d1 a ->
  (k < io_patience)%nat -> answer (calls d1 + k) <> IoIntr -> (length b * S io_patience + k < fuel)%nat ->
  wp (WriteAll_loop fuel name (zlen a) (a ++ b)) (fun r d' =>
    match r with
    | Ok _ => wrote_file name d d' (a ++ b)
    | Err e => io_error e /\ exists x, wrote_file name d d' x
    end) d1.
Proof.
  induction fuel as [|fuel IH]; intros a b d d1 k [Ed Ef] Hk Ha Hfuel; [lia|]. cbn [WriteAll_loop].
  destruct (Z.ltb_spec (zlen a) (zlen (a ++ b))) as [Hlt|Hge].
  2: { assert (b = []) as -> by (destruct b; [done|rewrite length_app in Hge; cbn [length] in Hge; lia]). wp_step. rewrite app_nil_r. by split. }
  wp_step. rewrite rest_of. pose proof (not_ok_fault d1) as Hf.
  destruct (status (answer (calls d1))) eqn:Es; (eapply wp_run; [rewrite sys_write_run, Es; reflexivity|]).
  - cbv beta iota zeta. set (n := transferred (answer (calls d1)) (zlen b)). pose proof (transferred_range (answer (calls d1)) (zlen b) ltac:(lia)) as Hn.
    fold n in Hn. assert (Hlen : zlen (sub 0 n b) = n) by (apply sub_length; lia).
    pose proof (append_file name d d1 a (sub 0 n b) Ed Ef) as Hw.
    destruct (Z.eqb_spec n 0) as [Hz|Hnz].
    + wp_step. split; [|eauto]. apply io_error_intro, Hf. intros E. unfold n in Hz. rewrite E in Hz. cbn in Hz.
      destruct b; [rewrite app_nil_r in Hlt; lia|cbn [length] in Hz; lia].
    + set (d2 := put_file name _ (tick d1)) in *. destruct (io_progress (calls d2)) as (k' & Hk' & Ha').
      assert (Eab : a ++ b = (a ++ sub 0 n b) ++ drop (Z.to_nat n) b).
      { rewrite <- app_assoc. f_equal. unfold sub. rewrite drop_0. symmetry. apply take_drop. }
      replace (zlen a + n) with (zlen (a ++ sub 0 n b)) by (rewrite length_app; lia). rewrite Eab.
      apply (IH _ _ d d2 k'); [exact Hw|done|done|]. rewrite length_drop.
      assert (Hd : (length b - Z.to_nat n <= length b - 1)%nat) by lia.
      assert (Hb1 : (1 <= length b)%nat) by (destruct b; [rewrite app_nil_r in Hlt; lia|cbn; lia]).
      apply (Nat.mul_le_mono_r _ _ (S io_patience)) in Hd. rewrite Nat.mul_sub_distr_r in Hd. nia.
  - destruct k as [|k]; [exfalso; rewrite Nat.add_0_r in Ha; by destruct (answer (calls d1))|].
    apply (IH _ _ d (tick d1) k); [by split|lia| |lia]. cbn. by rewrite <- plus_n_Sm in Ha.
  - cbv beta iota. wp_step. split; [|by exists a]. apply io_error_intro, Hf. intros E. by rewrite E in Es.
Qed.

Lemma WriteAll_spec name data d d1 : wrote_file name d d1 [] ->
  wp (WriteAll name data) (fun r d' =>
    match r with
    | Ok _ => wrote_file name d d' data
    | Err e => io_error e /\ exists x, wrote_file name d d' x
    end) d1.
Proof.
  intros Hw. destruct (io_progress (calls d1)) as (k & Hk & Ha). apply (WriteAll_loop_spec name _ [] data d d1 k); [done|done|done|].
  unfold io_fuel. lia.
Qed.

(** ** Reading *)

Lemma ReadFile_loop_spec name fuel : forall a b d1 k, content name d1 = a ++ b ->
  (k < io_patience)%nat -> answer (calls d1 + k) <> IoIntr -> (length b * S io_patience + k < fuel)%nat ->
  wp (ReadFile_loop fuel name (zlen (a ++ b)) a) (fun r d' => same_files d1 d' /\
    match r with
    | Ok data => data = a ++ b
    | Err e => io_error e
    end) d1.
Proof.
  induction fuel as [|fuel IH]; intros a b d1 k Hc Hk Ha Hfuel; [lia|]. cbn [ReadFile_loop].
  destruct (Z.ltb_spec (zlen a) (zlen (a ++ b))) as [Hlt|Hge].
  2: { assert (b = []) as -> by (destruct b; [done|rewrite length_app in Hge; cbn [length] in Hge; lia]).
       wp_step. apply wp_quietly, wp_inert. intros _ d2 S2 _. wp_step. by rewrite app_nil_r. }
  wp_step. pose proof (not_ok_fault d1) as Hf.
  assert (Hfail : forall msg d2, same_files d1 d2 -> answer (calls d1) <> IoOk ->
    wp (quietly sys_close ;;; rfail (EStorageOther msg)) (fun (r : Result (list Z)) d' => same_files d1 d' /\
      match r with Ok data => data = a ++ b | Err e => io_error e end) d2).
  { intros msg d2 S2 He. wp_step. apply wp_quietly, wp_inert. intros _ d3 S3 _. wp_step. split; [by etransitivity|]. by apply io_error_intro, Hf. }
  destruct (status (answer (calls d1))) eqn:Es; (eapply wp_run; [rewrite sys_read_run, Es, ?Hc, ?rest_of; reflexivity|]).
  - cbv beta iota zeta. set (n := transferred (answer (calls d1)) (zlen b)). pose proof (transferred_range (answer (calls d1)) (zlen b) ltac:(lia)) as Hn.
    fold n in Hn. assert (Hlen : zlen (sub 0 n b) = n) by (apply sub_length; lia). rewrite Hlen.
    destruct (Z.eqb_spec n 0) as [Hz|Hnz].
    + apply Hfail; [done|]. intros E. unfold n in Hz. rewrite E in Hz. cbn in Hz.
      destruct b; [rewrite app_nil_r in Hlt; lia|cbn [length] in Hz; lia].
    + destruct (io_progress (calls (tick d1))) as (k' & Hk' & Ha').
      assert (Eab : a ++ b = (a ++ sub 0 n b) ++ drop (Z.to_nat n) b).
      { rewrite <- app_assoc. f_equal. unfold sub. rewrite drop_0. symmetry. apply take_drop. }
      rewrite Eab. apply (IH _ _ (tick d1) k'); [by rewrite <- Eab|done|done|]. rewrite length_drop.
      assert (Hd : (length b - Z.to_nat n <= length b - 1)%nat) by lia.
      assert (Hb1 : (1 <= length b)%nat) by (destruct b; [rewrite app_nil_r in Hlt; lia|cbn; lia]).
      apply (Nat.mul_le_mono_r _ _ (S io_patience)) in Hd. rewrite Nat.mul_sub_distr_r in Hd. nia.
  - destruct k as [|k]; [exfalso; rewrite Nat.add_0_r in Ha; by destruct (answer (calls d1))|].
    apply (IH _ _ (tick d1) k); [done|lia| |lia]. cbn. by rewrite <- plus_n_Sm in Ha.
  - cbv beta iota. apply Hfail; [done|]. intros E. by rewrite E in Es.
Qed.

Lemma ReadFile_spec name data d : files d !! name = Some data -> zlen data < two32 ->
  wp (ReadFile name) (fun r d' => same_files d d' /\
    match r with
    | Ok bytes => bytes = data
    | Err e => io_error e
    end) d.
Proof.
  intros Hf Hl. assert (Hc : forall d', same_files d d' -> content name d' = data).
  { intros d' [E _]. unfold content. by rewrite E, Hf. }
  assert (Hfail : forall msg d2, same_files d d2 -> io_fault -> wp (quietly sys_close ;;; rfail (EStorageOther msg))
    (fun (r : Result (list Z)) d' => same_files d d' /\ match r with Ok bytes => bytes = data | Err e => io_error e end) d2).
  { intros msg d2 S2 He. wp_step. apply wp_quietly, wp_inert. intros _ d3 S3 _. wp_step. split; [by etransitivity|]. by apply io_error_intro. }
  unfold ReadFile. wp_step. apply wp_or_fail, wp_inert. intros s d1 S1 He.
  assert (He1 : s <> Done -> io_fault) by (intros Hn; apply He; [done|]; eapply has_file_true; destruct S1 as [-> _]; exact Hf).
  destruct s; [|split; [done|]; by apply io_error_intro, He1..]. wp_step. apply wp_inert. intros s d2 S2 He2.
  assert (S2' : same_files d d2) by (by etransitivity). destruct s; [|apply Hfail; [done|by apply He2]..]. wp_steps. rewrite (Hc d2) by done.
  rewrite (proj2 (Z.ltb_ge _ _)) by lia. wp_step. apply wp_inert. intros s d3 S3 He3. assert (S3' : same_files d d3) by (by etransitivity).
  destruct s; [|apply Hfail; [done|by apply He3]..]. destruct (io_progress (calls d3)) as (k & Hk & Ha).
  eapply wp_mono; [apply (ReadFile_loop_spec name _ [] data d3 k); [by apply Hc|done|done|unfold io_fuel; lia]|].
  intros r d4 [S4 Hr]. split; [by etransitivity|done].
Qed.

(** ** Replacing the snapshot *)

(** Everything but the snapshot and its temporary is as before. *)
Definition snap_kept (d d' : Disk) : Prop :=
  forall name, name <> kSnapshotFile -> name <> kSnapshotTmpFile -> files d' !! name = files d !! name.

Definition snap_staged (d d' : Disk) : Prop :=
  dir_exists d' = true /\ snap_kept d d' /\ files d' !! kSnapshotFile = files d !! kSnapshotFile.

Definition persist_post (bytes : list Z) (d : Disk) (r : Result unit) (d' : Disk) : Prop :=
  snap_kept d d' /\ (dir_exists d = true -> dir_exists d' = true) /\
  match r with
  | Ok _ => dir_exists d' = true /\ files d' !! kSnapshotFile = Some bytes
  | Err e => io_error e /\ (files d' !! kSnapshotFile = files d !! kSnapshotFile \/ files d' !! kSnapshotFile = Some bytes)
  end.

Lemma snap_staged_same d d1 d2 : snap_staged d d1 -> same_files d1 d2 -> snap_staged d d2.
Proof. intros (Hd & Hk & Hs) [Ef Ed]. unfold snap_staged, snap_kept in *. by rewrite Ef, Ed. Qed.

Lemma snap_staged_wrote d d1 d2 x : snap_staged d d1 -> wrote_file kSnapshotTmpFile d1 d2 x -> snap_staged d d2.
Proof.
  intros (Hd & Hk & Hs) [Ed Ef]. split; [congruence|]. split.
  - intros name N1 N2. rewrite Ef, lookup_insert_ne by congruence. by apply Hk.
  - by rewrite Ef, lookup_insert_ne by done.
Qed.

Lemma snap_error bytes d d' msg : snap_staged d d' -> io_fault -> persist_post bytes d (Err (EStorageOther msg)) d'.
Proof. intros (Hd & Hk & Hs) Hf. split; [done|]. split; [done|]. split; [by apply io_error_intro|by left]. Qed.

Lemma wp_snap_cleanup bytes d d1 e : snap_staged d d1 -> io_error e ->
  wp (quietly (sys_unlink kSnapshotTmpFile) ;;; rfail e) (persist_post bytes d) d1.
Proof.
  intros Hs [(msg & ->) Hf]. wp_step. apply wp_quietly, wp_call.
  - intros d2 S2 _. wp_step. apply snap_error; [|done]. pose proof (snap_staged_same _ _ _ Hs S2) as (Hd & Hk & Hm). split; [done|]. split.
    + intros name N1 N2. cbn. rewrite lookup_delete_ne by congruence. by apply Hk.
    + cbn. by rewrite lookup_delete_ne by done.
  - intros d2 s S2 _ _. wp_step. apply snap_error; [by eapply snap_staged_same|done].
Qed.

Lemma PersistSnapshotFile_spec snapshot d : wp (PersistSnapshotFile snapshot) (persist_post (toBytes snapshot) d) d.
Proof.
  unfold PersistSnapshotFile. wp_step. apply wp_or_fail, wp_call.
  2: { intros d1 s S1 Hn Hf. destruct S1 as [Ef Ed]. assert (io_fault) by (by apply Hf).
       destruct s; [done|..]; (split; [unfold snap_kept; by rewrite Ef|]; split; [congruence|]; split; [by apply io_error_intro|left; by rewrite Ef]). }
  intros d1 [Ef1 Ed1] _. set (d2 := d1 <| dir_exists := true |>).
  assert (St2 : snap_staged d d2) by (split; [done|]; unfold snap_kept; cbn; by rewrite Ef1).
  wp_step. apply wp_or_fail, wp_call.
  2: { intros d3 s S3 Hn Hf. assert (Hff : io_fault) by (apply Hf; by destruct S3 as [_ ->]).
       destruct s; [done|..]; (apply snap_error; [by eapply snap_staged_same|done]). }
  intros d3 S3 _. pose proof (snap_staged_same _ _ _ St2 S3) as St3. set (d4 := put_file kSnapshotTmpFile [] d3).
  assert (W4 : wrote_file kSnapshotTmpFile d3 d4 []) by (by split). wp_step. eapply wp_mono; [by apply WriteAll_spec|]. intros [[]|e] d5 W5.
  2: { destruct W5 as [He (x & W5)]. pose proof (snap_staged_wrote _ _ _ _ St3 W5) as St5. wp_step. apply wp_quietly, wp_inert. intros _ d6 S6 _.
       apply wp_snap_cleanup; [by eapply snap_staged_same|done]. }
  pose proof (snap_staged_wrote _ _ _ _ St3 W5) as St5.
  assert (Et5 : files d5 !! kSnapshotTmpFile = Some (toBytes snapshot)) by (destruct W5 as [_ ->]; apply lookup_insert_eq).
  wp_step. apply wp_inert. intros s d6 S6 Hf6. pose proof (snap_staged_same _ _ _ St5 S6) as St6.
  destruct s; [|(wp_step; apply wp_quietly, wp_inert; intros _ d7 S7 _;
                 apply wp_snap_cleanup; [by eapply snap_staged_same|by apply io_error_intro, Hf6])..].
  wp_step. apply wp_inert. intros s d7 S7 Hf7. pose proof (snap_staged_same _ _ _ St6 S7) as St7.
  destruct s; [|apply wp_snap_cleanup; [done|by apply io_error_intro, Hf7]..].
  assert (Et7 : files d7 !! kSnapshotTmpFile = Some (toBytes snapshot)) by (destruct S6 as [E6 _], S7 as [E7 _]; by rewrite E7, E6).
  wp_step. apply wp_call.
  2: { intros d8 s S8 Hn Hf. assert (Hff : io_fault) by (apply Hf; eapply has_file_true; destruct S8 as [-> _]; exact Et7).
       destruct s; [done|..]; (apply wp_snap_cleanup; [by eapply snap_staged_same|by apply io_error_intro]). }
  intros d8 S8 _. pose proof (snap_staged_same _ _ _ St7 S8) as (Hd8 & Hk8 & _). set (d9 := d8 <| files := _ |>).
  assert (Hend : forall d', same_files d9 d' -> snap_kept d d' /\ dir_exists d' = true /\ files d' !! kSnapshotFile = Some (toBytes snapshot)).
  { intros d' [Ef Ed]. unfold snap_kept. rewrite Ef, Ed. split; [|split; [done|]].
    - intros name N1 N2. cbn. rewrite lookup_insert_ne, lookup_delete_ne by congruence. by apply Hk8.
    - cbn. rewrite lookup_insert_eq. f_equal. unfold content. destruct S8 as [-> _]. by rewrite Et7. }
  assert (Hfail : forall d' msg, same_files d9 d' -> io_fault -> persist_post (toBytes snapshot) d (Err (EStorageOther msg)) d').
  { intros d' msg Hs Hf. destruct (Hend d' Hs) as (H1 & H2 & H3). split; [done|]. split; [done|]. split; [by apply io_error_intro|by right]. }
  unfold SyncDirectory. wp_step. apply wp_or_fail, wp_inert. intros s d10 S10 Hf10.
  assert (Hd10 : s <> Done -> io_fault) by (intros Hn; apply Hf10; [done|]; destruct S10 as [_ ->]; done).
  destruct s; [|by apply Hfail; [|apply Hd10]..]. wp_step. apply wp_inert. intros s d11 S11 Hf11. wp_step. apply wp_quietly, wp_inert.
  intros _ d12 S12 _. assert (S : same_files d9 d12) by (etransitivity; [exact S10|]; by etransitivity).
  destruct s; wp_step; [|by apply Hfail; [|apply Hf11]..]. destruct (Hend d12 S) as (H1 & H2 & H3). by split.
Qed.

(** C23: Replacing the snapshot file ends and is atomic for every answer of the
    system calls, also when they are interrupted or transfer a part only:
    reading the file afterwards gives, unless reading fails, exactly the bytes of
    the old snapshot or of the new one, of the new one if the replacement
    reported success; failures are those of system calls, and no other file
    changes. *)
Theorem snapshot_replace_atomic (old new : Snapshot) d : files d !! kSnapshotFile = Some (toBytes old) ->
  zlen (toBytes old) <= kTraversalLimit -> zlen (toBytes new) <= kTraversalLimit ->
  wp (let! saved := PersistSnapshotFile new in let! r := ReadFile kSnapshotFile in ret (saved, r))
    (fun '(saved, r) d' => snap_kept d d' /\ (forall e, saved = Err e -> io_error e) /\
       match r with
       | Ok bytes => fromBytes bytes = Some new \/ (saved <> Ok tt /\ fromBytes bytes = Some old)
       | Err e => io_error e
       end) d.
Proof.
  intros Hf Ho Hn. wp_step. eapply wp_mono; [apply PersistSnapshotFile_spec|]. intros saved d1 (Hk & _ & Hs).
  assert (Hfile : exists snap, files d1 !! kSnapshotFile = Some (toBytes snap) /\ zlen (toBytes snap) <= kTraversalLimit /\
    (snap = new \/ (saved <> Ok tt /\ snap = old))).
  { destruct saved as [[]|e]; [exists new; destruct Hs; auto|]. destruct Hs as [_ [Hs|Hs]].
    - exists old. rewrite Hs. auto.
    - exists new. auto. }
  destruct Hfile as (snap & Hfs & Hl & Hwhich). wp_step. eapply wp_mono; [apply (ReadFile_spec _ _ _ Hfs)|].
  { unfold kTraversalLimit, two32 in *. lia. }
  intros r d2 [[Ef _] Hr]. wp_step. split; [unfold snap_kept; by rewrite Ef|]. split.
  - intros e ->. by destruct Hs.
  - destruct r; [|done]. subst. rewrite fromBytes_toBytes by done. destruct Hwhich as [->|[? ->]]; auto.
Qed.
End SnapshotProps.

(** The third call, the first write of the new file, is short. *)
Definition example_snapshot (index : Z) : Snapshot := mkSnapshot "s" (mkSnapshotMetadata (mkConfState [1] [] [] [] false) index 1).
Definition short_snapshot_io : Io := faulty_io 2 (IoShort 3) ltac:(done).

Lemma snapshot_replace_atomic_witness :
  let d := mkDisk true {[kSnapshotFile := toBytes (example_snapshot 2)]} 0 in
  exists bytes d', (let! saved := PersistSnapshotFile (IO := short_snapshot_io) (example_snapshot 3) in
    let! r := ReadFile (IO := short_snapshot_io) kSnapshotFile in ret (saved, r)) d = Ret ((Ok tt, Ok bytes), d') /\
    fromBytes bytes = Some (example_snapshot 3).
Proof.
  intros d. pose proof (snapshot_replace_atomic (IO := short_snapshot_io) (example_snapshot 2) (example_snapshot 3) d eq_refl
    ltac:(vm_compute; congruence) ltac:(vm_compute; congruence)) as Hs.
  destruct (proj1 (wp_Ret _ _ _) Hs) as ([saved r] & d' & E & _ & _ & Hr).
  assert (Ev : fst <$> (match (let! saved := PersistSnapshotFile (IO := short_snapshot_io) (example_snapshot 3) in
    let! r := ReadFile (IO := short_snapshot_io) kSnapshotFile in ret (saved, r)) d with Ret p => Some p | Abort _ => None end) =
    Some (Ok tt, Ok (toBytes (example_snapshot 3)))) by (vm_compute; reflexivity).
  rewrite E in Ev. cbn in Ev. injection Ev as -> ->. exists (toBytes (example_snapshot 3)), d'. split; [exact E|].
  destruct Hr as [Hr|[Hr _]]; [exact Hr|by destruct Hr].
Defined.
