(* ===== verification/Wal.v ===== *)
(** * The write-ahead log

    Model of [lib/raftor/wal/wal.cc]: entries and hard states as records in
    segment files, the index of their positions, the write buffer, truncation,
    compaction, snapshots and recovery.  Every method holds the log's mutex from
    beginning to end, so it is a step of its own. *)

From S2P Require Import Prelude Types Bytes Capnp Record WalIndex Disk Metadata Segment SegmentManager SnapshotFile.

Record PendingEntry := mkPendingEntry {
  pe_index : Z;
  pe_term : Z;
  pe_offset_in_buffer : Z;
  pe_record_length : Z
}.

(** [w_write_buffer_] is the used part of the write buffer. *)
Record WAL := mkWAL {
  w_manager : SegmentManager;
  w_index_ : WALIndex;
  w_effective_io_backend_ : WALIoBackend;
  w_io_backend_note_ : string;
  w_hard_state_ : HardState;
  w_conf_state_ : ConfState;
  w_peer_addresses_ : list PeerAddress;
  w_first_index_ : Z;
  w_snapshot_index_ : Z;
  w_snapshot_term_ : Z;
  w_write_buffer_ : list Z;
  w_pending_entries_ : list PendingEntry
}.
#[export] Instance WAL_eta : Eta WAL := fun w =>
  mkWAL (w_manager w) (w_index_ w) (w_effective_io_backend_ w) (w_io_backend_note_ w) (w_hard_state_ w)
    (w_conf_state_ w) (w_peer_addresses_ w) (w_first_index_ w) (w_snapshot_index_ w) (w_snapshot_term_ w)
    (w_write_buffer_ w) (w_pending_entries_ w).

Definition w_config (w : WAL) : WALConfig := mg_config_ (w_manager w).
Definition w_disk (w : WAL) : Disk := mg_disk (w_manager w).

Section Wal.
Context {IO : Io} {PF : Platform} {CR : Crc} {CP : Capnp}.

Definition on_manager {A} (m : M SegmentManager A) : M WAL A := zoom w_manager (fun g w => w <| w_manager := g |>) m.
Definition on_files {A} (m : M Disk A) : M WAL A := on_manager (on_mg_disk m).
Definition on_index {A} (m : M WALIndex A) : M WAL A := zoom w_index_ (fun x w => w <| w_index_ := x |>) m.

Definition LastIndexUnlocked (w : WAL) : Z :=
  if ix_empty (w_index_ w) then w_snapshot_index_ w else ix_last_index (w_index_ w).

Definition CreateMetadata (w : WAL) : WALMetadata :=
  mkWALMetadata (Some (w_hard_state_ w)) (Some (w_conf_state_ w)) (w_peer_addresses_ w) (w_first_index_ w)
    (w_snapshot_index_ w) (w_snapshot_term_ w).

Definition save_metadata : M WAL (Result unit) :=
  let! meta := gets CreateMetadata in
  on_files (Save meta).

(** ** Writing *)

Definition FlushWriteBuffer : M WAL (Result unit) :=
  let! w := get in
  match w_write_buffer_ w with
  | [] => rok tt
  | buffer =>
      try! segment := on_manager (GetCurrentSegment (w_first_index_ w)) in
      let! flush_start_offset := on_manager (getsO (segment_get segment sg_write_offset_)) in
      try! _ := on_manager (on_segment segment (Append buffer)) in
      let! segment_id := on_manager (getsO (segment_get segment sg_segment_id_)) in
      foreach (w_pending_entries_ w) (fun pending =>
        let actual_offset := u64 (flush_start_offset + pe_offset_in_buffer pending) in
        on_index (ix_Insert (pe_index pending) segment_id actual_offset (pe_record_length pending) (pe_term pending))) ;;;
      set! w_pending_entries_ := [] ;;;
      set! w_write_buffer_ := [] ;;;
      rok tt
  end.

(** The second argument is the segment passed by reference; the result is its
    new value. *)
Definition MaybeRollSegmentForAppend (first_index segment : Z) : M WAL (Result Z) :=
  let! w := get in
  let! full := on_manager (getsO (segment_get segment (IsFull (wc_segment_size (w_config w))))) in
  if negb full then rok segment
  else
    try! _ := FlushWriteBuffer in
    on_manager (RollToNewSegment first_index).

Definition GetCurrentSegmentForAppend (first_index_hint : Z) : M WAL (Result Z) :=
  try! segment := on_manager (GetCurrentSegment first_index_hint) in
  MaybeRollSegmentForAppend first_index_hint segment.

Definition ShouldFlushBuffer (segment : Z) (w : WAL) : outcome bool :=
  let used := zlen (w_write_buffer_ w) in
  let size := wc_segment_size (w_config w) in
  if wc_write_buffer_size (w_config w) <=? used then Ret true
  else
    let? offset := segment_get segment sg_write_offset_ (w_manager w) in
    let available := if offset <? size then size - offset else 0 in
    Ret (available <=? used).

Definition FlushWriteBufferIfNeeded : M WAL (Result unit) :=
  let! w := get in
  try! segment := on_manager (GetCurrentSegment (w_first_index_ w)) in
  let! should := getsO (ShouldFlushBuffer segment) in
  if should then FlushWriteBuffer else rok tt.

Definition TruncateSuffixFrom (index : Z) : M WAL (Result unit) :=
  let! w := get in
  match ix_Lookup index (w_index_ w) with
  | None => rfail (EFatal "cannot truncate WAL suffix at missing index {}")
  | Some entry_info =>
      let not_found := rfail (EFatal "cannot truncate WAL suffix at index {}: segment not found") in
      match GetSegmentForIndex index (w_manager w) with
      | None => not_found
      | Some segment =>
          let! segment_id := on_manager (getsO (segment_get segment sg_segment_id_)) in
          if negb (segment_id =? ie_segment_id entry_info) then not_found
          else
            try! _ := on_manager (on_segment segment (Truncate (ie_offset entry_info))) in
            try! _ := on_manager (on_segment segment Sync) in
            let! infos := gets (fun w => ListSegments (w_manager w)) in
            try! _ := foreachM infos (fun info =>
              if si_segment_id info <=? segment_id then rok tt
              else on_manager (RemoveSegment (si_segment_id info))) in
            on_index (ix_TruncateFrom index) ;;;
            rok tt
      end
  end.

(** The body of the loop of [Append]: [segment] is the segment after it. *)
Definition append_entry (entry : Entry) (segment : Z) : M WAL (Result Z) :=
  let record := Build RtEntry (toBytes entry) in
  try! segment := MaybeRollSegmentForAppend (e_index entry) segment in
  let! w := get in
  let capacity := wc_write_buffer_size (w_config w) in
  if capacity <? zlen record then
    try! _ := FlushWriteBuffer in
    try! segment := GetCurrentSegmentForAppend (e_index entry) in
    let! record_offset := on_manager (getsO (segment_get segment sg_write_offset_)) in
    try! _ := on_manager (on_segment segment (Segment.Append record)) in
    let! segment_id := on_manager (getsO (segment_get segment sg_segment_id_)) in
    on_index (ix_Insert (e_index entry) segment_id record_offset (u32 (zlen record)) (e_term entry)) ;;;
    rok segment
  else
    try! _ := (if capacity <? zlen (w_write_buffer_ w) + zlen record then FlushWriteBuffer else rok tt) in
    let! used := gets (fun w => zlen (w_write_buffer_ w)) in
    modify (fun w => w <| w_write_buffer_ := w_write_buffer_ w ++ record |>) ;;;
    modify (fun w => w <| w_pending_entries_ := w_pending_entries_ w ++
      [mkPendingEntry (e_index entry) (e_term entry) (u32 used) (u32 (zlen record))] |>) ;;;
    try! _ := FlushWriteBufferIfNeeded in
    rok segment.

Fixpoint append_entries (entries : list Entry) (segment : Z) : M WAL (Result unit) :=
  match entries with
  | [] => rok tt
  | entry :: entries =>
      try! segment := append_entry entry segment in
      append_entries entries segment
  end.

Definition Append (entries : list Entry) : M WAL (Result unit) :=
  match entries with
  | [] => rok tt
  | first_entry :: _ =>
      let! w := get in
      let expected_index := LastIndexUnlocked w +! 1 in
      try! _ :=
        (if e_index first_entry =? expected_index then rok tt
         else if (e_index first_entry <? expected_index) && (w_first_index_ w <=? e_index first_entry)
         then TruncateSuffixFrom (e_index first_entry)
         else rfail (EFatal "non-continuous entries: expected {}, got {}")) in
      try! segment := GetCurrentSegmentForAppend (e_index first_entry) in
      try! _ := append_entries entries segment in
      try! _ := FlushWriteBuffer in
      if wc_sync_on_write (w_config w) then on_manager SyncAll else rok tt
  end.

Definition SaveHardState (hs : HardState) : M WAL (Result unit) :=
  set! w_hard_state_ := hs ;;;
  let record := Build RtHardState (toBytes hs) in
  try! _ := FlushWriteBuffer in
  let! w := get in
  try! segment := GetCurrentSegmentForAppend (w_first_index_ w) in
  try! _ := on_manager (on_segment segment (Segment.Append record)) in
  try! _ := save_metadata in
  if wc_sync_on_write (w_config w) then on_manager SyncAll else rok tt.

Definition SaveConfState (cs : ConfState) : M WAL (Result unit) :=
  set! w_conf_state_ := cs ;;;
  save_metadata.

(** [WriteRecord] copies into the write buffer without a check that the record
    fits an empty buffer. *)
Definition WriteRecord (t : RecordType) (data : list Z) : M WAL (Result unit) :=
  let record := Build t data in
  let! w := get in
  let capacity := wc_write_buffer_size (w_config w) in
  try! _ := (if capacity <? zlen (w_write_buffer_ w) + zlen record then FlushWriteBuffer else rok tt) in
  let! w := get in
  if capacity <? zlen (w_write_buffer_ w) + zlen record then abort Undefined
  else
    set! w_write_buffer_ := (w_write_buffer_ w ++ record) ;;;
    rok tt.

Definition MaybeRollSegment : M WAL (Result unit) :=
  let! w := get in
  try! segment := on_manager (GetCurrentSegment (w_first_index_ w)) in
  let! full := on_manager (getsO (segment_get segment (IsFull (wc_segment_size (w_config w))))) in
  if full then
    try! _ := FlushWriteBuffer in
    let! w := get in
    try! _ := on_manager (RollToNewSegment (LastIndexUnlocked w +! 1)) in
    rok tt
  else rok tt.

(** ** Reading *)

(** The loop of [ReadEntries]; [result] holds the entries read so far. *)
Fixpoint read_entries (count : nat) (idx : Z) (max_size : option Z) (total_size : Z) (result : list Entry) :
    M WAL (Result (list Entry)) :=
  match count with
  | O => rok result
  | S count =>
      let! w := get in
      match ix_Lookup idx (w_index_ w), GetSegmentForIndex idx (w_manager w) with
      | Some entry_info, Some segment =>
          try! record_data := on_manager (on_segment segment (Read (ie_offset entry_info) (ie_length entry_info))) in
          match RecordParser record_data with
          | None => rfail (EStorage CorruptEntryRecord)
          | Some (_, payload) =>
              match fromPayload payload with
              | None => rfail (EStorage EntryParseError)
              | Some entry =>
                  let result := result ++ [entry] in
                  let total_size := u64 (total_size + zlen payload) in
                  match max_size with
                  | Some max =>
                      if max <=? total_size then rok result
                      else read_entries count (idx +! 1) max_size total_size result
                  | None => read_entries count (idx +! 1) max_size total_size result
                  end
              end
          end
      | _, _ => rfail (EStorage Unavailable)
      end
  end.

Definition ReadEntries (low high : Z) (max_size : option Z) : M WAL (Result (list Entry)) :=
  let! w := get in
  if low <? w_first_index_ w then rfail (EStorage Compacted)
  else
    let last_idx := LastIndexUnlocked w in
    if last_idx +! 1 <? low then rfail (EStorage Unavailable)
    else
      let high := if last_idx +! 1 <? high then last_idx +! 1 else high in
      if high <=? low then rok []
      else read_entries (Z.to_nat (high - low)) low max_size 0 [].

Definition wal_Term (index : Z) (w : WAL) : Result Z :=
  if (index =? w_snapshot_index_ w) && (0 <? w_snapshot_index_ w) then Ok (w_snapshot_term_ w)
  else if index <? w_first_index_ w then Err (EStorage Compacted)
  else match ix_Term index (w_index_ w) with
       | Some term => Ok term
       | None => Err (EStorage Unavailable)
       end.

Definition LogSizeBytes (w : WAL) : Z := u64 (TotalSizeBytes (w_manager w) + SizeBytes (w_disk w)).

Definition LoadSnapshot : M WAL (Result Snapshot) :=
  let! w := get in
  if w_snapshot_index_ w =? 0 then rfail (EStorage SnapshotTemporarilyUnavailable)
  else
    try! data := on_files (ReadFile kSnapshotFile) in
    match fromBytes data with
    | None => rfail (EStorageOther "failed to parse snapshot file")
    | Some snapshot =>
        if negb (sn_index snapshot =? w_snapshot_index_ w) || negb (sn_term snapshot =? w_snapshot_term_ w) then
          rfail (EStorageOther "snapshot file metadata mismatch: file=({},{}) wal=({},{})")
        else rok snapshot
    end.

(** ** Peer addresses *)

Definition SavePeerAddresses (peer_addresses : list PeerAddress) : M WAL (Result unit) :=
  set! w_peer_addresses_ := peer_addresses ;;;
  save_metadata.

(** The first address with this id gets the new address, or one is added. *)
Fixpoint upsert_peer (id : Z) (addr : string) (peers : list PeerAddress) : list PeerAddress :=
  match peers with
  | [] => [mkPeerAddress id addr]
  | p :: peers => if pa_id p =? id then mkPeerAddress (pa_id p) addr :: peers else p :: upsert_peer id addr peers
  end.

Definition UpsertPeerAddress (id : Z) (addr : string) : M WAL (Result unit) :=
  modify (fun w => w <| w_peer_addresses_ := upsert_peer id addr (w_peer_addresses_ w) |>) ;;;
  save_metadata.

Definition RemovePeerAddress (id : Z) : M WAL (Result unit) :=
  modify (fun w => w <| w_peer_addresses_ := filter (fun p => negb (pa_id p =? id) = true) (w_peer_addresses_ w) |>) ;;;
  save_metadata.

(** ** Compaction and snapshots *)

(** Whether an entry of the index in [[first, last]] is in segment [seg_id]. *)
Definition has_entries (first last seg_id : Z) (x : WALIndex) : bool :=
  existsb (fun idx => match ix_Lookup idx x with
                      | Some e => ie_segment_id e =? seg_id
                      | None => false
                      end) (seqZ first (last - first + 1)).

(** The removals of a compaction; a failure is only logged. *)
Definition remove_segments (segs : list Z) : M WAL unit :=
  foreach segs (fun seg_id => on_manager (RemoveSegment seg_id) ;;; ret tt).

Definition Compact (compact_index : Z) : M WAL (Result unit) :=
  let! w := get in
  if compact_index <=? w_first_index_ w then rok tt
  else
    let last_idx := LastIndexUnlocked w in
    if last_idx <? compact_index then rfail (EFatal "compact index {} > last index {}")
    else
      set! w_first_index_ := compact_index ;;;
      on_index (ix_TruncateBefore compact_index) ;;;
      let! w := get in
      let segments_to_remove :=
        fst <$> (filter (fun p => (sg_first_index_ p.2 <? compact_index) &&
                                  negb (has_entries (w_first_index_ w) last_idx p.1 (w_index_ w)) = true)
                   (mg_segments_ (w_manager w))) in
      try! _ := save_metadata in
      remove_segments segments_to_remove ;;;
      rok tt.

(** The hard state after a snapshot: not behind it. *)
Definition advance_hard_state (hs : HardState) (index term : Z) : HardState :=
  let hs := hs <| hs_term := Z.max (hs_term hs) term |> in
  if hs_commit hs <? index then hs <| hs_commit := index |> else hs.

(** The metadata a snapshot leads to, written before the state changes. *)
Definition save_snapshot_metadata (snapshot : Snapshot) (w : WAL) : M WAL (Result unit) :=
  let hs := advance_hard_state (w_hard_state_ w) (sn_index snapshot) (sn_term snapshot) in
  let cs := sm_conf_state (sn_meta snapshot) in
  on_files (Save (mkWALMetadata (Some hs) (Some cs) (w_peer_addresses_ w) (sn_index snapshot +! 1) (sn_index snapshot)
                    (sn_term snapshot))).

Definition adopt_snapshot (snapshot : Snapshot) : M WAL unit :=
  let! w := get in
  set! w_snapshot_index_ := sn_index snapshot ;;;
  set! w_snapshot_term_ := sn_term snapshot ;;;
  set! w_hard_state_ := advance_hard_state (w_hard_state_ w) (sn_index snapshot) (sn_term snapshot) ;;;
  set! w_conf_state_ := sm_conf_state (sn_meta snapshot).

Definition ApplySnapshot (snapshot : Snapshot) : M WAL (Result unit) :=
  let! w := get in
  if sn_index snapshot <=? w_snapshot_index_ w then rfail (EStorage SnapshotOutOfDate)
  else
    try! _ := on_files (PersistSnapshotFile snapshot) in
    try! _ := save_snapshot_metadata snapshot w in
    adopt_snapshot snapshot ;;;
    on_index ix_Clear ;;;
    set! w_first_index_ := (sn_index snapshot +! 1) ;;;
    on_index (ix_SetFirstIndex (sn_index snapshot +! 1)) ;;;
    on_manager RemoveAllSegments ;;;
    on_manager mg_Initialize.

Definition ApplyLocalSnapshot (snapshot : Snapshot) : M WAL (Result unit) :=
  let! w := get in
  if sn_index snapshot <=? w_snapshot_index_ w then rfail (EStorage SnapshotOutOfDate)
  else
    let last_idx := LastIndexUnlocked w in
    if last_idx <? sn_index snapshot then rfail (EFatal "local snapshot index {} > last index {}")
    else
      try! _ := on_files (PersistSnapshotFile snapshot) in
      try! _ := save_snapshot_metadata snapshot w in
      adopt_snapshot snapshot ;;;
      set! w_first_index_ := (sn_index snapshot +! 1) ;;;
      on_index (ix_TruncateBefore (sn_index snapshot +! 1)) ;;;
      on_index (ix_SetFirstIndex (sn_index snapshot +! 1)) ;;;
      let! w := get in
      let segments_to_remove :=
        filter (fun seg_id => negb (has_entries (w_first_index_ w) last_idx seg_id (w_index_ w)) = true)
          (mg_segments_ (w_manager w)).*1 in
      remove_segments segments_to_remove ;;;
      rok tt.

(** ** Recovery *)

(** An entry read back from a segment. *)
Definition replay_entry (entry : Entry) (segment_id offset total_size : Z) (message : string) : M WAL (Result unit) :=
  let! w := get in
  if w_first_index_ w <=? e_index entry then
    let expected_index := if ix_empty (w_index_ w) then w_first_index_ w else ix_last_index (w_index_ w) +! 1 in
    if negb (e_index entry =? expected_index) then rfail (EFatal message)
    else
      on_index (ix_Insert (e_index entry) segment_id offset total_size (e_term entry)) ;;;
      rok tt
  else rok tt.

(** The entries of a batch record. *)
Fixpoint replay_batch (fuel : nat) (pos : Z) (payload : list Z) (segment_id offset total_size : Z) : M WAL (Result unit) :=
  match fuel with
  | O => abort NoFuel
  | S fuel =>
      if pos <? zlen payload then
        if zlen payload <? pos + 4 then rok tt
        else
          let entry_len := of_le (sub pos 4 payload) in
          let pos := pos + 4 in
          if zlen payload <? pos + entry_len then rok tt
          else
            try! _ :=
              match fromPayload (sub pos entry_len payload) with
              | None => rok tt
              | Some entry => replay_entry entry segment_id offset total_size
                                "WAL recovery found non-continuous batch entry: expected {}, got {}"
              end in
            replay_batch fuel (pos + entry_len) payload segment_id offset total_size
      else rok tt
  end.

(** A record: the [switch] of [ReplaySegment]. *)
Definition replay_record (t : option RecordType) (payload : list Z) (segment_id offset total_size : Z) :
    M WAL (Result unit) :=
  match t with
  | Some RtEntry =>
      match fromPayload payload with
      | None => rok tt
      | Some entry => replay_entry entry segment_id offset total_size
                        "WAL recovery found non-continuous entry: expected {}, got {}"
      end
  | Some RtEntryBatch => replay_batch (S (length payload)) 0 payload segment_id offset total_size
  | Some RtHardState =>
      match fromPayload payload with
      | None => rok tt
      | Some hs =>
          let! w := get in
          when (hs_term (w_hard_state_ w) <=? hs_term hs) (set! w_hard_state_ := hs) ;;;
          rok tt
      end
  | None => rok tt
  end.

Fixpoint replay_loop (fuel : nat) (segment offset segment_size : Z) : M WAL (Result unit) :=
  match fuel with
  | O => abort NoFuel
  | S fuel =>
      let truncate := on_manager (on_segment segment (Truncate offset)) in
      if offset <? segment_size then
        if segment_size <? offset + sizeof_RecordHeader then truncate
        else
          try! header_data := on_manager (on_segment segment (Read offset sizeof_RecordHeader)) in
          let header := rh_Deserialize header_data in
          if (rh_length header =? 0) && (rh_type header =? 0) then truncate
          else
            let total_size := TotalSize header in
            if segment_size <? u64 (offset + total_size) then truncate
            else
              try! record_data := on_manager (on_segment segment (Read offset total_size)) in
              match RecordParser record_data with
              | None => truncate
              | Some (header, payload) =>
                  let! segment_id := on_manager (getsO (segment_get segment sg_segment_id_)) in
                  try! _ := replay_record (record_type (rh_type header)) payload segment_id offset total_size in
                  replay_loop fuel segment (u64 (offset + total_size)) segment_size
              end
      else rok tt
  end.

Definition ReplaySegment (segment : Z) : M WAL (Result unit) :=
  let! segment_size := on_manager (getsO (segment_get segment sg_write_offset_)) in
  replay_loop (S (Z.to_nat segment_size)) segment sizeof_SegmentHeader segment_size.

Definition Recover : M WAL (Result unit) :=
  try! meta := on_files Load in
  match wm_hard_state meta, wm_conf_state meta with
  | Some hs, Some cs =>
      set! w_hard_state_ := hs ;;;
      set! w_conf_state_ := cs ;;;
      set! w_peer_addresses_ := wm_peer_addresses meta ;;;
      set! w_first_index_ := wm_first_index meta ;;;
      set! w_snapshot_index_ := wm_snapshot_index meta ;;;
      set! w_snapshot_term_ := wm_snapshot_term meta ;;;
      when (0 <? wm_snapshot_index meta)
        (set! w_hard_state_ := advance_hard_state hs (wm_snapshot_index meta) (wm_snapshot_term meta)) ;;;
      on_index (ix_SetFirstIndex (wm_first_index meta)) ;;;
      let! segments := gets (fun w => ListSegments (w_manager w)) in
      try! _ := foreachM segments (fun seg_info =>
        let! w := get in
        match GetSegmentForIndex (si_first_index seg_info) (w_manager w) with
        | Some segment => ReplaySegment segment
        | None => rok tt
        end) in
      let! w := get in
      if LastIndexUnlocked w <? hs_commit (w_hard_state_ w) then
        rfail (EFatal "WAL inconsistent: last_index {} < committed {}")
      else rok tt
  | _, _ => abort Undefined
  end.

Definition wal_Initialize : M WAL (Result unit) :=
  try! _ := on_files Metadata.Initialize in
  try! _ := on_manager mg_Initialize in
  Recover.

(** [WAL::Open] on a directory. *)
Definition wal_Open (config : WALConfig) : M Disk (Result WAL) := fun d =>
  match SelectSegmentIoBackend config with
  | Err e => Ret (Err e, d)
  | Ok sel =>
      let wal := mkWAL (new_segment_manager d config (sel_io_factory sel)) new_index (sel_effective_backend sel)
                   (sel_note sel) empty_hard_state empty_conf_state [] 1 0 0 [] [] in
      match wal_Initialize wal with
      | Ret (Ok _, wal) => Ret (Ok wal, w_disk wal)
      | Ret (Err e, wal) => Ret (Err e, w_disk wal)
      | Abort f => Abort f
      end
  end.

Definition wal_Sync : M WAL (Result unit) :=
  try! _ := FlushWriteBuffer in
  on_manager SyncAll.

(** [Close], also run by the destructor: failures to flush and sync are only
    logged. *)
Definition wal_Close : M WAL (Result unit) :=
  FlushWriteBuffer ;;;
  on_manager SyncAll ;;;
  on_manager CloseAll.
End Wal.
