(* ===== verification/WalLog.v ===== *)
(** * The contents of a write-ahead log

    The abstract contents of the segments (their records), where the entries
    are, and the manager's operations on them. *)

From S2P Require Import Prelude Types Bytes Capnp Record WalIndex Disk Metadata Segment SegmentProps SegmentManager.

Lemma Forall2_elem_l {A B} (R : A -> B -> Prop) l k x : Forall2 R l k -> x ∈ l -> exists y, y ∈ k /\ R x y.
Proof.
  induction 1 as [|a b l k Hab _ IH]; intros Hx; [by apply elem_of_nil in Hx|].
  apply elem_of_cons in Hx as [->|Hx]; [exists b; split; [left|done]|].
  destruct (IH Hx) as (y & Hy & Hr). exists y. split; [by right|done].
Qed.

Lemma filter_all {A} (P : A -> Prop) `{!forall x, Decision (P x)} l : Forall P l -> filter P l = l.
Proof. induction 1 as [|x l Hx _ IH]; [done|]. rewrite filter_cons_True by done. by rewrite IH. Qed.

Lemma filter_ext_in {A} (P Q : A -> Prop) `{!forall x, Decision (P x), !forall x, Decision (Q x)} l :
  Forall (fun x => P x <-> Q x) l -> filter P l = filter Q l.
Proof.
  induction 1 as [|x l Hx _ IH]; [done|]. destruct (decide (P x)).
  - rewrite !filter_cons_True by tauto. by rewrite IH.
  - rewrite !filter_cons_False by tauto. done.
Qed.

(** ** Ordered maps *)

Lemma sorted_nodup (l : list Z) : StronglySorted Z.lt l -> NoDup l.
Proof.
  induction 1 as [|x l _ IH Hall]; constructor; [|done]. intros Hin. rewrite Forall_forall in Hall. specialize (Hall _ Hin). lia.
Qed.

Lemma smap_find_mid {T} (a b : list (Z * T)) k v : Forall (fun p => p.1 < k) a -> smap_find k (a ++ (k, v) :: b) = Some v.
Proof.
  induction a as [|[k' v'] a IH]; intros Ha; cbn; [by rewrite Z.eqb_refl|].
  apply Forall_cons in Ha as [Hk Ha]. cbn in Hk. rewrite (proj2 (Z.eqb_neq _ _)) by lia. by apply IH.
Qed.

Lemma smap_insert_mid {T} (a b : list (Z * T)) k v v' : Forall (fun p => p.1 < k) a ->
  smap_insert k v (a ++ (k, v') :: b) = a ++ (k, v) :: b.
Proof.
  induction a as [|[k' x] a IH]; intros Ha; cbn; [by rewrite Z.eqb_refl|].
  apply Forall_cons in Ha as [Hk Ha]. cbn in Hk. rewrite (proj2 (Z.eqb_neq _ _)), (proj2 (Z.ltb_ge _ _)) by lia.
  by rewrite IH.
Qed.

Lemma smap_insert_end {T} (a : list (Z * T)) k v : Forall (fun p => p.1 < k) a -> smap_insert k v a = a ++ [(k, v)].
Proof.
  induction a as [|[k' x] a IH]; intros Ha; cbn; [done|].
  apply Forall_cons in Ha as [Hk Ha]. cbn in Hk. rewrite (proj2 (Z.eqb_neq _ _)), (proj2 (Z.ltb_ge _ _)) by lia.
  by rewrite IH.
Qed.

Lemma smap_find_None {T} (a : list (Z * T)) k : Forall (fun p => p.1 <> k) a -> smap_find k a = None.
Proof.
  induction a as [|[k' x] a IH]; intros Ha; cbn; [done|].
  apply Forall_cons in Ha as [Hk Ha]. cbn in Hk. rewrite (proj2 (Z.eqb_neq _ _)) by lia. by apply IH.
Qed.

Lemma smap_erase_mid {T} (a b : list (Z * T)) k v : Forall (fun p => p.1 < k) a -> Forall (fun p => k < p.1) b ->
  smap_erase k (a ++ (k, v) :: b) = a ++ b.
Proof.
  intros Ha Hb. unfold smap_erase. rewrite filter_app, filter_cons_False by (cbn; rewrite Z.eqb_refl; done).
  assert (Hf : forall l, Forall (fun p : Z * T => p.1 <> k) l -> filter (fun p => negb (p.1 =? k) = true) l = l).
  { induction l as [|p l IH]; intros Hl; [done|]. apply Forall_cons in Hl as [Hp Hl].
    rewrite filter_cons_True; [by rewrite IH|]. by rewrite (proj2 (Z.eqb_neq _ _)). }
  rewrite !Hf; [done|..]; (eapply Forall_impl; [eassumption|]); intros; cbn in *; lia.
Qed.

Lemma smap_last_app {T} (a : list (Z * T)) k v : smap_last_key (a ++ [(k, v)]) = k.
Proof. unfold smap_last_key. by rewrite last_snoc. Qed.

(** ** Records *)

(** What follows the last whole record of a file is an [RTail]. *)
Inductive rec :=
| REntry (e : Entry)
| RHard (h : HardState)
| RTail (bytes : list Z).

(** The records of a segment. *)
Record aseg := mkASeg {
  as_id : Z;
  as_first : Z;
  as_recs : list rec
}.
#[export] Instance aseg_eta : Eta aseg := fun a => mkASeg (as_id a) (as_first a) (as_recs a).

Section WalLog.
Context {IO : Io} {PF : Platform} {CR : Crc} {CP : Capnp}.

Definition rec_bytes (r : rec) : list Z :=
  match r with
  | REntry e => Build RtEntry (toBytes e)
  | RHard h => Build RtHardState (toBytes h)
  | RTail bytes => bytes
  end.

Definition body (rs : list rec) : list Z := flat_map rec_bytes rs.

(** Records within the reader's limit. *)
Definition rec_ok (r : rec) : Prop :=
  match r with
  | REntry e => zlen (toBytes e) <= kTraversalLimit
  | RHard h => zlen (toBytes h) <= kTraversalLimit
  | RTail _ => True
  end.

Definition is_tail (r : rec) : bool := match r with RTail _ => true | _ => false end.

Lemma body_app a b : body (a ++ b) = body a ++ body b.
Proof. apply flat_map_app. Qed.

Lemma body_cons r rs : body (r :: rs) = rec_bytes r ++ body rs.
Proof. done. Qed.

Lemma fits_traversal {T} `{!Serializable T} (t : T) : zlen (toBytes t) <= kTraversalLimit -> fits_record (toBytes t).
Proof. unfold kTraversalLimit, fits_record. lia. Qed.

Lemma rec_size r : rec_ok r -> is_tail r = false -> 16 <= zlen (rec_bytes r) < 2 ^ 27.
Proof.
  intros Hr Ht. assert (Hs : forall t p, zlen p <= kTraversalLimit -> 16 <= zlen (Build t p) < 2 ^ 27).
  { intros t p Hp. rewrite Build_size by (unfold kTraversalLimit, fits_record in *; lia).
    pose proof (CalculatePadding_range (zlen p)). unfold sizeof_RecordHeader, kTraversalLimit in *. lia. }
  destruct r; [apply Hs, Hr..|done].
Qed.

Lemma entry_size e : rec_ok (REntry e) -> 16 <= zlen (rec_bytes (REntry e)) < 2 ^ 27.
Proof. intros Hr. by apply rec_size. Qed.

(** ** Where the entries are *)

Fixpoint places (id off : Z) (rs : list rec) : list (IndexEntry * Entry) :=
  match rs with
  | [] => []
  | r :: rs =>
      let rest := places id (off + zlen (rec_bytes r)) rs in
      match r with
      | REntry e => (mkIndexEntry id off (zlen (rec_bytes r)) (e_term e), e) :: rest
      | _ => rest
      end
  end.

Definition seg_places (a : aseg) : list (IndexEntry * Entry) := places (as_id a) sizeof_SegmentHeader (as_recs a).
Definition all_places (segs : list aseg) : list (IndexEntry * Entry) := flat_map seg_places segs.

(** The entries from index [first] on. *)
Definition live (first : Z) (segs : list aseg) : list (IndexEntry * Entry) :=
  filter (fun p => first <= e_index p.2) (all_places segs).

Definition log_of (first : Z) (segs : list aseg) : list Entry := (live first segs).*2.

Lemma places_app id off a b : places id off (a ++ b) = places id off a ++ places id (off + zlen (body a)) b.
Proof.
  revert off. induction a as [|r a IH]; intros off; cbn; [by rewrite Z.add_0_r|].
  rewrite IH. replace (off + zlen (rec_bytes r) + zlen (body a)) with (off + zlen (rec_bytes r ++ body a))
    by (rewrite length_app; lia).
  by destruct r.
Qed.

(** A place has a record at its offset. *)
Lemma places_split id off rs ie e : (ie, e) ∈ places id off rs ->
  exists a b, rs = a ++ REntry e :: b /\ ie = mkIndexEntry id (off + zlen (body a)) (zlen (rec_bytes (REntry e))) (e_term e).
Proof.
  revert off. induction rs as [|r rs IH]; intros off Hin; cbn in Hin; [by apply elem_of_nil in Hin|].
  assert (Hrest : (ie, e) ∈ places id (off + zlen (rec_bytes r)) rs -> exists a b, r :: rs = a ++ REntry e :: b /\
    ie = mkIndexEntry id (off + zlen (body a)) (zlen (rec_bytes (REntry e))) (e_term e)).
  { intros Hin'. destruct (IH _ Hin') as (a & b & -> & ->). exists (r :: a), b. split; [done|].
    rewrite body_cons, length_app. f_equal. lia. }
  destruct r as [e'|h|b]; [|by apply Hrest..]. apply elem_of_cons in Hin as [[= -> ->]|Hin]; [|by apply Hrest].
  exists [], rs. split; [done|]. cbn [body flat_map length]. f_equal. lia.
Qed.

Lemma all_places_app a b : all_places (a ++ b) = all_places a ++ all_places b.
Proof. apply flat_map_app. Qed.

Lemma live_app first a b : live first (a ++ b) = live first a ++ live first b.
Proof. unfold live. by rewrite all_places_app, filter_app. Qed.

(** Records added to the last segment. *)
Lemma live_push first l a rs :
  live first (l ++ [a <| as_recs := as_recs a ++ rs |>]) =
  live first (l ++ [a]) ++ filter (fun p => first <= e_index p.2) (places (as_id a) (sizeof_SegmentHeader + zlen (body (as_recs a))) rs).
Proof.
  rewrite !live_app, <- app_assoc. f_equal. unfold live, all_places. cbn [flat_map]. rewrite !app_nil_r.
  unfold seg_places. cbn -[sizeof_SegmentHeader]. by rewrite places_app, filter_app.
Qed.

Lemma places_hard id off hs : places id off [RHard hs] = [].
Proof. done. Qed.

(** ** Which segment a read goes to *)

Fixpoint route (index : Z) (segs : list aseg) (result : option Z) : option Z :=
  match segs with
  | [] => result
  | a :: segs => if as_first a <=? index then route index segs (Some (as_id a)) else result
  end.

(** Segments start at increasing indexes. *)
Definition starts_sorted (segs : list aseg) : Prop := StronglySorted Z.lt (as_first <$> segs).

Lemma route_app index a b result : Forall (fun s => as_first s <= index) a ->
  route index (a ++ b) result = route index b (match last a with Some s => Some (as_id s) | None => result end).
Proof.
  revert result. induction a as [|s a IH]; intros result Ha; [done|]. apply Forall_cons in Ha as [Hs Ha].
  cbn [app route]. rewrite (proj2 (Z.leb_le _ _) Hs), IH by done. rewrite last_cons. by destruct (last a).
Qed.

(** The segment before the first one that starts later. *)
Lemma route_mid index a s b : starts_sorted (a ++ s :: b) -> as_first s <= index ->
  (forall s', head b = Some s' -> index < as_first s') -> route index (a ++ s :: b) None = Some (as_id s).
Proof.
  intros Hs Hi Hb. replace (a ++ s :: b) with ((a ++ [s]) ++ b) by (by rewrite <- app_assoc).
  rewrite route_app, last_snoc.
  - destruct b as [|s' b]; [done|]. cbn. rewrite (proj2 (Z.leb_gt _ _)); [done|]. by apply Hb.
  - apply Forall_app. split; [|by constructor]. unfold starts_sorted in Hs. rewrite fmap_app in Hs.
    apply Forall_forall. intros x Hx. cbn in Hs.
    assert (as_first x < as_first s); [|lia].
    eapply StronglySorted_app_1_elem_of; [exact Hs|apply list_elem_of_fmap; eauto|left].
Qed.

(** ** The manager's invariant *)

(** A segment object of the manager for the abstract segment [a]. *)
Definition seg_of (a : aseg) (s : Segment) : Prop :=
  sg_segment_id_ s = as_id a /\ sg_first_index_ s = as_first a /\ sg_path_ s = MakeSegmentFilename (as_id a).

(** Its file holds the records, followed by [n] zeros. *)
Definition seg_file (d : Disk) (s : Segment) (a : aseg) (n : Z) : Prop :=
  seg_holds d s (body (as_recs a)) (zeros n) /\ 0 <= n /\ sizeof_SegmentHeader + zlen (body (as_recs a)) + n < 2 ^ 63.

Definition seg_rel (d : Disk) (p : Z * Segment) (a : aseg) : Prop :=
  p.1 = as_id a /\ seg_of a p.2 /\ exists n, seg_file d p.2 a n.

Record seg_ok (a : aseg) : Prop := {
  so_id : 0 < as_id a < 1000000;
  so_first : is_u64 (as_first a);
  so_recs : Forall rec_ok (as_recs a)
}.

Definition last_id (segs : list aseg) : Z := match last segs with Some a => as_id a | None => 0 end.

(** The directory has no other segment files. *)
Definition tidy (d : Disk) (segs : list aseg) : Prop :=
  forall name, is_Some (files d !! name) -> is_Some (ParseSegmentId name) -> name ∈ MakeSegmentFilename <$> (as_id <$> segs).

Record mg_ok (g : SegmentManager) (segs : list aseg) : Prop := {
  gk_segs : Forall2 (seg_rel (mg_disk g)) (mg_segments_ g) segs;
  gk_ok : Forall seg_ok segs;
  gk_ids : StronglySorted Z.lt (as_id <$> segs);
  gk_current : mg_current_segment_id_ g = last_id segs;
  gk_size : sizeof_SegmentHeader < wc_segment_size (mg_config_ g) < 2 ^ 62;
  gk_buffer : 0 <= wc_write_buffer_size (mg_config_ g) < 2 ^ 32;
  gk_dir : dir_exists (mg_disk g) = true;
  gk_tidy : io_fault \/ tidy (mg_disk g) segs
}.

(** What the operations on segments leave alone: configuration, backend, and
    the files that are not segments. *)
Record mg_frame (g g' : SegmentManager) : Prop := {
  gf_config : mg_config_ g' = mg_config_ g;
  gf_io : mg_io_factory_ g' = mg_io_factory_ g;
  gf_dir : dir_exists (mg_disk g') = dir_exists (mg_disk g);
  gf_files : forall name, ParseSegmentId name = None -> files (mg_disk g') !! name = files (mg_disk g) !! name
}.

#[export] Instance mg_frame_preorder : PreOrder mg_frame.
Proof.
  split; [by constructor|]. intros g1 g2 g3 [] []. constructor; try congruence.
  intros name Hn. rewrite gf_files1, gf_files0 by done. done.
Qed.

(** What a successful operation does. *)
Record steps (g : SegmentManager) (segs : list aseg) (g' : SegmentManager) (segs' : list aseg) : Prop := {
  st_ok : mg_ok g' segs';
  st_frame : mg_frame g g'
}.

Lemma steps_trans g1 s1 g2 s2 g3 s3 : steps g1 s1 g2 s2 -> steps g2 s2 g3 s3 -> steps g1 s1 g3 s3.
Proof. intros [] []. constructor; [done|by etransitivity]. Qed.

Lemma steps_refl g segs : mg_ok g segs -> steps g segs g segs.
Proof. by constructor. Qed.

Lemma parse_name a : seg_ok a -> ParseSegmentId (MakeSegmentFilename (as_id a)) = Some (as_id a).
Proof. intros []. rewrite parse_filename by lia. destruct (Z.ltb_spec (as_id a) 1000000); [done|lia]. Qed.

Lemma names_inj a b : seg_ok a -> seg_ok b ->
  MakeSegmentFilename (as_id a) = MakeSegmentFilename (as_id b) -> as_id a = as_id b.
Proof. intros Ha Hb E. apply parse_name in Ha, Hb. rewrite E in Ha. congruence. Qed.

(** The objects around one segment. *)
Lemma mg_split g l a r : mg_ok g (l ++ a :: r) -> exists ml s mr,
  mg_segments_ g = ml ++ (as_id a, s) :: mr /\ Forall2 (seg_rel (mg_disk g)) ml l /\ Forall2 (seg_rel (mg_disk g)) mr r /\
  seg_rel (mg_disk g) (as_id a, s) a /\ Forall (fun p => p.1 < as_id a) ml /\ Forall (fun p => as_id a < p.1) mr.
Proof.
  intros [Hs _ Hi _ _ _ _ _]. apply Forall2_app_inv_r in Hs as (ml & m2 & Hl & H2 & ->).
  apply Forall2_cons_inv_r in H2 as ([k s] & mr & Hrel & Hr & ->). pose proof Hrel as [Ek _]. cbn in Ek. subst k.
  rewrite fmap_app in Hi. apply StronglySorted_app in Hi as (Hlt & _ & Hi). cbn in Hi. apply StronglySorted_inv in Hi as [_ Hgt].
  exists ml, s, mr. split; [done|]. split; [done|]. split; [done|]. split; [done|]. split.
  - apply Forall_forall. intros p Hp. apply (Forall2_elem_l _ _ _ _ Hl) in Hp as (b & Hb & [Ep _]).
    rewrite Ep. apply Hlt; [apply list_elem_of_fmap; eauto|left].
  - apply Forall_forall. intros p Hp. apply (Forall2_elem_l _ _ _ _ Hr) in Hp as (b & Hb & [Ep _]).
    rewrite Ep. rewrite Forall_forall in Hgt. apply Hgt. apply list_elem_of_fmap. eauto.
Qed.

Lemma last_id_ids segs : last_id segs = default 0 (last (as_id <$> segs)).
Proof. unfold last_id. rewrite fmap_last. by destruct (last segs). Qed.

Lemma last_id_snoc l a : last_id (l ++ [a]) = as_id a.
Proof. unfold last_id. by rewrite last_snoc. Qed.

(** The manager after an operation on one segment. *)
Definition put_segment (id : Z) (c : SegCtx) (g : SegmentManager) : SegmentManager :=
  g <| mg_disk := sc_disk c |> <| mg_segments_ := smap_insert id (sc_seg c) (mg_segments_ g) |>.

Lemma wp_on_segment {A} g l a r (m : M SegCtx A) Q : mg_ok g (l ++ a :: r) ->
  (forall s n, seg_of a s -> seg_file (mg_disk g) s a n ->
     wp m (fun x c => Q x (put_segment (as_id a) c g)) (mkSegCtx (mg_disk g) s)) ->
  wp (on_segment (as_id a) m) Q g.
Proof.
  intros Hg Hm. destruct (mg_split g l a r Hg) as (ml & s & mr & Es & _ & _ & (_ & Hs & n & Hh) & Hlt & _).
  unfold wp, on_segment. rewrite Es, smap_find_mid by done. specialize (Hm s n Hs Hh). unfold wp in Hm.
  destruct (m _) as [[x c]|]; [|done]. unfold put_segment in Hm. by rewrite Es in Hm.
Qed.

Lemma segment_get_at {A} g l a r (f : Segment -> A) : mg_ok g (l ++ a :: r) ->
  exists s n, segment_get (as_id a) f g = Ret (f s) /\ seg_of a s /\ seg_file (mg_disk g) s a n.
Proof.
  intros Hg. destruct (mg_split g l a r Hg) as (ml & s & mr & Es & _ & _ & (_ & Hs & n & Hh) & Hlt & _).
  exists s, n. split; [|done]. unfold segment_get. by rewrite Es, smap_find_mid.
Qed.

Lemma seg_rel_only d d' p b name : only name d d' -> sg_path_ p.2 <> name -> seg_rel d p b -> seg_rel d' p b.
Proof. intros Ho Hn (Ek & Hs & n & Hh). split; [done|]. split; [done|]. exists n. destruct Hh. split; [by eapply seg_holds_only|done]. Qed.

Lemma seg_ok_mid g l a r : mg_ok g (l ++ a :: r) -> seg_ok a.
Proof. intros Hg. pose proof (gk_ok _ _ Hg) as Hok. apply Forall_app in Hok as [_ Hok]. by apply Forall_cons in Hok as [? _]. Qed.

(** Segments other than [a] do not notice a change of its file. *)
Lemma others_keep d d' a m k : only (MakeSegmentFilename (as_id a)) d d' -> seg_ok a -> Forall2 (seg_rel d) m k ->
  Forall (fun p => p.1 <> as_id a) m -> Forall seg_ok k -> Forall2 (seg_rel d') m k.
Proof.
  intros Ho Ha Hmk. induction Hmk as [|p b m k Hpb _ IH]; intros Hne Hk; [constructor|].
  apply Forall_cons in Hne as [Hp Hne]. apply Forall_cons in Hk as [Hb Hk]. constructor; [|by apply IH].
  pose proof Hpb as (Ek & (_ & _ & Ep) & _). eapply seg_rel_only; [exact Ho| |done].
  rewrite Ep. intros E. apply (names_inj _ _ Hb Ha) in E. congruence.
Qed.

Lemma tidy_put d d' l a r : only (MakeSegmentFilename (as_id a)) d d' -> tidy d (l ++ a :: r) -> tidy d' (l ++ a :: r).
Proof.
  intros [_ Ho] Ht name Hin Hp. destruct (decide (name = MakeSegmentFilename (as_id a))) as [->|Hne].
  - rewrite !fmap_app. apply elem_of_app. right. left.
  - rewrite Ho in Hin by done. by apply Ht.
Qed.

Lemma frame_only g g' a : seg_ok a -> only (MakeSegmentFilename (as_id a)) (mg_disk g) (mg_disk g') ->
  mg_config_ g' = mg_config_ g -> mg_io_factory_ g' = mg_io_factory_ g -> mg_frame g g'.
Proof.
  intros Ha [Hd Ho] Hc Hi. constructor; try done. intros name Hp. apply Ho. intros ->. by rewrite (parse_name _ Ha) in Hp.
Qed.

Lemma mg_ok_put g l a r a' c n : mg_ok g (l ++ a :: r) ->
  only (MakeSegmentFilename (as_id a)) (mg_disk g) (sc_disk c) -> as_id a' = as_id a -> seg_of a' (sc_seg c) ->
  seg_file (sc_disk c) (sc_seg c) a' n -> seg_ok a' -> steps g (l ++ a :: r) (put_segment (as_id a) c g) (l ++ a' :: r).
Proof.
  intros Hg Ho Ei Hs' Hh' Hok'. destruct (mg_split g l a r Hg) as (ml & s & mr & Es & Hl & Hr & _ & Hlt & Hgt).
  pose proof (seg_ok_mid _ _ _ _ Hg) as Hoka. pose proof Hg as [_ Hok Hids Hcur Hsz Hbf Hdir Htidy].
  assert (Eids : as_id <$> (l ++ a' :: r) = as_id <$> (l ++ a :: r)) by (rewrite !fmap_app; cbn; by rewrite Ei).
  apply Forall_app in Hok as [Hokl Hok2]. apply Forall_cons in Hok2 as [_ Hokr].
  split.
  - constructor; cbn [put_segment]; rewrite ?Eids; try done.
    + cbn. rewrite Es, smap_insert_mid by done. apply Forall2_app; [|constructor].
      * eapply others_keep; [exact Ho|done|done| |done]. eapply Forall_impl; [exact Hlt|]. cbn. lia.
      * split; [done|]. split; [done|]. by exists n.
      * eapply others_keep; [exact Ho|done|done| |done]. eapply Forall_impl; [exact Hgt|]. cbn. lia.
    + apply Forall_app. split; [done|]. by constructor.
    + cbn. rewrite Hcur, !last_id_ids. by rewrite Eids.
    + cbn. destruct Ho as [-> _]. done.
    + destruct Htidy as [|Ht]; [by left|right]. unfold tidy. rewrite Eids. by eapply tidy_put.
  - by eapply frame_only.
Qed.

(** Nothing changes but what the disk forgets. *)
Lemma mg_ok_same g l a r c n : mg_ok g (l ++ a :: r) -> same_files (mg_disk g) (sc_disk c) -> seg_of a (sc_seg c) ->
  seg_file (mg_disk g) (sc_seg c) a n -> steps g (l ++ a :: r) (put_segment (as_id a) c g) (l ++ a :: r).
Proof.
  intros Hg Hs Ha [Hh Hn]. eapply mg_ok_put; [exact Hg|by apply same_files_only|done|done| |by eapply seg_ok_mid].
  split; [by eapply seg_holds_same|done].
Qed.

Lemma mg_ok_disk g d' segs : mg_ok g segs -> same_files (mg_disk g) d' -> steps g segs (g <| mg_disk := d' |>) segs.
Proof.
  intros [Hs Hok Hids Hcur Hsz Hb Hdir Ht] Hd. pose proof Hd as [Ef Ed]. constructor.
  - constructor; cbn; try done.
    + eapply Forall2_impl; [exact Hs|]. intros p b (Ek & Ho & n & Hh & Hn).
      split; [done|]. split; [done|]. exists n. split; [by eapply seg_holds_same|done].
    + by rewrite Ed.
    + unfold tidy. by rewrite Ef.
  - constructor; cbn; try done. by rewrite Ef.
Qed.

(** ** Operations on one segment *)

Lemma mg_Append_spec g l a rs : mg_ok g (l ++ [a]) -> Forall rec_ok rs ->
  sizeof_SegmentHeader + zlen (body (as_recs a)) + zlen (body rs) < 2 ^ 63 ->
  wp (on_segment (as_id a) (Append (body rs))) (fun r g' =>
    match r with
    | Ok _ => steps g (l ++ [a]) g' (l ++ [a <| as_recs := as_recs a ++ rs |>])
    | Err e => io_error e
    end) g.
Proof.
  intros Hg Hrs Hb. eapply (wp_on_segment g l a []); [done|]. intros s n Hs [Hh Hn].
  pose proof (seg_ok_mid _ _ _ _ Hg) as Ha.
  eapply wp_mono; [eapply Append_spec; [exact Hh|unfold two64; lia]|].
  intros [[]|e] c [Ho Hr]; [|by destruct Hr]. destruct Hr as [Hh' Hmv].
  assert (Es : seg_of (a <| as_recs := as_recs a ++ rs |>) (sc_seg c)).
  { rewrite Hmv. exact Hs. }
  eapply mg_ok_put with (n := Z.max 0 (n - zlen (body rs))); [exact Hg| |done|exact Es| |].
  - by destruct Hs as (_ & _ & <-).
  - cbn -[body sizeof_SegmentHeader]. unfold seg_file. cbn -[body sizeof_SegmentHeader]. rewrite body_app, length_app. split; [|lia].
    replace (zeros (Z.max 0 (n - zlen (body rs)))) with (drop (length (body rs)) (zeros n)); [done|].
    unfold zeros. rewrite drop_replicate. f_equal. lia.
  - destruct Ha. constructor; cbn; try done. by apply Forall_app.
Qed.

Lemma mg_Sync_spec g l a r : mg_ok g (l ++ a :: r) ->
  wp (on_segment (as_id a) Sync) (fun res g' => steps g (l ++ a :: r) g' (l ++ a :: r) /\
    match res with Ok _ => True | Err e => io_error e end) g.
Proof.
  intros Hg. eapply wp_on_segment; [exact Hg|]. intros s n Hs Hh.
  eapply wp_mono; [apply Sync_spec, Hh|]. intros res c (Hd & Ec & Hr). cbv beta.
  split; [|done]. eapply mg_ok_same; [done|done|by rewrite Ec|by rewrite Ec].
Qed.

(** A read within the records. *)
Lemma mg_Read_spec g l a r off rs1 rs2 b1 len : mg_ok g (l ++ a :: r) -> as_recs a = rs1 ++ rs2 ->
  off = sizeof_SegmentHeader + zlen (body rs1) -> b1 = sub 0 len (body rs2) -> len = zlen b1 ->
  wp (on_segment (as_id a) (Read off len)) (fun res g' => steps g (l ++ a :: r) g' (l ++ a :: r) /\
    match res with
    | Ok data => data = b1
    | Err e => io_error e
    end) g.
Proof.
  intros Hg Er -> Eb El. eapply wp_on_segment; [exact Hg|]. intros s n Hs Hf. pose proof Hf as [Hh Hn].
  assert (Ed : sub (sizeof_SegmentHeader + zlen (body rs1)) len (seg_header s ++ body (as_recs a) ++ zeros n) = b1).
  { rewrite Er, body_app, <- app_assoc, app_assoc. rewrite sub_app_r by (rewrite length_app; pose proof (seg_header_length s); lia).
    replace (_ - _) with 0 by (rewrite length_app; pose proof (seg_header_length s); lia).
    rewrite sub_app_l; [done|lia|lia|]. rewrite El, Eb at 1. unfold sub. rewrite drop_0, length_take. lia. }
  eapply wp_mono; [eapply Read_spec, Hh|]. intros res c (Hd & Ec & Hr). cbv beta.
  split; [eapply mg_ok_same; [done|done|by rewrite Ec|by rewrite Ec]|]. rewrite Ed in Hr. destruct res; [by destruct Hr|]. by apply Hr.
Qed.

Lemma mg_Truncate_spec g l a r rs1 rs2 : mg_ok g (l ++ a :: r) -> as_recs a = rs1 ++ rs2 ->
  wp (on_segment (as_id a) (Truncate (sizeof_SegmentHeader + zlen (body rs1)))) (fun res g' =>
    match res with
    | Ok _ => steps g (l ++ a :: r) g' (l ++ a <| as_recs := rs1 |> :: r)
    | Err e => io_error e
    end) g.
Proof.
  intros Hg Er. eapply wp_on_segment; [exact Hg|]. intros s n Hs [Hh Hn]. rewrite Er, body_app in Hh.
  eapply wp_mono; [eapply Truncate_spec, Hh|]. intros [[]|e] c [Ho Hr]; [|by destruct Hr]. destruct Hr as [Hh' Hmv].
  pose proof (seg_ok_mid _ _ _ _ Hg) as Ha. rewrite Er, body_app, length_app in Hn.
  eapply mg_ok_put with (n := 0); [exact Hg|by destruct Hs as (_ & _ & <-)|done|rewrite Hmv; exact Hs| |].
  - split; [exact Hh'|]. cbn -[body sizeof_SegmentHeader]. lia.
  - destruct Ha as [? ? Hrec]. rewrite Er in Hrec. apply Forall_app in Hrec as [? _]. by constructor.
Qed.

(** ** The set of segments *)

Lemma ids_below_last segs : StronglySorted Z.lt (as_id <$> segs) -> Forall (fun a => as_id a <= last_id segs) segs.
Proof.
  intros Hs. apply Forall_forall. intros a Ha. destruct segs as [|x l _] using rev_ind; [by apply elem_of_nil in Ha|].
  rewrite last_id_snoc. apply elem_of_app in Ha as [Ha|Ha]; [|apply list_elem_of_singleton in Ha as ->; lia].
  rewrite fmap_app in Hs. apply Z.lt_le_incl.
  eapply StronglySorted_app_1_elem_of; [exact Hs|apply list_elem_of_fmap; eauto|left].
Qed.

Lemma mg_add g segs id first d' s n : mg_ok g segs -> id = last_id segs + 1 -> id < 1000000 -> 0 < id -> is_u64 first ->
  only (MakeSegmentFilename id) (mg_disk g) d' -> files (mg_disk g) !! MakeSegmentFilename id = None ->
  seg_of (mkASeg id first []) s -> seg_file d' s (mkASeg id first []) n ->
  steps g segs (g <| mg_disk := d' |> <| mg_segments_ := smap_insert id s (mg_segments_ g) |> <| mg_current_segment_id_ := id |>)
    (segs ++ [mkASeg id first []]).
Proof.
  intros Hg -> Hid Hp Hf Ho Hnew Hs Hh. pose proof Hg as [Hsg Hok Hids Hcur Hsz Hbf Hdir Htidy].
  set (id := last_id segs + 1) in *. pose proof (ids_below_last segs Hids) as Hle.
  assert (Ha : seg_ok (mkASeg id first [])) by (constructor; cbn; [lia|done|constructor]).
  assert (Hlt : Forall (fun p : Z * Segment => p.1 < id) (mg_segments_ g)).
  { apply Forall_forall. intros p Hpin. apply (Forall2_elem_l _ _ _ _ Hsg) in Hpin as (b & Hb & [Ek _]).
    rewrite Forall_forall in Hle. rewrite Ek. specialize (Hle b Hb). lia. }
  constructor; [|by apply (frame_only _ _ _ Ha)].
  constructor; cbn; try done.
  - rewrite smap_insert_end by done. apply Forall2_app; [|constructor; [|constructor]].
    + apply (others_keep (mg_disk g) _ (mkASeg id first [])); [done|done|done| |done]. eapply Forall_impl; [exact Hlt|]. cbn. lia.
    + split; [done|]. split; [done|]. by exists n.
  - apply Forall_app. split; [done|]. by constructor.
  - rewrite fmap_app. apply StronglySorted_app_2; [|done|by repeat constructor]. intros x y Hx Hy.
    apply list_elem_of_fmap in Hx as (b & -> & Hb). cbn in Hy. apply list_elem_of_singleton in Hy as ->.
    rewrite Forall_forall in Hle. specialize (Hle b Hb). lia.
  - by rewrite last_id_snoc.
  - destruct Ho as [-> _]. done.
  - destruct Htidy as [|Ht]; [by left|right]. intros name Hin Hk. rewrite !fmap_app. apply elem_of_app.
    destruct (decide (name = MakeSegmentFilename id)) as [->|Hne]; [right; left|left].
    destruct Ho as [_ Ho]. rewrite Ho in Hin by done. by apply Ht.
Qed.

(** The name of the next segment is free. *)
Lemma next_name_free g segs : mg_ok g segs -> 0 <= last_id segs -> last_id segs + 1 < 1000000 ->
  io_fault \/ files (mg_disk g) !! MakeSegmentFilename (last_id segs + 1) = None.
Proof.
  intros Hg Hp Hid. destruct (gk_tidy _ _ Hg) as [|Ht]; [by left|right]. destruct (files _ !! _) as [x|] eqn:E; [|done]. exfalso.
  assert (Ha : seg_ok (mkASeg (last_id segs + 1) 0 [])) by (constructor; cbn; [lia|done|constructor]).
  assert (Hin : MakeSegmentFilename (last_id segs + 1) ∈ MakeSegmentFilename <$> (as_id <$> segs)).
  { apply Ht; [by rewrite E|]. pose proof (parse_name _ Ha) as Hn. cbn in Hn. by rewrite Hn. }
  apply list_elem_of_fmap in Hin as (id & En & Hin). apply list_elem_of_fmap in Hin as (b & -> & Hb).
  pose proof (gk_ok _ _ Hg) as Hok. rewrite Forall_forall in Hok. apply (names_inj _ _ Ha (Hok b Hb)) in En. cbn in En.
  pose proof (ids_below_last _ (gk_ids _ _ Hg)) as Hle. rewrite Forall_forall in Hle. specialize (Hle b Hb). lia.
Qed.

Lemma last_id_nonneg g segs : mg_ok g segs -> 0 <= last_id segs.
Proof.
  intros Hg. destruct segs as [|x l _] using rev_ind; [done|]. rewrite last_id_snoc. pose proof (seg_ok_mid _ _ _ _ Hg) as []. lia.
Qed.

Lemma RollToNewSegment_spec g segs first : mg_ok g segs -> last_id segs + 1 < 1000000 -> is_u64 first ->
  wp (RollToNewSegment first) (fun r g' =>
    match r with
    | Ok id => id = last_id segs + 1 /\ steps g segs g' (segs ++ [mkASeg id first []])
    | Err e => io_error e
    end) g.
Proof.
  intros Hg Hid Hf. pose proof (last_id_nonneg _ _ Hg) as Hpos.
  unfold RollToNewSegment. wp_steps.
  eapply (wp_mono _ (fun _ g1 => steps g segs g1 segs)).
  { destruct segs as [|a l _] using rev_ind.
    - pose proof (gk_segs _ _ Hg) as E. apply Forall2_nil_inv_r in E. rewrite E. cbn. apply wp_ret. by apply steps_refl.
    - pose proof (gk_current _ _ Hg) as E. rewrite E, last_id_snoc.
      destruct (mg_split g l a [] Hg) as (ml & s & mr & Es & _ & _ & _ & Hlt & _).
      rewrite Es, smap_find_mid by done. wp_steps. eapply wp_mono; [by apply mg_Sync_spec|]. intros r g1 [Hst _]. by wp_steps. }
  intros _ g1 S1. pose proof (st_ok _ _ _ _ S1) as Hg1. wp_steps. rewrite (gk_current _ _ Hg1).
  rewrite (u64_id (last_id segs + 1)) by (unfold is_u64, two64; lia).
  unfold on_mg_disk. wp_steps. eapply wp_mono; [apply Create_spec|].
  intros [s|e] d' [Ho Hr].
  2: { destruct Hr as [Hm Hr]. split; [done|]. destruct (next_name_free _ _ Hg1) as [|Hn]; [done|done|done|].
       apply Hr; [apply (gk_dir _ _ Hg1)|done]. }
  destruct Hr as (Hnew & Es & n & Hn & Hh). wp_steps. split; [done|].
  pose proof (gk_size _ _ Hg1) as Hsz.
  eapply steps_trans; [exact S1|]. apply (mg_add g1 segs (last_id segs + 1) first d' s n); [exact Hg1|done|done|lia|done|exact Ho|exact Hnew| |].
  - rewrite Es. done.
  - split; [done|]. cbn. unfold sizeof_SegmentHeader in *. lia.
Qed.

(** The current segment, or a first one. *)
Lemma GetCurrentSegment_spec g segs hint : mg_ok g segs -> is_u64 hint ->
  wp (GetCurrentSegment hint) (fun r g' =>
    match r with
    | Ok id => exists segs', steps g segs g' segs' /\ id = last_id segs' /\ segs' <> [] /\
        segs' = match segs with [] => [mkASeg 1 hint []] | _ => segs end
    | Err e => io_error e
    end) g.
Proof.
  intros Hg Hh. unfold GetCurrentSegment. wp_steps. unfold mg_HasSegments.
  destruct segs as [|a l _] using rev_ind.
  - pose proof (gk_segs _ _ Hg) as E. apply Forall2_nil_inv_r in E. rewrite E. cbn [negb].
    eapply wp_mono; [by apply (RollToNewSegment_spec g [])|]. intros [id|e] g' Hr; [|done]. destruct Hr as [-> Hst].
    exists [mkASeg 1 hint []]. done.
  - destruct (mg_split g l a [] Hg) as (ml & s & mr & Es & _ & _ & _ & Hlt & _).
    assert (Hn : negb match mg_segments_ g with [] => false | _ => true end = false) by (rewrite Es; by destruct ml).
    rewrite Hn. rewrite (gk_current _ _ Hg), last_id_snoc, Es, smap_find_mid by done. wp_step.
    exists (l ++ [a]). split; [by apply steps_refl|]. split; [by rewrite last_id_snoc|]. split; [by destruct l|]. by destruct l.
Qed.

Lemma keys_ids d m segs : Forall2 (seg_rel d) m segs -> m.*1 = as_id <$> segs.
Proof. induction 1 as [|p b m k [Ep _] _ IH]; [done|]. rewrite !fmap_cons. by rewrite Ep, IH. Qed.

Lemma SyncAll_spec g segs : mg_ok g segs ->
  wp SyncAll (fun r g' => steps g segs g' segs /\ match r with Ok _ => True | Err e => io_error e end) g.
Proof.
  intros Hg. unfold SyncAll. wp_steps.
  rewrite (keys_ids _ _ _ (gk_segs _ _ Hg)).
  apply (wp_foreachM _ _ (fun ids g' => steps g segs g' segs /\ exists l r, segs = l ++ r /\ ids = as_id <$> r)).
  - split; [by apply steps_refl|]. by exists [], segs.
  - intros id ids g1 (S1 & l & r & Esg & Eid). destruct r as [|a r]; [done|]. cbn in Eid. injection Eid as -> ->.
    pose proof (st_ok _ _ _ _ S1) as Hg1. rewrite Esg in Hg1. eapply wp_mono; [by eapply mg_Sync_spec|].
    intros [[]|e] g2 [S2 Hr]; rewrite <- Esg in S2.
    + split; [by eapply steps_trans|]. exists (l ++ [a]), r. split; [by rewrite <- app_assoc|done].
    + split; [by eapply steps_trans|done].
  - by intros g1 [S1 _].
Qed.

(** ** Removing a segment *)

Lemma last_key_ids d m segs : Forall2 (seg_rel d) m segs -> smap_last_key m = last_id segs.
Proof.
  intros Hm. rewrite last_id_ids, <- (keys_ids _ _ _ Hm), fmap_last. unfold smap_last_key.
  by destruct (last m) as [[k s]|].
Qed.

(** The manager without the segment [a]; its file may still be there. *)
Definition without (a : aseg) (d' : Disk) (g : SegmentManager) : SegmentManager :=
  let m := smap_erase (as_id a) (mg_segments_ g) in
  g <| mg_disk := d' |> <| mg_segments_ := m |>
    <| mg_current_segment_id_ := if mg_current_segment_id_ g =? as_id a then smap_last_key m else mg_current_segment_id_ g |>.

Lemma mg_remove g l a r d' : mg_ok g (l ++ a :: r) -> only (MakeSegmentFilename (as_id a)) (mg_disk g) d' ->
  io_fault \/ files d' !! MakeSegmentFilename (as_id a) = None -> steps g (l ++ a :: r) (without a d' g) (l ++ r).
Proof.
  intros Hg Ho Hgone. destruct (mg_split g l a r Hg) as (ml & s & mr & Es & Hl & Hr & _ & Hlt & Hgt). pose proof (seg_ok_mid _ _ _ _ Hg) as Ha.
  pose proof Hg as [_ Hok Hids Hcur Hsz Hbf Hdir Htidy]. apply Forall_app in Hok as [Hokl Hok]. apply Forall_cons in Hok as [_ Hokr].
  assert (Hm : Forall2 (seg_rel d') (ml ++ mr) (l ++ r)).
  { apply (others_keep (mg_disk g) _ a); [done|done|by apply Forall2_app| |by apply Forall_app].
    apply Forall_app. split; (eapply Forall_impl; [eassumption|]); cbn; lia. }
  rewrite fmap_app in Hids. apply StronglySorted_app in Hids as (Hx & H1 & H2). cbn in H2. apply StronglySorted_inv in H2 as [H2 Hall].
  unfold without. rewrite Es, smap_erase_mid by done. split; [|by apply (frame_only _ _ _ Ha)].
  constructor; cbn; try done; [by apply Forall_app|..].
  - rewrite fmap_app. apply StronglySorted_app_2; [|done|done]. intros x y Hx1 Hy1. apply Hx; [done|]. by right.
  - rewrite Hcur. destruct r as [|b r _] using rev_ind.
    + rewrite last_id_snoc, Z.eqb_refl. by eapply last_key_ids.
    + replace (l ++ a :: r ++ [b]) with ((l ++ a :: r) ++ [b]) by (by rewrite <- app_assoc).
      rewrite last_id_snoc, app_assoc, last_id_snoc. rewrite (proj2 (Z.eqb_neq _ _)); [done|].
      rewrite Forall_forall in Hall. assert (as_id a < as_id b); [|lia]. apply Hall. rewrite fmap_app. apply elem_of_app. right. left.
  - destruct Ho as [-> _]. done.
  - destruct Htidy as [|Ht]; [by left|]. destruct Hgone as [|Hn]; [by left|right].
    destruct Ho as [_ Ho]. intros name Hin Hp. destruct (decide (name = MakeSegmentFilename (as_id a))) as [->|Hne].
    { rewrite Hn in Hin. by destruct Hin. }
    rewrite Ho in Hin by done. specialize (Ht name Hin Hp). rewrite !fmap_app in Ht. rewrite !fmap_app. apply elem_of_app in Ht as [Ht|Ht].
    + apply elem_of_app. by left.
    + cbn in Ht. apply elem_of_cons in Ht as [->|Ht]; [done|apply elem_of_app; by right].
Qed.

Lemma RemoveSegment_spec g l a r : mg_ok g (l ++ a :: r) ->
  wp (RemoveSegment (as_id a)) (fun res g' => steps g (l ++ a :: r) g' (l ++ r) /\
    match res with Ok _ => True | Err e => io_error e end) g.
Proof.
  intros Hg. destruct (mg_split g l a r Hg) as (ml & s & mr & Es & _ & _ & (_ & Hs & n & Hh) & Hlt & Hgt).
  unfold RemoveSegment. wp_steps. rewrite Es at 1. rewrite smap_find_mid by done. wp_step.
  eapply wp_on_segment; [exact Hg|]. intros s' n' Hs' [Hh' _].
  eapply wp_mono; [apply Close_spec; by destruct Hh'|]. intros rc c [Hsf _]. cbv beta.
  assert (Er : forall v, smap_erase (as_id a) (smap_insert (as_id a) v (mg_segments_ g)) = smap_erase (as_id a) (mg_segments_ g)).
  { intros v. rewrite Es, smap_insert_mid, !smap_erase_mid by done. done. }
  pose proof Hs as (_ & _ & Ep). cbn [snd] in Ep.
  assert (Hgo : wp (on_mg_disk (or_fail (sys_remove (sg_path_ s)) "failed to remove segment file: {}")) (fun res g' =>
      steps g (l ++ a :: r) g' (l ++ r) /\ match res with Ok _ => True | Err e => io_error e end) (without a (sc_disk c) g)).
  { unfold on_mg_disk. wp_step. apply wp_or_fail. unfold sys_remove. apply wp_call.
    - intros d1 Hd1 _. cbn in Hd1. set (d2 := d1 <| files := _ |>). split; [|done].
      change (without a (sc_disk c) g <| mg_disk := d2 |>) with (without a d2 g). apply mg_remove; [done| |].
      + destruct Hsf as [E1 E2], Hd1 as [E3 E4]. split; [cbn; congruence|]. intros name Hn. cbn.
        rewrite lookup_delete_ne by congruence. congruence.
      + right. cbn. rewrite Ep. apply lookup_delete_eq.
    - intros d1 st Hd1 Hst Hf. change (without a (sc_disk c) g <| mg_disk := d1 |>) with (without a d1 g). split.
      + apply mg_remove; [done| |left; by apply Hf]. apply same_files_only. etransitivity; [exact Hsf|exact Hd1].
      + destruct st; [done|by apply io_error_intro, Hf..]. }
  wp_steps. unfold when. cbn [put_segment mg_current_segment_id_ upd]. cbn -[smap_erase smap_insert]. rewrite Er.
  assert (Ew : forall g1, g1 = without a (sc_disk c) g -> wp (on_mg_disk (or_fail (sys_remove (sg_path_ s)) "failed to remove segment file: {}"))
    (fun res g' => steps g (l ++ a :: r) g' (l ++ r) /\ match res with Ok _ => True | Err e => io_error e end) g1) by (by intros g1 ->).
  destruct (mg_current_segment_id_ g =? as_id a) eqn:Ec; wp_steps; apply Ew; unfold without; rewrite Ec;
    cbn -[smap_erase]; rewrite ?Er; by destruct g.
Qed.

Lemma segment_for_index_route d m segs index r : Forall2 (seg_rel d) m segs -> segment_for_index index m r = route index segs r.
Proof.
  intros Hm. revert r. induction Hm as [|[k s] a m segs (Ek & (_ & Ef & _) & _) _ IH]; intros r; [done|].
  cbn in *. rewrite Ef, Ek. destruct (_ <=? _); [apply IH|done].
Qed.

Lemma GetSegmentForIndex_route g segs index : mg_ok g segs -> GetSegmentForIndex index g = route index segs None.
Proof. intros Hg. eapply segment_for_index_route, gk_segs, Hg. Qed.
End WalLog.
