(* ===== verification/WalProps.v ===== *)
(** * Appending to and reading from the write-ahead log

    The invariant that ties the in-memory index and the write buffer to the
    records in the segment files, and the behaviour of [Append] and
    [ReadEntries] on the log they represent. *)

From S2P Require Import Prelude Types Bytes Capnp Record WalIndex Disk Metadata Segment SegmentProps SegmentManager SnapshotFile Wal Storage WalLog.

Section WalProps.
Context {IO : Io} {PF : Platform} {CR : Crc} {CP : Capnp}.
Implicit Types w : WAL.

(** ** Invariant *)

(** The pending entries of a buffer. *)
Fixpoint pending (off : Z) (buf : list Entry) : list PendingEntry :=
  match buf with
  | [] => []
  | e :: buf =>
      let n := zlen (rec_bytes (REntry e)) in
      mkPendingEntry (e_index e) (e_term e) off n :: pending (off + n) buf
  end.

Definition w_size w : Z := wc_segment_size (w_config w).
Definition w_live w (segs : list aseg) : list (IndexEntry * Entry) := live (w_first_index_ w) segs.

(** The index the next entry in a segment gets. *)
Definition next_index w (segs : list aseg) : Z := w_first_index_ w + zlen (w_live w segs).

(** The bytes of a segment and of the buffer that goes to it. *)
Definition used (a : aseg) (buf : list Entry) : Z :=
  sizeof_SegmentHeader + zlen (body (as_recs a)) + zlen (body (REntry <$> buf)).

Record wal_mid w (segs : list aseg) (buf : list Entry) : Prop := {
  wm_mg : mg_ok (w_manager w) segs;
  wm_starts : starts_sorted segs;
  wm_next : Forall (fun a => as_first a <= next_index w segs) segs;
  wm_buffer : w_write_buffer_ w = body (REntry <$> buf);
  wm_pending : w_pending_entries_ w = pending 0 buf;
  wm_index : w_index_ w = mkWALIndex (w_first_index_ w) (w_live w segs).*1;
  wm_contig : contiguous (w_first_index_ w) ((w_live w segs).*2 ++ buf);
  wm_route : forall ie e, (ie, e) ∈ w_live w segs -> route (e_index e) segs None = Some (ie_segment_id ie);
  wm_offsets : forall ie e, (ie, e) ∈ w_live w segs -> ie_offset ie < w_size w;
  wm_room : forall b e, buf = b ++ [e] -> exists l a, segs = l ++ [a] /\ used a b < w_size w;
  wm_progress : forall l a, segs = l ++ [a] -> w_size w <= used a [] -> as_first a < next_index w segs;
  wm_bounds : 0 < w_first_index_ w /\ next_index w segs + zlen buf < u64max;
  wm_recs : Forall rec_ok (REntry <$> buf);
  wm_whole : Forall (fun a => Forall (fun r => is_tail r = false) (as_recs a)) segs
}.

(** The log: what is in the segments and what is in the buffer. *)
Definition w_log w (segs : list aseg) (buf : list Entry) : list Entry := (w_live w segs).*2 ++ buf.

(** What writing entries leaves alone. *)
Record wframe w w' : Prop := {
  wf_mg : mg_frame (w_manager w) (w_manager w');
  wf_hs : w_hard_state_ w' = w_hard_state_ w;
  wf_cs : w_conf_state_ w' = w_conf_state_ w;
  wf_peers : w_peer_addresses_ w' = w_peer_addresses_ w;
  wf_first : w_first_index_ w' = w_first_index_ w;
  wf_sidx : w_snapshot_index_ w' = w_snapshot_index_ w;
  wf_sterm : w_snapshot_term_ w' = w_snapshot_term_ w
}.

#[export] Instance wframe_preorder : PreOrder wframe.
Proof. split; [by constructor|]. intros w1 w2 w3 [] []. constructor; try congruence. by etransitivity. Qed.

(** A step of writing: from [segs] and [buf] to [segs'] and [buf']. *)
Record wsteps w (segs : list aseg) (buf : list Entry) w' (segs' : list aseg) (buf' : list Entry) : Prop := {
  ws_mid : wal_mid w' segs' buf';
  ws_frame : wframe w w'
}.

Lemma wsteps_trans w1 s1 b1 w2 s2 b2 w3 s3 b3 :
  wsteps w1 s1 b1 w2 s2 b2 -> wsteps w2 s2 b2 w3 s3 b3 -> wsteps w1 s1 b1 w3 s3 b3.
Proof. intros [] []. constructor; [done|by etransitivity]. Qed.

Lemma wsteps_refl w segs buf : wal_mid w segs buf -> wsteps w segs buf w segs buf.
Proof. by constructor. Qed.

(** The part of the invariant that looks at the manager only through its
    segments. *)
Lemma wal_mid_manager w segs buf g' : wal_mid w segs buf -> steps (w_manager w) segs g' segs ->
  wsteps w segs buf (w <| w_manager := g' |>) segs buf.
Proof.
  intros [] [Hok Hf]. assert (Ec : w_size (w <| w_manager := g' |>) = w_size w).
  { unfold w_size, w_config. cbn. by rewrite (gf_config _ _ Hf). }
  constructor; [|by constructor]. constructor; cbn; try done; rewrite ?Ec; try done.
Qed.

Lemma used_app a b c : used a (b ++ c) = used a b + zlen (body (REntry <$> c)).
Proof. unfold used. rewrite fmap_app, body_app, length_app. lia. Qed.

Lemma pending_app off a b : pending off (a ++ b) = pending off a ++ pending (off + zlen (body (REntry <$> a))) b.
Proof.
  revert off. induction a as [|e a IH]; intros off; cbn [app pending]; [by rewrite Z.add_0_r|].
  rewrite IH. rewrite fmap_cons, body_cons, length_app. do 3 f_equal. lia.
Qed.

(** ** Inserting the pending entries into the index *)

Lemma insert_pending id start buf off w first L : w_index_ w = mkWALIndex first L ->
  contiguous (first + zlen L) buf -> 0 < first -> first + zlen L + zlen buf < u64max ->
  0 <= start + off -> start + off + zlen (body (REntry <$> buf)) < 2 ^ 63 ->
  foreach (pending off buf) (fun p =>
    let actual_offset := u64 (start + pe_offset_in_buffer p) in
    on_index (ix_Insert (pe_index p) id actual_offset (pe_record_length p) (pe_term p))) w =
  Ret (tt, w <| w_index_ := mkWALIndex first (L ++ (places id (start + off) (REntry <$> buf)).*1) |>).
Proof.
  revert off w L. induction buf as [|e buf IH]; intros off w L Hx Hc Hf Hb Ho Hs; cbn [pending foreach].
  { cbn [places fmap list_fmap]. rewrite app_nil_r, <- Hx. by destruct w. }
  destruct Hc as [He Hc]. rewrite fmap_cons in Hs. rewrite body_cons, length_app in Hs. cbn [length] in Hb.
  set (n := zlen (rec_bytes (REntry e))) in *. unfold bind, on_index, zoom. cbn [pe_index pe_offset_in_buffer pe_record_length pe_term].
  rewrite Hx, ix_Insert_run; [|split; cbn; lia|cbn; lia]. cbn [ix_first_index_ ix_entries_].
  rewrite (u64_id (start + off)) by (unfold is_u64, two64; lia).
  set (w1 := w <| w_index_ := _ |>). specialize (IH (off + n) w1 (L ++ [mkIndexEntry id (start + off) n (e_term e)])).
  cbv zeta in IH. unfold on_index, zoom in IH. rewrite IH.
  - rewrite fmap_cons. cbn [places]. rewrite fmap_cons, <- app_assoc. cbn [app fst]. by rewrite Z.add_assoc.
  - done.
  - rewrite length_app. cbn [length]. by replace (first + Z.of_nat (length L + 1)) with (first + zlen L + 1) by lia.
  - done.
  - rewrite length_app. cbn [length]. lia.
  - lia.
  - lia.
Qed.

(** ** Entries reach the segment *)

Lemma places_entries id off es : (places id off (REntry <$> es)).*2 = es.
Proof. revert off. induction es as [|e es IH]; intros off; [done|]. rewrite fmap_cons. cbn [places]. rewrite fmap_cons. by rewrite IH. Qed.

Lemma places_length id off es : length (places id off (REntry <$> es)) = length es.
Proof. rewrite <- (length_fmap snd), places_entries. done. Qed.

Lemma contiguous_from first es : contiguous first es -> Forall (fun e => first <= e_index e) es.
Proof.
  revert first. induction es as [|e es IH]; intros first; [constructor|]. intros [He Hc]. constructor; [lia|].
  eapply Forall_impl; [by apply IH|]. cbn. lia.
Qed.

Lemma live_all first i id off es : first <= i -> contiguous i es ->
  filter (fun p => first <= e_index p.2) (places id off (REntry <$> es)) = places id off (REntry <$> es).
Proof.
  intros Hi Hc. apply contiguous_from in Hc. revert off Hc. induction es as [|e es IH]; intros off Hc; [done|].
  apply Forall_cons in Hc as [He Hc]. rewrite fmap_cons. cbn [places]. rewrite filter_cons_True by (cbn; lia). by rewrite IH.
Qed.

Lemma route_ext index segs segs' r : as_id <$> segs = as_id <$> segs' -> as_first <$> segs = as_first <$> segs' ->
  route index segs r = route index segs' r.
Proof.
  revert segs' r. induction segs as [|a segs IH]; intros [|a' segs'] r; try done.
  rewrite !fmap_cons. intros [= Ei E1] [= Ef E2]. cbn [route]. rewrite Ef, Ei. destruct (_ <=? _); [|done]. by apply IH.
Qed.

(** The state after [es] went to the last segment. *)
Definition pushed w (a : aseg) (es : list Entry) (segs : list aseg) (g' : SegmentManager) : WAL :=
  w <| w_manager := g' |>
    <| w_index_ := mkWALIndex (w_first_index_ w) ((w_live w segs).*1 ++
         (places (as_id a) (used a []) (REntry <$> es)).*1) |>.

Lemma used_nil a : used a [] = sizeof_SegmentHeader + zlen (body (as_recs a)).
Proof. unfold used. cbn. lia. Qed.

Lemma live_pushed w l a es i : w_first_index_ w <= i -> contiguous i es ->
  w_live w (l ++ [a <| as_recs := as_recs a ++ (REntry <$> es) |>]) =
  w_live w (l ++ [a]) ++ places (as_id a) (used a []) (REntry <$> es).
Proof. intros Hi Hc. unfold w_live. rewrite live_push, <- used_nil. by rewrite (live_all _ i). Qed.

Lemma used_prefix a b c : used a b <= used a (b ++ c).
Proof. rewrite used_app. lia. Qed.

Lemma wal_mid_push w l a es g' : wal_mid w (l ++ [a]) [] -> es <> [] ->
  steps (w_manager w) (l ++ [a]) g' (l ++ [a <| as_recs := as_recs a ++ (REntry <$> es) |>]) ->
  contiguous (next_index w (l ++ [a])) es -> next_index w (l ++ [a]) + zlen es < u64max ->
  (forall b e, es = b ++ [e] -> used a b < w_size w) ->
  wsteps w (l ++ [a]) [] (pushed w a es (l ++ [a]) g') (l ++ [a <| as_recs := as_recs a ++ (REntry <$> es) |>]) [].
Proof.
  intros Hw Hne [Hok Hf] Hc Hb Hr. pose proof Hw as []. set (a' := a <| as_recs := _ |>) in *.
  set (w' := pushed w a es (l ++ [a]) g').
  assert (Es : w_size w' = w_size w) by (unfold w_size, w_config; cbn; by rewrite (gf_config _ _ Hf)).
  assert (Hnx : w_first_index_ w <= next_index w (l ++ [a])) by (unfold next_index; lia).
  assert (El : w_live w' (l ++ [a']) = w_live w (l ++ [a]) ++ places (as_id a) (used a []) (REntry <$> es)).
  { exact (live_pushed w l a es _ Hnx Hc). }
  assert (En : next_index w' (l ++ [a']) = next_index w (l ++ [a]) + zlen es).
  { unfold next_index. rewrite El, length_app, places_length. cbn. lia. }
  assert (Hids : as_id <$> (l ++ [a']) = as_id <$> (l ++ [a])) by (by rewrite !fmap_app).
  assert (Hfs : as_first <$> (l ++ [a']) = as_first <$> (l ++ [a])) by (by rewrite !fmap_app).
  assert (Hst : starts_sorted (l ++ [a'])) by (unfold starts_sorted; by rewrite Hfs).
  assert (Hzes : 0 < zlen es) by (destruct es; [done|cbn; lia]).
  assert (Hnewp : forall ie e, (ie, e) ∈ places (as_id a) (used a []) (REntry <$> es) ->
    ie_segment_id ie = as_id a /\ next_index w (l ++ [a]) <= e_index e /\ ie_offset ie < w_size w).
  { intros ie e Hin. pose proof Hin as Hin2. apply places_split in Hin as (b & c & Ebc & ->). cbn [ie_segment_id ie_offset].
    split; [done|]. split.
    - apply contiguous_from in Hc. rewrite Forall_forall in Hc. apply Hc.
      rewrite <- (places_entries (as_id a) (used a []) es). apply list_elem_of_fmap. by exists (mkIndexEntry (as_id a) (used a [] + zlen (body b)) (zlen (rec_bytes (REntry e))) (e_term e), e).
    - apply fmap_app_inv in Ebc as (b1 & c1 & -> & Ec & ->). apply eq_sym, fmap_cons_inv in Ec as (e1 & c2 & [= <-] & -> & ->).
      destruct (exists_last (l := e :: c2)) as (c3 & e3 & E3); [done|].
      assert (used a (b1 ++ c3) < w_size w) by (eapply Hr; rewrite <- app_assoc; by f_equal).
      pose proof (used_prefix a b1 c3). pose proof (used_app a [] b1) as Hu. cbn [app] in Hu. lia. }
  constructor.
  - constructor; try rewrite Es; try done.
    + apply Forall_app in wm_next0 as [Hnl Hna]. rewrite En. apply Forall_app. split.
      * eapply Forall_impl; [exact Hnl|]. cbn. lia.
      * apply Forall_cons in Hna as [Hna _]. repeat constructor. cbn. lia.
    + rewrite El, fmap_app. done.
    + rewrite El, fmap_app, app_nil_r, places_entries. rewrite app_nil_r in wm_contig0. apply contiguous_app. split; [done|].
      by rewrite length_fmap.
    + intros ie e Hin. rewrite El in Hin. apply elem_of_app in Hin as [Hin|Hin].
      * rewrite (route_ext _ _ (l ++ [a])) by done. by apply wm_route0.
      * apply Hnewp in Hin as (-> & Hi & _). apply (route_mid _ l a' []); [done| |done]. cbn.
        apply Forall_app in wm_next0 as [_ Hna]. apply Forall_cons in Hna as [Hna _]. lia.
    + intros ie e Hin. rewrite El in Hin. apply elem_of_app in Hin as [Hin|Hin]; [by eapply wm_offsets0|].
      by apply Hnewp in Hin as (_ & _ & ?).
    + intros b e E. by destruct b.
    + intros l1 a1 E _. apply app_inj_tail in E as [<- <-]. rewrite En. cbn.
      apply Forall_app in wm_next0 as [_ Hna]. apply Forall_cons in Hna as [Hna _]. lia.
    + rewrite En. cbn [length]. split; [apply wm_bounds0|lia].
    + apply Forall_app in wm_whole0 as [Hwl Hwa]. apply Forall_app. split; [done|]. apply Forall_cons in Hwa as [Hwa _].
      constructor; [|done]. cbn. apply Forall_app. split; [done|]. apply Forall_fmap, Forall_forall. done.
  - by constructor.
Qed.

Lemma wal_mid_drop w segs buf : wal_mid w segs buf ->
  wal_mid (w <| w_pending_entries_ := [] |> <| w_write_buffer_ := [] |>) segs [].
Proof.
  intros []. constructor; cbn; try done.
  - rewrite app_nil_r. by apply contiguous_app in wm_contig0 as [? _].
  - intros b e E. by destruct b.
  - unfold next_index, w_live in *. cbn. split; [apply wm_bounds0|lia].
Qed.

Lemma wp_getsO {S A} (f : S -> outcome A) x Q (s : S) : f s = Ret x -> Q x s -> wp (getsO f) Q s.
Proof. unfold wp, getsO. by intros ->. Qed.

Lemma body_nonempty es : Forall rec_ok (REntry <$> es) -> es <> [] -> body (REntry <$> es) <> [].
Proof.
  destruct es as [|e es]; [done|]. rewrite fmap_cons. intros Hr _ E. apply Forall_cons in Hr as [Hr _].
  apply entry_size in Hr. rewrite body_cons in E. apply app_eq_nil in E as [E _]. rewrite E in Hr. cbn in Hr. lia.
Qed.

Lemma seg_bytes g l a r : mg_ok g (l ++ a :: r) -> used a [] < 2 ^ 63.
Proof.
  intros Hg. destruct (mg_split g l a r Hg) as (ml & s & mr & _ & _ & _ & (_ & _ & n & _ & Hn & Hb) & _). rewrite used_nil. lia.
Qed.

Lemma room_total w l a buf : wal_mid w (l ++ [a]) buf -> used a buf < 2 ^ 63.
Proof.
  intros Hw. pose proof Hw as []. destruct buf as [|e b _] using rev_ind; [by eapply seg_bytes|].
  destruct (wm_room0 b e eq_refl) as (l' & a' & E & Hu). apply app_inj_tail in E as [<- <-]. rewrite used_app.
  rewrite fmap_app in wm_recs0. apply Forall_app in wm_recs0 as [_ Hr]. apply Forall_cons in Hr as [Hr _].
  apply entry_size in Hr. cbn [fmap list_fmap body flat_map]. rewrite app_nil_r.
  pose proof (gk_size _ _ wm_mg0) as Hs. change (wc_segment_size (mg_config_ (w_manager w))) with (w_size w) in Hs. lia.
Qed.

Lemma FlushWriteBuffer_spec w l a buf : wal_mid w (l ++ [a]) buf ->
  wp FlushWriteBuffer (fun r w' =>
    match r with
    | Ok _ => let a' := a <| as_recs := as_recs a ++ (REntry <$> buf) |> in
              wsteps w (l ++ [a]) buf w' (l ++ [a']) [] /\ w_log w' (l ++ [a']) [] = w_log w (l ++ [a]) buf
    | Err e => io_error e
    end) w.
Proof.
  intros Hw. pose proof Hw as []. unfold FlushWriteBuffer. wp_steps. rewrite wm_buffer0.
  destruct (decide (buf = [])) as [->|Hne].
  { cbn [fmap list_fmap body flat_map]. wp_step. rewrite app_nil_r. destruct a as [id first recs]. cbn. split; [by apply wsteps_refl|done]. }
  pose proof (body_nonempty _ wm_recs0 Hne) as Hbn. destruct (body (REntry <$> buf)) as [|x xs] eqn:Eb; [done|]. rewrite <- Eb in *. clear Hbn.
  wp_step. unfold on_manager. wp_step. assert (Hfu : is_u64 (w_first_index_ w)).
  { destruct wm_bounds0. unfold next_index, is_u64, u64max, two64 in *. lia. }
  eapply wp_mono; [by eapply GetCurrentSegment_spec|]. intros [id|e] g1; [|done].
  intros (segs' & S1 & -> & _ & Esg). assert (segs' = l ++ [a]) as -> by (rewrite Esg; by destruct l). clear Esg.
  rewrite last_id_snoc. pose proof (st_ok _ _ _ _ S1) as Hg1. wp_steps. cbn [w_manager upd].
  destruct (segment_get_at g1 l a [] sg_write_offset_ Hg1) as (s & n & Eo & _ & Hh).
  eapply wp_getsO; [exact Eo|]. wp_steps. cbn.
  pose proof (room_total _ _ _ _ Hw) as Hrt. unfold used in Hrt.
  eapply wp_mono; [apply mg_Append_spec; [exact Hg1|done|lia]|].
  intros [[]|e] g2; [|done]. intros S2. wp_steps. cbn.
  destruct (segment_get_at g2 l _ [] sg_segment_id_ (st_ok _ _ _ _ S2)) as (s2 & n2 & Ei & (Ei2 & _) & _).
  cbn [as_id] in Ei. cbn in Ei, Ei2. eapply wp_getsO; [exact Ei|]. rewrite Ei2. wp_steps. unfold wp. cbn [w_pending_entries_ upd].
  rewrite wm_pending0. rewrite (sh_offset _ _ _ _ (proj1 Hh)), <- used_nil.
  rewrite (insert_pending (as_id a) (used a []) buf 0 _ (w_first_index_ w) (w_live w (l ++ [a])).*1).
  - pose proof (wal_mid_drop _ _ _ Hw) as Hd. rewrite Z.add_0_r. cbn -[used u64max].
    assert (Hpush : wsteps (w <| w_pending_entries_ := [] |> <| w_write_buffer_ := [] |>) (l ++ [a]) []
      (pushed (w <| w_pending_entries_ := [] |> <| w_write_buffer_ := [] |>) a buf (l ++ [a]) g2)
      (l ++ [a <| as_recs := as_recs a ++ (REntry <$> buf) |>]) []).
    { apply wal_mid_push; [done|done|by eapply steps_trans| | |].
      - apply contiguous_app in wm_contig0 as [_ Hc]. rewrite length_fmap in Hc. exact Hc.
      - apply wm_bounds0.
      - intros b e E. destruct (wm_room0 b e E) as (l' & a' & E' & Hu). by apply app_inj_tail in E' as [_ <-]. }
    destruct Hpush as [Hm Hf]. split; [split; [exact Hm|]|].
    + destruct Hf. by constructor.
    + unfold w_log. rewrite app_nil_r.
      pose proof (live_pushed w l a buf (next_index w (l ++ [a]))) as El. unfold w_live in *. cbn -[live] in *. rewrite El, fmap_app, places_entries; [done| |].
      * unfold next_index. lia.
      * apply contiguous_app in wm_contig0 as [_ Hc]. by rewrite length_fmap in Hc.
  - done.
  - apply contiguous_app in wm_contig0 as [_ Hc]. rewrite length_fmap in Hc. by rewrite length_fmap.
  - apply wm_bounds0.
  - rewrite length_fmap. apply wm_bounds0.
  - rewrite used_nil. unfold sizeof_SegmentHeader. lia.
  - rewrite used_nil. pose proof (gk_size _ _ wm_mg0). unfold w_size, w_config in *. lia.
Qed.

(** ** A new segment *)

Lemma route_snoc index l a r : index < as_first a -> route index (l ++ [a]) r = route index l r.
Proof.
  revert r. induction l as [|b l IH]; intros r Hi; cbn.
  - destruct (Z.leb_spec (as_first a) index); [lia|done].
  - destruct (_ <=? _); [by apply IH|done].
Qed.

Lemma live_new first segs a : as_recs a = [] -> live first (segs ++ [a]) = live first segs.
Proof. intros E. rewrite live_app. unfold live at 2, all_places. cbn. unfold seg_places. rewrite E. apply app_nil_r. Qed.

Lemma contiguous_below first es : contiguous first es -> Forall (fun e => e_index e < first + zlen es) es.
Proof.
  revert first. induction es as [|e es IH]; intros first; [constructor|]. intros [He Hc]. cbn [length]. constructor; [lia|].
  eapply Forall_impl; [by apply IH|]. cbn. lia.
Qed.

Lemma live_below w segs buf ie e : wal_mid w segs buf -> (ie, e) ∈ w_live w segs -> e_index e < next_index w segs.
Proof.
  intros [] Hin. apply contiguous_app in wm_contig0 as [Hc _]. apply contiguous_below in Hc. rewrite Forall_forall in Hc.
  rewrite length_fmap in Hc. apply Hc. apply list_elem_of_fmap. by exists (ie, e).
Qed.

Lemma starts_below w l a buf : wal_mid w (l ++ [a]) buf -> as_first a < next_index w (l ++ [a]) ->
  Forall (fun s => as_first s < next_index w (l ++ [a])) (l ++ [a]).
Proof.
  intros [] Ha. apply Forall_forall. intros x Hx. apply elem_of_app in Hx as [Hx|Hx]; [|by apply list_elem_of_singleton in Hx as ->].
  unfold starts_sorted in wm_starts0. rewrite fmap_app in wm_starts0.
  enough (as_first x < as_first a) by lia.
  eapply StronglySorted_app_1_elem_of; [exact wm_starts0|apply list_elem_of_fmap; eauto|left].
Qed.

Lemma wal_mid_new w segs id g' : wal_mid w segs [] -> Forall (fun s => as_first s < next_index w segs) segs ->
  steps (w_manager w) segs g' (segs ++ [mkASeg id (next_index w segs) []]) ->
  wsteps w segs [] (w <| w_manager := g' |>) (segs ++ [mkASeg id (next_index w segs) []]) [] /\
  w_log (w <| w_manager := g' |>) (segs ++ [mkASeg id (next_index w segs) []]) [] = w_log w segs [].
Proof.
  intros Hw Hlt [Hok Hf]. pose proof Hw as []. set (a := mkASeg id (next_index w segs) []) in *. set (w' := w <| w_manager := g' |>).
  assert (El : w_live w' (segs ++ [a]) = w_live w segs) by (by apply live_new).
  assert (En : next_index w' (segs ++ [a]) = next_index w segs) by (unfold next_index; by rewrite El).
  assert (Es : w_size w' = w_size w) by (unfold w_size, w_config; cbn; by rewrite (gf_config _ _ Hf)).
  split; [|unfold w_log; by rewrite El]. constructor; [|by constructor].
  constructor; rewrite ?El, ?En, ?Es; try done.
  - unfold starts_sorted. rewrite fmap_app. apply StronglySorted_app_2; [|done|by repeat constructor].
    intros x y Hx Hy. apply list_elem_of_fmap in Hx as (b & -> & Hb). cbn in Hy. apply list_elem_of_singleton in Hy as ->.
    rewrite Forall_forall in Hlt. by apply Hlt.
  - apply Forall_app. split; [|by repeat constructor]. eapply Forall_impl; [exact Hlt|]. cbn. lia.
  - intros ie e Hin. rewrite route_snoc; [by apply wm_route0|]. cbn. by eapply live_below.
  - intros b e E. by destruct b.
  - intros l1 a1 E Hfull. apply app_inj_tail in E as [_ <-]. rewrite used_nil in Hfull. cbn in Hfull.
    pose proof (gk_size _ _ wm_mg0) as Hs. change (wc_segment_size (mg_config_ (w_manager w))) with (w_size w) in Hs.
    unfold sizeof_SegmentHeader in *. lia.
  - apply Forall_app. split; [done|]. by repeat constructor.
Qed.

(** ** Rolling over *)

Lemma at_segment {A} w l a buf (f : Segment -> A) Q : wal_mid w (l ++ [a]) buf ->
  (forall s n, seg_of a s -> seg_file (mg_disk (w_manager w)) s a n -> Q (f s) w) ->
  wp (on_manager (getsO (segment_get (as_id a) f))) Q w.
Proof.
  intros Hw HQ. destruct (segment_get_at (w_manager w) l a [] f (wm_mg _ _ _ Hw)) as (s & n & Eo & Hs & Hh).
  unfold on_manager. apply wp_zoom. eapply wp_getsO; [exact Eo|]. replace (w <| w_manager := _ |>) with w by (by destruct w).
  by eapply HQ.
Qed.

(** Where writing goes on after a step that keeps the log: [used a' buf'] is
    below the segment size. *)
Definition ready w segs buf (id : Z) w' l' a' buf' : Prop :=
  wsteps w segs buf w' (l' ++ [a']) buf' /\ w_log w' (l' ++ [a']) buf' = w_log w segs buf /\
  id = as_id a' /\ used a' buf' < w_size w' /\ as_id a' <= last_id segs + 1.

Definition fit w segs buf : Prop := forall l a, segs = l ++ [a] -> buf <> [] -> used a buf < w_size w.

Lemma wsteps_size w segs buf w' segs' buf' : wsteps w segs buf w' segs' buf' -> w_size w' = w_size w.
Proof. intros [_ Hf]. unfold w_size, w_config. by rewrite (gf_config _ _ (wf_mg _ _ Hf)). Qed.

Lemma next_is_u64 w segs buf : wal_mid w segs buf -> is_u64 (next_index w segs).
Proof. intros [_ _ _ _ _ _ _ _ _ _ _ [? ?] _ _]. unfold next_index, is_u64, u64max, two64 in *. lia. Qed.

Lemma MaybeRollSegmentForAppend_spec w l a buf : wal_mid w (l ++ [a]) buf -> fit w (l ++ [a]) buf -> as_id a + 1 < 1000000 ->
  wp (MaybeRollSegmentForAppend (next_index w (l ++ [a]) + zlen buf) (as_id a)) (fun r w' =>
    match r with
    | Ok id => exists l' a' buf', ready w (l ++ [a]) buf id w' l' a' buf'
    | Err e => io_error e
    end) w.
Proof.
  intros Hw Hfit Hid. unfold MaybeRollSegmentForAppend. wp_steps. eapply at_segment; [exact Hw|]. intros s n _ Hh.
  unfold IsFull. rewrite (sh_offset _ _ _ _ (proj1 Hh)), <- used_nil. fold (w_size w).
  destruct (Z.leb_spec (w_size w) (used a [])) as [Hfull|Hroom]; cbn [negb].
  - assert (buf = []) as ->.
    { destruct buf as [|e b]; [done|]. specialize (Hfit l a eq_refl ltac:(done)). pose proof (used_prefix a [] (e :: b)) as Hp. cbn [app] in Hp. lia. }
    rewrite Z.add_0_r. wp_step. eapply wp_mono; [by apply FlushWriteBuffer_spec|]. intros [[]|e] w1; [|done].
    cbv zeta. intros [S1 El1]. replace (a <| as_recs := _ |>) with a in * by (destruct a; cbn; by rewrite app_nil_r).
    pose proof (ws_mid _ _ _ _ _ _ S1) as Hw1. pose proof (wsteps_size _ _ _ _ _ _ S1) as Es1.
    assert (En : next_index w1 (l ++ [a]) = next_index w (l ++ [a])).
    { unfold next_index, w_live. by rewrite (wf_first _ _ (ws_frame _ _ _ _ _ _ S1)). }
    unfold on_manager. wp_step. eapply wp_mono; [apply RollToNewSegment_spec; [by eapply wm_mg|by rewrite last_id_snoc|by eapply next_is_u64]|].
    intros [id|e] g'; [|done]. rewrite last_id_snoc. intros [-> St]. cbv beta iota.
    rewrite <- En in St. destruct (wal_mid_new w1 (l ++ [a]) (as_id a + 1) g' Hw1) as [S2 El2]; [|exact St|].
    + eapply starts_below; [done|]. eapply (wm_progress _ _ _ Hw1); [done|]. by rewrite Es1.
    + exists (l ++ [a]), (mkASeg (as_id a + 1) (next_index w1 (l ++ [a])) []), []. split; [by eapply wsteps_trans|].
      split; [by rewrite El2|]. split; [done|]. split; [|rewrite last_id_snoc; cbn; lia].
      rewrite (wsteps_size _ _ _ _ _ _ S2). pose proof (gk_size _ _ (wm_mg _ _ _ Hw1)) as Hs.
      change (wc_segment_size (mg_config_ (w_manager w1))) with (w_size w1) in Hs. rewrite used_nil. cbn -[sizeof_SegmentHeader]. lia.
  - wp_step. exists l, a, buf. split; [by apply wsteps_refl|]. split; [done|]. split; [done|]. split; [|rewrite last_id_snoc; lia].
    destruct (decide (buf = [])) as [->|Hne]; [done|]. by apply (Hfit l).
Qed.

Lemma MaybeRoll_room w l a buf first_index Q : wal_mid w (l ++ [a]) buf -> used a [] < w_size w -> Q (Ok (as_id a)) w ->
  wp (MaybeRollSegmentForAppend first_index (as_id a)) Q w.
Proof.
  intros Hw Hroom HQ. unfold MaybeRollSegmentForAppend. wp_steps. eapply at_segment; [exact Hw|]. intros s n _ Hh.
  unfold IsFull. rewrite (sh_offset _ _ _ _ (proj1 Hh)), <- used_nil. fold (w_size w).
  destruct (Z.leb_spec (w_size w) (used a [])); [lia|]. cbn [negb]. by wp_step.
Qed.

Lemma new_room w id first : sizeof_SegmentHeader < w_size w -> used (mkASeg id first []) [] < w_size w.
Proof. intros Hs. rewrite used_nil. cbn -[sizeof_SegmentHeader]. lia. Qed.

Lemma size_room w segs buf : wal_mid w segs buf -> sizeof_SegmentHeader < w_size w < 2 ^ 62.
Proof. intros Hw. apply (gk_size _ _ (wm_mg _ _ _ Hw)). Qed.

(** The current segment exists: it is the last one. *)
Lemma on_current w l a buf hint (Q : Result Z -> WAL -> Prop) : wal_mid w (l ++ [a]) buf -> is_u64 hint ->
  (forall w', wsteps w (l ++ [a]) buf w' (l ++ [a]) buf -> w_log w' (l ++ [a]) buf = w_log w (l ++ [a]) buf -> Q (Ok (as_id a)) w') ->
  (forall e w', io_error e -> Q (Err e) w') ->
  wp (on_manager (GetCurrentSegment hint)) Q w.
Proof.
  intros Hw Hh HQ He. unfold on_manager. apply wp_zoom. eapply wp_mono; [by eapply GetCurrentSegment_spec; [eapply wm_mg|]|].
  intros [id|e] g'; [|by apply He]. intros (segs' & St & -> & _ & Esg). assert (segs' = l ++ [a]) as -> by (rewrite Esg; by destruct l).
  rewrite last_id_snoc. apply HQ; [by apply wal_mid_manager|done].
Qed.

Lemma GetCurrentSegmentForAppend_spec w segs buf : wal_mid w segs buf -> fit w segs buf -> last_id segs + 1 < 1000000 ->
  wp (GetCurrentSegmentForAppend (next_index w segs + zlen buf)) (fun r w' =>
    match r with
    | Ok id => exists l' a' buf', ready w segs buf id w' l' a' buf'
    | Err e => io_error e
    end) w.
Proof.
  intros Hw Hfit Hid. unfold GetCurrentSegmentForAppend. wp_step.
  assert (Hu : is_u64 (next_index w segs + zlen buf)).
  { pose proof (wm_bounds _ _ _ Hw). unfold next_index, is_u64, u64max, two64 in *. lia. }
  destruct segs as [|a l _] using rev_ind.
  - assert (buf = []) as ->.
    { destruct buf as [|e b _] using rev_ind; [done|]. destruct (wm_room _ _ _ Hw b e eq_refl) as (l & a & E & _). by destruct l. }
    rewrite Z.add_0_r in *. unfold on_manager. wp_step. eapply wp_mono; [by eapply GetCurrentSegment_spec; [eapply wm_mg|]|].
    intros [id|e] g'; [|done]. intros (segs' & St & -> & _ & ->). cbv beta iota.
    destruct (wal_mid_new w [] 1 g' Hw) as [S2 El2]; [constructor|exact St|].
    pose proof (ws_mid _ _ _ _ _ _ S2) as Hw2. destruct (size_room _ _ _ Hw2) as [Hs2 _].
    eapply (MaybeRoll_room _ [] (mkASeg 1 (next_index w []) []) []); [exact Hw2|by apply new_room|].
    exists [], (mkASeg 1 (next_index w []) []), []. split; [done|]. split; [done|]. split; [done|]. split; [by apply new_room|done].
  - eapply on_current; [exact Hw|exact Hu| |done]. intros w1 S1 El1.
    assert (En : next_index w (l ++ [a]) = next_index w1 (l ++ [a])).
    { unfold next_index, w_live. by rewrite (wf_first _ _ (ws_frame _ _ _ _ _ _ S1)). }
    rewrite last_id_snoc in Hid. rewrite En. eapply wp_mono; [apply MaybeRollSegmentForAppend_spec; [apply S1| |done]|].
    + intros l1 a1 E Hb. rewrite (wsteps_size _ _ _ _ _ _ S1). by eapply Hfit.
    + intros [id|e] w2; [|done]. intros (l2 & a2 & b2 & S2 & El2 & E2 & Hu2 & Hi2). exists l2, a2, b2.
      split; [by eapply wsteps_trans|]. split; [by rewrite El2|]. done.
Qed.

(** ** Into the buffer *)

Lemma wal_mid_buffer w l a buf e : wal_mid w (l ++ [a]) buf -> used a buf < w_size w ->
  e_index e = next_index w (l ++ [a]) + zlen buf -> rec_ok (REntry e) -> e_index e + 1 < u64max ->
  zlen (body (REntry <$> buf)) + zlen (rec_bytes (REntry e)) < 2 ^ 32 ->
  let w' := w <| w_write_buffer_ := w_write_buffer_ w ++ rec_bytes (REntry e) |>
              <| w_pending_entries_ := w_pending_entries_ w ++ [mkPendingEntry (e_index e) (e_term e)
                   (u32 (zlen (w_write_buffer_ w))) (u32 (zlen (rec_bytes (REntry e))))] |> in
  wsteps w (l ++ [a]) buf w' (l ++ [a]) (buf ++ [e]).
Proof.
  intros Hw Hu Hi Hr Hb Hc w'. pose proof Hw as []. constructor; [|by constructor].
  assert (El : w_live w' (l ++ [a]) = w_live w (l ++ [a])) by done.
  constructor; try done.
  - cbn -[body]. rewrite wm_buffer0, fmap_app, body_app. f_equal. cbn. by rewrite app_nil_r.
  - cbn -[body rec_bytes]. rewrite wm_pending0, wm_buffer0, pending_app. f_equal. rewrite Z.add_0_l.
    rewrite !is_u32_u32 by (unfold is_u32, two32; lia). done.
  - change (w_first_index_ w') with (w_first_index_ w). rewrite El, app_assoc. apply contiguous_app. split; [done|]. rewrite length_app, length_fmap.
    split; [|done]. rewrite Hi. unfold next_index. lia.
  - intros b e' E. apply app_inj_tail in E as [<- <-]. by exists l, a.
  - change (next_index w' (l ++ [a])) with (next_index w (l ++ [a])). split; [apply wm_bounds0|].
    rewrite length_app. cbn [length]. lia.
  - rewrite fmap_app. apply Forall_app. split; [done|]. by constructor.
Qed.

(** ** One entry *)

(** Flushing keeps the log and what the last segment and the buffer take up. *)
Lemma flush_keeps w l a buf : wal_mid w (l ++ [a]) buf ->
  wp FlushWriteBuffer (fun r w' =>
    match r with
    | Ok _ => exists a', wsteps w (l ++ [a]) buf w' (l ++ [a']) [] /\ w_log w' (l ++ [a']) [] = w_log w (l ++ [a]) buf /\
                as_id a' = as_id a /\ used a' [] = used a buf
    | Err e => io_error e
    end) w.
Proof.
  intros Hw. eapply wp_mono; [by apply FlushWriteBuffer_spec|]. intros [[]|e] w'; [|done]. cbv zeta. intros [S1 El].
  eexists. split; [exact S1|]. split; [exact El|]. split; [done|]. rewrite used_nil. unfold used. cbn -[body sizeof_SegmentHeader].
  rewrite body_app, length_app. lia.
Qed.

(** After writing [es]; [n] segments were added at most. *)
Definition grown w segs buf (es : list Entry) (n : Z) (id : Z) w' : Prop := exists l' a' buf',
  wsteps w segs buf w' (l' ++ [a']) buf' /\ w_log w' (l' ++ [a']) buf' = w_log w segs buf ++ es /\
  id = as_id a' /\ fit w' (l' ++ [a']) buf' /\ as_id a' <= last_id segs + n.

Lemma fit_nil w segs : fit w segs [].
Proof. by intros l a _ ?. Qed.

Lemma next_index_step w segs buf w' segs' buf' : wsteps w segs buf w' segs' buf' -> w_log w' segs' buf' = w_log w segs buf ->
  next_index w' segs' + zlen buf' = next_index w segs + zlen buf.
Proof.
  intros S1 El. apply (f_equal length) in El. unfold w_log in El. rewrite !length_app, !length_fmap in El. unfold next_index.
  rewrite (wf_first _ _ (ws_frame _ _ _ _ _ _ S1)). lia.
Qed.

Lemma wp_insert w first L i sid off len t Q : w_index_ w = mkWALIndex first L -> 0 < first -> i = first + zlen L -> i < u64max ->
  Q tt (w <| w_index_ := mkWALIndex first (L ++ [mkIndexEntry sid off len t]) |>) -> wp (on_index (ix_Insert i sid off len t)) Q w.
Proof.
  intros Ex Hf Hi Hb HQ. unfold wp, on_index, zoom. rewrite Ex, ix_Insert_run; [exact HQ| |done]. split; cbn -[u64max]; lia.
Qed.

(** A record too large for the buffer goes straight to the segment. *)
Lemma append_directly w l a e : wal_mid w (l ++ [a]) [] -> used a [] < w_size w -> e_index e = next_index w (l ++ [a]) ->
  rec_ok (REntry e) -> e_index e + 1 < u64max ->
  wp (let! record_offset := on_manager (getsO (segment_get (as_id a) sg_write_offset_)) in
      try! _ := on_manager (on_segment (as_id a) (Segment.Append (Build RtEntry (toBytes e)))) in
      let! segment_id := on_manager (getsO (segment_get (as_id a) sg_segment_id_)) in
      on_index (ix_Insert (e_index e) segment_id record_offset (u32 (zlen (Build RtEntry (toBytes e)))) (e_term e)) ;;;
      rok (as_id a)) (fun r w' =>
    match r with
    | Ok id => grown w (l ++ [a]) [] [e] 0 id w'
    | Err e => io_error e
    end) w.
Proof.
  intros Hw Hu Hi Hr Hb. pose proof (entry_size _ Hr) as Hsz. wp_step. eapply at_segment; [exact Hw|]. intros s n _ Hh.
  rewrite (sh_offset _ _ _ _ (proj1 Hh)), <- used_nil. wp_step. unfold on_manager. wp_step.
  replace (Build RtEntry (toBytes e)) with (body [REntry e]) at 1 by (cbn; by rewrite app_nil_r).
  eapply wp_mono; [apply mg_Append_spec; [by eapply wm_mg|by constructor|]|].
  { cbn [body flat_map]. rewrite app_nil_r, <- used_nil. pose proof (gk_size _ _ (wm_mg _ _ _ Hw)) as Hs.
    change (wc_segment_size (mg_config_ (w_manager w))) with (w_size w) in Hs. lia. }
  intros [[]|e'] g'; [|done]. intros S1. wp_step. wp_step. cbn -[Build].
  destruct (segment_get_at g' l _ [] sg_segment_id_ (st_ok _ _ _ _ S1)) as (s2 & n2 & Ei & (Ei2 & _) & _).
  cbn in Ei, Ei2. eapply wp_getsO; [exact Ei|]. rewrite Ei2. wp_step. pose proof Hw as [].
  eapply wp_insert; [exact wm_index0|apply wm_bounds0|by rewrite length_fmap|lia|]. wp_step.
  rewrite is_u32_u32 by (unfold is_u32, two32; cbn [rec_bytes] in Hsz; lia).
  assert (S2 : wsteps w (l ++ [a]) [] (pushed w a [e] (l ++ [a]) g') (l ++ [a <| as_recs := as_recs a ++ (REntry <$> [e]) |>]) []).
  { apply wal_mid_push; [done|done|exact S1|by split|cbn [length]; lia|]. intros b e1 E. destruct b as [|? [|]]; [done|done..]. }
  exists l, (a <| as_recs := as_recs a ++ (REntry <$> [e]) |>), []. split; [exact S2|].
  split; [|split; [done|]; split; [apply fit_nil|rewrite last_id_snoc; cbn; lia]].
  unfold w_log. rewrite !app_nil_r. transitivity ((w_live w (l ++ [a <| as_recs := as_recs a ++ (REntry <$> [e]) |>])).*2); [done|].
  rewrite (live_pushed w l a [e] (e_index e)), fmap_app, places_entries; [done| |by split].
  rewrite Hi. unfold next_index. lia.
Qed.

Lemma first_u64 w segs buf : wal_mid w segs buf -> is_u64 (w_first_index_ w).
Proof. intros [_ _ _ _ _ _ _ _ _ _ _ [? ?] _ _]. unfold next_index, is_u64, u64max, two64 in *. lia. Qed.

Lemma FlushWriteBufferIfNeeded_spec w l a buf : wal_mid w (l ++ [a]) buf ->
  wp FlushWriteBufferIfNeeded (fun r w' =>
    match r with
    | Ok _ => exists a' buf', wsteps w (l ++ [a]) buf w' (l ++ [a']) buf' /\ fit w' (l ++ [a']) buf' /\
                w_log w' (l ++ [a']) buf' = w_log w (l ++ [a]) buf /\ as_id a' = as_id a
    | Err e => io_error e
    end) w.
Proof.
  intros Hw. unfold FlushWriteBufferIfNeeded. wp_steps. eapply on_current; [exact Hw|by eapply first_u64| |done].
  intros w1 S1 El1. pose proof (ws_mid _ _ _ _ _ _ S1) as Hw1. wp_step.
  destruct (segment_get_at (w_manager w1) l a [] sg_write_offset_ (wm_mg _ _ _ Hw1)) as (s & n & Eo & _ & Hh).
  assert (Hs : exists b, ShouldFlushBuffer (as_id a) w1 = Ret b /\ (b = false -> used a buf < w_size w1)).
  { unfold ShouldFlushBuffer. fold (w_size w1). rewrite (wm_buffer _ _ _ Hw1). destruct (_ <=? _); [by exists true|].
    rewrite Eo. cbn [obind]. rewrite (sh_offset _ _ _ _ (proj1 Hh)), <- used_nil. eexists. split; [done|]. intros Hf. apply Z.leb_gt in Hf.
    destruct (Z.ltb_spec (used a []) (w_size w1)); rewrite used_nil in *; unfold used; lia. }
  destruct Hs as (b & Eb & Hb). eapply wp_getsO; [exact Eb|]. destruct b.
  - eapply wp_mono; [by apply flush_keeps|]. intros [[]|e] w2; [|done]. intros (a2 & S2 & El2 & Ei2 & _).
    exists a2, []. split; [by eapply wsteps_trans|]. split; [apply fit_nil|]. split; [by rewrite El2|done].
  - wp_step. exists a, buf. split; [done|]. split; [|done]. intros l1 a1 E _. apply app_inj_tail in E as [<- <-]. by apply Hb.
Qed.

(** A record that fits the buffer is added to it. *)
Lemma append_buffered w l a buf e : wal_mid w (l ++ [a]) buf -> used a buf < w_size w ->
  e_index e = next_index w (l ++ [a]) + zlen buf -> rec_ok (REntry e) -> e_index e + 1 < u64max ->
  zlen (rec_bytes (REntry e)) <= wc_write_buffer_size (w_config w) ->
  wp (try! _ := (if wc_write_buffer_size (w_config w) <? zlen (w_write_buffer_ w) + zlen (rec_bytes (REntry e)) then FlushWriteBuffer
                 else rok tt) in
      let! used := gets (fun w => zlen (w_write_buffer_ w)) in
      modify (fun w => w <| w_write_buffer_ := w_write_buffer_ w ++ rec_bytes (REntry e) |>) ;;;
      modify (fun w => w <| w_pending_entries_ := w_pending_entries_ w ++
        [mkPendingEntry (e_index e) (e_term e) (u32 used) (u32 (zlen (rec_bytes (REntry e))))] |>) ;;;
      try! _ := FlushWriteBufferIfNeeded in
      rok (as_id a)) (fun r w' =>
    match r with
    | Ok id => grown w (l ++ [a]) buf [e] 0 id w'
    | Err e => io_error e
    end) w.
Proof.
  intros Hw Hu Hi Hr Hb Hcap. pose proof (gk_buffer _ _ (wm_mg _ _ _ Hw)) as Hbf. fold (w_config w) in Hbf. wp_step.
  eapply (wp_mono _ (fun r w' => match r with
    | Ok _ => exists a' buf', wsteps w (l ++ [a]) buf w' (l ++ [a']) buf' /\ w_log w' (l ++ [a']) buf' = w_log w (l ++ [a]) buf /\
                as_id a' = as_id a /\ used a' buf' = used a buf /\ zlen (body (REntry <$> buf')) + zlen (rec_bytes (REntry e)) < 2 ^ 32
    | Err e => io_error e end)).
  { rewrite (wm_buffer _ _ _ Hw). destruct (Z.ltb_spec (wc_write_buffer_size (w_config w)) (zlen (body (REntry <$> buf)) + zlen (rec_bytes (REntry e)))).
    - eapply wp_mono; [by apply flush_keeps|]. intros [[]|e'] w'; [|done]. intros (a' & S1 & El & Ei & Eu). exists a', [].
      cbn [fmap list_fmap body flat_map length]. repeat (split; [done|]). lia.
    - wp_step. exists a, buf. split; [by apply wsteps_refl|]. repeat (split; [done|]). lia. }
  intros [[]|e'] w1; [|done]. intros (a1 & b1 & S1 & El1 & Ei1 & Eu1 & Hc1). pose proof (ws_mid _ _ _ _ _ _ S1) as Hw1.
  pose proof (next_index_step _ _ _ _ _ _ S1 El1) as En1. pose proof (wsteps_size _ _ _ _ _ _ S1) as Es1. wp_steps.
  assert (S2 := wal_mid_buffer w1 l a1 b1 e Hw1 ltac:(rewrite Es1; lia) ltac:(lia) Hr Hb Hc1). cbv zeta in S2.
  eapply wp_mono; [apply FlushWriteBufferIfNeeded_spec, (ws_mid _ _ _ _ _ _ S2)|]. intros [[]|e'] w3; [|done].
  intros (a3 & b3 & S3 & Hf3 & El3 & Ei3). wp_step. exists l, a3, b3.
  split; [eapply wsteps_trans; [exact S1|]; eapply wsteps_trans; [exact S2|exact S3]|]. split; [|split; [congruence|]; split; [done|]].
  - rewrite El3, <- El1. unfold w_log. by rewrite app_assoc.
  - rewrite last_id_snoc. lia.
Qed.

Lemma append_entry_spec w l a buf e : wal_mid w (l ++ [a]) buf -> fit w (l ++ [a]) buf -> as_id a + 1 < 1000000 ->
  e_index e = next_index w (l ++ [a]) + zlen buf -> rec_ok (REntry e) -> e_index e + 1 < u64max ->
  wp (append_entry e (as_id a)) (fun r w' =>
    match r with
    | Ok id => grown w (l ++ [a]) buf [e] 1 id w'
    | Err e => io_error e
    end) w.
Proof.
  intros Hw Hfit Hid Hi Hr Hb. unfold append_entry. wp_step. rewrite Hi.
  eapply wp_mono; [by apply MaybeRollSegmentForAppend_spec|]. rewrite <- Hi. intros [id|e'] w1; [|done].
  intros (l1 & a1 & b1 & S1 & El1 & -> & Hu1 & Hi1). rewrite last_id_snoc in Hi1. pose proof (ws_mid _ _ _ _ _ _ S1) as Hw1.
  pose proof (next_index_step _ _ _ _ _ _ S1 El1) as En1.
  assert (Hfin : forall w2 l2 a2 b2 id w3, wsteps w1 (l1 ++ [a1]) b1 w2 (l2 ++ [a2]) b2 ->
    w_log w2 (l2 ++ [a2]) b2 = w_log w1 (l1 ++ [a1]) b1 -> as_id a2 <= as_id a1 ->
    grown w2 (l2 ++ [a2]) b2 [e] 0 id w3 -> grown w (l ++ [a]) buf [e] 1 id w3).
  { intros w2 l2 a2 b2 id w3 S2 El2 Hi2 (l3 & a3 & b3 & S3 & El3 & -> & Hf3 & Hi3). rewrite last_id_snoc in Hi3.
    exists l3, a3, b3. split; [eapply wsteps_trans; [exact S1|]; by eapply wsteps_trans|]. rewrite El3, El2, El1.
    repeat (split; [done|]). rewrite last_id_snoc. lia. }
  wp_steps. destruct (Z.ltb_spec (wc_write_buffer_size (w_config w1)) (zlen (Build RtEntry (toBytes e)))) as [Hbig|Hsmall].
  - wp_step. eapply wp_mono; [by apply flush_keeps|]. intros [[]|e'] w2; [|done]. intros (a2 & S2 & El2 & Ei2 & Eu2).
    pose proof (ws_mid _ _ _ _ _ _ S2) as Hw2. pose proof (next_index_step _ _ _ _ _ _ S2 El2) as En2. cbn [length] in En2.
    pose proof (wsteps_size _ _ _ _ _ _ S2) as Es2. wp_step. unfold GetCurrentSegmentForAppend. wp_step.
    eapply on_current; [exact Hw2|unfold is_u64, two64, u64max in *; pose proof (wm_bounds _ _ _ Hw); unfold next_index in *; lia| |done].
    intros w3 S3 El3. pose proof (wsteps_size _ _ _ _ _ _ S3) as Es3. pose proof (next_index_step _ _ _ _ _ _ S3 El3) as En3.
    eapply MaybeRoll_room; [apply S3|lia|]. eapply wp_mono; [eapply append_directly; [apply S3|lia|cbn [length] in En3; lia|done|done]|].
    intros [id|e'] w4; [|done]. eapply Hfin; [by eapply wsteps_trans|congruence|lia].
  - eapply wp_mono; [apply append_buffered; [done|done|lia|done|done|done]|].
    intros [id|e'] w4; [|done]. eapply Hfin; [by apply wsteps_refl|done|lia].
Qed.

(** ** A run of entries *)

Lemma append_entries_spec es : forall w l a buf, wal_mid w (l ++ [a]) buf -> fit w (l ++ [a]) buf ->
  as_id a + zlen es < 1000000 -> contiguous (next_index w (l ++ [a]) + zlen buf) es -> Forall rec_ok (REntry <$> es) ->
  next_index w (l ++ [a]) + zlen buf + zlen es < u64max ->
  wp (append_entries es (as_id a)) (fun r w' =>
    match r with
    | Ok _ => exists id, grown w (l ++ [a]) buf es (zlen es) id w'
    | Err e => io_error e
    end) w.
Proof.
  induction es as [|e es IH]; intros w l a buf Hw Hfit Hid Hc Hr Hb; cbn [append_entries].
  - wp_step. exists (as_id a), l, a, buf. split; [by apply wsteps_refl|]. rewrite app_nil_r, last_id_snoc. cbn [length]. repeat (split; [done|]). lia.
  - destruct Hc as [Hi Hc]. apply Forall_cons in Hr as [Hr1 Hr]. cbn [length] in Hb, Hid. wp_step.
    eapply wp_mono; [apply append_entry_spec; [done|done|lia|done|done|lia]|]. intros [id|e'] w1; [|done].
    intros (l1 & a1 & b1 & S1 & El1 & -> & Hf1 & Hi1). rewrite last_id_snoc in Hi1.
    assert (En : next_index w1 (l1 ++ [a1]) + zlen b1 = next_index w (l ++ [a]) + zlen buf + 1).
    { apply (f_equal length) in El1. unfold w_log in El1. rewrite !length_app, !length_fmap in El1. unfold next_index.
      rewrite (wf_first _ _ (ws_frame _ _ _ _ _ _ S1)). cbn [length] in El1. lia. }
    eapply wp_mono; [apply IH; [apply S1|done|lia|by rewrite En|done|lia]|]. intros [[]|e'] w2; [|done].
    intros (id & l2 & a2 & b2 & S2 & El2 & -> & Hf2 & Hi2). rewrite last_id_snoc in Hi2.
    exists (as_id a2), l2, a2, b2. split; [by eapply wsteps_trans|]. rewrite El2, El1, <- app_assoc. repeat (split; [done|]).
    rewrite last_id_snoc. cbn [length]. lia.
Qed.

(** ** Truncation *)

(** Where an index of the log is. *)
Lemma live_lookup w segs buf index : wal_mid w segs buf -> w_first_index_ w <= index < next_index w segs ->
  exists ie e L1 L2, w_live w segs = L1 ++ (ie, e) :: L2 /\ index = w_first_index_ w + zlen L1 /\ e_index e = index /\
    ix_Lookup index (w_index_ w) = Some ie.
Proof.
  intros Hw Hi. pose proof Hw as []. destruct (w_live w segs !! Z.to_nat (index - w_first_index_ w)) as [[ie e]|] eqn:El.
  2: { apply lookup_ge_None in El. unfold next_index in Hi. lia. }
  apply list_elem_of_split_length in El as (L1 & L2 & E & Hl). exists ie, e, L1, L2. split; [done|].
  assert (Hidx : index = w_first_index_ w + zlen L1) by lia. split; [done|]. apply contiguous_app in wm_contig0 as [Hc _].
  rewrite E, fmap_app in Hc. apply contiguous_app in Hc as [_ Hc]. rewrite fmap_cons in Hc. destruct Hc as [Hc _]. rewrite length_fmap in Hc.
  split; [cbn in Hc; lia|]. rewrite wm_index0, ix_Lookup_eq.
  - cbn [ix_first_index_ ix_entries_]. rewrite (proj2 (Z.ltb_ge _ _)) by lia. rewrite E, fmap_app. rewrite lookup_app_r by (rewrite length_fmap; lia).
    rewrite length_fmap. replace (_ - _)%nat with 0%nat by lia. done.
  - split; cbn -[u64max]; rewrite ?length_fmap; unfold next_index in *; lia.
  - lia.
Qed.

(** A place in the live log splits the segments. *)
Lemma live_split first segs L1 ie e L2 : live first segs = L1 ++ (ie, e) :: L2 -> NoDup ((live first segs).*2) ->
  exists l a r rs1 rs2, segs = l ++ a :: r /\ as_recs a = rs1 ++ REntry e :: rs2 /\
    ie = mkIndexEntry (as_id a) (sizeof_SegmentHeader + zlen (body rs1)) (zlen (rec_bytes (REntry e))) (e_term e) /\
    live first (l ++ [a <| as_recs := rs1 |>]) = L1.
Proof.
  intros E Hnd. assert (Hin : (ie, e) ∈ live first segs) by (rewrite E; apply elem_of_app; right; left).
  pose proof Hin as Hin0. apply list_elem_of_filter in Hin as [Hfe Hin]. unfold all_places in Hin. apply list_elem_of_In, in_flat_map in Hin as (a & Ha & Hin).
  apply list_elem_of_In in Ha, Hin.
  apply list_elem_of_split in Ha as (l & r & ->). unfold seg_places in Hin. apply places_split in Hin as (rs1 & rs2 & Er & Eie).
  exists l, a, r, rs1, rs2. split; [done|]. split; [done|]. split; [done|].
  assert (E2 : live first (l ++ a :: r) = live first (l ++ [a <| as_recs := rs1 |>]) ++ (ie, e) ::
    (filter (fun p => first <= e_index p.2) (places (as_id a) (sizeof_SegmentHeader + zlen (body rs1) + zlen (rec_bytes (REntry e))) rs2) ++ live first r)).
  { change (a :: r) with ([a] ++ r). rewrite !live_app, <- app_assoc. f_equal. unfold live at 1. unfold all_places. cbn [flat_map].
    rewrite app_nil_r. unfold seg_places. rewrite Er, places_app. cbn [places]. rewrite <- Eie, filter_app, filter_cons_True by done.
    rewrite <- app_assoc. unfold live at 2. unfold all_places. cbn [flat_map]. rewrite app_nil_r. done. }
  rewrite E in E2. rewrite E in Hnd. clear -E2 Hnd. set (K1 := live first (l ++ _)) in *. set (K2 := filter _ _ ++ _) in *. clearbody K1 K2.
  revert K1 E2. induction L1 as [|p L1 IH]; intros [|q K1] E2; cbn in E2, Hnd; [done| | |].
  - injection E2 as <- E2. apply NoDup_cons in Hnd as [Hn _]. exfalso. apply Hn. rewrite E2, fmap_app. apply elem_of_app. right. left.
  - injection E2 as -> E2. apply NoDup_cons in Hnd as [Hn _]. exfalso. apply Hn. cbn. rewrite fmap_app. apply elem_of_app. right. left.
  - injection E2 as -> E2. apply NoDup_cons in Hnd as [_ Hnd]. f_equal. by apply IH.
Qed.

Lemma contiguous_nodup first es : contiguous first es -> NoDup es.
Proof.
  revert first. induction es as [|e es IH]; intros first; [constructor|]. intros [He Hc]. constructor; [|by eapply IH].
  intros Hin. apply contiguous_from in Hc. rewrite Forall_forall in Hc. specialize (Hc _ Hin). lia.
Qed.

Lemma route_in index segs res id : route index segs res = Some id -> res = Some id \/ id ∈ as_id <$> segs.
Proof.
  revert res. induction segs as [|a segs IH]; intros res; cbn [route]; [by left|].
  destruct (_ <=? _); [|by left]. intros [[= <-]|Hin]%IH; right; [left|by right].
Qed.

Lemma route_inv index l a r res : NoDup (as_id <$> l ++ a :: r) -> res <> Some (as_id a) ->
  route index (l ++ a :: r) res = Some (as_id a) -> as_first a <= index /\ forall s, head r = Some s -> index < as_first s.
Proof.
  revert res. induction l as [|b l IH]; intros res Hnd Hres; cbn [app] in Hnd; rewrite fmap_cons in Hnd; cbn [app route].
  - apply NoDup_cons in Hnd as [Hn Hnd]. destruct (Z.leb_spec (as_first a) index) as [Ha|]; [|done]. intros Hr. split; [done|].
    destruct r as [|b r]; [done|]. intros s [= <-]. cbn [route] in Hr. destruct (Z.leb_spec (as_first b) index); [|done].
    exfalso. apply Hn. rewrite fmap_cons. apply route_in in Hr as [[= <-]|Hin]; [left|by right].
  - apply NoDup_cons in Hnd as [Hn Hnd]. destruct (_ <=? _); [|done]. apply IH; [done|]. intros [= E]. apply Hn.
    rewrite E, fmap_app. apply elem_of_app. right. left.
Qed.

Lemma route_trim index l r res : (forall s, head r = Some s -> index < as_first s) -> route index (l ++ r) res = route index l res.
Proof.
  intros Hr. revert res. induction l as [|b l IH]; intros res; cbn [app route].
  - destruct r as [|b r]; [done|]. cbn. rewrite (proj2 (Z.leb_gt _ _)); [done|]. by apply Hr.
  - destruct (_ <=? _); [apply IH|done].
Qed.

Lemma ids_nodup g segs : mg_ok g segs -> NoDup (as_id <$> segs).
Proof. intros Hg. apply sorted_nodup, (gk_ids _ _ Hg). Qed.

(** The invariant after a truncation. *)
Lemma wal_mid_truncate w l a r rs1 rs2 g' L1 ie e L2 : wal_mid w (l ++ a :: r) [] ->
  w_live w (l ++ a :: r) = L1 ++ (ie, e) :: L2 -> ie_segment_id ie = as_id a ->
  as_recs a = rs1 ++ rs2 -> ie_offset ie = sizeof_SegmentHeader + zlen (body rs1) -> live (w_first_index_ w) (l ++ [a <| as_recs := rs1 |>]) = L1 ->
  steps (w_manager w) (l ++ a :: r) g' (l ++ [a <| as_recs := rs1 |>]) ->
  let w' := w <| w_manager := g' |> <| w_index_ := mkWALIndex (w_first_index_ w) L1.*1 |> in
  wsteps w (l ++ a :: r) [] w' (l ++ [a <| as_recs := rs1 |>]) [] /\ w_log w' (l ++ [a <| as_recs := rs1 |>]) [] = L1.*2.
Proof.
  intros Hw E Eid Er Eoff EL [Hok Hf] w'. pose proof Hw as []. set (a' := a <| as_recs := rs1 |>) in *.
  assert (El : w_live w' (l ++ [a']) = L1) by done.
  assert (En : next_index w' (l ++ [a']) = w_first_index_ w + zlen L1) by (unfold next_index; by rewrite El).
  assert (Hlen : next_index w (l ++ a :: r) = w_first_index_ w + zlen L1 + 1 + zlen L2).
  { unfold next_index. rewrite E, length_app. cbn [length]. lia. }
  assert (Es : w_size w' = w_size w) by (unfold w_size, w_config; cbn; by rewrite (gf_config _ _ Hf)).
  assert (Hstarts : starts_sorted (l ++ [a'])).
  { unfold starts_sorted in *. rewrite fmap_app in wm_starts0 |- *. cbn in *. apply StronglySorted_app in wm_starts0 as (Hx & H1 & _).
    apply StronglySorted_app_2; [|done|by repeat constructor]. intros x y Hx1 Hy1. apply list_elem_of_singleton in Hy1 as ->.
    apply Hx; [done|left]. }
  assert (Hin : (ie, e) ∈ w_live w (l ++ a :: r)) by (rewrite E; apply elem_of_app; right; left).
  assert (Hei : e_index e = w_first_index_ w + zlen L1).
  { rewrite app_nil_r, E, fmap_app in wm_contig0. apply contiguous_app in wm_contig0 as [_ [Hc _]]. by rewrite length_fmap in Hc. }
  pose proof (wm_route0 _ _ Hin) as Hroute. rewrite Eid in Hroute.
  destruct (route_inv (e_index e) l a r None (ids_nodup _ _ wm_mg0) ltac:(done) Hroute) as [Hafirst Hnext].
  split; [|unfold w_log; by rewrite El, app_nil_r]. constructor; [|by constructor].
  constructor; rewrite ?El, ?En, ?Es; try done.
  - assert (Hall : Forall (fun s => as_first s <= as_first a) l).
    { apply Forall_forall. intros x Hx. unfold starts_sorted in wm_starts0. rewrite fmap_app in wm_starts0.
      apply Z.lt_le_incl. eapply StronglySorted_app_1_elem_of; [exact wm_starts0|apply list_elem_of_fmap; eauto|left]. }
    apply Forall_app. split; [eapply Forall_impl; [exact Hall|]; cbn; lia|]. constructor; [cbn; lia|done].
  - rewrite app_nil_r in *. rewrite E, fmap_app in wm_contig0. by apply contiguous_app in wm_contig0 as [? _].
  - intros ie' e' Hin'. assert (Hin2 : (ie', e') ∈ w_live w (l ++ a :: r)) by (rewrite E; apply elem_of_app; by left).
    rewrite (route_ext _ (l ++ [a']) (l ++ [a])) by (by rewrite !fmap_app).
    rewrite <- (wm_route0 _ _ Hin2). symmetry. change (a :: r) with ([a] ++ r). rewrite app_assoc. apply route_trim.
    intros s Hs. specialize (Hnext s Hs). assert (e_index e' < e_index e); [|lia]. rewrite Hei.
    rewrite app_nil_r, E, fmap_app in wm_contig0. apply contiguous_app in wm_contig0 as [Hc _]. apply contiguous_below in Hc.
    rewrite Forall_forall in Hc. rewrite length_fmap in Hc. apply Hc. apply list_elem_of_fmap. by exists (ie', e').
  - intros ie' e' Hin'. eapply wm_offsets0. rewrite E. apply elem_of_app. left. exact Hin'.
  - intros b e' E'. by destruct b.
  - intros l1 a1 E1 Hfull. apply app_inj_tail in E1 as [_ <-]. rewrite used_nil in Hfull. cbn -[body sizeof_SegmentHeader] in Hfull.
    pose proof (wm_offsets0 _ _ Hin). lia.
  - cbn [length] in *. split; [apply wm_bounds0|lia].
  - apply Forall_app in wm_whole0 as [Hwl Hwa]. apply Forall_app. split; [done|]. apply Forall_cons in Hwa as [Hwa _].
    rewrite Er in Hwa. apply Forall_app in Hwa as [Hwa _]. by constructor.
Qed.

(** The removals after the truncated segment. *)
Lemma remove_later w l a r infos : si_segment_id <$> infos = as_id <$> (l ++ a :: r) -> mg_ok (w_manager w) (l ++ a :: r) ->
  wp (foreachM infos (fun info => if si_segment_id info <=? as_id a then rok tt
                                  else on_manager (RemoveSegment (si_segment_id info)))) (fun res w' =>
    match res with
    | Ok _ => exists g', w' = w <| w_manager := g' |> /\ steps (w_manager w) (l ++ a :: r) g' (l ++ [a])
    | Err e => io_error e
    end) w.
Proof.
  intros Ei Hg. pose proof (gk_ids _ _ Hg) as Hs. rewrite fmap_app in Hs. cbn in Hs.
  apply StronglySorted_app in Hs as (Hlt & _ & Hgt). apply StronglySorted_inv in Hgt as [_ Hgt].
  apply (wp_foreachM _ _ (fun rest w' => exists k r', si_segment_id <$> rest = as_id <$> (k ++ r') /\
    Forall (fun c => as_id c <= as_id a) k /\ Forall (fun c => as_id a < as_id c) r' /\
    exists g', w' = w <| w_manager := g' |> /\ steps (w_manager w) (l ++ a :: r) g' (l ++ a :: r'))).
  - exists (l ++ [a]), r. split; [by rewrite <- app_assoc|]. split; [|split].
    + apply Forall_app. split; [|repeat constructor; lia]. apply Forall_forall. intros c Hc.
      apply Z.lt_le_incl, Hlt; [apply list_elem_of_fmap; eauto|left].
    + apply Forall_forall. intros c Hc. rewrite Forall_forall in Hgt. apply Hgt, list_elem_of_fmap. eauto.
    + exists (w_manager w). split; [by destruct w|by apply steps_refl].
  - intros x rest w1 (k & r' & Ex & Hk & Hr & g' & -> & St). destruct k as [|c k].
    + destruct r' as [|c r']; [done|]. cbn in Ex. injection Ex as Ex1 Ex2. apply Forall_cons in Hr as [Hc Hr].
      rewrite Ex1, (proj2 (Z.leb_gt _ _)) by lia. unfold on_manager. wp_step. cbn [w_manager upd]. cbn.
      pose proof (st_ok _ _ _ _ St) as Hg'. replace (l ++ a :: c :: r') with ((l ++ [a]) ++ c :: r') in * by (by rewrite <- app_assoc).
      eapply wp_mono; [by eapply RemoveSegment_spec|]. intros [[]|e] g2 [S2 Hr2]; [|done].
      exists [], r'. split; [done|]. split; [constructor|]. split; [done|]. exists g2. split; [done|].
      replace (l ++ a :: r') with ((l ++ [a]) ++ r') by (by rewrite <- app_assoc).
      by eapply steps_trans.
    + cbn in Ex. injection Ex as Ex1 Ex2. apply Forall_cons in Hk as [Hc Hk]. rewrite Ex1, (proj2 (Z.leb_le _ _)) by lia.
      wp_step. exists k, r'. split; [done|]. split; [done|]. split; [done|]. by exists g'.
  - intros w1 (k & r' & Ex & Hk & Hr & g' & -> & St). apply eq_sym, fmap_nil_inv, app_eq_nil in Ex as [_ ->]. by exists g'.
Qed.

Lemma list_segments_ids g segs : mg_ok g segs -> si_segment_id <$> ListSegments g = as_id <$> segs.
Proof.
  intros Hg. rewrite <- (keys_ids _ _ _ (gk_segs _ _ Hg)). unfold ListSegments. rewrite <- list_fmap_compose. done.
Qed.

Lemma TruncateSuffixFrom_spec w segs index : wal_mid w segs [] -> w_first_index_ w <= index < next_index w segs ->
  wp (TruncateSuffixFrom index) (fun r w' =>
    match r with
    | Ok _ => exists segs', wsteps w segs [] w' segs' [] /\ last_id segs' <= last_id segs /\
                w_log w' segs' [] = take (Z.to_nat (index - w_first_index_ w)) (w_log w segs [])
    | Err e => io_error e
    end) w.
Proof.
  intros Hw Hi. destruct (live_lookup _ _ _ _ Hw Hi) as (ie & e & L1 & L2 & E & Ei & Ee & Elk). pose proof Hw as [].
  assert (Hin : (ie, e) ∈ w_live w segs) by (rewrite E; apply elem_of_app; right; left).
  destruct (live_split _ _ _ _ _ _ E) as (l & a & r & rs1 & rs2 & Esg & Er & Eie & EL).
  { apply contiguous_app in wm_contig0 as [Hc _]. by eapply contiguous_nodup. }
  pose proof (wm_route0 _ _ Hin) as Hroute. rewrite Ee, Eie in Hroute. cbn in Hroute.
  unfold TruncateSuffixFrom. wp_steps. rewrite Elk, (GetSegmentForIndex_route _ _ _ wm_mg0), Hroute. subst segs. wp_step.
  destruct (segment_get_at (w_manager w) l a r sg_segment_id_ wm_mg0) as (s & n & Eo & (Es & _) & _). unfold on_manager at 1. wp_step.
  eapply wp_getsO; [exact Eo|]. rewrite Es. rewrite Eie at 1. cbn [ie_segment_id]. rewrite Z.eqb_refl. cbn [negb].
  replace (w <| w_manager := w_manager w |>) with w by (by destruct w). unfold on_manager at 1. wp_steps.
  replace (ie_offset ie) with (sizeof_SegmentHeader + zlen (body rs1)) by (by rewrite Eie).
  eapply wp_mono; [by eapply mg_Truncate_spec|]. intros [[]|er] g1; [|done]. intros S1. set (a1 := a <| as_recs := rs1 |>) in *.
  change (as_id a) with (as_id a1). unfold on_manager at 1. wp_steps.
  eapply wp_mono; [eapply (mg_Sync_spec g1 l a1 r), (st_ok _ _ _ _ S1)|]. intros [[]|er] g2 [S2 Hr2]; [|done].
  wp_steps. change (as_id a) with (as_id a1).
  eapply wp_mono; [eapply (remove_later _ l a1 r); [apply list_segments_ids, (st_ok _ _ _ _ S2)|apply (st_ok _ _ _ _ S2)]|].
  intros [[]|er] w3; [|done]. intros (g3 & -> & S3). wp_steps. unfold on_index. wp_step. cbn [w_index_ upd]. cbn -[a1 ix_TruncateFrom].
  unfold wp. rewrite wm_index0, ix_TruncateFrom_run; [|split; cbn -[u64max]; rewrite ?length_fmap; unfold next_index in *; lia|cbn; lia].
  cbn [ix_first_index_ ix_entries_]. assert (Et : take (Z.to_nat (index - w_first_index_ w)) (w_live w (l ++ a :: r)) = L1).
  { rewrite E, Ei. replace (Z.to_nat _) with (length L1) by lia. apply take_app_length. }
  rewrite <- fmap_take, Et. destruct (wal_mid_truncate w l a r rs1 (REntry e :: rs2) g3 L1 ie e L2 Hw E) as [S4 El4];
    [by rewrite Eie|exact Er|by rewrite Eie|exact EL|eapply steps_trans; [exact S1|]; by eapply steps_trans|].
  exists (l ++ [a1]). split; [exact S4|]. split.
  - rewrite last_id_snoc. pose proof (ids_below_last _ (gk_ids _ _ wm_mg0)) as Hb. apply Forall_app in Hb as [_ Hb].
    by apply Forall_cons in Hb as [? _].
  - etransitivity; [exact El4|]. unfold w_log. by rewrite app_nil_r, <- fmap_take, Et.
Qed.

(** ** The log between operations *)

(** Nothing is in the buffer, and an empty log starts after the snapshot. *)
Definition wal_ok w (segs : list aseg) : Prop :=
  wal_mid w segs [] /\ (w_live w segs = [] -> w_first_index_ w = w_snapshot_index_ w + 1).

(** The entries of the log, from [w_first_index_] on. *)
Definition log w (segs : list aseg) : list Entry := w_log w segs [].

Lemma index_is_wf w segs buf : wal_mid w segs buf -> index_wf (w_index_ w).
Proof. intros []. rewrite wm_index0. split; cbn -[u64max]; rewrite ?length_fmap; unfold next_index in *; lia. Qed.

Lemma LastIndex_eq w segs : wal_ok w segs -> LastIndexUnlocked w = next_index w segs - 1.
Proof.
  intros [Hw He]. pose proof (index_is_wf _ _ _ Hw) as Hx. pose proof Hw as []. unfold LastIndexUnlocked.
  rewrite ix_last_index_eq by done. rewrite wm_index0. cbn [ix_first_index_ ix_entries_]. unfold ix_empty. cbn [ix_entries_]. rewrite length_fmap.
  unfold next_index. destruct (w_live w segs) as [|p L] eqn:E; cbn [fmap list_fmap]; [|done]. rewrite (bool_decide_eq_true_2 _ eq_refl). rewrite He by done. cbn. lia.
Qed.

Lemma log_length w segs : next_index w segs = w_first_index_ w + zlen (log w segs).
Proof. unfold next_index, log, w_log. by rewrite app_nil_r, length_fmap. Qed.

Lemma wal_ok_log_empty w segs : log w segs = [] -> w_live w segs = [].
Proof. unfold log, w_log. rewrite app_nil_r. apply fmap_nil_inv. Qed.

(** The part of [Append] after the truncation. *)
Lemma append_tail w segs e es (sync : bool) : wal_mid w segs [] -> contiguous (next_index w segs) (e :: es) -> Forall rec_ok (REntry <$> e :: es) ->
  next_index w segs + zlen (e :: es) < u64max -> last_id segs + zlen (e :: es) + 1 < 1000000 ->
  wp (try! segment := GetCurrentSegmentForAppend (e_index e) in
      try! _ := append_entries (e :: es) segment in
      try! _ := FlushWriteBuffer in
      if sync then on_manager SyncAll else rok tt) (fun r w' =>
    match r with
    | Ok _ => exists segs', wsteps w segs [] w' segs' [] /\ log w' segs' = log w segs ++ e :: es /\
                last_id segs' <= last_id segs + zlen (e :: es) + 1
    | Err er => io_error er
    end) w.
Proof.
  intros Hw Hc Hr Hb Hid. pose proof Hc as [Hi _]. wp_step. rewrite Hi.
  pose proof (GetCurrentSegmentForAppend_spec w segs [] Hw (fit_nil _ _) ltac:(cbn [length] in Hid; lia)) as Hg. cbn [length] in Hg.
  rewrite Z.add_0_r in Hg. eapply wp_mono; [exact Hg|]. intros [id|er] w1; [|done]. intros (l1 & a1 & b1 & S1 & El1 & -> & Hu1 & Hi1).
  pose proof (next_index_step _ _ _ _ _ _ S1 El1) as En1. cbn [length] in En1. wp_step.
  eapply wp_mono; [apply append_entries_spec; [apply S1| |lia|replace (_ + _) with (next_index w segs) by lia; done|done|lia]|].
  { intros l a E _. by apply app_inj_tail in E as [<- <-]. }
  intros [[]|er] w2; [|done]. intros (id & l2 & a2 & b2 & S2 & El2 & -> & Hf2 & Hi2). rewrite last_id_snoc in Hi2. wp_step.
  eapply wp_mono; [apply flush_keeps, S2|]. intros [[]|er] w3; [|done]. intros (a3 & S3 & El3 & Ei3 & _).
  assert (S : wsteps w segs [] w3 (l2 ++ [a3]) []) by (eapply wsteps_trans; [exact S1|]; by eapply wsteps_trans).
  assert (El : log w3 (l2 ++ [a3]) = log w segs ++ e :: es) by (unfold log; by rewrite El3, El2, El1).
  assert (Hl : last_id (l2 ++ [a3]) <= last_id segs + zlen (e :: es) + 1) by (rewrite last_id_snoc; lia).
  destruct sync; [|wp_step; by exists (l2 ++ [a3])]. unfold on_manager. wp_step.
  eapply wp_mono; [eapply SyncAll_spec, wm_mg, S|]. intros [[]|er] g4 [S4 Her]; [|done]. exists (l2 ++ [a3]).
  split; [eapply wsteps_trans; [exact S|]; apply wal_mid_manager; [apply S|done]|]. done.
Qed.

Lemma wal_Append_spec w segs e es : wal_ok w segs ->
  contiguous (e_index e) (e :: es) -> Forall rec_ok (REntry <$> e :: es) -> e_index e + zlen (e :: es) < u64max ->
  last_id segs + zlen (e :: es) + 1 < 1000000 ->
  let first := w_first_index_ w in
  wp (Append (e :: es)) (fun r w' =>
    if bool_decide (first <= e_index e <= first + zlen (log w segs)) then
      match r with
      | Ok _ => exists segs', wal_ok w' segs' /\ wframe w w' /\ last_id segs' <= last_id segs + zlen (e :: es) + 1 /\
                  log w' segs' = take (Z.to_nat (e_index e - first)) (log w segs) ++ e :: es
      | Err er => io_error er
      end
    else r = Err (EFatal "non-continuous entries: expected {}, got {}") /\ w' = w) w.
Proof.
  intros Hok Hc Hr Hb Hid first. pose proof (LastIndex_eq _ _ Hok) as El. pose proof Hok as [Hw He]. pose proof (wm_bounds _ _ _ Hw) as [Hf Hn].
  cbn [length] in Hn. pose proof (log_length w segs) as Hln. unfold Append. wp_steps. rewrite El.
  assert (Ex : (next_index w segs - 1) +! 1 = next_index w segs).
  { pose proof (next_is_u64 _ _ _ Hw). unfold is_u64, two64 in *. u64_simpl. lia. }
  rewrite Ex. fold first.
  assert (Hfin : forall w1 segs1, wal_mid w1 segs1 [] -> wframe w w1 -> next_index w1 segs1 = e_index e -> last_id segs1 <= last_id segs ->
    log w1 segs1 = take (Z.to_nat (e_index e - first)) (log w segs) ->
    wp (try! segment := GetCurrentSegmentForAppend (e_index e) in
        try! _ := append_entries (e :: es) segment in
        try! _ := FlushWriteBuffer in
        if wc_sync_on_write (w_config w) then on_manager SyncAll else rok tt) (fun r w' =>
      match r with
      | Ok _ => exists segs', wal_ok w' segs' /\ wframe w w' /\ last_id segs' <= last_id segs + zlen (e :: es) + 1 /\
                  log w' segs' = take (Z.to_nat (e_index e - first)) (log w segs) ++ e :: es
      | Err er => io_error er
      end) w1).
  { intros w1 segs1 Hw1 Hf1 En1 Hi1 El1. eapply wp_mono; [apply append_tail; [exact Hw1|by rewrite En1|done|lia|lia]|].
    intros [[]|er] w2; [|done]. intros (segs2 & S2 & El2 & Hl2). exists segs2. split; [|split; [etransitivity; [done|apply S2]|split; [lia|by rewrite El2, El1]]].
    split; [apply S2|]. intros E0. exfalso. unfold log, w_log in El2. rewrite E0 in El2. cbn in El2. by destruct ((w_live w1 segs1).*2). }
  destruct (Z.eqb_spec (e_index e) (next_index w segs)) as [Ei|Hne].
  - rewrite bool_decide_eq_true_2 by lia. wp_step. apply (Hfin w segs); [done|done|done|done|].
    rewrite take_ge; [done|]. lia.
  - destruct (Z.ltb_spec (e_index e) (next_index w segs)), (Z.leb_spec first (e_index e)); cbn [andb].
    + rewrite bool_decide_eq_true_2 by lia. eapply wp_mono; [apply TruncateSuffixFrom_spec; [done|]; fold first; lia|].
      intros [[]|er] w1; [|done]. intros (segs1 & S1 & Hi1 & El1). apply (Hfin w1 segs1); [apply S1|apply S1| |done|exact El1].
      rewrite log_length. unfold log. rewrite El1, (wf_first _ _ (ws_frame _ _ _ _ _ _ S1)), length_take. fold first. fold (log w segs). lia.
    + rewrite bool_decide_eq_false_2 by lia. by wp_step.
    + rewrite bool_decide_eq_false_2 by lia. by wp_step.
    + rewrite bool_decide_eq_false_2 by lia. by wp_step.
Qed.

(** C14: [Append] on a log that holds [log], for entries of consecutive indexes
    that start at [i] between the first index and one past the last: unless an
    I/O operation fails, afterwards the log is the part of the old one below
    [i] followed by the new entries, every one of them in a segment file and
    indexed.  Outside that range it fails with a fatal error and changes
    nothing. *)
Theorem Append_replaces_suffix w segs e es : wal_ok w segs ->
  contiguous (e_index e) (e :: es) -> Forall rec_ok (REntry <$> e :: es) -> e_index e + zlen (e :: es) < u64max ->
  last_id segs + zlen (e :: es) + 1 < 1000000 ->
  let first := w_first_index_ w in
  wp (Append (e :: es)) (fun r w' =>
    if bool_decide (first <= e_index e <= first + zlen (log w segs)) then
      match r with
      | Ok _ => exists segs', wal_ok w' segs' /\ wframe w w' /\ last_id segs' <= last_id segs + zlen (e :: es) + 1 /\
                  log w' segs' = take (Z.to_nat (e_index e - first)) (log w segs) ++ e :: es
      | Err er => io_error er
      end
    else r = Err (EFatal "non-continuous entries: expected {}, got {}") /\ w' = w) w.
Proof. apply wal_Append_spec. Qed.

(** ** An empty log *)

Definition fresh_wal (d : Disk) (config : WALConfig) (io : SegmentIo) : WAL :=
  mkWAL (new_segment_manager d config io) new_index BackendPosix "" empty_hard_state empty_conf_state [] 1 0 0 [] [].

Lemma fresh_wal_ok d config io : sizeof_SegmentHeader < wc_segment_size config < 2 ^ 62 -> 0 <= wc_write_buffer_size config < 2 ^ 32 ->
  dir_exists d = true -> tidy d [] -> wal_ok (fresh_wal d config io) [].
Proof.
  intros Hs Hb Hd Ht. split; [|done]. constructor; try done.
  - constructor; cbn; try done; first [by right|constructor].
  - constructor.
  - intros ie e Hin. by apply elem_of_nil in Hin.
  - intros ie e Hin. by apply elem_of_nil in Hin.
  - intros b e E. by destruct b.
  - intros l a E. by destruct l.
Qed.
End WalProps.
