(* ===== verification/WalRead.v ===== *)
(** * Reading from the write-ahead log

    [ReadEntries] and [Term] on a log in the state [wal_ok]. *)

From S2P Require Import Prelude Types Bytes Capnp Record WalIndex Disk Metadata Segment SegmentProps SegmentManager SnapshotFile Wal Storage WalLog WalProps.

Section WalRead.
Context {IO : Io} {PF : Platform} {CR : Crc} {CP : Capnp}.
Implicit Types w : WAL.

(** The bytes of the messages of some entries. *)
Definition payload_size (es : list Entry) : Z := zlen (flat_map toBytes es).

Lemma payload_size_cons e es : payload_size (e :: es) = zlen (toBytes e) + payload_size es.
Proof. unfold payload_size. cbn [flat_map]. rewrite length_app. lia. Qed.

Lemma payload_size_take k es : 0 <= payload_size (take k es) <= payload_size es.
Proof.
  revert k. induction es as [|e es IH]; intros [|k]; cbn [take]; rewrite ?payload_size_cons; try (specialize (IH k));
    unfold payload_size in *; cbn [flat_map length]; lia.
Qed.

Lemma payload_size_slice j k es : payload_size (take j (drop k es)) <= payload_size es.
Proof.
  etransitivity; [apply payload_size_take|]. unfold payload_size. rewrite <- (take_drop k es) at 2.
  rewrite flat_map_app, length_app. lia.
Qed.

(** What a read with a size limit returns of [es], after [total] bytes: the
    entries up to the one with which the limit is reached. *)
Definition limited (max_size : option Z) (total : Z) (es out : list Entry) : Prop :=
  match max_size with
  | None => out = es
  | Some m => exists k, out = take k es /\ (es <> [] -> 0 < k)%nat /\
      (forall j, (0 < j < k)%nat -> total + payload_size (take j es) < m) /\
      ((k < length es)%nat -> m <= total + payload_size out)
  end.

Lemma limited_nil max_size total : limited max_size total [] [].
Proof. destruct max_size; [|done]. exists 0%nat. split; [done|]. split; [done|]. split; [lia|cbn; lia]. Qed.

Lemma limited_stop m total e es : m <= total + zlen (toBytes e) -> limited (Some m) total (e :: es) [e].
Proof.
  intros Hm. exists 1%nat. split; [by destruct es|]. split; [lia|]. split; [lia|]. intros _. rewrite payload_size_cons.
  unfold payload_size. cbn [take flat_map length]. lia.
Qed.

Lemma limited_more max_size total e es out : (forall m, max_size = Some m -> total + zlen (toBytes e) < m) ->
  limited max_size (total + zlen (toBytes e)) es out -> limited max_size total (e :: es) (e :: out).
Proof.
  destruct max_size as [m|]; [|by intros _ ->]. intros Hm (k & -> & Hpos & Hlt & Hlen). specialize (Hm m eq_refl).
  exists (S k). split; [done|]. split; [lia|]. split.
  - intros [|j] Hj; [lia|]. cbn [take]. rewrite payload_size_cons. destruct j as [|j].
    + rewrite take_0. change (payload_size []) with 0. lia.
    + specialize (Hlt (S j) ltac:(lia)). lia.
  - cbn [length]. intros Hl. specialize (Hlen ltac:(lia)). rewrite payload_size_cons. lia.
Qed.

(** One entry, through the index and the file. *)
Lemma read_one w segs index : wal_mid w segs [] -> w_first_index_ w <= index < next_index w segs ->
  exists ie e seg, ix_Lookup index (w_index_ w) = Some ie /\ GetSegmentForIndex index (w_manager w) = Some seg /\
    log w segs !! Z.to_nat (index - w_first_index_ w) = Some e /\ zlen (toBytes e) <= kTraversalLimit /\
    wp (on_manager (on_segment seg (Read (ie_offset ie) (ie_length ie)))) (fun r w' => wsteps w segs [] w' segs [] /\
      match r with
      | Ok data => data = Build RtEntry (toBytes e)
      | Err er => io_error er
      end) w.
Proof.
  intros Hw Hi. destruct (live_lookup _ _ _ _ Hw Hi) as (ie & e & L1 & L2 & E & Ei & Ee & Elk).
  pose proof (wm_contig _ _ _ Hw) as Hctg. pose proof (wm_route _ _ _ Hw) as Hrt. pose proof (wm_mg _ _ _ Hw) as Hmg.
  assert (Hin : (ie, e) ∈ w_live w segs) by (rewrite E; apply elem_of_app; right; left).
  destruct (live_split _ _ _ _ _ _ E) as (l & a & r & rs1 & rs2 & Esg & Er & Eie & EL).
  { apply contiguous_app in Hctg as [Hc _]. by eapply contiguous_nodup. }
  pose proof (Hrt _ _ Hin) as Hroute. rewrite Ee, Eie in Hroute. cbn in Hroute.
  assert (Hr : rec_ok (REntry e)).
  { pose proof (gk_ok _ _ Hmg) as Hok. rewrite Esg in Hok. apply Forall_app in Hok as [_ Hok]. apply Forall_cons in Hok as [[_ _ Hok] _].
    rewrite Er in Hok. apply Forall_app in Hok as [_ Hok]. by apply Forall_cons in Hok as [? _]. }
  exists ie, e, (as_id a). split; [done|]. rewrite (GetSegmentForIndex_route _ _ _ Hmg). split; [done|]. split; [|split; [exact Hr|]].
  { unfold log, w_log. rewrite app_nil_r, E, fmap_app, Ei, lookup_app_r by (rewrite length_fmap; lia). rewrite length_fmap.
    replace (_ - _)%nat with 0%nat by lia. done. }
  unfold on_manager. apply wp_zoom. rewrite Esg in Hmg. eapply wp_mono.
  { apply (mg_Read_spec _ l a r _ rs1 (REntry e :: rs2) (rec_bytes (REntry e))); [exact Hmg|exact Er|by rewrite Eie| |by rewrite Eie].
    rewrite Eie. cbn [ie_length]. rewrite body_cons. by rewrite sub_prefix. }
  intros [data|er] g' [S1 Hd]; rewrite <- Esg in S1; (split; [by apply wal_mid_manager|]); done.
Qed.

Lemma wsteps_live w segs w' segs' : wsteps w segs [] w' segs' [] -> w_live w' segs' = live (w_first_index_ w) segs'.
Proof. intros S1. unfold w_live. by rewrite (wf_first _ _ (ws_frame _ _ _ _ _ _ S1)). Qed.

Lemma same_log w segs w' : wsteps w segs [] w' segs [] ->
  log w' segs = log w segs /\ next_index w' segs = next_index w segs /\ w_first_index_ w' = w_first_index_ w.
Proof.
  intros S1. pose proof (wsteps_live _ _ _ _ S1) as El. unfold log, w_log, next_index. rewrite El.
  by rewrite (wf_first _ _ (ws_frame _ _ _ _ _ _ S1)).
Qed.

(** The loop; [es] is what it still has to read. *)
Lemma read_entries_spec segs max_size es : forall w count idx total result, wal_mid w segs [] ->
  w_first_index_ w <= idx -> idx + Z.of_nat count <= next_index w segs ->
  take count (drop (Z.to_nat (idx - w_first_index_ w)) (log w segs)) = es ->
  0 <= total -> total + payload_size es < two64 ->
  wp (read_entries count idx max_size total result) (fun r w' => wsteps w segs [] w' segs [] /\
    match r with
    | Ok res => exists out, res = result ++ out /\
        limited max_size total es out
    | Err er => io_error er
    end) w.
Proof.
  induction es as [|e es IH]; intros w count idx total result Hw Hlo Hhi Hes Ht Htot.
  - assert (count = 0%nat) as ->.
    { apply (f_equal length) in Hes. rewrite length_take, length_drop in Hes. cbn [length] in Hes. pose proof (log_length w segs). lia. }
    cbn [read_entries]. wp_step. split; [by apply wsteps_refl|]. exists []. rewrite app_nil_r. split; [done|]. apply limited_nil.
  - destruct count as [|count]; [done|]. cbn [read_entries].
    destruct (read_one w segs idx Hw ltac:(lia)) as (ie & e' & seg & Elk & Eg & Ee & Hsz & Hread). wp_step. wp_step. rewrite Elk, Eg.
    assert (e' = e /\ take count (drop (Z.to_nat (idx + 1 - w_first_index_ w)) (log w segs)) = es) as [-> Hes'].
    { rewrite (drop_S _ _ _ Ee) in Hes. cbn [take] in Hes. injection Hes as -> Hes. split; [done|].
      by replace (Z.to_nat (idx + 1 - w_first_index_ w)) with (S (Z.to_nat (idx - w_first_index_ w))) by lia. }
    wp_step. eapply wp_mono; [exact Hread|]. intros [data|er] w1 [S1 Hd]; [|done]. subst data.
    rewrite <- (app_nil_r (Build _ _)), parse_Build by (by apply fits_traversal). rewrite fromPayload_toBytes by done.
    rewrite payload_size_cons in Htot. pose proof (payload_size_take (length es) es) as Hp. rewrite firstn_all in Hp.
    rewrite (u64_id (total + zlen (toBytes e))) by (unfold is_u64; lia). pose proof (wm_bounds _ _ _ Hw) as Hb. cbn [length] in Hb.
    assert (Ei : idx +! 1 = idx + 1) by (unfold u64max in Hb; u64_simpl; lia). rewrite Ei.
    destruct (same_log _ _ _ S1) as (El & En & Ef).
    specialize (IH w1 count (idx + 1) (total + zlen (toBytes e)) (result ++ [e]) (ws_mid _ _ _ _ _ _ S1)).
    rewrite El, En, Ef in IH. specialize (IH ltac:(lia) ltac:(lia) Hes' ltac:(lia) ltac:(lia)).
    assert (Hmore : (forall m, max_size = Some m -> total + zlen (toBytes e) < m) ->
      wp (read_entries count (idx + 1) max_size (total + zlen (toBytes e)) (result ++ [e])) (fun r w' => wsteps w segs [] w' segs [] /\
        match r with
        | Ok res => exists out, res = result ++ out /\ limited max_size total (e :: es) out
        | Err er => io_error er
        end) w1).
    { intros Hm. eapply wp_mono; [exact IH|]. intros [res|er] w2 [S2 Hr]; (split; [by eapply wsteps_trans|]); [|done].
      destruct Hr as (out & -> & Hout). exists (e :: out). split; [by rewrite <- app_assoc|]. by apply limited_more. }
    destruct max_size as [m|]; [|by apply Hmore]. destruct (Z.leb_spec m (total + zlen (toBytes e))).
    + wp_step. split; [done|]. exists [e]. split; [done|]. by apply limited_stop.
    + apply Hmore. by intros m' [= <-].
Qed.

Lemma ReadEntries_spec w segs low high max_size : wal_ok w segs -> is_u64 low -> is_u64 high ->
  payload_size (log w segs) < two64 ->
  let first := w_first_index_ w in
  let next := first + zlen (log w segs) in
  wp (ReadEntries low high max_size) (fun r w' => wal_ok w' segs /\ log w' segs = log w segs /\ wframe w w' /\
    if low <? first then r = Err (EStorage Compacted)
    else if next <? low then r = Err (EStorage Unavailable)
    else match r with
         | Ok res => limited max_size 0 (take (Z.to_nat (high - low)) (drop (Z.to_nat (low - first)) (log w segs))) res
         | Err er => io_error er
         end) w.
Proof.
  intros Hok Hl Hh Hp first next. pose proof Hok as [Hw He]. pose proof (LastIndex_eq _ _ Hok) as El. pose proof (log_length w segs) as Hn.
  fold first next in Hn. unfold ReadEntries. wp_step. wp_step. rewrite El, Hn. pose proof (next_is_u64 _ _ _ Hw) as Hnu. rewrite Hn in Hnu.
  pose proof (wm_bounds _ _ _ Hw) as [Hf _]. fold first in Hf |- *.
  assert (Ex : next - 1 +! 1 = next) by (unfold is_u64, two64 in *; u64_simpl; lia). rewrite Ex.
  destruct (Z.ltb_spec low first); [by wp_step|]. destruct (Z.ltb_spec next low); [by wp_step|].
  set (hi := if next <? high then next else high).
  assert (Es : take (Z.to_nat (high - low)) (drop (Z.to_nat (low - first)) (log w segs)) =
    take (Z.to_nat (hi - low)) (drop (Z.to_nat (low - first)) (log w segs))).
  { unfold hi. destruct (Z.ltb_spec next high); [|done]. rewrite !take_ge; [done|rewrite length_drop; lia..]. }
  rewrite Es. destruct (Z.leb_spec hi low).
  { wp_step. replace (Z.to_nat (hi - low)) with 0%nat by lia. rewrite take_0. split; [done|]. split; [done|]. split; [done|]. apply limited_nil. }
  assert (Hhi : hi <= next) by (unfold hi; destruct (Z.ltb_spec next high); lia).
  eapply wp_mono; [eapply read_entries_spec; [exact Hw|done|lia|reflexivity|done|]|].
  { pose proof (payload_size_slice (Z.to_nat (hi - low)) (Z.to_nat (low - first)) (log w segs)). fold first. lia. }
  intros [res|er] w' [S1 Hr]; destruct (same_log _ _ _ S1) as (El' & _ & Ef); (split; [|split; [done|]; split; [apply S1|]]).
  - split; [apply S1|]. rewrite (wsteps_live _ _ _ _ S1), Ef, (wf_sidx _ _ (ws_frame _ _ _ _ _ _ S1)). exact He.
  - destruct Hr as (out & -> & Hout). exact Hout.
  - split; [apply S1|]. rewrite (wsteps_live _ _ _ _ S1), Ef, (wf_sidx _ _ (ws_frame _ _ _ _ _ _ S1)). exact He.
  - done.
Qed.

(** C15: [ReadEntries] on a log between operations: unless an I/O operation
    fails, it returns the entries of the log with indexes from [low] up to
    [high] or the end of the log, with a size limit only up to the entry that
    reaches it and always at least one; a range that starts before the log is
    reported as compacted, one that starts past its end as unavailable.  The log
    does not change. *)
Theorem ReadEntries_returns_log w segs low high max_size : wal_ok w segs -> is_u64 low -> is_u64 high ->
  payload_size (log w segs) < two64 ->
  let first := w_first_index_ w in
  let next := first + zlen (log w segs) in
  wp (ReadEntries low high max_size) (fun r w' => wal_ok w' segs /\ log w' segs = log w segs /\ wframe w w' /\
    if low <? first then r = Err (EStorage Compacted)
    else if next <? low then r = Err (EStorage Unavailable)
    else match r with
         | Ok res => limited max_size 0 (take (Z.to_nat (high - low)) (drop (Z.to_nat (low - first)) (log w segs))) res
         | Err er => io_error er
         end) w.
Proof. apply ReadEntries_spec. Qed.
End WalRead.
