(* ===== verification/WalRecovery.v ===== *)
(** * Recovery of the write-ahead log

    What [WAL::Open] makes of the files a log leaves behind, whole or with a
    record cut off at the end of a segment. *)

From S2P Require Import Prelude Types Bytes Capnp Record WalIndex Disk Metadata Segment SegmentProps SegmentManager SnapshotFile Wal Storage WalLog WalProps.

Section WalRecovery.
Context {IO : Io} {PF : Platform} {CR : Crc} {CP : Capnp}.
Implicit Types w : WAL.

(** ** Records *)

Definition rtype (r : rec) : RecordType := match r with RHard _ => RtHardState | _ => RtEntry end.
Definition rpayload (r : rec) : list Z :=
  match r with
  | REntry e => toBytes e
  | RHard h => toBytes h
  | RTail b => b
  end.

Definition whole (rs : list rec) : Prop := Forall (fun r => rec_ok r /\ is_tail r = false) rs.

Lemma rec_build r : is_tail r = false -> rec_bytes r = Build (rtype r) (rpayload r).
Proof. by destruct r. Qed.

Lemma rec_fits r : rec_ok r -> is_tail r = false -> fits_record (rpayload r).
Proof. destruct r; cbn -[toBytes]; [by intros ?%fits_traversal..|done]. Qed.

Lemma rec_header r rest : rec_ok r -> is_tail r = false ->
  rh_Deserialize (sub 0 sizeof_RecordHeader (rec_bytes r ++ rest)) = built_header (rtype r) (rpayload r).
Proof. intros Hr Ht. rewrite rec_build by done. by apply Build_header, rec_fits. Qed.

Lemma rec_total r : rec_ok r -> is_tail r = false -> TotalSize (built_header (rtype r) (rpayload r)) = zlen (rec_bytes r).
Proof. intros Hr Ht. rewrite rec_build by done. by apply Build_TotalSize, rec_fits. Qed.

(** ** What a crash leaves after the records of a segment: zeros, or a record cut off *)

Definition torn_tail (b : list Z) : Prop :=
  (exists n, b = zeros n) \/
  (exists r n, rec_ok r /\ is_tail r = false /\ (n < length (rec_bytes r))%nat /\ b = take n (rec_bytes r)).

Definition with_tail (a : aseg) (b : list Z) : aseg := a <| as_recs := as_recs a ++ [RTail b] |>.

Lemma zero_header n rest : 16 <= n -> rh_Deserialize (sub 0 sizeof_RecordHeader (zeros n ++ rest)) = mkRecordHeader 0 0 0 0 0 0.
Proof.
  intros Hn. assert (E : zeros n = zeros 16 ++ zeros (n - 16)).
  { unfold zeros. rewrite <- replicate_add. f_equal. lia. }
  rewrite E, <- app_assoc, sub_prefix by done. reflexivity.
Qed.

(** The header in front of a tail of 16 bytes or more stops the scan. *)
Lemma torn_header b : torn_tail b -> 16 <= zlen b ->
  let h := rh_Deserialize (sub 0 sizeof_RecordHeader b) in
  (rh_length h = 0 /\ rh_type h = 0) \/ zlen b < TotalSize h < 2 ^ 32.
Proof.
  intros [(n & ->)|(r & n & Hr & Ht & Hn & ->)] Hl.
  - left. unfold zeros in Hl. rewrite length_replicate in Hl. pose proof (zero_header n [] ltac:(lia)) as E. rewrite app_nil_r in E.
    rewrite E. done.
  - right. rewrite length_take in Hl |- *. pose proof (rec_size r Hr Ht) as Hs.
    assert (E : sub 0 sizeof_RecordHeader (take n (rec_bytes r)) = sub 0 sizeof_RecordHeader (rec_bytes r)).
    { rewrite <- (take_drop n (rec_bytes r)) at 2. rewrite sub_app_l; [done|done|done|]. rewrite length_take. unfold sizeof_RecordHeader. lia. }
    pose proof (rec_header r [] Hr Ht) as Eh. rewrite app_nil_r in Eh. rewrite E, Eh, rec_total by done. lia.
Qed.

(** ** One record *)

(** The hard state after a record. *)
Definition hs_step (h : HardState) (r : rec) : HardState :=
  match r with
  | RHard h' => if hs_term h <=? hs_term h' then h' else h
  | _ => h
  end.

(** The log during the scan: the index has [L], the hard state is [h]. *)
Definition scanning w (g : SegmentManager) (L : list IndexEntry) (h : HardState) : WAL :=
  w <| w_manager := g |> <| w_index_ := mkWALIndex (w_first_index_ w) L |> <| w_hard_state_ := h |>.

(** The entries of records at [off] that the log keeps. *)
Definition kept w (id off : Z) (rs : list rec) : list (IndexEntry * Entry) :=
  filter (fun p => w_first_index_ w <= e_index p.2) (places id off rs).

Lemma kept_cons w id off r rs : kept w id off (r :: rs) = kept w id off [r] ++ kept w id (off + zlen (rec_bytes r)) rs.
Proof.
  unfold kept. change (r :: rs) with ([r] ++ rs). rewrite places_app, filter_app.
  cbn [body flat_map]. by rewrite app_nil_r.
Qed.

Lemma scanning_expected w g L h : 0 < w_first_index_ w -> w_first_index_ w + zlen L < u64max ->
  (if ix_empty (w_index_ (scanning w g L h)) then w_first_index_ (scanning w g L h)
   else ix_last_index (w_index_ (scanning w g L h)) +! 1) = w_first_index_ w + zlen L.
Proof.
  intros Hf Hb. cbn -[u64 ix_last_index u64max]. rewrite ix_last_index_eq by done. unfold ix_empty. cbn -[u64 u64max].
  destruct L as [|x L]; cbn -[u64 u64max]; [lia|]. cbn [length] in Hb. rewrite u64_id; [lia|]. unfold is_u64, u64max, two64 in *. lia.
Qed.

Lemma replay_entry_spec w g L h e id off msg : 0 < w_first_index_ w -> w_first_index_ w + zlen L < u64max ->
  (w_first_index_ w <= e_index e -> e_index e = w_first_index_ w + zlen L) ->
  replay_entry e id off (zlen (rec_bytes (REntry e))) msg (scanning w g L h) =
  Ret (Ok tt, scanning w g (L ++ (kept w id off [REntry e]).*1) h).
Proof.
  intros Hf Hb He. unfold replay_entry. rewrite bind_get, scanning_expected by lia. change (w_first_index_ (scanning w g L h)) with (w_first_index_ w).
  unfold kept. cbn [places]. destruct (Z.leb_spec (w_first_index_ w) (e_index e)) as [Hle|Hlt].
  - rewrite He, Z.eqb_refl by done. cbn [negb]. rewrite filter_cons_True by (cbn; lia). rewrite filter_nil.
    unfold on_index, bind, zoom. cbn [scanning w_index_]. cbn -[ix_Insert rec_bytes].
    rewrite ix_Insert_run; [done|split; cbn -[u64max]; lia|done].
  - rewrite filter_cons_False by (cbn; lia). rewrite filter_nil. cbn [fmap list_fmap]. by rewrite app_nil_r.
Qed.

Lemma replay_record_spec w g L h r id off : rec_ok r -> is_tail r = false -> 0 < w_first_index_ w -> w_first_index_ w + zlen L < u64max ->
  contiguous (w_first_index_ w + zlen L) (kept w id off [r]).*2 ->
  replay_record (record_type (rh_type (built_header (rtype r) (rpayload r)))) (rpayload r) id off (zlen (rec_bytes r)) (scanning w g L h) =
  Ret (Ok tt, scanning w g (L ++ (kept w id off [r]).*1) (hs_step h r)).
Proof.
  intros Hr Ht Hf Hb Hc. destruct r as [e|h'|b]; [| |done].
  - change (record_type _) with (Some RtEntry). cbn [replay_record rpayload]. rewrite fromPayload_toBytes by exact Hr.
    apply replay_entry_spec; [done|done|]. intros He. unfold kept in Hc. cbn [places] in Hc. rewrite filter_cons_True in Hc by (cbn; lia).
    by destruct Hc as [Hc _].
  - change (record_type _) with (Some RtHardState). cbn [replay_record rpayload hs_step]. rewrite fromPayload_toBytes by exact Hr.
    rewrite bind_get. change (kept w id off [RHard h']) with (@nil (IndexEntry * Entry)). cbn [fmap list_fmap]. rewrite app_nil_r.
    cbn [scanning w_hard_state_]. cbn. destruct (_ <=? _); reflexivity.
Qed.

(** ** One segment *)

(** A tail of no bytes is no tail. *)
Lemma drop_empty_tail g l a r : mg_ok g (l ++ with_tail a [] :: r) -> steps g (l ++ with_tail a [] :: r) g (l ++ a :: r).
Proof.
  intros Hg. assert (Eb : body (as_recs (with_tail a [])) = body (as_recs a)).
  { cbn -[body]. rewrite body_app. cbn. apply app_nil_r. }
  assert (Ei : as_id <$> (l ++ a :: r) = as_id <$> (l ++ with_tail a [] :: r)) by (by rewrite !fmap_app).
  constructor; [|done]. destruct Hg as [Hs Hok Hids Hcur Hsz Hbf Hdir Ht]. constructor; rewrite ?Ei; try done.
  - apply Forall2_app_inv_r in Hs as (ml & m2 & Hl & H2 & ->). apply Forall2_cons_inv_r in H2 as (p & mr & (Ek & Hso & n & Hf & Hn) & Hr & ->).
    apply Forall2_app; [done|]. constructor; [|done]. split; [done|]. split; [done|]. exists n. rewrite Eb in Hf, Hn. by split.
  - apply Forall_app in Hok as [? Hok]. apply Forall_cons in Hok as [[? ? Hrec] ?]. apply Forall_app. split; [done|]. constructor; [|done].
    cbn in Hrec. apply Forall_app in Hrec as [? _]. by constructor.
  - rewrite Hcur, !last_id_ids. by rewrite Ei.
  - destruct Ht as [|Ht]; [by left|right]. unfold tidy in *. by rewrite Ei.
Qed.

(** What is read back of a segment that ends in [b]. *)
Definition replay_post w (g : SegmentManager) (l : list aseg) (a : aseg) (b : list Z) (r : list aseg) (L : list IndexEntry) (h : HardState)
    (res : Result unit) w' : Prop :=
  match res with
  | Ok _ => exists g', steps g (l ++ with_tail a b :: r) g' (l ++ a :: r) /\ w' = scanning w g' L h
  | Err e => io_error e
  end.

Lemma scanning_truncate w g l a b r L h : mg_ok g (l ++ with_tail a b :: r) ->
  wp (on_manager (on_segment (as_id a) (Truncate (sizeof_SegmentHeader + zlen (body (as_recs a)))))) (replay_post w g l a b r L h) (scanning w g L h).
Proof.
  intros Hg. unfold on_manager. wp_step. change (as_id a) with (as_id (with_tail a b)). cbn [scanning w_manager]. cbn -[body with_tail sizeof_SegmentHeader].
  eapply wp_mono; [by eapply (mg_Truncate_spec _ _ _ _ (as_recs a) [RTail b])|]. intros [[]|e] g'; [|done]. intros St. exists g'. split; [|done].
  replace ((with_tail a b) <| as_recs := as_recs a |>) with a in St by (by destruct a). done.
Qed.

(** A read inside the file. *)
Lemma scanning_read {A} w g l a r L h off len rs1 rs2 b1 (k : list Z -> M WAL (Result A)) Q : mg_ok g (l ++ a :: r) -> as_recs a = rs1 ++ rs2 ->
  off = sizeof_SegmentHeader + zlen (body rs1) -> b1 = sub 0 len (body rs2) -> len = zlen b1 ->
  (forall e w', io_error e -> Q (Err e) w') ->
  (forall g', steps g (l ++ a :: r) g' (l ++ a :: r) -> wp (k b1) Q (scanning w g' L h)) ->
  wp (try! data := on_manager (on_segment (as_id a) (Read off len)) in k data) Q (scanning w g L h).
Proof.
  intros Hg Er Eo Eb El He Hk. wp_step. unfold on_manager. wp_step. cbn [scanning w_manager]. cbn -[sub body].
  eapply wp_mono; [by eapply mg_Read_spec|]. intros [data|e] g' [St Hd]; [|by apply He]. subst data. by apply Hk.
Qed.

(** The end of a scan. *)
Lemma replay_tail w g l a b r L h fuel : mg_ok g (l ++ with_tail a b :: r) -> torn_tail b ->
  wp (replay_loop (S fuel) (as_id a) (sizeof_SegmentHeader + zlen (body (as_recs a))) (sizeof_SegmentHeader + zlen (body (as_recs a)) + zlen b))
    (replay_post w g l a b r L h) (scanning w g L h).
Proof.
  intros Hg Hb. cbn [replay_loop]. destruct (Z.ltb_spec (sizeof_SegmentHeader + zlen (body (as_recs a))) (sizeof_SegmentHeader + zlen (body (as_recs a)) + zlen b)) as [Hlt|Hge].
  2: { assert (b = []) as -> by (destruct b; [done|cbn [length] in Hge; lia]). wp_step. exists g. split; [by apply drop_empty_tail|done]. }
  destruct (Z.ltb_spec (sizeof_SegmentHeader + zlen (body (as_recs a)) + zlen b) (sizeof_SegmentHeader + zlen (body (as_recs a)) + sizeof_RecordHeader)) as [|H16].
  { by apply scanning_truncate. }
  assert (H16b : 16 <= zlen b) by (unfold sizeof_RecordHeader in H16; lia).
  change (as_id a) with (as_id (with_tail a b)) at 1.
  eapply scanning_read with (rs1 := as_recs a) (rs2 := [RTail b]); [exact Hg|done|done|reflexivity| |by intros|].
  { cbn [body flat_map rec_bytes]. rewrite app_nil_r, sub_length; [done|done|done|unfold sizeof_RecordHeader; lia]. }
  cbn [body flat_map rec_bytes]. rewrite app_nil_r. intros g1 S1.
  assert (Htr : wp (on_manager (on_segment (as_id a) (Truncate (sizeof_SegmentHeader + zlen (flat_map rec_bytes (as_recs a))))))
    (replay_post w g l a b r L h) (scanning w g1 L h)).
  { eapply wp_mono; [apply scanning_truncate, S1|]. intros [[]|e] w'; [|done]. intros (g2 & S2 & ->). exists g2. split; [by eapply steps_trans|done]. }
  destruct (torn_header b Hb H16b) as [[E1 E2]|[H1 H2]].
  - rewrite E1, E2. cbn [Z.eqb andb]. exact Htr.
  - destruct (_ && _); [exact Htr|].
    assert (Hbig : used (with_tail a b) [] < 2 ^ 63) by (eapply seg_bytes; exact Hg).
    rewrite used_nil in Hbig. cbn -[body sizeof_SegmentHeader] in Hbig. rewrite body_app in Hbig. cbn [body flat_map rec_bytes] in Hbig.
    rewrite app_nil_r, length_app in Hbig. fold (body (as_recs a)) in Hbig |- *.
    rewrite u64_id by (unfold is_u64, two64, sizeof_SegmentHeader in *; lia). rewrite (proj2 (Z.ltb_lt _ _)) by lia. exact Htr.
Qed.

Lemma replay_loop_spec w l a b r rs2 : torn_tail b -> whole rs2 -> 0 < w_first_index_ w -> forall fuel rs1 g L h,
  mg_ok g (l ++ with_tail a b :: r) -> as_recs a = rs1 ++ rs2 -> (length rs2 < fuel)%nat ->
  let new := kept w (as_id a) (sizeof_SegmentHeader + zlen (body rs1)) rs2 in
  contiguous (w_first_index_ w + zlen L) new.*2 -> w_first_index_ w + zlen L + zlen new < u64max ->
  wp (replay_loop fuel (as_id a) (sizeof_SegmentHeader + zlen (body rs1)) (sizeof_SegmentHeader + zlen (body (as_recs a)) + zlen b))
    (replay_post w g l a b r (L ++ new.*1) (foldl hs_step h rs2)) (scanning w g L h).
Proof.
  intros Hb. induction rs2 as [|rc rs2 IH]; intros Hw Hf fuel rs1 g L h Hg Er Hfuel new Hc Hbd; (destruct fuel as [|fuel]; [lia|]).
  { rewrite app_nil_r in Er. subst rs1. unfold new. change (kept w _ _ []) with (@nil (IndexEntry * Entry)). cbn [fmap list_fmap foldl]. rewrite app_nil_r.
    by apply replay_tail. }
  apply Forall_cons in Hw as [[Hr Ht] Hw]. pose proof (rec_size rc Hr Ht) as Hsz. unfold new in *. clear new.
  set (off := sizeof_SegmentHeader + zlen (body rs1)) in *. rewrite kept_cons, fmap_app in Hc. rewrite kept_cons, length_app in Hbd.
  apply contiguous_app in Hc as [Hc1 Hc2]. rewrite length_fmap in Hc2.
  assert (Hend : off + zlen (rec_bytes rc) <= sizeof_SegmentHeader + zlen (body (as_recs a)) + zlen b).
  { rewrite Er, body_app, body_cons, !length_app. unfold off. lia. }
  assert (Hbig : used (with_tail a b) [] < 2 ^ 63) by (eapply seg_bytes; exact Hg).
  assert (Hu : used (with_tail a b) [] = sizeof_SegmentHeader + zlen (body (as_recs a)) + zlen b).
  { rewrite used_nil. cbn -[body sizeof_SegmentHeader]. rewrite body_app, length_app. cbn [body flat_map rec_bytes]. rewrite app_nil_r. lia. }
  cbn [replay_loop]. rewrite (proj2 (Z.ltb_lt off _)) by (unfold sizeof_RecordHeader in *; lia).
  rewrite (proj2 (Z.ltb_ge _ _)) by (unfold sizeof_RecordHeader; lia).
  assert (Er2 : as_recs (with_tail a b) = rs1 ++ (rc :: rs2 ++ [RTail b])) by (cbn; rewrite Er; by rewrite <- app_assoc).
  change (as_id a) with (as_id (with_tail a b)) at 1.
  eapply (scanning_read _ _ _ _ _ _ _ _ _ _ _ _ _ _ Hg Er2); [done|reflexivity| |by intros|].
  { rewrite body_cons, sub_length; [done|done|done|]. rewrite length_app. unfold sizeof_RecordHeader. lia. }
  intros g1 S1. rewrite body_cons, rec_header by done. change (rh_type (built_header _ _)) with (record_code (rtype rc)).
  replace ((_ =? 0) && (record_code (rtype rc) =? 0)) with false by (destruct rc; cbn; by rewrite andb_false_r).
  rewrite rec_total by done. rewrite u64_id by (unfold is_u64, two64, off, sizeof_SegmentHeader in *; lia).
  rewrite (proj2 (Z.ltb_ge _ _)) by lia.
  change (as_id a) with (as_id (with_tail a b)) at 1.
  eapply (scanning_read _ _ _ _ _ _ _ _ _ _ _ _ _ _ (st_ok _ _ _ _ S1) Er2); [done|reflexivity| |by intros|].
  { rewrite body_cons. by rewrite sub_prefix. }
  intros g2 S2. rewrite body_cons, sub_prefix by done. pose proof (rec_build rc Ht) as Eb.
  replace (RecordParser (rec_bytes rc)) with (Some (built_header (rtype rc) (rpayload rc), rpayload rc)).
  2: { rewrite Eb, <- (app_nil_r (Build _ _)). symmetry. by apply parse_Build, rec_fits. }
  cbv beta iota. wp_step.
  destruct (segment_get_at g2 l (with_tail a b) r sg_segment_id_ (st_ok _ _ _ _ S2)) as (s & n & Eo & (Es & _) & _).
  unfold on_manager. wp_step. cbn [scanning w_manager]. cbn -[body replay_loop with_tail kept replay_record foldl built_header].
  eapply wp_getsO; [exact Eo|]. rewrite Es.
  change (as_id (with_tail a b)) with (as_id a). wp_step.
  eapply wp_run; [apply (replay_record_spec w g2 L h rc (as_id a) off Hr Ht Hf); [lia|done]|]. cbv beta iota.
  assert (Er3 : as_recs a = (rs1 ++ [rc]) ++ rs2) by (rewrite Er; by rewrite <- app_assoc).
  assert (Eoff : off + zlen (rec_bytes rc) = sizeof_SegmentHeader + zlen (body (rs1 ++ [rc]))).
  { rewrite body_app, length_app. cbn [body flat_map]. rewrite app_nil_r. unfold off. lia. }
  rewrite Eoff. eapply wp_mono; [apply (IH Hw Hf fuel (rs1 ++ [rc]) g2); [apply S2|done|cbn [length] in Hfuel; lia|..]|].
  - rewrite length_app, length_fmap, <- Eoff. by replace (w_first_index_ w + _) with (w_first_index_ w + zlen L + zlen (kept w (as_id a) off [rc])) by lia.
  - rewrite length_app, length_fmap, <- Eoff. lia.
  - intros [[]|e] w'; [|done]. intros (g3 & S3 & ->). exists g3. split; [eapply steps_trans; [exact S1|]; by eapply steps_trans|].
    cbn [foldl]. rewrite <- Eoff, (kept_cons w _ off rc rs2), fmap_app, <- app_assoc. done.
Qed.

Lemma whole_length rs : whole rs -> zlen rs <= zlen (body rs).
Proof.
  induction 1 as [|r rs [Hr Ht] _ IH]; [done|]. rewrite body_cons, length_app. pose proof (rec_size r Hr Ht). cbn [length]. lia.
Qed.

Lemma tail_body a b : body (as_recs (with_tail a b)) = body (as_recs a) ++ b.
Proof. cbn -[body]. rewrite body_app. f_equal. cbn. apply app_nil_r. Qed.

Lemma ReplaySegment_spec w g l a b r L h : torn_tail b -> whole (as_recs a) -> 0 < w_first_index_ w -> mg_ok g (l ++ with_tail a b :: r) ->
  let new := kept w (as_id a) sizeof_SegmentHeader (as_recs a) in
  contiguous (w_first_index_ w + zlen L) new.*2 -> w_first_index_ w + zlen L + zlen new < u64max ->
  wp (ReplaySegment (as_id a)) (replay_post w g l a b r (L ++ new.*1) (foldl hs_step h (as_recs a))) (scanning w g L h).
Proof.
  intros Hb Hw Hf Hg new Hc Hbd. unfold ReplaySegment. wp_step. unfold on_manager. wp_step.
  destruct (segment_get_at g l (with_tail a b) r sg_write_offset_ Hg) as (s & n & Eo & _ & [Hh _]). eapply wp_getsO; [exact Eo|].
  rewrite (sh_offset _ _ _ _ Hh), tail_body, length_app. pose proof (whole_length _ Hw) as Hl.
  replace (sizeof_SegmentHeader + Z.of_nat (length (body (as_recs a)) + length b)) with (sizeof_SegmentHeader + zlen (body (as_recs a)) + zlen b) by lia.
  replace sizeof_SegmentHeader with (sizeof_SegmentHeader + zlen (body [])) at 2 by (cbn; done).
  apply (replay_loop_spec w l a b r (as_recs a) Hb Hw Hf _ [] g); [done|done| |done|done]. unfold sizeof_SegmentHeader. lia.
Qed.

(** ** All segments *)

(** Segments with what follows their records. *)
Definition tailed (ps : list (aseg * list Z)) : list aseg := (fun p => with_tail p.1 p.2) <$> ps.

(** The hard state after the records of the segments. *)
Definition hs_replay (h : HardState) (segs : list aseg) : HardState := foldl hs_step h (flat_map as_recs segs).

Lemma tailed_first ps : as_first <$> tailed ps = as_first <$> ps.*1.
Proof. unfold tailed. by rewrite <- !list_fmap_compose. Qed.

Lemma live_single w a : live (w_first_index_ w) [a] = kept w (as_id a) sizeof_SegmentHeader (as_recs a).
Proof. unfold live, all_places, kept. cbn [flat_map]. by rewrite app_nil_r. Qed.

Lemma replay_all w g0 ps h infos : mg_ok g0 (tailed ps) -> starts_sorted ps.*1 -> Forall (fun p => torn_tail p.2 /\ whole (as_recs p.1)) ps ->
  0 < w_first_index_ w -> contiguous (w_first_index_ w) (w_live w ps.*1).*2 -> next_index w ps.*1 < u64max ->
  si_first_index <$> infos = as_first <$> ps.*1 ->
  wp (foreachM infos (fun seg_info =>
        let! w := get in
        match GetSegmentForIndex (si_first_index seg_info) (w_manager w) with
        | Some segment => ReplaySegment segment
        | None => rok tt
        end)) (fun res w' =>
    match res with
    | Ok _ => exists g', steps g0 (tailed ps) g' ps.*1 /\ w' = scanning w g' (w_live w ps.*1).*1 (hs_replay h ps.*1)
    | Err e => io_error e
    end) (scanning w g0 [] h).
Proof.
  intros Hg0 Hst Hps Hf Hc Hb Hin.
  apply (wp_foreachM _ _ (fun rest w1 => exists l todo g1, ps.*1 = l ++ todo.*1 /\ si_first_index <$> rest = as_first <$> todo.*1 /\
    Forall (fun p => torn_tail p.2 /\ whole (as_recs p.1)) todo /\
    steps g0 (tailed ps) g1 (l ++ tailed todo) /\ w1 = scanning w g1 (w_live w l).*1 (hs_replay h l))).
  - exists [], ps, g0. split; [done|]. split; [done|]. split; [done|]. split; [by apply steps_refl|done].
  - intros x rest w1 (l & todo & g1 & Eps & Ex & Ht & S1 & ->). destruct todo as [|[a b] todo]; [done|]. cbn in Ex. injection Ex as Ex1 Ex2.
    apply Forall_cons in Ht as [[Htb Hwa] Ht]. cbn [fst snd] in *. wp_step. wp_step. pose proof (st_ok _ _ _ _ S1) as Hg1.
    change (tailed ((a, b) :: todo)) with (with_tail a b :: tailed todo) in *. rewrite fmap_cons in Eps. cbn [fst] in Eps.
    change (w_manager (scanning w g1 (w_live w l).*1 (hs_replay h l))) with g1. rewrite (GetSegmentForIndex_route _ _ _ Hg1), Ex1.
    rewrite Eps in Hst.
    assert (Hst' : starts_sorted (l ++ with_tail a b :: tailed todo)).
    { unfold starts_sorted in *. rewrite fmap_app, fmap_cons, tailed_first in *. exact Hst. }
    rewrite (route_mid _ l (with_tail a b)); [|exact Hst'|cbn; lia|].
    2: { intros s' Hs'. unfold starts_sorted in Hst'. rewrite fmap_app, fmap_cons in Hst'. apply StronglySorted_app in Hst' as (_ & _ & Hst').
         apply StronglySorted_inv in Hst' as [_ Hall]. rewrite Forall_forall in Hall. apply Hall. apply list_elem_of_fmap. exists s'.
         split; [done|]. destruct (tailed todo); [done|]. injection Hs' as <-. left. }
    change (as_id (with_tail a b)) with (as_id a).
    assert (El : w_live w (l ++ [a]) = w_live w l ++ kept w (as_id a) sizeof_SegmentHeader (as_recs a)) by (unfold w_live; by rewrite live_app, live_single).
    assert (Eall : w_live w ps.*1 = w_live w (l ++ [a]) ++ w_live w todo.*1).
    { rewrite Eps. unfold w_live. rewrite <- live_app, <- app_assoc. done. }
    eapply wp_mono; [apply (ReplaySegment_spec w g1 l a b (tailed todo)); [done|done|done|done|..]|].
    + rewrite Eall, fmap_app, El, fmap_app in Hc. apply contiguous_app in Hc as [Hc _]. apply contiguous_app in Hc as [_ Hc].
      rewrite length_fmap in Hc. by rewrite length_fmap.
    + unfold next_index in Hb. rewrite Eall, El, !length_app in Hb. rewrite length_fmap. lia.
    + intros [[]|e] w2; [|done]. intros (g2 & S2 & ->). exists (l ++ [a]), todo, g2. split; [by rewrite <- app_assoc|]. split; [done|]. split; [done|].
      split; [rewrite <- app_assoc; by eapply steps_trans|]. rewrite El, fmap_app. unfold hs_replay. rewrite flat_map_app, foldl_app. cbn [flat_map]. by rewrite app_nil_r.
  - intros w1 (l & todo & g1 & Eps & Ex & Ht & S1 & ->). destruct todo; [|done]. cbn in Eps. rewrite app_nil_r in Eps. rewrite Eps.
    exists g1. cbn in S1. rewrite app_nil_r in S1. done.
Qed.

(** ** Opening the segments *)

Lemma smap_insert_elem {T} k v (m : list (Z * T)) p : p ∈ smap_insert k v m -> p = (k, v) \/ p ∈ m.
Proof.
  induction m as [|[k' v'] m IH]; cbn [smap_insert].
  - intros Hp. apply list_elem_of_singleton in Hp. by left.
  - destruct (_ =? _); [|destruct (_ <? _)]; intros Hp.
    + apply elem_of_cons in Hp as [->|Hp]; [by left|right; by right].
    + apply elem_of_cons in Hp as [->|Hp]; [by left|by right].
    + apply elem_of_cons in Hp as [->|Hp]; [right; left|]. destruct (IH Hp) as [->|Hp']; [by left|right; by right].
Qed.

Lemma smap_insert_key {T} k v (m : list (Z * T)) k' : k' ∈ (smap_insert k v m).*1 <-> k' = k \/ k' ∈ m.*1.
Proof.
  induction m as [|[k1 v1] m IH]; cbn [smap_insert].
  - rewrite fmap_cons. cbn. rewrite list_elem_of_singleton, elem_of_nil. tauto.
  - destruct (Z.eqb_spec k k1) as [->|]; [|destruct (_ <? _)]; rewrite !fmap_cons, !elem_of_cons; cbn [fst]; rewrite ?IH; tauto.
Qed.

Lemma smap_insert_sorted {T} k v (m : list (Z * T)) : StronglySorted Z.lt m.*1 -> StronglySorted Z.lt (smap_insert k v m).*1.
Proof.
  induction m as [|[k1 v1] m IH]; cbn [smap_insert]; [by repeat constructor|]. rewrite fmap_cons. intros Hs.
  pose proof Hs as Hs0. apply StronglySorted_inv in Hs as [Hs Hall]. cbn [fst] in *.
  destruct (Z.eqb_spec k k1) as [->|Hne]; [done|]. destruct (Z.ltb_spec k k1); rewrite !fmap_cons; cbn [fst].
  - constructor; [done|]. constructor; [done|]. eapply Forall_impl; [exact Hall|]. cbn. lia.
  - constructor; [by apply IH|]. apply Forall_forall. intros x Hx. apply smap_insert_key in Hx as [->|Hx]; [lia|].
    rewrite Forall_forall in Hall. by apply Hall.
Qed.

(** Strictly sorted lists with the same elements are equal. *)
Lemma sorted_ext (l k : list Z) : StronglySorted Z.lt l -> StronglySorted Z.lt k -> (forall x, x ∈ l <-> x ∈ k) -> l = k.
Proof.
  intros Hl Hk Hx. apply (StronglySorted_unique_strong Z.lt); [lia|done|done|]. apply NoDup_Permutation; auto using sorted_nodup.
Qed.

(** The file of a segment. *)
Definition seg_bytes_of (a : aseg) : list Z := sh_Serialize (new_segment_header (as_id a) (as_first a)) ++ body (as_recs a).

Definition seg_object (io : SegmentIo) (a : aseg) : Segment :=
  let size := sizeof_SegmentHeader + zlen (body (as_recs a)) in
  mkSegment true (as_id a) (as_first a) size size (MakeSegmentFilename (as_id a)) io.

(** A directory that holds [segs] and no other segments. *)
Record disk_holds (d : Disk) (segs : list aseg) : Prop := {
  dh_dir : dir_exists d = true;
  dh_tidy : tidy d segs;
  dh_ok : Forall seg_ok segs;
  dh_ids : StronglySorted Z.lt (as_id <$> segs);
  dh_files : Forall (fun a => files d !! MakeSegmentFilename (as_id a) = Some (seg_bytes_of a) /\
                              sizeof_SegmentHeader + zlen (body (as_recs a)) < 2 ^ 63) segs
}.

Definition config_ok (config : WALConfig) : Prop :=
  sizeof_SegmentHeader < wc_segment_size config < 2 ^ 62 /\ 0 <= wc_write_buffer_size config < 2 ^ 32.

(** The manager while segments are opened; [names] are left. *)
Record opening (d : Disk) (config : WALConfig) (io : SegmentIo) (segs : list aseg) (names : list string) (g : SegmentManager) : Prop := {
  op_disk : same_files d (mg_disk g);
  op_config : mg_config_ g = config;
  op_io : mg_io_factory_ g = io;
  op_sorted : StronglySorted Z.lt (mg_segments_ g).*1;
  op_objects : forall p, p ∈ mg_segments_ g -> exists a, a ∈ segs /\ p = (as_id a, seg_object io a);
  op_all : forall a, a ∈ segs -> as_id a ∈ (mg_segments_ g).*1 \/ MakeSegmentFilename (as_id a) ∈ names;
  op_current : Forall (fun k => k <= mg_current_segment_id_ g) (mg_segments_ g).*1 /\
               (mg_current_segment_id_ g ∈ (mg_segments_ g).*1 \/ (mg_segments_ g = [] /\ mg_current_segment_id_ g = 0))
}.

Lemma open_segment_spec d config io segs a names g : ~ io_fault -> disk_holds d segs -> a ∈ segs ->
  opening d config io segs (MakeSegmentFilename (as_id a) :: names) g ->
  wp (open_segment (MakeSegmentFilename (as_id a))) (fun _ g' => opening d config io segs names g') g.
Proof.
  intros Hio [] Ha []. rewrite Forall_forall in dh_files0, dh_ok0. destruct (dh_files0 a Ha) as [Hfile Hsz]. pose proof (dh_ok0 a Ha) as [Hid Hfirst _].
  unfold open_segment. wp_steps. rewrite op_io0. unfold on_mg_disk. wp_step.
  eapply wp_mono; [apply (Open_spec _ io (as_id a) (as_first a) (body (as_recs a)))|].
  { destruct op_disk0 as [-> _]. exact Hfile. }
  { unfold is_u64, two64. lia. }
  { done. }
  intros [s|e] d1 [S1 Hr]; [|by destruct Hr]. subst s. wp_steps. fold (seg_object io a).
  assert (Hbase : forall cur, Forall (fun k => k <= cur) (as_id a :: (mg_segments_ g).*1) -> cur = as_id a \/ cur ∈ (mg_segments_ g).*1 ->
    opening d config io segs names (g <| mg_disk := d1 |> <| mg_segments_ := smap_insert (as_id a) (seg_object io a) (mg_segments_ g) |> <| mg_current_segment_id_ := cur |>)).
  { intros cur Hcur Hin. constructor; cbn -[smap_insert].
    - by etransitivity.
    - done.
    - done.
    - by apply smap_insert_sorted.
    - intros p Hp. apply smap_insert_elem in Hp as [->|Hp]; [by exists a|by apply op_objects0].
    - intros b Hb. rewrite smap_insert_key. destruct (op_all0 b Hb) as [Hk|Hn]; [left; by right|].
      apply elem_of_cons in Hn as [Hn|Hn]; [|by right]. left. left. apply (names_inj b a); [by apply dh_ok0|by apply dh_ok0|done].
    - split; [|left; by rewrite smap_insert_key]. apply Forall_forall. intros k Hk. rewrite Forall_forall in Hcur.
      apply smap_insert_key in Hk as [->|Hk]; apply Hcur; [left|by right]. }
  destruct op_current0 as [Hmax Hcur]. unfold when.
  match goal with |- context [if ?c then _ else _] => change c with (mg_current_segment_id_ g <? as_id a) end.
  destruct (Z.ltb_spec (mg_current_segment_id_ g) (as_id a)) as [Hlt|Hge]; wp_step.
  - apply (Hbase (as_id a)); [|by left]. constructor; [lia|]. eapply Forall_impl; [exact Hmax|]. cbn. lia.
  - apply (Hbase (mg_current_segment_id_ g)); [by constructor|]. right. destruct Hcur as [Hc|[_ Hc]]; [done|lia].
Qed.

(** Two ways to list the segments by number. *)
Lemma Forall2_keys {A B} (R : Z * A -> B -> Prop) (f : B -> Z) (m : list (Z * A)) (l : list B) : m.*1 = f <$> l -> NoDup (f <$> l) ->
  (forall p, p ∈ m -> exists b, b ∈ l /\ p.1 = f b /\ R p b) -> Forall2 R m l.
Proof.
  intros Ek Hnd Hm. apply Forall2_same_length_lookup. split.
  { by rewrite <- (length_fmap fst m), Ek, length_fmap. }
  intros i p b Hp Hb. destruct (Hm p) as (b' & Hb' & Epb & Hr); [by eapply list_elem_of_lookup_2|].
  enough (b' = b) as <- by done. apply list_elem_of_lookup_1 in Hb' as (j & Hj).
  assert (Ei : (f <$> l) !! i = Some p.1) by (rewrite <- Ek, list_lookup_fmap, Hp; done).
  assert (Ej : (f <$> l) !! j = Some p.1) by (rewrite list_lookup_fmap, Hj, Epb; done).
  assert (i = j) as -> by (by eapply NoDup_lookup). congruence.
Qed.

(** The manager when all segments are open. *)
Lemma opening_done d config io segs g : disk_holds d segs -> config_ok config -> opening d config io segs [] g -> mg_ok g segs.
Proof.
  intros Hd [Hsz Hbf] []. pose proof Hd as []. rewrite Forall_forall in dh_files0.
  assert (Ek : (mg_segments_ g).*1 = as_id <$> segs).
  { apply sorted_ext; [done|done|]. intros k. split.
    - intros Hk. apply list_elem_of_fmap in Hk as (p & -> & Hp). destruct (op_objects0 p Hp) as (a & Ha & ->). apply list_elem_of_fmap. eauto.
    - intros Hk. apply list_elem_of_fmap in Hk as (a & -> & Ha). destruct (op_all0 a Ha) as [|Hn]; [done|]. by apply elem_of_nil in Hn. }
  pose proof (sorted_nodup _ dh_ids0) as Hnd.
  pose proof op_disk0 as [Ef Ed]. constructor; try rewrite op_config0; try done.
  - apply (Forall2_keys _ as_id); [done|done|]. intros p Hp. destruct (op_objects0 p Hp) as (a & Ha & ->). exists a. split; [done|]. split; [done|].
    destruct (dh_files0 a Ha) as [Hfile Hb]. split; [done|]. split; [done|]. exists 0. split; [|cbn -[body sizeof_SegmentHeader]; lia].
    split; [done| |done]. cbn [seg_object sg_path_ snd]. rewrite Ef, Hfile. unfold seg_bytes_of. by rewrite app_nil_r.
  - rewrite last_id_ids, <- Ek. destruct op_current0 as [Hmax [Hin|[E0 E1]]]; [|by rewrite E0].
    destruct ((mg_segments_ g).*1) as [|x l _] eqn:El using rev_ind; [by apply elem_of_nil in Hin|].
    rewrite last_snoc. cbn. apply Forall_app in Hmax as [_ Hx]. apply Forall_cons in Hx as [Hx _].
    apply elem_of_app in Hin as [Hin|Hin]; [|by apply list_elem_of_singleton in Hin].
    rewrite <- Ek in dh_ids0. assert (mg_current_segment_id_ g < x); [|lia].
    eapply StronglySorted_app_1_elem_of; [exact op_sorted0|done|left].
  - congruence.
  - right. unfold tidy. rewrite Ef. done.
Qed.

Lemma mg_Initialize_spec d config io segs : ~ io_fault -> disk_holds d segs -> config_ok config ->
  wp mg_Initialize (fun r g => r = Ok tt /\ mg_ok g segs /\ same_files d (mg_disk g) /\ mg_config_ g = config /\ mg_io_factory_ g = io)
    (new_segment_manager d config io).
Proof.
  intros Hio Hd Hc. pose proof Hd as []. unfold mg_Initialize. wp_steps. cbn [new_segment_manager mg_disk]. rewrite dh_dir0. cbn [negb].
  wp_steps. unfold on_mg_disk. wp_steps. cbn [mg_disk new_segment_manager]. apply wp_list; [|by intros].
  intros d1 S1. wp_step.
  set (names := merge_sort name_le (filter (fun name => is_Some (ParseSegmentId name)) (elements (dom (files d))))).
  assert (Hnames : forall n, n ∈ names <-> n ∈ MakeSegmentFilename <$> (as_id <$> segs)).
  { intros n. unfold names. rewrite merge_sort_Permutation, list_elem_of_filter, elem_of_elements, elem_of_dom. split.
    - intros [Hp Hf]. by apply dh_tidy0.
    - intros Hn. apply list_elem_of_fmap in Hn as (id & -> & Hn). apply list_elem_of_fmap in Hn as (a & -> & Ha).
      rewrite Forall_forall in dh_files0, dh_ok0. destruct (dh_files0 a Ha) as [-> _]. rewrite (parse_name a) by auto. split; by eexists. }
  apply (wp_foreach _ _ (fun rest g => (forall n, n ∈ rest -> n ∈ names) /\ opening d config io segs rest g)).
  - split; [done|]. constructor; cbn; try done.
    + constructor.
    + intros p Hp. by apply elem_of_nil in Hp.
    + intros a Ha. right. apply Hnames. apply list_elem_of_fmap. exists (as_id a). split; [done|]. apply list_elem_of_fmap. eauto.
    + split; [constructor|by right].
  - intros n rest g [Hr Hop]. assert (Hn : n ∈ names) by (apply Hr; left). apply Hnames in Hn. apply list_elem_of_fmap in Hn as (id & -> & Hn).
    apply list_elem_of_fmap in Hn as (a & -> & Ha). eapply wp_mono; [by eapply open_segment_spec|]. cbn. intros _ g' Hg'. split; [|done].
    intros n Hn. apply Hr. by right.
  - intros g [_ Hop]. wp_step. split; [done|]. split; [by eapply opening_done|]. by destruct Hop.
Qed.

(** ** The whole log *)

(** What a log leaves in its directory: the metadata, and the records of its
    segments, each with a tail that is no record. *)
Record left_behind w (ps : list (aseg * list Z)) (d : Disk) : Prop := {
  lb_disk : disk_holds d (tailed ps);
  lb_tails : Forall (fun p => torn_tail p.2) ps;
  lb_meta : files d !! kMetadataFile = Some (Serialize (CreateMetadata w));
  lb_fits : metadata_fits (CreateMetadata w)
}.

(** The hard state a log comes back with. *)
Definition recovered_hard_state w (segs : list aseg) : HardState :=
  hs_replay (if 0 <? w_snapshot_index_ w then advance_hard_state (w_hard_state_ w) (w_snapshot_index_ w) (w_snapshot_term_ w)
             else w_hard_state_ w) segs.

(** The invariant is a matter of the segments, the index and the bounds. *)
Lemma wal_ok_rebuild w w' segs : wal_ok w segs -> mg_ok (w_manager w') segs -> w_size w' = w_size w ->
  w_first_index_ w' = w_first_index_ w -> w_snapshot_index_ w' = w_snapshot_index_ w ->
  w_index_ w' = mkWALIndex (w_first_index_ w) (w_live w segs).*1 -> w_write_buffer_ w' = [] -> w_pending_entries_ w' = [] ->
  wal_ok w' segs /\ log w' segs = log w segs.
Proof.
  intros [Hw He] Hg Es Ef Ex Ei Eb Ep.
  assert (El : w_live w' segs = w_live w segs) by (unfold w_live; by rewrite Ef).
  assert (En : next_index w' segs = next_index w segs) by (unfold next_index; by rewrite El, Ef).
  split; [|unfold log, w_log; by rewrite El]. split; [|by rewrite El, Ef, Ex].
  destruct Hw. constructor; rewrite ?El, ?En, ?Es, ?Ef; done.
Qed.

Lemma tailed_tails w ps : wal_ok w ps.*1 -> Forall (fun p => torn_tail p.2) ps ->
  Forall (fun p => torn_tail p.2 /\ whole (as_recs p.1)) ps.
Proof.
  intros [Hw _] Ht. pose proof (wm_whole _ _ _ Hw) as Hh. pose proof (gk_ok _ _ (wm_mg _ _ _ Hw)) as Hok.
  rewrite Forall_fmap in Hh, Hok. rewrite !Forall_forall in *. intros p Hp. split; [by apply Ht|]. apply Forall_forall. intros r Hr.
  specialize (Hh p Hp). specialize (Hok p Hp). cbn in Hh, Hok. destruct Hok as [_ _ Hrec]. rewrite Forall_forall in Hh, Hrec. auto.
Qed.

Definition opened_wal w (segs : list aseg) (w' : WAL) : Prop :=
  wal_ok w' segs /\ log w' segs = log w segs /\ w_hard_state_ w' = recovered_hard_state w segs /\
  w_conf_state_ w' = w_conf_state_ w /\ w_peer_addresses_ w' = w_peer_addresses_ w /\ w_first_index_ w' = w_first_index_ w /\
  w_snapshot_index_ w' = w_snapshot_index_ w /\ w_snapshot_term_ w' = w_snapshot_term_ w.

(** The log after the metadata of [w] was read into [w0]. *)
Definition base_wal w w0 : WAL :=
  w0 <| w_conf_state_ := w_conf_state_ w |> <| w_peer_addresses_ := w_peer_addresses_ w |> <| w_first_index_ := w_first_index_ w |>
     <| w_snapshot_index_ := w_snapshot_index_ w |> <| w_snapshot_term_ := w_snapshot_term_ w |>.

Lemma base_scanning w w0 g h : w_index_ w0 = new_index ->
  let w1 := w0 <| w_manager := g |> <| w_hard_state_ := w_hard_state_ w |> <| w_conf_state_ := w_conf_state_ w |>
               <| w_peer_addresses_ := w_peer_addresses_ w |> <| w_first_index_ := w_first_index_ w |>
               <| w_snapshot_index_ := w_snapshot_index_ w |> <| w_snapshot_term_ := w_snapshot_term_ w |> in
  let w2 := w1 <| w_hard_state_ := h |> in
  w1 <| w_index_ := (w_index_ w1) <| ix_first_index_ := w_first_index_ w |> |> = scanning (base_wal w w0) g [] (w_hard_state_ w) /\
  w2 <| w_index_ := (w_index_ w2) <| ix_first_index_ := w_first_index_ w |> |> = scanning (base_wal w w0) g [] h.
Proof. destruct w0 as [? x]. intros E. change (x = new_index) in E. subst x. vm_compute. done. Qed.

Lemma list_segments_first g segs : mg_ok g segs -> si_first_index <$> ListSegments g = as_first <$> segs.
Proof.
  intros Hg. pose proof (gk_segs _ _ Hg) as Hs. unfold ListSegments. rewrite <- list_fmap_compose. clear Hg. revert Hs.
  generalize (mg_segments_ g), (mg_disk g). intros m d. induction 1 as [|p a m segs (_ & (_ & Ef & _) & _) _ IH]; [done|].
  rewrite !fmap_cons. cbn. by rewrite Ef, IH.
Qed.

Lemma Recover_spec w ps config w0 : ~ io_fault -> wal_ok w ps.*1 -> metadata_fits (CreateMetadata w) -> Forall (fun p => torn_tail p.2) ps ->
  wc_segment_size config = w_size w -> files (w_disk w0) !! kMetadataFile = Some (Serialize (CreateMetadata w)) ->
  mg_ok (w_manager w0) (tailed ps) -> mg_config_ (w_manager w0) = config -> w_index_ w0 = new_index -> w_write_buffer_ w0 = [] -> w_pending_entries_ w0 = [] ->
  wp Recover (fun r w' =>
    if hs_commit (recovered_hard_state w ps.*1) <=? next_index w ps.*1 - 1 then r = Ok tt /\ opened_wal w ps.*1 w' /\ files (w_disk w') !! kSnapshotFile = files (w_disk w0) !! kSnapshotFile
    else r = Err (EFatal "WAL inconsistent: last_index {} < committed {}")) w0.
Proof.
  intros Hio Hok Hfits Ht Hsize Hmeta Hg Hcfg Hix Hbuf Hpend. unfold Recover. wp_step. unfold on_files, on_manager, on_mg_disk. wp_steps.
  eapply wp_mono; [apply (Load_spec (CreateMetadata w)); [done|exact Hmeta]|]. intros [meta|e] d1 [S1 Hr]; [|by destruct Hr]. cbn [load_post] in Hr. subst meta.
  cbn [loaded CreateMetadata wm_hard_state wm_conf_state]. cbn -[wp].
  set (g1 := (w_manager w0) <| mg_disk := d1 |>). set (wB := base_wal w w0).
  set (h0 := if 0 <? w_snapshot_index_ w then advance_hard_state (w_hard_state_ w) (w_snapshot_index_ w) (w_snapshot_term_ w) else w_hard_state_ w).
  assert (Hg1 : mg_ok g1 (tailed ps)) by (apply (mg_ok_disk (w_manager w0) d1 (tailed ps) Hg S1)).
  assert (Hgo : wp (let! segments := gets (fun w => ListSegments (w_manager w)) in
      try! _ := foreachM segments (fun seg_info =>
        let! w := get in
        match GetSegmentForIndex (si_first_index seg_info) (w_manager w) with
        | Some segment => ReplaySegment segment
        | None => rok tt
        end) in
      let! w := get in
      if LastIndexUnlocked w <? hs_commit (w_hard_state_ w) then
        rfail (EFatal "WAL inconsistent: last_index {} < committed {}")
      else rok tt) (fun r w' =>
    if hs_commit (recovered_hard_state w ps.*1) <=? next_index w ps.*1 - 1 then r = Ok tt /\ opened_wal w ps.*1 w' /\ files (w_disk w') !! kSnapshotFile = files (w_disk w0) !! kSnapshotFile
    else r = Err (EFatal "WAL inconsistent: last_index {} < committed {}")) (scanning wB g1 [] h0)).
  { pose proof Hok as [Hw _]. wp_step. wp_step. wp_step.
    eapply wp_mono; [apply (replay_all wB g1 ps h0); [done|apply (wm_starts _ _ _ Hw)|by eapply tailed_tails|..]|].
    - apply (wm_bounds _ _ _ Hw).
    - pose proof (wm_contig _ _ _ Hw) as Hc. rewrite app_nil_r in Hc. exact Hc.
    - pose proof (wm_bounds _ _ _ Hw) as [_ Hb]. cbn [length] in Hb. rewrite Z.add_0_r in Hb. exact Hb.
    - rewrite <- tailed_first. by apply list_segments_first.
    - intros [[]|e] w'; [|by intros [_ ?]]. intros (g2 & S2 & ->).
      destruct (wal_ok_rebuild w (scanning wB g2 (w_live wB ps.*1).*1 (hs_replay h0 ps.*1)) ps.*1 Hok) as [Hok' El]; try done.
      + apply S2.
      + unfold w_size at 1, w_config. cbn [scanning w_manager]. cbn. rewrite (gf_config _ _ (st_frame _ _ _ _ S2)). cbn. by rewrite Hcfg.
      + wp_step. wp_step. rewrite (LastIndex_eq _ _ Hok'). replace (next_index (scanning _ _ _ _) ps.*1) with (next_index w ps.*1) by done.
        change (w_hard_state_ (scanning _ _ _ _)) with (recovered_hard_state w ps.*1).
        destruct (Z.ltb_spec (next_index w ps.*1 - 1) (hs_commit (recovered_hard_state w ps.*1))), (Z.leb_spec (hs_commit (recovered_hard_state w ps.*1)) (next_index w ps.*1 - 1)); try lia; wp_step; [done|].
        split; [done|]. split; [by repeat (split; [done|])|]. unfold w_disk at 1. cbn [scanning w_manager]. cbn.
        rewrite (gf_files _ _ (st_frame _ _ _ _ S2)) by done. cbn. by destruct S1 as [-> _]. }
  unfold when, on_index, ix_SetFirstIndex. revert Hgo. unfold h0.
  destruct (0 <? w_snapshot_index_ w); intros Hgo; do 8 (wp_step; wp_step); wp_step.
  - rewrite (proj2 (base_scanning w w0 g1 _ Hix)). exact Hgo.
  - rewrite (proj1 (base_scanning w w0 g1 (w_hard_state_ w) Hix)). exact Hgo.
Qed.

Lemma tailed_ids ps : as_id <$> tailed ps = as_id <$> ps.*1.
Proof. unfold tailed. by rewrite <- !list_fmap_compose. Qed.

Lemma wal_Open_spec w ps d config sel : ~ io_fault -> wal_ok w ps.*1 -> left_behind w ps d -> config_ok config ->
  wc_segment_size config = w_size w -> SelectSegmentIoBackend config = Ok sel ->
  wp (wal_Open config) (fun r d' =>
    if hs_commit (recovered_hard_state w ps.*1) <=? w_first_index_ w + zlen (log w ps.*1) - 1 then
      exists w', r = Ok w' /\ d' = w_disk w' /\ opened_wal w ps.*1 w' /\ files d' !! kSnapshotFile = files d !! kSnapshotFile
    else r = Err (EFatal "WAL inconsistent: last_index {} < committed {}")) d.
Proof.
  intros Hio Hok [Hd Ht Hm Hf] Hc Hsize Esel. unfold wp, wal_Open. rewrite Esel. set (wal := mkWAL _ _ _ _ _ _ _ _ _ _ _ _).
  assert (Hi : wp wal_Initialize (fun r w' =>
    if hs_commit (recovered_hard_state w ps.*1) <=? next_index w ps.*1 - 1 then r = Ok tt /\ opened_wal w ps.*1 w' /\ files (w_disk w') !! kSnapshotFile = files d !! kSnapshotFile
    else r = Err (EFatal "WAL inconsistent: last_index {} < committed {}")) wal).
  { unfold wal_Initialize. wp_step. unfold on_files, on_manager, on_mg_disk. do 2 wp_step. unfold Metadata.Initialize. wp_step. wp_step.
    change (mg_disk (w_manager wal)) with d. rewrite (dh_dir _ _ Hd). cbn [negb]. wp_steps. unfold Exists. rewrite (has_file_true _ _ _ Hm). cbn [negb].
    wp_steps. cbn [w_manager wal]. eapply wp_mono; [by apply (mg_Initialize_spec d config (sel_io_factory sel) (tailed ps))|].
    intros r g (-> & Hg & Sd & Ecfg & Eio). cbv beta iota.
    eapply wp_mono; [eapply Recover_spec; [done|exact Hok|done|done|exact Hsize| |exact Hg|done|done|done|done]|].
    { unfold w_disk. cbn. destruct Sd as [-> _]. done. }
    intros r w'. destruct (_ <=? _); [|done]. intros (-> & Ho & Es). split; [done|]. split; [done|]. rewrite Es. unfold w_disk. cbn. by destruct Sd as [-> _]. }
  rewrite <- log_length. unfold wp in Hi. destruct (wal_Initialize wal) as [[[[]|e] w']|]; [| |done].
  - destruct (_ <=? _); [|done]. exists w'. destruct Hi as (_ & Ho & Es). by repeat (split; [done|]).
  - destruct (_ <=? _); [by destruct Hi|]. by injection Hi as ->.
Qed.

(** C12: [WAL::Open] on the directory a log has left behind, even with a record
    cut off or zeros after the last record of any segment, gives back the log:
    the same entries at the same indexes, the configuration, the peer addresses
    and the snapshot position, and the hard state that its metadata and records
    determine.  It refuses a log whose commit index is past its end.  System
    calls do what they are asked. *)
Theorem Open_recovers_log w ps d config sel : ~ io_fault -> wal_ok w ps.*1 -> left_behind w ps d -> config_ok config ->
  wc_segment_size config = w_size w -> SelectSegmentIoBackend config = Ok sel ->
  wp (wal_Open config) (fun r d' =>
    if hs_commit (recovered_hard_state w ps.*1) <=? w_first_index_ w + zlen (log w ps.*1) - 1 then
      exists w', r = Ok w' /\ d' = w_disk w' /\ opened_wal w ps.*1 w' /\ files d' !! kSnapshotFile = files d !! kSnapshotFile
    else r = Err (EFatal "WAL inconsistent: last_index {} < committed {}")) d.
Proof. apply wal_Open_spec. Qed.

(** ** A log that is not cut off *)

Lemma zero_tails d m segs : Forall2 (seg_rel d) m segs -> exists ps : list (aseg * list Z), ps.*1 = segs /\ Forall (fun p => torn_tail p.2) ps /\
  Forall (fun a => files d !! MakeSegmentFilename (as_id a) = Some (seg_bytes_of a) /\ sizeof_SegmentHeader + zlen (body (as_recs a)) < 2 ^ 63) (tailed ps).
Proof.
  induction 1 as [|p a m segs (Ek & (Ei & Ef & Ep) & n & [_ Hf _] & Hn & Hb) _ (ps & E & Ht & Hd)]; [by exists []|].
  exists ((a, zeros n) :: ps). split; [by rewrite fmap_cons, E|]. split; [constructor; [left; by exists n|done]|].
  unfold tailed. rewrite fmap_cons. constructor; [|exact Hd]. cbn [fst snd]. unfold seg_bytes_of. rewrite tail_body. split.
  - change (as_id (with_tail a (zeros n))) with (as_id a). change (as_first (with_tail a (zeros n))) with (as_first a).
    rewrite <- Ep, Hf. unfold seg_header. by rewrite Ei, Ef.
  - rewrite length_app. pose proof (zeros_length n Hn). lia.
Qed.

(** The files of a log whose metadata is up to date are those it leaves behind. *)
Lemma left_behind_clean w segs : ~ io_fault -> wal_ok w segs -> files (w_disk w) !! kMetadataFile = Some (Serialize (CreateMetadata w)) ->
  metadata_fits (CreateMetadata w) -> exists ps, ps.*1 = segs /\ left_behind w ps (w_disk w).
Proof.
  intros Hio [Hw _] Hm Hf. pose proof (wm_mg _ _ _ Hw) as Hg. destruct (zero_tails _ _ _ (gk_segs _ _ Hg)) as (ps & E & Ht & Hd).
  exists ps. split; [done|]. split; [|done|done|done]. constructor; [apply (gk_dir _ _ Hg)| | | |exact Hd].
  - destruct (gk_tidy _ _ Hg) as [|Htd]; [done|]. unfold tidy in *. by rewrite tailed_ids, E.
  - pose proof (gk_ok _ _ Hg) as Hok. rewrite <- E in Hok. unfold tailed. rewrite Forall_fmap in Hok |- *. eapply Forall_impl; [exact Hok|].
    intros p []. constructor; [done|done|]. cbn. apply Forall_app. split; [done|by repeat constructor].
  - rewrite tailed_ids, E. apply (gk_ids _ _ Hg).
Qed.
End WalRecovery.
