(* ===== verification/WalOps.v ===== *)
(** * Hard states, compaction and the metadata of the write-ahead log

    What saving a hard state, saving metadata and compacting do to a log in the
    state [wal_ok], and to what recovery makes of it. *)

From S2P Require Import Prelude Types Bytes Capnp Record WalIndex Disk Metadata Segment SegmentProps SegmentManager SnapshotFile Wal Storage WalLog WalProps WalRecovery.

Section WalOps.
Context {IO : Io} {PF : Platform} {CR : Crc} {CP : Capnp}.
Implicit Types w : WAL.

(** ** Files that are not segments *)

Lemma mg_ok_others g d' segs : mg_ok g segs -> dir_exists d' = dir_exists (mg_disk g) ->
  (forall name, is_Some (ParseSegmentId name) -> files d' !! name = files (mg_disk g) !! name) -> mg_ok (g <| mg_disk := d' |>) segs.
Proof.
  intros [Hs Hok Hids Hcur Hsz Hb Hdir Ht] Ed Ef. constructor; cbn; try done.
  - assert (Hall : Forall (fun a => files d' !! MakeSegmentFilename (as_id a) = files (mg_disk g) !! MakeSegmentFilename (as_id a)) segs).
    { eapply Forall_impl; [exact Hok|]. intros a Ha. apply Ef. by rewrite (parse_name _ Ha). }
    clear -Hs Hall. induction Hs as [|p a m segs (Ek & Hso & n & [Ho Hf Hoff] & Hn) _ IH]; [constructor|].
    apply Forall_cons in Hall as [Ha Hall]. constructor; [|by apply IH]. split; [done|]. split; [done|]. exists n. split; [|done].
    split; [done| |done]. pose proof Hso as (_ & _ & Ep). rewrite Ep in *. by rewrite Ha.
  - congruence.
  - destruct Ht as [|Ht]; [by left|right]. intros name Hin Hp. rewrite Ef in Hin by done. by apply Ht.
Qed.

(** A log whose manager has other files around its segments. *)
Lemma wal_ok_manager w segs g' : wal_ok w segs -> mg_ok g' segs -> mg_config_ g' = mg_config_ (w_manager w) ->
  wal_ok (w <| w_manager := g' |>) segs /\ log (w <| w_manager := g' |>) segs = log w segs.
Proof.
  intros Hok Hg Hc. pose proof Hok as [Hw _]. apply wal_ok_rebuild; try done.
  - unfold w_size, w_config. cbn. by rewrite Hc.
  - exact (wm_index _ _ _ Hw).
  - exact (wm_buffer _ _ _ Hw).
  - exact (wm_pending _ _ _ Hw).
Qed.

Lemma wal_mid_set_manager w segs g' : wal_mid w segs [] -> mg_ok g' segs -> mg_config_ g' = mg_config_ (w_manager w) ->
  wal_mid (w <| w_manager := g' |>) segs [].
Proof.
  intros [] Hg Hc. assert (Es : w_size (w <| w_manager := g' |>) = w_size w) by (unfold w_size, w_config; cbn; by rewrite Hc).
  constructor; rewrite ?Es; done.
Qed.

(** Saving metadata changes the metadata files only. *)
Lemma save_spec meta w segs : mg_ok (w_manager w) segs ->
  wp (on_files (Save meta)) (fun r w' => exists g', w' = w <| w_manager := g' |> /\ mg_ok g' segs /\ mg_config_ g' = mg_config_ (w_manager w) /\
    (forall name, name <> kMetadataFile -> name <> kMetadataTmpFile -> files (mg_disk g') !! name = files (w_disk w) !! name) /\
    match r with
    | Ok _ => files (mg_disk g') !! kMetadataFile = Some (Serialize meta)
    | Err e => io_error e /\ files (mg_disk g') !! kMetadataFile = files (w_disk w) !! kMetadataFile
    end) w.
Proof.
  intros Hg. unfold on_files, on_manager, on_mg_disk. wp_steps.
  eapply wp_mono; [apply AtomicWrite_spec, (gk_dir _ _ Hg)|]. intros r d' [[Hd Ho] Hr].
  eexists. split; [reflexivity|]. split; [|split; [done|split; [exact Ho|]]].
  - apply mg_ok_others; [done|done|]. intros name Hn. apply Ho; intros ->; by destruct Hn.
  - destruct r; [done|]. by destruct Hr.
Qed.

(** ** Hard states *)

(** The current segment has room for a record of [n] bytes, and a segment that
    it fills has an entry. *)
Definition room_for w (segs : list aseg) (n : Z) : Prop :=
  sizeof_SegmentHeader + n < w_size w /\
  forall l a, segs = l ++ [a] -> used a [] < w_size w /\ (used a [] + n < w_size w \/ as_first a < next_index w segs).

(** A record that is no entry, at the end of the last segment. *)
Lemma wal_mid_hard w l a h g' : wal_mid w (l ++ [a]) [] -> (used a [] + zlen (rec_bytes (RHard h)) < w_size w \/ as_first a < next_index w (l ++ [a])) ->
  steps (w_manager w) (l ++ [a]) g' (l ++ [a <| as_recs := as_recs a ++ [RHard h] |>]) ->
  let segs' := l ++ [a <| as_recs := as_recs a ++ [RHard h] |>] in
  wsteps w (l ++ [a]) [] (w <| w_manager := g' |>) segs' [] /\ w_live (w <| w_manager := g' |>) segs' = w_live w (l ++ [a]).
Proof.
  intros Hw Hroom [Hok Hf] segs'.
  pose proof Hw as [Kmg Kstarts Knext Kbuf Kpend Kix Kcontig Kroute Koff Kroom Kprog Kbounds Krecs Kwhole]. set (a' := a <| as_recs := _ |>) in *. set (w' := w <| w_manager := g' |>).
  assert (El : w_live w' segs' = w_live w (l ++ [a])).
  { unfold w_live, segs', a'. cbn [w_first_index_ w' upd]. rewrite live_push. cbn [places]. rewrite filter_nil. apply app_nil_r. }
  assert (En : next_index w' segs' = next_index w (l ++ [a])) by (unfold next_index; by rewrite El).
  assert (Es : w_size w' = w_size w) by (unfold w_size, w_config; cbn; by rewrite (gf_config _ _ Hf)).
  assert (Hids : as_id <$> segs' = as_id <$> (l ++ [a])) by (unfold segs'; by rewrite !fmap_app).
  assert (Hfs : as_first <$> segs' = as_first <$> (l ++ [a])) by (unfold segs'; by rewrite !fmap_app).
  split; [|done]. constructor; [|by constructor]. constructor; rewrite ?El, ?En, ?Es; try done.
  - unfold starts_sorted. by rewrite Hfs.
  - apply Forall_app in Knext as [Hl Ha]. apply Forall_app. split; [done|]. apply Forall_cons in Ha as [Ha _]. by constructor.
  - intros ie e Hin. rewrite (route_ext _ segs' (l ++ [a])) by done. by apply Kroute.
  - intros b e E. by destruct b.
  - intros l1 a1 E Hfull. apply app_inj_tail in E as [<- <-]. cbn. destruct Hroom as [Hr|Hr]; [|done].
    rewrite used_nil in *. unfold a' in Hfull. cbn -[body sizeof_SegmentHeader] in Hfull. rewrite body_app, length_app in Hfull.
    cbn [body flat_map] in Hfull. rewrite app_nil_r in Hfull. lia.
  - apply Forall_app in Kwhole as [Hl Ha]. apply Forall_app. split; [done|]. apply Forall_cons in Ha as [Ha _].
    constructor; [|done]. cbn. apply Forall_app. split; [done|by repeat constructor].
Qed.

(** The segment a hard state goes to. *)
Definition hard_target w (segs : list aseg) : list aseg * aseg :=
  match segs with
  | [] => ([], mkASeg 1 (w_first_index_ w) [])
  | _ => (removelast segs, List.last segs (mkASeg 0 0 []))
  end.

Lemma hard_target_snoc w l a : hard_target w (l ++ [a]) = (l, a).
Proof.
  unfold hard_target. destruct (l ++ [a]) as [|x k] eqn:E; [by destruct l|]. rewrite <- E, removelast_last, List.last_last. done.
Qed.

(** Where the segments are after a hard state was written. *)
Definition with_hard w (segs : list aseg) (h : HardState) : list aseg :=
  let (l, a) := hard_target w segs in l ++ [a <| as_recs := as_recs a ++ [RHard h] |>].

(** [GetCurrentSegmentForAppend] as [SaveHardState] calls it, with room. *)
Lemma hard_segment w segs n : wal_ok w segs -> room_for w segs n -> 0 <= n ->
  wp (GetCurrentSegmentForAppend (w_first_index_ w)) (fun r w' =>
    let (l, a) := hard_target w segs in
    match r with
    | Ok id => id = as_id a /\ exists g', w' = w <| w_manager := g' |> /\ wal_mid w' (l ++ [a]) [] /\ mg_frame (w_manager w) g' /\
                 (used a [] + n < w_size w' \/ as_first a < next_index w' (l ++ [a])) /\
                 log w' (l ++ [a]) = log w segs /\ used a [] < w_size w'
    | Err e => io_error e
    end) w.
Proof.
  intros Hok [Hn Hroom] Hpos. pose proof Hok as [Hw He]. unfold GetCurrentSegmentForAppend. wp_step. pose proof (first_u64 _ _ _ Hw) as Hu.
  destruct segs as [|a l _] using rev_ind.
  - cbn [hard_target app]. unfold on_manager. wp_step. eapply wp_mono; [by eapply GetCurrentSegment_spec; [eapply wm_mg|]|].
    intros [id|e] g'; [|done]. intros (segs' & St & -> & _ & ->). cbv beta iota.
    assert (Ef : next_index w [] = w_first_index_ w) by (unfold next_index, w_live; cbn; lia).
    destruct (wal_mid_new w [] 1 g' Hw) as [S2 El2]; [constructor|rewrite Ef; exact St|]. rewrite Ef in S2, El2. cbn [app] in S2, El2.
    pose proof (ws_mid _ _ _ _ _ _ S2) as Hw2. destruct (size_room _ _ _ Hw2) as [Hs2 _].
    pose proof (wsteps_size _ _ _ _ _ _ S2) as Es2.
    eapply (MaybeRoll_room _ [] (mkASeg 1 (w_first_index_ w) []) []); [exact Hw2|by apply new_room|].
    split; [done|]. exists g'. split; [done|]. split; [exact Hw2|]. split; [apply St|]. split; [left; rewrite Es2, used_nil; cbn -[sizeof_SegmentHeader]; lia|].
    split; [exact El2|by apply new_room].
  - rewrite hard_target_snoc. destruct (Hroom l a eq_refl) as [Ha Hor].
    unfold on_manager. wp_step. eapply wp_mono; [by eapply GetCurrentSegment_spec; [eapply wm_mg|]|].
    intros [id|e] g'; [|done]. intros (segs' & St & -> & _ & Esg). assert (segs' = l ++ [a]) as -> by (rewrite Esg; by destruct l). cbv beta iota.
    rewrite last_id_snoc. pose proof (wal_mid_manager _ _ _ _ Hw St) as S1. pose proof (wsteps_size _ _ _ _ _ _ S1) as Es1.
    eapply MaybeRoll_room; [apply S1|by rewrite Es1|]. split; [done|]. exists g'. split; [done|]. split; [apply S1|]. split; [apply St|].
    rewrite Es1. split; [exact Hor|]. split; [done|done].
Qed.

Lemma with_hard_recs w segs h : flat_map as_recs (with_hard w segs h) = flat_map as_recs segs ++ [RHard h].
Proof.
  unfold with_hard. destruct segs as [|a l _] using rev_ind; [done|]. rewrite hard_target_snoc, !flat_map_app. cbn [flat_map].
  rewrite !app_nil_r. cbn. by rewrite app_assoc.
Qed.

Lemma wal_ok_hs w segs hs : wal_ok w segs -> wal_ok (w <| w_hard_state_ := hs |>) segs /\ log (w <| w_hard_state_ := hs |>) segs = log w segs.
Proof.
  intros Hok. pose proof Hok as [Hw _]. apply wal_ok_rebuild; try done.
  - exact (wm_mg _ _ _ Hw).
  - exact (wm_index _ _ _ Hw).
  - exact (wm_buffer _ _ _ Hw).
  - exact (wm_pending _ _ _ Hw).
Qed.

Lemma flush_nothing w segs Q : wal_ok w segs -> Q (Ok tt) w -> wp FlushWriteBuffer Q w.
Proof. intros [Hw _] HQ. unfold FlushWriteBuffer. wp_steps. by rewrite (wm_buffer _ _ _ Hw). Qed.

Definition hard_state_saved w (segs : list aseg) (hs : HardState) w' (segs' : list aseg) : Prop :=
  wal_ok w' segs' /\ log w' segs' = log w segs /\ segs' = with_hard w segs hs /\
  files (w_disk w') !! kMetadataFile = Some (Serialize (CreateMetadata w')) /\
  exists g', w' = w <| w_hard_state_ := hs |> <| w_manager := g' |>.

Lemma SaveHardState_spec w segs hs : wal_ok w segs -> rec_ok (RHard hs) -> room_for w segs (zlen (rec_bytes (RHard hs))) ->
  wp (SaveHardState hs) (fun r w' =>
    match r with
    | Ok _ => hard_state_saved w segs hs w' (with_hard w segs hs)
    | Err e => io_error e
    end) w.
Proof.
  intros Hok0 Hr Hroom. unfold SaveHardState. wp_step. wp_step. destruct (wal_ok_hs w segs hs Hok0) as [Hok El0].
  set (w1 := w <| w_hard_state_ := hs |>) in *. wp_step. eapply flush_nothing; [exact Hok|]. wp_steps.
  pose proof (rec_size _ Hr eq_refl) as Hsz. change (Build RtHardState (toBytes hs)) with (rec_bytes (RHard hs)).
  eapply wp_mono; [apply (hard_segment w1 segs (zlen (rec_bytes (RHard hs)))); [done|exact Hroom|lia]|].
  change (hard_target w1 segs) with (hard_target w segs). unfold with_hard. destruct (hard_target w segs) as [l a] eqn:Eht.
  intros [id|e] w2; [|done]. intros (-> & g2 & -> & Hw2 & Hf2 & Hor & El2 & Hu2). pose proof (size_room _ _ _ Hw2) as Hs2.
  wp_step. unfold on_manager. wp_step. replace (rec_bytes (RHard hs)) with (body [RHard hs]) at 1 by (cbn; by rewrite app_nil_r).
  eapply wp_mono; [apply mg_Append_spec; [exact (wm_mg _ _ _ Hw2)|by constructor|]|].
  { rewrite <- used_nil. cbn [body flat_map]. rewrite app_nil_r. lia. }
  intros [[]|e] g3; [|done]. intros S3. destruct (wal_mid_hard _ _ _ _ _ Hw2 Hor S3) as [S3' El3]. set (segs' := l ++ [a <| as_recs := as_recs a ++ [RHard hs] |>]) in *.
  set (w3 := w1 <| w_manager := g2 |> <| w_manager := g3 |>) in *.
  assert (El : log w3 segs' = log w segs) by (rewrite <- El0, <- El2; unfold log, w_log; by rewrite El3).
  assert (Hok3 : wal_ok w3 segs').
  { split; [apply S3'|]. intros E. apply (proj2 Hok0). apply wal_ok_log_empty. rewrite <- El. unfold log, w_log. by rewrite E. }
  wp_step. unfold save_metadata. wp_step. wp_step. eapply wp_mono; [apply save_spec, (wm_mg _ _ _ (proj1 Hok3))|].
  intros [[]|e] w4 (g4 & -> & Hg4 & Ec4 & _ & Hm); [|by destruct Hm].
  destruct (wal_ok_manager w3 segs' g4 Hok3 Hg4 Ec4) as [Hok4 El4].
  assert (Hdone : forall g5, steps g4 segs' g5 segs' -> hard_state_saved w segs hs (w3 <| w_manager := g4 |> <| w_manager := g5 |>) segs').
  { intros g5 S5. destruct (wal_ok_manager _ segs' g5 Hok4 (st_ok _ _ _ _ S5) (gf_config _ _ (st_frame _ _ _ _ S5))) as [Hok5 El5].
    split; [done|]. split; [by rewrite El5, El4|]. split; [unfold with_hard; by rewrite Eht|]. split; [|by exists g5].
    unfold w_disk. cbn. rewrite (gf_files _ _ (st_frame _ _ _ _ S5)) by done. exact Hm. }
  destruct (wc_sync_on_write _).
  - wp_step. eapply wp_mono; [apply SyncAll_spec, Hg4|]. intros [[]|e] g5 [S5 Hr5]; [|done]. by apply Hdone.
  - wp_step. apply (Hdone g4). by apply steps_refl.
Qed.

(** Terms of hard states in the records. *)
Definition hs_terms_below (t : Z) (segs : list aseg) : Prop :=
  Forall (fun r => match r with RHard h => hs_term h <= t | _ => True end) (flat_map as_recs segs).

Lemma hs_replay_term t rs h : hs_term h <= t -> Forall (fun r => match r with RHard h => hs_term h <= t | _ => True end) rs ->
  hs_term (foldl hs_step h rs) <= t.
Proof.
  intros Hh Hr. revert h Hh. induction Hr as [|r rs Hr _ IH]; intros h Hh; [done|]. cbn [foldl]. apply IH.
  destruct r; cbn; try done. by destruct (_ <=? _).
Qed.

(** C20: [SaveHardState] on a log with room in its current segment: unless an I/O
    operation fails, the log keeps its entries, the metadata file holds the new
    hard state, and recovery of the log gives exactly that hard state, provided
    that its term is not below the terms saved before. *)
Theorem SaveHardState_durable w segs hs : wal_ok w segs -> rec_ok (RHard hs) -> room_for w segs (zlen (rec_bytes (RHard hs))) ->
  hs_terms_below (hs_term hs) segs -> w_snapshot_term_ w <= hs_term hs ->
  wp (SaveHardState hs) (fun r w' =>
    match r with
    | Ok _ => exists segs', wal_ok w' segs' /\ log w' segs' = log w segs /\ w_hard_state_ w' = hs /\
        files (w_disk w') !! kMetadataFile = Some (Serialize (CreateMetadata w')) /\ recovered_hard_state w' segs' = hs
    | Err e => io_error e
    end) w.
Proof.
  intros Hok Hr Hroom Ht Hst. eapply wp_mono; [by apply SaveHardState_spec|]. intros [[]|e] w'; [|done].
  intros (Hok' & El & _ & Hm & g' & ->). exists (with_hard w segs hs). split; [done|]. split; [done|]. split; [done|]. split; [done|].
  unfold recovered_hard_state, hs_replay. rewrite with_hard_recs, foldl_app. cbn -[advance_hard_state].
  set (h0 := if 0 <? w_snapshot_index_ w then _ else _). assert (H0 : hs_term h0 <= hs_term hs).
  { unfold h0. destruct (_ <? _); [|done]. unfold advance_hard_state. cbn. destruct (_ <? _); cbn; lia. }
  rewrite (proj2 (Z.leb_le _ _)); [done|]. by apply hs_replay_term.
Qed.

(** ** A hard state on a full segment *)

Lemma flush_empty w segs Q : wal_mid w segs [] -> Q (Ok tt) w -> wp FlushWriteBuffer Q w.
Proof. intros Hw HQ. unfold FlushWriteBuffer. wp_steps. by rewrite (wm_buffer _ _ _ Hw). Qed.

(** [GetCurrentSegmentForAppend] on a full segment starts a new one at the index
    it is given. *)
Lemma roll_full w l a first : wal_mid w (l ++ [a]) [] -> w_size w <= used a [] -> as_id a + 1 < 1000000 -> is_u64 first ->
  wp (GetCurrentSegmentForAppend first) (fun r w' =>
    match r with
    | Ok id => id = as_id a + 1 /\ exists g', w' = w <| w_manager := g' |> /\
                 steps (w_manager w) (l ++ [a]) g' ((l ++ [a]) ++ [mkASeg (as_id a + 1) first []])
    | Err e => io_error e
    end) w.
Proof.
  intros Hw Hfull Hid Hf. unfold GetCurrentSegmentForAppend. wp_step. unfold on_manager at 1. wp_step.
  eapply wp_mono; [by eapply GetCurrentSegment_spec; [eapply wm_mg|]|].
  intros [id|e] g1; [|done]. intros (segs' & S1 & -> & _ & Esg). assert (segs' = l ++ [a]) as -> by (rewrite Esg; by destruct l). cbv beta iota.
  rewrite last_id_snoc. pose proof (wal_mid_manager _ _ _ _ Hw S1) as W1. pose proof (wsteps_size _ _ _ _ _ _ W1) as Es1.
  pose proof (ws_mid _ _ _ _ _ _ W1) as Hw1. unfold MaybeRollSegmentForAppend. wp_steps. eapply at_segment; [exact Hw1|]. intros s n _ Hh.
  unfold IsFull. rewrite (sh_offset _ _ _ _ (proj1 Hh)), <- used_nil. change (wc_segment_size _) with (w_size (w <| w_manager := g1 |>)).
  rewrite Es1, (proj2 (Z.leb_le _ _)) by done. cbn [negb]. wp_step. eapply flush_empty; [exact Hw1|]. unfold on_manager. wp_step.
  eapply wp_mono; [apply RollToNewSegment_spec; [exact (wm_mg _ _ _ Hw1)|by rewrite last_id_snoc|done]|].
  intros [id|e] g2; [|done]. rewrite last_id_snoc. intros [-> S2]. split; [done|]. exists g2. split; [done|]. by eapply steps_trans.
Qed.

(** The records after the save: the old segments, and one with the hard state
    that claims to start at the first index of the log. *)
Definition rolled_segs w l (a : aseg) (hs : HardState) : list aseg :=
  (l ++ [a]) ++ [mkASeg (as_id a + 1) (w_first_index_ w) [RHard hs]].

Lemma SaveHardState_rolls w l a hs : wal_ok w (l ++ [a]) -> rec_ok (RHard hs) -> w_size w <= used a [] -> as_id a + 1 < 1000000 ->
  wp (SaveHardState hs) (fun r w' =>
    match r with
    | Ok _ => exists g', w' = w <| w_hard_state_ := hs |> <| w_manager := g' |> /\ mg_ok g' (rolled_segs w l a hs)
    | Err e => io_error e
    end) w.
Proof.
  intros Hok0 Hr Hfull Hid. unfold SaveHardState. wp_step. wp_step. destruct (wal_ok_hs w _ hs Hok0) as [Hok El0].
  set (w1 := w <| w_hard_state_ := hs |>) in *. wp_step. eapply flush_nothing; [exact Hok|]. wp_steps.
  pose proof (rec_size _ Hr eq_refl) as Hsz. change (Build RtHardState (toBytes hs)) with (rec_bytes (RHard hs)).
  eapply wp_mono; [apply (roll_full w1 l a); [apply Hok|done|done|exact (first_u64 _ _ _ (proj1 Hok))]|].
  intros [id|e] w2; [|done]. intros (-> & g2 & -> & S2). wp_step. unfold on_manager. wp_step.
  replace (rec_bytes (RHard hs)) with (body [RHard hs]) at 1 by (cbn; by rewrite app_nil_r).
  eapply wp_mono; [apply (mg_Append_spec _ (l ++ [a]) (mkASeg (as_id a + 1) (w_first_index_ w1) [])); [exact (st_ok _ _ _ _ S2)|by constructor|]|].
  { cbn [as_recs body flat_map]. rewrite app_nil_r. cbn [length]. unfold sizeof_SegmentHeader. lia. }
  intros [[]|e] g3; [|done]. intros S3.
  assert (Hg3 : mg_ok g3 (rolled_segs w l a hs)) by exact (st_ok _ _ _ _ S3).
  set (w3 := w1 <| w_manager := g2 |> <| w_manager := g3 |>) in *.
  wp_step. unfold save_metadata. wp_step. wp_step. eapply wp_mono; [by apply (save_spec _ w3)|].
  intros [[]|e] w4 (g4 & -> & Hg4 & Ec4 & _ & Hm); [|by destruct Hm]. destruct (wc_sync_on_write _).
  - wp_step. eapply wp_mono; [by apply SyncAll_spec|]. intros [[]|e] g5 [S5 Hr5]; [|done]. exists g5. split; [done|by apply S5].
  - wp_step. by exists g4.
Qed.

(** Entries of the last segment are looked for in the new one. *)
Lemma rolled_route w l a hs i : wal_mid w (l ++ [a]) [] -> as_first a <= i -> w_first_index_ w <= i ->
  route i (l ++ [a]) None = Some (as_id a) /\ route i (rolled_segs w l a hs) None = Some (as_id a + 1).
Proof.
  intros Hw Ha Hi. pose proof (wm_starts _ _ _ Hw) as Hs.
  assert (Hle : Forall (fun s => as_first s <= i) (l ++ [a])).
  { apply Forall_app. split; [|by constructor]. apply Forall_forall. intros x Hx. unfold starts_sorted in Hs. rewrite fmap_app in Hs.
    assert (as_first x < as_first a); [|lia]. eapply StronglySorted_app_1_elem_of; [exact Hs|apply list_elem_of_fmap; eauto|left]. }
  split; [by apply (route_mid i l a [])|]. unfold rolled_segs. rewrite route_app by done. cbn. by rewrite (proj2 (Z.leb_le _ _)).
Qed.

(** An append that begins at an index whose segment is not the one the index
    names is refused. *)
Lemma Append_misplaced w segs l1 b r ie i e es : mg_ok (w_manager w) segs -> segs = l1 ++ b :: r ->
  ix_Lookup i (w_index_ w) = Some ie -> GetSegmentForIndex i (w_manager w) = Some (as_id b) -> as_id b <> ie_segment_id ie ->
  e_index e = i -> w_first_index_ w <= i < LastIndexUnlocked w +! 1 ->
  wp (Append (e :: es)) (fun r w' => r = Err (EFatal "cannot truncate WAL suffix at index {}: segment not found") /\ w' = w) w.
Proof.
  intros Hg -> Hx Hs Hn <- Hi. unfold Append. wp_steps. rewrite (proj2 (Z.eqb_neq _ _)), (proj2 (Z.ltb_lt _ _)), (proj2 (Z.leb_le _ _)) by lia. cbn [andb].
  unfold TruncateSuffixFrom. wp_steps. rewrite Hx, Hs. wp_step.
  destruct (segment_get_at (w_manager w) l1 b r sg_segment_id_ Hg) as (s & n & Eo & (Eid & _) & _). unfold on_manager. wp_step.
  eapply wp_getsO; [exact Eo|]. rewrite Eid, (proj2 (Z.eqb_neq _ _)) by done. cbn [negb]. wp_step. split; [done|by destruct w].
Qed.

(** C39: A hard state that is saved when the current segment is full loses the
    way to the entries of that segment.  [SaveHardState] starts a new segment,
    which is recorded as starting at the first index of the log, not at the next
    one; unless an I/O operation fails it succeeds.  Afterwards every entry of
    the log in the full segment is looked for in the new segment, which holds
    nothing but the hard state, while the index has it in the full one, and an
    append that overwrites such an entry is refused. *)
Theorem hard_state_roll_loses_segment w l a hs : wal_ok w (l ++ [a]) -> rec_ok (RHard hs) -> w_size w <= used a [] -> as_id a + 1 < 1000000 ->
  wp (SaveHardState hs) (fun r w' =>
    match r with
    | Ok _ => mg_ok (w_manager w') (rolled_segs w l a hs) /\
        forall i, as_first a <= i -> w_first_index_ w <= i < next_index w (l ++ [a]) ->
          GetSegmentForIndex i (w_manager w') = Some (as_id a + 1) /\
          (exists ie, ix_Lookup i (w_index_ w') = Some ie /\ ie_segment_id ie = as_id a) /\
          forall e es, e_index e = i -> wp (Append (e :: es)) (fun r _ => exists message, r = Err (EFatal message)) w'
    | Err e => io_error e
    end) w.
Proof.
  intros Hok Hr Hfull Hid. pose proof Hok as [Hw _]. eapply wp_mono; [by apply (SaveHardState_rolls w l a)|]. intros [[]|e] w'; [|done].
  intros (g' & -> & Hg). split; [exact Hg|]. intros i Ha Hi. destruct (rolled_route w l a hs i Hw Ha) as [R0 R1]; [lia|].
  destruct (live_lookup _ _ _ _ Hw Hi) as (ie & x & L1 & L2 & El & _ & Ex & Elk).
  assert (Eie : ie_segment_id ie = as_id a).
  { assert (Hin : (ie, x) ∈ w_live w (l ++ [a])) by (rewrite El; apply elem_of_app; right; left).
    apply (wm_route _ _ _ Hw) in Hin. rewrite Ex, R0 in Hin. by injection Hin. }
  assert (Es : GetSegmentForIndex i g' = Some (as_id a + 1)) by by rewrite (GetSegmentForIndex_route g' _ i Hg).
  split; [exact Es|]. split; [by exists ie|]. intros e es He. pose proof (LastIndex_eq _ _ Hok) as Hl. pose proof (wm_bounds _ _ _ Hw) as [Hb1 Hb2].
  eapply wp_mono; [eapply (Append_misplaced _ _ (l ++ [a]) (mkASeg (as_id a + 1) (w_first_index_ w) [RHard hs]) [] ie i)|].
  - exact Hg.
  - reflexivity.
  - exact Elk.
  - exact Es.
  - cbn. rewrite Eie. lia.
  - exact He.
  - change (LastIndexUnlocked _) with (LastIndexUnlocked w). rewrite Hl. cbn [length] in Hb2. change (w_first_index_ _) with (w_first_index_ w).
    rewrite u64_id by (unfold is_u64, two64, u64max in *; lia). lia.
  - intros r w2 [-> _]. by eexists.
Qed.

(** ** Compaction *)

Lemma filter_from first ci (L : list (IndexEntry * Entry)) : contiguous first L.*2 -> first <= ci ->
  filter (fun p => ci <= e_index p.2) L = drop (Z.to_nat (ci - first)) L.
Proof.
  revert first. induction L as [|p L IH]; intros first Hc Hi; [by rewrite drop_nil|]. rewrite fmap_cons in Hc. destruct Hc as [He Hc].
  destruct (decide (ci <= e_index p.2)) as [Hle|Hgt].
  - replace (Z.to_nat (ci - first)) with 0%nat by lia. rewrite drop_0, filter_cons_True by done. f_equal.
    apply filter_all. apply contiguous_from in Hc. rewrite Forall_forall in Hc. apply Forall_forall.
    intros q Hq. specialize (Hc q.2). assert (q.2 ∈ L.*2) by (apply list_elem_of_fmap; eauto). specialize (Hc ltac:(done)). lia.
  - rewrite filter_cons_False by done. replace (Z.to_nat (ci - first)) with (S (Z.to_nat (ci - (first + 1)))) by lia. cbn [drop].
    apply IH; [done|lia].
Qed.

Lemma live_later first ci segs : contiguous first (live first segs).*2 -> first <= ci ->
  live ci segs = drop (Z.to_nat (ci - first)) (live first segs).
Proof.
  intros Hc Hi. rewrite <- (filter_from first ci) by done. unfold live. rewrite list_filter_filter. apply list_filter_iff. intros p. cbn. lia.
Qed.

(** The log with a later first index. *)
Lemma wal_mid_compact w segs ci : wal_mid w segs [] -> w_first_index_ w <= ci <= next_index w segs ->
  let w' := w <| w_first_index_ := ci |> <| w_index_ := mkWALIndex ci (drop (Z.to_nat (ci - w_first_index_ w)) (w_live w segs).*1) |> in
  wal_mid w' segs [] /\ w_live w' segs = drop (Z.to_nat (ci - w_first_index_ w)) (w_live w segs) /\ next_index w' segs = next_index w segs.
Proof.
  intros Hw Hi w'. pose proof Hw as [Kmg Kstarts Knext Kbuf Kpend Kix Kcontig Kroute Koff Kroom Kprog Kbounds Krecs Kwhole].
  rewrite app_nil_r in Kcontig. set (k := Z.to_nat (ci - w_first_index_ w)) in *.
  assert (El : w_live w' segs = drop k (w_live w segs)) by (apply live_later; [exact Kcontig|lia]).
  assert (Hlen : zlen (drop k (w_live w segs)) = zlen (w_live w segs) - (ci - w_first_index_ w)).
  { rewrite length_drop. unfold next_index in Hi. unfold k. lia. }
  assert (En : next_index w' segs = next_index w segs).
  { unfold next_index. rewrite El. change (w_first_index_ w') with ci. lia. }
  assert (Hsub : forall p, p ∈ drop k (w_live w segs) -> p ∈ w_live w segs).
  { intros p Hp. rewrite <- (take_drop k (w_live w segs)). apply elem_of_app. by right. }
  assert (Hc' : contiguous ci (drop k (w_live w segs)).*2).
  { rewrite fmap_drop. rewrite <- (take_drop k (w_live w segs).*2) in Kcontig. apply contiguous_app in Kcontig as [_ Hc].
    rewrite length_take, length_fmap in Hc. unfold next_index in Hi.
    replace (w_first_index_ w + _) with ci in Hc by (unfold k; lia). exact Hc. }
  split; [|done]. constructor; rewrite ?En, ?El; try done.
  - cbn. rewrite fmap_drop. done.
  - by rewrite app_nil_r.
  - intros ie e Hin. by apply Kroute, Hsub.
  - intros ie e Hin. by eapply Koff, Hsub.
  - split; [cbn; lia|apply Kbounds].
Qed.

Lemma remove_segments_spec ids : forall w segs, mg_ok (w_manager w) segs -> Forall (fun id => id ∈ as_id <$> segs) ids -> NoDup ids ->
  wp (remove_segments ids) (fun _ w' => exists g', w' = w <| w_manager := g' |> /\
    steps (w_manager w) segs g' (filter (fun a => as_id a ∉ ids) segs)) w.
Proof.
  induction ids as [|id ids IH]; intros w segs Hg Hin Hnd; cbn [remove_segments foreach].
  - wp_step. exists (w_manager w). split; [by destruct w|]. rewrite filter_all; [by apply steps_refl|].
    apply Forall_forall. intros a _ Ha. by apply elem_of_nil in Ha.
  - apply Forall_cons in Hin as [Hid Hin]. apply NoDup_cons in Hnd as [Hn Hnd]. apply list_elem_of_fmap in Hid as (a & -> & Ha).
    apply list_elem_of_split in Ha as (l & r & ->). pose proof (ids_nodup _ _ Hg) as Hnds.
    do 2 wp_step. unfold on_manager. wp_step. eapply wp_mono; [by eapply RemoveSegment_spec|]. intros res g1 [S1 _]. wp_step.
    assert (Hout : forall b, b ∈ l ++ r -> as_id b <> as_id a).
    { intros b Hb E. rewrite fmap_app, fmap_cons in Hnds. apply NoDup_app in Hnds as (_ & Hd & Hr). apply NoDup_cons in Hr as [Hr _].
      apply elem_of_app in Hb as [Hb|Hb].
      - apply (Hd (as_id a)); [rewrite <- E; apply list_elem_of_fmap; eauto|left].
      - apply Hr. rewrite <- E. apply list_elem_of_fmap. eauto. }
    eapply wp_mono; [apply IH; [apply S1| |done]|].
    + rewrite Forall_forall in Hin. apply Forall_forall. intros id Hi. specialize (Hin id Hi). rewrite fmap_app, fmap_cons in Hin. rewrite fmap_app.
      apply elem_of_app in Hin as [?|Hin]; [apply elem_of_app; by left|]. apply elem_of_cons in Hin as [->|?]; [done|apply elem_of_app; by right].
    + cbn. intros _ w2 (g2 & -> & S2). exists g2. split; [done|].
      replace (filter (fun b => as_id b ∉ as_id a :: ids) (l ++ a :: r)) with (filter (fun b => as_id b ∉ ids) (l ++ r)); [by eapply steps_trans|].
      rewrite !filter_app, filter_cons_False by (intros Hx; apply Hx; left). rewrite <- !filter_app. apply filter_ext_in.
      apply Forall_forall. intros b Hb. rewrite not_elem_of_cons. specialize (Hout b Hb). tauto.
Qed.

Lemma live_filter_segs first (keep : aseg -> Prop) `{!forall a, Decision (keep a)} segs :
  Forall (fun a => ~ keep a -> live first [a] = []) segs -> live first (filter keep segs) = live first segs.
Proof.
  induction 1 as [|a segs Ha _ IH]; [done|]. change (a :: segs) with ([a] ++ segs) at 2. rewrite live_app. destruct (decide (keep a)).
  - rewrite filter_cons_True by done. change (a :: filter keep segs) with ([a] ++ filter keep segs). by rewrite live_app, IH.
  - rewrite filter_cons_False by done. by rewrite IH, Ha.
Qed.

Lemma filter_sorted {A} (f : A -> Z) (P : A -> Prop) `{!forall a, Decision (P a)} l :
  StronglySorted Z.lt (f <$> l) -> StronglySorted Z.lt (f <$> filter P l).
Proof.
  induction l as [|a l IH]; [done|]. rewrite fmap_cons. intros Hs. apply StronglySorted_inv in Hs as [Hs Hall].
  destruct (decide (P a)); [|rewrite filter_cons_False by done; auto]. rewrite filter_cons_True by done. rewrite fmap_cons. constructor; [auto|].
  rewrite Forall_forall in Hall. apply Forall_forall. intros x Hx. apply Hall. apply list_elem_of_fmap in Hx as (b & -> & Hb).
  apply list_elem_of_fmap. apply list_elem_of_filter in Hb as [_ Hb]. eauto.
Qed.

(** Segments without live entries can go. *)
Lemma wal_mid_drop_segs w segs (keep : aseg -> Prop) `{!forall a, Decision (keep a)} g' : wal_mid w segs [] ->
  Forall (fun a => ~ keep a -> w_live w [a] = []) segs -> steps (w_manager w) segs g' (filter keep segs) ->
  wal_mid (w <| w_manager := g' |>) (filter keep segs) [] /\ w_live (w <| w_manager := g' |>) (filter keep segs) = w_live w segs.
Proof.
  intros Hw Hlive [Hok Hf]. pose proof Hw as [Kmg Kstarts Knext Kbuf Kpend Kix Kcontig Kroute Koff Kroom Kprog Kbounds Krecs Kwhole].
  set (w' := w <| w_manager := g' |>).
  assert (El : w_live w' (filter keep segs) = w_live w segs) by (by apply live_filter_segs).
  assert (En : next_index w' (filter keep segs) = next_index w segs) by (unfold next_index; by rewrite El).
  assert (Es : w_size w' = w_size w) by (unfold w_size, w_config; cbn; by rewrite (gf_config _ _ Hf)).
  assert (Hst : starts_sorted (filter keep segs)) by (by apply filter_sorted).
  split; [|done]. constructor; rewrite ?El, ?En, ?Es; try done.
  - rewrite !Forall_forall in *. intros a Ha. apply list_elem_of_filter in Ha as [_ Ha]. by apply Knext.
  - intros ie e Hin. pose proof Hin as Hin0. apply list_elem_of_split in Hin0 as (L1 & L2 & E).
    destruct (live_split _ _ _ _ _ _ E) as (l1 & a & r & rs1 & rs2 & Esg & Er & Eie & _).
    { rewrite app_nil_r in Kcontig. by eapply contiguous_nodup. }
    pose proof (Kroute _ _ Hin) as Hr. rewrite Eie in Hr. cbn in Hr. rewrite Eie. cbn [ie_segment_id]. rewrite Esg in Hr.
    assert (Hka : keep a).
    { destruct (decide (keep a)) as [|Hk]; [done|]. rewrite Forall_forall in Hlive. specialize (Hlive a).
      rewrite Esg in Hlive. specialize (Hlive ltac:(apply elem_of_app; right; left) Hk). exfalso.
      assert (Hx : (ie, e) ∈ live (w_first_index_ w) [a]).
      { apply list_elem_of_filter in Hin as [Hfe _]. apply list_elem_of_filter. split; [done|]. unfold all_places. cbn [flat_map]. rewrite app_nil_r.
        unfold seg_places. rewrite Er, places_app, Eie. apply elem_of_app. right. left. }
      unfold w_live in Hlive. rewrite Hlive in Hx. by apply elem_of_nil in Hx. }
    destruct (route_inv (e_index e) l1 a r None) as [Haf Hnx]; [rewrite <- Esg; by eapply ids_nodup|done|done|].
    rewrite Esg in Hst |- *. rewrite filter_app, filter_cons_True in Hst |- * by done. apply route_mid; [done|done|].
    intros s Hs. assert (Hsr : s ∈ r).
    { destruct (filter keep r) as [|x k] eqn:Ef; [done|]. injection Hs as ->. apply (list_elem_of_filter keep). rewrite Ef. left. }
    destruct r as [|s0 r]; [by apply elem_of_nil in Hsr|]. specialize (Hnx s0 eq_refl). apply elem_of_cons in Hsr as [->|Hsr]; [done|].
    unfold starts_sorted in Kstarts. rewrite Esg, fmap_app, !fmap_cons in Kstarts. apply StronglySorted_app in Kstarts as (_ & _ & Ks).
    apply StronglySorted_inv in Ks as [Ks _]. apply StronglySorted_inv in Ks as [_ Ks]. rewrite Forall_forall in Ks.
    assert (as_first s0 < as_first s); [|lia]. apply Ks. apply list_elem_of_fmap. eauto.
  - intros b e E. by destruct b.
  - intros l1 a1 E Hfull. assert (Ha : a1 ∈ segs).
    { apply (list_elem_of_filter keep). rewrite E. apply elem_of_app. right. left. }
    destruct segs as [|z l _] using rev_ind; [by apply elem_of_nil in Ha|]. apply elem_of_app in Ha as [Ha|Ha].
    + unfold starts_sorted in Kstarts. rewrite fmap_app in Kstarts. apply Forall_app in Knext as [_ Kz]. apply Forall_cons in Kz as [Kz _].
      assert (as_first a1 < as_first z); [|lia]. eapply StronglySorted_app_1_elem_of; [exact Kstarts|apply list_elem_of_fmap; eauto|left].
    + apply list_elem_of_singleton in Ha as ->. by apply (Kprog l z).
  - rewrite !Forall_forall in *. intros a Ha. apply list_elem_of_filter in Ha as [_ Ha]. by apply Kwhole.
Qed.

(** [has_entries] looks for live entries of a segment. *)
Lemma has_entries_live w segs a : wal_mid w segs [] -> a ∈ segs -> w_live w [a] <> [] ->
  has_entries (w_first_index_ w) (next_index w segs - 1) (as_id a) (w_index_ w) = true.
Proof.
  intros Hw Ha Hne. destruct (w_live w [a]) as [|[ie e] L] eqn:E; [done|].
  assert (Hin : (ie, e) ∈ live (w_first_index_ w) [a]) by (unfold w_live in E; rewrite E; left).
  apply list_elem_of_filter in Hin as [Hfe Hin]. unfold all_places in Hin. cbn [flat_map] in Hin. rewrite app_nil_r in Hin.
  assert (Hall : (ie, e) ∈ w_live w segs).
  { apply list_elem_of_filter. split; [done|]. unfold all_places. apply list_elem_of_In, in_flat_map. exists a. split; by apply list_elem_of_In. }
  assert (Eid : ie_segment_id ie = as_id a) by (apply places_split in Hin as (? & ? & _ & ->); done).
  pose proof (live_below _ _ _ _ _ Hw Hall) as Hb. cbn in Hfe.
  destruct (live_lookup _ _ _ (e_index e) Hw ltac:(lia)) as (ie' & e' & L1 & L2 & E' & Ei & Ee & Elk).
  assert (ie' = ie) as ->.
  { pose proof (wm_contig _ _ _ Hw) as Hc. rewrite app_nil_r in Hc.
    rewrite E' in Hall, Hc. rewrite fmap_app, fmap_cons in Hc. apply contiguous_app in Hc as [Hc1 [Hc2 Hc3]]. rewrite length_fmap in *.
    apply elem_of_app in Hall as [Hx|Hx]; [|apply elem_of_cons in Hx as [[= <- <-]|Hx]; [done|]].
    - apply contiguous_below in Hc1. rewrite Forall_forall in Hc1. rewrite length_fmap in Hc1.
      assert (Hxe : e ∈ L1.*2) by (apply list_elem_of_fmap; by exists (ie, e)). specialize (Hc1 _ Hxe). lia.
    - apply contiguous_from in Hc3. rewrite Forall_forall in Hc3.
      assert (Hxe : e ∈ L2.*2) by (apply list_elem_of_fmap; by exists (ie, e)). specialize (Hc3 _ Hxe). cbn in Hc2. lia. }
  unfold has_entries. apply existsb_exists. exists (e_index e). split.
  - apply list_elem_of_In, elem_of_seqZ. lia.
  - rewrite Elk, Eid. apply Z.eqb_refl.
Qed.

(** The segments that compaction removes. *)
Definition to_remove w (ci last_idx : Z) : list Z :=
  fst <$> (filter (fun p => (sg_first_index_ p.2 <? ci) && negb (has_entries (w_first_index_ w) last_idx p.1 (w_index_ w)) = true)
             (mg_segments_ (w_manager w))).

Lemma to_remove_sub w segs ci last_idx : mg_ok (w_manager w) segs ->
  Forall (fun id => id ∈ as_id <$> segs) (to_remove w ci last_idx) /\ NoDup (to_remove w ci last_idx).
Proof.
  intros Hg. pose proof (keys_ids _ _ _ (gk_segs _ _ Hg)) as Ek. split.
  - apply Forall_forall. intros id Hid. rewrite <- Ek. unfold to_remove in Hid. apply list_elem_of_fmap in Hid as (p & -> & Hp).
    apply list_elem_of_filter in Hp as [_ Hp]. apply list_elem_of_fmap. eauto.
  - apply sorted_nodup. unfold to_remove. apply filter_sorted. rewrite Ek. apply (gk_ids _ _ Hg).
Qed.

Lemma to_remove_elem w segs ci last_idx a : mg_ok (w_manager w) segs -> a ∈ segs -> as_id a ∈ to_remove w ci last_idx ->
  as_first a < ci /\ has_entries (w_first_index_ w) last_idx (as_id a) (w_index_ w) = false.
Proof.
  intros Hg Ha Hr. unfold to_remove in Hr. apply list_elem_of_fmap in Hr as (p & Ep & Hp). apply list_elem_of_filter in Hp as [Hc Hp].
  destruct (Forall2_elem_l _ _ _ _ (gk_segs _ _ Hg) Hp) as (b & Hb & (Ek & (_ & Ef & _) & _)).
  assert (b = a) as ->.
  { pose proof (ids_nodup _ _ Hg) as Hnd. apply list_elem_of_lookup_1 in Ha as (i & Hi), Hb as (j & Hj).
    assert (i = j) as ->; [|congruence]. eapply NoDup_lookup; [exact Hnd| |].
    - rewrite list_lookup_fmap, Hi. done.
    - rewrite list_lookup_fmap, Hj. cbn. congruence. }
  apply andb_true_iff in Hc as [H1 H2]. apply Z.ltb_lt in H1. apply negb_true_iff in H2. rewrite Ep. split; [lia|done].
Qed.

(** Removing segments in which [to_remove] found no entry. *)
Lemma remove_unused w segs ids : wal_mid w segs [] -> Forall (fun id => id ∈ as_id <$> segs) ids -> NoDup ids ->
  (forall a, a ∈ segs -> as_id a ∈ ids -> w_live w [a] = []) ->
  wp (remove_segments ids) (fun _ w' => exists g' segs', w' = w <| w_manager := g' |> /\ wal_mid w' segs' [] /\ w_live w' segs' = w_live w segs /\
    (forall a, a ∈ segs' -> a ∈ segs) /\ mg_frame (w_manager w) g') w.
Proof.
  intros Hw Hsub Hnd Hlive. eapply wp_mono; [apply (remove_segments_spec _ _ segs); [exact (wm_mg _ _ _ Hw)|done|done]|].
  intros _ w' (g' & -> & St). exists g', (filter (fun a => as_id a ∉ ids) segs). split; [done|].
  destruct (wal_mid_drop_segs w segs (fun a => as_id a ∉ ids) g' Hw) as [H1 H2]; [|exact St|].
  - apply Forall_forall. intros a Ha Hk. apply Hlive; [done|]. destruct (decide (as_id a ∈ ids)); [done|]. by destruct Hk.
  - split; [done|]. split; [done|]. split; [|apply St]. intros a Ha. by apply list_elem_of_filter in Ha as [_ Ha].
Qed.

Lemma no_entries_no_live w segs a : wal_mid w segs [] -> a ∈ segs ->
  has_entries (w_first_index_ w) (next_index w segs - 1) (as_id a) (w_index_ w) = false -> w_live w [a] = [].
Proof.
  intros Hw Ha Hno. destruct (decide (w_live w [a] = [])) as [|Hne]; [done|]. by rewrite (has_entries_live w segs a) in Hno.
Qed.

Lemma fmap_snd_drop k w w' segs segs' : w_live w' segs' = drop k (w_live w segs) -> log w' segs' = drop k (log w segs).
Proof. intros E. unfold log, w_log. rewrite E, !app_nil_r. apply fmap_drop. Qed.

(** What compaction does not change. *)
Definition same_state w w' : Prop :=
  w_hard_state_ w' = w_hard_state_ w /\ w_conf_state_ w' = w_conf_state_ w /\ w_peer_addresses_ w' = w_peer_addresses_ w /\
  w_snapshot_index_ w' = w_snapshot_index_ w /\ w_snapshot_term_ w' = w_snapshot_term_ w.

Lemma Compact_spec w segs ci : wal_ok w segs -> 0 <= ci ->
  let first := w_first_index_ w in
  let last := first + zlen (log w segs) - 1 in
  wp (Compact ci) (fun r w' =>
    if ci <=? first then r = Ok tt /\ w' = w
    else if last <? ci then r = Err (EFatal "compact index {} > last index {}") /\ w' = w
    else match r with
         | Ok _ => exists segs', wal_ok w' segs' /\ w_first_index_ w' = ci /\ (forall a, a ∈ segs' -> a ∈ segs) /\
                     log w' segs' = drop (Z.to_nat (ci - first)) (log w segs) /\
                     files (w_disk w') !! kMetadataFile = Some (Serialize (CreateMetadata w')) /\ same_state w w'
         | Err e => io_error e
         end) w.
Proof.
  intros Hok Hci first last. pose proof Hok as [Hw _]. pose proof (LastIndex_eq _ _ Hok) as El. pose proof (log_length w segs) as Hn.
  assert (Elast : LastIndexUnlocked w = last) by (rewrite El, Hn; done). unfold Compact. wp_step. wp_step. rewrite Elast. fold first.
  destruct (Z.leb_spec ci first); [by wp_step|]. destruct (Z.ltb_spec last ci); [by wp_step|].
  pose proof (wm_bounds _ _ _ Hw) as Hb. cbn [length] in Hb.
  assert (Hi : first < ci < next_index w segs) by (rewrite Hn; fold first; unfold last in *; lia).
  destruct (wal_mid_compact w segs ci Hw ltac:(fold first; lia)) as (Hw1 & El1 & En1). cbv zeta in Hw1, El1, En1. fold first in Hw1, El1, En1.
  set (w1 := w <| w_first_index_ := ci |> <| w_index_ := _ |>) in *.
  wp_step. wp_step. wp_step. unfold on_index. wp_step. eapply wp_run.
  { change (w_index_ (w <| w_first_index_ := ci |>)) with (w_index_ w). rewrite (wm_index _ _ _ Hw). apply ix_TruncateBefore_run.
    - rewrite <- (wm_index _ _ _ Hw). by eapply index_is_wf.
    - cbn. fold first. lia.
    - lia.
    - cbn. intros E. apply fmap_nil_inv in E. unfold next_index in Hi. rewrite E in Hi. cbn in Hi. fold first in Hi. lia. }
  cbn [ix_first_index_ ix_entries_]. fold first. change (w <| w_first_index_ := ci |> <| w_index_ := _ |>) with w1. wp_step. wp_step.
  fold (to_remove w1 ci last). wp_step. unfold save_metadata. wp_step. wp_step. pose proof (wm_mg _ _ _ Hw1) as Hg1.
  eapply wp_mono; [by apply save_spec|]. intros [[]|e] w2 (g2 & -> & Hg2 & Ec2 & _ & Hm); [|by destruct Hm].
  pose proof (wal_mid_set_manager w1 segs g2 Hw1 Hg2 Ec2) as Hw2. destruct (to_remove_sub w1 segs ci last Hg1) as [Hsub Hnd].
  wp_step. eapply wp_mono; [apply (remove_unused _ segs); [exact Hw2|done|done|]|].
  - intros a Ha Hr. destruct (to_remove_elem _ _ _ _ a Hg1 Ha Hr) as [_ Hno]. apply (no_entries_no_live _ segs a Hw2 Ha).
    replace (next_index _ segs - 1) with last; [exact Hno|]. change (next_index (w1 <| w_manager := g2 |>) segs) with (next_index w1 segs).
    rewrite En1, Hn. done.
  - intros _ w3 (g3 & segs3 & -> & Hw3 & El3 & Hsub3 & Hf3). wp_step. exists segs3. split; [|split; [done|split; [done|split; [|split]]]].
    + split; [done|]. rewrite El3. change (w_live (w1 <| w_manager := g2 |>) segs) with (w_live w1 segs). rewrite El1. intros E.
      apply (f_equal length) in E. rewrite length_drop in E. cbn in E. unfold next_index in Hi. fold first in Hi. lia.
    + apply fmap_snd_drop. rewrite El3. exact El1.
    + unfold w_disk. cbn [w_manager]. cbn -[Serialize]. rewrite (gf_files _ _ Hf3) by done. exact Hm.
    + done.
Qed.

(** [Compact] up to an index within the log drops exactly the entries below
    it: unless an I/O operation fails, the log starts at the index, the entries
    from there on can be read as before, the metadata file has the new start,
    and only segment files without such entries are removed.  An index not after
    the start changes nothing, one past the end is refused. *)
Theorem Compact_drops_prefix w segs ci : wal_ok w segs -> 0 <= ci ->
  let first := w_first_index_ w in
  let last := first + zlen (log w segs) - 1 in
  wp (Compact ci) (fun r w' =>
    if ci <=? first then r = Ok tt /\ w' = w
    else if last <? ci then r = Err (EFatal "compact index {} > last index {}") /\ w' = w
    else match r with
         | Ok _ => exists segs', wal_ok w' segs' /\ w_first_index_ w' = ci /\ (forall a, a ∈ segs' -> a ∈ segs) /\
                     log w' segs' = drop (Z.to_nat (ci - first)) (log w segs) /\
                     files (w_disk w') !! kMetadataFile = Some (Serialize (CreateMetadata w')) /\ same_state w w'
         | Err e => io_error e
         end) w.
Proof. apply Compact_spec. Qed.

(** ** What is kept in the metadata file only *)

(** The file holds the metadata of [w'], whose log is that of [w]. *)
Definition kept_in_metadata w segs (r : Result unit) w' : Prop :=
  wal_ok w' segs /\ log w' segs = log w segs /\
  match r with
  | Ok _ => files (w_disk w') !! kMetadataFile = Some (Serialize (CreateMetadata w'))
  | Err e => io_error e
  end.

Lemma save_metadata_spec w w1 segs : wal_ok w segs -> wal_ok w1 segs -> log w1 segs = log w segs ->
  wp save_metadata (fun r w' => exists g', w' = w1 <| w_manager := g' |> /\ kept_in_metadata w segs r w') w1.
Proof.
  intros Hok Hok1 El. unfold save_metadata. wp_steps. eapply wp_mono; [apply save_spec, (wm_mg _ _ _ (proj1 Hok1))|].
  intros r w' (g' & -> & Hg & Ec & _ & Hr). exists g'. split; [done|]. destruct (wal_ok_manager _ _ _ Hok1 Hg Ec) as [Hok2 El2].
  split; [done|]. split; [congruence|]. destruct r; [done|]. by destruct Hr.
Qed.

Lemma wal_ok_fields w segs w1 : wal_ok w segs -> w_manager w1 = w_manager w -> w_index_ w1 = w_index_ w -> w_first_index_ w1 = w_first_index_ w ->
  w_snapshot_index_ w1 = w_snapshot_index_ w -> w_write_buffer_ w1 = w_write_buffer_ w -> w_pending_entries_ w1 = w_pending_entries_ w ->
  wal_ok w1 segs /\ log w1 segs = log w segs.
Proof.
  intros Hok Eg Ei Ef Es Eb Ep. pose proof Hok as [Hw _]. apply wal_ok_rebuild; try done.
  - rewrite Eg. exact (wm_mg _ _ _ Hw).
  - unfold w_size, w_config. by rewrite Eg.
  - rewrite Ei. exact (wm_index _ _ _ Hw).
  - rewrite Eb. exact (wm_buffer _ _ _ Hw).
  - rewrite Ep. exact (wm_pending _ _ _ Hw).
Qed.

(** The addresses by id; of two addresses of one id the first one counts. *)
Definition address_map (peers : list PeerAddress) : gmap Z string := list_to_map ((fun p => (pa_id p, pa_addr p)) <$> peers).

Lemma address_map_upsert id addr peers : address_map (upsert_peer id addr peers) = <[id := addr]> (address_map peers).
Proof.
  induction peers as [|[i a] peers IH]; [done|]. cbn [upsert_peer pa_id]. destruct (Z.eqb_spec i id) as [->|Hn]; unfold address_map; cbn.
  - by rewrite insert_insert_eq.
  - fold (address_map peers). fold (address_map (upsert_peer id addr peers)). rewrite IH. by apply insert_insert_ne.
Qed.

Lemma address_map_remove id peers : address_map (filter (fun p => negb (pa_id p =? id) = true) peers) = delete id (address_map peers).
Proof.
  induction peers as [|[i a] peers IH]; [unfold address_map; cbn; by rewrite delete_empty|].
  rewrite filter_cons. cbn [pa_id]. destruct (Z.eqb_spec i id) as [->|Hn]; cbn [negb].
  - rewrite decide_False by done. rewrite IH. unfold address_map. cbn. by rewrite delete_insert_eq.
  - rewrite decide_True by done. unfold address_map. cbn. fold (address_map peers).
    change (list_to_map ?l) with (address_map (filter (fun p => negb (pa_id p =? id) = true) peers)). rewrite IH. by rewrite delete_insert_ne.
Qed.

(** The peer addresses are a map from ids to addresses: an upsert inserts,
    a removal deletes. These operations and the saving of a configuration keep
    the log, and on success the metadata file holds the new state. *)
Theorem addresses_refine_map w segs : wal_ok w segs ->
  (forall id addr, wp (UpsertPeerAddress id addr) (fun r w' => kept_in_metadata w segs r w' /\
     address_map (w_peer_addresses_ w') = <[id := addr]> (address_map (w_peer_addresses_ w))) w) /\
  (forall id, wp (RemovePeerAddress id) (fun r w' => kept_in_metadata w segs r w' /\
     address_map (w_peer_addresses_ w') = delete id (address_map (w_peer_addresses_ w))) w) /\
  (forall peers, wp (SavePeerAddresses peers) (fun r w' => kept_in_metadata w segs r w' /\ w_peer_addresses_ w' = peers) w) /\
  (forall cs, wp (SaveConfState cs) (fun r w' => kept_in_metadata w segs r w' /\ w_conf_state_ w' = cs) w).
Proof.
  intros Hok. split; [|split; [|split]].
  - intros id addr. unfold UpsertPeerAddress. wp_step. wp_step.
    eapply wp_mono; [by apply save_metadata_spec; [|apply (wal_ok_fields w)..]|]. intros r w' (g' & -> & Hk). split; [done|]. apply address_map_upsert.
  - intros id. unfold RemovePeerAddress. wp_step. wp_step.
    eapply wp_mono; [by apply save_metadata_spec; [|apply (wal_ok_fields w)..]|]. intros r w' (g' & -> & Hk). split; [done|]. apply address_map_remove.
  - intros peers. unfold SavePeerAddresses. wp_step. wp_step.
    eapply wp_mono; [by apply save_metadata_spec; [|apply (wal_ok_fields w)..]|]. intros r w' (g' & -> & Hk). done.
  - intros cs. unfold SaveConfState. wp_step. wp_step.
    eapply wp_mono; [by apply save_metadata_spec; [|apply (wal_ok_fields w)..]|]. intros r w' (g' & -> & Hk). done.
Qed.
End WalOps.
