(* ===== verification/WalSnapshots.v ===== *)
(** * Snapshots of the write-ahead log

    What taking a snapshot of a log in the state [wal_ok] does to its entries,
    its metadata and the snapshot that is read back. *)

From S2P Require Import Prelude Types Bytes Capnp Record WalIndex Disk Metadata Segment SegmentProps SegmentManager SnapshotFile SnapshotProps Wal Storage WalLog WalProps WalRecovery WalOps.

Section WalSnapshots.
Context {IO : Io} {PF : Platform} {CR : Crc} {CP : Capnp}.
Implicit Types w : WAL.

(** Writing the snapshot file changes no segment. *)
Lemma persist_spec snapshot w segs : mg_ok (w_manager w) segs ->
  wp (on_files (PersistSnapshotFile snapshot)) (fun r w' => exists g', w' = w <| w_manager := g' |> /\ mg_ok g' segs /\
    mg_config_ g' = mg_config_ (w_manager w) /\ snap_kept (w_disk w) (mg_disk g') /\
    match r with
    | Ok _ => files (mg_disk g') !! kSnapshotFile = Some (toBytes snapshot)
    | Err e => io_error e
    end) w.
Proof.
  intros Hg. unfold on_files, on_manager, on_mg_disk. wp_steps. eapply wp_mono; [apply PersistSnapshotFile_spec|].
  intros r d' (Hk & Hd & Hr). eexists. split; [reflexivity|]. split; [|split; [done|split; [exact Hk|]]].
  - apply mg_ok_others; [done|rewrite (gk_dir _ _ Hg); apply Hd, (gk_dir _ _ Hg)|]. intros name Hn. apply Hk; intros ->; by destruct Hn.
  - destruct r; by destruct Hr.
Qed.

(** Fields that the log's invariant does not look at. *)
Lemma wal_mid_fields w segs hs cs si st : wal_mid w segs [] ->
  wal_mid (w <| w_snapshot_index_ := si |> <| w_snapshot_term_ := st |> <| w_hard_state_ := hs |> <| w_conf_state_ := cs |>) segs [].
Proof. intros []. by constructor. Qed.

(** The index moved to a later start. *)
Lemma index_start w first L ci : w_index_ w = mkWALIndex first L -> index_wf (w_index_ w) -> first <= ci < u64max ->
  (on_index (ix_TruncateBefore ci) ;;; on_index (ix_SetFirstIndex ci)) w =
  Ret (tt, w <| w_index_ := mkWALIndex ci (drop (Z.to_nat (ci - first)) L) |>).
Proof.
  intros Ex Hwf Hci. rewrite Ex in Hwf. unfold bind, on_index at 1, zoom at 1. rewrite Ex. destruct (decide (L = [])) as [->|Hne].
  - rewrite drop_nil. cbn. by destruct w.
  - rewrite ix_TruncateBefore_run; [|done|cbn; lia|lia|done]. cbn. by destruct w.
Qed.

Lemma wp_seq_run {S A} (m1 m2 : M S unit) (k : M S A) s2 Q (s : S) : (m1 ;;; m2) s = Ret (tt, s2) -> wp k Q s2 ->
  wp m1 (fun _ s' => wp (m2 ;;; k) Q s') s.
Proof. unfold wp, bind. destruct (m1 s) as [[[] s1]|]; [|done]. intros ->. done. Qed.

(** The segments of which the index knows no entry. *)
Lemma unused_sub w segs last_idx : mg_ok (w_manager w) segs ->
  let ids := filter (fun seg_id => negb (has_entries (w_first_index_ w) last_idx seg_id (w_index_ w)) = true) (mg_segments_ (w_manager w)).*1 in
  Forall (fun id => id ∈ as_id <$> segs) ids /\ NoDup ids.
Proof.
  intros Hg ids. unfold ids. rewrite (keys_ids _ _ _ (gk_segs _ _ Hg)). split.
  - apply Forall_forall. intros id Hid. by apply list_elem_of_filter in Hid as [_ ?].
  - apply NoDup_filter. by eapply ids_nodup.
Qed.

Definition local_snapshot_post w (segs : list aseg) (snapshot : Snapshot) w' : Prop := exists segs',
  wal_ok w' segs' /\ (forall a, a ∈ segs' -> a ∈ segs) /\
  log w' segs' = drop (Z.to_nat (sn_index snapshot + 1 - w_first_index_ w)) (log w segs) /\
  w_first_index_ w' = sn_index snapshot + 1 /\ w_snapshot_index_ w' = sn_index snapshot /\ w_snapshot_term_ w' = sn_term snapshot /\
  w_conf_state_ w' = sm_conf_state (sn_meta snapshot) /\
  w_hard_state_ w' = advance_hard_state (w_hard_state_ w) (sn_index snapshot) (sn_term snapshot) /\
  files (w_disk w') !! kMetadataFile = Some (Serialize (CreateMetadata w')) /\
  files (w_disk w') !! kSnapshotFile = Some (toBytes snapshot).

Lemma ApplyLocalSnapshot_spec w segs snapshot : wal_ok w segs -> w_snapshot_index_ w < sn_index snapshot <= next_index w segs - 1 ->
  w_first_index_ w <= sn_index snapshot + 1 ->
  wp (ApplyLocalSnapshot snapshot) (fun r w' =>
    match r with
    | Ok _ => local_snapshot_post w segs snapshot w'
    | Err e => io_error e
    end) w.
Proof.
  intros Hok Hi Hfirst. pose proof Hok as [Hw _]. pose proof (LastIndex_eq _ _ Hok) as El. pose proof (wm_bounds _ _ _ Hw) as [Hf Hb]. cbn [length] in Hb.
  unfold ApplyLocalSnapshot. wp_step. wp_step. rewrite El. rewrite (proj2 (Z.leb_gt _ _)), (proj2 (Z.ltb_ge _ _)) by lia.
  assert (Eci : sn_index snapshot +! 1 = sn_index snapshot + 1) by (apply u64_id; unfold is_u64, two64, u64max in *; lia). rewrite Eci.
  unfold save_snapshot_metadata. rewrite Eci. set (ci := sn_index snapshot + 1) in *.
  wp_step. eapply wp_mono; [apply persist_spec, (wm_mg _ _ _ Hw)|]. intros [[]|e] w1 (g1 & -> & Hg1 & Ec1 & _ & Hsf); [|done].
  pose proof (wal_mid_set_manager w segs g1 Hw Hg1 Ec1) as Hw1. set (w1 := w <| w_manager := g1 |>) in *.
  wp_step. eapply wp_mono; [by apply save_spec|].
  intros [[]|e] w2 (g2 & -> & Hg2 & Ec2 & Ho2 & Hm); [|by destruct Hm].
  pose proof (wal_mid_set_manager w1 segs g2 Hw1 Hg2 Ec2) as Hw2. set (w2 := w1 <| w_manager := g2 |>) in *.
  unfold adopt_snapshot. wp_steps. set (hs := advance_hard_state _ _ _). set (cs := sm_conf_state _).
  set (wA := w2 <| w_snapshot_index_ := sn_index snapshot |> <| w_snapshot_term_ := sn_term snapshot |> <| w_hard_state_ := hs |> <| w_conf_state_ := cs |>).
  assert (HwA : wal_mid wA segs []) by (by apply wal_mid_fields).
  destruct (wal_mid_compact wA segs ci HwA) as (Hw3 & El3 & En3).
  { change (w_first_index_ wA) with (w_first_index_ w). change (next_index wA segs) with (next_index w segs). lia. }
  cbv zeta in Hw3, El3, En3. set (w3 := wA <| w_first_index_ := ci |> <| w_index_ := _ |>) in *.
  eapply (wp_seq_run _ _ _ w3).
  { apply (index_start (wA <| w_first_index_ := ci |>)); [exact (wm_index _ _ _ HwA)|by apply (index_is_wf wA segs [])|].
    change (w_first_index_ wA) with (w_first_index_ w). lia. }
  wp_step. wp_step. wp_step. assert (El0 : next_index w segs - 1 = next_index w3 segs - 1) by (rewrite En3; done). rewrite El0.
  destruct (unused_sub w3 segs (next_index w3 segs - 1) (wm_mg _ _ _ Hw3)) as [Hsub Hnd].
  eapply wp_mono; [apply (remove_unused w3 segs _ Hw3 Hsub Hnd)|].
  - intros a Ha Hr. apply list_elem_of_filter in Hr as [Hr _]. apply negb_true_iff in Hr. by eapply no_entries_no_live.
  - intros _ w4 (g4 & segs4 & -> & Hw4 & El4 & Hsub4 & Hf4). wp_step. exists segs4. split; [split; [done|by intros _]|]. split; [done|].
    split; [apply fmap_snd_drop; rewrite El4; exact El3|]. do 5 (split; [done|]).
    unfold w_disk. cbn [w_manager]. cbn -[Serialize toBytes]. rewrite !(gf_files _ _ Hf4) by done. cbn -[Serialize toBytes].
    split; [exact Hm|]. change (files (mg_disk g2) !! kSnapshotFile = Some (toBytes snapshot)). rewrite Ho2 by done. exact Hsf.
Qed.

(** ** Reading it back *)

Lemma LoadSnapshot_spec w snapshot : files (w_disk w) !! kSnapshotFile = Some (toBytes snapshot) -> zlen (toBytes snapshot) <= kTraversalLimit ->
  w_snapshot_index_ w = sn_index snapshot -> w_snapshot_term_ w = sn_term snapshot -> 0 < sn_index snapshot ->
  wp LoadSnapshot (fun r w' => (exists g', w' = w <| w_manager := g' |> /\ (forall segs, mg_ok (w_manager w) segs -> mg_ok g' segs) /\
      mg_config_ g' = mg_config_ (w_manager w)) /\
    match r with Ok s => s = snapshot | Err e => io_error e end) w.
Proof.
  intros Hf Hl Ei Et Hpos. unfold LoadSnapshot. wp_step. wp_step. rewrite Ei, (proj2 (Z.eqb_neq _ _)) by lia. wp_step. unfold on_files, on_manager, on_mg_disk.
  wp_steps. eapply wp_mono; [apply (ReadFile_spec _ _ _ Hf)|].
  { unfold kTraversalLimit, two32 in *. lia. }
  assert (Hg : forall d', same_files (w_disk w) d' -> exists g', (w <| w_manager := (w_manager w) <| mg_disk := d' |> |>) = w <| w_manager := g' |> /\
    (forall segs, mg_ok (w_manager w) segs -> mg_ok g' segs) /\ mg_config_ g' = mg_config_ (w_manager w)).
  { intros d' Sd. eexists. split; [reflexivity|]. split; [|done]. intros segs Hg. by apply mg_ok_disk. }
  intros [data|e] d' [Sd Hr]; [|split; [by apply Hg|done]]. subst data. rewrite fromBytes_toBytes by done. rewrite Et, !Z.eqb_refl. cbn [negb orb].
  wp_step. split; [by apply Hg|done].
Qed.

(** Taking a local snapshot at an index of the log, after the last one:
    unless an I/O operation fails, the log starts behind that index and keeps
    exactly the entries from there on, the hard state does not fall behind the
    snapshot, the metadata file agrees with the log, and the snapshot that is
    read back is the one that was taken. *)
Theorem local_snapshot_taken w segs snapshot : wal_ok w segs -> w_snapshot_index_ w < sn_index snapshot <= w_first_index_ w + zlen (log w segs) - 1 ->
  w_first_index_ w <= sn_index snapshot + 1 -> zlen (toBytes snapshot) <= kTraversalLimit -> 0 < sn_index snapshot ->
  wp (try! _ := ApplyLocalSnapshot snapshot in let! w := get in let! loaded := LoadSnapshot in rok (w, loaded)) (fun r _ =>
    match r with
    | Ok (w', loaded) => local_snapshot_post w segs snapshot w' /\ match loaded with Ok s => s = snapshot | Err e => io_error e end
    | Err e => io_error e
    end) w.
Proof.
  intros Hok Hi Hf Hl Hp. rewrite <- log_length in Hi. wp_step. eapply wp_mono; [by apply ApplyLocalSnapshot_spec|]. intros [[]|e] w' Hs; [|done].
  pose proof Hs as (segs' & _ & _ & _ & _ & Ei & Et & _ & _ & _ & Hfile). wp_steps. eapply wp_mono; [by apply LoadSnapshot_spec|].
  intros r w2 [_ Hr]. by wp_step.
Qed.

(** ** A snapshot from the leader *)

Lemma RemoveAllSegments_spec g segs : ~ io_fault -> mg_ok g segs ->
  wp RemoveAllSegments (fun r g' => r = Ok tt /\ steps g segs g' []) g.
Proof.
  intros Hio Hg. unfold RemoveAllSegments. wp_step. wp_step. rewrite (keys_ids _ _ _ (gk_segs _ _ Hg)).
  apply (wp_foreachM _ _ (fun ids g' => exists r, ids = as_id <$> r /\ steps g segs g' r)).
  - exists segs. split; [done|by apply steps_refl].
  - intros id ids g1 (r & Er & S1). destruct r as [|a r]; [done|]. rewrite fmap_cons in Er. injection Er as -> ->.
    eapply wp_mono; [apply (RemoveSegment_spec g1 [] a r), S1|]. intros [[]|e] g2 [S2 He]; [|by destruct He].
    exists r. split; [done|by eapply steps_trans].
  - intros g1 (r & Er & S1). apply eq_sym, fmap_nil_inv in Er as ->. done.
Qed.

Lemma mg_ok_nil g : mg_ok g [] -> g = new_segment_manager (mg_disk g) (mg_config_ g) (mg_io_factory_ g).
Proof.
  intros Hg. pose proof (gk_segs _ _ Hg) as Hs. apply Forall2_nil_inv_r in Hs. pose proof (gk_current _ _ Hg) as Hc. cbn in Hc.
  destruct g. cbn in *. by subst.
Qed.

(** Opening the segments of a directory without any. *)
Lemma reopen_empty g : ~ io_fault -> mg_ok g [] -> wp mg_Initialize (fun r g' => r = Ok tt /\ steps g [] g' []) g.
Proof.
  intros Hio Hg. pose proof (mg_ok_nil g Hg) as Eg.
  assert (Hd : disk_holds (mg_disk g) []).
  { constructor; [apply (gk_dir _ _ Hg)| |constructor..]. by destruct (gk_tidy _ _ Hg). }
  pose proof (mg_Initialize_spec (mg_disk g) (mg_config_ g) (mg_io_factory_ g) [] Hio Hd) as Hi. rewrite <- Eg in Hi.
  eapply wp_mono; [apply Hi; split; [apply (gk_size _ _ Hg)|apply (gk_buffer _ _ Hg)]|].
  intros r g' (-> & Hg' & [Ef Ed] & Ec & Eio). split; [done|]. constructor; [done|]. constructor; try done. intros name _. by rewrite Ef.
Qed.

Definition installed_post w (snapshot : Snapshot) w' : Prop :=
  wal_ok w' [] /\ log w' [] = [] /\ w_first_index_ w' = sn_index snapshot + 1 /\ w_snapshot_index_ w' = sn_index snapshot /\
  w_snapshot_term_ w' = sn_term snapshot /\ w_conf_state_ w' = sm_conf_state (sn_meta snapshot) /\
  w_hard_state_ w' = advance_hard_state (w_hard_state_ w) (sn_index snapshot) (sn_term snapshot) /\
  files (w_disk w') !! kMetadataFile = Some (Serialize (CreateMetadata w')) /\
  files (w_disk w') !! kSnapshotFile = Some (toBytes snapshot).

Lemma ApplySnapshot_spec w segs snapshot : ~ io_fault -> wal_ok w segs -> w_snapshot_index_ w < sn_index snapshot ->
  0 < sn_index snapshot -> sn_index snapshot + 1 < u64max ->
  wp (ApplySnapshot snapshot) (fun r w' => r = Ok tt /\ installed_post w snapshot w') w.
Proof.
  intros Hio [Hw _] Hi Hpos Hb. assert (Eci : sn_index snapshot +! 1 = sn_index snapshot + 1) by (apply u64_id; unfold is_u64, two64, u64max in *; lia).
  unfold ApplySnapshot. wp_step. wp_step. rewrite (proj2 (Z.leb_gt _ _)) by lia. unfold save_snapshot_metadata. rewrite Eci. set (ci := sn_index snapshot + 1) in *.
  wp_step. eapply wp_mono; [apply persist_spec, (wm_mg _ _ _ Hw)|]. intros [[]|e] w1 (g1 & -> & Hg1 & Ec1 & _ & Hsf); [|by destruct Hsf].
  wp_step. eapply wp_mono; [by apply save_spec|]. intros [[]|e] w2 (g2 & -> & Hg2 & Ec2 & Ho2 & Hm); [|by destruct Hm as [[_ ?] _]].
  unfold adopt_snapshot. wp_steps. unfold on_index, ix_Clear, ix_SetFirstIndex. wp_steps. unfold on_manager. wp_steps.
  eapply wp_mono; [apply RemoveAllSegments_spec; [done|exact Hg2]|]. intros r3 g3 [_ S3]. wp_step.
  eapply wp_mono; [apply reopen_empty; [done|apply S3]|]. intros r g4 [-> S4]. split; [done|].
  assert (S : steps g2 segs g4 []) by (by eapply steps_trans).
  split; [|split; [done|]; do 5 (split; [done|])].
  - pose proof (wm_buffer _ _ _ Hw) as Eb. pose proof (wm_pending _ _ _ Hw) as Ep. split; [|done]. constructor; try done.
    + apply S.
    + constructor.
    + intros ie e Hin. by apply elem_of_nil in Hin.
    + intros ie e Hin. by apply elem_of_nil in Hin.
    + intros b e E. by destruct b.
    + intros l a E. by destruct l.
    + unfold next_index, w_live. cbn -[u64max]. fold ci. lia.
  - unfold w_disk. cbn [w_manager]. cbn -[Serialize toBytes]. rewrite !(gf_files _ _ (st_frame _ _ _ _ S)) by done.
    split; [exact Hm|]. rewrite Ho2 by done. exact Hsf.
Qed.

(** Installing a snapshot of a later index than the last one, with system
    calls that do what they are asked: the log is empty and starts behind the
    snapshot, whatever it held before; configuration, hard state, metadata file
    and snapshot file are those of the snapshot, and the snapshot is read back. *)
Theorem snapshot_installed w segs snapshot : ~ io_fault -> wal_ok w segs -> w_snapshot_index_ w < sn_index snapshot ->
  0 < sn_index snapshot -> sn_index snapshot + 1 < u64max -> zlen (toBytes snapshot) <= kTraversalLimit ->
  wp (try! _ := ApplySnapshot snapshot in let! w := get in let! loaded := LoadSnapshot in rok (w, loaded)) (fun r _ =>
    exists w', r = Ok (w', Ok snapshot) /\ installed_post w snapshot w') w.
Proof.
  intros Hio Hok Hi Hp Hb Hl. wp_step. eapply wp_mono; [by eapply ApplySnapshot_spec|]. intros r w' [-> Hs].
  pose proof Hs as (_ & _ & _ & Ei & Et & _ & _ & _ & Hfile). wp_steps. eapply wp_mono; [by apply LoadSnapshot_spec|].
  intros [s|e] w2 [_ Hr]; [|by destruct Hr]. subst s. wp_step. by exists w'.
Qed.
End WalSnapshots.
