(* ===== verification/WalStorage.v ===== *)
(** * The storage on the write-ahead log

    Model of [lib/raftor/wal/wal_storage.cc]: [WALStorage], a [Storage] on a
    [WAL] with the last snapshot in memory; every method holds the mutex, so
    calls are atomic.  As long as system calls do what they are asked it is an
    instance of the laws the library relies on. *)

From S2P Require Import Prelude Types Bytes Capnp Record WalIndex Disk Metadata Segment SegmentProps SegmentManager SnapshotFile Wal Storage WalLog WalProps WalRead WalRecovery WalOps WalSnapshots.

Record WALStorage := mkWALStorage {
  ws_wal_ : WAL;
  ws_effective_io_backend_ : WALIoBackend;
  ws_io_backend_note_ : string;
  ws_snapshot_ : Snapshot
}.
#[export] Instance WALStorage_eta : Eta WALStorage := fun s =>
  mkWALStorage (ws_wal_ s) (ws_effective_io_backend_ s) (ws_io_backend_note_ s) (ws_snapshot_ s).

Section WalStorage.
Context {IO : Io} {PF : Platform} {CR : Crc} {CP : Capnp}.

Definition on_wal {A} (m : M WAL A) : M WALStorage A := zoom ws_wal_ (fun w s => s <| ws_wal_ := w |>) m.

(** [WALStorage::Open] on a directory. *)
Definition ws_Open (config : WALConfig) : M Disk (Result WALStorage) := fun d =>
  match wal_Open config d with
  | Ret (Ok wal, d) =>
      let storage := mkWALStorage wal (w_effective_io_backend_ wal) (w_io_backend_note_ wal) empty_snapshot in
      if 0 <? w_snapshot_index_ wal then
        match LoadSnapshot wal with
        | Ret (Ok snapshot, wal) => Ret (Ok (storage <| ws_wal_ := wal |> <| ws_snapshot_ := snapshot |>), w_disk wal)
        | Ret (Err e, wal) => Ret (Err e, w_disk wal)
        | Abort f => Abort f
        end
      else Ret (Ok storage, d)
  | Ret (Err e, d) => Ret (Err e, d)
  | Abort f => Abort f
  end.

Definition ws_InitialState (s : WALStorage) : Result RaftState :=
  Ok (mkRaftState (w_hard_state_ (ws_wal_ s)) (w_conf_state_ (ws_wal_ s))).

Definition ws_Entries (low high : Z) (max_size : option Z) (_context : GetEntriesContext) : M WALStorage (Result (list Entry)) :=
  on_wal (ReadEntries low high max_size).

Definition ws_Term (idx : Z) (s : WALStorage) : outcome (Result Z) :=
  let snap_index := sn_index (ws_snapshot_ s) in
  if (idx =? snap_index) && (0 <? snap_index) then Ret (Ok (sn_term (ws_snapshot_ s)))
  else if (idx =? 0) && (snap_index =? 0) then Ret (Ok 0)
  else Ret (wal_Term idx (ws_wal_ s)).

Definition ws_FirstIndex (s : WALStorage) : Result Z := Ok (w_first_index_ (ws_wal_ s)).
Definition ws_LastIndex (s : WALStorage) : Result Z := Ok (LastIndexUnlocked (ws_wal_ s)).

Definition ws_GetSnapshot (request_index _to : Z) : M WALStorage (Result Snapshot) :=
  let! s := get in
  let snap_index := sn_index (ws_snapshot_ s) in
  if (snap_index =? 0) || (snap_index <? request_index) then rfail (EStorage SnapshotTemporarilyUnavailable)
  else rok (ws_snapshot_ s).

Definition ws_SetHardState (hs : HardState) : M WALStorage (Result unit) := on_wal (SaveHardState hs).
Definition ws_Append (entries : list Entry) : M WALStorage (Result unit) := on_wal (Append entries).
Definition ws_Compact (compact_index : Z) : M WALStorage (Result unit) := on_wal (Compact compact_index).

Definition ws_ApplySnapshot (snapshot : Snapshot) : M WALStorage (Result unit) :=
  try! _ := on_wal (ApplySnapshot snapshot) in
  set! ws_snapshot_ := snapshot ;;;
  rok tt.

Definition ws_ApplyLocalSnapshot (snapshot : Snapshot) : M WALStorage (Result unit) :=
  try! _ := on_wal (ApplyLocalSnapshot snapshot) in
  set! ws_snapshot_ := snapshot ;;;
  rok tt.

Definition ws_SetConfState (conf_state : ConfState) : M WALStorage (Result unit) := on_wal (SaveConfState conf_state).
Definition ws_GetPeerAddresses (s : WALStorage) : list PeerAddress := w_peer_addresses_ (ws_wal_ s).
Definition ws_SetPeerAddresses (peer_addresses : list PeerAddress) : M WALStorage (Result unit) := on_wal (SavePeerAddresses peer_addresses).
Definition ws_UpsertPeerAddress (id : Z) (addr : string) : M WALStorage (Result unit) := on_wal (UpsertPeerAddress id addr).
Definition ws_RemovePeerAddress (id : Z) : M WALStorage (Result unit) := on_wal (RemovePeerAddress id).
Definition ws_Sync : M WALStorage (Result unit) := on_wal wal_Sync.

Definition ws_LocalSnapshot (s : WALStorage) : Result (option Snapshot) :=
  Ok (if sn_index (ws_snapshot_ s) =? 0 then None else Some (ws_snapshot_ s)).

Definition ws_LogSizeBytes (s : WALStorage) : Z := LogSizeBytes (ws_wal_ s).

(** A failed read is logged, and no entry is returned. *)
Definition ws_AllEntries : M WALStorage (list Entry) :=
  let! s := get in
  let first := w_first_index_ (ws_wal_ s) in
  let last := LastIndexUnlocked (ws_wal_ s) in
  if last <? first then ret []
  else
    let! result := on_wal (ReadEntries first (last +! 1) None) in
    ret (match result with Ok entries => entries | Err _ => [] end).

Definition ws_SnapshotIndex (s : WALStorage) : Z := w_snapshot_index_ (ws_wal_ s).

Definition ws_IsInitialized (s : WALStorage) : bool := negb (bool_decide (cs_voters (w_conf_state_ (ws_wal_ s)) = [])).

#[export] Instance wal_storage : Storage WALStorage := {|
  InitialState := ws_InitialState;
  Entries := ws_Entries;
  Term := ws_Term;
  FirstIndex := ws_FirstIndex;
  LastIndex := ws_LastIndex;
  GetSnapshot := ws_GetSnapshot
|}.

#[export] Instance wal_writable : WritableStorage WALStorage := {|
  wr_Append := ws_Append;
  wr_SetHardState := ws_SetHardState;
  wr_SetConfState := ws_SetConfState;
  wr_ApplySnapshot := ws_ApplySnapshot;
  wr_ApplyLocalSnapshot := ws_ApplyLocalSnapshot;
  wr_Sync := ws_Sync;
  wr_LocalSnapshot := ws_LocalSnapshot;
  wr_LogSizeBytes := ws_LogSizeBytes
|}.

Definition wal_address_book : AddressBook WALStorage := {|
  ab_Upsert := ws_UpsertPeerAddress;
  ab_Remove := ws_RemovePeerAddress;
  ab_Get s := (fun p => (pa_id p, pa_addr p)) <$> ws_GetPeerAddresses s;
  ab_Set l := ws_SetPeerAddresses ((fun p => mkPeerAddress p.1 p.2) <$> l)
|}.
End WalStorage.

(** ** Specification *)

Section WalStorageLaws.
Context {IO : Io} {PF : Platform} {CR : Crc} {CP : Capnp}.

(** The snapshot in memory is that of the log, which starts behind it. *)
Record storage_inv (s : WALStorage) (segs : list aseg) : Prop := {
  si_io : ~ io_fault;
  si_wal : wal_ok (ws_wal_ s) segs;
  si_payload : payload_size (log (ws_wal_ s) segs) < two64;
  si_index : sn_index (ws_snapshot_ s) = w_snapshot_index_ (ws_wal_ s);
  si_term : 0 < sn_index (ws_snapshot_ s) -> sn_term (ws_snapshot_ s) = w_snapshot_term_ (ws_wal_ s);
  si_below : 0 <= w_snapshot_index_ (ws_wal_ s) < w_first_index_ (ws_wal_ s)
}.

(** The stored log; its entries are those [AllEntries] reads. *)
Definition storage_view (s : WALStorage) : LogView :=
  let dummy := w_first_index_ (ws_wal_ s) - 1 in
  let snap_index := sn_index (ws_snapshot_ s) in
  mkView dummy
    (if dummy =? snap_index then Some (if snap_index =? 0 then 0 else sn_term (ws_snapshot_ s)) else None)
    (match ws_AllEntries s with Ret (l, _) => l | Abort _ => [] end).

(** ** Reads *)

#[local] Arguments ws_AllEntries : simpl never.

Lemma on_wal_spec {A} (m : M WAL A) Q s : wp m (fun r w' => Q r (s <| ws_wal_ := w' |>)) (ws_wal_ s) -> wp (on_wal m) Q s.
Proof. unfold wp, on_wal, zoom. by destruct (m (ws_wal_ s)) as [[r w']|]. Qed.

(** A read changes nothing but the state of the system calls. *)
Lemma storage_inv_read s segs w' : storage_inv s segs -> wal_ok w' segs -> log w' segs = log (ws_wal_ s) segs -> wframe (ws_wal_ s) w' ->
  storage_inv (s <| ws_wal_ := w' |>) segs.
Proof. intros H Hok El Hf. constructor; cbn -[log]; rewrite ?El, ?(wf_first _ _ Hf), ?(wf_sidx _ _ Hf), ?(wf_sterm _ _ Hf); first [done|apply H]. Qed.

Lemma last_index s segs : storage_inv s segs ->
  LastIndexUnlocked (ws_wal_ s) = w_first_index_ (ws_wal_ s) + zlen (log (ws_wal_ s) segs) - 1 /\
  w_first_index_ (ws_wal_ s) + zlen (log (ws_wal_ s) segs) < u64max /\ contiguous (w_first_index_ (ws_wal_ s)) (log (ws_wal_ s) segs).
Proof.
  intros H. pose proof (si_wal _ _ H) as Hok. pose proof Hok as [Hw _]. rewrite (LastIndex_eq _ _ Hok), log_length.
  pose proof (wm_bounds _ _ _ Hw) as [_ Hb]. rewrite log_length in Hb. cbn [length] in Hb. split; [done|]. split; [lia|]. exact (wm_contig _ _ _ Hw).
Qed.

Lemma AllEntries_spec s segs : storage_inv s segs -> wp ws_AllEntries (fun l _ => l = log (ws_wal_ s) segs) s.
Proof.
  intros H. destruct (last_index s segs H) as (El & Hb & _). pose proof (si_below _ _ H) as Hs. unfold ws_AllEntries. wp_step. wp_step. rewrite El.
  set (first := w_first_index_ (ws_wal_ s)) in *. set (es := log (ws_wal_ s) segs) in *.
  destruct (Z.ltb_spec (first + zlen es - 1) first).
  { wp_step. symmetry. apply nil_length_inv. lia. }
  assert (E1 : first + zlen es - 1 +! 1 = first + zlen es) by (unfold u64max in *; u64_simpl; lia). rewrite E1. wp_step. apply on_wal_spec.
  eapply wp_mono; [apply (ReadEntries_spec _ segs); [apply H|unfold is_u64, two64, u64max in *; lia..|apply H]|].
  intros r w' (_ & _ & _ & Hr). wp_step. revert Hr. fold first es. rewrite Z.ltb_irrefl, (proj2 (Z.ltb_ge _ _)) by lia.
  destruct r as [l|e]; [|intros [_ Hf]; by destruct (si_io _ _ H)]. cbn [limited]. intros ->.
  replace (Z.to_nat (first - first)) with 0%nat by lia. rewrite drop_0. apply take_ge. lia.
Qed.

Lemma storage_view_eq s segs : storage_inv s segs -> v_entries (storage_view s) = log (ws_wal_ s) segs.
Proof.
  intros H. pose proof (AllEntries_spec s segs H) as Hs. unfold wp in Hs. unfold storage_view. cbn [v_entries]. by destruct (ws_AllEntries s) as [[l s']|].
Qed.

Lemma storage_view_read s segs w' : storage_inv s segs -> wal_ok w' segs -> log w' segs = log (ws_wal_ s) segs -> wframe (ws_wal_ s) w' ->
  storage_view (s <| ws_wal_ := w' |>) = storage_view s.
Proof.
  intros H Hok El Hf. pose proof (storage_view_eq _ _ (storage_inv_read _ _ _ H Hok El Hf)) as E. pose proof (storage_view_eq _ _ H) as E0.
  unfold storage_view in *. cbn [v_entries] in E, E0. rewrite E, E0. cbn. by rewrite El, (wf_first _ _ Hf).
Qed.

Lemma storage_last s segs : storage_inv s segs -> v_last (storage_view s) = LastIndexUnlocked (ws_wal_ s).
Proof.
  intros H. unfold v_last. rewrite (storage_view_eq _ _ H). destruct (last_index _ _ H) as [-> _]. cbn. lia.
Qed.

Lemma storage_view_wf s segs : storage_inv s segs -> view_wf (storage_view s).
Proof.
  intros H. destruct (last_index _ _ H) as (El & Hb & Hc). constructor.
  - cbn. pose proof (si_below _ _ H). lia.
  - rewrite (storage_last _ _ H). lia.
  - rewrite (storage_view_eq _ _ H). cbn. by replace (_ - 1 + 1) with (w_first_index_ (ws_wal_ s)) by lia.
Qed.

Lemma storage_term s segs i e : storage_inv s segs -> v_at (storage_view s) i = Some e -> ws_Term i s = Ret (Ok (e_term e)).
Proof.
  intros H. pose proof (si_wal _ _ H) as [Hw _]. unfold v_at. rewrite (storage_view_eq _ _ H). cbn [v_dummy storage_view].
  destruct (Z.ltb_spec (w_first_index_ (ws_wal_ s) - 1) i) as [Hi|]; [|done]. intros E.
  pose proof (si_below _ _ H) as Hs. unfold ws_Term, wal_Term. rewrite (si_index _ _ H).
  rewrite !(proj2 (Z.eqb_neq i _)), (proj2 (Z.ltb_ge i _)) by lia. cbn [andb]. unfold ix_Term.
  rewrite ix_Lookup_eq by first [lia|eapply index_is_wf; exact Hw]. rewrite (wm_index _ _ _ Hw). cbn [ix_first_index_ ix_entries_].
  rewrite (proj2 (Z.ltb_ge i _)) by lia. unfold log, w_log in E. rewrite app_nil_r in E. rewrite list_lookup_fmap in E. rewrite list_lookup_fmap.
  replace (i - (w_first_index_ (ws_wal_ s) - 1) - 1) with (i - w_first_index_ (ws_wal_ s)) in E by lia.
  destruct (w_live (ws_wal_ s) segs !! _) as [[ie e']|] eqn:El; [|done]. injection E as ->. cbn.
  apply list_elem_of_lookup_2 in El. unfold w_live, live in El. apply list_elem_of_filter in El as [_ El].
  apply list_elem_of_In, in_flat_map in El as (a & _ & El). apply list_elem_of_In, places_split in El as (b & c & _ & ->). done.
Qed.

Lemma storage_term_dummy s segs : storage_inv s segs ->
  ws_Term (v_dummy (storage_view s)) s = Ret (match v_dummy_term (storage_view s) with Some t => Ok t | None => Err (EStorage Compacted) end).
Proof.
  intros H. pose proof (si_below _ _ H) as Hs. unfold ws_Term, wal_Term. cbn [v_dummy v_dummy_term storage_view]. rewrite (si_index _ _ H).
  set (first := w_first_index_ (ws_wal_ s)) in *. set (si := w_snapshot_index_ (ws_wal_ s)) in *.
  destruct (Z.eqb_spec (first - 1) si) as [E|E]; cbn [andb].
  - destruct (Z.ltb_spec 0 si); [by rewrite (proj2 (Z.eqb_neq si 0)) by lia|]. rewrite (proj2 (Z.eqb_eq _ 0)), (proj2 (Z.eqb_eq si 0)) by lia. done.
  - rewrite (proj2 (Z.eqb_neq (first - 1) 0)), (proj2 (Z.ltb_lt _ first)) by lia. done.
Qed.

Lemma limited_prefix max_size es out : limited max_size 0 es out -> es <> [] ->
  exists k, (0 < k)%nat /\ out = take k es /\ (max_size = None -> out = es).
Proof.
  destruct max_size as [m|]; cbn.
  - intros (k & -> & Hk & _) Hne. exists k. by split; [apply Hk|].
  - intros -> Hne. exists (length es). rewrite take_ge by lia. split; [|done]. by destruct es; [|cbn; lia].
Qed.

Lemma storage_entries s segs lo hi max ctx : storage_inv s segs -> v_dummy (storage_view s) < lo < hi -> hi <= v_last (storage_view s) + 1 ->
  exists r s', ws_Entries lo hi max ctx s = Ret (r, s') /\ storage_inv s' segs /\ storage_view s' = storage_view s /\
    exists l k, r = Ok l /\ (0 < k)%nat /\ l = take k (v_slice (storage_view s) lo hi) /\ (max = None -> l = v_slice (storage_view s) lo hi).
Proof.
  intros H Hlo Hhi. rewrite (storage_last _ _ H) in Hhi. destruct (last_index _ _ H) as (El & Hb & _). rewrite El in Hhi.
  cbn [v_dummy storage_view] in Hlo. pose proof (si_below _ _ H) as Hs.
  assert (Hw : wp (ws_Entries lo hi max ctx) (fun r s' => storage_inv s' segs /\ storage_view s' = storage_view s /\
    exists l k, r = Ok l /\ (0 < k)%nat /\ l = take k (v_slice (storage_view s) lo hi) /\ (max = None -> l = v_slice (storage_view s) lo hi)) s).
  { apply on_wal_spec. eapply wp_mono; [apply (ReadEntries_spec _ segs); [apply H|unfold is_u64, two64, u64max in *; lia..|apply H]|].
    intros r w' (Hok & Elog & Hf & Hr). split; [by apply storage_inv_read|]. split; [by eapply storage_view_read|].
    revert Hr. rewrite !(proj2 (Z.ltb_ge _ _)) by lia. destruct r as [l|e]; [|intros [_ Hio]; by destruct (si_io _ _ H)].
    unfold v_slice. rewrite (storage_view_eq _ _ H). cbn [v_dummy storage_view].
    replace (lo - (w_first_index_ (ws_wal_ s) - 1) - 1) with (lo - w_first_index_ (ws_wal_ s)) by lia.
    intros Hl. apply limited_prefix in Hl as (k & Hk & Ek & En); [by exists l, k|].
    intros E. apply (f_equal length) in E. rewrite length_take, length_drop in E. cbn in E. lia. }
  unfold wp in Hw. destruct (ws_Entries lo hi max ctx s) as [[r s']|]; [|done]. exists r, s'. split; [done|exact Hw].
Qed.

(** As long as system calls do what they are asked, [WALStorage] keeps the
    promises of a [Storage]. *)
#[export] Instance wal_storage_laws : StorageLaws WALStorage.
Proof.
  refine {| st_inv s := exists segs, storage_inv s segs; st_view := storage_view |}.
  - intros s [segs H]. by eapply storage_view_wf.
  - intros s [segs H]. cbn. unfold ws_FirstIndex. f_equal. lia.
  - intros s [segs H]. cbn. unfold ws_LastIndex. by rewrite (storage_last _ _ H).
  - intros s i e [segs H]. by eapply storage_term.
  - intros s [segs H]. by eapply storage_term_dummy.
  - intros s i _. cbn. unfold ws_Term. by repeat destruct (_ && _).
  - intros s lo hi max ctx [segs H] Hlo Hhi. destruct (storage_entries s segs lo hi max ctx H Hlo Hhi) as (r & s' & E & H' & Ev & l & k & -> & Hk).
    exists (Ok l), s'. split; [exact E|]. split; [by exists segs|]. split; [done|]. by exists k.
  - intros s request to r s' [segs H]. cbn. unfold ws_GetSnapshot. msteps. pose proof (si_below _ _ H) as Hs. pose proof (si_index _ _ H) as Ei.
    destruct (last_index _ _ H) as (_ & Hb & _).
    destruct (_ || _); intros [= <- <-]; (split; [by exists segs|]); (split; [done|]); intros snap [= <-] _. lia.
  - intros s request to _. cbn. unfold ws_GetSnapshot. msteps. by destruct (_ || _).
Defined.
End WalStorageLaws.

(** ** Writes, on the view *)

Section WalStorageWrites.
Context {IO : Io} {PF : Platform} {CR : Crc} {CP : Capnp}.
Implicit Types s : WALStorage.

(** [s'] is a storage in order that holds [v]. *)
Definition holds (v : LogView) (s' : WALStorage) : Prop := (exists segs', storage_inv s' segs') /\ storage_view s' = v.

(** The view is determined by the start, the snapshot and the entries. *)
Lemma storage_view_is s segs : storage_inv s segs ->
  storage_view s = mkView (w_first_index_ (ws_wal_ s) - 1)
    (if w_first_index_ (ws_wal_ s) - 1 =? sn_index (ws_snapshot_ s)
     then Some (if sn_index (ws_snapshot_ s) =? 0 then 0 else sn_term (ws_snapshot_ s)) else None)
    (log (ws_wal_ s) segs).
Proof. intros H. pose proof (storage_view_eq _ _ H) as E. unfold storage_view in *. cbn [v_entries] in E. by rewrite E. Qed.

Lemma payload_size_app a b : payload_size (a ++ b) = payload_size a + payload_size b.
Proof. unfold payload_size. rewrite flat_map_app, length_app. lia. Qed.

Lemma payload_size_drop k es : payload_size (drop k es) <= payload_size es.
Proof. rewrite <- (take_drop k es) at 2. rewrite payload_size_app. pose proof (payload_size_take k es). lia. Qed.

Lemma storage_append s segs e rest : storage_inv s segs -> contiguous (e_index e) (e :: rest) -> Forall rec_ok (REntry <$> e :: rest) ->
  e_index e + zlen (e :: rest) < u64max -> last_id segs + zlen (e :: rest) + 1 < 1000000 ->
  payload_size (v_entries (storage_view s)) + payload_size (e :: rest) < two64 ->
  let v := storage_view s in
  wp (ws_Append (e :: rest)) (fun r s' =>
    if (v_dummy v <? e_index e) && (e_index e <=? v_last v + 1)
    then r = Ok tt /\ holds (mkView (v_dummy v) (v_dummy_term v) (take (Z.to_nat (e_index e - v_dummy v - 1)) (v_entries v) ++ e :: rest)) s'
    else r <> Ok tt /\ s' = s) s.
Proof.
  intros H Hc Hr Hu Hid Hp v. unfold v. rewrite (storage_last _ _ H). rewrite (storage_view_is _ _ H) in Hp |- *. cbn [v_dummy v_entries v_dummy_term] in *.
  destruct (last_index _ _ H) as (-> & _ & _). apply on_wal_spec. eapply wp_mono; [by apply (wal_Append_spec _ segs); [apply H|..]|].
  intros r w'. cbv zeta. set (first := w_first_index_ (ws_wal_ s)). set (es := log (ws_wal_ s) segs) in *.
  assert (Eb : (first - 1 <? e_index e) && (e_index e <=? first + zlen es - 1 + 1) = bool_decide (first <= e_index e <= first + zlen es)).
  { case_bool_decide; [apply andb_true_iff; split; [apply Z.ltb_lt|apply Z.leb_le]; lia|]. apply andb_false_iff.
    destruct (Z.ltb_spec (first - 1) (e_index e)); [right; apply Z.leb_gt; lia|by left]. }
  rewrite Eb. case_bool_decide; [|intros [-> ->]; split; [done|by destruct s]].
  destruct r as [[]|er]; [|intros [_ Hf]; by destruct (si_io _ _ H)]. intros (segs' & Hok & Hf & _ & El). split; [done|].
  assert (H' : storage_inv (s <| ws_wal_ := w' |>) segs').
  { constructor; cbn -[log]; rewrite ?(wf_sidx _ _ Hf), ?(wf_sterm _ _ Hf), ?(wf_first _ _ Hf); try apply H; [done|].
    rewrite El, payload_size_app. fold es. pose proof (payload_size_take (Z.to_nat (e_index e - first)) es). lia. }
  split; [by exists segs'|]. rewrite (storage_view_is _ _ H'). cbn -[log]. rewrite El, (wf_first _ _ Hf). fold first es.
  by replace (e_index e - (first - 1) - 1) with (e_index e - first) by lia.
Qed.

Lemma storage_compact s segs i : storage_inv s segs ->
  let v := storage_view s in
  v_dummy v + 1 < i <= v_last v ->
  wp (ws_Compact i) (fun r s' => r = Ok tt /\ holds (mkView (i - 1) None (drop (Z.to_nat (i - v_dummy v - 1)) (v_entries v))) s') s.
Proof.
  intros H v. unfold v. rewrite (storage_last _ _ H). rewrite (storage_view_is _ _ H). cbn [v_dummy v_entries].
  destruct (last_index _ _ H) as (-> & _ & _). intros Hi. pose proof (si_below _ _ H) as Hb. apply on_wal_spec.
  eapply wp_mono; [apply (Compact_spec _ segs); [apply H|lia]|]. intros r w'. cbv zeta.
  rewrite (proj2 (Z.leb_gt _ _)), (proj2 (Z.ltb_ge _ _)) by lia. destruct r as [[]|er]; [|intros [_ Hf]; by destruct (si_io _ _ H)].
  intros (segs' & Hok & Ef & _ & El & _ & _ & _ & _ & Ei & Et). split; [done|].
  assert (H' : storage_inv (s <| ws_wal_ := w' |>) segs').
  { constructor; cbn -[log]; rewrite ?Ei, ?Et, ?Ef; try apply H; [done| |lia]. rewrite El. pose proof (payload_size_drop (Z.to_nat (i - w_first_index_ (ws_wal_ s))) (log (ws_wal_ s) segs)).
    pose proof (si_payload _ _ H). lia. }
  split; [by exists segs'|]. rewrite (storage_view_is _ _ H'). cbn -[log]. rewrite El, Ef, (si_index _ _ H), (proj2 (Z.eqb_neq _ _)) by lia.
  by replace (i - (w_first_index_ (ws_wal_ s) - 1) - 1) with (i - w_first_index_ (ws_wal_ s)) by lia.
Qed.

Lemma storage_snapshot s segs snapshot : storage_inv s segs -> w_snapshot_index_ (ws_wal_ s) < sn_index snapshot -> sn_index snapshot + 1 < u64max ->
  wp (ws_ApplySnapshot snapshot) (fun r s' => r = Ok tt /\ holds (mkView (sn_index snapshot) (Some (sn_term snapshot)) []) s' /\
    ws_LocalSnapshot s' = Ok (Some snapshot)) s.
Proof.
  intros H Hn Hb. pose proof (si_below _ _ H) as Hs. unfold ws_ApplySnapshot. wp_step. apply on_wal_spec.
  eapply wp_mono; [by eapply (ApplySnapshot_spec _ segs); [apply H|apply H|..]; lia|].
  intros r w' (-> & Hok & El & Ef & Ei & Et & _). wp_steps. split; [done|]. set (s' := _ <| ws_snapshot_ := snapshot |>).
  assert (H' : storage_inv s' []).
  { constructor; cbn -[log]; rewrite ?Ei, ?Et, ?Ef; try done; [apply H|lia]. }
  split; [split; [by exists []|]|].
  - rewrite (storage_view_is _ _ H'). cbn -[log]. rewrite El, Ef. replace (sn_index snapshot + 1 - 1) with (sn_index snapshot) by lia.
    by rewrite Z.eqb_refl, (proj2 (Z.eqb_neq _ 0)) by lia.
  - unfold ws_LocalSnapshot. cbn. by rewrite (proj2 (Z.eqb_neq _ 0)) by lia.
Qed.

Lemma storage_local_snapshot s segs snapshot : storage_inv s segs ->
  let v := storage_view s in
  w_snapshot_index_ (ws_wal_ s) < sn_index snapshot -> v_dummy v <= sn_index snapshot <= v_last v ->
  wp (ws_ApplyLocalSnapshot snapshot) (fun r s' => r = Ok tt /\
    holds (mkView (sn_index snapshot) (Some (sn_term snapshot)) (drop (Z.to_nat (sn_index snapshot - v_dummy v)) (v_entries v))) s' /\
    ws_LocalSnapshot s' = Ok (Some snapshot)) s.
Proof.
  intros H v. unfold v. rewrite (storage_last _ _ H). rewrite (storage_view_is _ _ H). cbn [v_dummy v_entries].
  destruct (last_index _ _ H) as (-> & _ & _). intros Hn Hi. pose proof (si_below _ _ H) as Hs. unfold ws_ApplyLocalSnapshot. wp_step. apply on_wal_spec.
  eapply wp_mono; [apply (ApplyLocalSnapshot_spec _ segs); [apply H|rewrite log_length; lia|lia]|].
  intros r w'. destruct r as [[]|er]; [|intros [_ Hf]; by destruct (si_io _ _ H)].
  intros (segs' & Hok & _ & El & Ef & Ei & Et & _). wp_steps. split; [done|]. set (s' := _ <| ws_snapshot_ := snapshot |>).
  assert (H' : storage_inv s' segs').
  { constructor; cbn -[log]; rewrite ?Ei, ?Et, ?Ef; try done; [apply H| |lia]. rewrite El.
    pose proof (payload_size_drop (Z.to_nat (sn_index snapshot + 1 - w_first_index_ (ws_wal_ s))) (log (ws_wal_ s) segs)). pose proof (si_payload _ _ H). lia. }
  split; [split; [by exists segs'|]|].
  - rewrite (storage_view_is _ _ H'). cbn -[log]. rewrite El, Ef. replace (sn_index snapshot + 1 - 1) with (sn_index snapshot) by lia.
    rewrite Z.eqb_refl, (proj2 (Z.eqb_neq _ 0)) by lia. f_equal. f_equal. lia.
  - unfold ws_LocalSnapshot. cbn. by rewrite (proj2 (Z.eqb_neq _ 0)) by lia.
Qed.

Lemma storage_hard_state s segs hs : storage_inv s segs -> rec_ok (RHard hs) -> room_for (ws_wal_ s) segs (zlen (rec_bytes (RHard hs))) ->
  wp (ws_SetHardState hs) (fun r s' => r = Ok tt /\ holds (storage_view s) s' /\
    InitialState s' = Ok (mkRaftState hs (w_conf_state_ (ws_wal_ s)))) s.
Proof.
  intros H Hr Hroom. apply on_wal_spec. eapply wp_mono; [by apply (SaveHardState_spec _ segs); [apply H|..]|].
  intros [[]|er] w'; [|intros [_ Hf]; by destruct (si_io _ _ H)]. intros (Hok & El & Es & _ & g' & ->). split; [done|]. split; [|done].
  set (s' := s <| ws_wal_ := _ |>).
  assert (H' : storage_inv s' (with_hard (ws_wal_ s) segs hs)) by (constructor; cbn -[log]; try apply H; [exact Hok|rewrite El; apply H]).
  split; [by eexists|]. rewrite (storage_view_is _ _ H'), (storage_view_is _ _ H). cbn -[log]. by rewrite El.
Qed.

(** ** Opening a storage again *)

Lemma storage_inv_opened s segs w' snapshot : storage_inv s segs -> opened_wal (ws_wal_ s) segs w' -> sn_index snapshot = sn_index (ws_snapshot_ s) ->
  (0 < sn_index snapshot -> sn_term snapshot = sn_term (ws_snapshot_ s)) -> forall backend note,
  holds (storage_view s) (mkWALStorage w' backend note snapshot) /\
  InitialState (mkWALStorage w' backend note snapshot) = Ok (mkRaftState (recovered_hard_state (ws_wal_ s) segs) (w_conf_state_ (ws_wal_ s))).
Proof.
  intros H (Hok & El & Eh & Ec & _ & Ef & Ei & Et) En Em backend note. set (s' := mkWALStorage _ _ _ _).
  pose proof (si_below _ _ H) as Hb. pose proof (si_index _ _ H) as Esi.
  assert (H' : storage_inv s' segs).
  { constructor; cbn -[log]; rewrite ?El, ?Ei, ?Et, ?Ef, ?En; try apply H; [done|]. intros Hp. rewrite Em by lia. by apply H. }
  split; [split; [by exists segs|]|].
  - rewrite (storage_view_is _ _ H'), (storage_view_is _ _ H). cbn -[log]. rewrite El, Ef, En. destruct (Z.eqb_spec (sn_index (ws_snapshot_ s)) 0); [done|].
    rewrite Em by lia. done.
  - cbn. unfold ws_InitialState. cbn. by rewrite Eh, Ec.
Qed.

(** C21: [WALStorage::Open] on the directory a storage has left behind, with its
    last snapshot in the snapshot file, gives a storage that holds the same log
    and starts in the recovered hard state and the stored configuration, where
    the commit index is within the log.  System calls do what they are asked,
    and the configuration has the segment size the log was written with. *)
Theorem wal_storage_reopens s ps d config sel : storage_inv s ps.*1 -> left_behind (ws_wal_ s) ps d -> config_ok config ->
  wc_segment_size config = w_size (ws_wal_ s) -> SelectSegmentIoBackend config = Ok sel ->
  hs_commit (recovered_hard_state (ws_wal_ s) ps.*1) <= v_last (storage_view s) ->
  (0 < sn_index (ws_snapshot_ s) -> files d !! kSnapshotFile = Some (toBytes (ws_snapshot_ s)) /\ zlen (toBytes (ws_snapshot_ s)) <= kTraversalLimit) ->
  wp (ws_Open config) (fun r _ => exists s', r = Ok s' /\ holds (storage_view s) s' /\
    InitialState s' = Ok (mkRaftState (recovered_hard_state (ws_wal_ s) ps.*1) (w_conf_state_ (ws_wal_ s)))) d.
Proof.
  intros H Hl Hc Hsize Hsel Hcommit Hsnap. rewrite (storage_last _ _ H) in Hcommit. destruct (last_index _ _ H) as (El & _ & _). rewrite El in Hcommit.
  pose proof (wal_Open_spec _ _ _ _ _ (si_io _ _ H) (si_wal _ _ H) Hl Hc Hsize Hsel) as Hs. rewrite (proj2 (Z.leb_le _ _)) in Hs by done.
  unfold wp in *. unfold ws_Open. destruct (wal_Open config d) as [[r d']|]; [|done]. destruct Hs as (w' & -> & -> & Ho & Es).
  pose proof Ho as (Hok' & _ & _ & _ & _ & _ & Ei & Et). rewrite Ei. pose proof (si_index _ _ H) as Esi. pose proof (si_below _ _ H) as Hb.
  destruct (Z.ltb_spec 0 (w_snapshot_index_ (ws_wal_ s))) as [Hp|Hp].
  - destruct Hsnap as [Hf Hlim]; [lia|].
    assert (Hload : wp LoadSnapshot (fun r w2 => r = Ok (ws_snapshot_ s) /\ opened_wal (ws_wal_ s) ps.*1 w2) w').
    { eapply wp_mono; [apply (LoadSnapshot_spec w' (ws_snapshot_ s)); [by rewrite Es|done|congruence| |lia]|].
      - rewrite Et. symmetry. apply H. lia.
      - intros [s'|e] w2 [(g' & -> & Hg & Ec) Hr]; [|by destruct Hr, (si_io _ _ H)]. subst s'. split; [done|].
        destruct (wal_ok_manager _ _ g' Hok' (Hg _ (wm_mg _ _ _ (proj1 Hok'))) Ec) as [Hok2 El2]. destruct Ho as (_ & Elog & Ho).
        split; [done|]. split; [by rewrite El2|exact Ho]. }
    unfold wp in Hload. destruct (LoadSnapshot w') as [[r w2]|]; [|done]. destruct Hload as [-> Ho2]. eexists. split; [reflexivity|].
    by apply storage_inv_opened.
  - eexists. split; [reflexivity|]. apply storage_inv_opened; [done|done|cbn; lia|cbn; lia].
Qed.
End WalStorageWrites.
