(* ===== verification/WalMemory.v ===== *)
(** * The write-ahead log and the storage in memory

    The writes of [WALStorage] next to those of [MemoryStorage]: on storages
    that hold the same log they give the same answer and leave the same log. *)

From S2P Require Import Prelude Types Util Storage MemStorage.
From S2P Require Import Bytes Capnp Record WalIndex Disk Metadata Segment SegmentProps SegmentManager SnapshotFile Wal WalLog WalProps WalRead WalRecovery WalOps WalSnapshots WalStorage.

Section WalMemory.
Context {IO : Io} {PF : Platform} {CR : Crc} {CP : Capnp}.
Implicit Types (s : WALStorage) (m : MemoryStorage).

Definition is_ok (r : Result unit) : bool := match r with Ok _ => true | Err _ => false end.

(** Both storages are in order and hold the log [v]. *)
Definition both_hold (v : LogView) m s : Prop := MemStorage.mem_inv m /\ MemStorage.mem_view m = v /\ holds v s.

(** A write of the two storages: both succeed, or both refuse and stay as they
    are, as [ok] says; then both hold [v], and [Q] is so. *)
Definition agree (op : M WALStorage (Result unit)) (mop : M MemoryStorage (Result unit)) (ok : bool) (v : LogView)
    (Q : MemoryStorage -> WALStorage -> Prop) m s : Prop :=
  wp op (fun r s' => exists r' m', mop m = Ret (r', m') /\ is_ok r = ok /\ is_ok r' = ok /\ both_hold v m' s' /\
    (ok = false -> s' = s /\ m' = m) /\ Q m' s') s.

Lemma not_Ok r : r <> Ok tt -> is_ok r = false.
Proof. by destruct r as [[]|]. Qed.

Section Agreement.
Context m s segs (Hm : MemStorage.mem_inv m) (Hs : storage_inv s segs) (Ev : MemStorage.mem_view m = storage_view s).
Let v := storage_view s.

Lemma agree_append e rest : contiguous (e_index e) (e :: rest) -> Forall rec_ok (REntry <$> e :: rest) ->
  e_index e + zlen (e :: rest) < u64max -> last_id segs + zlen (e :: rest) + 1 < 1000000 ->
  payload_size (v_entries v) + payload_size (e :: rest) < two64 ->
  let ok := (v_dummy v <? e_index e) && (e_index e <=? v_last v + 1) in
  agree (ws_Append (e :: rest)) (MemStorage.Append (e :: rest)) ok (if ok then v_replace v (e_index e) (e :: rest) else v) (fun _ _ => True) m s.
Proof.
  intros Hc Hr Hu Hid Hp ok. destruct (MemStorage.mem_append_run m e rest Hm Hc ltac:(lia)) as (r' & m' & E & W' & Hr').
  eapply wp_mono; [by apply (storage_append _ segs)|]. intros r s'. rewrite Ev in Hr'. fold v in Hr' |- *. fold ok in Hr' |- *.
  intros Hw. exists r', m'. split; [done|]. destruct ok.
  - destruct Hr' as [-> Hv], Hw as [-> Hh]. split; [done|]. split; [done|]. split; [by split|]. done.
  - destruct Hr' as [Hn ->], Hw as [Hn2 ->]. do 2 (split; [by apply not_Ok|]). split; [|done]. split; [done|]. split; [done|].
    split; [by exists segs|done].
Qed.

Lemma agree_compact i : v_dummy v + 1 < i <= v_last v ->
  agree (ws_Compact i) (MemStorage.Compact i) true (mkView (i - 1) None (drop (Z.to_nat (i - v_dummy v - 1)) (v_entries v))) (fun _ _ => True) m s.
Proof.
  intros Hi. destruct (MemStorage.mem_compact_run m i Hm) as (m' & E & W' & Hv); [by rewrite Ev|]. rewrite Ev in Hv.
  eapply wp_mono; [by apply (storage_compact _ segs)|]. intros r s' [-> Hh]. by exists (Ok tt), m'.
Qed.

Lemma agree_snapshot snapshot : v_dummy v < sn_index snapshot -> sn_index snapshot + 1 < u64max ->
  agree (ws_ApplySnapshot snapshot) (MemStorage.ApplySnapshot snapshot) true (mkView (sn_index snapshot) (Some (sn_term snapshot)) [])
    (fun _ s' => ws_LocalSnapshot s' = Ok (Some snapshot)) m s.
Proof.
  intros Hi Hb. pose proof (si_below _ _ Hs) as Hl. cbn [v storage_view v_dummy] in Hi.
  destruct (MemStorage.mem_apply_snapshot m snapshot Hm) as (r' & m' & E & W' & Hr); [lia|]. rewrite Ev in Hr. cbn [storage_view v_dummy] in Hr.
  rewrite (proj2 (Z.ltb_lt _ _)) in Hr by lia. destruct Hr as [-> Hv].
  eapply wp_mono; [apply (storage_snapshot _ segs); [done|lia|lia]|]. intros r s' (-> & Hh & Hls). by exists (Ok tt), m'.
Qed.

Lemma agree_local_snapshot snapshot : v_dummy v < sn_index snapshot <= v_last v ->
  agree (ws_ApplyLocalSnapshot snapshot) (MemStorage.ApplyLocalSnapshot snapshot) true
    (mkView (sn_index snapshot) (Some (sn_term snapshot)) (drop (Z.to_nat (sn_index snapshot - v_dummy v)) (v_entries v)))
    (fun _ s' => ws_LocalSnapshot s' = Ok (Some snapshot)) m s.
Proof.
  intros Hi. pose proof (si_below _ _ Hs) as Hl. assert (Hd : v_dummy v = w_first_index_ (ws_wal_ s) - 1) by done.
  destruct (MemStorage.mem_local_snapshot m snapshot Hm) as (m' & E & W' & Hv); [by rewrite Ev|]. rewrite Ev in Hv.
  eapply wp_mono; [apply (storage_local_snapshot _ segs); [done|lia|fold v; lia]|]. intros r s' (-> & Hh & Hls). by exists (Ok tt), m'.
Qed.

Lemma agree_hard_state hs : rec_ok (RHard hs) -> is_u64 (hs_commit hs) -> room_for (ws_wal_ s) segs (zlen (rec_bytes (RHard hs))) ->
  agree (ws_SetHardState hs) (MemStorage.SetHardState hs) true v
    (fun m' s' => rs_hard_state (MemStorage.raft_state_ m') = hs /\ InitialState s' = Ok (mkRaftState hs (w_conf_state_ (ws_wal_ s)))) m s.
Proof.
  intros Hr Hu Hroom. destruct (MemStorage.mem_raft_state m (fun r => r <| rs_hard_state := hs |>) Hm) as [W' Hv]; [exact Hu|].
  eapply wp_mono; [by apply (storage_hard_state _ segs)|]. intros r s' (-> & Hh & Hi). exists (Ok tt). eexists. split; [reflexivity|].
  split; [done|]. split; [done|]. split; [|done]. split; [exact W'|]. split; [by rewrite Hv|done].
Qed.
End Agreement.

(** C13: The writes of a [WALStorage] are those of the storage in memory.  When
    both hold the same log and system calls do what they are asked, the same
    write has the same outcome on both and leaves the same log, and the
    invariants of both: [Append] of a contiguous batch that starts inside the
    log or right behind it replaces the log from there on, and is refused
    otherwise; [Compact] at an index of the log behind the first one drops
    the entries below it; a snapshot from the leader that is ahead of the start of the log
    leaves the empty log behind it, a local one inside the log the entries
    behind it, and both become the local snapshot of the [WALStorage];
    [SetHardState] keeps the log and sets the hard state.  This is for batches
    and hard states within the limits of the format (records, segment names and
    sizes of 32 and 64 bits), and for a hard state when the current segment has
    room for it ([room_for]). *)
Theorem wal_storage_writes m s segs : MemStorage.mem_inv m -> storage_inv s segs -> MemStorage.mem_view m = storage_view s ->
  let v := storage_view s in
  (forall e rest, contiguous (e_index e) (e :: rest) -> Forall rec_ok (REntry <$> e :: rest) ->
     e_index e + zlen (e :: rest) < u64max -> last_id segs + zlen (e :: rest) + 1 < 1000000 ->
     payload_size (v_entries v) + payload_size (e :: rest) < two64 ->
     let ok := (v_dummy v <? e_index e) && (e_index e <=? v_last v + 1) in
     agree (ws_Append (e :: rest)) (MemStorage.Append (e :: rest)) ok (if ok then v_replace v (e_index e) (e :: rest) else v)
       (fun _ _ => True) m s) /\
  (forall i, v_dummy v + 1 < i <= v_last v ->
     agree (ws_Compact i) (MemStorage.Compact i) true (mkView (i - 1) None (drop (Z.to_nat (i - v_dummy v - 1)) (v_entries v)))
       (fun _ _ => True) m s) /\
  (forall snapshot, v_dummy v < sn_index snapshot -> sn_index snapshot + 1 < u64max ->
     agree (ws_ApplySnapshot snapshot) (MemStorage.ApplySnapshot snapshot) true (mkView (sn_index snapshot) (Some (sn_term snapshot)) [])
       (fun _ s' => ws_LocalSnapshot s' = Ok (Some snapshot)) m s) /\
  (forall snapshot, v_dummy v < sn_index snapshot <= v_last v ->
     agree (ws_ApplyLocalSnapshot snapshot) (MemStorage.ApplyLocalSnapshot snapshot) true
       (mkView (sn_index snapshot) (Some (sn_term snapshot)) (drop (Z.to_nat (sn_index snapshot - v_dummy v)) (v_entries v)))
       (fun _ s' => ws_LocalSnapshot s' = Ok (Some snapshot)) m s) /\
  (forall hs, rec_ok (RHard hs) -> is_u64 (hs_commit hs) -> room_for (ws_wal_ s) segs (zlen (rec_bytes (RHard hs))) ->
     agree (ws_SetHardState hs) (MemStorage.SetHardState hs) true v
       (fun m' s' => rs_hard_state (MemStorage.raft_state_ m') = hs /\ InitialState s' = Ok (mkRaftState hs (w_conf_state_ (ws_wal_ s)))) m s).
Proof.
  intros Hm Hs Ev v. split; [|split; [|split; [|split]]]; intros.
  - by apply (agree_append m s segs).
  - by apply (agree_compact m s segs).
  - by apply (agree_snapshot m s segs).
  - by apply (agree_local_snapshot m s segs).
  - by apply (agree_hard_state m s segs).
Qed.
End WalMemory.
