(* ===== verification/WalExamples.v ===== *)
(** * Runs of the write-ahead log

    Concrete logs: instances of the theorems on appending, reading and recovery,
    and runs in which the code loses or refuses what it has written. *)

From S2P Require Import Prelude Types Bytes Capnp Record WalIndex Disk Metadata Segment SegmentProps SegmentManager SnapshotFile Wal Storage WalLog WalProps WalRead WalRecovery WalOps WalSnapshots WalStorage WalMemory.

#[local] Existing Instance reliable_io.

#[local] Instance plain_platform : Platform := {|
  is_linux := true; has_liburing := false; io_uring_queue_init _ := false; io_uring_get_probe_ring := None
|}.

Lemma reliable_no_fault : ~ io_fault.
Proof. intros (n & Hn). done. Qed.

Definition example_entry (term index : Z) : Entry := mkEntry EntryNormal term index "x" "" 0.
Definition small_config (size : Z) : WALConfig := mkWALConfig BackendAuto 256 size 4096 true false.
Definition empty_dir : Disk := mkDisk true ∅ 0.

(** The state and the result of a run. *)
Definition after {S A} (m : M S A) (s : S) : S := match m s with Ret (_, s') => s' | Abort _ => s end.
Definition result_of {S A} (m : M S A) (s : S) : option A := match m s with Ret (a, _) => Some a | Abort _ => None end.

Lemma wp_after {S A} (m : M S A) Q (s : S) : wp m Q s -> exists a, m s = Ret (a, after m s) /\ result_of m s = Some a /\ Q a (after m s).
Proof. unfold wp, after, result_of. destruct (m s) as [[a s']|]; [eauto|done]. Qed.

Definition fresh_of (size : Z) : WAL := fresh_wal empty_dir (small_config size) PosixSegmentIo.
Definition fresh : WAL := fresh_of 200.

Lemma fresh_ok size : sizeof_SegmentHeader < size < 2 ^ 62 -> wal_ok (fresh_of size) [].
Proof. intros Hs. apply fresh_wal_ok; [done|done|done|]. intros name [x Hx]. cbn in Hx. by rewrite lookup_empty in Hx. Qed.

Definition example_entries : list Entry := [example_entry 1 1; example_entry 1 2; example_entry 1 3].

Lemma appended_ok size : sizeof_SegmentHeader < size < 2 ^ 62 -> let w := after (Append example_entries) (fresh_of size) in
  exists segs, wal_ok w segs /\ log w segs = example_entries /\ last_id segs <= 4.
Proof.
  intros Hsize w. assert (Hs : wp (Append example_entries) (fun r w => exists segs,
    wal_ok w segs /\ log w segs = example_entries /\ last_id segs <= 4) (fresh_of size)).
  { eapply wp_mono; [apply (wal_Append_spec (fresh_of size) [] (example_entry 1 1) [example_entry 1 2; example_entry 1 3] (fresh_ok size Hsize))|].
    all: try done.
    - repeat constructor; vm_compute; congruence.
    - intros [[]|e] w'; cbv zeta; rewrite bool_decide_eq_true_2 by (vm_compute; split; congruence).
      + intros (segs & Hok & _ & Hl & El). by exists segs.
      + intros [_ Hf]. by destruct reliable_no_fault. }
  apply wp_after in Hs as (r & _ & _ & Hs). exact Hs.
Qed.

(** Three entries; the third one is in a second segment. *)
Definition example_wal : WAL := after (Append example_entries) fresh.

Lemma example_wal_ok : exists segs, wal_ok example_wal segs /\ log example_wal segs = example_entries /\ last_id segs <= 4.
Proof. apply (appended_ok 200). done. Qed.

Lemma example_wal_first : w_first_index_ example_wal = 1.
Proof. vm_compute. reflexivity. Qed.

#[local] Opaque example_wal.

(** What a [wp] of a run gives, with the result the run computes. *)
Lemma wp_result {S A} (m : M S A) Q (s : S) a : wp m Q s -> result_of m s = Some a -> Q a (after m s).
Proof. intros Hw Hr. apply wp_after in Hw as (b & _ & Hb & HQ). congruence. Qed.

Lemma Append_replaces_suffix_witness : let w := after (Append [example_entry 2 2]) example_wal in
  exists segs, wal_ok w segs /\ log w segs = [example_entry 1 1; example_entry 2 2].
Proof.
  intros w. destruct example_wal_ok as (segs & Hok & El & Hid).
  opose proof* (Append_replaces_suffix example_wal segs (example_entry 2 2) [] Hok) as Hs; [done|repeat constructor; vm_compute; congruence|done| |].
  { change (last_id segs + 1 + 1 < 1000000). lia. }
  assert (Hr : result_of (Append [example_entry 2 2]) example_wal = Some (Ok tt)) by (vm_compute; reflexivity).
  cbv zeta in Hs. apply (wp_result _ _ _ _ Hs) in Hr as Hq. cbv beta iota in Hq. rewrite El, ?example_wal_first in Hq.
  rewrite bool_decide_eq_true_2 in Hq by (clear; split; vm_compute; congruence). destruct Hq as (segs' & Hok' & _ & _ & El').
  exists segs'. split; [exact Hok'|exact El'].
Defined.

Lemma ReadEntries_returns_log_witness : let w := after (ReadEntries 2 9 None) example_wal in
  exists segs, wal_ok w segs /\ limited None 0 (drop 1 example_entries) [example_entry 1 2; example_entry 1 3] /\
    result_of (ReadEntries 2 9 None) example_wal = Some (Ok [example_entry 1 2; example_entry 1 3]).
Proof.
  intros w. destruct example_wal_ok as (segs & Hok & El & Hid).
  opose proof* (ReadEntries_returns_log example_wal segs 2 9 None Hok) as Hs; [split; vm_compute; congruence|split; vm_compute; congruence| |].
  { rewrite El. vm_compute. done. }
  assert (Hr : result_of (ReadEntries 2 9 None) example_wal = Some (Ok [example_entry 1 2; example_entry 1 3])) by (vm_compute; reflexivity).
  cbv zeta in Hs. apply (wp_result _ _ _ _ Hs) in Hr as Hq. cbv beta iota in Hq. rewrite El, ?example_wal_first in Hq.
  destruct Hq as (Hok' & _ & _ & Hq). exists segs. split; [exact Hok'|]. split; [exact Hq|exact Hr].
Defined.

Lemma Compact_drops_prefix_witness : let w := after (Compact 3) example_wal in
  exists segs, wal_ok w segs /\ w_first_index_ w = 3 /\ log w segs = [example_entry 1 3].
Proof.
  intros w. destruct example_wal_ok as (segs & Hok & El & Hid).
  opose proof* (Compact_drops_prefix example_wal segs 3 Hok) as Hs; [lia|].
  assert (Hr : result_of (Compact 3) example_wal = Some (Ok tt)) by (vm_compute; reflexivity).
  cbv zeta in Hs. apply (wp_result _ _ _ _ Hs) in Hr as Hq. cbv beta iota in Hq. rewrite El, ?example_wal_first in Hq.
  destruct Hq as (segs' & Hok' & Ef & _ & El' & _ & _).
  exists segs'. split; [exact Hok'|]. split; [exact Ef|exact El'].
Defined.

Definition snapshot_at (index term : Z) : Snapshot := mkSnapshot "state" (mkSnapshotMetadata (mkConfState [1; 2] [] [] [] false) index term).

Lemma local_snapshot_taken_witness :
  exists w' segs, log example_wal segs = example_entries /\ local_snapshot_post example_wal segs (snapshot_at 2 1) w'.
Proof.
  destruct example_wal_ok as (segs & Hok & El & Hid).
  opose proof* (local_snapshot_taken example_wal segs (snapshot_at 2 1) Hok) as Hs; [rewrite El, example_wal_first; vm_compute; split; congruence|rewrite example_wal_first; vm_compute; congruence|vm_compute; congruence|done|].
  apply wp_after in Hs as ([[w' l]|e] & _ & Hr & Hs); [|by destruct Hs, reliable_no_fault]. destruct Hs as [Hs _]. exists w', segs. split; [exact El|exact Hs].
Defined.

Lemma snapshot_installed_witness : exists w', installed_post example_wal (snapshot_at 9 2) w'.
Proof.
  destruct example_wal_ok as (segs & Hok & El & Hid).
  opose proof* (snapshot_installed example_wal segs (snapshot_at 9 2) reliable_no_fault Hok) as Hs; [done|done|done|vm_compute; congruence|].
  apply wp_after in Hs as (r & _ & _ & w' & _ & Hs). exists w'. exact Hs.
Defined.

(** The hard state is saved first, then entries are appended. *)
Definition saved_wal : WAL := after (SaveHardState (mkHardState 1 2 0)) fresh.

Lemma SaveHardState_durable_witness : exists segs, wal_ok saved_wal segs /\ log saved_wal segs = [] /\
  recovered_hard_state saved_wal segs = mkHardState 1 2 0.
Proof.
  opose proof* (SaveHardState_durable fresh [] (mkHardState 1 2 0) (fresh_ok 200 ltac:(done))) as Hs.
  - vm_compute. repeat split; congruence.
  - split; [vm_compute; congruence|]. intros l a E. by destruct l.
  - constructor.
  - vm_compute. congruence.
  - assert (Hr : result_of (SaveHardState (mkHardState 1 2 0)) fresh = Some (Ok tt)) by (vm_compute; reflexivity).
    apply (wp_result _ _ _ _ Hs) in Hr as Hq. destruct Hq as (segs & Hok & El & _ & _ & Eh). exists segs. split; [exact Hok|]. split; [exact El|exact Eh].
Defined.

Lemma addresses_refine_map_witness : let w := after (UpsertPeerAddress 7 "b") (after (UpsertPeerAddress 7 "a") example_wal) in
  address_map (w_peer_addresses_ w) !! 7 = Some "b".
Proof.
  destruct example_wal_ok as (segs & Hok & El & Hid).
  destruct (addresses_refine_map example_wal segs Hok) as (H1 & _). specialize (H1 7 "a"). apply wp_after in H1 as (r & _ & _ & (Hok1 & _) & _).
  destruct (addresses_refine_map _ segs Hok1) as (H2 & _). specialize (H2 7 "b"). apply wp_after in H2 as (r2 & _ & _ & _ & E).
  cbv zeta. rewrite E. apply lookup_insert_eq.
Defined.

(** A log closed and opened again. *)
Definition closed_wal : WAL := after save_metadata example_wal.

Lemma closed_wal_ok : exists segs, wal_ok closed_wal segs /\ log closed_wal segs = example_entries.
Proof.
  destruct example_wal_ok as (segs & Hok & El & Hid). pose proof (save_metadata_spec _ _ _ Hok Hok eq_refl) as Hs.
  apply wp_after in Hs as (r & _ & _ & g' & _ & Hok' & El' & _). exists segs. split; [exact Hok'|]. etransitivity; [exact El'|exact El].
Qed.

Lemma closed_wal_metadata : files (w_disk closed_wal) !! kMetadataFile = Some (Serialize (CreateMetadata closed_wal)).
Proof. vm_compute. reflexivity. Qed.

Lemma closed_wal_fits : metadata_fits (CreateMetadata closed_wal).
Proof.
  assert (E : CreateMetadata closed_wal = mkWALMetadata (Some empty_hard_state) (Some empty_conf_state) [] 1 0 0) by (vm_compute; reflexivity).
  rewrite E. constructor; try (split; vm_compute; congruence); cbn; first [intros x [= <-]; vm_compute; congruence|vm_compute; congruence].
Qed.

Definition reopened : WAL := match wal_Open (small_config 200) (w_disk closed_wal) with Ret (Ok w, _) => w | _ => fresh end.

Lemma reopened_run : wal_Open (small_config 200) (w_disk closed_wal) = Ret (Ok reopened, w_disk reopened).
Proof. vm_compute. reflexivity. Qed.

#[local] Opaque closed_wal reopened.

Lemma Ok_inj {A} (x y : A) : Ok x = Ok y -> x = y.
Proof. by intros [=]. Qed.

Lemma Open_recovers_log_witness : exists segs, wal_ok reopened segs /\ log reopened segs = example_entries.
Proof.
  destruct closed_wal_ok as (segs & Hok & El).
  destruct (left_behind_clean closed_wal segs reliable_no_fault Hok closed_wal_metadata closed_wal_fits) as (ps & Ep & Hl).
  rewrite <- Ep in Hok, El.
  opose proof* (Open_recovers_log closed_wal ps _ (small_config 200) _ reliable_no_fault Hok Hl) as Hs.
  - clear. vm_compute. repeat split; congruence.
  - vm_compute. reflexivity.
  - vm_compute. reflexivity.
  - unfold wp in Hs. rewrite reopened_run in Hs. destruct (_ <=? _); [|discriminate Hs].
    destruct Hs as (w' & Ew & _ & (Hok' & El' & _) & _). apply Ok_inj in Ew as <-. exists ps.*1. split; [exact Hok'|]. rewrite El'. exact El.
Defined.

(** ** The storage *)

Definition storage_on (w : WAL) : WALStorage := mkWALStorage w BackendPosix "" empty_snapshot.

Lemma storage_on_inv w segs : wal_ok w segs -> log w segs = example_entries -> w_snapshot_index_ w = 0 -> w_first_index_ w = 1 ->
  storage_inv (storage_on w) segs.
Proof.
  intros Hok El Ei Ef. constructor; cbn -[log]; rewrite ?Ei, ?Ef; try done; [exact reliable_no_fault|].
  rewrite El. vm_compute. reflexivity.
Qed.

Lemma example_wal_snapshot : w_snapshot_index_ example_wal = 0.
Proof. vm_compute. reflexivity. Qed.

(** The same log in memory. *)
Definition example_memory : MemStorage.MemoryStorage :=
  MemStorage.mkMemoryStorage (mkRaftState empty_hard_state empty_conf_state) example_entries (mkSnapshotMetadata empty_conf_state 0 0) false false None.

Lemma example_memory_inv : MemStorage.mem_inv example_memory.
Proof. constructor; [constructor| |]; cbn; unfold v_last; cbn; unfold is_u64, two64, u64max; repeat split; try lia. Qed.

Lemma wal_storage_writes_witness : exists m' s', MemStorage.Append [example_entry 2 2] example_memory = Ret (Ok tt, m') /\
  both_hold (mkView 0 (Some 0) [example_entry 1 1; example_entry 2 2]) m' s'.
Proof.
  destruct example_wal_ok as (segs & Hok & El & Hid).
  pose proof (storage_on_inv _ _ Hok El example_wal_snapshot example_wal_first) as Hi.
  assert (Ev : storage_view (storage_on example_wal) = mkView 0 (Some 0) example_entries).
  { rewrite (storage_view_is _ _ Hi). cbn [storage_on ws_wal_ ws_snapshot_]. rewrite El, example_wal_first. reflexivity. }
  destruct (wal_storage_writes example_memory _ _ example_memory_inv Hi (eq_sym Ev)) as (Ha & _). specialize (Ha (example_entry 2 2) []).
  rewrite Ev in Ha. opose proof* Ha as Hs.
  - clear. done.
  - clear. repeat constructor; vm_compute; congruence.
  - clear. done.
  - clear -Hid. change (last_id segs + 1 + 1 < 1000000). lia.
  - clear. vm_compute. reflexivity.
  - apply wp_after in Hs as (r & _ & _ & r' & m' & E & _ & _ & Hb & _). exists m'. eexists. split; [|exact Hb].
    vm_compute in E. injection E as <- <-. vm_compute. reflexivity.
Defined.

Lemma closed_wal_snapshot : w_snapshot_index_ closed_wal = 0 /\ w_first_index_ closed_wal = 1 /\ w_snapshot_term_ closed_wal = 0.
Proof. vm_compute. repeat split. Qed.

Lemma closed_wal_size : wc_segment_size (small_config 200) = w_size closed_wal.
Proof. vm_compute. reflexivity. Qed.

Lemma closed_wal_commit segs ps : wal_ok closed_wal segs -> left_behind closed_wal ps (w_disk closed_wal) -> ps.*1 = segs ->
  hs_commit (recovered_hard_state closed_wal segs) <= zlen (log closed_wal segs).
Proof.
  intros Hok Hl <-. opose proof* (wal_Open_spec closed_wal ps _ (small_config 200) _ reliable_no_fault Hok Hl) as Hs;
    [clear; vm_compute; repeat split; congruence|apply closed_wal_size|vm_compute; reflexivity|].
  unfold wp in Hs. rewrite reopened_run in Hs. destruct closed_wal_snapshot as (_ & Ef & _). rewrite Ef in Hs.
  destruct (Z.leb_spec (hs_commit (recovered_hard_state closed_wal ps.*1)) (1 + zlen (log closed_wal ps.*1) - 1)); [lia|discriminate Hs].
Qed.

Lemma wal_storage_reopens_witness : exists s', holds (mkView 0 (Some 0) example_entries) s' /\
  result_of (ws_Open (small_config 200)) (w_disk closed_wal) = Some (Ok s').
Proof.
  destruct closed_wal_ok as (segs & Hok & El). destruct closed_wal_snapshot as (Ei & Ef & Et).
  destruct (left_behind_clean closed_wal segs reliable_no_fault Hok closed_wal_metadata closed_wal_fits) as (ps & Ep & Hl).
  pose proof (closed_wal_commit _ _ Hok Hl Ep) as Hc. rewrite <- Ep in Hok, El, Hc. pose proof (storage_on_inv _ _ Hok El Ei Ef) as Hi.
  opose proof* (wal_storage_reopens (storage_on closed_wal) ps _ (small_config 200) _ Hi Hl) as Hs.
  - clear. vm_compute. repeat split; congruence.
  - apply closed_wal_size.
  - vm_compute. reflexivity.
  - rewrite (storage_last _ _ Hi). destruct (last_index _ _ Hi) as [-> _]. cbn [storage_on ws_wal_]. rewrite Ef. lia.
  - intros Hp. by cbn in Hp.
  - apply wp_after in Hs as (r & _ & Hr & s' & -> & Hv & _). exists s'. split; [|exact Hr].
    rewrite (storage_view_is _ _ Hi) in Hv. cbn [storage_on ws_wal_ ws_snapshot_] in Hv. rewrite Ef, El in Hv. exact Hv.
Defined.

(** ** Runs in which the log loses what it holds *)

(** The same entries, all of them in a segment that is full then. *)
Definition crowded : WAL := after (Append example_entries) (fresh_of 120).
Definition rolled : WAL := after (SaveHardState (mkHardState 1 1 1)) crowded.

Lemma crowded_segment : exists s, mg_segments_ (w_manager crowded) = [(1, s)] /\ sg_first_index_ s = 1 /\ sg_write_offset_ s = 152.
Proof. eexists. split; [vm_compute; reflexivity|]. split; reflexivity. Qed.

Lemma crowded_plain : w_size crowded = 120 /\ w_first_index_ crowded = 1.
Proof. vm_compute. split; reflexivity. Qed.

(** What is left of the log after the save: no entry can be read or
    overwritten, and the log cannot be opened again. *)
Lemma rolled_run : result_of (ReadEntries 1 4 None) crowded = Some (Ok example_entries) /\
  result_of (SaveHardState (mkHardState 1 1 1)) crowded = Some (Ok tt) /\
  Forall (fun i => exists e, result_of (ReadEntries i (i + 1) None) rolled = Some (Err e)) [1; 2; 3] /\
  (exists e, result_of (Append [example_entry 2 2]) rolled = Some (Err e)) /\
  (exists e, result_of (wal_Open (small_config 120)) (w_disk rolled) = Some (Err e)).
Proof. repeat split; repeat constructor; first [eexists; vm_compute; reflexivity|vm_compute; reflexivity]. Qed.

Lemma crowded_wal_ok : exists segs, wal_ok crowded segs /\ log crowded segs = example_entries /\ last_id segs <= 4.
Proof. apply (appended_ok 120). done. Qed.

Lemma rolled_after : after (SaveHardState (mkHardState 1 1 1)) crowded = rolled.
Proof. reflexivity. Qed.

#[local] Opaque crowded rolled.

Lemma crowded_ok : exists a, wal_ok crowded ([] ++ [a]) /\ log crowded ([] ++ [a]) = example_entries /\ as_id a = 1 /\ as_first a = 1 /\ used a [] = 152.
Proof.
  destruct crowded_wal_ok as (segs & Hok & El & _).
  destruct crowded_segment as (s & Es & Ef & Eo). pose proof (gk_segs _ _ (wm_mg _ _ _ (proj1 Hok))) as Hf. rewrite Es in Hf.
  apply Forall2_cons_inv_l in Hf as (a & rest & (Eid & (_ & Efi & _) & n & Hh & _) & Hr & ->). apply Forall2_nil_inv_l in Hr as ->.
  exists a. split; [exact Hok|]. split; [exact El|]. cbn in Eid, Efi. split; [done|]. split; [congruence|].
  rewrite used_nil, <- (sh_offset _ _ _ _ Hh). exact Eo.
Qed.

Lemma hard_state_roll_loses_segment_witness : Forall (fun i => GetSegmentForIndex i (w_manager rolled) = Some 2 /\
  exists ie, ix_Lookup i (w_index_ rolled) = Some ie /\ ie_segment_id ie = 1) [1; 2; 3].
Proof.
  destruct crowded_ok as (a & Hok & El & Eid & Efi & Eu). destruct crowded_plain as [Esz Efx]. destruct rolled_run as (_ & Er & _).
  opose proof* (hard_state_roll_loses_segment crowded [] a (mkHardState 1 1 1) Hok) as Hs.
  - clear. vm_compute. congruence.
  - rewrite Esz, Eu. clear. lia.
  - rewrite Eid. clear. lia.
  - apply (wp_result _ _ _ _ Hs) in Er as [_ Hi]. rewrite rolled_after, log_length, El, Efx, Efi, Eid in Hi.
    repeat constructor; (apply Hi; cbn; lia).
Defined.

(** The hard state and the snapshot index a log is opened with. *)
Definition opened_with (d : Disk) : option (HardState * Z) :=
  match wal_Open (small_config 200) d with Ret (Ok w, _) => Some (w_hard_state_ w, w_snapshot_index_ w) | _ => None end.

Definition snapshot_wal : WAL := after (ApplyLocalSnapshot (snapshot_at 2 1)) (after (SaveHardState (mkHardState 1 1 1)) example_wal).

(** A local snapshot raises the commit index to its index in memory and in
    the metadata, but not in the log, and on opening an older hard state record
    of the same term overrides the metadata: the log comes back with a commit
    index below its snapshot index. *)
Theorem local_snapshot_commit_regresses :
  w_hard_state_ snapshot_wal = mkHardState 1 1 2 /\ w_snapshot_index_ snapshot_wal = 2 /\
  opened_with (w_disk snapshot_wal) = Some (mkHardState 1 1 1, 2).
Proof. repeat split; vm_compute; reflexivity. Qed.
