(* ===== verification/Json.v ===== *)
(** * JSON values

    The key-value example exchanges JSON text through the library
    nlohmann/json, which is not part of the repository.  Its values are a type
    here, its parser and printer are a class, and what the code relies on of
    them is a class of laws, all of them documented by the library: ill-formed
    UTF-8 is neither printed nor read, and what was printed is read back. *)

From S2P Require Import Prelude Types.

(** A call that may throw; an exception is its [what()]. *)
Abbreviation Try A := (string + A)%type.

Definition tbind {A B} (m : Try A) (k : A -> Try B) : Try B :=
  match m with
  | inl what => inl what
  | inr a => k a
  end.
Notation "'let%' x := m 'in' k" := (tbind m (fun x => k))
  (at level 10, x pattern, m at level 100, k at level 200) : monad_scope.

Lemma tbind_inr {A B} (m : Try A) (k : A -> Try B) b : tbind m k = inr b -> exists a, m = inr a /\ k a = inr b.
Proof. destruct m as [|a]; [done|]. by exists a. Qed.

#[local] Set Warnings "-register-all".

(** [nlohmann::json]; a number that is no integer is kept as its bits. *)
Inductive Json :=
| JNull
| JBool (b : bool)
| JNumber (n : Z)
| JFloat (bits : Z)
| JString (s : string)
| JArray (l : list Json)
| JObject (fields : gmap string Json).

(** ** UTF-8 *)

(** The ranges of the bytes that follow a leading byte. *)
Definition utf8_lead (b : N) : option (list (N * N)) :=
  if (b <? 128)%N then Some []
  else if (b <? 194)%N then None
  else if (b <? 224)%N then Some [(128, 191)]%N
  else if (b =? 224)%N then Some [(160, 191); (128, 191)]%N
  else if (b =? 237)%N then Some [(128, 159); (128, 191)]%N
  else if (b <? 240)%N then Some [(128, 191); (128, 191)]%N
  else if (b =? 240)%N then Some [(144, 191); (128, 191); (128, 191)]%N
  else if (b <? 244)%N then Some [(128, 191); (128, 191); (128, 191)]%N
  else if (b =? 244)%N then Some [(128, 143); (128, 191); (128, 191)]%N
  else None.

Fixpoint utf8_after (pending : list (N * N)) (s : string) : bool :=
  match s with
  | EmptyString => bool_decide (pending = [])
  | String c s =>
      let b := N_of_ascii c in
      match pending with
      | (lo, hi) :: pending => (lo <=? b)%N && (b <=? hi)%N && utf8_after pending s
      | [] => match utf8_lead b with Some pending => utf8_after pending s | None => false end
      end
  end.

Definition utf8 (s : string) : bool := utf8_after [] s.

Lemma utf8_after_app pending a b : utf8_after pending a = true -> utf8 b = true -> utf8_after pending (a +:+ b) = true.
Proof.
  intros Ha Hb. revert pending Ha. induction a as [|c a IH]; intros pending Ha.
  - apply bool_decide_eq_true in Ha as ->. exact Hb.
  - change (String c a +:+ b) with (String c (a +:+ b)). cbn [utf8_after] in *. destruct pending as [|[lo hi] pending].
    + destruct (utf8_lead (N_of_ascii c)); [by apply IH|done].
    + apply andb_true_iff in Ha as [Hr Ha]. rewrite Hr. by apply IH.
Qed.

Lemma utf8_app a b : utf8 a = true -> utf8 b = true -> utf8 (a +:+ b) = true.
Proof. apply utf8_after_app. Qed.

(** ** The library *)

(** A value the code prints: an object of text, truth values and counters. *)
Definition plain_value (j : Json) : bool :=
  match j with
  | JString s => utf8 s
  | JBool _ => true
  | JNumber n => (0 <=? n) && (n <? two64)
  | _ => false
  end.

Definition plain_fields (fields : gmap string Json) : Prop :=
  map_Forall (fun k v => utf8 k = true /\ plain_value v = true) fields.

Class JsonLib := {
  json_parse : string -> Try Json;
  json_dump : Json -> Try string;
  (** [dump] with an indentation. *)
  json_dump_indent : Z -> Json -> Try string;
  (** The parser gave up within this input, whatever follows. *)
  json_dead : string -> bool;
  (** The exceptions of [at] and [get]. *)
  at_what : string -> Json -> string;
  get_what : Json -> string
}.

Class JsonLaws `{JsonLib} := {
  dump_plain fields : plain_fields fields -> exists s, json_dump (JObject fields) = inr s;
  parse_dump fields s : plain_fields fields -> json_dump (JObject fields) = inr s -> json_parse s = inr (JObject fields);
  parse_utf8 s fields k v : json_parse s = inr (JObject fields) -> fields !! k = Some (JString v) ->
    utf8 k = true /\ utf8 v = true;
  dead_fails a b : json_dead a = true -> exists what, json_parse (a +:+ b) = inl what
}.

Section Access.
Context {JL : JsonLib}.

(** [j.at(key)], [j.contains(key)], [j.get<std::string>()] and the conversion
    to a map. *)
Definition json_at (key : string) (j : Json) : Try Json :=
  match j with
  | JObject fields => match fields !! key with Some v => inr v | None => inl (at_what key j) end
  | _ => inl (at_what key j)
  end.

Definition json_contains (key : string) (j : Json) : bool :=
  match j with
  | JObject fields => negb (bool_decide (fields !! key = None))
  | _ => false
  end.

Definition json_get_string (j : Json) : Try string :=
  match j with
  | JString s => inr s
  | _ => inl (get_what j)
  end.

Definition is_text (j : Json) : bool := match j with JString _ => true | _ => false end.
Definition text_of (j : Json) : option string := match j with JString s => Some s | _ => None end.

Definition json_get_map (j : Json) : Try (gmap string string) :=
  match j with
  | JObject fields =>
      if bool_decide (map_Forall (fun _ v => is_text v = true) fields) then inr (omap text_of fields)
      else inl (get_what j)
  | _ => inl (get_what j)
  end.

(** [j.value(key, default)] *)
Definition json_value {A} (conv : Json -> option A) (key : string) (default : A) (j : Json) : Try A :=
  match j with
  | JObject fields =>
      match fields !! key with
      | Some v => match conv v with Some a => inr a | None => inl (get_what v) end
      | None => inr default
      end
  | _ => inl (get_what j)
  end.

Definition bool_of (j : Json) : option bool := match j with JBool b => Some b | _ => None end.

Definition at_string (key : string) (j : Json) : Try string :=
  let% v := json_at key j in json_get_string v.
End Access.

(** ** Objects of text *)

Definition text_object (data : gmap string string) : gmap string Json := JString <$> data.

Lemma json_get_map_text {JL : JsonLib} data : json_get_map (JObject (text_object data)) = inr data.
Proof.
  unfold json_get_map, text_object. rewrite bool_decide_true.
  - f_equal. apply map_eq. intros k. rewrite lookup_omap, lookup_fmap. by destruct (data !! k).
  - intros k v Hk. rewrite lookup_fmap in Hk. destruct (data !! k); [|done]. by injection Hk as <-.
Qed.

Definition text_data (data : gmap string string) : Prop := map_Forall (fun k v => utf8 k = true /\ utf8 v = true) data.

Lemma text_object_plain data : text_data data -> plain_fields (text_object data).
Proof.
  intros H k v Hk. unfold text_object in Hk. rewrite lookup_fmap in Hk. destruct (data !! k) as [x|] eqn:E; [|done].
  injection Hk as <-. by apply (H k x).
Qed.

Lemma plain_insert k v fields : utf8 k = true -> plain_value v = true -> plain_fields fields -> plain_fields (<[k := v]> fields).
Proof. intros Hk Hv Hf. by apply map_Forall_insert_2. Qed.

Lemma plain_empty : plain_fields ∅.
Proof. apply map_Forall_empty. Qed.

Create HintDb json.
#[export] Hint Resolve plain_insert plain_empty : json.

(** ** A library that satisfies the laws

    It prints objects of text, truth values and counters in a notation of its
    own and reads nothing else. *)
Module Sample.
Definition scalar_of (j : Json) : option (string + bool + Z) :=
  match j with
  | JString s => Some (inl (inl s))
  | JBool b => Some (inl (inr b))
  | JNumber n => Some (inr n)
  | _ => None
  end.
Definition of_scalar (x : string + bool + Z) : Json :=
  match x with
  | inl (inl s) => JString s
  | inl (inr b) => JBool b
  | inr n => JNumber n
  end.

Fixpoint bits_of (p : positive) : string :=
  match p with
  | xH => ""
  | xO p => String "0" (bits_of p)
  | xI p => String "1" (bits_of p)
  end.
Fixpoint of_bits (s : string) : positive :=
  match s with
  | EmptyString => xH
  | String "0" s => xO (of_bits s)
  | String _ s => xI (of_bits s)
  end.

#[export] Instance plain_fields_dec fields : Decision (plain_fields fields).
Proof. apply map_Forall_dec. intros k v. apply _. Defined.

Definition parse (s : string) : Try Json :=
  match decode (A := gmap string (string + bool + Z)) (of_bits s) with
  | Some m => if decide (plain_fields (of_scalar <$> m)) then inr (JObject (of_scalar <$> m)) else inl "parse error"%string
  | None => inl "parse error"%string
  end.
Definition dump (j : Json) : Try string :=
  match j with
  | JObject fields => if decide (plain_fields fields) then inr (bits_of (encode (omap scalar_of fields))) else inl "type error"%string
  | _ => inl "type error"%string
  end.

#[export] Instance lib : JsonLib := {|
  json_parse := parse;
  json_dump := dump;
  json_dump_indent _ := dump;
  json_dead _ := false;
  at_what _ _ := "key not found"%string;
  get_what _ := "type must be string"%string
|}.

Lemma of_bits_of p : of_bits (bits_of p) = p.
Proof. induction p as [p IH|p IH|]; cbn; by rewrite ?IH. Qed.

Lemma scalars_back fields : plain_fields fields -> of_scalar <$> omap scalar_of fields = fields.
Proof.
  intros H. apply map_eq. intros k. rewrite lookup_fmap, lookup_omap. destruct (fields !! k) as [v|] eqn:E; [|done].
  destruct (H k v E) as [_ Hv]. by destruct v.
Qed.

#[export] Instance laws : JsonLaws.
Proof.
  split; cbn.
  - intros fields H. rewrite decide_True by done. eauto.
  - intros fields s H E. rewrite decide_True in E by done. injection E as <-. unfold parse.
    rewrite of_bits_of, decode_encode, scalars_back by done. by rewrite decide_True.
  - intros s fields k v E Hk. unfold parse in E. destruct (decode _) as [m|]; [|done]. destruct (decide _) as [H|]; [|done].
    injection E as <-. exact (H k _ Hk).
  - done.
Qed.
End Sample.
