(* ===== verification/ProposalTracker.v ===== *)
(** * Pending proposals and reads

    Model of [lib/raftor/proposal_tracker.cc]: the callbacks of proposals and
    linearizable reads that wait for their result, and the queues through which
    other threads submit them.  A callback is a number; calling it is an entry
    of [pt_called_].  Callbacks run outside the lock, so a callback that calls
    the tracker again is a later call here. *)

From S2P Require Import Prelude Types.

(** The order in which an unordered map is visited. *)
Class MapOrder := {
  visit {A} : gmap string A -> list (string * A);
  visit_perm {A} (m : gmap string A) : visit m ≡ₚ map_to_list m
}.

(** [ProposalCallback] and [ReadIndexCallback]; an empty function is [None]. *)
Definition Callback := option nat.

(** The argument of a callback: the response of the state machine, nothing for
    a read, or an error. *)
Inductive Reply :=
| Response (r : string)
| ReadDone
| Failed (e : RaftError).

(** [PendingProposal] and [PendingRead]; no deadline is [time_point::max()]. *)
Record Pending := mkPending {
  p_callback : Callback;
  p_deadline : option Z
}.

Record ProposalTracker := mkProposalTracker {
  pt_proposals_ : gmap string Pending;
  pt_reads_ : gmap string Pending;
  pt_called_ : list (nat * Reply)
}.
#[export] Instance ProposalTracker_eta : Eta ProposalTracker := fun t =>
  mkProposalTracker (pt_proposals_ t) (pt_reads_ t) (pt_called_ t).

Definition new_tracker : ProposalTracker := mkProposalTracker ∅ ∅ [].

(** [DeadlineFromTimeout] at the time [now]. *)
Definition DeadlineFromTimeout (now timeout : Z) : option Z :=
  if timeout <=? 0 then None else Some (now + timeout).

(** [if (callback) callback(reply)] *)
Definition invoke (callback : Callback) (reply : Reply) : M ProposalTracker unit :=
  match callback with
  | Some c => modify (fun t => t <| pt_called_ := pt_called_ t ++ [(c, reply)] |>)
  | None => ret tt
  end.

Definition Track (now : Z) (ctx : string) (callback : Callback) (timeout : Z) : M ProposalTracker unit :=
  modify (fun t => t <| pt_proposals_ := <[ctx := mkPending callback (DeadlineFromTimeout now timeout)]> (pt_proposals_ t) |>).

(** [Complete] and [Fail] *)
Definition finish (ctx : string) (reply : Reply) : M ProposalTracker unit :=
  let! t := get in
  match pt_proposals_ t !! ctx with
  | None => ret tt
  | Some p =>
      set! pt_proposals_ := delete ctx (pt_proposals_ t) ;;;
      invoke (p_callback p) reply
  end.

Definition Complete (ctx response : string) : M ProposalTracker unit := finish ctx (Response response).
Definition Fail (ctx : string) (error : RaftError) : M ProposalTracker unit := finish ctx (Failed error).

Definition TrackRead (now : Z) (ctx : string) (callback : Callback) (timeout : Z) : M ProposalTracker unit :=
  let! t := get in
  assert (bool_decide (pt_reads_ t !! ctx = None)) "read index context {} is already pending" ;;;
  set! pt_reads_ := <[ctx := mkPending callback (DeadlineFromTimeout now timeout)]> (pt_reads_ t).

(** [CompleteRead] and [FailRead] *)
Definition finish_read (ctx : string) (reply : Reply) : M ProposalTracker unit :=
  let! t := get in
  match pt_reads_ t !! ctx with
  | None => ret tt
  | Some p =>
      set! pt_reads_ := delete ctx (pt_reads_ t) ;;;
      invoke (p_callback p) reply
  end.

Definition CompleteRead (ctx : string) : M ProposalTracker unit := finish_read ctx ReadDone.
Definition FailRead (ctx : string) (error : RaftError) : M ProposalTracker unit := finish_read ctx (Failed error).

Definition PendingCount (t : ProposalTracker) : Z := Z.of_nat (size (pt_proposals_ t)).
Definition PendingReadCount (t : ProposalTracker) : Z := Z.of_nat (size (pt_reads_ t)).
Definition IsReadPending (ctx : string) (t : ProposalTracker) : bool := negb (bool_decide (pt_reads_ t !! ctx = None)).

Section ProposalTracker.
Context {MO : MapOrder}.

(** [FailAllPending] *)
Definition call_all (pending : list (string * Pending)) (reply : Reply) : M ProposalTracker unit :=
  foreach pending (fun p => invoke (p_callback p.2) reply).

Definition FailAll (error : RaftError) : M ProposalTracker unit :=
  let! t := get in
  set! pt_proposals_ := ∅ ;;;
  call_all (visit (pt_proposals_ t)) (Failed error).

Definition FailAllReads (error : RaftError) : M ProposalTracker unit :=
  let! t := get in
  set! pt_reads_ := ∅ ;;;
  call_all (visit (pt_reads_ t)) (Failed error).

Definition expired (now : Z) (p : Pending) : bool :=
  match p_deadline p with Some d => d <=? now | None => false end.

Definition ExpireTimeouts (now : Z) : M ProposalTracker unit :=
  let! t := get in
  let late m := filter (fun p : string * Pending => expired now p.2 = true) (visit m) in
  let left m := filter (fun p : string * Pending => expired now p.2 = false) m in
  set! pt_proposals_ := left (pt_proposals_ t) ;;;
  set! pt_reads_ := left (pt_reads_ t) ;;;
  call_all (late (pt_proposals_ t)) (Failed (ERpc Timeout)) ;;;
  call_all (late (pt_reads_ t)) (Failed (ERpc Timeout)).
End ProposalTracker.

(** ** Queues

    [ProposalQueue] and [ReadIndexQueue]: first in, first out. *)

Record QueueItem := mkQueueItem {
  qi_data : string;
  qi_callback : Callback;
  qi_timeout : option Z
}.

Definition Push (data : string) (callback : Callback) (timeout : option Z) : M (list QueueItem) unit :=
  modify (fun q => q ++ [mkQueueItem data callback timeout]).

Definition TryPop : M (list QueueItem) (option QueueItem) := fun q =>
  match q with
  | [] => Ret (None, [])
  | item :: q => Ret (Some item, q)
  end.

Definition Empty (q : list QueueItem) : bool := bool_decide (q = []).
Definition Size (q : list QueueItem) : Z := zlen q.

(** ** Every callback is answered once

    A run of the tracker is a sequence of calls of its methods. *)

Inductive TrackerOp :=
| OpTrack (now : Z) (ctx : string) (callback : Callback) (timeout : Z)
| OpComplete (ctx response : string)
| OpFail (ctx : string) (error : RaftError)
| OpFailAll (error : RaftError)
| OpTrackRead (now : Z) (ctx : string) (callback : Callback) (timeout : Z)
| OpCompleteRead (ctx : string)
| OpFailRead (ctx : string) (error : RaftError)
| OpFailAllReads (error : RaftError)
| OpExpire (now : Z).

Section Answers.
Context {MO : MapOrder}.
Implicit Types t : ProposalTracker.

Definition tracker_step (op : TrackerOp) : M ProposalTracker unit :=
  match op with
  | OpTrack now ctx callback timeout => Track now ctx callback timeout
  | OpComplete ctx response => Complete ctx response
  | OpFail ctx error => Fail ctx error
  | OpFailAll error => FailAll error
  | OpTrackRead now ctx callback timeout => TrackRead now ctx callback timeout
  | OpCompleteRead ctx => CompleteRead ctx
  | OpFailRead ctx error => FailRead ctx error
  | OpFailAllReads error => FailAllReads error
  | OpExpire now => ExpireTimeouts now
  end.

(** The callbacks handed to the tracker. *)
Definition tracked (op : TrackerOp) : list nat :=
  match op with
  | OpTrack _ _ (Some c) _ | OpTrackRead _ _ (Some c) _ => [c]
  | _ => []
  end.

(** A context names one request: it is not tracked while it is pending. *)
Definition fresh (op : TrackerOp) t : Prop :=
  match op with
  | OpTrack _ ctx _ _ => pt_proposals_ t !! ctx = None
  | OpTrackRead _ ctx _ _ => pt_reads_ t !! ctx = None
  | _ => True
  end.

(** A run with fresh contexts. *)
Fixpoint tracker_runs (ops : list TrackerOp) t t' : Prop :=
  match ops with
  | [] => t' = t
  | op :: ops => fresh op t /\ exists t1, tracker_step op t = Ret (tt, t1) /\ tracker_runs ops t1 t'
  end.

Definition callbacks (l : list (string * Pending)) : list nat := omap (fun p => p_callback p.2) l.

Definition waiting t : list nat :=
  callbacks (map_to_list (pt_proposals_ t)) ++ callbacks (map_to_list (pt_reads_ t)).

Definition called t : list nat := fst <$> pt_called_ t.

(** The callbacks that wait or were called. *)
Definition ledger t : list nat := waiting t ++ called t.

Lemma callbacks_perm l l' : l ≡ₚ l' -> callbacks l ≡ₚ callbacks l'.
Proof. apply omap_Permutation. Qed.

Lemma callbacks_app l l' : callbacks (l ++ l') = callbacks l ++ callbacks l'.
Proof. apply omap_app. Qed.

Lemma call_all_run l reply t : exists t', call_all l reply t = Ret (tt, t') /\
  pt_proposals_ t' = pt_proposals_ t /\ pt_reads_ t' = pt_reads_ t /\ called t' = called t ++ callbacks l.
Proof.
  revert t. induction l as [|[ctx p] l IH]; intros t; unfold call_all; cbn [foreach].
  - exists t. cbn. by rewrite app_nil_r.
  - unfold invoke at 1. cbn [snd]. destruct (p_callback p) as [c|] eqn:Ec.
    + rewrite bind_modify. destruct (IH (t <| pt_called_ := pt_called_ t ++ [(c, reply)] |>)) as (t' & E & H1 & H2 & H3).
      exists t'. split; [exact E|]. split; [done|]. split; [done|]. rewrite H3. unfold called, callbacks. cbn. rewrite Ec.
      by rewrite fmap_app, <- app_assoc.
    + rewrite bind_ret. destruct (IH t) as (t' & E & H1 & H2 & H3). exists t'. split; [exact E|]. split; [done|]. split; [done|].
      rewrite H3. unfold callbacks. cbn. by rewrite Ec.
Qed.

Lemma invoke_run callback reply t : exists t', invoke callback reply t = Ret (tt, t') /\
  pt_proposals_ t' = pt_proposals_ t /\ pt_reads_ t' = pt_reads_ t /\
  called t' = called t ++ match callback with Some c => [c] | None => [] end.
Proof.
  unfold invoke. destruct callback as [c|]; eexists; (split; [reflexivity|]); (split; [done|]); (split; [done|]).
  - unfold called. cbn. by rewrite fmap_app.
  - by rewrite app_nil_r.
Qed.

Lemma callbacks_cons ctx p l : callbacks ((ctx, p) :: l) = match p_callback p with Some c => [c] | None => [] end ++ callbacks l.
Proof. unfold callbacks. cbn. by destruct (p_callback p). Qed.

(** The callbacks of a map with an element more or less. *)
Lemma callbacks_delete (m : gmap string Pending) ctx p : m !! ctx = Some p ->
  callbacks (map_to_list m) ≡ₚ match p_callback p with Some c => [c] | None => [] end ++ callbacks (map_to_list (delete ctx m)).
Proof.
  intros E. rewrite <- callbacks_cons with (ctx := ctx). apply callbacks_perm. symmetry. by apply map_to_list_delete.
Qed.

Lemma callbacks_insert (m : gmap string Pending) ctx p : m !! ctx = None ->
  callbacks (map_to_list (<[ctx := p]> m)) ≡ₚ match p_callback p with Some c => [c] | None => [] end ++ callbacks (map_to_list m).
Proof. intros E. rewrite <- callbacks_cons with (ctx := ctx). apply callbacks_perm. by apply map_to_list_insert. Qed.

Lemma callbacks_visit (m : gmap string Pending) : callbacks (visit m) ≡ₚ callbacks (map_to_list m).
Proof. apply callbacks_perm, visit_perm. Qed.

Lemma map_to_list_filter_perm (Q : string * Pending -> Prop) `{!forall x, Decision (Q x)} (m : gmap string Pending) :
  map_to_list (filter Q m) ≡ₚ filter Q (map_to_list m).
Proof.
  apply NoDup_Permutation; [apply NoDup_map_to_list|apply NoDup_filter, NoDup_map_to_list|]. intros [k p].
  rewrite list_elem_of_filter, !elem_of_map_to_list, map_lookup_filter_Some. tauto.
Qed.

Lemma filter_split_perm {A} (b : A -> bool) (l : list A) :
  l ≡ₚ filter (fun x => b x = true) l ++ filter (fun x => b x = false) l.
Proof.
  induction l as [|x l IH]; [done|]. rewrite !filter_cons. destruct (b x) eqn:E.
  - rewrite decide_True, decide_False by congruence. cbn. by rewrite <- IH.
  - rewrite decide_False, decide_True by congruence. rewrite <- Permutation_middle. by rewrite <- IH.
Qed.

Lemma callbacks_expire now (m : gmap string Pending) :
  callbacks (map_to_list m) ≡ₚ
  callbacks (filter (fun p => expired now p.2 = true) (visit m)) ++
  callbacks (map_to_list (filter (fun p => expired now p.2 = false) m)).
Proof.
  rewrite <- callbacks_app. apply callbacks_perm. rewrite map_to_list_filter_perm.
  rewrite (filter_split_perm (fun p => expired now p.2) (map_to_list m)) at 1. by rewrite visit_perm.
Qed.

Lemma finish_run ctx reply t : exists t', finish ctx reply t = Ret (tt, t') /\ ledger t' ≡ₚ ledger t.
Proof.
  unfold finish. rewrite bind_get. destruct (pt_proposals_ t !! ctx) as [p|] eqn:E; [|by exists t]. rewrite bind_modify.
  destruct (invoke_run (p_callback p) reply (t <| pt_proposals_ := delete ctx (pt_proposals_ t) |>)) as (t' & E' & H1 & H2 & H3).
  exists t'. split; [exact E'|]. unfold ledger, waiting. rewrite H1, H2, H3. cbn. rewrite (callbacks_delete _ _ _ E).
  change (called (t <| pt_proposals_ := _ |>)) with (called t). solve_Permutation.
Qed.

Lemma finish_read_run ctx reply t : exists t', finish_read ctx reply t = Ret (tt, t') /\ ledger t' ≡ₚ ledger t.
Proof.
  unfold finish_read. rewrite bind_get. destruct (pt_reads_ t !! ctx) as [p|] eqn:E; [|by exists t]. rewrite bind_modify.
  destruct (invoke_run (p_callback p) reply (t <| pt_reads_ := delete ctx (pt_reads_ t) |>)) as (t' & E' & H1 & H2 & H3).
  exists t'. split; [exact E'|]. unfold ledger, waiting. rewrite H1, H2, H3. cbn. rewrite (callbacks_delete _ _ _ E).
  change (called (t <| pt_reads_ := _ |>)) with (called t). solve_Permutation.
Qed.

Lemma FailAll_run error t : exists t', FailAll error t = Ret (tt, t') /\ ledger t' ≡ₚ ledger t /\
  pt_proposals_ t' = ∅ /\ pt_reads_ t' = pt_reads_ t.
Proof.
  unfold FailAll. rewrite bind_get, bind_modify.
  destruct (call_all_run (visit (pt_proposals_ t)) (Failed error) (t <| pt_proposals_ := ∅ |>)) as (t' & E & H1 & H2 & H3).
  exists t'. split; [exact E|]. split; [|done]. unfold ledger, waiting. rewrite H1, H2, H3. cbn. rewrite callbacks_visit.
  change (called (t <| pt_proposals_ := _ |>)) with (called t). rewrite map_to_list_empty. cbn. solve_Permutation.
Qed.

Lemma FailAllReads_run error t : exists t', FailAllReads error t = Ret (tt, t') /\ ledger t' ≡ₚ ledger t /\
  pt_proposals_ t' = pt_proposals_ t /\ pt_reads_ t' = ∅.
Proof.
  unfold FailAllReads. rewrite bind_get, bind_modify.
  destruct (call_all_run (visit (pt_reads_ t)) (Failed error) (t <| pt_reads_ := ∅ |>)) as (t' & E & H1 & H2 & H3).
  exists t'. split; [exact E|]. split; [|done]. unfold ledger, waiting. rewrite H1, H2, H3. cbn. rewrite callbacks_visit.
  change (called (t <| pt_reads_ := _ |>)) with (called t). rewrite map_to_list_empty. cbn. solve_Permutation.
Qed.

Lemma ExpireTimeouts_run now t : exists t', ExpireTimeouts now t = Ret (tt, t') /\ ledger t' ≡ₚ ledger t /\
  pt_proposals_ t' = filter (fun p => expired now p.2 = false) (pt_proposals_ t) /\
  pt_reads_ t' = filter (fun p => expired now p.2 = false) (pt_reads_ t).
Proof.
  unfold ExpireTimeouts. rewrite bind_get. cbv zeta. rewrite !bind_modify.
  match goal with |- context [bind (call_all ?l ?r) _ ?s] => destruct (call_all_run l r s) as (t1 & E1 & H1 & H2 & H3) end.
  rewrite (bind_run _ _ _ _ _ E1).
  match goal with |- context [call_all ?l ?r ?s] => destruct (call_all_run l r s) as (t2 & E2 & K1 & K2 & K3) end.
  exists t2. split; [exact E2|]. rewrite K1, K2, H1, H2. split; [|done]. unfold ledger, waiting. rewrite K1, K2, K3, H1, H2, H3. cbn.
  rewrite (callbacks_expire now (pt_proposals_ t)), (callbacks_expire now (pt_reads_ t)).
  change (called (_ <| pt_reads_ := _ |>)) with (called t). solve_Permutation.
Qed.

Lemma step_ledger op t t' : fresh op t -> tracker_step op t = Ret (tt, t') -> ledger t' ≡ₚ tracked op ++ ledger t.
Proof.
  intros Hf E. destruct op; cbn [fresh tracked tracker_step app] in *.
  - injection E as <-. unfold ledger, waiting. cbn. rewrite callbacks_insert by done. cbn.
    change (called (t <| pt_proposals_ := _ |>)) with (called t). destruct callback; cbn; solve_Permutation.
  - destruct (finish_run ctx (Response response) t) as (t1 & E1 & H). unfold Complete in E. rewrite E in E1. by injection E1 as <-.
  - destruct (finish_run ctx (Failed error) t) as (t1 & E1 & H). unfold Fail in E. rewrite E in E1. by injection E1 as <-.
  - destruct (FailAll_run error t) as (t1 & E1 & H & _). rewrite E in E1. by injection E1 as <-.
  - unfold TrackRead in E. rewrite bind_get in E. apply bind_Ret in E as (? & t1 & E1 & E).
    apply assert_Ret in E1 as [_ [= -> ->]]. injection E as <-. unfold ledger, waiting. cbn. rewrite callbacks_insert by done. cbn.
    change (called (t <| pt_reads_ := _ |>)) with (called t). destruct callback; cbn; solve_Permutation.
  - destruct (finish_read_run ctx ReadDone t) as (t1 & E1 & H). unfold CompleteRead in E. rewrite E in E1. by injection E1 as <-.
  - destruct (finish_read_run ctx (Failed error) t) as (t1 & E1 & H). unfold FailRead in E. rewrite E in E1. by injection E1 as <-.
  - destruct (FailAllReads_run error t) as (t1 & E1 & H & _). rewrite E in E1. by injection E1 as <-.
  - destruct (ExpireTimeouts_run now t) as (t1 & E1 & H & _). rewrite E in E1. by injection E1 as <-.
Qed.

(** A step with a fresh context returns. *)
Lemma step_returns op t : fresh op t -> exists t', tracker_step op t = Ret (tt, t').
Proof.
  intros Hf. destruct op; cbn [fresh tracker_step] in *.
  - by eexists.
  - destruct (finish_run ctx (Response response) t) as (t1 & E1 & _). by exists t1.
  - destruct (finish_run ctx (Failed error) t) as (t1 & E1 & _). by exists t1.
  - destruct (FailAll_run error t) as (t1 & E1 & _). by exists t1.
  - unfold TrackRead. rewrite bind_get, Hf. by eexists.
  - destruct (finish_read_run ctx ReadDone t) as (t1 & E1 & _). by exists t1.
  - destruct (finish_read_run ctx (Failed error) t) as (t1 & E1 & _). by exists t1.
  - destruct (FailAllReads_run error t) as (t1 & E1 & _). by exists t1.
  - destruct (ExpireTimeouts_run now t) as (t1 & E1 & _). by exists t1.
Qed.

Lemma runs_ledger ops t t' : tracker_runs ops t t' -> ledger t' ≡ₚ flat_map tracked ops ++ ledger t.
Proof.
  revert t. induction ops as [|op ops IH]; intros t; cbn; [by intros ->|]. intros (Hf & t1 & E & Hr).
  rewrite (IH _ Hr), (step_ledger _ _ _ Hf E). solve_Permutation.
Qed.

(** C26: No request is forgotten and none is answered twice: along every run of
    the tracker whose contexts are fresh, the callbacks that were handed in are
    exactly those that still wait and those that were called, each as often as
    it was handed in; and the shutdown, [FailAll] and [FailAllReads], returns
    from there and answers every callback that waits. *)
Theorem every_callback_answered_once ops t error : tracker_runs ops new_tracker t ->
  waiting t ++ called t ≡ₚ flat_map tracked ops /\
  exists t1 t2, FailAll error t = Ret (tt, t1) /\ FailAllReads error t1 = Ret (tt, t2) /\
    PendingCount t2 = 0 /\ PendingReadCount t2 = 0 /\ called t2 ≡ₚ flat_map tracked ops.
Proof.
  intros Hr. assert (Hl : ledger t ≡ₚ flat_map tracked ops).
  { rewrite (runs_ledger _ _ _ Hr). unfold ledger, waiting, called. cbn. rewrite map_to_list_empty. cbn. by rewrite app_nil_r. }
  split; [exact Hl|]. destruct (FailAll_run error t) as (t1 & E1 & L1 & P1 & R1).
  destruct (FailAllReads_run error t1) as (t2 & E2 & L2 & P2 & R2). exists t1, t2. split; [done|]. split; [done|].
  unfold PendingCount, PendingReadCount. rewrite P2, P1, R2. split; [done|]. split; [done|].
  rewrite <- Hl, <- L1, <- L2. unfold ledger, waiting. rewrite P2, P1, R2, map_to_list_empty. done.
Qed.
End Answers.

(** ** Witness *)

#[export] Instance list_order : MapOrder := {| visit A m := map_to_list m; visit_perm A m := reflexivity _ |}.

Definition example_ops : list TrackerOp :=
  [ OpTrack 0 "1:0" (Some 7%nat) 5000; OpTrackRead 0 "1:1" (Some 8%nat) 10; OpTrack 0 "1:2" (Some 9%nat) 0;
    OpComplete "1:0" "OK"; OpComplete "1:0" "again"; OpExpire 100 ].

Definition example_tracker_end : ProposalTracker :=
  mkProposalTracker {[ "1:2" := mkPending (Some 9%nat) None ]} ∅ [(7%nat, Response "OK"); (8%nat, Failed (ERpc Timeout))].

Lemma every_callback_answered_once_witness :
  tracker_runs example_ops new_tracker example_tracker_end /\
  waiting example_tracker_end ++ called example_tracker_end ≡ₚ [7; 8; 9]%nat /\
  exists t1 t2, FailAll (ERaft ShuttingDown) example_tracker_end = Ret (tt, t1) /\
    FailAllReads (ERaft ShuttingDown) t1 = Ret (tt, t2) /\ called t2 ≡ₚ [7; 8; 9]%nat.
Proof.
  assert (Hr : tracker_runs example_ops new_tracker example_tracker_end).
  { do 6 (split; [first [exact I | vm_compute; reflexivity]|eexists; split; [vm_compute; reflexivity|]]). vm_compute. reflexivity. }
  split; [exact Hr|].
  destruct (every_callback_answered_once example_ops example_tracker_end (ERaft ShuttingDown) Hr) as (H & t1 & t2 & E1 & E2 & _ & _ & Hc).
  split; [exact H|]. exists t1, t2. split; [exact E1|]. split; [exact E2|exact Hc].
Defined.
