(* ===== verification/StateMachine.v ===== *)
(** * State machines

    The interface of [include/raftpp/raftor/state_machine.h] that applications
    implement, the streams that carry a snapshot, and the state machine of
    [lib/raftor/mock_state_machine.cc].  A state machine is a class of
    operations on a state [T]; nothing is assumed of them. *)

From S2P Require Import Prelude Types Util.

(** ** Streams *)

(** [SnapshotDataReader]: the data of a snapshot and how much was read. *)
Record SnapshotDataReader := mkSnapshotDataReader {
  sr_data_ : string;
  sr_offset_ : Z
}.
#[export] Instance SnapshotDataReader_eta : Eta SnapshotDataReader := fun r =>
  mkSnapshotDataReader (sr_data_ r) (sr_offset_ r).

Definition new_reader (data : string) : SnapshotDataReader := mkSnapshotDataReader data 0.

(** [Read] into a buffer of [size] bytes; the empty string is the end. *)
Definition Read (size : Z) : M SnapshotDataReader (Result string) :=
  let! r := get in
  if (slen (sr_data_ r) <=? sr_offset_ r) || (size =? 0) then rok ""%string
  else
    let remaining := slen (sr_data_ r) -! sr_offset_ r in
    let bytes_to_copy := Z.min size remaining in
    set! sr_offset_ := (sr_offset_ r +! bytes_to_copy) ;;;
    rok (String.substring (Z.to_nat (sr_offset_ r)) (Z.to_nat bytes_to_copy) (sr_data_ r)).

(** [SnapshotWriter]: an object with state [W] and its [Write]. *)
Class SnapshotWriter (W : Type) := Write : string -> M W (Result unit).

Class StateMachine (T : Type) := {
  (** The response of the result, if there is one. *)
  sm_Apply : Entry -> M T (Result (option string));
  sm_TakeSnapshot : Z -> Z -> ConfState -> forall {W} `{SnapshotWriter W}, M (T * W) (Result SnapshotMetadata);
  sm_RestoreSnapshot : SnapshotMetadata -> M (T * SnapshotDataReader) (Result unit);
  sm_OnLeadershipChange : bool -> Z -> Z -> M T unit;
  sm_OnPeerUnreachable : Z -> M T unit
}.

(** ** The mock *)

Record MockStateMachine := mkMock {
  mk_apply_count_ : Z;
  mk_snapshot_count_ : Z;
  mk_restore_count_ : Z;
  mk_leadership_change_count_ : Z;
  mk_apply_success_count_ : Z;
  mk_apply_failure_count_ : Z;
  mk_snapshot_success_count_ : Z;
  mk_snapshot_failure_count_ : Z;
  mk_restore_success_count_ : Z;
  mk_restore_failure_count_ : Z;
  mk_is_leader_ : bool;
  mk_current_term_ : Z;
  mk_current_leader_ : Z;
  mk_last_snapshot_index_ : Z;
  mk_last_snapshot_term_ : Z;
  mk_last_restored_index_ : Z;
  mk_last_restored_term_ : Z;
  mk_should_fail_apply_ : bool;
  mk_should_fail_snapshot_ : bool;
  mk_should_fail_restore_ : bool;
  mk_applied_entries_ : list string;
  mk_unreachable_peers_ : list Z;
  mk_snapshot_payload_ : string;
  mk_last_restored_data_ : string
}.
#[export] Instance MockStateMachine_eta : Eta MockStateMachine := fun m =>
  mkMock (mk_apply_count_ m) (mk_snapshot_count_ m) (mk_restore_count_ m) (mk_leadership_change_count_ m)
    (mk_apply_success_count_ m) (mk_apply_failure_count_ m) (mk_snapshot_success_count_ m)
    (mk_snapshot_failure_count_ m) (mk_restore_success_count_ m) (mk_restore_failure_count_ m)
    (mk_is_leader_ m) (mk_current_term_ m) (mk_current_leader_ m) (mk_last_snapshot_index_ m)
    (mk_last_snapshot_term_ m) (mk_last_restored_index_ m) (mk_last_restored_term_ m)
    (mk_should_fail_apply_ m) (mk_should_fail_snapshot_ m) (mk_should_fail_restore_ m)
    (mk_applied_entries_ m) (mk_unreachable_peers_ m) (mk_snapshot_payload_ m) (mk_last_restored_data_ m).

Definition new_mock : MockStateMachine :=
  mkMock 0 0 0 0 0 0 0 0 0 0 false 0 0 0 0 0 0 false false false [] [] "snap" "".

(** [++counter] *)
Notation "'incr!' p" := (modify (upd p (fun n => n +! 1)))
  (at level 10, p at level 0) : monad_scope.

Definition mock_Apply (entry : Entry) : M MockStateMachine (Result (option string)) :=
  incr! mk_apply_count_ ;;;
  let! m := get in
  if mk_should_fail_apply_ m then
    incr! mk_apply_failure_count_ ;;;
    rfail (ERaft ProposalDropped)
  else
    set! mk_applied_entries_ := (mk_applied_entries_ m ++ [e_data entry]) ;;;
    incr! mk_apply_success_count_ ;;;
    rok (Some ("OK:" +:+ e_data entry)).

(** A method of the first or second component of a pair of objects. *)
Definition on_fst {A B X} (m : M A X) : M (A * B) X := zoom fst (fun a p => (a, p.2)) m.
Definition on_snd {A B X} (m : M B X) : M (A * B) X := zoom snd (fun b p => (p.1, b)) m.

Definition mock_TakeSnapshot (applied_index applied_term : Z) (conf_state : ConfState) {W} `{SnapshotWriter W} :
    M (MockStateMachine * W) (Result SnapshotMetadata) :=
  on_fst (incr! mk_snapshot_count_) ;;;
  let! (m, _) := get in
  if mk_should_fail_snapshot_ m then
    on_fst (incr! mk_snapshot_failure_count_) ;;;
    rfail (EStorage SnapshotTemporarilyUnavailable)
  else
    let! write_result := on_snd (Write (mk_snapshot_payload_ m)) in
    match write_result with
    | Err e => on_fst (incr! mk_snapshot_failure_count_) ;;; rfail e
    | Ok _ =>
        on_fst (set! mk_last_snapshot_index_ := applied_index) ;;;
        on_fst (set! mk_last_snapshot_term_ := applied_term) ;;;
        on_fst (incr! mk_snapshot_success_count_) ;;;
        rok (mkSnapshotMetadata conf_state applied_index applied_term)
    end.

(** One round of the [while (true)] of [RestoreSnapshot]: whether it goes on. *)
Definition restore_round : M (MockStateMachine * SnapshotDataReader) (Result bool) :=
  let! read_result := on_snd (Read 4096) in
  match read_result with
  | Err e => on_fst (incr! mk_restore_failure_count_) ;;; rfail e
  | Ok bytes =>
      if slen bytes =? 0 then rok false
      else
        on_fst (modify (fun m => m <| mk_last_restored_data_ := mk_last_restored_data_ m +:+ bytes |>)) ;;;
        rok true
  end.

Fixpoint restore_loop (fuel : nat) : M (MockStateMachine * SnapshotDataReader) (Result unit) :=
  match fuel with
  | O => abort NoFuel
  | S fuel' =>
      try! more := restore_round in
      if more : bool then restore_loop fuel' else rok tt
  end.

Definition mock_RestoreSnapshot (metadata : SnapshotMetadata) :
    M (MockStateMachine * SnapshotDataReader) (Result unit) :=
  on_fst (incr! mk_restore_count_) ;;;
  let! (m, reader) := get in
  if mk_should_fail_restore_ m then
    on_fst (incr! mk_restore_failure_count_) ;;;
    rfail (EStorage Unavailable)
  else
    on_fst (set! mk_last_restored_index_ := sm_index metadata) ;;;
    on_fst (set! mk_last_restored_term_ := sm_term metadata) ;;;
    on_fst (set! mk_last_restored_data_ := ""%string) ;;;
    try! _ := restore_loop (S (S (String.length (sr_data_ reader)))) in
    on_fst (incr! mk_restore_success_count_) ;;;
    rok tt.

Definition mock_OnLeadershipChange (is_leader : bool) (term leader_id : Z) : M MockStateMachine unit :=
  set! mk_is_leader_ := is_leader ;;;
  set! mk_current_term_ := term ;;;
  set! mk_current_leader_ := leader_id ;;;
  incr! mk_leadership_change_count_.

Definition mock_OnPeerUnreachable (peer_id : Z) : M MockStateMachine unit :=
  modify (fun m => m <| mk_unreachable_peers_ := mk_unreachable_peers_ m ++ [peer_id] |>).

Definition SetShouldFailApply (fail : bool) : M MockStateMachine unit := set! mk_should_fail_apply_ := fail.
Definition SetShouldFailSnapshot (fail : bool) : M MockStateMachine unit := set! mk_should_fail_snapshot_ := fail.
Definition SetShouldFailRestore (fail : bool) : M MockStateMachine unit := set! mk_should_fail_restore_ := fail.
Definition SetSnapshotData (data : string) : M MockStateMachine unit := set! mk_snapshot_payload_ := data.

(** [Reset] keeps the failure configuration and the snapshot payload. *)
Definition Reset : M MockStateMachine unit :=
  modify (fun m => new_mock
    <| mk_should_fail_apply_ := mk_should_fail_apply_ m |>
    <| mk_should_fail_snapshot_ := mk_should_fail_snapshot_ m |>
    <| mk_should_fail_restore_ := mk_should_fail_restore_ m |>
    <| mk_snapshot_payload_ := mk_snapshot_payload_ m |>).

#[export] Instance mock_state_machine : StateMachine MockStateMachine := {|
  sm_Apply := mock_Apply;
  sm_TakeSnapshot := @mock_TakeSnapshot;
  sm_RestoreSnapshot := mock_RestoreSnapshot;
  sm_OnLeadershipChange := mock_OnLeadershipChange;
  sm_OnPeerUnreachable := mock_OnPeerUnreachable
|}.

(** ** The snapshot arrives *)

Lemma substring_split (s : string) i n : (i + n <= String.length s)%nat ->
  exists a b c, s = a +:+ b +:+ c /\ String.length a = i /\ String.length b = n /\ String.substring i n s = b.
Proof.
  revert i n. induction s as [|x s IH]; intros i n Hl; cbn in *.
  - assert (i = 0%nat) as -> by lia. assert (n = 0%nat) as -> by lia. by exists "", "", "".
  - destruct i as [|i]; [destruct n as [|n]|].
    + by exists "", "", (String x s).
    + destruct (IH 0%nat n ltac:(lia)) as (a & b & c & E & Ea & Eb & Es). destruct a; [|done]. cbn in E.
      exists "", (String x b), c. cbn. rewrite Es, Eb. split; [by rewrite E at 1|done].
    + destruct (IH i n ltac:(lia)) as (a & b & c & E & Ea & Eb & Es).
      exists (String x a), b, c. cbn. rewrite Es, Ea. split; [by rewrite E at 1|done].
Qed.

Lemma string_app_assoc (a b c : string) : (a +:+ b) +:+ c = a +:+ b +:+ c.
Proof. induction a as [|x a IH]; [done|]. exact (f_equal (String x) IH). Qed.

Lemma string_app_nil (a : string) : a +:+ "" = a.
Proof. induction a as [|x a IH]; [done|]. exact (f_equal (String x) IH). Qed.

(** One read after the prefix [a] of the data [a +:+ rest]. *)
Lemma Read_chunk a rest size : slen (a +:+ rest) < two64 -> 0 < size < two64 ->
  exists b c, rest = b +:+ c /\ slen b = Z.min size (slen rest) /\
    Read size (mkSnapshotDataReader (a +:+ rest) (slen a)) = Ret (Ok b, mkSnapshotDataReader (a +:+ rest) (slen (a +:+ b))).
Proof.
  intros Hl Hs. unfold Read, slen in *. rewrite !string_app_length in *. rewrite bind_get. cbn [sr_data_ sr_offset_].
  rewrite (proj2 (Z.eqb_neq size 0)), string_app_length by lia. destruct rest as [|x rest].
  { exists "", "". cbn [String.length] in *. rewrite (proj2 (Z.leb_le _ _)) by lia. cbn. split; [done|].
    split; [lia|]. by rewrite string_app_nil. }
  set (r := String x rest) in *. assert (0 < String.length r)%nat by (cbn; lia).
  rewrite (proj2 (Z.leb_gt _ _)) by lia. cbn [orb]. u64_simpl. rewrite bind_modify.
  replace (Z.of_nat (String.length a + String.length r) - Z.of_nat (String.length a)) with (Z.of_nat (String.length r)) by lia.
  set (n := Z.min size (Z.of_nat (String.length r))).
  destruct (substring_split (a +:+ r) (String.length a) (Z.to_nat n)) as (a' & b & c & E & Ea & Eb & Es).
  { rewrite string_app_length. lia. }
  assert (a' = a /\ r = b +:+ c) as [-> Er].
  { revert a' E Ea. clear. induction a as [|y a IH]; intros [|z a'] E Ea; try done. injection E as -> E. injection Ea as Ea.
    destruct (IH _ E Ea) as [-> ->]. done. }
  exists b, c. split; [done|]. split; [lia|]. unfold rok, ret. rewrite Nat2Z.id, Es.
  rewrite string_app_length, Nat2Z.inj_add, Eb, Z2Nat.id by lia. reflexivity.
Qed.

Lemma restore_loop_spec m a rest fuel : slen (a +:+ rest) < two64 -> (S (String.length rest) <= fuel)%nat ->
  mk_last_restored_data_ m = a ->
  restore_loop fuel (m, mkSnapshotDataReader (a +:+ rest) (slen a)) =
  Ret (Ok tt, (m <| mk_last_restored_data_ := a +:+ rest |>, mkSnapshotDataReader (a +:+ rest) (slen (a +:+ rest)))).
Proof.
  revert m a rest. induction fuel as [|fuel IH]; intros m a rest Hl Hf Hm; [lia|]. subst a. cbn [restore_loop]. unfold mrbind, restore_round.
  set (a := mk_last_restored_data_ m) in *.
  destruct (Read_chunk a rest 4096 Hl ltac:(unfold two64; lia)) as (b & c & -> & Eb & Er).
  rewrite bind_bind. unfold on_snd at 1. erewrite bind_run by (unfold zoom; cbn [snd]; rewrite Er; reflexivity). cbv beta iota. cbn [fst].
  unfold slen in *. rewrite !string_app_length in *. destruct (Z.eqb_spec (Z.of_nat (String.length b)) 0) as [E0|E0].
  - destruct b; [|done]. cbn [String.length] in *. destruct c; [|cbn in *; lia]. cbn.
    change ("" +:+ "")%string with ""%string. rewrite !string_app_nil. rewrite Nat.add_0_r. by destruct m.
  - rewrite bind_bind. unfold on_fst. erewrite bind_run by reflexivity. erewrite bind_run by reflexivity. cbv beta iota. cbn [snd].
    rewrite <- string_app_assoc. specialize (IH (m <| mk_last_restored_data_ := a +:+ b |>) (a +:+ b) c).
    rewrite !string_app_length in IH. rewrite !Nat.add_assoc.
    etransitivity; [apply IH; [lia|lia|done]|reflexivity].
Qed.

(** A restore that is not told to fail ends with the whole payload of the
    snapshot, for any size, and the index and term of its metadata. *)
Lemma mock_restore_whole m metadata data : mk_should_fail_restore_ m = false -> slen data < two64 ->
  exists m' r', mock_RestoreSnapshot metadata (m, new_reader data) = Ret (Ok tt, (m', r')) /\
    mk_last_restored_data_ m' = data /\ mk_last_restored_index_ m' = sm_index metadata /\
    mk_last_restored_term_ m' = sm_term metadata /\ mk_applied_entries_ m' = mk_applied_entries_ m.
Proof.
  intros Hf Hl. unfold mock_RestoreSnapshot, on_fst. erewrite bind_run by reflexivity. rewrite bind_get. cbn [fst snd].
  match goal with |- context [if ?b then _ else _] => assert (b = false) as -> by exact Hf end. do 3 (erewrite bind_run by reflexivity).
  unfold mrbind, new_reader. cbn [fst snd sr_data_]. change 0 with (slen ""%string).
  erewrite bind_run by (apply (restore_loop_spec _ ""%string data); [exact Hl|lia|reflexivity]). cbv beta iota.
  erewrite bind_run by reflexivity. eexists _, _. split; [reflexivity|done].
Qed.
