(* ===== verification/KvStore.v ===== *)
(** * The key-value store

    The state machine of the example in [examples/kvstore]: commands in JSON
    that put, get and delete a key, and snapshots that hold all the data as one
    JSON object. *)

From S2P Require Import Prelude Types Util Json StateMachine.

Open Scope string_scope.
Open Scope Z_scope.

Inductive Op := OpPut | OpGet | OpDel.

Record Command := mkCommand {
  cmd_op : Op;
  cmd_key : string;
  cmd_value : option string
}.

(** [data_]; the mutex makes each method one step. *)
Record KvStoreStateMachine := mkKv {
  kv_data_ : gmap string string
}.
#[export] Instance KvStoreStateMachine_eta : Eta KvStoreStateMachine := fun k => mkKv (kv_data_ k).

Definition new_kv : KvStoreStateMachine := mkKv ∅.

(** ** [IKVStore] *)

Definition kv_Get (key : string) (k : KvStoreStateMachine) : option string := kv_data_ k !! key.

Definition kv_Put (key value : string) : M KvStoreStateMachine bool :=
  modify (fun k => k <| kv_data_ := <[key := value]> (kv_data_ k) |>) ;;;
  ret true.

(** [erase] tells how many were removed. *)
Definition kv_Del (key : string) : M KvStoreStateMachine bool :=
  let! k := get in
  set! kv_data_ := delete key (kv_data_ k) ;;;
  ret (negb (bool_decide (kv_data_ k !! key = None))).

Section KvStore.
Context {JL : JsonLib}.

(** An exception that [Apply] or [TakeSnapshot] lets through ends the program. *)
Definition dump {S} (j : Json) : M S string :=
  match json_dump j with
  | inr s => ret s
  | inl what => abort (Panic what)
  end.

(** ** Commands *)

Definition parse_command (json_str : string) : Try (option Command) :=
  let% j := json_parse json_str in
  let% op_str := at_string "op" j in
  let command op :=
    (let% key := at_string "key" j in
     if json_contains "value" j then
       let% value := at_string "value" j in
       inr (Some (mkCommand op key (Some value)))
     else inr (Some (mkCommand op key None))) in
  if bool_decide (op_str = "put") then command OpPut
  else if bool_decide (op_str = "get") then command OpGet
  else if bool_decide (op_str = "del") then command OpDel
  else inr None.

Definition parseFromJson (json_str : string) : option Command :=
  match parse_command json_str with
  | inr cmd => cmd
  | inl _ => None
  end.

Definition success (b : bool) : gmap string Json := {["success" := JBool b]}.

Definition error_response (error : string) : gmap string Json := <["error" := JString error]> (success false).

Definition kv_Apply (entry : Entry) : M KvStoreStateMachine (Result (option string)) :=
  match parseFromJson (e_data entry) with
  | None => rfail (ERaft ProposalDropped)
  | Some cmd =>
      let! k := get in
      match cmd_op cmd with
      | OpPut =>
          match cmd_value cmd with
          | None =>
              let! response := dump (JObject (error_response "missing value for put operation")) in
              rok (Some response)
          | Some value =>
              set! kv_data_ := <[cmd_key cmd := value]> (kv_data_ k) ;;;
              let! response := dump (JObject (success true)) in
              rok (Some response)
          end
      | OpGet =>
          let! response := dump (JObject
            match kv_data_ k !! cmd_key cmd with
            | Some value => <["value" := JString value]> (success true)
            | None => error_response "key not found"
            end) in
          rok (Some response)
      | OpDel =>
          let! erased := kv_Del (cmd_key cmd) in
          let! response := dump (JObject (success erased)) in
          rok (Some response)
      end
  end.

(** ** Snapshots *)

Definition serializeData (data : gmap string string) : Try string := json_dump (JObject (text_object data)).

Definition kv_TakeSnapshot (applied_index applied_term : Z) (conf_state : ConfState) {W} `{SnapshotWriter W} :
    M (KvStoreStateMachine * W) (Result SnapshotMetadata) :=
  let! (k, _) := get in
  match serializeData (kv_data_ k) with
  | inl what => abort (Panic what)
  | inr data_str =>
      try! _ := on_snd (Write data_str) in
      rok (mkSnapshotMetadata conf_state applied_index applied_term)
  end.

(** [SnapshotReaderStreamBuf::underflow]: the next bytes, or the end of the
    stream with the error that caused it. *)
Definition underflow : M SnapshotDataReader (option RaftError + string) :=
  let! read_result := Read 4096 in
  match read_result with
  | Err e => ret (inl (Some e))
  | Ok bytes => if slen bytes =? 0 then ret (inl None) else ret (inr bytes)
  end.

(** [nlohmann::json::parse(stream)]: the parser asks for bytes until the end of
    the stream or until it gives up. *)
Fixpoint parse_stream (fuel : nat) (seen : string) : M SnapshotDataReader (option RaftError * Try Json) :=
  match fuel with
  | O => abort NoFuel
  | S fuel' =>
      if json_dead seen then ret (None, json_parse seen)
      else
        let! more := underflow in
        match more with
        | inl error => ret (error, json_parse seen)
        | inr bytes => parse_stream fuel' (seen +:+ bytes)
        end
  end.

Definition deserializeData : M SnapshotDataReader (Result (gmap string string)) :=
  let! reader := get in
  let! (error, parsed) := parse_stream (S (S (String.length (sr_data_ reader)))) "" in
  match error with
  | Some e => rfail e
  | None =>
      match (let% j := parsed in json_get_map j) with
      | inr data => rok data
      | inl what => rfail (EStorageOther ("kvstore snapshot parse failed: " +:+ what))
      end
  end.

Definition kv_RestoreSnapshot (metadata : SnapshotMetadata) : M (KvStoreStateMachine * SnapshotDataReader) (Result unit) :=
  if sm_index metadata =? 0 then rfail (EStorageOther "kvstore snapshot metadata index must be non-zero")
  else
    try! data := on_snd deserializeData in
    on_fst (set! kv_data_ := data) ;;;
    rok tt.

Definition kv_OnLeadershipChange (is_leader : bool) (term leader_id : Z) : M KvStoreStateMachine unit := ret tt.
Definition kv_OnPeerUnreachable (peer_id : Z) : M KvStoreStateMachine unit := ret tt.

#[export] Instance kv_state_machine : StateMachine KvStoreStateMachine := {|
  sm_Apply := kv_Apply;
  sm_TakeSnapshot := @kv_TakeSnapshot;
  sm_RestoreSnapshot := kv_RestoreSnapshot;
  sm_OnLeadershipChange := kv_OnLeadershipChange;
  sm_OnPeerUnreachable := kv_OnPeerUnreachable
|}.
End KvStore.

(** ** What commands do *)

Section KvProps.
Context {JL : JsonLib} {JW : JsonLaws}.

(** The meaning of a command on the data, and its answer. *)
Definition command_effect (cmd : Command) (data : gmap string string) : gmap string string :=
  match cmd with
  | mkCommand OpPut key (Some value) => <[key := value]> data
  | mkCommand OpDel key _ => delete key data
  | _ => data
  end.

Definition command_answer (cmd : Command) (data : gmap string string) : gmap string Json :=
  match cmd with
  | mkCommand OpPut _ (Some _) => success true
  | mkCommand OpPut _ None => error_response "missing value for put operation"
  | mkCommand OpGet key _ =>
      match data !! key with
      | Some value => <["value" := JString value]> (success true)
      | None => error_response "key not found"
      end
  | mkCommand OpDel key _ => success (negb (bool_decide (data !! key = None)))
  end.

Definition entry_effect (entry : Entry) (data : gmap string string) : gmap string string :=
  match parseFromJson (e_data entry) with
  | Some cmd => command_effect cmd data
  | None => data
  end.

Lemma plain_success b : plain_fields (success b).
Proof. apply map_Forall_singleton. done. Qed.

Lemma plain_error error : utf8 error = true -> plain_fields (error_response error).
Proof. intros H. apply plain_insert; [done|done|apply plain_success]. Qed.

#[local] Hint Resolve plain_success plain_error : json.

Lemma answer_plain cmd data : text_data data -> plain_fields (command_answer cmd data).
Proof.
  intros Hd. destruct cmd as [[] key [value|]]; cbn; auto with json; destruct (data !! key) as [v|] eqn:E; auto with json;
    (apply plain_insert; [done|by apply (Hd key v)|apply plain_success]).
Qed.

Lemma dump_run {S} fields (s : S) : plain_fields fields -> exists text, json_dump (JObject fields) = inr text /\
  json_parse text = inr (JObject fields) /\ dump (JObject fields) s = Ret (text, s).
Proof.
  intros H. destruct (dump_plain fields H) as [text E]. exists text. split; [done|]. split; [by apply parse_dump|]. unfold dump. by rewrite E.
Qed.

(** [Apply] in one step. *)
Lemma kv_Apply_run entry k : kv_Apply entry k =
  match parseFromJson (e_data entry) with
  | None => Ret (Err (ERaft ProposalDropped), k)
  | Some cmd =>
      match json_dump (JObject (command_answer cmd (kv_data_ k))) with
      | inr response => Ret (Ok (Some response), mkKv (command_effect cmd (kv_data_ k)))
      | inl what => Abort (Panic what)
      end
  end.
Proof.
  destruct k as [data]. unfold kv_Apply, kv_Del. destruct (parseFromJson _) as [[[] key [value|]]|]; [..|done]; rewrite ?bind_get;
    cbn [cmd_op cmd_key cmd_value command_effect command_answer kv_data_]; unfold dump, bind; cbn; by destruct (json_dump _).
Qed.

Lemma kv_Apply_effect entry k r k' : kv_Apply entry k = Ret (r, k') -> kv_data_ k' = entry_effect entry (kv_data_ k).
Proof.
  rewrite kv_Apply_run. unfold entry_effect. destruct (parseFromJson _); [destruct (json_dump _); [done|]|]; by intros [= _ <-].
Qed.

Lemma at_string_utf8 text j key value : json_parse text = inr j -> at_string key j = inr value -> utf8 value = true.
Proof.
  intros Ej E. apply tbind_inr in E as (v & Ev & E). destruct j as [| | | | | |fields]; try done. cbn in Ev.
  destruct (fields !! key) as [w|] eqn:Ek; [|done]. injection Ev as ->. destruct v; try done. injection E as ->. by eapply parse_utf8.
Qed.

Lemma parseFromJson_utf8 text cmd : parseFromJson text = Some cmd ->
  utf8 (cmd_key cmd) = true /\ forall value, cmd_value cmd = Some value -> utf8 value = true.
Proof.
  unfold parseFromJson. destruct (parse_command text) as [|c] eqn:E; [done|]. intros ->. unfold parse_command in E.
  apply tbind_inr in E as (j & Ej & E). apply tbind_inr in E as (op & _ & E).
  assert (H : exists o, (let% key := at_string "key" j in
     if json_contains "value" j then let% value := at_string "value" j in inr (Some (mkCommand o key (Some value)))
     else inr (Some (mkCommand o key None))) = inr (Some cmd)) by (repeat destruct (bool_decide _) in E; eauto; done).
  destruct H as [o H]. apply tbind_inr in H as (key & Ek & H). destruct (json_contains _ _).
  - apply tbind_inr in H as (value & Ev & [= <-]). cbn. split; [by eapply at_string_utf8|]. intros ? [= <-]. by eapply at_string_utf8.
  - injection H as <-. cbn. split; [by eapply at_string_utf8|done].
Qed.

Lemma effect_text text cmd data : parseFromJson text = Some cmd -> text_data data -> text_data (command_effect cmd data).
Proof.
  intros Hp Hd. apply parseFromJson_utf8 in Hp as [Hk Hv]. destruct cmd as [[] key [value|]]; cbn in *; try done.
  - apply map_Forall_insert_2; [|done]. split; [done|]. by apply Hv.
  - by apply map_Forall_delete.
  - by apply map_Forall_delete.
Qed.

(** A command is answered and has its effect, and the data stay text; what is
    no command is refused and changes nothing. *)
Lemma kv_Apply_spec entry k : text_data (kv_data_ k) ->
  match parseFromJson (e_data entry) with
  | None => kv_Apply entry k = Ret (Err (ERaft ProposalDropped), k)
  | Some cmd => exists response,
      kv_Apply entry k = Ret (Ok (Some response), mkKv (command_effect cmd (kv_data_ k))) /\
      json_parse response = inr (JObject (command_answer cmd (kv_data_ k))) /\
      text_data (command_effect cmd (kv_data_ k))
  end.
Proof.
  intros Hd. rewrite kv_Apply_run. destruct (parseFromJson _) as [cmd|] eqn:Ep; [|done].
  destruct (dump_run (S := unit) (command_answer cmd (kv_data_ k)) tt) as (text & E1 & E2 & _); [by apply answer_plain|].
  exists text. rewrite E1. split; [done|]. split; [done|]. by eapply effect_text.
Qed.

(** ** Snapshots *)

(** The parser sees all of the data, or it gives up within what it saw. *)
Lemma parse_stream_run fuel a rest : slen (a +:+ rest) < two64 -> (S (String.length rest) <= fuel)%nat ->
  exists seen more r', a +:+ rest = seen +:+ more /\ (more = "" \/ json_dead seen = true) /\
  parse_stream fuel a (mkSnapshotDataReader (a +:+ rest) (slen a)) = Ret ((None, json_parse seen), r').
Proof.
  revert a rest. induction fuel as [|fuel IH]; intros a rest Hl Hf; [lia|]. cbn [parse_stream].
  destruct (json_dead a) eqn:Ed; [by eexists a, rest, _; eauto|].
  destruct (Read_chunk a rest 4096 Hl ltac:(unfold two64; lia)) as (b & c & -> & Eb & Er).
  unfold underflow. rewrite bind_bind. erewrite bind_run by exact Er. cbv beta iota.
  unfold slen in *. rewrite !string_app_length in *. destruct (Z.eqb_spec (Z.of_nat (String.length b)) 0) as [E0|E0].
  - rewrite bind_ret. destruct b; [|done]. cbn [String.length] in *. destruct c; [|cbn in *; lia].
    change ("" +:+ "")%string with ""%string in *. by eexists a, "", _; eauto.
  - rewrite bind_ret. rewrite <- string_app_assoc in *. specialize (IH (a +:+ b) c). rewrite !string_app_length in IH.
    apply IH; lia.
Qed.

Definition parsed_data (j : Json) : Result (gmap string string) :=
  match json_get_map j with
  | inr data => Ok data
  | inl what => Err (EStorageOther ("kvstore snapshot parse failed: " +:+ what))
  end.

Lemma deserialize_run data : slen data < two64 -> exists r' res, deserializeData (new_reader data) = Ret (res, r') /\
  match json_parse data with inr j => res = parsed_data j | inl _ => exists e, res = Err e end.
Proof.
  intros Hl. unfold deserializeData. rewrite bind_get.
  destruct (parse_stream_run (S (S (String.length data))) "" data Hl ltac:(lia)) as (seen & more & r' & Es & Hm & E).
  change ("" +:+ data)%string with data in *. exists r'. erewrite bind_run by exact E. cbv beta iota.
  destruct Hm as [->|Hd].
  - rewrite string_app_nil in Es. subst seen. destruct (json_parse data) as [what|j]; cbn; [eauto|].
    unfold parsed_data. destruct (json_get_map j); eauto.
  - subst data. destruct (dead_fails seen "" Hd) as [what E1], (dead_fails seen more Hd) as [what' E2]. rewrite string_app_nil in E1.
    rewrite E1, E2. cbn. eauto.
Qed.

(** A restore always ends; one that fails keeps the data. *)
Lemma kv_RestoreSnapshot_ends metadata data k : slen data < two64 -> exists res k' r',
  kv_RestoreSnapshot metadata (k, new_reader data) = Ret (res, (k', r')) /\ (forall e, res = Err e -> k' = k).
Proof.
  intros Hl. unfold kv_RestoreSnapshot. destruct (_ =? 0); [by eexists _, _, _|].
  destruct (deserialize_run data Hl) as (r' & res & E & _). unfold mrbind, on_snd. erewrite bind_run by (unfold zoom; cbn [snd]; rewrite E; reflexivity).
  destruct res as [m|e]; cbn; by eexists _, _, _.
Qed.

(** A writer that keeps the bytes it is given. *)
Definition BufferSnapshotWriter : SnapshotWriter string := fun chunk => modify (fun buffer => buffer +:+ chunk) ;;; rok tt.

(** C32: A snapshot of the store restores it.  Of data that are text, as all data
    that commands put are, a snapshot can always be taken; what it writes,
    given to any store in chunks, replaces the data of that store by the data
    of the snapshot. *)
Theorem kv_snapshot_roundtrip k index term cs : text_data (kv_data_ k) -> index <> 0 ->
  exists payload, kv_TakeSnapshot index term cs (H := BufferSnapshotWriter) (k, "") =
      Ret (Ok (mkSnapshotMetadata cs index term), (k, payload)) /\
    (slen payload < two64 -> forall k2, exists r',
      kv_RestoreSnapshot (mkSnapshotMetadata cs index term) (k2, new_reader payload) = Ret (Ok tt, (k, r'))).
Proof.
  intros Hd Hi. destruct (dump_plain (text_object (kv_data_ k))) as [payload E]; [by apply text_object_plain|].
  exists payload. split.
  - unfold kv_TakeSnapshot, serializeData. rewrite bind_get. cbn [fst]. by rewrite E.
  - intros Hl k2. unfold kv_RestoreSnapshot. cbn [sm_index]. rewrite (proj2 (Z.eqb_neq _ _) Hi).
    destruct (deserialize_run payload Hl) as (r' & res & Er & Hr). rewrite (parse_dump _ _ (text_object_plain _ Hd) E) in Hr.
    unfold parsed_data in Hr. rewrite json_get_map_text in Hr. subst res.
    unfold mrbind, on_snd. erewrite bind_run by (unfold zoom; cbn [snd]; rewrite Er; reflexivity). exists r'. by destruct k.
Qed.
End KvProps.

(** ** Witness *)

Definition sample_data : gmap string string := <["snap_key1" := "snap_value1"]> {["snap_key2" := "snap_value2"]}.

Lemma sample_data_text : text_data sample_data.
Proof. apply map_Forall_insert_2; [done|]. by apply map_Forall_singleton. Qed.

Lemma kv_snapshot_roundtrip_witness : exists payload r',
  kv_TakeSnapshot (JL := Sample.lib) 2 1 (mkConfState [1] [] [] [] false) (H := BufferSnapshotWriter) (mkKv sample_data, "") =
    Ret (Ok (mkSnapshotMetadata (mkConfState [1] [] [] [] false) 2 1), (mkKv sample_data, payload)) /\
  kv_RestoreSnapshot (JL := Sample.lib) (mkSnapshotMetadata (mkConfState [1] [] [] [] false) 2 1) (new_kv, new_reader payload) =
    Ret (Ok tt, (mkKv sample_data, r')).
Proof.
  destruct (kv_snapshot_roundtrip (JL := Sample.lib) (JW := Sample.laws) (mkKv sample_data) 2 1 (mkConfState [1] [] [] [] false)
    sample_data_text ltac:(lia)) as (payload & Et & Hr).
  assert (Hl : slen payload < two64).
  { assert (Ep : kv_TakeSnapshot (JL := Sample.lib) 2 1 (mkConfState [1] [] [] [] false) (H := BufferSnapshotWriter) (mkKv sample_data, "") =
      Ret (Ok (mkSnapshotMetadata (mkConfState [1] [] [] [] false) 2 1), (mkKv sample_data, payload))) by exact Et.
    vm_compute in Ep. injection Ep as <-. vm_compute. reflexivity. }
  destruct (Hr Hl new_kv) as [r' E]. exists payload, r'. split; [exact Et|exact E].
Defined.
