(* ===== verification/ReadyProcessor.v ===== *)
(** * Processing of a [Ready]

    Model of [lib/raftor/ready_processor.cc] and [metadata_change.h]: what the
    driver of a node does with a [Ready], from persisting its entries to
    applying what is committed.  The [RawNode] and the processor share the
    storage: it is the store of the node's log, and the processor writes to it
    there.  What reaches the transport is recorded; the state machine is a
    parameter. *)

From S2P Require Import Prelude Types Util Storage Unstable ReadOnly Config RaftLog RaftCore Raft RawNode ProposalTracker StateMachine.

(** ** Messages of the driver *)

(** [msg::ConfChange] *)
Record ConfChange := mkConfChange {
  cc1_type : ConfChangeType;
  cc1_node_id : Z;
  cc1_context : string;
  cc1_id : Z
}.

(** The union [msg::RaftorMetadataChange]. *)
Inductive RaftorMetadataChange :=
| upsertPeerAddress (id : Z) (addr : string)
| removePeerAddress (id : Z).

(** Cap'n Proto on these two messages, as in [Env]. *)
Class DriverCodec := {
  cc1_decode : string -> option ConfChange;
  md_encode : RaftorMetadataChange -> string;
  md_decode : string -> option RaftorMetadataChange;
  md_decode_encode m : md_decode (md_encode m) = Some m
}.

Definition kMetadataProposalContextPrefix : string := "raftor:metadata:".

(** [MetadataChangeType] has one value. *)
Record MetadataChange := mkMetadataChange {
  mc_node_id : Z;
  mc_addr : string
}.

Definition IsMetadataProposalContext (ctx : string) : bool :=
  (slen kMetadataProposalContextPrefix <=? slen ctx) &&
  bool_decide (String.substring 0 (String.length kMetadataProposalContextPrefix) ctx = kMetadataProposalContextPrefix).

Section MetadataChange.
Context {DC : DriverCodec}.

Definition SerializeMetadataChange (change : MetadataChange) : string :=
  md_encode (upsertPeerAddress (mc_node_id change) (mc_addr change)).

Definition ParseMetadataChange (data : string) : option MetadataChange :=
  match md_decode data with
  | Some (upsertPeerAddress id addr) => Some (mkMetadataChange id addr)
  | Some (removePeerAddress _) => None
  | None => None
  end.
End MetadataChange.

(** ** The processor *)

(** What was called of the transport. *)
Inductive TransportCall :=
| StartTransport
| StopTransport
| Send (messages : list Message)
| AddPeer (id : Z) (addr : string)
| RemovePeer (id : Z).

(** [PendingRead]: the read index and the context of a read. *)
Record PendingReadState := mkPendingReadState {
  pr_index : Z;
  pr_ctx : string
}.

Record ReadyProcessor (S T : Type) := mkReadyProcessor {
  rp_raw_node_ : RawNode S;
  rp_wal_storage_ : option (AddressBook S);
  rp_state_machine_ : T;
  rp_transport_ : list TransportCall;
  rp_proposal_tracker_ : ProposalTracker;
  rp_node_id_ : Z;
  rp_prev_role_ : StateRole;
  rp_prev_leader_ : Z;
  rp_prev_term_ : Z;
  rp_applied_index_ : Z;
  rp_fatal_error_ : option RaftError;
  rp_checksum_enabled_ : bool;
  rp_pending_reads_ : list PendingReadState
}.
Arguments mkReadyProcessor {S T}.
Arguments rp_raw_node_ {S T}.
Arguments rp_wal_storage_ {S T}.
Arguments rp_state_machine_ {S T}.
Arguments rp_transport_ {S T}.
Arguments rp_proposal_tracker_ {S T}.
Arguments rp_node_id_ {S T}.
Arguments rp_prev_role_ {S T}.
Arguments rp_prev_leader_ {S T}.
Arguments rp_prev_term_ {S T}.
Arguments rp_applied_index_ {S T}.
Arguments rp_fatal_error_ {S T}.
Arguments rp_checksum_enabled_ {S T}.
Arguments rp_pending_reads_ {S T}.
#[export] Instance ReadyProcessor_eta S T : Eta (ReadyProcessor S T) := fun p =>
  mkReadyProcessor (rp_raw_node_ p) (rp_wal_storage_ p) (rp_state_machine_ p) (rp_transport_ p)
    (rp_proposal_tracker_ p) (rp_node_id_ p) (rp_prev_role_ p) (rp_prev_leader_ p) (rp_prev_term_ p)
    (rp_applied_index_ p) (rp_fatal_error_ p) (rp_checksum_enabled_ p) (rp_pending_reads_ p).

Definition IsFatalApplyError (error : RaftError) : bool := bool_decide (error = ERaft ChecksumMismatch).

Section ReadyProcessor.
Context {ENV : Env} {DC : DriverCodec} {MO : MapOrder}.
Context {S : Type} {ST : Storage S} {WS : WritableStorage S} {T : Type} {SM : StateMachine T}.

Abbreviation P := (ReadyProcessor S T).

(** The constructor. *)
Definition new_processor (raw_node : RawNode S) (wal_storage : option (AddressBook S)) (state_machine : T)
    (tracker : ProposalTracker) (node_id : Z) (checksum_enabled : bool) (initial_applied_index : Z) : P :=
  mkReadyProcessor raw_node wal_storage state_machine [] tracker node_id Follower 0 0 initial_applied_index
    None checksum_enabled [].

Definition IsLeader (p : P) : bool := bool_decide (rp_prev_role_ p = Leader).
Definition GetLeaderId (p : P) : Z := rp_prev_leader_ p.
Definition GetAppliedIndex (p : P) : Z := rp_applied_index_ p.

Definition on_node {A} (m : M (RawNode S) A) : M P A := zoom rp_raw_node_ (fun n p => p <| rp_raw_node_ := n |>) m.
Definition on_storage {A} (m : M S A) : M P A := on_node (on_raft (on_log (on_store m))).
Definition on_machine {A} (m : M T A) : M P A := zoom rp_state_machine_ (fun t p => p <| rp_state_machine_ := t |>) m.
Definition on_proposals {A} (m : M ProposalTracker A) : M P A :=
  zoom rp_proposal_tracker_ (fun t p => p <| rp_proposal_tracker_ := t |>) m.
Definition transport (c : TransportCall) : M P unit := modify (fun p => p <| rp_transport_ := rp_transport_ p ++ [c] |>).

(** [proposal_tracker_.Fail] or [Complete], for an entry that has a context. *)
Definition fail_ctx (context : string) (error : RaftError) : M P unit :=
  when (0 <? slen context) (on_proposals (Fail context error)).
Definition complete_ctx (context response : string) : M P unit :=
  when (0 <? slen context) (on_proposals (Complete context response)).

Definition VerifyEntryChecksum (entry : Entry) : M P (Result unit) :=
  if IsChecksumExemptEntry entry then rok tt
  else if IsMetadataProposalContext (e_context entry) then rok tt
  else if ComputeEntryChecksum entry =? e_checksum entry then rok tt
  else
    fail_ctx (e_context entry) (ERaft ChecksumMismatch) ;;;
    rfail (ERaft ChecksumMismatch).

Definition ValidateReadyEntries (entries : list Entry) : M P (Result unit) :=
  let! p := get in
  if negb (rp_checksum_enabled_ p) || bool_decide (entries = []) then rok tt
  else foreachM entries VerifyEntryChecksum.

(** Errors of the storage are reported as dropped proposals. *)
Definition or_dropped (m : M P (Result unit)) : M P (Result unit) :=
  let! r := m in
  match r with
  | Ok _ => rok tt
  | Err _ => rfail (ERaft ProposalDropped)
  end.

Definition PersistEntries (rd : Ready) : M P (Result unit) :=
  if bool_decide (rd_entries rd = []) then rok tt
  else or_dropped (on_storage (wr_Append (rd_entries rd))).

Definition PersistHardState (rd : Ready) : M P (Result unit) :=
  match rd_hs rd with
  | None => rok tt
  | Some hs =>
      try! _ := or_dropped (on_storage (wr_SetHardState hs)) in
      if rd_must_sync rd then or_dropped (on_storage wr_Sync) else rok tt
  end.

(** [std::remove_if] with a predicate that completes the reads it removes. *)
Fixpoint remove_completed (applied_index : Z) (pending : list PendingReadState) : M P (list PendingReadState) :=
  match pending with
  | [] => ret []
  | r :: rest =>
      let! p := get in
      if negb (IsReadPending (pr_ctx r) (rp_proposal_tracker_ p)) then remove_completed applied_index rest
      else if pr_index r <=? applied_index then
        on_proposals (CompleteRead (pr_ctx r)) ;;;
        remove_completed applied_index rest
      else
        let! rest := remove_completed applied_index rest in
        ret (r :: rest)
  end.

Definition MaybeCompletePendingReads : M P unit :=
  let! p := get in
  if bool_decide (rp_pending_reads_ p = []) then ret tt
  else
    let! pending := remove_completed (rp_applied_index_ p) (rp_pending_reads_ p) in
    set! rp_pending_reads_ := pending.

(** [state_machine_.RestoreSnapshot(metadata, reader)] *)
Definition restore_machine (snapshot : Snapshot) : M P (Result unit) :=
  zoom (fun p => (rp_state_machine_ p, new_reader (sn_data snapshot))) (fun t p => p <| rp_state_machine_ := t.1 |>)
    (sm_RestoreSnapshot (sn_meta snapshot)).

(** An absent snapshot is one with index 0. *)
Definition ApplySnapshot (rd : Ready) : M P (Result unit) :=
  let snapshot := rd_snapshot rd in
  if sn_index snapshot =? 0 then rok tt
  else
    try! _ := restore_machine snapshot in
    try! _ := or_dropped (on_storage (wr_ApplySnapshot snapshot)) in
    set! rp_applied_index_ := sn_index snapshot ;;;
    MaybeCompletePendingReads ;;;
    rok tt.

Definition SendMessages (messages : list Message) : M P unit :=
  if bool_decide (messages = []) then ret tt else transport (Send messages).

(** [if (wal_storage_) ...], with the error of the call. *)
Definition on_book (m : AddressBook S -> M S (Result unit)) : M P (Result unit) :=
  let! p := get in
  match rp_wal_storage_ p with
  | None => rok tt
  | Some book => on_storage (m book)
  end.

(** The peers of the transport after a configuration change. *)
Definition update_peer (context : string) (change : ConfChangeSingle) : M P (Result unit) :=
  match ccs_type change with
  | AddNode | AddLearnerNode =>
      if slen context =? 0 then rok tt
      else
        try! _ := on_book (fun book => ab_Upsert book (ccs_node_id change) context) in
        let! p := get in
        when (negb (ccs_node_id change =? rp_node_id_ p)) (transport (AddPeer (ccs_node_id change) context)) ;;;
        rok tt
  | RemoveNode =>
      try! _ := on_book (fun book => ab_Remove book (ccs_node_id change)) in
      transport (RemovePeer (ccs_node_id change)) ;;;
      rok tt
  end.

(** The change an entry carries; [ConfChange] is read as a [ConfChangeV2]. *)
Definition entry_conf_change (entry : Entry) : option ConfChangeV2 :=
  match e_type entry with
  | EntryConfChange =>
      match cc1_decode (e_data entry) with
      | Some cc => Some (mkCCV2 CCAuto [mkCCS (cc1_type cc) (cc1_node_id cc)] (cc1_context cc))
      | None => None
      end
  | _ => cc_decode (e_data entry)
  end.

Definition apply_conf_change (entry : Entry) : M P (Result unit) :=
  match entry_conf_change entry with
  | None => rfail (ERaft ProposalDropped)
  | Some cc =>
      try! conf_state := on_node (RawNode.ApplyConfChange cc) in
      try! _ := on_storage (wr_SetConfState conf_state) in
      try! _ := foreachM (cc_changes cc) (update_peer (cc_context cc)) in
      complete_ctx (cc_context cc) "conf change applied" ;;;
      rok tt
  end.

Definition apply_metadata_change (entry : Entry) : M P (Result unit) :=
  match ParseMetadataChange (e_data entry) with
  | None =>
      fail_ctx (e_context entry) (ERaft ConfChangeParseError) ;;;
      rfail (ERaft ConfChangeParseError)
  | Some change =>
      try! _ := on_book (fun book => ab_Upsert book (mc_node_id change) (mc_addr change)) in
      let! p := get in
      transport (if (mc_node_id change =? rp_node_id_ p) || (slen (mc_addr change) =? 0)
                 then RemovePeer (mc_node_id change) else AddPeer (mc_node_id change) (mc_addr change)) ;;;
      complete_ctx (e_context entry) "metadata change applied" ;;;
      rok tt
  end.

Definition apply_normal (entry : Entry) : M P (Result unit) :=
  if (slen (e_data entry) =? 0) && (slen (e_context entry) =? 0) then rok tt
  else
    let! result := on_machine (sm_Apply entry) in
    match result with
    | Err e => fail_ctx (e_context entry) e ;;; rfail e
    | Ok response => complete_ctx (e_context entry) (default "" response) ;;; rok tt
    end.

Definition ApplyEntry (entry : Entry) : M P (Result unit) :=
  let! p := get in
  try! _ := (if rp_checksum_enabled_ p then VerifyEntryChecksum entry else rok tt) in
  match e_type entry with
  | EntryNormal => if IsMetadataProposalContext (e_context entry) then apply_metadata_change entry else apply_normal entry
  | _ => apply_conf_change entry
  end.

(** The loop of [ApplyCommittedEntries] and [ProcessLightReady]: an error of
    an entry is logged, a fatal one ends it. *)
Fixpoint apply_entries (entries : list Entry) : M P (Result unit) :=
  match entries with
  | [] => rok tt
  | entry :: rest =>
      let! r := ApplyEntry entry in
      match r with
      | Err e => if IsFatalApplyError e then rfail e else set! rp_applied_index_ := e_index entry ;;; apply_entries rest
      | Ok _ => set! rp_applied_index_ := e_index entry ;;; apply_entries rest
      end
  end.

Definition ApplyCommittedEntries (entries : list Entry) : M P (Result unit) :=
  try! _ := apply_entries entries in
  MaybeCompletePendingReads ;;;
  rok tt.

Definition EnterFatalState (error : RaftError) : M P unit :=
  let! p := get in
  match rp_fatal_error_ p with
  | Some _ => ret tt
  | None =>
      set! rp_fatal_error_ := Some error ;;;
      on_proposals (FailAll error) ;;;
      on_proposals (FailAllReads error)
  end.

(** A fatal error tells the node what was applied so far. *)
Definition ProcessLightReady (light_rd : LightReady) : M P (Result unit) :=
  SendMessages (lr_messages light_rd) ;;;
  let! r := apply_entries (lr_committed_entries light_rd) in
  match r with
  | Err e =>
      let! p := get in
      on_node (AdvanceApplyTo (rp_applied_index_ p)) ;;;
      rfail e
  | Ok _ =>
      MaybeCompletePendingReads ;;;
      when (negb (bool_decide (lr_committed_entries light_rd = []))) (on_node AdvanceApply) ;;;
      rok tt
  end.

Definition EnqueueReadStates (read_states : list ReadState) : M P unit :=
  if bool_decide (read_states = []) then ret tt
  else
    modify (fun p => p <| rp_pending_reads_ :=
      rp_pending_reads_ p ++ ((fun rs => mkPendingReadState (rs_index rs) (rs_request_ctx rs)) <$> read_states) |>) ;;;
    MaybeCompletePendingReads.

Definition CheckLeadershipChange (rd : Ready) : M P unit :=
  match rd_ss rd with
  | None => ret tt
  | Some ss =>
      let! p := get in
      let was_leader := bool_decide (rp_prev_role_ p = Leader) in
      let is_leader := bool_decide (ss_raft_state ss = Leader) in
      let term := match rd_hs rd with Some hs => hs_term hs | None => rp_prev_term_ p end in
      when (xorb was_leader is_leader || negb (rp_prev_leader_ p =? ss_leader_id ss) ||
            (bool_decide (is_Some (rd_hs rd)) && negb (rp_prev_term_ p =? term)))
        (on_machine (sm_OnLeadershipChange is_leader term (ss_leader_id ss)) ;;;
         when (was_leader && negb is_leader)
           (on_proposals (FailAll (ERaft ProposalDropped)) ;;;
            on_proposals (FailAllReads (ERaft LostLeadership)))) ;;;
      set! rp_prev_role_ := ss_raft_state ss ;;;
      set! rp_prev_leader_ := ss_leader_id ss ;;;
      match rd_hs rd with
      | Some hs => set! rp_prev_term_ := hs_term hs
      | None => ret tt
      end
  end.

(** What [Process] writes before it sends messages. *)
Definition persist_ready (rd : Ready) : M P (Result unit) :=
  try! _ := PersistEntries rd in
  try! _ := PersistHardState rd in
  ApplySnapshot rd.

(** What it does once the [Ready] is stored. *)
Definition deliver_ready (rd : Ready) : M P (Result bool) :=
  SendMessages (lr_messages (rd_light rd)) ;;;
  let! applied := ApplyCommittedEntries (lr_committed_entries (rd_light rd)) in
  match applied with
  | Err e =>
      when (IsFatalApplyError e)
        (on_node (AdvanceAppend rd) ;;;
         let! p := get in
         on_node (AdvanceApplyTo (rp_applied_index_ p)) ;;;
         EnterFatalState e) ;;;
      rfail e
  | Ok _ =>
      EnqueueReadStates (rd_read_states rd) ;;;
      let! light_rd := on_node (Advance rd) in
      let! processed := ProcessLightReady light_rd in
      match processed with
      | Err e =>
          when (IsFatalApplyError e) (EnterFatalState e) ;;;
          rfail e
      | Ok _ => rok true
      end
  end.

(** What [Process] does once there is a [Ready]. *)
Definition process_ready (rd : Ready) : M P (Result bool) :=
  CheckLeadershipChange rd ;;;
  let! validated := ValidateReadyEntries (rd_entries rd) in
  match validated with
  | Err e =>
      when (IsFatalApplyError e) (EnterFatalState e) ;;;
      rfail e
  | Ok _ =>
      try! _ := persist_ready rd in
      deliver_ready rd
  end.

Definition Process : M P (Result bool) :=
  let! p := get in
  match rp_fatal_error_ p with
  | Some e => rfail e
  | None =>
      let! has_ready := getsO (fun p : P => HasReady (rp_raw_node_ p)) in
      if negb has_ready then rok false
      else
        let! rd := on_node GetReady in
        process_ready rd
  end.
End ReadyProcessor.
