(* ===== verification/ReadyProps.v ===== *)
(** * The state machine sees the committed log

    What [ReadyProcessor::Process] does to the node, the storage and the state
    machine: entries and snapshot of a [Ready] are in the storage before its
    messages are sent, and the state machine is given the committed entries,
    each once and in the order of the log, after the snapshot it was restored
    from if there was one. *)

From S2P Require Import Prelude Types Util Inflights Progress Quorum Tracker ConfChange Storage MemStorage Unstable ReadOnly Config RaftLog RaftLogProps RaftCore RaftSend LogSafety Raft NodeInv NodeSafety RawNode RawNodeProps ProposalTracker StateMachine ReadyProcessor.

(** ** Calls of a state machine *)

Inductive SmCall :=
| CallApply (entry : Entry)
| CallRestore (snapshot : Snapshot)
| CallLeadership (is_leader : bool) (term leader : Z).

(** The entries a state machine gets to see. *)
Definition payload (e : Entry) : bool :=
  bool_decide (e_type e = EntryNormal) && negb (IsMetadataProposalContext (e_context e)) &&
  negb ((slen (e_data e) =? 0) && (slen (e_context e) =? 0)).

Definition applies (es : list Entry) : list SmCall := CallApply <$> filter (fun e => payload e = true) es.

Lemma applies_app es es' : applies (es ++ es') = applies es ++ applies es'.
Proof. unfold applies. by rewrite filter_app, fmap_app. Qed.

Section Calls.
Context {T : Type} {SM : StateMachine T}.

(** A call that returned; a restore that succeeded. *)
Definition sm_step (c : SmCall) (t t' : T) : Prop :=
  match c with
  | CallApply e => exists r, sm_Apply e t = Ret (r, t')
  | CallRestore s => exists reader, sm_RestoreSnapshot (sn_meta s) (t, new_reader (sn_data s)) = Ret (Ok tt, (t', reader))
  | CallLeadership is_leader term leader => sm_OnLeadershipChange is_leader term leader t = Ret (tt, t')
  end.

Fixpoint sm_runs (calls : list SmCall) (t t' : T) : Prop :=
  match calls with
  | [] => t' = t
  | c :: calls => exists t1, sm_step c t t1 /\ sm_runs calls t1 t'
  end.

Lemma sm_runs_app a b t t1 t2 : sm_runs a t t1 -> sm_runs b t1 t2 -> sm_runs (a ++ b) t t2.
Proof.
  revert t. induction a as [|c a IH]; intros t; cbn; [by intros ->|]. intros (u & Hc & Ha) Hb. exists u. split; [done|]. by apply IH.
Qed.
End Calls.

Lemma pres_foreachM {S X} (R : S -> S -> Prop) `{!PreOrder R} (l : list X) (body : X -> M S (Result unit)) :
  (forall x, pres R (body x)) -> pres R (foreachM l body).
Proof.
  intros H. induction l as [|x l IH]; cbn [foreachM]; unfold mrbind, rok; [by apply pres_ret|].
  apply pres_bind; [done|done|]. intros []; [done|by apply pres_ret].
Qed.

Section ReadyProps.
Context {ENV : Env} {DC : DriverCodec} {MO : MapOrder}.
Context {S : Type} {ST : Storage S} {SL : StorageLaws S} {WS : WritableStorage S} {WL : WritableLaws S}.
Context {T : Type} {SM : StateMachine T}.
Implicit Types (p : ReadyProcessor S T) (n : RawNode S) (l : RaftLog S).

Abbreviation nd p := (rp_raw_node_ p).
Abbreviation lg p := (raft_log_ (raft_ (rp_raw_node_ p))).

(** ** Steps that touch neither node nor state machine *)

Record side p p' : Prop := {
  sd_node : nd p' = nd p;
  sd_machine : rp_state_machine_ p' = rp_state_machine_ p;
  sd_applied : rp_applied_index_ p' = rp_applied_index_ p;
  sd_book : rp_wal_storage_ p' = rp_wal_storage_ p
}.

#[export] Instance side_preorder : PreOrder side.
Proof. split; [by constructor|]. intros p1 p2 p3 [] []. constructor; congruence. Qed.

Ltac side_leaf := first [apply pres_modify; by constructor | apply pres_zoom; by constructor].

Lemma fail_ctx_side ctx e : pres side (fail_ctx ctx e).
Proof. unfold fail_ctx, on_proposals. pres_tac side_leaf. Qed.

Lemma complete_ctx_side ctx r : pres side (complete_ctx ctx r).
Proof. unfold complete_ctx, on_proposals. pres_tac side_leaf. Qed.

Lemma transport_side c : pres side (transport c).
Proof. unfold transport. side_leaf. Qed.

Lemma SendMessages_side ms : pres side (SendMessages ms).
Proof. unfold SendMessages. pres_tac ltac:(apply transport_side). Qed.

Lemma VerifyEntryChecksum_side e : pres side (VerifyEntryChecksum e).
Proof. unfold VerifyEntryChecksum, rok, rfail. pres_tac ltac:(apply fail_ctx_side). Qed.

Lemma ValidateReadyEntries_side es : pres side (ValidateReadyEntries es).
Proof.
  unfold ValidateReadyEntries, rok. pres_tac ltac:(apply pres_foreachM; [typeclasses eauto|intros ?; apply VerifyEntryChecksum_side]).
Qed.

Lemma remove_completed_side a pending : pres side (remove_completed a pending).
Proof.
  induction pending as [|r pending IH]; cbn [remove_completed]; unfold on_proposals; pres_tac ltac:(first [apply IH | side_leaf]).
Qed.

Lemma MaybeCompletePendingReads_side : pres side MaybeCompletePendingReads.
Proof. unfold MaybeCompletePendingReads. pres_tac ltac:(first [apply remove_completed_side | side_leaf]). Qed.

Lemma EnqueueReadStates_side rs : pres side (EnqueueReadStates rs).
Proof. unfold EnqueueReadStates. pres_tac ltac:(first [apply MaybeCompletePendingReads_side | side_leaf]). Qed.

(** ** Steps that leave the log of the node alone *)

Record calmed n n' : Prop := {
  cl_ok : node_ok 0 (raft_ n');
  cl_moves : node_moves 0 (raft_ n) (raft_ n');
  cl_still : still (raft_ n) (raft_ n');
  cl_records : records_ n' = records_ n;
  cl_number : max_number_ n' = max_number_ n;
  cl_since : commit_since_index_ n' = commit_since_index_ n
}.

Definition calm n n' : Prop :=
  node_ok 0 (raft_ n) -> 0 < v_last (log_view (raft_log_ (raft_ n))) -> calmed n n'.

Lemma calmed_refl n : node_ok 0 (raft_ n) -> calmed n n.
Proof. intros Hok. constructor; try done. apply node_moves_refl. Qed.

Lemma calmed_trans n1 n2 n3 : calmed n1 n2 -> calmed n2 n3 -> calmed n1 n3.
Proof.
  intros [O1 M1 S1 R1 N1 C1] [O2 M2 S2 R2 N2 C2]. constructor; try congruence.
  - exact (node_moves_trans 0 0 _ _ _ M1 M2).
  - etransitivity; done.
Qed.

#[export] Instance calm_preorder : PreOrder calm.
Proof.
  split; [intros n Hok _; by apply calmed_refl|]. intros n1 n2 n3 H1 H2 Hok Hl. pose proof (H1 Hok Hl) as C1.
  eapply calmed_trans; [exact C1|]. apply H2; [apply C1|]. by rewrite (quiet_view _ _ (cl_still _ _ C1)) by apply Hok.
Qed.

Definition book_fine p : Prop := match rp_wal_storage_ p with Some b => book_ok b | None => True end.

(** A step that leaves the log and the state machine alone. *)
Record eased p p' : Prop := {
  ea_node : calm (nd p) (nd p');
  ea_machine : rp_state_machine_ p' = rp_state_machine_ p;
  ea_applied : rp_applied_index_ p' = rp_applied_index_ p;
  ea_book : rp_wal_storage_ p' = rp_wal_storage_ p
}.

Definition easy p p' : Prop := book_fine p -> eased p p'.

#[export] Instance easy_preorder : PreOrder easy.
Proof.
  split; [intros p _; constructor; (done || reflexivity)|]. intros p1 p2 p3 H1 H2 Hb. destruct (H1 Hb) as [C1 M1 A1 B1].
  destruct H2 as [C2 M2 A2 B2]; [unfold book_fine in *; by rewrite B1|]. constructor; try congruence. etransitivity; done.
Qed.

Lemma side_easy p p' : side p p' -> easy p p'.
Proof. intros [En Em Ea Eb] _. constructor; try done. rewrite En. reflexivity. Qed.

Lemma pres_side_easy {A} (m : M (ReadyProcessor S T) A) : pres side m -> pres easy m.
Proof. intros H p a p' E. by eapply side_easy, H. Qed.

(** ** Writes of the storage *)

(** A write that leaves the stored log as it is. *)
Definition keeps_view {A} (m : M S A) : Prop :=
  forall s a s', st_inv s -> m s = Ret (a, s') -> st_inv s' /\ st_view s' = st_view s.

(** The node with another storage. *)
Definition with_store n (s : S) : RawNode S :=
  n <| raft_ := (raft_ n) <| core_ := (core_ (raft_ n)) <| raft_log_ := (raft_log_ (raft_ n)) <| store_ := s |> |> |> |>.

Lemma on_storage_Ret {A} (m : M S A) p a p' : on_storage m p = Ret (a, p') ->
  exists s', m (store_ (lg p)) = Ret (a, s') /\ p' = p <| rp_raw_node_ := with_store (nd p) s' |>.
Proof.
  unfold on_storage, on_node, on_raft, on_log, on_store. intros E. repeat (apply zoom_Ret in E as (? & ? & E & [= -> ->])). eauto.
Qed.

Lemma store_reads l s' : st_inv s' -> st_view s' = st_view (store_ l) -> reads l (l <| store_ := s' |>).
Proof.
  intros Hi Hv W. assert (Hs : same_log l (l <| store_ := s' |>)) by done. split; [done|]. by apply (same_log_wf l).
Qed.

Lemma with_store_calm n s' : st_inv s' -> st_view s' = st_view (store_ (raft_log_ (raft_ n))) -> calm n (with_store n s').
Proof.
  intros Hi Hv Hok _. pose proof (store_reads _ _ Hi Hv) as Hr.
  destruct (up_log (raft_ n) _ (log_up_reads _ _ Hr) Hok) as [Hok' Mv]. pose proof (ok_log _ _ Hok) as [W _].
  destruct (Hr W) as [Hs W']. constructor; done.
Qed.

Lemma on_storage_easy {A} (m : M S A) : keeps_view m -> pres easy (on_storage m).
Proof.
  intros Hm p a p' E Hb. apply on_storage_Ret in E as (s' & E & ->). constructor; try done. cbn. intros Hok Hl.
  pose proof (ok_log _ _ Hok) as [W _]. destruct (Hm _ _ _ (lw_store _ W) E) as [Hi Hv]. by apply with_store_calm.
Qed.

Lemma on_book_easy (f : AddressBook S -> M S (Result unit)) : (forall b, book_ok b -> keeps_view (f b)) -> pres easy (on_book f).
Proof.
  intros Hf p a p' E Hb. unfold on_book in E. rewrite bind_get in E. pose proof Hb as Hb'. unfold book_fine in Hb'.
  destruct (rp_wal_storage_ p) as [b|]; [|injection E as _ <-; by apply easy_preorder].
  revert Hb. revert E. apply on_storage_easy. by apply Hf.
Qed.

Lemma upsert_keeps b id addr : book_ok b -> keeps_view (ab_Upsert b id addr).
Proof. intros [H _] s a s'. apply H. Qed.

Lemma remove_keeps b id : book_ok b -> keeps_view (ab_Remove b id).
Proof. intros [_ H] s a s'. apply H. Qed.

(** ** Applying entries *)

Lemma update_peer_easy ctx change : pres easy (update_peer ctx change).
Proof.
  unfold update_peer, mrbind, rok.
  pres_tac ltac:(first [ apply on_book_easy; intros ? ?; first [by apply upsert_keeps | by apply remove_keeps]
                       | apply pres_side_easy, transport_side ]).
Qed.

Lemma ApplyConfChange_calm cc : pres easy (on_node (RawNode.ApplyConfChange cc)).
Proof.
  intros p a p' E _. unfold on_node, RawNode.ApplyConfChange, on_raft in E. apply zoom_Ret in E as (? & n' & E & [= -> ->]).
  apply zoom_Ret in E as (? & r' & E & [= -> ->]). constructor; try done. cbn. intros Hok Hl.
  destruct (ApplyConfChange_up cc _ Hl _ _ E Hok) as [Hok' Mv]. constructor; try done. by apply (ApplyConfChange_still _ _ _ _ E).
Qed.

Lemma apply_conf_change_easy e : pres easy (apply_conf_change e).
Proof.
  unfold apply_conf_change, mrbind, rok, rfail.
  pres_tac ltac:(first [ apply ApplyConfChange_calm
    | apply on_storage_easy; intros ? ? ?; apply wl_conf_state
    | apply pres_foreachM; [typeclasses eauto|intros ?; apply update_peer_easy]
    | apply pres_side_easy, complete_ctx_side ]).
Qed.

Lemma apply_metadata_change_easy e : pres easy (apply_metadata_change e).
Proof.
  unfold apply_metadata_change, mrbind, rok, rfail.
  pres_tac ltac:(first [ apply on_book_easy; intros ? ?; by apply upsert_keeps
    | apply pres_side_easy; first [apply transport_side | apply complete_ctx_side | apply fail_ctx_side] ]).
Qed.

(** The state machine is called for an entry with a payload. *)
Record applied_one (e : Entry) p p' : Prop := {
  ao_node : calm (nd p) (nd p');
  ao_applied : rp_applied_index_ p' = rp_applied_index_ p;
  ao_book : rp_wal_storage_ p' = rp_wal_storage_ p;
  ao_machine : sm_runs (applies [e]) (rp_state_machine_ p) (rp_state_machine_ p')
}.

Lemma eased_applied e p p' : payload e = false -> eased p p' -> applied_one e p p'.
Proof. intros Hp [C M A B]. constructor; try done. unfold applies. rewrite filter_cons_False by congruence. done. Qed.

Lemma apply_normal_run e p r p' : payload e = negb ((slen (e_data e) =? 0) && (slen (e_context e) =? 0)) ->
  apply_normal e p = Ret (r, p') -> applied_one e p p'.
Proof.
  intros Hp E. unfold apply_normal in E. destruct (_ && _) eqn:Eb.
  - injection E as _ <-. apply eased_applied; [by rewrite Hp|]. constructor; (done || reflexivity).
  - apply bind_Ret in E as (res & p1 & E1 & E). unfold on_machine in E1. apply zoom_Ret in E1 as (? & t1 & E1 & [= -> ->]).
    assert (Hs : side (p <| rp_state_machine_ := t1 |>) p').
    { destruct x as [resp|err]; apply bind_Ret in E as (? & p2 & E2 & E); injection E as _ <-;
        [by eapply complete_ctx_side|by eapply fail_ctx_side]. }
    destruct Hs as [En Em Ea Ebk]. constructor; try done; [rewrite En; reflexivity|]. rewrite Em. unfold applies.
    rewrite filter_cons_True by (by rewrite Hp). cbn. exists t1. split; [by exists x|done].
Qed.

Lemma ApplyEntry_run e p r p' : book_fine p -> ApplyEntry e p = Ret (r, p') ->
  (forall err, r = Err err -> IsFatalApplyError err = false) -> applied_one e p p'.
Proof.
  intros Hb E Hr. unfold ApplyEntry in E. rewrite bind_get in E. unfold mrbind in E. apply bind_Ret in E as (v & p1 & E1 & E).
  assert (Hs : side p p1) by (destruct (rp_checksum_enabled_ p); [by eapply VerifyEntryChecksum_side|by injection E1 as _ <-]).
  destruct v as [[]|err].
  2:{ injection E as <- <-. assert (err = ERaft ChecksumMismatch) as ->; [|by specialize (Hr _ eq_refl)].
      destruct (rp_checksum_enabled_ p); [|by injection E1]. unfold VerifyEntryChecksum in E1.
      destruct (IsChecksumExemptEntry e); [by injection E1|]. destruct (IsMetadataProposalContext _); [by injection E1|].
      destruct (_ =? _); [by injection E1|]. apply bind_Ret in E1 as (? & p2 & _ & E1). by injection E1 as <- _. }
  pose proof Hs as [En Em Ea Ebk]. assert (Hb1 : book_fine p1) by (unfold book_fine; by rewrite Ebk).
  assert (Ho : applied_one e p1 p').
  { destruct (e_type e) eqn:Et.
    - destruct (IsMetadataProposalContext (e_context e)) eqn:Em'.
      + apply eased_applied; [unfold payload; rewrite Et, Em'; by rewrite bool_decide_true|]. by eapply apply_metadata_change_easy.
      + eapply apply_normal_run; [|exact E]. unfold payload. rewrite Et, Em'. by rewrite bool_decide_true.
    - apply eased_applied; [unfold payload; by rewrite Et|]. by eapply apply_conf_change_easy.
    - apply eased_applied; [unfold payload; by rewrite Et|]. by eapply apply_conf_change_easy. }
  destruct Ho as [Hn Ha Hbk Hm]. rewrite En in Hn. rewrite Em in Hm. constructor; try congruence; done.
Qed.

(** What a batch of committed entries does. *)
Record applied_all (es : list Entry) p p' : Prop := {
  aa_node : es = [] /\ nd p' = nd p \/ calm (nd p) (nd p');
  aa_applied : rp_applied_index_ p' = rp_applied_index_ p + zlen es;
  aa_book : rp_wal_storage_ p' = rp_wal_storage_ p;
  aa_machine : sm_runs (applies es) (rp_state_machine_ p) (rp_state_machine_ p')
}.

Lemma apply_entries_run es p p' : book_fine p -> contiguous (rp_applied_index_ p + 1) es ->
  apply_entries es p = Ret (Ok tt, p') -> applied_all es p p'.
Proof.
  revert p. induction es as [|e es IH]; intros p Hb Hc E; cbn [apply_entries] in E.
  { injection E as <-. constructor; try done; [by left|cbn; lia]. }
  destruct Hc as [He Hc]. apply bind_Ret in E as (r & p1 & E1 & E).
  assert (Hr : forall err, r = Err err -> IsFatalApplyError err = false).
  { intros err ->. destruct (IsFatalApplyError err); [done|done]. }
  destruct (ApplyEntry_run _ _ _ _ Hb E1 Hr) as [N1 A1 B1 M1].
  set (p2 := p1 <| rp_applied_index_ := e_index e |>).
  assert (E2 : apply_entries es p2 = Ret (Ok tt, p')) by (destruct r as [?|err]; [exact E|]; rewrite (Hr _ eq_refl) in E; exact E).
  destruct (IH p2) as [N2 A2 B2 M2].
  - unfold book_fine in *. cbn. by rewrite B1.
  - cbn. by rewrite He.
  - exact E2.
  - cbn in N2, A2, B2, M2. constructor.
    + right. destruct N2 as [[_ ->]|N2]; [done|]. etransitivity; done.
    + rewrite A2, He. cbn [length]. lia.
    + congruence.
    + change (e :: es) with ([e] ++ es). rewrite applies_app. by eapply sm_runs_app.
Qed.

(** ** Persisting *)

(** The unstable part is a snapshot or entries, not a snapshot with entries
    behind it. *)
Definition clean l : Prop :=
  forall s, snapshot_ (unstable_ l) = Some s -> 0 < sn_index s /\ entries_ (unstable_ l) = [].

(** The node as [n], with a storage that holds the same log. *)
Record rewritten n n' : Prop := {
  rw_store : exists s', n' = with_store n s';
  rw_wf : log_wf (raft_log_ (raft_ n'));
  rw_view : log_view (raft_log_ (raft_ n')) = log_view (raft_log_ (raft_ n))
}.

Lemma rewritten_refl n : log_wf (raft_log_ (raft_ n)) -> rewritten n n.
Proof. intros W. constructor; try done. exists (store_ (raft_log_ (raft_ n))). destruct n as [[[]]]. by match goal with x : RaftLog S |- _ => destruct x end. Qed.

Lemma rewritten_trans n1 n2 n3 : rewritten n1 n2 -> rewritten n2 n3 -> rewritten n1 n3.
Proof. intros [[s2 ->] W2 V2] [[s3 ->] W3 V3]. constructor; [by exists s3|done|]. by rewrite V3. Qed.

Lemma with_store_wf l s' : log_wf l -> st_inv s' ->
  (snapshot_ (unstable_ l) = None -> v_dummy (st_view s') < offset_ (unstable_ l) <= v_last (st_view s') + 1) ->
  (snapshot_ (unstable_ l) = None -> entries_ (unstable_ l) = [] -> offset_ (unstable_ l) = v_last (st_view s') + 1) ->
  log_wf (l <| store_ := s' |>).
Proof. intros W Hi Ho He. constructor; cbn; try done. apply W. Qed.

Lemma rewritten_ok k n n' : rewritten n n' -> node_ok k (raft_ n) -> node_ok k (raft_ n').
Proof.
  intros [[s' ->] W' V'] [[W [C1 C2 C3]] Ht Htr Hlr Hp Hcf Hrg Hto]. constructor; try done.
  - split; [done|]. constructor; rewrite ?V'; done.
  - by rewrite V'.
Qed.

Lemma store_rewritten n s' : log_wf (raft_log_ (raft_ n)) -> st_inv s' -> st_view s' = st_view (store_ (raft_log_ (raft_ n))) ->
  rewritten n (with_store n s').
Proof.
  intros W Hi Hv. destruct (store_reads _ _ Hi Hv W) as [Hs W']. constructor; [by exists s'|done|]. by apply (same_log_view _ _ Hs).
Qed.

Lemma or_dropped_Ok m p p' : or_dropped (S := S) (T := T) m p = Ret (Ok tt, p') -> m p = Ret (Ok tt, p').
Proof.
  unfold or_dropped. intros E. apply bind_Ret in E as (r & p1 & E1 & E). destruct r as [[]|]; [|done]. by injection E as <-.
Qed.

(** Entries of the unstable part, written behind what the storage keeps. *)
Lemma append_view l e rest s' : log_wf l -> snapshot_ (unstable_ l) = None -> entries_ (unstable_ l) = e :: rest ->
  wr_Append (e :: rest) (store_ l) = Ret (Ok tt, s') ->
  log_wf (l <| store_ := s' |>) /\ log_view (l <| store_ := s' |>) = log_view l /\ stored (l <| store_ := s' |>).
Proof.
  intros W Es Ee E. pose proof (st_bounds l W) as Hb. pose proof (lw_unstable l W) as [Ho Hu Hc _ _]. pose proof (lw_offset l W Es) as Hoff.
  rewrite Ee in *. pose proof (proj1 Hc) as He.
  destruct (wl_append (store_ l) e rest s') as (Hin & Hi & Hv); [apply W|by rewrite He|lia|lia|done|]. rewrite He in *.
  assert (Ev : log_view (l <| store_ := s' |>) = st_view s').
  { unfold log_view. cbn. rewrite Es, Ee, Hv. cbn. f_equal. rewrite take_app_le, take_take, Nat.min_id; [done|].
    rewrite length_take. unfold v_last in *. lia. }
  assert (El : log_view l = st_view s') by (unfold log_view; rewrite Es, Ee, Hv; done).
  split; [|split; [by rewrite Ev, El|by unfold stored]]. apply with_store_wf; [done|done| |by rewrite Ee].
  intros _. rewrite Hv. rewrite v_replace_last by lia. cbn. lia.
Qed.

Lemma stored_empty l : log_wf l -> snapshot_ (unstable_ l) = None -> entries_ (unstable_ l) = [] -> stored l.
Proof.
  intros W Es Ee. pose proof (lw_empty l W Es Ee) as Eo. unfold stored, log_view. rewrite Es, Ee, app_nil_r, Eo.
  rewrite take_ge; [by destruct (st_view (store_ l))|]. unfold v_last. lia.
Qed.

Lemma PersistEntries_run rd p p' : log_wf (lg p) -> clean (lg p) -> rd_entries rd = entries_ (unstable_ (lg p)) ->
  PersistEntries rd p = Ret (Ok tt, p') ->
  rewritten (nd p) (nd p') /\ side (p <| rp_raw_node_ := nd p' |>) p' /\
  (snapshot_ (unstable_ (lg p)) = None -> stored (lg p')).
Proof.
  intros W Hcl Erd E. unfold PersistEntries in E. rewrite Erd in E. destruct (entries_ (unstable_ (lg p))) as [|e rest] eqn:Ee.
  - injection E as <-. split; [by apply rewritten_refl|]. split; [done|]. intros Es. by apply stored_empty.
  - rewrite bool_decide_false in E by done. apply or_dropped_Ok, on_storage_Ret in E as (s' & E & ->).
    destruct (snapshot_ (unstable_ (lg p))) as [s|] eqn:Es; [destruct (Hcl s Es); congruence|].
    destruct (append_view _ _ _ _ W Es Ee E) as (W' & V' & Hs). split; [|done]. constructor; [by exists s'|done|done].
Qed.

Lemma PersistHardState_run rd p p' : log_wf (lg p) -> (forall hs, rd_hs rd = Some hs -> is_u64 (hs_commit hs)) ->
  PersistHardState rd p = Ret (Ok tt, p') ->
  rewritten (nd p) (nd p') /\ st_view (store_ (lg p')) = st_view (store_ (lg p)) /\ side (p <| rp_raw_node_ := nd p' |>) p' /\
  (forall hs, rd_hs rd = Some hs -> stored_hs (store_ (lg p')) = Some hs).
Proof.
  intros W Hhs E. unfold PersistHardState in E. destruct (rd_hs rd) as [hs|]; [|injection E as <-; split; [by apply rewritten_refl|done]].
  unfold mrbind in E. apply bind_Ret in E as (r & p1 & E1 & E). destruct r as [[]|]; [|done]. apply or_dropped_Ok in E1.
  assert (H1 : rewritten (nd p) (nd p1) /\ st_view (store_ (lg p1)) = st_view (store_ (lg p)) /\ side (p <| rp_raw_node_ := nd p1 |>) p1 /\
    stored_hs (store_ (lg p1)) = Some hs).
  { apply on_storage_Ret in E1 as (s' & E1 & ->). destruct (wl_hard_state _ _ _ (lw_store _ W) (Hhs _ eq_refl) E1) as (Hi & Hv & Hh).
    split; [by apply store_rewritten|done]. }
  destruct H1 as (R1 & V1 & S1 & H1). destruct (rd_must_sync rd); [|injection E as <-; do 3 (split; [done|]); congruence].
  apply or_dropped_Ok, on_storage_Ret in E as (s' & E & ->). destruct (wl_sync _ _ (lw_store _ (rw_wf _ _ R1)) E) as (Hi & Hv & Hh).
  split; [eapply rewritten_trans; [exact R1|]; by apply store_rewritten; [apply R1|..]|]. split; [cbn; congruence|].
  split; [destruct S1; by constructor|]. intros hs' [= <-]. cbn. congruence.
Qed.

(** The stored hard state has the vote of [hs], in its term or a later one. *)
Definition hs_kept (hs : HardState) (s : S) : Prop :=
  exists hs', stored_hs s = Some hs' /\ hs_vote hs' = hs_vote hs /\ hs_term hs <= hs_term hs'.

Definition restore_calls (s : option Snapshot) : list SmCall := match s with Some s => [CallRestore s] | None => [] end.

(** A snapshot that is there: the state machine is restored, then the storage
    takes the snapshot. *)
Lemma ApplySnapshot_steps rd p p' : sn_index (rd_snapshot rd) <> 0 -> ApplySnapshot rd p = Ret (Ok tt, p') ->
  exists t1 s', sm_step (CallRestore (rd_snapshot rd)) (rp_state_machine_ p) t1 /\
    wr_ApplySnapshot (rd_snapshot rd) (store_ (lg p)) = Ret (Ok tt, s') /\
    side (p <| rp_state_machine_ := t1 |> <| rp_raw_node_ := with_store (nd p) s' |> <| rp_applied_index_ := sn_index (rd_snapshot rd) |>) p'.
Proof.
  intros Hn E. unfold ApplySnapshot in E. cbv zeta in E. rewrite (proj2 (Z.eqb_neq _ _)) in E by done. unfold mrbind in E.
  apply bind_Ret in E as (r & p1 & E1 & E). destruct r as [[]|]; [|done].
  unfold restore_machine in E1. apply zoom_Ret in E1 as (? & [t1 reader] & E1 & [= <- ->]).
  apply bind_Ret in E as (r & p2 & E2 & E). destruct r as [[]|]; [|done]. apply or_dropped_Ok, on_storage_Ret in E2 as (s' & E2 & ->).
  rewrite bind_modify in E. apply bind_Ret in E as (? & p3 & E3 & E). injection E as <-. apply MaybeCompletePendingReads_side in E3.
  exists t1, s'. split; [by exists reader|]. split; [exact E2|exact E3].
Qed.

(** The hard state of a [Ready] in the storage: a snapshot may raise its term
    and its commit index. *)
Definition hs_durable (o : option Snapshot) (hs : HardState) (s : S) : Prop :=
  hs_kept hs s /\ (o = None -> stored_hs s = Some hs).

Lemma ApplySnapshot_run rd p p' : log_wf (lg p) -> clean (lg p) ->
  rd_snapshot rd = default empty_snapshot (snapshot_ (unstable_ (lg p))) ->
  (snapshot_ (unstable_ (lg p)) = None -> stored (lg p)) -> ApplySnapshot rd p = Ret (Ok tt, p') ->
  rewritten (nd p) (nd p') /\ stored (lg p') /\ rp_wal_storage_ p' = rp_wal_storage_ p /\
  rp_applied_index_ p' = match snapshot_ (unstable_ (lg p)) with Some s => sn_index s | None => rp_applied_index_ p end /\
  sm_runs (restore_calls (snapshot_ (unstable_ (lg p)))) (rp_state_machine_ p) (rp_state_machine_ p') /\
  (forall hs, stored_hs (store_ (lg p)) = Some hs -> hs_durable (snapshot_ (unstable_ (lg p))) hs (store_ (lg p'))).
Proof.
  intros W Hcl Erd Hst E. destruct (snapshot_ (unstable_ (lg p))) as [s|] eqn:Es; cbn [from_option id] in Erd.
  2:{ unfold ApplySnapshot in E. rewrite Erd in E. injection E as <-. split; [by apply rewritten_refl|].
      do 4 (split; [first [done|by apply Hst]|]). intros hs Hh. split; [by exists hs|done]. }
  destruct (Hcl s Es) as [Hpos Ee]. apply ApplySnapshot_steps in E as (t1 & s' & E1 & E2 & [En Em Ea Eb]); rewrite Erd in *; [|lia].
  pose proof (lw_unstable _ W) as [Ho Hu Hc Hsn Hz]. specialize (Hsn s Es).
  destruct (wl_snapshot _ s s' (lw_store _ W) ltac:(lia) E2) as (Hi & Hv & Hh). rewrite En, Em, Ea, Eb. cbn.
  assert (Ev : log_view ((lg p) <| store_ := s' |>) = log_view (lg p)) by by rewrite !(log_view_snapshot _ s).
  assert (Esv : st_view s' = log_view (lg p)) by (rewrite (log_view_snapshot _ s Es), Ee; exact Hv).
  split; [|split; [unfold stored; cbn; congruence|split; [done|split; [done|split]]]].
  - constructor; [by exists s'|apply with_store_wf; [done|done|congruence|congruence]|done].
  - by exists t1.
  - intros hs Hs. split; [by apply Hh|done].
Qed.

Lemma CheckLeadershipChange_run rd p x p' : CheckLeadershipChange rd p = Ret (x, p') ->
  nd p' = nd p /\ rp_applied_index_ p' = rp_applied_index_ p /\ rp_wal_storage_ p' = rp_wal_storage_ p /\
  exists lead, Forall (fun c => exists b t i, c = CallLeadership b t i) lead /\
    sm_runs lead (rp_state_machine_ p) (rp_state_machine_ p').
Proof.
  unfold CheckLeadershipChange. destruct (rd_ss rd) as [ss|]; intros E.
  2:{ injection E as _ <-. repeat (split; [done|]). by exists []. }
  rewrite bind_get in E. cbv zeta in E. apply bind_Ret in E as (? & p1 & E1 & E). rewrite !bind_modify in E.
  assert (Hs : side p1 p').
  { destruct (rd_hs rd); injection E as _ <-; by constructor. }
  clear E. destruct Hs as [En Em Ea Eb]. rewrite En, Em, Ea, Eb. unfold when in E1. destruct (_ || _).
  2:{ injection E1 as _ <-. repeat (split; [done|]). by exists []. }
  apply bind_Ret in E1 as ([] & p2 & E2 & E1). unfold on_machine in E2. apply zoom_Ret in E2 as ([] & t2 & E2 & [= ->]).
  assert (Hs2 : side (p <| rp_state_machine_ := t2 |>) p1).
  { destruct (_ && _); [|by injection E1 as _ <-]. revert E1. generalize (p <| rp_state_machine_ := t2 |>). intros q E1.
    refine (pres_bind side _ _ _ _ _ _ _ E1); [|intros ?]; unfold on_proposals; apply pres_zoom; by constructor. }
  destruct Hs2 as [En2 Em2 Ea2 Eb2]. rewrite En2, Em2, Ea2, Eb2. repeat (split; [done|]).
  eexists [_]. split; [apply Forall_singleton; by eexists _, _, _|]. exists t2. split; [exact E2|done].
Qed.

(** ** One round of [Process] *)

Lemma apply_hands c es p p' : node_ok 0 (raft_ (nd p)) -> book_fine p ->
  v_dummy (log_view (lg p)) <= rp_applied_index_ p -> c <= committed_ (lg p) ->
  hands (log_view (lg p)) (rp_applied_index_ p) c es -> apply_entries es p = Ret (Ok tt, p') ->
  calmed (nd p) (nd p') /\ rp_applied_index_ p' = c /\ rp_wal_storage_ p' = rp_wal_storage_ p /\
  sm_runs (applies es) (rp_state_machine_ p) (rp_state_machine_ p').
Proof.
  intros Hok Hb Hd Hc [Hle Hes] E. pose proof (ok_log _ _ Hok) as [W [Hcm _ _]]. pose proof (view_bounds _ W) as Hvb.
  assert (Hlen : zlen es = c - rp_applied_index_ p).
  { rewrite Hes. rewrite v_slice_length by lia. lia. }
  destruct (apply_entries_run es p p' Hb) as [Hn Ha Hbk Hm]; [|done|].
  { rewrite Hes. apply v_slice_contiguous; [by apply log_view_wf|lia]. }
  split; [|split; [lia|done]]. destruct Hn as [[_ ->]|Hn]; [by apply calmed_refl|].
  destruct (decide (c = rp_applied_index_ p)) as [->|Hne].
  - assert (es = []) as -> by (apply nil_length_inv; lia). cbn in E. injection E as <-. by apply calmed_refl.
  - apply Hn; [done|lia].
Qed.

(** The driver between two rounds: nothing is on its way, and what was handed
    out is what was applied. *)
Record rp_ok (k : Z) p : Prop := {
  ro_node : node_ok k (raft_ (nd p));
  ro_records : records_ (nd p) = [];
  ro_since : commit_since_index_ (nd p) = rp_applied_index_ p;
  ro_committed : v_dummy (st_view (store_ (lg p))) <= rp_applied_index_ p <= committed_ (lg p);
  ro_book : book_fine p
}.

(** Everything the messages of a [Ready] speak of is in the storage before
    they are sent. *)
Lemma persist_ready_run rd p p' : log_wf (lg p) -> clean (lg p) -> rd_entries rd = entries_ (unstable_ (lg p)) ->
  rd_snapshot rd = default empty_snapshot (snapshot_ (unstable_ (lg p))) ->
  (forall hs, rd_hs rd = Some hs -> is_u64 (hs_commit hs)) -> persist_ready rd p = Ret (Ok tt, p') ->
  rewritten (nd p) (nd p') /\ stored (lg p') /\ rp_wal_storage_ p' = rp_wal_storage_ p /\
  rp_applied_index_ p' = match snapshot_ (unstable_ (lg p)) with Some s => sn_index s | None => rp_applied_index_ p end /\
  sm_runs (restore_calls (snapshot_ (unstable_ (lg p)))) (rp_state_machine_ p) (rp_state_machine_ p') /\
  (forall hs, rd_hs rd = Some hs -> hs_durable (snapshot_ (unstable_ (lg p))) hs (store_ (lg p'))).
Proof.
  intros W Hcl Ee Es Hh E. unfold persist_ready, mrbind in E. apply bind_Ret in E as (r & p1 & E1 & E). destruct r as [[]|]; [|done].
  destruct (PersistEntries_run _ _ _ W Hcl Ee E1) as (R1 & [En1 Em1 Ea1 Eb1] & St1). cbn in Em1, Ea1, Eb1.
  assert (Eu1 : unstable_ (lg p1) = unstable_ (lg p)) by (by destruct (rw_store _ _ R1) as [s ->]).
  apply bind_Ret in E as (r & p2 & E2 & E). destruct r as [[]|]; [|done].
  destruct (PersistHardState_run _ _ _ (rw_wf _ _ R1) Hh E2) as (R2 & V2 & [En2 Em2 Ea2 Eb2] & Hs2). cbn in Em2, Ea2, Eb2.
  assert (Eu2 : unstable_ (lg p2) = unstable_ (lg p)) by (destruct (rw_store _ _ R2) as [s ->]; exact Eu1).
  assert (St2 : snapshot_ (unstable_ (lg p)) = None -> stored (lg p2)).
  { intros Hn. unfold stored. rewrite V2, (rw_view _ _ R2). by apply St1. }
  destruct (ApplySnapshot_run rd p2 p' (rw_wf _ _ R2)) as (R3 & St3 & Eb3 & Ea3 & M3 & H3); rewrite ?Eu2; try done.
  { unfold clean. by rewrite Eu2. }
  rewrite Eu2, ?Ea2, ?Ea1, ?Em2, ?Em1 in *. split; [|split; [done|split; [congruence|split; [done|split; [done|auto]]]]].
  eapply rewritten_trans; [exact R1|]. by eapply rewritten_trans.
Qed.

(** The same writes when the [Ready] has a snapshot: it is the last of them,
    and the storage holds nothing else. *)
Lemma persist_snapshot rd p p' s : log_wf (lg p) -> rd_entries rd = entries_ (unstable_ (lg p)) -> rd_snapshot rd = s ->
  snapshot_ (unstable_ (lg p)) = Some s -> 0 < sn_index s -> (forall hs, rd_hs rd = Some hs -> is_u64 (hs_commit hs)) ->
  persist_ready rd p = Ret (Ok tt, p') -> st_view (store_ (lg p')) = mkView (sn_index s) (Some (sn_term s)) [].
Proof.
  intros W Ee Ers Es Hpos Hh E. unfold persist_ready, mrbind in E. apply bind_Ret in E as (r & p1 & E1 & E). destruct r as [[]|]; [|done].
  pose proof (lw_unstable _ W) as [Ho Hu Hc Hsn Hz]. specialize (Hsn s Es).
  assert (I1 : st_inv (store_ (lg p1))).
  { unfold PersistEntries in E1. rewrite Ee in E1. destruct (entries_ (unstable_ (lg p))) as [|e rest]; [injection E1 as <-; apply W|].
    rewrite bool_decide_false in E1 by done. apply or_dropped_Ok, on_storage_Ret in E1 as (s' & E1 & ->). pose proof (proj1 Hc) as He.
    apply (wl_append (store_ (lg p)) e rest s'); [apply W|by rewrite He|lia|lia|done]. }
  apply bind_Ret in E as (r & p2 & E2 & E). destruct r as [[]|]; [|done].
  assert (I2 : st_inv (store_ (lg p2))).
  { unfold PersistHardState in E2. destruct (rd_hs rd) as [hs|]; [|by injection E2 as <-]. unfold mrbind in E2.
    apply bind_Ret in E2 as (r & q & E2 & Eq). destruct r as [[]|]; [|done]. apply or_dropped_Ok, on_storage_Ret in E2 as (s' & E2 & ->).
    apply wl_hard_state in E2 as (I & _ & _); [|done|by apply Hh]. destruct (rd_must_sync rd); [|by injection Eq as <-].
    apply or_dropped_Ok, on_storage_Ret in Eq as (s2 & E2 & ->). by apply wl_sync in E2 as (? & _). }
  apply ApplySnapshot_steps in E as (t1 & s' & _ & E & [En _ _ _]); rewrite Ers in *; [|lia].
  apply wl_snapshot in E as (_ & Hv & _); [|done|lia]. rewrite En. exact Hv.
Qed.

Lemma side_frame p p' : side p p' -> nd p' = nd p /\ rp_applied_index_ p' = rp_applied_index_ p /\
  rp_wal_storage_ p' = rp_wal_storage_ p /\ rp_state_machine_ p' = rp_state_machine_ p.
Proof. by intros []. Qed.

Lemma book_same p p' : rp_wal_storage_ p' = rp_wal_storage_ p -> book_fine p -> book_fine p'.
Proof. intros E. unfold book_fine. by rewrite E. Qed.

(** The second half of a round, once the node took the [Ready] back. *)
Lemma ProcessLightReady_run light p p' : node_ok 1 (raft_ (nd p)) -> book_fine p -> records_ (nd p) = [] ->
  v_dummy (log_view (lg p)) <= rp_applied_index_ p -> commit_since_index_ (nd p) <= committed_ (lg p) ->
  hands (log_view (lg p)) (rp_applied_index_ p) (commit_since_index_ (nd p)) (lr_committed_entries light) ->
  ProcessLightReady light p = Ret (Ok tt, p') ->
  node_ok 0 (raft_ (nd p')) /\ node_moves 1 (raft_ (nd p)) (raft_ (nd p')) /\ records_ (nd p') = [] /\
  commit_since_index_ (nd p') = commit_since_index_ (nd p) /\ rp_applied_index_ p' = commit_since_index_ (nd p) /\ book_fine p' /\
  sm_runs (applies (lr_committed_entries light)) (rp_state_machine_ p) (rp_state_machine_ p').
Proof.
  intros Hok Hb Hrec Hd Hc Hh E. assert (Hok0 : node_ok 0 (raft_ (nd p))) by (eapply node_ok_weaken; [|exact Hok]; lia).
  unfold ProcessLightReady in E. apply bind_Ret in E as (? & p1 & E1 & E). apply SendMessages_side, side_frame in E1 as (En1 & Ea1 & Eb1 & Em1).
  apply bind_Ret in E as (r & p2 & E2 & E). destruct r as [[]|e]; [|apply bind_Ret in E as (? & ? & _ & E); by apply bind_Ret in E as (? & ? & _ & E)].
  destruct (apply_hands (commit_since_index_ (nd p)) (lr_committed_entries light) p1 p2) as ([O2 M2 S2 R2 N2 C2] & Ea2 & Eb2 & Em2); rewrite ?En1, ?Ea1; try done.
  { by eapply book_same. }
  apply bind_Ret in E as (? & p3 & E3 & E). apply MaybeCompletePendingReads_side, side_frame in E3 as (En3 & Ea3 & Eb3 & Em3).
  rewrite En1 in *. rewrite Em1 in Em2. apply bind_Ret in E as (? & p4 & E4 & E). injection E as <-.
  assert (Hb4 : rp_wal_storage_ p4 = rp_wal_storage_ p3 /\ rp_applied_index_ p4 = rp_applied_index_ p3 /\ rp_state_machine_ p4 = rp_state_machine_ p3 /\
    records_ (nd p4) = records_ (nd p3) /\ commit_since_index_ (nd p4) = commit_since_index_ (nd p3) /\
    (node_ok 1 (raft_ (nd p3)) -> node_ok 0 (raft_ (nd p4)) /\ node_moves 1 (raft_ (nd p3)) (raft_ (nd p4)))).
  { unfold when in E4. destruct (negb _).
    - unfold on_node, AdvanceApply, node in E4. apply zoom_Ret in E4 as (? & n4 & E4 & [= _ ->]). rewrite bind_get in E4.
      unfold on_raft in E4. apply zoom_Ret in E4 as (? & r4 & E4 & [= _ ->]). repeat (split; [done|]). by apply (CommitApply_up _ _ _ _ E4).
    - injection E4 as _ <-. repeat (split; [done|]). intros Ho. split; [eapply node_ok_weaken; [|exact Ho]; lia|].
      eapply node_moves_weaken; [|apply node_moves_refl]. lia. }
  destruct Hb4 as (Eb4 & Ea4 & Em4 & Er4 & Ec4 & Ho4). rewrite En3 in *.
  destruct Ho4 as [O4 M4]; [exact (node_ok_after 0 1 _ _ Hok O2 M2)|]. split; [done|].
  split; [exact (node_moves_trans 0 1 _ _ _ M2 M4)|]. split; [congruence|]. split; [congruence|]. split; [congruence|].
  split; [eapply book_same; [|exact Hb]; congruence|]. by rewrite Em4, Em3.
Qed.

(** What a round did, seen from the log before it. *)
Record processed (k : Z) p p' : Prop := {
  pc_ok : rp_ok k p';
  pc_base : ready_base (nd p) <= rp_applied_index_ p';
  pc_last : rp_applied_index_ p' <= v_last (log_view (lg p));
  pc_dummy : v_dummy (log_view (lg p)) <= v_dummy (log_view (lg p'));
  pc_prefix i : v_dummy (log_view (lg p')) < i <= rp_applied_index_ p' -> v_at (log_view (lg p')) i = v_at (log_view (lg p)) i;
  pc_committed : committed_ (lg p) <= committed_ (lg p');
  pc_calls : exists lead, Forall (fun c => exists b t i, c = CallLeadership b t i) lead /\
    sm_runs (lead ++ restore_calls (snapshot_ (unstable_ (lg p))) ++
             applies (v_slice (log_view (lg p)) (ready_base (nd p) + 1) (rp_applied_index_ p' + 1)))
      (rp_state_machine_ p) (rp_state_machine_ p')
}.

(** The driver once the entries of the [Ready] were applied. *)
Record half (k : Z) p q : Prop := {
  hf_node : node_ok k (raft_ (nd q));
  hf_view : log_view (lg q) = log_view (lg p);
  hf_pre : advance_pre (nd q);
  hf_committed : committed_ (lg p) <= committed_ (lg q);
  hf_book : book_fine q;
  hf_applied : rp_applied_index_ q = commit_since_index_ (nd q);
  hf_base : v_dummy (log_view (lg p)) <= ready_base (nd p) <= rp_applied_index_ q;
  hf_calls : exists lead, Forall (fun c => exists b t i, c = CallLeadership b t i) lead /\
    sm_runs (lead ++ restore_calls (snapshot_ (unstable_ (lg p))) ++
             applies (v_slice (log_view (lg p)) (ready_base (nd p) + 1) (rp_applied_index_ q + 1)))
      (rp_state_machine_ p) (rp_state_machine_ q)
}.

Lemma calmed_ok k n n' : calmed n n' -> node_ok k (raft_ n) -> node_ok k (raft_ n').
Proof. intros C Hok. exact (node_ok_after 0 k _ _ Hok (cl_ok _ _ C) (cl_moves _ _ C)). Qed.

(** What the node knows when the entries of a [Ready] are applied: the storage
    holds its log and the record of the [Ready] is the one that waits. *)
Lemma advance_pre_of n1 n2 n3 n4 rd : log_wf (raft_log_ (raft_ n1)) -> log_wf (raft_log_ (raft_ n2)) -> ready_spec n1 rd n2 -> rewritten n2 n3 -> stored (raft_log_ (raft_ n3)) -> calmed n3 n4 ->
  v_dummy (log_view (raft_log_ (raft_ n1))) <= ready_base n1 -> advance_pre n4.
Proof.
  intros W1 W2 Sp [[s3 E3] W3 V3] St C4 Hb. destruct (cl_still _ _ C4 W3) as (W4 & Es4 & Eu4).
  destruct (gr_still _ _ _ Sp W1) as (_ & _ & Eu2).
  assert (V4 := quiet_view _ _ (cl_still _ _ C4) W3). assert (V2 := quiet_view _ _ (gr_still _ _ _ Sp) W1).
  split; [unfold stored in *; congruence|]. rewrite (cl_records _ _ C4), (cl_number _ _ C4), (cl_since _ _ C4).
  rewrite V4, V3, V2. subst n3. cbn in *. split.
  - rewrite (gr_records _ _ _ Sp). unfold record_of. by rewrite Eu4, Eu2.
  - pose proof (gr_hands _ _ _ Sp) as [? _]. pose proof (gr_since _ _ _ Sp). pose proof (lm_committed _ _ _ (mv_log _ _ _ (cl_moves _ _ C4))) as Hc.
    cbn in Hc. lia.
Qed.

Lemma idle_round k p : 0 <= k -> rp_ok (k + 2) p -> clean (lg p) -> HasReady (nd p) = Ret false -> processed k p p.
Proof.
  intros Hk [Hok Hrec Hsince Hc Hb] Hcl E. assert (Hn : snapshot_ (unstable_ (lg p)) = None).
  { destruct (snapshot_ (unstable_ (lg p))) as [s|] eqn:Es; [|done]. destruct (Hcl _ Es) as [H0 _]. unfold HasReady in E.
    rewrite Es, (proj2 (Z.ltb_lt _ _) H0) in E. repeat (destruct (negb _); [done|]). done. }
  assert (Hba : ready_base (nd p) = rp_applied_index_ p) by (unfold ready_base; by rewrite Hn).
  pose proof (ok_log _ _ Hok) as [_ [Cq _ _]]. constructor; try done; try lia.
  - constructor; try done. eapply node_ok_weaken; [|exact Hok]. lia.
  - exists []. split; [done|]. rewrite Hn, Hba. cbn. unfold v_slice. by rewrite Z.sub_diag.
Qed.

Lemma second_half k p q rd light q1 p' : 0 <= k -> half (k + 2) p q -> on_node (Advance rd) q = Ret (light, q1) ->
  ProcessLightReady light q1 = Ret (Ok tt, p') -> processed k p p'.
Proof.
  intros Hk [Hok Hv Hpre Hcm Hb Ha Hba (lead & Hlead & Hm)] Ea El.
  unfold on_node in Ea. apply zoom_Ret in Ea as (? & n1 & Ea & [= <- ->]). set (q1 := q <| rp_raw_node_ := n1 |>) in *.
  destruct (Advance_spec _ _ _ _ ltac:(eapply node_ok_weaken; [|exact Hok]; lia) Hpre Ea) as [O1 M1 R1 H1 S1 D1 P1].
  assert (O1' : node_ok (1 + k) (raft_ n1)) by (apply (node_ok_after 1 (1 + k) (raft_ (nd q))); [eapply node_ok_weaken; [|exact Hok]; lia|done|done]).
  pose proof (mv_log _ _ _ M1) as L1. pose proof Hpre as (Hst & _ & Hsin). pose proof H1 as [H1l _].
  pose proof (ok_log _ _ O1) as [W1 [C1 _ _]]. rewrite Hv in *. pose proof (ok_log _ _ Hok) as [Wq [Cq _ _]]. rewrite Hv in Cq.
  assert (Hh : hands (log_view (lg q1)) (rp_applied_index_ q1) (commit_since_index_ (nd q1)) (lr_committed_entries light)).
  { change (rp_applied_index_ q1) with (rp_applied_index_ q). rewrite Ha. destruct H1 as [? ->]. split; [done|]. symmetry.
    apply v_slice_ext; cbn; [lia|lia|]. intros i Hi. apply P1. lia. }
  destruct (ProcessLightReady_run light q1 p') as (O2 & M2 & R2 & Es2 & Ea2 & Hb2 & Hm2); try done;
    [eapply node_ok_weaken; [|exact O1']; lia|cbn; lia|].
  pose proof (mv_log _ _ _ M2) as L2. pose proof (lm_committed _ _ _ L1). pose proof (lm_committed _ _ _ L2). pose proof (lm_dummy _ _ _ L2).
  change (raft_log_ (raft_ n1)) with (lg q1) in *. change (commit_since_index_ n1) with (commit_since_index_ (nd q1)) in *.
  constructor.
  - constructor; [exact (node_ok_after 1 k _ _ O1' O2 M2)|done|congruence| |done].
    rewrite (lm_store _ _ _ L2), (lm_store _ _ _ L1), Hst, Hv. lia.
  - lia.
  - rewrite Ea2. destruct (decide (commit_since_index_ (nd q1) = commit_since_index_ (nd q))) as [->|]; [lia|].
    destruct (v_at_is_Some (log_view (lg q1)) (commit_since_index_ (nd q1))) as [e He]; [lia|].
    rewrite P1 in He by lia. apply v_at_Some in He as [? _]. lia.
  - lia.
  - intros i Hi. rewrite (lm_prefix _ _ _ L2) by lia. apply P1. lia.
  - lia.
  - exists lead. split; [done|]. rewrite (v_slice_split _ _ (rp_applied_index_ q + 1)) by lia.
    rewrite applies_app, !app_assoc. eapply sm_runs_app; [rewrite <- app_assoc; exact Hm|].
    rewrite Ea2, Ha. destruct H1 as [_ <-]. exact Hm2.
Qed.

(** The steps of a round that succeeded. *)
Lemma process_ready_steps rd p b p' : process_ready rd p = Ret (Ok b, p') ->
  exists lead p1 p2 p3 p4 q light q1,
    Forall (fun c => exists b t i, c = CallLeadership b t i) lead /\ sm_runs lead (rp_state_machine_ p) (rp_state_machine_ p1) /\
    nd p1 = nd p /\ rp_applied_index_ p1 = rp_applied_index_ p /\ rp_wal_storage_ p1 = rp_wal_storage_ p /\
    persist_ready rd p1 = Ret (Ok tt, p2) /\ side p2 p3 /\
    apply_entries (lr_committed_entries (rd_light rd)) p3 = Ret (Ok tt, p4) /\ side p4 q /\
    on_node (Advance rd) q = Ret (light, q1) /\ ProcessLightReady light q1 = Ret (Ok tt, p').
Proof.
  intros E. unfold process_ready in E. apply bind_Ret in E as (? & p1 & E1 & E).
  destruct (CheckLeadershipChange_run _ _ _ _ E1) as (En1 & Ea1 & Eb1 & lead & Hlead & Em1).
  apply bind_Ret in E as (r & p2 & E2 & E). apply ValidateReadyEntries_side, side_frame in E2 as (En2 & Ea2 & Eb2 & Em2).
  destruct r as [[]|]; [|by apply bind_Ret in E as (? & ? & _ & E)].
  unfold mrbind in E. apply bind_Ret in E as (r & p3 & E3 & E). destruct r as [[]|]; [|done].
  unfold deliver_ready in E. apply bind_Ret in E as (? & p4 & E4 & E). apply SendMessages_side in E4.
  apply bind_Ret in E as (r & p5 & E5 & E). destruct r as [[]|]; [|by apply bind_Ret in E as (? & ? & _ & E)].
  unfold ApplyCommittedEntries, mrbind in E5. apply bind_Ret in E5 as (r & p6 & E6 & E5). destruct r as [[]|]; [|done].
  apply bind_Ret in E5 as (? & p7 & E7 & [= <-]). apply MaybeCompletePendingReads_side in E7.
  apply bind_Ret in E as (? & q & E8 & E). apply EnqueueReadStates_side in E8.
  apply bind_Ret in E as (light & q1 & E9 & E). apply bind_Ret in E as (r & p9 & E10 & E).
  destruct r as [[]|]; [injection E as _ <-|by apply bind_Ret in E as (? & ? & _ & E)].
  exists lead, p2, p3, p4, p6, q, light, q1. split; [done|]. split; [by rewrite Em2|].
  do 3 (split; [congruence|]). do 3 (split; [done|]). split; [by transitivity p7|done].
Qed.

Lemma process_ready_half k rd n1 p b p' : 0 <= k -> rp_ok k p -> clean (lg p) -> GetReady (nd p) = Ret (rd, n1) ->
  process_ready rd (p <| rp_raw_node_ := n1 |>) = Ret (Ok b, p') ->
  exists q light q1, half k p q /\ on_node (Advance rd) q = Ret (light, q1) /\ ProcessLightReady light q1 = Ret (Ok tt, p').
Proof.
  intros Hk [Hok Hrec Hsince Hc Hb] Hcl Eg E. assert (Hok0 : node_ok 0 (raft_ (nd p))) by (eapply node_ok_weaken; [|exact Hok]; lia).
  pose proof (ok_log _ _ Hok) as [Hw [Hcm _ _]]. rewrite <- Hsince in Hc. pose proof (GetReady_spec _ _ _ Hok0 Hrec Hc Eg) as Sp.
  pose proof (ready_base_bounds _ Hok0 Hc) as Hbase.
  assert (Hok1 : node_ok k (raft_ n1)) by exact (node_ok_after 0 k _ _ Hok (gr_ok _ _ _ Sp) (gr_moves _ _ _ Sp)).
  assert (Hw1 := proj1 (ok_log _ _ Hok1)). destruct (gr_still _ _ _ Sp Hw) as (_ & Es1 & Eu1). pose proof (quiet_view _ _ (gr_still _ _ _ Sp) Hw) as V1.
  apply process_ready_steps in E as (lead & p1 & p2 & p3 & p4 & q & light & q1 & Hlead & Em1 & En1 & Ea1 & Eb1 & E2 & S3 & E4 & S5 & Eadv & Elight).
  cbn in Em1, En1, Ea1, Eb1. exists q, light, q1. split; [|done].
  apply persist_ready_run in E2 as (R2 & St2 & Eb2 & Ea2 & Em2 & _); rewrite ?En1, ?Eu1; try done; [|unfold clean; by rewrite Eu1|apply Sp|apply Sp|].
  2: { intros hs Hs. rewrite (gr_hs _ _ _ Sp _ Hs). cbn. pose proof (view_bounds _ Hw).
       pose proof (ok_log_room _ _ Hok). unfold is_u64, two64, u64max in *. lia. }
  rewrite En1, Eu1 in *. assert (Hok2 := rewritten_ok k _ _ R2 Hok1).
  assert (Ha2 : rp_applied_index_ p2 = ready_base (nd p)) by (rewrite Ea2; unfold ready_base; destruct (snapshot_ _); congruence).
  apply side_frame in S3 as (En3 & Ea3 & Eb3 & Em3). apply side_frame in S5 as (En5 & Ea5 & Eb5 & Em5).
  pose proof (rw_view _ _ R2) as V2. destruct (rw_store _ _ R2) as [s2 Es2].
  assert (Ec2 : committed_ (lg p2) = committed_ (raft_log_ (raft_ n1)) /\ commit_since_index_ (nd p2) = commit_since_index_ n1) by (by rewrite Es2).
  destruct Ec2 as [Ec2 Ei2]. pose proof (gr_hands _ _ _ Sp) as Hh. pose proof (gr_since _ _ _ Sp) as Hs.
  destruct (apply_hands (commit_since_index_ n1) (lr_committed_entries (rd_light rd)) p3 p4) as (C4 & Ha4 & Hb4 & Hm4);
    rewrite ?En3, ?Ea3, ?Ha2, ?V2, ?V1; try done; [eapply node_ok_weaken; [|exact Hok2]; lia|eapply book_same; [|exact Hb]; congruence|lia|lia|].
  rewrite En3 in C4. rewrite <- En5 in C4. pose proof (quiet_view _ _ (cl_still _ _ C4) (rw_wf _ _ R2)) as V4.
  assert (Haq : rp_applied_index_ q = commit_since_index_ n1) by congruence.
  constructor.
  - exact (calmed_ok _ _ _ C4 Hok2).
  - congruence.
  - eapply (advance_pre_of (nd p) n1 (nd p2)); try done. lia.
  - pose proof (lm_committed _ _ _ (mv_log _ _ _ (cl_moves _ _ C4))). pose proof (lm_committed _ _ _ (mv_log _ _ _ (gr_moves _ _ _ Sp))). lia.
  - eapply book_same; [|exact Hb]; congruence.
  - rewrite (cl_since _ _ C4). congruence.
  - destruct Hh. lia.
  - exists lead. split; [done|]. eapply sm_runs_app; [exact Em1|]. eapply sm_runs_app; [exact Em2|].
    rewrite Em5, Haq. rewrite <- Em3. destruct Hh as [_ <-]. exact Hm4.
Qed.

(** One successful round: the entries behind the applied index, or behind the
    snapshot, go to the state machine in the order of the log. *)
Lemma Process_run k b p p' : 0 <= k -> rp_ok (k + 2) p -> clean (lg p) -> Process p = Ret (Ok b, p') -> processed k p p'.
Proof.
  intros Hk Hrp Hcl E. unfold Process in E. rewrite bind_get in E. destruct (rp_fatal_error_ p); [done|].
  apply bind_Ret in E as (h & p1 & E1 & E). apply getsO_Ret in E1 as (h' & Eh & [= -> ->]). destruct h'; cbn [negb] in E.
  2: { injection E as _ <-. by apply idle_round. }
  apply bind_Ret in E as (rd & p1 & Eg & E). unfold on_node in Eg. apply zoom_Ret in Eg as (? & n1 & Eg & [= -> ->]).
  destruct (process_ready_half (k + 2) _ _ _ _ _ ltac:(lia) Hrp Hcl Eg E) as (q & light & q1 & Hf & Ea & El).
  by eapply second_half.
Qed.

(** ** Runs of the driver *)

(** What the state machine was given since it was last restored. *)
Definition feed (acc : option Snapshot * list Entry) (c : SmCall) : option Snapshot * list Entry :=
  match c with
  | CallApply e => (acc.1, acc.2 ++ [e])
  | CallRestore s => (Some s, [])
  | CallLeadership _ _ _ => acc
  end.

Definition since_restore (calls : list SmCall) : option Snapshot * list Entry := foldl feed (None, []) calls.

Lemma feed_applies es acc : foldl feed acc (applies es) = (acc.1, acc.2 ++ filter (fun e => payload e = true) es).
Proof.
  unfold applies. generalize (filter (fun e => payload e = true) es). intros l. revert acc.
  induction l as [|e l IH]; intros [s x]; cbn; [by rewrite app_nil_r|]. rewrite IH. cbn. by rewrite <- app_assoc.
Qed.

Lemma feed_lead lead acc : Forall (fun c => exists b t i, c = CallLeadership b t i) lead -> foldl feed acc lead = acc.
Proof. intros H. revert acc. induction H as [|c lead (b & t & i & ->) _ IH]; intros acc; [done|]. apply IH. Qed.

(** A round of the driver: the snapshot that was pending, and the entries of
    the log behind it, or behind the applied index, up to the index that is
    applied afterwards. *)
Definition round p p' : option Snapshot * list Entry :=
  (snapshot_ (unstable_ (lg p)), v_slice (log_view (lg p)) (ready_base (nd p) + 1) (rp_applied_index_ p' + 1)).

(** The last snapshot of a list of rounds and the entries since. *)
Definition extend (h r : option Snapshot * list Entry) : option Snapshot * list Entry :=
  match r.1 with Some s => (Some s, r.2) | None => (h.1, h.2 ++ r.2) end.

Definition history (rounds : list (option Snapshot * list Entry)) : option Snapshot * list Entry := foldl extend (None, []) rounds.

(** What the state machine is given of such a history. *)
Definition visible (h : option Snapshot * list Entry) : option Snapshot * list Entry := (h.1, filter (fun e => payload e = true) h.2).

(** [follows start h p]: the entries of the history [h] have consecutive
    indexes from its snapshot, or from [start], up to the applied index of [p],
    and are those of the log of [p] where it still has them. *)
Definition follows (start : Z) (h : option Snapshot * list Entry) p : Prop :=
  let base := match h.1 with Some s => sn_index s | None => start end in
  contiguous (base + 1) h.2 /\ base + zlen h.2 = rp_applied_index_ p /\
  forall i, base < i <= rp_applied_index_ p -> v_dummy (log_view (lg p)) < i ->
    h.2 !! Z.to_nat (i - base - 1) = v_at (log_view (lg p)) i.

Inductive DriverInput := DriverNode (i : Input) | DriverProcess.

(** A run of the driver and its rounds: calls of the node, and rounds of
    [Process] that succeed and start without entries behind a snapshot. *)
Inductive driver_run : list DriverInput -> ReadyProcessor S T -> list (option Snapshot * list Entry) -> ReadyProcessor S T -> Prop :=
| driver_nil p : driver_run [] p [] p
| driver_node i ins p p1 rounds p2 : input_ok i (raft_ (nd p)) -> on_node (on_raft (handle i)) p = Ret (tt, p1) ->
    driver_run ins p1 rounds p2 -> driver_run (DriverNode i :: ins) p rounds p2
| driver_process ins p b p1 rounds p2 : clean (lg p) -> Process p = Ret (Ok b, p1) ->
    driver_run ins p1 rounds p2 -> driver_run (DriverProcess :: ins) p (round p p1 :: rounds) p2.

Fixpoint driver_reach (ins : list DriverInput) : Z :=
  match ins with
  | [] => 0
  | DriverNode i :: ins => Z.max 0 (input_reach i) + driver_reach ins
  | DriverProcess :: ins => 2 + driver_reach ins
  end.

Lemma driver_reach_nonneg ins : 0 <= driver_reach ins.
Proof. induction ins as [|[]]; cbn; lia. Qed.

(** A call of the node keeps the driver in order. *)
Lemma node_step_ok k i p p1 : 0 <= k -> rp_ok (Z.max 0 (input_reach i) + k) p -> input_ok i (raft_ (nd p)) ->
  on_node (on_raft (handle i)) p = Ret (tt, p1) ->
  rp_ok k p1 /\ rp_state_machine_ p1 = rp_state_machine_ p /\ rp_applied_index_ p1 = rp_applied_index_ p /\
  log_moves (Z.max 0 (input_reach i)) (lg p) (lg p1).
Proof.
  intros Hk [Hok Hrec Hs Hc Hb] Hi E. unfold on_node, on_raft in E.
  apply zoom_Ret in E as (? & n1 & E & [= _ ->]). apply zoom_Ret in E as (? & r1 & E & [= _ ->]).
  destruct (handle_up i _ Hi _ _ E) as [Ho1 M1]; [eapply node_ok_weaken; [|exact Hok]; lia|].
  pose proof (mv_log _ _ _ M1) as L1. pose proof (lm_committed _ _ _ L1). split; [|done].
  constructor; cbn; [exact (node_ok_after _ k _ _ Hok Ho1 M1)|done|done|rewrite (lm_store _ _ _ L1); lia|done].
Qed.

(** ... and what it has applied is still what the log says. *)
Lemma moves_follow start h k l p p1 : log_moves k l (lg p1) -> l = lg p -> rp_applied_index_ p <= committed_ (lg p) ->
  rp_applied_index_ p1 = rp_applied_index_ p -> follows start h p -> follows start h p1.
Proof.
  intros L1 -> Hc Ea (Hcn & Hlen & Hat). pose proof (lm_dummy _ _ _ L1). unfold follows. rewrite Ea.
  split; [done|]. split; [done|]. intros j Hj Hd. rewrite (lm_prefix _ _ _ L1) by lia. apply Hat; lia.
Qed.

(** A round extends the history with the entries it applied, or starts again
    from the snapshot it restored. *)
Lemma round_follows start h k b p p1 : 0 <= k -> rp_ok (k + 2) p -> clean (lg p) -> Process p = Ret (Ok b, p1) ->
  follows start h p -> follows start (extend h (round p p1)) p1.
Proof.
  intros Hk Hrp Hcl E (Hcn & Hlen & Hat). pose proof (Process_run k b p p1 Hk Hrp Hcl E) as [Ho Hba Hla Hd Hpre Hcm _].
  destruct Hrp as [Hok Hrec Hs Hc Hb]. pose proof (ok_log _ _ Hok) as [W [Cm _ _]].
  assert (Hbase : v_dummy (log_view (lg p)) <= ready_base (nd p)).
  { apply ready_base_bounds; [eapply node_ok_weaken; [|exact Hok]; lia|lia]. }
  unfold extend, round. cbn [fst snd]. set (new := v_slice (log_view (lg p)) (ready_base (nd p) + 1) (rp_applied_index_ p1 + 1)).
  assert (Hnl : zlen new = rp_applied_index_ p1 - ready_base (nd p)) by (unfold new; rewrite v_slice_length; lia).
  assert (Hnc : contiguous (ready_base (nd p) + 1) new) by (apply v_slice_contiguous; [by apply log_view_wf|lia]).
  assert (Hnew : forall i, ready_base (nd p) < i <= rp_applied_index_ p1 -> v_dummy (log_view (lg p1)) < i ->
    new !! Z.to_nat (i - ready_base (nd p) - 1) = v_at (log_view (lg p1)) i).
  { intros i Hi Hdi. unfold new. rewrite v_at_slice by lia. rewrite decide_True by lia. rewrite Hpre by lia. f_equal. lia. }
  clearbody new. unfold ready_base in *. destruct (snapshot_ (unstable_ (lg p))) as [s|]; unfold follows; cbn [fst snd].
  { split; [done|]. split; [lia|]. done. }
  rewrite Hs in *. set (base := match h.1 with Some s => sn_index s | None => start end) in *.
  split; [apply contiguous_app; split; [done|]; by replace (base + 1 + zlen h.2) with (rp_applied_index_ p + 1) by lia|].
  split; [rewrite length_app; lia|]. intros i Hi Hdi. destruct (decide (i <= rp_applied_index_ p)) as [Hle|Hgt].
  - rewrite lookup_app_l by lia. rewrite Hat by lia. symmetry. apply Hpre. lia.
  - rewrite lookup_app_r by lia. rewrite <- Hnew by lia. f_equal. lia.
Qed.

(** The calls of the state machine in a round. *)
Lemma round_calls k b p p1 h : 0 <= k -> rp_ok (k + 2) p -> clean (lg p) -> Process p = Ret (Ok b, p1) ->
  exists calls, sm_runs calls (rp_state_machine_ p) (rp_state_machine_ p1) /\ foldl feed (visible h) calls = visible (extend h (round p p1)).
Proof.
  intros Hk Hrp Hcl E. pose proof (pc_calls _ _ _ (Process_run k b p p1 Hk Hrp Hcl E)) as (lead & Hlead & Hm). eexists. split; [exact Hm|].
  rewrite !foldl_app, (feed_lead lead), feed_applies by done. unfold visible, extend, round. cbn.
  destruct (snapshot_ (unstable_ (lg p))); cbn; [done|]. by rewrite filter_app.
Qed.

Lemma driver_run_follows start ins p rounds p' : driver_run ins p rounds p' -> forall h, rp_ok (driver_reach ins) p -> follows start h p ->
  rp_ok 0 p' /\ follows start (foldl extend h rounds) p' /\
  exists calls, sm_runs calls (rp_state_machine_ p) (rp_state_machine_ p') /\ foldl feed (visible h) calls = visible (foldl extend h rounds).
Proof.
  induction 1 as [p|i ins p p1 rounds p2 Hi E _ IH|ins p b p1 rounds p2 Hcl E _ IH]; intros h Hok Hf; cbn [driver_reach foldl] in *.
  - split; [done|]. split; [done|]. by exists [].
  - destruct (node_step_ok _ i p p1 (driver_reach_nonneg ins) Hok Hi E) as (Hok1 & Em & Ea & L1).
    destruct (IH h Hok1) as (Hok2 & Hf2 & calls & Hm & Hv); [|split; [done|]; split; [done|]; exists calls; by rewrite <- Em].
    eapply moves_follow; [exact L1|done|apply Hok|done|done].
  - rewrite Z.add_comm in Hok. pose proof (driver_reach_nonneg ins) as Hn.
    destruct (round_calls _ b p p1 h Hn Hok Hcl E) as (c1 & Hm1 & Hv1).
    destruct (IH (extend h (round p p1))) as (Hok2 & Hf2 & c2 & Hm2 & Hv2).
    + by apply (Process_run _ b p p1).
    + by eapply round_follows.
    + split; [done|]. split; [done|]. exists (c1 ++ c2). rewrite foldl_app, Hv1. split; [by eapply sm_runs_app|done].
Qed.

Lemma follows_start p : follows (rp_applied_index_ p) (None, []) p.
Proof. split; [done|]. cbn. split; [lia|]. intros i Hi. lia. Qed.

(** C8: The state machine follows the committed log, in every run of calls of
    the node and rounds of [Process] that begins between two rounds, with room
    for the run ([rp_ok]), and in which each round succeeds and none starts with
    entries behind a pending snapshot ([clean]).  The last snapshot
    a round restored and the entries the rounds applied since, or all of them
    when there was none, have consecutive indexes from the snapshot's index, or
    from where the run began, up to the applied index; they are the entries the
    log holds at these indexes, where it still has them.  What the state machine
    was called with since its last restore are exactly those of them that have a
    payload, each once and in this order, and that restore is the one of the
    snapshot.  The applied index stays at or below the commit index. *)
Theorem machine_follows_log ins p rounds p' : rp_ok (driver_reach ins) p -> driver_run ins p rounds p' ->
  (exists calls, sm_runs calls (rp_state_machine_ p) (rp_state_machine_ p') /\ since_restore calls = visible (history rounds)) /\
  follows (rp_applied_index_ p) (history rounds) p' /\ rp_applied_index_ p' <= committed_ (lg p').
Proof.
  intros Hok Hrun. destruct (driver_run_follows _ ins p rounds p' Hrun (None, []) Hok (follows_start p)) as (Hok' & Hf & calls & Hm & Hv).
  split; [by exists calls|]. split; [done|]. apply Hok'.
Qed.

(** Steps that send nothing. *)
Definition unsent p p' : Prop := rp_transport_ p' = rp_transport_ p.

#[export] Instance unsent_preorder : PreOrder unsent.
Proof. split; [done|]. intros p1 p2 p3 H1 H2. unfold unsent in *. congruence. Qed.

Ltac unsent_leaf := first [by apply pres_modify | by apply pres_zoom].

Lemma remove_completed_unsent a pending : pres unsent (remove_completed a pending).
Proof.
  induction pending as [|r pending IH]; cbn [remove_completed]; unfold on_proposals; pres_tac ltac:(first [apply IH | unsent_leaf]).
Qed.

Lemma VerifyEntryChecksum_unsent e : pres unsent (VerifyEntryChecksum e).
Proof. unfold VerifyEntryChecksum, rok, rfail, fail_ctx, on_proposals. pres_tac unsent_leaf. Qed.

Lemma before_sending_unsent rd : pres unsent (CheckLeadershipChange rd) /\ pres unsent (ValidateReadyEntries (rd_entries rd)) /\
  (forall e, pres unsent (EnterFatalState e)) /\ pres unsent (persist_ready rd).
Proof.
  unfold CheckLeadershipChange, ValidateReadyEntries, EnterFatalState, persist_ready, PersistEntries, PersistHardState, ApplySnapshot,
    or_dropped, restore_machine, MaybeCompletePendingReads, mrbind, rok, rfail, on_storage, on_node, on_machine, on_proposals.
  split_and!; intros; pres_tac ltac:(first [ apply remove_completed_unsent
    | apply pres_foreachM; [typeclasses eauto|intros ?; apply VerifyEntryChecksum_unsent] | unsent_leaf ]).
Qed.

Lemma unstable_entry l e : log_wf l -> e ∈ entries_ (unstable_ l) -> v_at (log_view l) (e_index e) = Some e.
Proof.
  intros W He. apply list_elem_of_lookup in He as [k Hk]. pose proof (lw_unstable _ W) as [_ _ Hc _ _].
  rewrite (contiguous_lookup _ _ _ _ Hc Hk). rewrite v_at_unstable by (done || lia). rewrite <- Hk. f_equal. lia.
Qed.

(** [Process] on [p] comes to [q]: it took the [Ready] [rd], and every write of
    it succeeded. *)
Definition round_persists p (rd : Ready) q : Prop :=
  exists n1 p1 p2, GetReady (nd p) = Ret (rd, n1) /\ CheckLeadershipChange rd (p <| rp_raw_node_ := n1 |>) = Ret (tt, p1) /\
    ValidateReadyEntries (rd_entries rd) p1 = Ret (Ok tt, p2) /\ persist_ready rd p2 = Ret (Ok tt, q).

(** A call of [Process] that writes everything goes on with [deliver_ready];
    one that does not sends nothing, and fails unless there is no [Ready]. *)
Lemma Process_persists p r p' : Process p = Ret (r, p') ->
  (unsent p p' /\ forall b, r = Ok b -> HasReady (nd p) = Ret false) \/
  exists rd q, round_persists p rd q /\ unsent p q /\ deliver_ready rd q = Ret (r, p').
Proof.
  intros E. unfold Process in E. rewrite bind_get in E. destruct (rp_fatal_error_ p); [left; by injection E as <- <-|].
  apply bind_Ret in E as (h & p0 & E0 & E). apply getsO_Ret in E0 as (h' & Eh & [= -> ->]).
  destruct h'; cbn [negb] in E; [|left; by injection E as _ <-].
  apply bind_Ret in E as (rd & p1 & Eg & E). unfold on_node in Eg. apply zoom_Ret in Eg as (? & n1 & Eg & [= <- ->]).
  destruct (before_sending_unsent rd) as (Uc & Uv & Uf & Up). unfold process_ready in E.
  apply bind_Ret in E as ([] & p2 & E2 & E). pose proof (Uc _ _ _ E2) as U2. change (unsent p p2) in U2.
  apply bind_Ret in E as (v & p3 & E3 & E). pose proof (Uv _ _ _ E3) as U3. assert (U : unsent p p3) by by transitivity p2.
  destruct v as [[]|e].
  2: { left. apply bind_Ret in E as (? & p4 & E4 & E). injection E as <- <-. split; [|done]. transitivity p3; [done|]. unfold when in E4.
       destruct (IsFatalApplyError e); [exact (Uf _ _ _ _ E4)|by injection E4 as _ <-]. }
  unfold mrbind in E. apply bind_Ret in E as (w & p4 & E4 & E). pose proof (Up _ _ _ E4) as U4.
  destruct w as [[]|]; [right|left; injection E as <- <-; split; [by transitivity p3|done]].
  exists rd, p4. split; [by exists n1, p2, p3|]. split; [by transitivity p3|done].
Qed.

(** The state [persist_ready] starts from. *)
Lemma round_persists_run p rd q : rp_ok 0 p -> round_persists p rd q ->
  exists n1 p2, ready_spec (nd p) rd n1 /\ log_wf (raft_log_ (raft_ n1)) /\ log_view (raft_log_ (raft_ n1)) = log_view (lg p) /\
    unstable_ (raft_log_ (raft_ n1)) = unstable_ (lg p) /\ nd p2 = n1 /\
    (forall hs, rd_hs rd = Some hs -> is_u64 (hs_commit hs)) /\ persist_ready rd p2 = Ret (Ok tt, q).
Proof.
  intros [Hok Hrec Hs Hc Hb] (n1 & p1 & p2 & Eg & E1 & E2 & E). rewrite <- Hs in Hc. pose proof (GetReady_spec _ _ _ Hok Hrec Hc Eg) as Sp.
  pose proof (ok_log _ _ Hok) as [W [Hcm _ _]]. destruct (gr_still _ _ _ Sp W) as (W1 & Es1 & Eu1).
  destruct (CheckLeadershipChange_run _ _ _ _ E1) as (En1 & _). apply ValidateReadyEntries_side, side_frame in E2 as (En2 & _).
  exists n1, p2. split; [done|]. split; [done|]. split; [exact (quiet_view _ _ (gr_still _ _ _ Sp) W)|]. split; [done|]. split; [by rewrite En2, En1|].
  split; [|done]. intros hs Hh. rewrite (gr_hs _ _ _ Sp _ Hh). cbn. pose proof (view_bounds _ W).
  pose proof (ok_log_room _ _ Hok). unfold is_u64, two64, u64max in *. lia.
Qed.

(** C11: The messages of a round leave after its state is durable, in a round
    that begins with the driver in order ([rp_ok]) and whose [Ready] does not
    have both a snapshot and entries behind it ([clean]).  A call of [Process] either sends nothing, or every write of the [Ready]
    succeeded first and the call went on from there.  At that point nothing was
    sent yet; the storage held the whole log of the node, with the snapshot and
    every entry of the [Ready]; and of the hard state, if the [Ready] has one,
    it held the vote and a term that is not smaller, or all of it when there was
    no snapshot.  The [Ready] has the hard state of the node unless that is the
    one handed out before. *)
Theorem persisted_before_sent p r p' : rp_ok 0 p -> clean (lg p) -> Process p = Ret (r, p') ->
  rp_transport_ p' = rp_transport_ p \/
  exists rd q, round_persists p rd q /\ rp_transport_ q = rp_transport_ p /\ deliver_ready rd q = Ret (r, p') /\
    st_view (store_ (lg q)) = log_view (lg p) /\ log_view (lg q) = log_view (lg p) /\
    (forall e, e ∈ rd_entries rd -> v_at (st_view (store_ (lg q))) (e_index e) = Some e) /\
    match rd_hs rd with
    | Some hs => hs = hard_state (raft_ (nd p)) /\ hs_durable (snapshot_ (unstable_ (lg p))) hs (store_ (lg q))
    | None => hard_state (raft_ (nd p)) = prev_hs_ (nd p)
    end.
Proof.
  intros Hrp Hcl E. apply Process_persists in E as [[Hu _]|(rd & q & Hq & Hu & E)]; [by left|right]. exists rd, q.
  pose proof (ok_log _ _ (ro_node _ _ Hrp)) as [W _].
  destruct (round_persists_run _ _ _ Hrp Hq) as (n1 & p2 & Sp & W1 & V1 & Eu & En & Hh & Ep).
  apply persist_ready_run in Ep as (R & St & _ & _ & _ & Hd); rewrite ?En, ?Eu; try done; [|unfold clean; by rewrite Eu|apply Sp|apply Sp].
  pose proof (rw_view _ _ R) as V. rewrite En, V1 in V. unfold stored in St. rewrite V in St.
  do 3 (split; [done|]). rewrite St, (gr_entries _ _ _ Sp). do 2 (split; [done|]). split.
  { intros e He. by apply unstable_entry. }
  rewrite En, Eu in Hd. destruct (rd_hs rd) as [hs|] eqn:Ehs; [|by apply (gr_hs_same _ _ _ Sp)].
  split; [by apply (gr_hs _ _ _ Sp)|by apply Hd].
Qed.

(** C40: The case [clean] leaves out is one in which entries are lost.  When a
    [Ready] has a snapshot and entries behind it, [Process] writes the entries
    before the snapshot, and storing the snapshot empties the stored log: every
    round that succeeds comes to a point where all writes succeeded and the
    storage ends at the snapshot, without any entry of the [Ready], and goes on
    from there to send the messages and to tell the node that it is stored. *)
Theorem snapshot_round_loses_entries p b p' s : rp_ok 0 p -> snapshot_ (unstable_ (lg p)) = Some s -> 0 < sn_index s ->
  Process p = Ret (Ok b, p') ->
  exists rd q, round_persists p rd q /\ deliver_ready rd q = Ret (Ok b, p') /\
    rd_entries rd = entries_ (unstable_ (lg p)) /\
    st_view (store_ (lg q)) = mkView (sn_index s) (Some (sn_term s)) [] /\
    forall e, e ∈ rd_entries rd -> v_at (log_view (lg p)) (e_index e) = Some e /\ v_at (st_view (store_ (lg q))) (e_index e) = None.
Proof.
  intros Hrp Es Hpos E. apply Process_persists in E as [[_ Hn]|(rd & q & Hq & _ & E)].
  { specialize (Hn b eq_refl). unfold HasReady in Hn. rewrite Es, (proj2 (Z.ltb_lt _ _) Hpos) in Hn. by repeat (destruct (negb _); [done|]). }
  pose proof (ok_log _ _ (ro_node _ _ Hrp)) as [W _].
  destruct (round_persists_run _ _ _ Hrp Hq) as (n1 & p2 & Sp & W1 & V1 & Eu & En & Hh & Ep).
  assert (Hv : st_view (store_ (lg q)) = mkView (sn_index s) (Some (sn_term s)) []).
  { eapply persist_snapshot; [by rewrite En| | | |done|exact Hh|exact Ep]; rewrite ?En, ?Eu; [apply Sp|by rewrite (gr_snapshot _ _ _ Sp), Es|done]. }
  exists rd, q. do 2 (split; [done|]). split; [apply Sp|]. split; [done|]. rewrite (gr_entries _ _ _ Sp). intros e He.
  split; [by apply unstable_entry|]. rewrite Hv. unfold v_at. cbn. by destruct (_ <? _).
Qed.
End ReadyProps.

(** ** Witness

    The leader of [NodeSafety] applies entry 2, stores entry 4, hears that a
    follower has it too and applies entries 3 and 4. *)
#[export] Instance RaftorMetadataChange_eq_dec : EqDecision RaftorMetadataChange.
Proof. solve_decision. Defined.

#[export] Instance RaftorMetadataChange_countable : Countable RaftorMetadataChange.
Proof.
  refine (inj_countable' (fun m => match m with upsertPeerAddress id addr => inl (id, addr) | removePeerAddress id => inr id end)
    (fun x => match x with inl (id, addr) => upsertPeerAddress id addr | inr id => removePeerAddress id end) _).
  by intros [].
Defined.

#[export] Program Instance plain_codec : DriverCodec := {|
  cc1_decode _ := None;
  md_encode m := pos_to_string (encode m);
  md_decode s := match string_to_pos s with Some p => decode p | None => None end
|}.
Next Obligation. intros m. simpl. rewrite string_to_pos_to_string. apply decode_encode. Qed.

Definition example_processor : ReadyProcessor MemoryStorage MockStateMachine :=
  new_processor (mkRawNode example_node (mkSoftState 0 Follower) (mkHardState 2 1 2) 0 [] 1) None new_mock new_tracker 1 false 1.

Definition example_driver_inputs : list DriverInput :=
  [ DriverProcess;
    DriverNode (InStep (empty_message <| m_type := MsgAppendResponse |> <| m_from := 2 |> <| m_term := 2 |> <| m_index := 4 |>));
    DriverProcess ].

Lemma example_processor_ok : rp_ok (driver_reach example_driver_inputs) example_processor.
Proof.
  constructor; [|reflexivity|reflexivity| |exact I].
  - eapply (node_ok_weaken _ 1000); [vm_compute; discriminate|exact example_node_ok_at].
  - vm_compute. split; discriminate.
Qed.

Lemma example_driver_run :
  exists rounds p', driver_run example_driver_inputs example_processor rounds p' /\
    mk_applied_entries_ (rp_state_machine_ p') = ["b"; "c"; "d"]%string /\ map (fun r => map e_index r.2) rounds = [[2]; [3; 4]].
Proof.
  do 2 eexists. split.
  - eapply driver_process; [intros s; discriminate|vm_compute; reflexivity|].
    eapply driver_node; [constructor; cbn; unfold u64max; (lia || intuition congruence)|vm_compute; reflexivity|].
    eapply driver_process; [intros s; vm_compute; discriminate|vm_compute; reflexivity|]. apply driver_nil.
  - vm_compute. split; reflexivity.
Qed.

Lemma machine_follows_log_witness :
  exists rounds p', driver_run example_driver_inputs example_processor rounds p' /\
    mk_applied_entries_ (rp_state_machine_ p') = ["b"; "c"; "d"]%string /\ map (fun r => map e_index r.2) rounds = [[2]; [3; 4]] /\
    (exists calls, sm_runs calls (rp_state_machine_ example_processor) (rp_state_machine_ p') /\ since_restore calls = visible (history rounds)) /\
    follows 1 (history rounds) p'.
Proof.
  destruct example_driver_run as (rounds & p' & Hrun & Ha & Hr). exists rounds, p'. split; [exact Hrun|]. split; [exact Ha|]. split; [exact Hr|].
  destruct (machine_follows_log example_driver_inputs example_processor rounds p' example_processor_ok Hrun) as (Hc & Hf & _).
  split; [exact Hc|exact Hf].
Defined.

(** The same driver with a new term and vote to store and a heartbeat to send. *)
Definition example_sender : ReadyProcessor MemoryStorage MockStateMachine :=
  new_processor (mkRawNode (example_node <| messages_ := [empty_message <| m_type := MsgHeartbeat |> <| m_to := 2 |> <| m_term := 2 |>] |>)
    (mkSoftState 0 Follower) (mkHardState 1 0 2) 0 [] 1) None new_mock new_tracker 1 false 1.

Lemma example_sender_ok : rp_ok 0 example_sender.
Proof.
  constructor; [|reflexivity|reflexivity|vm_compute; split; discriminate|exact I].
  destruct (node_ok_weaken 0 1000 example_node ltac:(lia) example_node_ok_at). constructor; assumption.
Qed.

Lemma example_round : exists r p', Process example_sender = Ret (r, p') /\ rp_transport_ p' <> [].
Proof. do 2 eexists. split; [vm_compute; reflexivity|discriminate]. Qed.

Lemma persisted_before_sent_witness :
  exists r p' rd q, Process example_sender = Ret (r, p') /\ round_persists example_sender rd q /\ deliver_ready rd q = Ret (r, p') /\
    st_view (store_ (raft_log_ (raft_ (rp_raw_node_ q)))) = log_view (raft_log_ (raft_ (rp_raw_node_ example_sender))) /\
    stored_hs (store_ (raft_log_ (raft_ (rp_raw_node_ q)))) = Some (mkHardState 2 1 2).
Proof.
  destruct example_round as (r & p' & E & Ht). exists r, p'.
  destruct (persisted_before_sent example_sender r p') as [Hu|(rd & q & Hq & _ & Hd & Hs & _ & _ & Hh)].
  - exact example_sender_ok.
  - intros s. discriminate.
  - exact E.
  - contradiction.
  - exists rd, q. split; [exact E|]. split; [exact Hq|]. split; [exact Hd|]. split; [exact Hs|].
    destruct (rd_hs rd) as [hs|]; [|discriminate Hh]. destruct Hh as [-> [_ Hh]]. exact (Hh eq_refl).
Defined.

(** A follower takes a snapshot at index 3 and an append of entry 4 before the
    next round. *)
Definition lagging_follower : ReadyProcessor MemoryStorage MockStateMachine :=
  new_processor
    (mkRawNode (example_node <| core_ := example_core <| RaftCore.state_ := Follower |> <| leader_id_ := 2 |> <| term_ := 3 |> <| vote_ := 0 |> |>)
       (mkSoftState 2 Follower) (mkHardState 3 0 2) 0 [] 2)
    None new_mock new_tracker 1 false 2.

Definition snapshot_then_append : list DriverInput :=
  [ DriverNode (InStep (empty_message <| m_type := MsgSnapshot |> <| m_from := 2 |> <| m_term := 3 |>
      <| m_snapshot := mkSnapshot "s" (mkSnapshotMetadata (mkConfState [1; 2; 3] [] [] [] false) 3 3) |>));
    DriverNode (InStep (empty_message <| m_type := MsgAppend |> <| m_from := 2 |> <| m_term := 3 |> <| m_index := 3 |> <| m_log_term := 3 |>
      <| m_entries := [mkEntry EntryNormal 3 4 "x" "" 0] |> <| m_commit := 3 |>)) ].

Lemma lagging_follower_ok : rp_ok (driver_reach snapshot_then_append) lagging_follower.
Proof.
  constructor; [|reflexivity|reflexivity|vm_compute; split; discriminate|exact I].
  destruct (node_ok_weaken (driver_reach snapshot_then_append) 1000 example_node ltac:(vm_compute; discriminate) example_node_ok_at).
  constructor; try assumption; vm_compute; congruence.
Qed.

Lemma lagging_follower_run : exists p p', driver_run snapshot_then_append lagging_follower [] p /\ Process p = Ret (Ok true, p') /\
  (snapshot_ (unstable_ (raft_log_ (raft_ (rp_raw_node_ p)))) = Some (mkSnapshot "s" (mkSnapshotMetadata (mkConfState [1; 2; 3] [] [] [] false) 3 3)) /\
   entries_ (unstable_ (raft_log_ (raft_ (rp_raw_node_ p)))) = [mkEntry EntryNormal 3 4 "x" "" 0]) /\
  map (fun c => match c with Send ms => map (fun m => (m_type m, m_index m, m_reject m)) ms | _ => [] end) (rp_transport_ p') =
    [[(MsgAppendResponse, 3, false); (MsgAppendResponse, 4, false)]] /\
  v_last (st_view (store_ (raft_log_ (raft_ (rp_raw_node_ p'))))) = 3 /\ offset_ (unstable_ (raft_log_ (raft_ (rp_raw_node_ p')))) = 5.
Proof.
  do 2 eexists. split.
  - eapply driver_node; [constructor; cbn; unfold u64max; (lia || intuition congruence)|vm_compute; reflexivity|].
    eapply driver_node; [constructor; cbn; unfold u64max; first [lia|by intuition congruence|intros _; repeat split; cbn; (lia || by repeat constructor)]|vm_compute; reflexivity|]. apply driver_nil.
  - split; [vm_compute; reflexivity|]. split; [split; reflexivity|]. split; [reflexivity|]. split; reflexivity.
Qed.

(** Both messages are acknowledged, the storage ends at the snapshot, and the
    node takes entry 4 for stable. *)
Lemma snapshot_round_loses_entries_witness : exists p p' rd q, Process p = Ret (Ok true, p') /\
  map (fun c => match c with Send ms => map (fun m => (m_type m, m_index m, m_reject m)) ms | _ => [] end) (rp_transport_ p') =
    [[(MsgAppendResponse, 3, false); (MsgAppendResponse, 4, false)]] /\
  v_last (st_view (store_ (raft_log_ (raft_ (rp_raw_node_ p'))))) = 3 /\ offset_ (unstable_ (raft_log_ (raft_ (rp_raw_node_ p')))) = 5 /\
  deliver_ready rd q = Ret (Ok true, p') /\ rd_entries rd = [mkEntry EntryNormal 3 4 "x" "" 0] /\
  v_at (st_view (store_ (raft_log_ (raft_ (rp_raw_node_ q))))) 4 = None.
Proof.
  destruct lagging_follower_run as (p & p' & Hrun & E & (Es & Ee) & Hm & Hl & Ho). exists p, p'.
  destruct (driver_run_follows _ _ _ _ _ Hrun (None, []) lagging_follower_ok (follows_start _)) as (Hok & _).
  destruct (snapshot_round_loses_entries p true p' _ Hok Es eq_refl E) as (rd & q & _ & Hd & Er & _ & Hn). exists rd, q.
  split; [exact E|]. split; [exact Hm|]. split; [exact Hl|]. split; [exact Ho|]. split; [exact Hd|]. rewrite Ee in Er. split; [exact Er|].
  apply (Hn (mkEntry EntryNormal 3 4 "x" "" 0)). rewrite Er. apply list_elem_of_singleton. reflexivity.
Defined.
