(* ===== verification/KvLog.v ===== *)
(** * The key-value store replicates the log

    The driver of [ReadyProcessor] with the store of [KvStore] as its state
    machine: the data of the store are what the committed commands make of
    them. *)

From S2P Require Import Prelude Types Util Inflights Progress Quorum Tracker ConfChange Storage MemStorage Unstable ReadOnly Config RaftLog RaftLogProps RaftCore RaftSend LogSafety Raft NodeInv NodeSafety RawNode RawNodeProps Json ProposalTracker StateMachine KvStore ReadyProcessor ReadyProps.

Section KvLog.
Context {ENV : Env} {DC : DriverCodec} {MO : MapOrder}.
Context {S : Type} {ST : Storage S} {SL : StorageLaws S} {WS : WritableStorage S} {WL : WritableLaws S}.
Context {JL : JsonLib} {JW : JsonLaws}.

(** The log of the node. *)
Abbreviation lg p := (raft_log_ (raft_ (rp_raw_node_ p))).

(** The data after commands, in their order. *)
Definition run_commands (entries : list Entry) (data : gmap string string) : gmap string string :=
  foldl (fun data entry => entry_effect entry data) data entries.

(** The data a snapshot holds. *)
Definition snapshot_holds (snapshot : Snapshot) (data : gmap string string) : Prop :=
  exists j, json_parse (sn_data snapshot) = inr j /\ json_get_map j = inr data.

(** What calls made of the data [start]: the commands since the last restore
    ran on the data of its snapshot, if that is a string of the machine. *)
Definition fed (start : gmap string string) (acc : option Snapshot * list Entry) (data : gmap string string) : Prop :=
  exists base, data = run_commands acc.2 base /\
    match acc.1 with Some s => slen (sn_data s) < two64 -> snapshot_holds s base | None => base = start end.

Lemma restore_holds s k k' reader : slen (sn_data s) < two64 ->
  kv_RestoreSnapshot (sn_meta s) (k, new_reader (sn_data s)) = Ret (Ok tt, (k', reader)) -> snapshot_holds s (kv_data_ k').
Proof.
  intros Hl E. destruct (deserialize_run (sn_data s) Hl) as (r' & res & Er & Hr). unfold kv_RestoreSnapshot in E.
  destruct (_ =? 0); [done|]. unfold mrbind, on_snd in E. erewrite bind_run in E by (unfold zoom; cbn [snd]; rewrite Er; reflexivity).
  destruct res as [data|e]; [|done]. cbn in E. injection E as <- _. destruct (json_parse _) as [|j] eqn:Ej; [by destruct Hr|].
  exists j. split; [done|]. unfold parsed_data in Hr. destruct (json_get_map j); [done|]. by injection Hr as ->.
Qed.

Lemma calls_feed start calls : forall acc k k', sm_runs calls k k' -> fed start acc (kv_data_ k) ->
  fed start (foldl feed acc calls) (kv_data_ k').
Proof.
  induction calls as [|c calls IH]; intros acc k k'; cbn [sm_runs foldl]; [by intros ->|].
  intros (k1 & Hc & Hrest) (base & Hd & Hb). apply (IH _ k1); [done|]. destruct c as [e|s|l t i]; cbn in Hc.
  - destruct Hc as [r Er]. exists base. cbn. split; [|done]. apply kv_Apply_effect in Er. rewrite Er, Hd.
    unfold run_commands. by rewrite foldl_app.
  - destruct Hc as [reader Er]. exists (kv_data_ k1). split; [done|]. cbn. intros Hl. by eapply restore_holds.
  - injection Hc as <-. by exists base.
Qed.

(** C9: The store of a server holds what the committed commands make of it, in
    every run of calls of the node and rounds of [Process] that begins between
    two rounds, with room for the run ([rp_ok]), and in which each round
    succeeds and none starts with entries behind a pending snapshot ([clean]).
    Take the last snapshot a round restored and the entries the rounds applied
    since; where no snapshot was restored, all entries they applied.  These
    have consecutive indexes from the snapshot's index, or from where the run
    began, up to the applied index, and are those of the log where it still has
    them.  The data of the store are the map the snapshot's JSON text holds, or
    the data the run began with, after the commands of these entries in their
    order.  Entries that are no commands change nothing.  The text of the
    snapshot is shorter than 2^64 bytes. *)
Theorem kv_store_follows_log ins (p : ReadyProcessor S KvStoreStateMachine) rounds p' : rp_ok (driver_reach ins) p -> driver_run ins p rounds p' ->
  (forall s, (history rounds).1 = Some s -> slen (sn_data s) < two64) ->
  follows (rp_applied_index_ p) (history rounds) p' /\
  exists data, kv_data_ (rp_state_machine_ p') = run_commands (filter (fun e => payload e = true) (history rounds).2) data /\
    match (history rounds).1 with
    | Some s => snapshot_holds s data
    | None => data = kv_data_ (rp_state_machine_ p)
    end.
Proof.
  intros Hok Hrun Hl. destruct (driver_run_follows _ ins p rounds p' Hrun (None, []) Hok (follows_start p)) as (_ & Hf & calls & Hm & Hv).
  split; [done|]. destruct (calls_feed (kv_data_ (rp_state_machine_ p)) calls (visible (None, [])) _ _ Hm) as (data & Hd & Hb); [by eexists|].
  rewrite Hv in Hd, Hb. fold (history rounds) in Hd, Hb. exists data. split; [exact Hd|]. cbn in Hb.
  destruct (history rounds).1 as [s|]; [by apply Hb, Hl|done].
Qed.
End KvLog.

(** ** Witness

    The leader of [NodeSafety] is given a put command and hears that a follower
    has it. *)
#[local] Existing Instance Sample.lib.
#[local] Existing Instance Sample.laws.

Definition put_text : string :=
  match json_dump (JsonLib := Sample.lib) (JObject (<["op" := JString "put"]> (<["key" := JString "k"]> {["value" := JString "v"]}))) with
  | inr s => s
  | inl _ => ""
  end%string.

Definition kv_processor : ReadyProcessor MemoryStorage KvStoreStateMachine :=
  new_processor (mkRawNode example_node (mkSoftState 0 Follower) (mkHardState 2 1 2) 0 [] 1) None new_kv new_tracker 1 false 1.

Definition kv_driver_inputs : list DriverInput :=
  [ DriverNode (InStep (empty_message <| m_type := MsgPropose |> <| m_from := 1 |> <| m_entries := [empty_entry <| e_data := put_text |>] |>));
    DriverProcess;
    DriverNode (InStep (empty_message <| m_type := MsgAppendResponse |> <| m_from := 2 |> <| m_term := 2 |> <| m_index := 5 |>));
    DriverProcess ].

Lemma kv_processor_ok : rp_ok (driver_reach kv_driver_inputs) kv_processor.
Proof.
  constructor; [|reflexivity|reflexivity| |exact I].
  - eapply (node_ok_weaken _ 1000); [vm_compute; discriminate|exact example_node_ok_at].
  - vm_compute. split; discriminate.
Qed.

Lemma kv_driver_run :
  exists rounds p', driver_run kv_driver_inputs kv_processor rounds p' /\ kv_data_ (rp_state_machine_ p') = {["k" := "v"]}%string /\
    (history rounds).1 = None.
Proof.
  do 2 eexists. split.
  - eapply driver_node; [constructor; cbn; unfold u64max; (lia || intuition congruence)|vm_compute; reflexivity|].
    eapply driver_process; [intros s; discriminate|vm_compute; reflexivity|].
    eapply driver_node; [constructor; cbn; unfold u64max; (lia || intuition congruence)|vm_compute; reflexivity|].
    eapply driver_process; [intros s; vm_compute; discriminate|vm_compute; reflexivity|]. apply driver_nil.
  - vm_compute. split; reflexivity.
Qed.

Lemma kv_store_follows_log_witness :
  exists rounds p', driver_run kv_driver_inputs kv_processor rounds p' /\ kv_data_ (rp_state_machine_ p') = {["k" := "v"]}%string /\
    kv_data_ (rp_state_machine_ p') = run_commands (filter (fun e => payload e = true) (history rounds).2) ∅.
Proof.
  destruct kv_driver_run as (rounds & p' & Hrun & Hd & Hn). exists rounds, p'. split; [exact Hrun|]. split; [exact Hd|].
  destruct (kv_store_follows_log kv_driver_inputs kv_processor rounds p' kv_processor_ok Hrun) as (_ & data & H & Hb).
  - intros s Hs. rewrite Hn in Hs. discriminate Hs.
  - rewrite Hn in Hb. rewrite Hb in H. exact H.
Defined.
