(* ===== verification/Raftor.v ===== *)
(** * The server

    Model of [lib/raftor/raftor.cc]: the configuration, the bootstrap of a
    storage, the snapshot of a state machine through a temporary file, and
    [RaftorImpl], which owns a node, its driver and the queues of requests, and
    runs the event loop.  Times and durations are integers of one unit, the
    nanosecond.  The clock, the C library's temporary files and what the
    transport delivers when it is polled are inputs. *)

From stdpp Require Import pretty.
From S2P Require Import Prelude Types Util Storage ReadOnly Config RaftLog RaftCore Raft RawNode Disk Metadata Record Segment WalStorage ProposalTracker StateMachine ReadyProcessor.

(** ** Configuration *)

Inductive TransportKind := TransportCapnp | TransportNoop.
#[export] Instance TransportKind_eq_dec : EqDecision TransportKind.
Proof. solve_decision. Defined.

Record PeerConfig := mkPeerConfig {
  pc_id : Z;
  pc_addr : string
}.

Record RaftorConfig := mkRaftorConfig {
  rc_node_id : Z;
  rc_listen_addr : string;
  rc_transport_kind : TransportKind;
  rc_initial_peers : list PeerConfig;
  rc_data_dir : string;
  rc_election_tick : Z;
  rc_heartbeat_tick : Z;
  rc_max_size_per_message : Z;
  rc_max_inflight_messages : Z;
  rc_pre_vote : bool;
  rc_check_quorum : bool;
  rc_read_only_option : ReadOnlyOption;
  rc_tick_interval : Z;
  rc_connect_timeout : Z;
  rc_proposal_timeout : Z;
  rc_read_index_timeout : Z;
  rc_snapshot_entries_threshold : Z;
  rc_snapshot_log_size_bytes : Z;
  rc_snapshot_interval : Z;
  rc_enable_entry_checksum : bool
}.
#[export] Instance RaftorConfig_eta : Eta RaftorConfig := fun c =>
  mkRaftorConfig (rc_node_id c) (rc_listen_addr c) (rc_transport_kind c) (rc_initial_peers c) (rc_data_dir c)
    (rc_election_tick c) (rc_heartbeat_tick c) (rc_max_size_per_message c) (rc_max_inflight_messages c)
    (rc_pre_vote c) (rc_check_quorum c) (rc_read_only_option c) (rc_tick_interval c) (rc_connect_timeout c)
    (rc_proposal_timeout c) (rc_read_index_timeout c) (rc_snapshot_entries_threshold c)
    (rc_snapshot_log_size_bytes c) (rc_snapshot_interval c) (rc_enable_entry_checksum c).

Definition milliseconds (n : Z) : Z := n * 1000000.
Definition seconds (n : Z) : Z := n * 1000000000.

Definition DefaultRaftorConfig : RaftorConfig :=
  mkRaftorConfig 0 "" TransportCapnp [] "" 10 2 (1024 * 1024) 256 true true Safe (milliseconds 100)
    (milliseconds 5000) (milliseconds 5000) (milliseconds 5000) 0 0 0 false.

Definition Validate (c : RaftorConfig) : Result unit :=
  if rc_node_id c =? 0 then Err (EConfig InvalidNodeId)
  else if bool_decide (rc_transport_kind c = TransportCapnp) && (slen (rc_listen_addr c) =? 0) then Err (EConfig ListenAddressEmpty)
  else if slen (rc_data_dir c) =? 0 then Err (EConfig DataDirectoryEmpty)
  else if rc_election_tick c <=? rc_heartbeat_tick c then Err (EConfig ElectionTickTooSmall)
  else Ok tt.

Definition ToRaftConfig (c : RaftorConfig) : Config :=
  DefaultConfig <| c_id := rc_node_id c |> <| c_election_tick := rc_election_tick c |>
    <| c_heartbeat_tick := rc_heartbeat_tick c |> <| c_max_size_per_message := rc_max_size_per_message c |>
    <| c_max_inflight_messages := rc_max_inflight_messages c |> <| c_pre_vote := rc_pre_vote c |>
    <| c_check_quorum := rc_check_quorum c |> <| c_read_only_option := rc_read_only_option c |>
    <| c_load_state_on_startup := true |>.

(** ** Bootstrap *)

Definition ContainsNodeId (nodes : list Z) (node_id : Z) : bool := existsb (fun id => id =? node_id) nodes.

Definition ConfStateContainsNode (cs : ConfState) (node_id : Z) : bool :=
  ContainsNodeId (cs_voters cs) node_id || ContainsNodeId (cs_learners cs) node_id ||
  ContainsNodeId (cs_voters_outgoing cs) node_id || ContainsNodeId (cs_learners_next cs) node_id.

Definition HasVoters (cs : ConfState) : bool := 0 <? zlen (cs_voters cs).

Definition BuildBootstrapPeerAddresses (config : RaftorConfig) : list (Z * string) :=
  match rc_initial_peers config with
  | [] => [(rc_node_id config, rc_listen_addr config)]
  | peers => (fun p => (pc_id p, pc_addr p)) <$> peers
  end.

Definition BuildBootstrapConfState (config : RaftorConfig) : Result ConfState :=
  match rc_initial_peers config with
  | [] => Ok (mkConfState [rc_node_id config] [] [] [] false)
  | peers =>
      if negb (existsb (fun p => pc_id p =? rc_node_id config) peers) then Err (EConfig NodeIdNotInInitialPeers)
      else Ok (mkConfState (pc_id <$> peers) [] [] [] false)
  end.

Section Bootstrap.
Context {S : Type} {ST : Storage S} {WS : WritableStorage S}.

Definition BootstrapStorageIfNeeded (config : RaftorConfig) : M S (Result unit) :=
  let! s := get in
  match InitialState s with
  | Err e => rfail e
  | Ok state =>
      if HasVoters (rs_conf_state state) then rok tt
      else
        match BuildBootstrapConfState config with
        | Err e => rfail e
        | Ok conf_state => try! _ := wr_SetConfState conf_state in rok tt
        end
  end.

(** For a storage with an address book. *)
Definition BootstrapWalStorageIfNeeded (config : RaftorConfig) (book : AddressBook S) : M S (Result unit) :=
  let! s := get in
  match InitialState s with
  | Err e => rfail e
  | Ok state =>
      if HasVoters (rs_conf_state state) then rok tt
      else
        match BuildBootstrapConfState config with
        | Err e => rfail e
        | Ok conf_state =>
            try! _ := wr_SetConfState conf_state in
            try! _ := ab_Set book (BuildBootstrapPeerAddresses config) in
            rok tt
        end
  end.

Context {T : Type} {SM : StateMachine T}.

Definition RestoreLocalSnapshot (storage : S) : M T (Result Z) :=
  match wr_LocalSnapshot storage with
  | Err e => rfail e
  | Ok None => rok 0
  | Ok (Some snapshot) =>
      if sn_index snapshot =? 0 then rok 0
      else
        try! _ := zoom (fun t => (t, new_reader (sn_data snapshot))) (fun p _ => p.1) (sm_RestoreSnapshot (sn_meta snapshot)) in
        rok (sn_index snapshot)
  end.
End Bootstrap.

(** ** Snapshots through a temporary file *)

(** What the [n]-th call of the C library does: whether [tmpfile] and [fseek]
    succeed, how much of a buffer [fwrite] and [fread] move, and whether a
    [fread] that moves nothing is an error or the end of the file. *)
Class StdIo := {
  io_tmpfile : nat -> bool;
  io_fseek : nat -> bool;
  io_fwrite : nat -> Z -> Z;
  io_fread : nat -> Z -> Z;
  io_ferror : nat -> bool;
  io_fwrite_range n k : 0 <= k -> 0 <= io_fwrite n k <= k;
  io_fread_range n k : 0 <= k -> 0 <= io_fread n k <= k
}.

(** [FILE*]: contents, position, and how many calls were made; with it
    [total_bytes_written_]. *)
Record TempFileSnapshotWriter := mkTempFile {
  tf_data : string;
  tf_pos : Z;
  tf_calls : nat;
  tf_total_bytes_written_ : Z
}.
#[export] Instance TempFileSnapshotWriter_eta : Eta TempFileSnapshotWriter := fun f =>
  mkTempFile (tf_data f) (tf_pos f) (tf_calls f) (tf_total_bytes_written_ f).

Section TempFile.
Context {IO : StdIo}.

Definition fwrite (chunk : string) : M TempFileSnapshotWriter Z :=
  let! f := get in
  let n := io_fwrite (tf_calls f) (slen chunk) in
  set! tf_calls := Datatypes.S (tf_calls f) ;;;
  set! tf_data := (String.substring 0 (Z.to_nat (tf_pos f)) (tf_data f) +:+ String.substring 0 (Z.to_nat n) chunk +:+
                   String.substring (Z.to_nat (tf_pos f + n)) (String.length (tf_data f)) (tf_data f))%string ;;;
  set! tf_pos := tf_pos f + n ;;;
  ret n.

Definition fread (to_read : Z) : M TempFileSnapshotWriter string :=
  let! f := get in
  let n := Z.min (io_fread (tf_calls f) to_read) (slen (tf_data f) - tf_pos f) in
  set! tf_calls := Datatypes.S (tf_calls f) ;;;
  set! tf_pos := tf_pos f + n ;;;
  ret (String.substring (Z.to_nat (tf_pos f)) (Z.to_nat n) (tf_data f)).

Definition temp_Write (chunk : string) : M TempFileSnapshotWriter (Result unit) :=
  let! bytes_written := fwrite chunk in
  if negb (bytes_written =? slen chunk) then rfail (EStorageOther "snapshot temp write failed: {}")
  else
    modify (fun f => f <| tf_total_bytes_written_ := tf_total_bytes_written_ f +! bytes_written |>) ;;;
    rok tt.

#[export] Instance temp_writer : SnapshotWriter TempFileSnapshotWriter := temp_Write.

(** The loop of [LoadSnapshotDataFromFile]; [data] is what was copied. *)
Fixpoint load_loop (fuel : nat) (payload_size : Z) (data : string) : M TempFileSnapshotWriter (Result string) :=
  match fuel with
  | O => abort NoFuel
  | Datatypes.S fuel =>
      if slen data <? payload_size then
        let! f := get in
        let to_read := Z.min (payload_size - slen data) 1048576 in
        let! chunk := fread to_read in
        if slen chunk =? 0 then
          if io_ferror (tf_calls f) then rfail (EStorageOther "snapshot temp read failed: {}")
          else rfail (EStorageOther "snapshot temp read hit unexpected EOF")
        else load_loop fuel payload_size (data +:+ chunk)%string
      else rok data
  end.

Definition LoadSnapshotDataFromFile (payload_size : Z) : M TempFileSnapshotWriter (Result string) :=
  if 4294967295 <? payload_size then rfail (EStorageOther "snapshot payload exceeds Cap'n Proto Data size limit")
  else
    let! f := get in
    set! tf_calls := Datatypes.S (tf_calls f) ;;;
    if negb (io_fseek (tf_calls f)) then rfail (EStorageOther "snapshot temp rewind failed: {}")
    else
      set! tf_pos := 0 ;;;
      load_loop (Datatypes.S (Z.to_nat payload_size)) payload_size "".
End TempFile.

(** ** The server *)

(** [Runtime]: the time of the [n]-th reading of the clock.  [Wake] of the
    standard runtime does nothing and [Poll] calls its argument. *)
Class Runtime := clock : nat -> Z.

Record NodeStatus := mkNodeStatus {
  ns_id : Z;
  ns_role : StateRole;
  ns_term : Z;
  ns_leader_id : Z;
  ns_commit_index : Z;
  ns_applied_index : Z;
  ns_pending_proposals : Z
}.

Definition no_status : NodeStatus := mkNodeStatus 0 Follower 0 0 0 0 0.

(** [raw_node_], [storage_], [state_machine_], [transport_] and
    [proposal_tracker_] are shared with the driver and live in it. *)
Record Raftor (S T : Type) := mkRaftor {
  ri_config_ : RaftorConfig;
  ri_ready_processor_ : ReadyProcessor S T;
  ri_proposal_queue_ : list QueueItem;
  ri_read_index_queue_ : list QueueItem;
  ri_running_ : bool;
  ri_started_ : bool;
  ri_last_tick_ : Z;
  ri_proposal_counter_ : Z;
  ri_cached_status_ : NodeStatus;
  ri_terminal_error_ : option RaftError;
  ri_last_snapshot_attempt_index_ : Z;
  ri_last_snapshot_attempt_time_ : Z;
  ri_last_snapshot_time_ : Z;
  ri_last_log_size_check_ : Z;
  ri_clock_reads : nat;
  ri_io_calls : nat
}.
Arguments mkRaftor {S T}.
Arguments ri_config_ {S T}.
Arguments ri_ready_processor_ {S T}.
Arguments ri_proposal_queue_ {S T}.
Arguments ri_read_index_queue_ {S T}.
Arguments ri_running_ {S T}.
Arguments ri_started_ {S T}.
Arguments ri_last_tick_ {S T}.
Arguments ri_proposal_counter_ {S T}.
Arguments ri_cached_status_ {S T}.
Arguments ri_terminal_error_ {S T}.
Arguments ri_last_snapshot_attempt_index_ {S T}.
Arguments ri_last_snapshot_attempt_time_ {S T}.
Arguments ri_last_snapshot_time_ {S T}.
Arguments ri_last_log_size_check_ {S T}.
Arguments ri_clock_reads {S T}.
Arguments ri_io_calls {S T}.
#[export] Instance Raftor_eta S T : Eta (Raftor S T) := fun r =>
  mkRaftor (ri_config_ r) (ri_ready_processor_ r) (ri_proposal_queue_ r) (ri_read_index_queue_ r)
    (ri_running_ r) (ri_started_ r) (ri_last_tick_ r) (ri_proposal_counter_ r) (ri_cached_status_ r)
    (ri_terminal_error_ r) (ri_last_snapshot_attempt_index_ r) (ri_last_snapshot_attempt_time_ r)
    (ri_last_snapshot_time_ r) (ri_last_log_size_check_ r) (ri_clock_reads r) (ri_io_calls r).

Definition kLogSizeCheckMinInterval : Z := seconds 1.
Definition kSnapshotRetryMinInterval : Z := seconds 1.

(** [std::to_string(node_id) + ":" + std::to_string(counter)] *)
Definition proposal_context (node_id counter : Z) : string :=
  (pretty (Z.to_N node_id) +:+ ":" +:+ pretty (Z.to_N counter))%string.

(** What a poll of the transport delivers. *)
Inductive TransportEvent :=
| MessageEvent (m : Message)
| ErrorEvent (peer_id : Z) (error : string).

Section Raftor.
Context {ENV : Env} {DC : DriverCodec} {MO : MapOrder} {RT : Runtime} {IO : StdIo}.
Context {S : Type} {ST : Storage S} {WS : WritableStorage S} {T : Type} {SM : StateMachine T}.

Abbreviation R := (Raftor S T).

Definition on_processor {A} (m : M (ReadyProcessor S T) A) : M R A :=
  zoom ri_ready_processor_ (fun p r => r <| ri_ready_processor_ := p |>) m.
Definition raw_node {A} (m : M (RawNode S) A) : M R A := on_processor (on_node m).
Definition tracker {A} (m : M ProposalTracker A) : M R A := on_processor (on_proposals m).
Definition proposal_queue {A} (m : M (list QueueItem) A) : M R A :=
  zoom ri_proposal_queue_ (fun q r => r <| ri_proposal_queue_ := q |>) m.
Definition read_index_queue {A} (m : M (list QueueItem) A) : M R A :=
  zoom ri_read_index_queue_ (fun q r => r <| ri_read_index_queue_ := q |>) m.
Definition storage_of (r : R) : S := store_ (raft_log_ (raft_ (rp_raw_node_ (ri_ready_processor_ r)))).

Definition Now : M R Z :=
  let! r := get in
  set! ri_clock_reads := Datatypes.S (ri_clock_reads r) ;;;
  ret (clock (ri_clock_reads r)).

Definition GetTerminalError (r : R) : option RaftError := ri_terminal_error_ r.

Definition GetRequestRejectionError (r : R) : option RaftError :=
  match GetTerminalError r with
  | Some e => Some e
  | None => if negb (ri_started_ r) || negb (ri_running_ r) then Some (ERaft ShuttingDown) else None
  end.

(** [while (auto item = queue.TryPop())] *)
Fixpoint drain (fuel : nat) (pop : M R (option QueueItem)) (body : QueueItem -> M R unit) : M R unit :=
  match fuel with
  | O => abort NoFuel
  | Datatypes.S fuel =>
      let! item := pop in
      match item with
      | None => ret tt
      | Some item => body item ;;; drain fuel pop body
      end
  end.

Definition drain_proposals (body : QueueItem -> M R unit) : M R unit :=
  let! r := get in
  drain (Datatypes.S (length (ri_proposal_queue_ r))) (proposal_queue TryPop) body.

Definition drain_reads (body : QueueItem -> M R unit) : M R unit :=
  let! r := get in
  drain (Datatypes.S (length (ri_read_index_queue_ r))) (read_index_queue TryPop) body.

Definition FailQueuedRequests (error : RaftError) : M R unit :=
  drain_proposals (fun item => tracker (invoke (qi_callback item) (Failed error))) ;;;
  drain_reads (fun item => tracker (invoke (qi_callback item) (Failed error))).

Definition RefreshStatus : M R unit :=
  let! r := get in
  let p := ri_ready_processor_ r in
  let status := RawNode.GetStatus (rp_raw_node_ p) in
  set! ri_cached_status_ := mkNodeStatus (s_id status) (ss_raft_state (s_ss status)) (hs_term (s_hs status))
    (ss_leader_id (s_ss status)) (hs_commit (s_hs status)) (s_applied status) (PendingCount (rp_proposal_tracker_ p)).

Definition EnterTerminalState (error : RaftError) : M R unit :=
  let! r := get in
  match ri_terminal_error_ r with
  | Some _ => ret tt
  | None =>
      set! ri_terminal_error_ := Some error ;;;
      set! ri_running_ := false ;;;
      set! ri_started_ := false ;;;
      FailQueuedRequests error ;;;
      tracker (FailAll error) ;;;
      tracker (FailAllReads error) ;;;
      on_processor (transport StopTransport)
  end.

Definition InitializeSnapshotState : M R unit :=
  let! now := Now in
  set! ri_last_snapshot_time_ := now ;;;
  set! ri_last_snapshot_attempt_time_ := 0 ;;;
  set! ri_last_log_size_check_ := 0 ;;;
  let! r := get in
  match Storage.FirstIndex (storage_of r) with
  | Ok first_index => set! ri_last_snapshot_attempt_index_ := if 0 <? first_index then first_index -! 1 else 0
  | Err _ => set! ri_last_snapshot_attempt_index_ := 0
  end.

(** [transport_start] is the result of [transport_->Start()]. *)
Definition Start (transport_start : Result unit) : M R (Result unit) :=
  let! r := get in
  match GetTerminalError r with
  | Some e => rfail e
  | None =>
      set! ri_started_ := true ;;;
      if ri_started_ r then rfail (ERaft AlreadyStarted)
      else
        on_processor (transport StartTransport) ;;;
        match transport_start with
        | Err e => set! ri_started_ := false ;;; rfail e
        | Ok _ =>
            set! ri_running_ := true ;;;
            let! now := Now in
            set! ri_last_tick_ := now ;;;
            InitializeSnapshotState ;;;
            rok tt
        end
  end.

Definition Stop : M R unit :=
  let! r := get in
  set! ri_running_ := false ;;;
  if negb (ri_running_ r) then ret tt
  else
    FailQueuedRequests (ERaft ShuttingDown) ;;;
    tracker (FailAll (ERaft ShuttingDown)) ;;;
    tracker (FailAllReads (ERaft ShuttingDown)) ;;;
    on_processor (transport StopTransport) ;;;
    set! ri_started_ := false.

Definition IsRunning (r : R) : bool := ri_running_ r.

Definition ShouldTick : M R bool :=
  let! now := Now in
  let! r := get in
  ret (rc_tick_interval (ri_config_ r) <=? now - ri_last_tick_ r).

Definition GetLogSizeBytes (r : R) : Z := wr_LogSizeBytes (storage_of r).

(** ** Requests *)

Definition GenerateProposalContext : M R string :=
  let! r := get in
  set! ri_proposal_counter_ := ri_proposal_counter_ r +! 1 ;;;
  ret (proposal_context (rc_node_id (ri_config_ r)) (ri_proposal_counter_ r)).

Definition EnqueueProposal (data : string) (callback : Callback) (timeout : Z) : M R unit :=
  let! r := get in
  match GetRequestRejectionError r with
  | Some e => tracker (invoke callback (Failed e))
  | None => proposal_queue (Push data callback (Some timeout))
  end.

Definition EnqueueReadIndex (ctx : string) (callback : Callback) (timeout : Z) : M R unit :=
  let! r := get in
  match GetRequestRejectionError r with
  | Some e => tracker (invoke callback (Failed e))
  | None => read_index_queue (Push ctx callback (Some timeout))
  end.

Definition ProcessProposal (item : QueueItem) : M R unit :=
  let! r := get in
  let timeout := default (rc_proposal_timeout (ri_config_ r)) (qi_timeout item) in
  match GetRequestRejectionError r with
  | Some e => tracker (invoke (qi_callback item) (Failed e))
  | None =>
      let! ctx := GenerateProposalContext in
      let! now := Now in
      tracker (Track now ctx (qi_callback item) timeout) ;;;
      let! result := raw_node (RawNode.Propose ctx (qi_data item)) in
      match result with
      | Ok _ => ret tt
      | Err e => tracker (Fail ctx e)
      end
  end.

Definition ProcessProposalQueue : M R unit := drain_proposals ProcessProposal.

Definition ProcessRead (item : QueueItem) : M R unit :=
  let! r := get in
  let timeout := default (rc_read_index_timeout (ri_config_ r)) (qi_timeout item) in
  match GetRequestRejectionError r with
  | Some e => tracker (invoke (qi_callback item) (Failed e))
  | None =>
      let! ctx := GenerateProposalContext in
      let! now := Now in
      tracker (TrackRead now ctx (qi_callback item) timeout) ;;;
      raw_node (RawNode.ReadIndex ctx)
  end.

Definition ProcessReadIndexQueue : M R unit := drain_reads ProcessRead.

Definition ProcessTimeouts : M R unit :=
  let! now := Now in
  tracker (ExpireTimeouts now).

(** ** Snapshots *)

(** The state machine writes into a temporary file. *)
Definition machine_snapshot (applied_index term : Z) (cs : ConfState) :
    M (ReadyProcessor S T * TempFileSnapshotWriter) (Result SnapshotMetadata) :=
  zoom (fun p => (rp_state_machine_ p.1, p.2)) (fun t p => (p.1 <| rp_state_machine_ := t.1 |>, t.2))
    (sm_TakeSnapshot applied_index term cs).

Definition on_file {A} (m : M TempFileSnapshotWriter A) : M (ReadyProcessor S T * TempFileSnapshotWriter) A :=
  zoom snd (fun f p => (p.1, f)) m.

(** What [TakeSnapshot] does with the file open. *)
Definition build_snapshot (applied_index term : Z) (cs : ConfState) :
    M (ReadyProcessor S T * TempFileSnapshotWriter) (Result Snapshot) :=
  try! metadata := machine_snapshot applied_index term cs in
  let! p := get in
  try! data := on_file (LoadSnapshotDataFromFile (tf_total_bytes_written_ p.2)) in
  rok (mkSnapshot data metadata).

Definition TakeSnapshot : M R (Result unit) :=
  let! r := get in
  let applied_index := GetAppliedIndex (ri_ready_processor_ r) in
  match InitialState (storage_of r) with
  | Err e => rfail e
  | Ok initial_state =>
      let! term := getsO (fun r : R => Storage.Term applied_index (storage_of r)) in
      match term with
      | Err e => rfail e
      | Ok term =>
          set! ri_io_calls := Datatypes.S (ri_io_calls r) ;;;
          if negb (io_tmpfile (ri_io_calls r)) then rfail (EStorageOther "snapshot temp file creation failed: {}")
          else
            let! built := zoom (fun r : R => (ri_ready_processor_ r, mkTempFile "" 0 (ri_io_calls r) 0))
              (fun p r => r <| ri_ready_processor_ := p.1 |> <| ri_io_calls := tf_calls p.2 |>)
              (build_snapshot applied_index term (rs_conf_state initial_state)) in
            match built with
            | Err e => rfail e
            | Ok snapshot =>
                try! _ := on_processor (on_storage (wr_ApplyLocalSnapshot snapshot)) in
                let! now := Now in
                set! ri_last_snapshot_time_ := now ;;;
                set! ri_last_snapshot_attempt_index_ := applied_index ;;;
                rok tt
            end
      end
  end.

(** Whether one of the thresholds is reached at [now]. *)
Definition should_snapshot (now applied_index snapshot_index : Z) : M R bool :=
  let! r := get in
  let c := ri_config_ r in
  if (0 <? rc_snapshot_entries_threshold c) && (rc_snapshot_entries_threshold c <=? applied_index -! snapshot_index) then ret true
  else if (0 <? rc_snapshot_interval c) && (rc_snapshot_interval c <=? now - ri_last_snapshot_time_ r) then ret true
  else if (0 <? rc_snapshot_log_size_bytes c) && (kLogSizeCheckMinInterval <=? now - ri_last_log_size_check_ r) then
    set! ri_last_log_size_check_ := now ;;;
    ret (rc_snapshot_log_size_bytes c <=? GetLogSizeBytes r)
  else ret false.

Definition MaybeAutoSnapshot : M R unit :=
  let! r := get in
  let c := ri_config_ r in
  if (rc_snapshot_entries_threshold c =? 0) && (rc_snapshot_log_size_bytes c =? 0) && (rc_snapshot_interval c =? 0) then ret tt
  else
    let applied_index := GetAppliedIndex (ri_ready_processor_ r) in
    if applied_index =? 0 then ret tt
    else
      match Storage.FirstIndex (storage_of r) with
      | Err _ => ret tt
      | Ok first_index =>
          let snapshot_index := if 0 <? first_index then first_index -! 1 else 0 in
          if applied_index <=? snapshot_index then ret tt
          else
            let! now := Now in
            let! should := should_snapshot now applied_index snapshot_index in
            if negb should then ret tt
            else
              let! r := get in
              if (applied_index <=? ri_last_snapshot_attempt_index_ r) &&
                 (now - ri_last_snapshot_attempt_time_ r <? kSnapshotRetryMinInterval) then ret tt
              else
                set! ri_last_snapshot_attempt_index_ := applied_index ;;;
                set! ri_last_snapshot_attempt_time_ := now ;;;
                TakeSnapshot ;;;
                ret tt
      end.

(** ** The event loop *)

Definition ProcessRaftWork : M R unit :=
  ProcessProposalQueue ;;;
  let! result := on_processor Process in
  match result with
  | Err e =>
      if bool_decide (e = ERaft ChecksumMismatch) then EnterTerminalState e ;;; RefreshStatus
      else ProcessReadIndexQueue ;;; ProcessTimeouts ;;; MaybeAutoSnapshot ;;; RefreshStatus
  | Ok _ => ProcessReadIndexQueue ;;; ProcessTimeouts ;;; MaybeAutoSnapshot ;;; RefreshStatus
  end.

Definition OnMessage (m : Message) : M R unit := raw_node (RawNode.Step m) ;;; ret tt.

Definition OnPeerError (peer_id : Z) (error : string) : M R unit :=
  raw_node (ReportUnreachable peer_id) ;;;
  on_processor (on_machine (sm_OnPeerUnreachable peer_id)).

(** [transport_->Poll(timeout)], which calls the callbacks for [events]. *)
Definition PollTransport (events : list TransportEvent) : M R unit :=
  foreach events (fun e =>
    match e with
    | MessageEvent m => OnMessage m
    | ErrorEvent peer_id error => OnPeerError peer_id error
    end).

Definition EventLoopIteration (events : list TransportEvent) : M R bool :=
  let! r := get in
  if negb (ri_running_ r) then ret false
  else
    PollTransport events ;;;
    let! tick := ShouldTick in
    when tick
      (raw_node RawNode.Tick ;;;
       let! now := Now in
       set! ri_last_tick_ := now) ;;;
    ProcessRaftWork ;;;
    let! r := get in
    ret (ri_running_ r).

Definition Poll (events : list TransportEvent) : M R unit :=
  let! r := get in
  if negb (ri_running_ r) then ret tt
  else EventLoopIteration events ;;; ret tt.

Definition Tick : M R bool :=
  let! r := get in
  if negb (ri_running_ r) then ret false
  else
    let! ticked := raw_node RawNode.Tick in
    let! now := Now in
    set! ri_last_tick_ := now ;;;
    ProcessRaftWork ;;;
    ret ticked.

(** [while (callback()) {}] as far as the transport was polled: the rounds that
    are left when the loop ends, if it ends. *)
Fixpoint run_loop (polls : list (list TransportEvent)) : M R (option (list (list TransportEvent))) :=
  match polls with
  | [] => ret None
  | events :: polls =>
      let! again := EventLoopIteration events in
      if again then run_loop polls else ret (Some polls)
  end.

Definition Run (polls : list (list TransportEvent)) : M R (option (list (list TransportEvent))) :=
  let! r := get in
  if negb (ri_started_ r) then ret (Some polls) else run_loop polls.

(** ** The interface *)

Definition Propose (data : string) (callback : Callback) : M R unit :=
  let! r := get in
  EnqueueProposal data callback (rc_proposal_timeout (ri_config_ r)).

Definition ReadIndex (ctx : string) (callback : Callback) : M R unit :=
  let! r := get in
  EnqueueReadIndex ctx callback (rc_read_index_timeout (ri_config_ r)).

Definition AddNode (id : Z) (addr : string) : M R (Result unit) :=
  let! ctx := GenerateProposalContext in
  raw_node (RawNode.ProposeConfChange ctx (mkCCV2 CCAuto [mkCCS Types.AddNode id] addr)).

Definition RemoveNode (id : Z) : M R (Result unit) :=
  let! ctx := GenerateProposalContext in
  raw_node (RawNode.ProposeConfChange ctx (mkCCV2 CCAuto [mkCCS Types.RemoveNode id] "")).

Definition UpdateNodeAddress (id : Z) (addr : string) : M R (Result unit) :=
  if id =? 0 then rfail (EConfig InvalidNodeId)
  else if slen addr =? 0 then rfail (EInvalidConfig "peer address is empty")
  else
    let! r := get in
    match InitialState (storage_of r) with
    | Err e => rfail e
    | Ok initial_state =>
        if negb (ConfStateContainsNode (rs_conf_state initial_state) id) then rfail (EInvalidConfig "peer is not in ConfState")
        else
          let! ctx := GenerateProposalContext in
          raw_node (RawNode.Propose (kMetadataProposalContextPrefix +:+ ctx)%string
            (SerializeMetadataChange (mkMetadataChange id addr)))
    end.

Definition TransferLeader (target_id : Z) : M R unit := raw_node (RawNode.TransferLeader target_id).
Definition Campaign : M R (Result unit) := raw_node RawNode.Campaign.

Definition GetStatus (r : R) : NodeStatus := ri_cached_status_ r.
Definition IsLeader (r : R) : bool := bool_decide (ns_role (ri_cached_status_ r) = Leader).
Definition GetLeaderId (r : R) : Z := ns_leader_id (ri_cached_status_ r).
Definition GetRawNode (r : R) : RawNode S := rp_raw_node_ (ri_ready_processor_ r).

(** ** Construction *)

(** The peers the transport is told of. *)
Definition known_peers (config : RaftorConfig) (storage : S) (book : option (AddressBook S)) : list (Z * string) :=
  filter (fun p => negb (p.1 =? rc_node_id config) && negb (slen p.2 =? 0) = true)
    (match book with
     | Some b => ab_Get b storage
     | None => (fun p => (pc_id p, pc_addr p)) <$> rc_initial_peers config
     end).

(** The constructor; [book] is there when the storage is a [WALStorage]. *)
Definition construct (config : RaftorConfig) (state_machine : T) (storage : S) (book : option (AddressBook S))
    (initial_applied_index : Z) (draws : nat) : outcome R :=
  let raft_config := (ToRaftConfig config) <| c_applied := initial_applied_index |> in
  let? raw_node := RawNode.new raft_config storage draws in
  let processor := new_processor raw_node book state_machine new_tracker (rc_node_id config)
                     (rc_enable_entry_checksum config) initial_applied_index in
  let impl := mkRaftor config processor [] [] false false 0 0 no_status None 0 0 0 0 0 0 in
  let? (_, impl) := (RefreshStatus ;;;
    foreach (known_peers config storage book) (fun p => on_processor (transport (AddPeer p.1 p.2)))) impl in
  Ret impl.

(** [Create] with a storage and a transport; the storage pointer may be null. *)
Definition Create (config : RaftorConfig) (state_machine : T) (storage : option S) (book : option (AddressBook S))
    (draws : nat) : outcome (Result R) :=
  match Validate config with
  | Err e => Ret (Err e)
  | Ok _ =>
      match storage with
      | None => Ret (Err (ERaft IncompatibleStorage))
      | Some storage =>
          let? (bootstrapped, storage) := BootstrapStorageIfNeeded config storage in
          match bootstrapped with
          | Err e => Ret (Err e)
          | Ok _ =>
              let? (restored, state_machine) := RestoreLocalSnapshot storage state_machine in
              match restored with
              | Err e => Ret (Err e)
              | Ok restored_applied_index =>
                  let? impl := construct config state_machine storage book restored_applied_index draws in
                  Ret (Ok impl)
              end
          end
      end
  end.
End Raftor.

(** ** The default storage *)

Section CreateDefault.
Context {ENV : Env} {DC : DriverCodec} {MO : MapOrder} {RT : Runtime} {IO : StdIo} {T : Type} {SM : StateMachine T}.
Context {DIO : Io} {PF : Platform} {CR : Crc} {CP : Capnp}.

(** [Create] on the log of the directory [data_dir / "wal"].  The transport of
    the configured kind is the one that is called. *)
Definition CreateDefault (config : RaftorConfig) (state_machine : T) (disk : Disk) (draws : nat) :
    outcome (Result (Raftor WALStorage T)) :=
  match Validate config with
  | Err e => Ret (Err e)
  | Ok _ =>
      let? (opened, _) := ws_Open default_wal_config disk in
      match opened with
      | Err e => Ret (Err e)
      | Ok storage =>
          let? (bootstrapped, storage) := BootstrapWalStorageIfNeeded config wal_address_book storage in
          match bootstrapped with
          | Err e => Ret (Err e)
          | Ok _ => Create config state_machine (Some storage) (Some wal_address_book) draws
          end
      end
  end.
End CreateDefault.

(** ** Blocking calls

    [ProposeSync] and [ReadIndexSync] wait for the callback or the timeout,
    whichever sets [completed] first. *)
Record SyncCall := mkSyncCall {
  sy_completed : bool;
  sy_promise : option Reply
}.
#[export] Instance SyncCall_eta : Eta SyncCall := fun c => mkSyncCall (sy_completed c) (sy_promise c).

Definition new_sync : SyncCall := mkSyncCall false None.

(** The callback handed to [EnqueueProposal]. *)
Definition sync_callback (result : Reply) : M SyncCall unit :=
  let! c := get in
  set! sy_completed := true ;;;
  if sy_completed c then ret tt else set! sy_promise := Some result.

(** The caller after [wait_for]: what it returns, or [None] if it goes on
    waiting for the value that is being set. *)
Definition sync_return (timed_out : bool) : M SyncCall (option Reply) :=
  let! c := get in
  if timed_out then
    set! sy_completed := true ;;;
    if sy_completed c then ret (sy_promise c) else ret (Some (Failed (ERpc Timeout)))
  else ret (sy_promise c).
