(* ===== verification/RaftorProps.v ===== *)
(** * What the server promises

    Every request the server accepts is answered once, whatever the node does
    with it; a server that stopped, by [Stop] or by a fatal error, has nobody
    waiting. *)

From stdpp Require Import pretty.
From S2P Require Import Prelude Types Util Bytes Storage MemStorage ReadOnly Config RaftLog RaftLogProps RaftCore Raft NodeInv NodeStart RawNode ProposalTracker StateMachine ReadyProcessor ReadyProps Raftor.

Section RaftorProps.
Context {ENV : Env} {DC : DriverCodec} {MO : MapOrder} {RT : Runtime} {IO : StdIo}.
Context {S : Type} {ST : Storage S} {WS : WritableStorage S} {T : Type} {SM : StateMachine T}.
Implicit Types (t : ProposalTracker) (p : ReadyProcessor S T) (r : Raftor S T).

(** ** Steps that only answer *)

(** No callback is lost or called twice, and no request is added. *)
Record settles t t' : Prop := {
  se_ledger : ledger t' ≡ₚ ledger t;
  se_proposals : dom (pt_proposals_ t') ⊆ dom (pt_proposals_ t);
  se_reads : dom (pt_reads_ t') ⊆ dom (pt_reads_ t)
}.

#[export] Instance settles_preorder : PreOrder settles.
Proof.
  split; [by constructor|]. intros t1 t2 t3 [L1 P1 R1] [L2 P2 R2]. constructor; [by rewrite L2|set_solver..].
Qed.

Lemma invoke_dom callback reply t t' : invoke callback reply t = Ret (tt, t') ->
  pt_proposals_ t' = pt_proposals_ t /\ pt_reads_ t' = pt_reads_ t.
Proof. unfold invoke. destruct callback; intros E; by injection E as <-. Qed.

Lemma finish_settles ctx reply : pres settles (finish ctx reply).
Proof.
  intros t [] t' E. destruct (finish_run ctx reply t) as (t1 & E1 & L). rewrite E in E1. injection E1 as <-.
  unfold finish in E. rewrite bind_get in E. destruct (pt_proposals_ t !! ctx); [|by injection E as <-].
  rewrite bind_modify in E. apply invoke_dom in E as [Ep Er]. constructor; [done|rewrite Ep; cbn; set_solver|by rewrite Er].
Qed.

Lemma finish_read_settles ctx reply : pres settles (finish_read ctx reply).
Proof.
  intros t [] t' E. destruct (finish_read_run ctx reply t) as (t1 & E1 & L). rewrite E in E1. injection E1 as <-.
  unfold finish_read in E. rewrite bind_get in E. destruct (pt_reads_ t !! ctx); [|by injection E as <-].
  rewrite bind_modify in E. apply invoke_dom in E as [Ep Er]. constructor; [done|by rewrite Ep|rewrite Er; cbn; set_solver].
Qed.

Lemma FailAll_settles error : pres settles (FailAll error).
Proof.
  intros t [] t' E. destruct (FailAll_run error t) as (t1 & E1 & L & Hp & Hr). rewrite E in E1. injection E1 as <-.
  constructor; [done|rewrite Hp; set_solver|by rewrite Hr].
Qed.

Lemma FailAllReads_settles error : pres settles (FailAllReads error).
Proof.
  intros t [] t' E. destruct (FailAllReads_run error t) as (t1 & E1 & L & Hp & Hr). rewrite E in E1. injection E1 as <-.
  constructor; [done|by rewrite Hp|rewrite Hr; set_solver].
Qed.

Lemma ExpireTimeouts_settles now : pres settles (ExpireTimeouts now).
Proof.
  intros t [] t' E. destruct (ExpireTimeouts_run now t) as (t1 & E1 & L & Hp & Hr). rewrite E in E1. injection E1 as <-.
  constructor; [done|rewrite Hp|rewrite Hr]; apply dom_filter_subseteq.
Qed.

(** The driver only answers. *)
Definition driver_settles p p' : Prop := settles (rp_proposal_tracker_ p) (rp_proposal_tracker_ p').

#[export] Instance driver_settles_preorder : PreOrder driver_settles.
Proof. split; [intros p; unfold driver_settles; reflexivity|]. intros p1 p2 p3 H1 H2. unfold driver_settles in *. by etransitivity. Qed.

Lemma on_proposals_settles {A} (m : M ProposalTracker A) : pres settles m -> pres driver_settles (on_proposals (S := S) (T := T) m).
Proof. intros Hm. apply pres_zoom. intros p t' a E. by apply (Hm _ _ _ E). Qed.

Ltac settle_leaf := first
  [ apply pres_modify; intros ?; unfold driver_settles; reflexivity
  | apply on_proposals_settles; first [ apply finish_settles | apply finish_read_settles | apply FailAll_settles | apply FailAllReads_settles
                                      | apply ExpireTimeouts_settles ]
  | apply pres_zoom; intros ? ? ? _; unfold driver_settles; reflexivity ].

Lemma fail_ctx_settles ctx e : pres driver_settles (fail_ctx (S := S) (T := T) ctx e).
Proof. unfold fail_ctx. pres_tac settle_leaf. Qed.

Lemma complete_ctx_settles ctx e : pres driver_settles (complete_ctx (S := S) (T := T) ctx e).
Proof. unfold complete_ctx. pres_tac settle_leaf. Qed.

Ltac settle_ctx := first [apply fail_ctx_settles | apply complete_ctx_settles | settle_leaf].

Lemma VerifyEntryChecksum_settles e : pres driver_settles (VerifyEntryChecksum (S := S) (T := T) e).
Proof. unfold VerifyEntryChecksum, rok, rfail. pres_tac settle_ctx. Qed.

Lemma remove_completed_settles a pending : pres driver_settles (remove_completed (S := S) (T := T) a pending).
Proof. induction pending as [|x pending IH]; cbn [remove_completed]; pres_tac ltac:(first [apply IH | settle_ctx]). Qed.

Lemma MaybeCompletePendingReads_settles : pres driver_settles (MaybeCompletePendingReads (S := S) (T := T)).
Proof. unfold MaybeCompletePendingReads. pres_tac ltac:(first [apply remove_completed_settles | settle_ctx]). Qed.

Lemma persist_ready_settles rd : pres driver_settles (persist_ready (S := S) (T := T) rd).
Proof.
  unfold persist_ready, PersistEntries, PersistHardState, ApplySnapshot, or_dropped, restore_machine, mrbind, rok, rfail, on_storage, on_node.
  pres_tac ltac:(first [apply MaybeCompletePendingReads_settles | settle_ctx]).
Qed.

Lemma ApplyEntry_settles e : pres driver_settles (ApplyEntry (S := S) (T := T) e).
Proof.
  unfold ApplyEntry, apply_conf_change, apply_metadata_change, apply_normal, update_peer, on_book, mrbind, rok, rfail, transport, on_storage, on_node, on_machine.
  pres_tac ltac:(first [ apply VerifyEntryChecksum_settles
                       | apply pres_foreachM; [typeclasses eauto|intros ?; unfold update_peer, on_book, mrbind, rok, rfail, transport, on_storage, on_node; pres_tac settle_ctx]
                       | settle_ctx ]).
Qed.

Lemma apply_entries_settles es : pres driver_settles (apply_entries (S := S) (T := T) es).
Proof. induction es as [|e es IH]; cbn [apply_entries]; unfold rok, rfail; pres_tac ltac:(first [apply IH | apply ApplyEntry_settles | settle_ctx]). Qed.

Lemma EnterFatalState_settles e : pres driver_settles (EnterFatalState (S := S) (T := T) e).
Proof. unfold EnterFatalState. pres_tac settle_ctx. Qed.

Lemma ProcessLightReady_settles light : pres driver_settles (ProcessLightReady (S := S) (T := T) light).
Proof.
  unfold ProcessLightReady, SendMessages, transport, on_node, rok, rfail.
  pres_tac ltac:(first [apply apply_entries_settles | apply MaybeCompletePendingReads_settles | apply EnterFatalState_settles | settle_ctx]).
Qed.

Lemma Process_settles : pres driver_settles (Process (S := S) (T := T)).
Proof.
  unfold Process, process_ready, deliver_ready, CheckLeadershipChange, ValidateReadyEntries, ApplyCommittedEntries, EnqueueReadStates, SendMessages,
    transport, on_node, on_machine, mrbind, rok, rfail.
  pres_tac ltac:(first [ apply persist_ready_settles | apply apply_entries_settles | apply MaybeCompletePendingReads_settles | apply EnterFatalState_settles
                       | apply ProcessLightReady_settles | apply pres_foreachM; [typeclasses eauto|intros ?; apply VerifyEntryChecksum_settles]
                       | settle_ctx ]).
Qed.

(** ** The ledger of the server *)

Lemma proposal_context_inj node c c' : 0 <= c -> 0 <= c' -> proposal_context node c = proposal_context node c' -> c = c'.
Proof.
  intros Hc Hc' E. unfold proposal_context in E. apply (inj (String.append _)) in E. apply (inj (String.append _)) in E.
  apply (inj pretty) in E. lia.
Qed.

Abbreviation trk r := (rp_proposal_tracker_ (ri_ready_processor_ r)).
Abbreviation node_of r := (rc_node_id (ri_config_ r)).

Definition item_callback (item : QueueItem) : list nat := match qi_callback item with Some c => [c] | None => [] end.
Definition queued (q : list QueueItem) : list nat := flat_map item_callback q.

(** The callbacks that wait in a queue or in the tracker, and those that were
    called. *)
Definition server_ledger r : list nat := queued (ri_proposal_queue_ r) ++ queued (ri_read_index_queue_ r) ++ ledger (trk r).

(** Nobody waits. *)
Definition silent r : Prop :=
  ri_proposal_queue_ r = [] /\ ri_read_index_queue_ r = [] /\ pt_proposals_ (trk r) = ∅ /\ pt_reads_ (trk r) = ∅.

(** [n] bounds the contexts handed out and still to be handed out. *)
Record server_ok (n : Z) r : Prop := {
  so_counter : 0 <= ri_proposal_counter_ r;
  so_budget : ri_proposal_counter_ r + zlen (ri_proposal_queue_ r) + zlen (ri_read_index_queue_ r) <= n;
  so_proposals ctx : ctx ∈ dom (pt_proposals_ (trk r)) -> exists c, 0 <= c < ri_proposal_counter_ r /\ ctx = proposal_context (node_of r) c;
  so_reads ctx : ctx ∈ dom (pt_reads_ (trk r)) -> exists c, 0 <= c < ri_proposal_counter_ r /\ ctx = proposal_context (node_of r) c
}.

(** A step that answers requests or passes them on. *)
Record served (n : Z) (extra : list nat) r r' : Prop := {
  sv_ok : server_ok n r';
  sv_ledger : server_ledger r' ≡ₚ extra ++ server_ledger r;
  sv_running : ri_running_ r' = ri_running_ r;
  sv_proposals : ri_proposal_queue_ r' = ri_proposal_queue_ r;
  sv_reads : ri_read_index_queue_ r' = ri_read_index_queue_ r;
  sv_idle : ri_running_ r = false -> silent r -> silent r'
}.

Definition serves (n : Z) r r' : Prop := server_ok n r -> served n [] r r'.

#[export] Instance serves_preorder n : PreOrder (serves n).
Proof.
  split; [intros r H; by constructor|]. intros r1 r2 r3 H1 H2 H. destruct (H1 H) as [O1 L1 R1 P1 Q1 I1].
  destruct (H2 O1) as [O2 L2 R2 P2 Q2 I2]. constructor; try congruence; [cbn in *; by rewrite L2|].
  intros Hr Hs. apply I2; [congruence|auto].
Qed.

Lemma serves_frame n r r' : ri_proposal_counter_ r' = ri_proposal_counter_ r -> ri_config_ r' = ri_config_ r ->
  ri_proposal_queue_ r' = ri_proposal_queue_ r -> ri_read_index_queue_ r' = ri_read_index_queue_ r ->
  ri_running_ r' = ri_running_ r -> settles (trk r) (trk r') -> serves n r r'.
Proof.
  intros Ec Ecf Ep Er Erun [L P R] [O B Hp Hr]. constructor; try done.
  - constructor; rewrite ?Ec, ?Ep, ?Er, ?Ecf; auto.
  - unfold server_ledger. rewrite Ep, Er, L. done.
  - intros _ (Sp & Sr & Sp' & Sr'). split; [congruence|]. split; [congruence|].
    split; apply dom_empty_iff_L; [rewrite Sp', dom_empty_L in P|rewrite Sr', dom_empty_L in R]; set_solver.
Qed.

Lemma on_processor_serves {A} n (m : M (ReadyProcessor S T) A) : pres driver_settles m -> pres (serves n) (on_processor m).
Proof. intros Hm. apply pres_zoom. intros r p' a E. apply serves_frame; try done. by apply (Hm _ _ _ E). Qed.

Lemma tracker_serves {A} n (m : M ProposalTracker A) : pres settles m -> pres (serves n) (tracker (S := S) (T := T) m).
Proof. intros Hm. apply on_processor_serves, on_proposals_settles, Hm. Qed.

Ltac serve_leaf := first
  [ apply pres_modify; intros ?; apply serves_frame; (done || reflexivity)
  | apply on_processor_serves; settle_leaf
  | apply tracker_serves; first [apply finish_settles | apply finish_read_settles | apply FailAll_settles | apply FailAllReads_settles | apply ExpireTimeouts_settles]
  | apply pres_zoom; intros ? ? ? _; apply serves_frame; (done || reflexivity) ].

Lemma Now_serves n : pres (serves n) (Now (S := S) (T := T)).
Proof. unfold Now. pres_tac serve_leaf. Qed.

Lemma RefreshStatus_serves n : pres (serves n) (RefreshStatus (S := S) (T := T)).
Proof. unfold RefreshStatus. pres_tac serve_leaf. Qed.

Lemma server_ok_weaken a b r : a <= b -> server_ok a r -> server_ok b r.
Proof. intros Hab []. constructor; (done || lia). Qed.

(** ** The loops over the queues *)

(** A request that was taken out of its queue is answered or tracked. *)
Lemma invoke_served n callback error r r' : server_ok n r ->
  tracker (invoke callback (Failed error)) r = Ret (tt, r') -> served n (match callback with Some c => [c] | None => [] end) r r'.
Proof.
  intros [O B Hp Hr] E. unfold tracker, on_processor, on_proposals in E.
  apply zoom_Ret in E as ([] & p' & E & [= ->]). apply zoom_Ret in E as ([] & t' & E & [= ->]).
  destruct (invoke_run callback (Failed error) (trk r)) as (t1 & E1 & H1 & H2 & H3). rewrite E in E1. injection E1 as <-.
  constructor; try done.
  - constructor; cbn; rewrite ?H1, ?H2; auto.
  - unfold server_ledger, ledger, waiting. cbn. rewrite H1, H2, H3. solve_Permutation.
  - intros _ (Sp & Sr & Sp' & Sr'). unfold silent. cbn. by rewrite H1, H2.
Qed.

Lemma track_served n c now callback timeout r r' : server_ok n r -> ri_running_ r = true -> 0 <= c < ri_proposal_counter_ r ->
  pt_proposals_ (trk r) !! proposal_context (node_of r) c = None ->
  tracker (Track now (proposal_context (node_of r) c) callback timeout) r = Ret (tt, r') ->
  served n (match callback with Some c => [c] | None => [] end) r r'.
Proof.
  intros [O B Hp Hr] Hrun Hc Hf E. injection E as <-. constructor; try done; [| |congruence].
  - constructor; cbn; auto. intros ctx. rewrite dom_insert. intros [->%elem_of_singleton|Hin]%elem_of_union; [by exists c|auto].
  - unfold server_ledger, ledger, waiting. cbn. rewrite callbacks_insert by done. cbn.
    change (called (_ <| pt_proposals_ := _ |>)) with (called (trk r)). solve_Permutation.
Qed.

Lemma track_read_served n c now callback timeout r r' : server_ok n r -> ri_running_ r = true -> 0 <= c < ri_proposal_counter_ r ->
  tracker (TrackRead now (proposal_context (node_of r) c) callback timeout) r = Ret (tt, r') ->
  served n (match callback with Some c => [c] | None => [] end) r r'.
Proof.
  intros [O B Hp Hr] Hrun Hc E. unfold tracker, on_processor, on_proposals in E.
  apply zoom_Ret in E as ([] & p' & E & [= ->]). apply zoom_Ret in E as ([] & t' & E & [= ->]).
  unfold TrackRead in E. rewrite bind_get in E. apply bind_Ret in E as (? & t1 & E1 & E).
  apply assert_Ret in E1 as [Hf [= -> ->]]. apply bool_decide_eq_true in Hf. injection E as <-. constructor; try done; [| |congruence].
  - constructor; cbn; auto. intros ctx. rewrite dom_insert. intros [->%elem_of_singleton|Hin]%elem_of_union; [by exists c|auto].
  - unfold server_ledger, ledger, waiting. cbn. rewrite callbacks_insert by done. cbn.
    change (called (_ <| pt_reads_ := _ |>)) with (called (trk r)). solve_Permutation.
Qed.

(** A new context is not in use. *)
Lemma fresh_context n ctx r r' : n < two64 -> server_ok (n - 1) r -> GenerateProposalContext r = Ret (ctx, r') ->
  server_ok n r' /\ served n [] r r' /\ ctx = proposal_context (node_of r') (ri_proposal_counter_ r) /\
  ri_proposal_counter_ r' = ri_proposal_counter_ r + 1 /\ trk r' = trk r /\
  pt_proposals_ (trk r') !! ctx = None /\ pt_reads_ (trk r') !! ctx = None.
Proof.
  intros Hn [O B Hp Hr] E. unfold GenerateProposalContext in E. rewrite bind_get, bind_modify in E. injection E as <- <-. cbn.
  assert (Ec : ri_proposal_counter_ r +! 1 = ri_proposal_counter_ r + 1) by (unfold two64 in *; u64_lia).
  assert (Hok : server_ok n (r <| ri_proposal_counter_ := ri_proposal_counter_ r +! 1 |>)).
  { constructor; cbn; rewrite ?Ec; [lia|lia| |]; intros ctx Hin; [destruct (Hp ctx Hin) as (c & ? & ->)|destruct (Hr ctx Hin) as (c & ? & ->)];
      (exists c; split; [lia|done]). }
  split; [done|]. split; [by constructor|]. split; [done|]. split; [done|]. split; [done|].
  split; apply not_elem_of_dom; intros Hin.
  - destruct (Hp _ Hin) as (c & ? & E). apply proposal_context_inj in E; lia.
  - destruct (Hr _ Hin) as (c & ? & E). apply proposal_context_inj in E; lia.
Qed.

Lemma served_then n extra r1 r2 r3 : served n extra r1 r2 -> serves n r2 r3 -> served n extra r1 r3.
Proof.
  intros [O1 L1 R1 P1 Q1 I1] H. destruct (H O1) as [O2 L2 R2 P2 Q2 I2]. constructor; try congruence; [cbn in *; by rewrite L2|].
  intros Hr Hs. apply I2; [congruence|auto].
Qed.

Lemma served_trans n e1 e2 r1 r2 r3 : served n e1 r1 r2 -> served n e2 r2 r3 -> served n (e2 ++ e1) r1 r3.
Proof.
  intros [O1 L1 R1 P1 Q1 I1] [O2 L2 R2 P2 Q2 I2]. constructor; try congruence; [by rewrite L2, L1, app_assoc|].
  intros Hr Hs. apply I2; [congruence|auto].
Qed.

Lemma accepted r : GetRequestRejectionError r = None -> ri_running_ r = true.
Proof. unfold GetRequestRejectionError. destruct (GetTerminalError r), (ri_started_ r), (ri_running_ r); done. Qed.

Lemma ProcessProposal_served n item r r' : n < two64 -> server_ok (n - 1) r -> ProcessProposal item r = Ret (tt, r') ->
  served n (item_callback item) r r'.
Proof.
  intros Hn Hok E. unfold ProcessProposal in E. rewrite bind_get in E. cbv zeta in E.
  destruct (GetRequestRejectionError r) eqn:Erej; [apply (invoke_served n) in E; [done|eapply server_ok_weaken; [|exact Hok]; lia]|].
  apply accepted in Erej.
  apply bind_Ret in E as (ctx & r1 & E1 & E). destruct (fresh_context _ _ _ _ Hn Hok E1) as (Ok1 & S1 & -> & Ec & _ & Hf & _).
  apply bind_Ret in E as (now & r2 & E2 & E). injection E2 as <- <-.
  apply bind_Ret in E as ([] & r3 & E3 & E).
  match type of E3 with _ ?x = _ => set (r2 := x) in * end.
  assert (S2 : served n [] r1 r2) by (apply serves_frame; done).
  apply (track_served n _ _ _ _ r2 r3 (sv_ok _ _ _ _ S2)) in E3; [|rewrite (sv_running _ _ _ _ S2), (sv_running _ _ _ _ S1); done|cbn; destruct Hok; lia|done].
  pose proof (served_trans _ _ _ _ _ _ (served_trans _ _ _ _ _ _ S1 S2) E3) as S3. rewrite !app_nil_r in S3.
  apply bind_Ret in E as (res & r4 & E4 & E). eapply served_then; [exact S3|]. transitivity r4.
  - revert E4. apply on_processor_serves. unfold on_node. settle_leaf.
  - destruct res; [by injection E as <-|]. revert E. apply tracker_serves, finish_settles.
Qed.

Lemma ProcessRead_served n item r r' : n < two64 -> server_ok (n - 1) r -> ProcessRead item r = Ret (tt, r') ->
  served n (item_callback item) r r'.
Proof.
  intros Hn Hok E. unfold ProcessRead in E. rewrite bind_get in E. cbv zeta in E.
  destruct (GetRequestRejectionError r) eqn:Erej; [apply (invoke_served n) in E; [done|eapply server_ok_weaken; [|exact Hok]; lia]|].
  apply accepted in Erej.
  apply bind_Ret in E as (ctx & r1 & E1 & E). destruct (fresh_context _ _ _ _ Hn Hok E1) as (Ok1 & S1 & -> & Ec & _ & _ & _).
  apply bind_Ret in E as (now & r2 & E2 & E). injection E2 as <- <-.
  apply bind_Ret in E as ([] & r3 & E3 & E).
  match type of E3 with _ ?x = _ => set (r2 := x) in * end.
  assert (S2 : served n [] r1 r2) by (apply serves_frame; done).
  apply (track_read_served n _ _ _ _ r2 r3 (sv_ok _ _ _ _ S2)) in E3; [|rewrite (sv_running _ _ _ _ S2), (sv_running _ _ _ _ S1); done|cbn; destruct Hok; lia].
  pose proof (served_trans _ _ _ _ _ _ (served_trans _ _ _ _ _ _ S1 S2) E3) as S3. rewrite !app_nil_r in S3.
  eapply served_then; [exact S3|]. revert E. apply on_processor_serves. unfold on_node. settle_leaf.
Qed.

(** What a loop over a queue leaves. *)
Record drained (n : Z) r r' : Prop := {
  dr_ok : server_ok n r';
  dr_ledger : server_ledger r' ≡ₚ server_ledger r;
  dr_running : ri_running_ r' = ri_running_ r
}.

Lemma drain_proposals_run n body r r' :
  (forall item r1 r2, server_ok (n - 1) r1 -> body item r1 = Ret (tt, r2) -> served n (item_callback item) r1 r2) ->
  server_ok n r -> drain_proposals body r = Ret (tt, r') ->
  drained n r r' /\ ri_proposal_queue_ r' = [] /\ ri_read_index_queue_ r' = ri_read_index_queue_ r.
Proof.
  intros Hb. unfold drain_proposals. intros Hok E. rewrite bind_get in E. remember (ri_proposal_queue_ r) as q eqn:Eq.
  revert r Eq Hok E. induction q as [|item q IH]; intros r Eq Hok E; cbn [drain length] in E;
    apply bind_Ret in E as (o & r1 & E1 & E); unfold proposal_queue in E1; apply zoom_Ret in E1 as (o' & q' & E1 & [= -> ->]);
    unfold TryPop in E1; rewrite <- Eq in E1; injection E1 as <- <-.
  - injection E as <-. split; [constructor; try done|done].
    + destruct Hok as [O B Hp Hr]. rewrite <- Eq in B. by constructor.
    + unfold server_ledger. cbn. by rewrite <- Eq.
  - apply bind_Ret in E as ([] & r2 & E2 & E).
    assert (Hok1 : server_ok (n - 1) (r <| ri_proposal_queue_ := q |>)).
    { destruct Hok as [O B Hp Hr]. rewrite <- Eq in B. constructor; cbn in *; auto. lia. }
    destruct (Hb item _ r2 Hok1 E2) as [O2 L2 R2 P2 Q2 _]. cbn in P2, Q2, R2.
    destruct (IH r2 ltac:(done) O2) as ([O3 L3 R3] & P3 & Q3); [exact E|]. split; [|split; [done|congruence]]. constructor; [done| |congruence].
    rewrite L3, L2. unfold server_ledger. cbn. rewrite <- Eq. cbn. by rewrite <- app_assoc.
Qed.

Lemma drain_reads_run n body r r' :
  (forall item r1 r2, server_ok (n - 1) r1 -> body item r1 = Ret (tt, r2) -> served n (item_callback item) r1 r2) ->
  server_ok n r -> drain_reads body r = Ret (tt, r') ->
  drained n r r' /\ ri_read_index_queue_ r' = [] /\ ri_proposal_queue_ r' = ri_proposal_queue_ r.
Proof.
  intros Hb. unfold drain_reads. intros Hok E. rewrite bind_get in E. remember (ri_read_index_queue_ r) as q eqn:Eq.
  revert r Eq Hok E. induction q as [|item q IH]; intros r Eq Hok E; cbn [drain length] in E;
    apply bind_Ret in E as (o & r1 & E1 & E); unfold read_index_queue in E1; apply zoom_Ret in E1 as (o' & q' & E1 & [= -> ->]);
    unfold TryPop in E1; rewrite <- Eq in E1; injection E1 as <- <-.
  - injection E as <-. split; [constructor; try done|done].
    + destruct Hok as [O B Hp Hr]. rewrite <- Eq in B. by constructor.
    + unfold server_ledger. cbn. by rewrite <- Eq.
  - apply bind_Ret in E as ([] & r2 & E2 & E).
    assert (Hok1 : server_ok (n - 1) (r <| ri_read_index_queue_ := q |>)).
    { destruct Hok as [O B Hp Hr]. rewrite <- Eq in B. constructor; cbn in *; auto. lia. }
    destruct (Hb item _ r2 Hok1 E2) as [O2 L2 R2 P2 Q2 _]. cbn in P2, Q2, R2.
    destruct (IH r2 ltac:(done) O2) as ([O3 L3 R3] & P3 & Q3); [exact E|]. split; [|split; [done|congruence]]. constructor; [done| |congruence].
    rewrite L3, L2. unfold server_ledger. cbn. rewrite <- Eq. cbn. solve_Permutation.
Qed.

(** ** Snapshots and the clock leave the requests alone *)

Definition same_tracker {W} (a b : ReadyProcessor S T * W) : Prop := rp_proposal_tracker_ b.1 = rp_proposal_tracker_ a.1.

#[export] Instance same_tracker_preorder {W} : PreOrder (same_tracker (W := W)).
Proof. split; [done|]. intros a b c H1 H2. unfold same_tracker in *. congruence. Qed.

Lemma build_snapshot_same i term cs : pres same_tracker (build_snapshot (S := S) (T := T) i term cs).
Proof. unfold build_snapshot, machine_snapshot, on_file, mrbind, rok, rfail. pres_tac ltac:(by apply pres_zoom). Qed.

Lemma TakeSnapshot_serves n : pres (serves n) (TakeSnapshot (S := S) (T := T)).
Proof.
  unfold TakeSnapshot, on_storage, on_node, mrbind, rok, rfail.
  pres_tac ltac:(first [ apply Now_serves
    | apply pres_zoom; intros ? ? ? E; apply build_snapshot_same in E; unfold same_tracker in E; cbn in E;
      apply serves_frame; [done..|cbn; rewrite E; reflexivity]
    | serve_leaf ]).
Qed.

Lemma MaybeAutoSnapshot_serves n : pres (serves n) (MaybeAutoSnapshot (S := S) (T := T)).
Proof. unfold MaybeAutoSnapshot, should_snapshot. pres_tac ltac:(first [apply Now_serves | apply TakeSnapshot_serves | serve_leaf]). Qed.

Lemma ProcessTimeouts_serves n : pres (serves n) (ProcessTimeouts (S := S) (T := T)).
Proof. unfold ProcessTimeouts. pres_tac ltac:(first [apply Now_serves | serve_leaf]). Qed.

Lemma ShouldTick_serves n : pres (serves n) (ShouldTick (S := S) (T := T)).
Proof. unfold ShouldTick. pres_tac ltac:(first [apply Now_serves | serve_leaf]). Qed.

Lemma PollTransport_serves n events : pres (serves n) (PollTransport (S := S) (T := T) events).
Proof. unfold PollTransport, OnMessage, OnPeerError, raw_node, on_node, on_machine. pres_tac serve_leaf. Qed.

Lemma tick_serves n : pres (serves n) (raw_node (S := S) (T := T) RawNode.Tick).
Proof. unfold raw_node, on_node. serve_leaf. Qed.

(** ** Shutting down *)

Lemma silent_ledger r : silent r -> server_ledger r = called (trk r).
Proof. intros (Hq & Hi & Ep & Er). unfold server_ledger, ledger, waiting. by rewrite Hq, Hi, Ep, Er, map_to_list_empty. Qed.

Lemma fail_item_returns error item r : exists r', tracker (S := S) (T := T) (invoke (qi_callback item) (Failed error)) r = Ret (tt, r') /\
  ri_proposal_queue_ r' = ri_proposal_queue_ r /\ ri_read_index_queue_ r' = ri_read_index_queue_ r.
Proof.
  destruct (invoke_run (qi_callback item) (Failed error) (trk r)) as (t' & E & _).
  unfold tracker, on_processor, on_proposals, zoom. rewrite E. by eexists.
Qed.

Lemma fail_proposals_returns error r : exists r',
  drain_proposals (S := S) (T := T) (fun item => tracker (invoke (qi_callback item) (Failed error))) r = Ret (tt, r').
Proof.
  unfold drain_proposals. rewrite bind_get. remember (ri_proposal_queue_ r) as q eqn:Eq. revert r Eq.
  induction q as [|item q IH]; intros r Eq; cbn [drain length]; unfold proposal_queue at 1, zoom, TryPop; unfold bind at 1; rewrite <- Eq; [by eexists|].
  destruct (fail_item_returns error item (r <| ri_proposal_queue_ := q |>)) as (r1 & E1 & Eq1 & _). rewrite (bind_run _ _ _ _ _ E1).
  apply IH. by rewrite Eq1.
Qed.

Lemma fail_reads_returns error r : exists r',
  drain_reads (S := S) (T := T) (fun item => tracker (invoke (qi_callback item) (Failed error))) r = Ret (tt, r').
Proof.
  unfold drain_reads. rewrite bind_get. remember (ri_read_index_queue_ r) as q eqn:Eq. revert r Eq.
  induction q as [|item q IH]; intros r Eq; cbn [drain length]; unfold read_index_queue at 1, zoom, TryPop; unfold bind at 1; rewrite <- Eq; [by eexists|].
  destruct (fail_item_returns error item (r <| ri_read_index_queue_ := q |>)) as (r1 & E1 & _ & Eq1). rewrite (bind_run _ _ _ _ _ E1).
  apply IH. by rewrite Eq1.
Qed.

Definition shut (error : RaftError) : M (Raftor S T) unit :=
  FailQueuedRequests error ;;; tracker (FailAll error) ;;; tracker (FailAllReads error).

Lemma tracker_total (m : M ProposalTracker unit) t' r : m (trk r) = Ret (tt, t') ->
  tracker m r = Ret (tt, r <| ri_ready_processor_ := (ri_ready_processor_ r) <| rp_proposal_tracker_ := t' |> |>).
Proof. intros E. unfold tracker, on_processor, on_proposals, zoom. by rewrite E. Qed.

(** A shutdown returns, and answers everyone. *)
Lemma shut_run n error r : server_ok n r -> exists r', shut error r = Ret (tt, r') /\ drained n r r' /\ silent r'.
Proof.
  intros Hok. unfold shut, FailQueuedRequests.
  assert (Hf : forall item r1 r2, server_ok (n - 1) r1 -> tracker (invoke (qi_callback item) (Failed error)) r1 = Ret (tt, r2) ->
    served n (item_callback item) r1 r2).
  { intros item r1 r2 H1. apply invoke_served. eapply server_ok_weaken; [|exact H1]. lia. }
  destruct (fail_proposals_returns error r) as (r1 & E1). destruct (drain_proposals_run n _ _ _ Hf Hok E1) as ([O1 L1 R1] & P1 & _).
  destruct (fail_reads_returns error r1) as (r2 & E2). destruct (drain_reads_run n _ _ _ Hf O1 E2) as ([O2 L2 R2] & Q2 & P2).
  destruct (FailAll_run error (trk r2)) as (t3 & E3 & L3 & Hp3 & Hr3). destruct (FailAllReads_run error t3) as (t4 & E4 & L4 & Hp4 & Hr4).
  rewrite bind_bind, (bind_run _ _ _ _ _ E1), (bind_run _ _ _ _ _ E2), (bind_run _ _ _ _ _ (tracker_total _ _ r2 E3)).
  eexists. split; [apply tracker_total; exact E4|]. split.
  - constructor; [|unfold server_ledger in *; cbn; by rewrite L4, L3, L2, L1|cbn; congruence].
    destruct O2 as [Oc Ob Op Or]. constructor; cbn; auto; rewrite ?Hp4, ?Hp3, ?Hr4; set_solver.
  - split; [cbn; congruence|]. split; [done|]. split; [cbn; congruence|done].
Qed.

(** ** The event loop *)

(** A step of the loop: if it ended the server, nobody waits. *)
Record worked (n : Z) r r' : Prop := {
  wk_ok : server_ok n r';
  wk_ledger : server_ledger r' ≡ₚ server_ledger r;
  wk_running : ri_running_ r' = ri_running_ r \/ ri_running_ r' = false /\ silent r'
}.

Lemma drained_worked n r r' : drained n r r' -> worked n r r'.
Proof. intros []. constructor; auto. Qed.

Lemma worked_then n r1 r2 r3 : worked n r1 r2 -> serves n r2 r3 -> worked n r1 r3.
Proof.
  intros [O1 L1 R1] H. destruct (H O1) as [O2 L2 R2 P2 Q2 I2]. constructor; [done|cbn in *; by rewrite L2|].
  destruct R1 as [R1|[Er Hs]]; [left; congruence|right; split; [congruence|auto]].
Qed.

Lemma drained_trans n r1 r2 r3 : drained n r1 r2 -> drained n r2 r3 -> drained n r1 r3.
Proof. intros [] []. constructor; [done|etransitivity; done|congruence]. Qed.

Lemma drained_serves n r1 r2 r3 : drained n r1 r2 -> serves n r2 r3 -> drained n r1 r3.
Proof. intros [O1 L1 R1] H. destruct (H O1) as [O2 L2 R2 _ _ _]. constructor; [done|cbn in *; by rewrite L2|congruence]. Qed.

Lemma server_frame n r r' : ri_proposal_counter_ r' = ri_proposal_counter_ r -> ri_config_ r' = ri_config_ r ->
  ri_proposal_queue_ r' = ri_proposal_queue_ r -> ri_read_index_queue_ r' = ri_read_index_queue_ r ->
  trk r' = trk r -> server_ok n r -> server_ok n r' /\ server_ledger r' = server_ledger r.
Proof.
  intros Ec Ecf Ep Er Et [O B Hp Hr]. split; [constructor; rewrite ?Ec, ?Ep, ?Er, ?Ecf, ?Et; auto|].
  unfold server_ledger. by rewrite Ep, Er, Et.
Qed.

(** The end of [Stop] and of [EnterTerminalState]. *)
Lemma shut_then n error (k : M (Raftor S T) unit) r r' : server_ok n r ->
  (FailQueuedRequests error ;;; tracker (FailAll error) ;;; tracker (FailAllReads error) ;;; k) r = Ret (tt, r') ->
  exists r1, drained n r r1 /\ silent r1 /\ k r1 = Ret (tt, r').
Proof.
  intros Hok E. destruct (shut_run n error r Hok) as (r1 & E1 & Hd & Hs). unfold shut in E1.
  apply bind_Ret in E as (? & r2 & E2 & E). rewrite (bind_run _ _ _ _ _ E2) in E1.
  apply bind_Ret in E as (? & r3 & E3 & E). rewrite (bind_run _ _ _ _ _ E3) in E1.
  apply bind_Ret in E as (? & r4 & E4 & E). rewrite E1 in E4. injection E4 as _ <-. by exists r1.
Qed.

Lemma EnterTerminalState_worked n error r r' : server_ok n r -> EnterTerminalState error r = Ret (tt, r') -> worked n r r'.
Proof.
  intros Hok E. unfold EnterTerminalState in E. rewrite bind_get in E.
  destruct (ri_terminal_error_ r); [injection E as <-; constructor; auto|]. rewrite !bind_modify in E.
  match type of E with _ ?x = _ => set (r0 := x) in * end.
  destruct (server_frame n r r0) as [Hok0 L0]; try done. apply (shut_then n) in E as (r1 & [O1 L1 R1] & Hs & E); [|done].
  injection E as <-. constructor; [by apply (server_frame n r1)| |right; split; [exact R1|exact Hs]].
  change (server_ledger r1 ≡ₚ server_ledger r). by rewrite L1, L0.
Qed.

Lemma ProcessRaftWork_worked n r r' : n < two64 -> server_ok n r -> ProcessRaftWork r = Ret (tt, r') -> worked n r r'.
Proof.
  intros Hn Hok E. unfold ProcessRaftWork in E. apply bind_Ret in E as ([] & r1 & E1 & E).
  destruct (drain_proposals_run n _ _ _ (fun item a b => ProcessProposal_served n item a b Hn) Hok E1) as (D1 & _).
  apply bind_Ret in E as (res & r2 & E2 & E). apply (on_processor_serves n _ Process_settles) in E2.
  pose proof (drained_serves _ _ _ _ D1 E2) as D2.
  assert (Hrest : forall r3, (ProcessReadIndexQueue ;;; ProcessTimeouts ;;; MaybeAutoSnapshot ;;; RefreshStatus) r2 = Ret (tt, r3) -> worked n r r3).
  { clear E. intros r3 E. apply bind_Ret in E as ([] & r4 & E4 & E).
    destruct (drain_reads_run n _ _ _ (fun item a b => ProcessRead_served n item a b Hn) (dr_ok _ _ _ D2) E4) as (D4 & _).
    apply drained_worked. eapply drained_serves; [exact (drained_trans _ _ _ _ D2 D4)|].
    revert E. apply pres_bind; [typeclasses eauto|apply ProcessTimeouts_serves|intros ?]. apply pres_bind; [typeclasses eauto|apply MaybeAutoSnapshot_serves|intros ?].
    apply RefreshStatus_serves. }
  destruct res as [b|e]; [by apply Hrest|]. case_bool_decide; [|by apply Hrest].
  apply bind_Ret in E as ([] & r3 & E3 & E). apply (EnterTerminalState_worked n) in E3; [|apply D2].
  apply RefreshStatus_serves with (n := n) in E. destruct D2 as [O2 L2 R2], E3 as [O3 L3 R3].
  eapply worked_then; [|exact E]. constructor; [done|by rewrite L3|]. destruct R3 as [R3|R3]; [left; congruence|by right].
Qed.

(** ** Runs of the server *)

Inductive ServerOp :=
| OpStart (transport_start : Result unit)
| OpStop
| OpPropose (data : string) (callback : Callback)
| OpReadIndex (ctx : string) (callback : Callback)
| OpPoll (events : list TransportEvent)
| OpTick
| OpAddNode (id : Z) (addr : string)
| OpRemoveNode (id : Z)
| OpUpdateNodeAddress (id : Z) (addr : string)
| OpTransferLeader (target_id : Z)
| OpCampaign
| OpTakeSnapshot.

Definition server_step (op : ServerOp) : M (Raftor S T) unit :=
  match op with
  | OpStart result => Start result ;;; ret tt
  | OpStop => Stop
  | OpPropose data callback => Raftor.Propose data callback
  | OpReadIndex ctx callback => Raftor.ReadIndex ctx callback
  | OpPoll events => Poll events
  | OpTick => Raftor.Tick ;;; ret tt
  | OpAddNode id addr => AddNode id addr ;;; ret tt
  | OpRemoveNode id => RemoveNode id ;;; ret tt
  | OpUpdateNodeAddress id addr => UpdateNodeAddress id addr ;;; ret tt
  | OpTransferLeader id => Raftor.TransferLeader id
  | OpCampaign => Raftor.Campaign ;;; ret tt
  | OpTakeSnapshot => TakeSnapshot ;;; ret tt
  end.

(** The callbacks the clients hand in. *)
Definition submitted (op : ServerOp) : list nat :=
  match op with
  | OpPropose _ (Some c) | OpReadIndex _ (Some c) => [c]
  | _ => []
  end.

(** A run that does not panic. *)
Inductive server_run : list ServerOp -> Raftor S T -> Raftor S T -> Prop :=
| server_nil r : server_run [] r r
| server_cons op ops r r1 r2 : server_step op r = Ret (tt, r1) -> server_run ops r1 r2 -> server_run (op :: ops) r r2.

Definition idle r : Prop := ri_running_ r = false -> silent r.

Definition good (n : Z) r : Prop := server_ok n r /\ idle r.

Lemma served_good n m extra r r' : good m r -> served n extra r r' -> good n r' /\ server_ledger r' ≡ₚ extra ++ server_ledger r.
Proof. intros [Hok Hi] [O L R P Q I]. split; [|done]. split; [done|]. intros Hr. apply I; [congruence|]. apply Hi. congruence. Qed.

Lemma worked_good n r r' : ri_running_ r = true -> worked n r r' -> good n r' /\ server_ledger r' ≡ₚ server_ledger r.
Proof. intros Hr [O L R]. split; [|done]. split; [done|]. intros Hr'. destruct R as [R|[_ R]]; [congruence|done]. Qed.

Lemma good_weaken a b r : a <= b -> good a r -> good b r.
Proof. intros Hab [Hok Hi]. split; [by eapply server_ok_weaken|done]. Qed.

(** Work of the loop after steps that leave the requests alone. *)
Lemma serves_worked n r r1 r2 : server_ok n r -> serves n r r1 -> (server_ok n r1 -> worked n r1 r2) -> worked n r r2.
Proof.
  intros Hok H1 H2. destruct (H1 Hok) as [O1 L1 R1 _ _ _]. destruct (H2 O1) as [O2 L2 R2]. constructor; [done|cbn in *; by rewrite L2|].
  destruct R2 as [R2|R2]; [left; congruence|by right].
Qed.

Lemma tick_when_serves n b : pres (serves n) (when b (raw_node (S := S) (T := T) RawNode.Tick ;;; let! now := Now in set! ri_last_tick_ := now)).
Proof. pres_tac ltac:(first [apply tick_serves | apply Now_serves | serve_leaf]). Qed.

Lemma EventLoopIteration_worked n events r b r' : n < two64 -> server_ok n r -> EventLoopIteration events r = Ret (b, r') -> worked n r r'.
Proof.
  intros Hn Hok E. unfold EventLoopIteration in E. rewrite bind_get in E. destruct (negb _); [injection E as _ <-; constructor; auto|].
  apply bind_Ret in E as (? & r1 & E1 & E). apply (PollTransport_serves n) in E1.
  apply bind_Ret in E as (tick & r2 & E2 & E). apply (ShouldTick_serves n) in E2.
  apply bind_Ret in E as (? & r3 & E3 & E). apply (tick_when_serves n) in E3.
  apply bind_Ret in E as ([] & r4 & E4 & E). injection E as _ <-.
  apply (serves_worked n r r3); [done|by transitivity r1; [|transitivity r2]|]. intros O3. by apply ProcessRaftWork_worked.
Qed.

Lemma Poll_good n events r r' : n < two64 -> good n r -> Poll events r = Ret (tt, r') -> good n r' /\ server_ledger r' ≡ₚ server_ledger r.
Proof.
  intros Hn Hg E. unfold Poll in E. rewrite bind_get in E. destruct (ri_running_ r) eqn:Er; cbn [negb] in E; [|by injection E as <-].
  apply bind_Ret in E as (b & r1 & E1 & E). injection E as <-. apply worked_good; [done|].
  eapply EventLoopIteration_worked; [done|apply Hg|exact E1].
Qed.

Lemma Tick_good n b r r' : n < two64 -> good n r -> Raftor.Tick r = Ret (b, r') -> good n r' /\ server_ledger r' ≡ₚ server_ledger r.
Proof.
  intros Hn Hg E. unfold Raftor.Tick in E. rewrite bind_get in E. destruct (ri_running_ r) eqn:Er; cbn [negb] in E; [|by injection E as _ <-].
  apply bind_Ret in E as (tk & r1 & E1 & E). apply (tick_serves n) in E1. apply bind_Ret in E as (now & r2 & E2 & E). apply (Now_serves n) in E2.
  apply bind_Ret in E as (? & r3 & E3 & E). injection E3 as _ <-. apply bind_Ret in E as ([] & r4 & E4 & E). injection E as _ <-.
  match type of E4 with _ ?x = _ => set (r3 := x) in * end. assert (H3 : serves n r2 r3) by (by apply serves_frame).
  apply worked_good; [done|]. apply (serves_worked n r r3); [apply Hg|by transitivity r1; [|transitivity r2]|]. intros O3. by apply ProcessRaftWork_worked.
Qed.

Lemma Stop_good n r : good n r -> exists r', Stop r = Ret (tt, r') /\ good n r' /\ server_ledger r' ≡ₚ server_ledger r /\ ri_running_ r' = false.
Proof.
  intros [Hok Hi]. unfold Stop. rewrite bind_get, bind_modify. destruct (ri_running_ r) eqn:Er; cbn [negb].
  - match goal with |- context [bind _ _ ?x] => set (r0 := x) in * end.
    destruct (server_frame n r r0) as [Hok0 L0]; try done. destruct (shut_run n (ERaft ShuttingDown) r0 Hok0) as (r1 & E1 & [O1 L1 R1] & Hs).
    unfold shut in E1. apply bind_Ret in E1 as (? & r2 & E2 & E1). apply bind_Ret in E1 as (? & r3 & E3 & E1).
    rewrite (bind_run _ _ _ _ _ E2), (bind_run _ _ _ _ _ E3), (bind_run _ _ _ _ _ E1). eexists. split; [reflexivity|].
    split; [split; [by apply (server_frame n r1)|intros _; exact Hs]|]. split; [|exact R1].
    change (server_ledger r1 ≡ₚ server_ledger r). by rewrite L1, L0.
  - eexists. split; [reflexivity|]. destruct (server_frame n r (r <| ri_running_ := false |>)) as [Hok0 L0]; try done.
    split; [split; [done|intros _; exact (Hi Er)]|]. by rewrite L0.
Qed.

(** Starting may set [running_]. *)
Record starts r r' : Prop := {
  sa_counter : ri_proposal_counter_ r' = ri_proposal_counter_ r;
  sa_config : ri_config_ r' = ri_config_ r;
  sa_proposals : ri_proposal_queue_ r' = ri_proposal_queue_ r;
  sa_reads : ri_read_index_queue_ r' = ri_read_index_queue_ r;
  sa_tracker : trk r' = trk r;
  sa_running : ri_running_ r' = false -> ri_running_ r = false
}.

#[export] Instance starts_preorder : PreOrder starts.
Proof. split; [by constructor|]. intros r1 r2 r3 [] []. constructor; try congruence; auto. Qed.

Lemma Start_starts res : pres starts (Start (S := S) (T := T) res).
Proof.
  unfold Start, InitializeSnapshotState, Now, rok, rfail. pres_tac ltac:(first [apply pres_modify; by constructor | apply pres_zoom; intros ? ? ? E; injection E as _ <-; by constructor]).
Qed.

Lemma starts_good n r r' : good n r -> starts r r' -> good n r' /\ server_ledger r' ≡ₚ server_ledger r.
Proof.
  intros [Hok Hi] [Ec Ecf Ep Er Et Hrun]. destruct (server_frame n r r' Ec Ecf Ep Er Et Hok) as [Hok' L]. split; [split; [done|]|by rewrite L].
  intros Hr. destruct (Hi (Hrun Hr)) as (? & ? & ? & ?). unfold silent. by rewrite Ep, Er, Et.
Qed.

(** A request is queued or turned down. *)
Lemma enqueue_good n callback r (push : M (Raftor S T) unit) r' : good n r ->
  (push r = Ret (tt, r') -> server_ok (n + 1) r' /\ server_ledger r' ≡ₚ match callback with Some c => [c] | None => [] end ++ server_ledger r /\
     ri_running_ r' = ri_running_ r) ->
  match GetRequestRejectionError r with Some e => tracker (invoke callback (Failed e)) | None => push end r = Ret (tt, r') ->
  good (n + 1) r' /\ server_ledger r' ≡ₚ match callback with Some c => [c] | None => [] end ++ server_ledger r.
Proof.
  intros Hg Hp E. destruct (GetRequestRejectionError r) eqn:Erej.
  - apply (invoke_served (n + 1)) in E; [by eapply served_good|]. eapply server_ok_weaken; [|apply Hg]. lia.
  - apply accepted in Erej. destruct (Hp E) as (Hok & L & R). split; [|done]. split; [done|]. intros Hr. congruence.
Qed.

Lemma Propose_good n data callback r r' : good n r -> Raftor.Propose data callback r = Ret (tt, r') ->
  good (n + 1) r' /\ server_ledger r' ≡ₚ match callback with Some c => [c] | None => [] end ++ server_ledger r.
Proof.
  intros Hg E. unfold Raftor.Propose, EnqueueProposal in E. rewrite !bind_get in E. eapply enqueue_good; [done| |exact E].
  clear E. intros E. injection E as <-. destruct Hg as [[O B Hp Hr] _]. split; [|split; [|done]].
  - constructor; cbn; auto. rewrite length_app. cbn. lia.
  - unfold server_ledger, queued. cbn. rewrite flat_map_app. cbn. unfold item_callback at 2. cbn. rewrite app_nil_r. solve_Permutation.
Qed.

Lemma ReadIndex_good n ctx callback r r' : good n r -> Raftor.ReadIndex ctx callback r = Ret (tt, r') ->
  good (n + 1) r' /\ server_ledger r' ≡ₚ match callback with Some c => [c] | None => [] end ++ server_ledger r.
Proof.
  intros Hg E. unfold Raftor.ReadIndex, EnqueueReadIndex in E. rewrite !bind_get in E. eapply enqueue_good; [done| |exact E].
  clear E. intros E. injection E as <-. destruct Hg as [[O B Hp Hr] _]. split; [|split; [|done]].
  - constructor; cbn; auto. rewrite length_app. cbn. lia.
  - unfold server_ledger, queued. cbn. rewrite flat_map_app. cbn. unfold item_callback at 3. cbn. rewrite app_nil_r. solve_Permutation.
Qed.

(** A proposal of the server's own. *)
Lemma own_proposal_good n {A} (k : string -> M (Raftor S T) A) r x r' : n + 1 < two64 -> good n r -> (forall ctx, pres (serves (n + 1)) (k ctx)) ->
  (let! ctx := GenerateProposalContext in k ctx) r = Ret (x, r') -> good (n + 1) r' /\ server_ledger r' ≡ₚ server_ledger r.
Proof.
  intros Hn Hg Hk E. apply bind_Ret in E as (ctx & r1 & E1 & E).
  destruct (fresh_context (n + 1) _ _ _ Hn ltac:(replace (n + 1 - 1) with n by lia; apply Hg) E1) as (_ & S1 & _).
  apply (served_good (n + 1) n [] r r' Hg). eapply served_then; [exact S1|]. by apply (Hk _ _ _ _ E).
Qed.

Lemma serves_good n r r' : good n r -> serves n r r' -> good n r' /\ server_ledger r' ≡ₚ server_ledger r.
Proof. intros Hg H. by apply (served_good n n []), H, Hg. Qed.

Lemma raw_node_serves {A} n (m : M (RawNode S) A) : pres (serves n) (raw_node (T := T) m).
Proof. unfold raw_node, on_node. serve_leaf. Qed.

Lemma step_good n op r r' : n + 1 < two64 -> good n r -> server_step op r = Ret (tt, r') ->
  good (n + 1) r' /\ server_ledger r' ≡ₚ submitted op ++ server_ledger r.
Proof.
  intros Hn Hg E. assert (Hg1 : good (n + 1) r) by (eapply good_weaken; [|exact Hg]; lia).
  destruct op; cbn [server_step submitted app] in *.
  - apply bind_Ret in E as (x & r1 & E & [= <-]). apply Start_starts in E. by apply starts_good.
  - destruct (Stop_good (n + 1) r Hg1) as (r1 & E1 & H1 & L1 & _). rewrite E in E1. by injection E1 as <-.
  - apply (Propose_good n) in E as [H L]; [|done]. by destruct callback.
  - apply (ReadIndex_good n) in E as [H L]; [|done]. by destruct callback.
  - by apply (Poll_good (n + 1)) in E.
  - apply bind_Ret in E as (b & r1 & E & [= <-]). by apply (Tick_good (n + 1)) in E.
  - apply bind_Ret in E as (x & r1 & E & [= <-]). unfold AddNode in E. apply (own_proposal_good n) in E; [done..|]. intros ctx. apply raw_node_serves.
  - apply bind_Ret in E as (x & r1 & E & [= <-]). unfold RemoveNode in E. apply (own_proposal_good n) in E; [done..|]. intros ctx. apply raw_node_serves.
  - apply bind_Ret in E as (x & r1 & E & [= <-]). unfold UpdateNodeAddress in E.
    destruct (id =? 0); [injection E as _ <-; done|]. destruct (slen addr =? 0); [injection E as _ <-; done|]. rewrite bind_get in E.
    destruct (InitialState _); [|injection E as _ <-; done]. destruct (negb _); [injection E as _ <-; done|].
    apply (own_proposal_good n) in E; [done..|]. intros ctx. apply raw_node_serves.
  - apply raw_node_serves with (n := n + 1) in E. by apply serves_good.
  - apply bind_Ret in E as (x & r1 & E & [= <-]). apply raw_node_serves with (n := n + 1) in E. by apply serves_good.
  - apply bind_Ret in E as (x & r1 & E & [= <-]). apply TakeSnapshot_serves with (n := n + 1) in E. by apply serves_good.
Qed.

Lemma run_good ops r r' : server_run ops r r' -> forall n, n + zlen ops < two64 -> good n r ->
  good (n + zlen ops) r' /\ server_ledger r' ≡ₚ flat_map submitted ops ++ server_ledger r.
Proof.
  induction 1 as [r|op ops r r1 r2 E Hrun IH]; intros n Hn Hg; cbn [length flat_map] in *.
  - rewrite Z.add_0_r. done.
  - destruct (step_good n op r r1 ltac:(lia) Hg E) as [H1 L1]. destruct (IH (n + 1) ltac:(lia) H1) as [H2 L2].
    replace (n + Z.of_nat (Datatypes.S (length ops))) with (n + 1 + zlen ops) by lia. split; [done|]. rewrite L2, L1. solve_Permutation.
Qed.

(** A server that was just created. *)
Lemma create_good config state_machine storage book draws r :
  Create config state_machine storage book draws = Ret (Ok r) -> good 0 r /\ server_ledger r = [].
Proof.
  unfold Create. destruct (Validate config); [|done]. destruct storage as [s|]; [|done]. intros E.
  apply obind_Ret in E as ([b s1] & _ & E). destruct b; [|done]. apply obind_Ret in E as ([i t1] & _ & E). destruct i as [i|]; [|done].
  apply obind_Ret in E as (impl & E & [= <-]). unfold construct in E. apply obind_Ret in E as (n & _ & E). apply obind_Ret in E as ([[] r1] & E & [= <-]).
  match type of E with _ ?x = _ => set (r0 := x) in * end.
  assert (Hok : server_ok 0 r0) by (constructor; cbn; rewrite ?dom_empty_L; set_solver).
  assert (Hs : serves 0 r0 r1).
  { revert E. apply pres_bind; [typeclasses eauto|apply RefreshStatus_serves|intros ?].
    apply pres_foreach; [typeclasses eauto|intros x]. apply on_processor_serves. unfold transport. settle_leaf. }
  destruct (Hs Hok) as [O1 L1 R1 P1 Q1 I1].
  assert (Hsil : silent r1) by (apply I1; [done|]; done).
  split; [split; [done|by intros _]|]. apply Permutation_nil. by rewrite L1.
Qed.

(** C10: No request is lost and none is answered twice.  Along every run of a
    created server, of fewer than 2^64 calls, the callbacks handed in by
    clients are those that wait in a queue or for the node and those that were
    called, each once.  When the server is not running, because it was never
    started, was stopped or met a fatal error, nobody waits.  [Stop] always
    returns and leaves it so. *)
Theorem requests_answered_once config state_machine storage book draws ops r0 r :
  Create config state_machine storage book draws = Ret (Ok r0) -> zlen ops < two64 -> server_run ops r0 r ->
  server_ledger r ≡ₚ flat_map submitted ops /\
  (ri_running_ r = false -> called (rp_proposal_tracker_ (ri_ready_processor_ r)) ≡ₚ flat_map submitted ops) /\
  exists r', Stop r = Ret (tt, r') /\ ri_running_ r' = false /\
    called (rp_proposal_tracker_ (ri_ready_processor_ r')) ≡ₚ flat_map submitted ops.
Proof.
  intros Ec Hn Hrun. destruct (create_good _ _ _ _ _ _ Ec) as [Hg0 L0]. destruct (run_good _ _ _ Hrun 0 ltac:(lia) Hg0) as [Hg L].
  rewrite L0, app_nil_r in L. split; [done|]. split.
  - intros Hr. by rewrite <- silent_ledger by (by apply Hg).
  - destruct (Stop_good _ r Hg) as (r' & E & Hg' & L' & R'). exists r'. split; [done|]. split; [done|].
    rewrite <- silent_ledger by (by apply Hg'). by rewrite L'.
Qed.

(** ** A fatal error is final *)

(** Nothing but starting and stopping touches the life of the server. *)
Record lives r r' : Prop := {
  lv_terminal : ri_terminal_error_ r' = ri_terminal_error_ r;
  lv_running : ri_running_ r' = ri_running_ r
}.

#[export] Instance lives_preorder : PreOrder lives.
Proof. split; [by constructor|]. intros r1 r2 r3 [] []. constructor; congruence. Qed.

Lemma Now_lives : pres lives (Now (S := S) (T := T)).
Proof. unfold Now. pres_tac ltac:(apply pres_modify; by constructor). Qed.

Ltac live_leaf := first [apply pres_modify; by constructor | apply Now_lives | apply pres_zoom; by constructor].

Lemma drain_lives fuel pop body : pres lives pop -> (forall item, pres lives (body item)) -> pres lives (drain (S := S) (T := T) fuel pop body).
Proof.
  intros Hp Hb. induction fuel as [|fuel IH]; cbn [drain]; [by intros ? ? ?|].
  apply pres_bind; [typeclasses eauto|done|]. intros [item|]; [|apply pres_ret; typeclasses eauto].
  apply pres_bind; [typeclasses eauto|apply Hb|]. intros ?. exact IH.
Qed.

Lemma queue_loops_live (body : QueueItem -> M (Raftor S T) unit) : (forall item, pres lives (body item)) ->
  pres lives (drain_proposals body) /\ pres lives (drain_reads body).
Proof.
  intros Hb. unfold drain_proposals, drain_reads, proposal_queue, read_index_queue.
  split; (apply pres_bind; [typeclasses eauto|apply pres_get; typeclasses eauto|intros ?]; apply drain_lives; [live_leaf|done]).
Qed.

Lemma FailQueuedRequests_lives e : pres lives (FailQueuedRequests (S := S) (T := T) e).
Proof.
  unfold FailQueuedRequests. apply pres_bind; [typeclasses eauto| |intros ?]; apply queue_loops_live; intros ?; unfold tracker, on_processor; live_leaf.
Qed.

Ltac live_unfold := unfold ProcessProposal, ProcessRead, GenerateProposalContext, tracker, raw_node, on_processor, OnMessage, OnPeerError,
  ShouldTick, ProcessTimeouts, RefreshStatus, MaybeAutoSnapshot, should_snapshot, TakeSnapshot, on_storage, mrbind, rok, rfail.

Lemma ProcessProposalQueue_lives : pres lives (ProcessProposalQueue (S := S) (T := T)).
Proof. apply queue_loops_live. intros item. live_unfold. pres_tac live_leaf. Qed.

Lemma ProcessReadIndexQueue_lives : pres lives (ProcessReadIndexQueue (S := S) (T := T)).
Proof. apply queue_loops_live. intros item. live_unfold. pres_tac live_leaf. Qed.

Lemma rest_of_work_lives : pres lives (ProcessReadIndexQueue (S := S) (T := T) ;;; ProcessTimeouts ;;; MaybeAutoSnapshot ;;; RefreshStatus).
Proof. live_unfold. pres_tac ltac:(first [apply ProcessReadIndexQueue_lives | live_leaf]). Qed.

(** The invariant: a terminal error is a checksum mismatch, and the loop has
    ended. *)
Definition mortal r : Prop := forall e, ri_terminal_error_ r = Some e -> e = ERaft ChecksumMismatch /\ ri_running_ r = false.

Lemma lives_mortal r r' : lives r r' -> mortal r -> mortal r'.
Proof. intros [Et Er] H e He. rewrite Er. apply H. by rewrite <- Et. Qed.

(** What stays once there is a terminal error. *)
Definition stays r r' : Prop := mortal r -> mortal r' /\ forall e, ri_terminal_error_ r = Some e -> ri_terminal_error_ r' = Some e.

#[export] Instance stays_preorder : PreOrder stays.
Proof. split; [by intros r H|]. intros r1 r2 r3 H1 H2 H. destruct (H1 H) as [M1 T1]. destruct (H2 M1) as [M2 T2]. auto. Qed.

Lemma lives_stays r r' : lives r r' -> stays r r'.
Proof. intros H Hm. split; [by eapply lives_mortal|]. intros e He. by rewrite (lv_terminal _ _ H). Qed.

Lemma pres_lives_stays {A} (m : M (Raftor S T) A) : pres lives m -> pres stays m.
Proof. intros H r a r' E. by eapply lives_stays, H. Qed.

Lemma EnterTerminalState_stays : pres stays (EnterTerminalState (S := S) (T := T) (ERaft ChecksumMismatch)).
Proof.
  intros r [] r' E Hm. unfold EnterTerminalState in E. rewrite bind_get in E. destruct (ri_terminal_error_ r) as [e0|] eqn:Et.
  - injection E as <-. split; [done|]. by rewrite Et.
  - rewrite !bind_modify in E.
    match type of E with _ ?x = _ => set (r0 := x) in * end. assert (Hl : lives r0 r').
    { revert E. apply pres_bind; [typeclasses eauto|apply FailQueuedRequests_lives|intros ?]. unfold tracker, on_processor. pres_tac live_leaf. }
    split; [|done]. intros e He. rewrite (lv_terminal _ _ Hl) in He. injection He as <-. split; [done|]. by rewrite (lv_running _ _ Hl).
Qed.

Lemma ProcessRaftWork_stays : pres stays (ProcessRaftWork (S := S) (T := T)).
Proof.
  unfold ProcessRaftWork. apply pres_bind; [typeclasses eauto|apply pres_lives_stays, ProcessProposalQueue_lives|intros ?].
  apply pres_bind; [typeclasses eauto|apply pres_lives_stays; unfold on_processor; live_leaf|]. intros [b|e]; [apply pres_lives_stays, rest_of_work_lives|].
  case_bool_decide as He; [subst e|apply pres_lives_stays, rest_of_work_lives].
  apply pres_bind; [typeclasses eauto|apply EnterTerminalState_stays|intros ?]. apply pres_lives_stays. live_unfold. pres_tac live_leaf.
Qed.

Lemma EventLoopIteration_stays events : pres stays (EventLoopIteration (S := S) (T := T) events).
Proof.
  unfold EventLoopIteration, PollTransport. live_unfold.
  pres_tac ltac:(first [apply ProcessRaftWork_stays | apply pres_lives_stays; live_leaf]).
Qed.

Lemma stop_stays : pres stays (Stop (S := S) (T := T)).
Proof.
  intros r [] r' E Hm. unfold Stop in E. rewrite bind_get, bind_modify in E.
  assert (H0 : stays r (r <| ri_running_ := false |>)).
  { intros _. split; [|done]. intros e He. split; [by apply (Hm e)|done]. }
  destruct (H0 Hm) as [M0 T0]. destruct (negb _); [by injection E as <-|]. match type of E with _ ?x = _ => assert (Hl : lives x r') end.
  { revert E. apply pres_bind; [typeclasses eauto|apply FailQueuedRequests_lives|intros ?]. unfold tracker, on_processor. pres_tac live_leaf. }
  destruct (lives_stays _ _ Hl M0) as [M1 T1]. split; [done|]. intros e He. by apply T1.
Qed.

(** [Start] does not touch the terminal error, and is turned down by it. *)
Definition same_fate r r' : Prop := ri_terminal_error_ r' = ri_terminal_error_ r.

#[export] Instance same_fate_preorder : PreOrder same_fate.
Proof. split; [done|]. intros r1 r2 r3 H1 H2. unfold same_fate in *. congruence. Qed.

Lemma start_fate res : pres same_fate (Start (S := S) (T := T) res).
Proof. unfold Start, InitializeSnapshotState, Now, on_processor, rok, rfail. pres_tac ltac:(first [by apply pres_modify | by apply pres_zoom]). Qed.

Lemma start_stays res : pres stays (Start (S := S) (T := T) res).
Proof.
  intros r x r' E Hm. pose proof (start_fate _ _ _ _ E) as Ht. unfold same_fate in Ht. split; [|intros e; by rewrite Ht].
  intros e He. rewrite Ht in He. unfold Start in E. rewrite bind_get in E. unfold GetTerminalError in E. rewrite He in E. injection E as _ <-. by apply Hm.
Qed.

Lemma step_stays op : pres stays (server_step op).
Proof.
  destruct op; cbn [server_step]; unfold Raftor.Propose, Raftor.ReadIndex, EnqueueProposal, EnqueueReadIndex, proposal_queue, read_index_queue,
    Poll, Raftor.Tick, AddNode, RemoveNode, UpdateNodeAddress, Raftor.TransferLeader, Raftor.Campaign; live_unfold;
  pres_tac ltac:(first [ apply start_stays | apply stop_stays | apply EventLoopIteration_stays | apply ProcessRaftWork_stays
                       | apply pres_lives_stays; live_leaf ]).
Qed.

Lemma run_stays ops r r' : server_run ops r r' -> stays r r'.
Proof. induction 1 as [r|op ops r r1 r2 E _ IH]; [reflexivity|]. etransitivity; [by eapply step_stays|done]. Qed.

Lemma create_mortal config state_machine storage book draws r :
  Create config state_machine storage book draws = Ret (Ok r) -> mortal r.
Proof.
  unfold Create. destruct (Validate config); [|done]. destruct storage as [s|]; [|done]. intros E.
  apply obind_Ret in E as ([b s1] & _ & E). destruct b; [|done]. apply obind_Ret in E as ([i t1] & _ & E). destruct i as [i|]; [|done].
  apply obind_Ret in E as (impl & E & [= <-]). unfold Raftor.construct in E. apply obind_Ret in E as (n & _ & E). apply obind_Ret in E as ([[] r1] & E & [= <-]).
  match type of E with _ ?x = _ => assert (Hl : lives x r1) end.
  { revert E. apply pres_bind; [typeclasses eauto| |intros ?]; unfold RefreshStatus, on_processor; pres_tac live_leaf. }
  intros e He. rewrite (lv_terminal _ _ Hl) in He. done.
Qed.

(** C25: A fatal error is final.  When a run of a created server has met one, it
    is a checksum mismatch and the event loop has ended; [Start] is turned
    down with it and changes nothing; a new proposal or read is answered with
    it at once, without reaching the node; and no call takes it back. *)
Theorem fatal_error_is_final config state_machine storage book draws ops r0 r e :
  Create config state_machine storage book draws = Ret (Ok r0) -> server_run ops r0 r -> ri_terminal_error_ r = Some e ->
  e = ERaft ChecksumMismatch /\ ri_running_ r = false /\
  (forall res, Start res r = Ret (Err e, r)) /\
  (forall data callback, Raftor.Propose data callback r = tracker (invoke callback (Failed e)) r) /\
  (forall ctx callback, Raftor.ReadIndex ctx callback r = tracker (invoke callback (Failed e)) r) /\
  (forall op r', server_step op r = Ret (tt, r') -> ri_terminal_error_ r' = Some e /\ ri_running_ r' = false).
Proof.
  intros Ec Hrun He. pose proof (create_mortal _ _ _ _ _ _ Ec) as M0. destruct (run_stays _ _ _ Hrun M0) as [Hm _].
  destruct (Hm e He) as [He' Hr]. split; [done|]. split; [done|].
  assert (Hrej : GetRequestRejectionError r = Some e) by (unfold GetRequestRejectionError, GetTerminalError; by rewrite He).
  split; [|split; [|split]].
  - intros res. unfold Start. rewrite bind_get. unfold GetTerminalError. by rewrite He.
  - intros data callback. unfold Raftor.Propose, EnqueueProposal. by rewrite !bind_get, Hrej.
  - intros ctx callback. unfold Raftor.ReadIndex, EnqueueReadIndex. by rewrite !bind_get, Hrej.
  - intros op r' E. destruct (step_stays op _ _ _ E Hm) as [Hm' Ht]. pose proof (Ht e He) as He''. split; [done|]. by apply (Hm' e).
Qed.
End RaftorProps.

(** ** A created server is ready for its driver *)

Section Created.
Context {ENV : Env} {DC : DriverCodec} {MO : MapOrder} {RT : Runtime} {IO : StdIo}.
Context {S : Type} {ST : Storage S} {SL : StorageLaws S} {WS : WritableStorage S} {T : Type} {SM : StateMachine T}.

(** The index of the snapshot the storage starts from. *)
Definition local_index (s : S) : Z := match wr_LocalSnapshot s with Ok (Some snapshot) => sn_index snapshot | _ => 0 end.

(** The state machine [t'] is [t] restored from the local snapshot of the
    storage, if there is one. *)
Definition restored_from (s : S) (t t' : T) : Prop :=
  match wr_LocalSnapshot s with
  | Ok (Some snapshot) => if sn_index snapshot =? 0 then t' = t else sm_step (CallRestore snapshot) t t'
  | _ => t' = t
  end.

Lemma RestoreLocalSnapshot_Ok (s : S) (t t1 : T) i : RestoreLocalSnapshot s t = Ret (Ok i, t1) -> i = local_index s /\ restored_from s t t1.
Proof.
  unfold RestoreLocalSnapshot, local_index, restored_from. destruct (wr_LocalSnapshot s) as [[snap|]|]; [|by intros [= <- <-]|done].
  destruct (Z.eqb_spec (sn_index snap) 0) as [E|]; [by intros [= <- <-]|]. unfold mrbind. intros E.
  apply bind_Ret in E as (x & t2 & E1 & E). destruct x as [[]|]; [|done]. injection E as <- <-. split; [done|].
  apply zoom_Ret in E1 as (? & [t3 reader] & E1 & [= <- ->]). by exists reader.
Qed.

Lemma construct_processor config (t : T) s book i draws (r : Raftor S T) : Raftor.construct config t s book i draws = Ret r ->
  exists node, RawNode.new ((ToRaftConfig config) <| c_applied := i |>) s draws = Ret node /\
    rp_raw_node_ (ri_ready_processor_ r) = node /\ rp_applied_index_ (ri_ready_processor_ r) = i /\
    rp_wal_storage_ (ri_ready_processor_ r) = book /\ rp_state_machine_ (ri_ready_processor_ r) = t.
Proof.
  unfold Raftor.construct. intros E. apply obind_Ret in E as (node & En & E). apply obind_Ret in E as ([[] r1] & E & [= <-]).
  exists node. split; [done|]. unfold RefreshStatus in E. rewrite bind_bind, bind_get, bind_modify in E.
  match type of E with foreach ?l _ ?x = _ => set (r0 := x) in *; generalize dependent l end. intros l.
  assert (H0 : rp_raw_node_ (ri_ready_processor_ r0) = node /\ rp_applied_index_ (ri_ready_processor_ r0) = i /\
    rp_wal_storage_ (ri_ready_processor_ r0) = book /\ rp_state_machine_ (ri_ready_processor_ r0) = t) by done. clearbody r0.
  revert r0 H0. induction l as [|x l IH]; intros r0 H0 E; cbn [foreach] in E; [by injection E as <-|].
  eapply IH; [|exact E]. exact H0.
Qed.

(** C19: A server that [Create] returns is in the state its driver starts from.
    The state machine is the given one, restored from the local snapshot of the
    storage when there is one; the applied index is the index of that snapshot,
    or 0, and is where the node begins to hand out committed entries; the node
    satisfies its invariant over the stored log, and nothing is on its way.
    [k] is the room for the run that follows.  The storage, once bootstrapped,
    satisfies its invariant and its log begins right behind the local snapshot;
    its commit index, if it has a hard state, is not before that; the address
    book leaves the log alone; terms are not negative, and terms and indexes
    stay [k] short of the largest value; of the settings the heartbeat tick is
    not negative and the number of messages in flight below 2^62. *)
Theorem created_server_ready config (t : T) s book draws (r : Raftor S T) s1 rs k :
  Create config t (Some s) book draws = Ret (Ok r) -> BootstrapStorageIfNeeded config s = Ret (Ok tt, s1) ->
  st_inv s1 -> InitialState s1 = Ok rs -> 0 <= hs_term (rs_hard_state rs) -> 0 <= k ->
  0 <= rc_max_inflight_messages config < 2 ^ 62 -> 0 <= rc_heartbeat_tick config ->
  local_index s1 = v_dummy (st_view s1) ->
  (rs_hard_state rs <> empty_hard_state -> v_dummy (st_view s1) <= hs_commit (rs_hard_state rs)) ->
  match book with Some b => book_ok b | None => True end ->
  hs_term (rs_hard_state rs) + k < u64max -> v_last (st_view s1) + k < u64max ->
  restored_from s1 t (rp_state_machine_ (ri_ready_processor_ r)) /\
  rp_ok k (ri_ready_processor_ r) /\ rp_applied_index_ (ri_ready_processor_ r) = local_index s1 /\
  log_view (raft_log_ (raft_ (rp_raw_node_ (ri_ready_processor_ r)))) = st_view s1.
Proof.
  intros E Eb Hi Hrs Ht Hk Hmi Hhb Hli Hcm Hbk Htk Hlk. unfold Create in E. destruct (Validate config); [|done].
  rewrite Eb in E. cbn [obind] in E. apply obind_Ret in E as ([i t1] & Er & E). destruct i as [i|]; [|done].
  apply RestoreLocalSnapshot_Ok in Er as [-> Hre]. apply obind_Ret in E as (impl & E & [= <-]).
  destruct (construct_processor _ _ _ _ _ _ _ E) as (node & En & Hn & Ha & Hb & Hm). split; [by rewrite Hm|].
  unfold RawNode.new in En. apply obind_Ret in En as (raft & En & E2). apply obind_Ret in E2 as (? & _ & [= <-]).
  assert (Hst : local_index s1 <= start_commit ((ToRaftConfig config) <| c_applied := local_index s1 |>) rs (st_view s1)).
  { unfold start_commit. cbn. rewrite Hli. case_bool_decide; cbn; [lia|]. by apply Hcm. }
  assert (Hco : config_ok ((ToRaftConfig config) <| c_applied := local_index s1 |>)) by (constructor; cbn; unfold two64; lia).
  destruct (new_node_started _ _ _ _ _ Hco Hi Hrs ltac:(lia) Hst En) as (Hok & Hs & Hv & Hc & Htm).
  assert (Hts : term_ raft <= hs_term (rs_hard_state rs)).
  { rewrite Htm. unfold start_term. destruct (_ && _); lia. }
  split; [|split; [done|by rewrite Hn]]. constructor; rewrite ?Hn; cbn; [|done|by rewrite Ha| |unfold book_fine; by rewrite Hb].
  - destruct Hok. constructor; try done; [lia|by rewrite Hv].
  - rewrite Hs, Ha, Hc. lia.
Qed.
End Created.

(** ** The temporary file *)

Lemma substring_all s : String.substring 0 (String.length s) s = s.
Proof. induction s as [|c s IH]; cbn; [done|]. by rewrite IH. Qed.

Lemma substring_past s i n : (String.length s <= i)%nat -> String.substring i n s = ""%string.
Proof.
  revert i. induction s as [|c s IH]; intros i Hi; [by destruct i, n|]. cbn in Hi. destruct i as [|i]; [lia|]. cbn. apply IH. lia.
Qed.

Section TempFileProps.
Context {IO : StdIo}.

Definition new_file (calls : nat) : TempFileSnapshotWriter := mkTempFile "" 0 calls 0.

(** At the end of the file, with the bytes counted. *)
Definition appending (data : string) (f : TempFileSnapshotWriter) : Prop :=
  tf_data f = data /\ tf_pos f = slen data /\ tf_total_bytes_written_ f = slen data.

Lemma temp_Write_Ok data chunk f f' : slen (data +:+ chunk) < two64 -> appending data f -> temp_Write chunk f = Ret (Ok tt, f') ->
  appending (data +:+ chunk) f'.
Proof.
  intros Hl (Hd & Hp & Ht) E. unfold temp_Write in E. apply bind_Ret in E as (n & f1 & E1 & E).
  unfold fwrite in E1. rewrite bind_get in E1. injection E1 as <- <-.
  destruct (Z.eqb_spec (io_fwrite (tf_calls f) (slen chunk)) (slen chunk)) as [En|]; cbn [negb] in E; [|done].
  rewrite bind_modify in E. injection E as <-. unfold slen in *. rewrite string_app_length in Hl.
  split; cbn -[String.append]; [|rewrite Hp, Ht, En].
  - rewrite Hp, Hd, En, !Nat2Z.id, !substring_all, substring_past by lia. by rewrite string_app_nil.
  - unfold slen. rewrite string_app_length. split; [lia|]. u64_lia.
Qed.

Definition joined (chunks : list string) : string := foldr String.append "" chunks.

Lemma writes_Ok chunks data f f' : slen (data +:+ joined chunks) < two64 -> appending data f ->
  foreachM chunks temp_Write f = Ret (Ok tt, f') -> appending (data +:+ joined chunks) f'.
Proof.
  revert data f. induction chunks as [|c chunks IH]; intros data f Hl Ha E; cbn [foreachM joined foldr] in *.
  - injection E as <-. by rewrite string_app_nil.
  - unfold mrbind in E. apply bind_Ret in E as (x & f1 & E1 & E). destruct x as [[]|]; [|done].
    assert (Hl' : slen (data +:+ c) < two64) by (unfold slen in *; rewrite !string_app_length in *; lia).
    rewrite <- string_app_assoc in Hl. rewrite <- string_app_assoc. apply (IH _ f1); [done|by eapply temp_Write_Ok|done].
Qed.

(** Reading copies the file, in pieces of any size the library returns. *)
Lemma fread_run to_read a rest f : tf_data f = a +:+ rest -> tf_pos f = slen a -> 0 <= to_read -> exists b c f',
  rest = b +:+ c /\ slen b <= to_read /\ (0 < io_fread (tf_calls f) to_read -> 0 < slen rest -> 0 < slen b) /\
  fread to_read f = Ret (b, f') /\ tf_data f' = tf_data f /\ tf_pos f' = slen (a +:+ b).
Proof.
  intros Hd Hp Ht. pose proof (io_fread_range (tf_calls f) to_read Ht) as Hr.
  set (n := Z.min (io_fread (tf_calls f) to_read) (slen (tf_data f) - tf_pos f)).
  assert (Hn : 0 <= n <= slen rest) by (unfold n; rewrite Hd, Hp; unfold slen; rewrite string_app_length; lia).
  destruct (substring_split (a +:+ rest) (String.length a) (Z.to_nat n)) as (a' & b & c & E & Ea & Eb & Es).
  { rewrite string_app_length. unfold slen in *. lia. }
  assert (a' = a /\ rest = b +:+ c) as [-> Er].
  { revert a' E Ea. clear. induction a as [|y a IH]; intros [|z a'] E Ea; try done. injection E as -> E. injection Ea as Ea.
    destruct (IH _ E Ea) as [-> ->]. done. }
  exists b, c, (f <| tf_calls := Datatypes.S (tf_calls f) |> <| tf_pos := slen a + n |>). split; [done|]. split; [unfold slen; lia|]. split; [unfold n, slen in *; rewrite Hd, Hp, string_app_length in *; lia|].
  split; [|split; [reflexivity|]].
  - unfold fread. rewrite bind_get. cbv zeta. fold n. rewrite !bind_modify. unfold ret. rewrite Hp, Hd. unfold slen at 1. rewrite Nat2Z.id, Es. reflexivity.
  - cbn. unfold slen. rewrite string_app_length. lia.
Qed.
Lemma load_loop_run fuel payload a rest f : tf_data f = a +:+ rest -> tf_pos f = slen a -> payload = slen (a +:+ rest) ->
  (String.length rest < fuel)%nat -> exists res f', load_loop fuel payload a f = Ret (res, f') /\
    (res = Ok (a +:+ rest) \/ exists msg, res = Err (EStorageOther msg)) /\
    ((forall n k, 0 < k -> 0 < io_fread n k) -> res = Ok (a +:+ rest)).
Proof.
  revert a rest f. induction fuel as [|fuel IH]; intros a rest f Hd Hp Hpay Hf; [lia|]. cbn [load_loop].
  assert (Hs : slen (a +:+ rest) = slen a + slen rest) by (unfold slen; rewrite string_app_length; lia).
  destruct (Z.ltb_spec (slen a) payload) as [Hlt|Hge].
  2: { assert (rest = "") as -> by (destruct rest; [done|unfold slen in *; cbn in *; lia]). rewrite string_app_nil.
       eexists _, f. split; [reflexivity|]. auto. }
  rewrite bind_get. cbv zeta. destruct (fread_run (Z.min (payload - slen a) 1048576) a rest f Hd Hp ltac:(lia)) as (b & c & f' & -> & Hb & Hpos & E & Hd' & Hp').
  rewrite (bind_run _ _ _ _ _ E). destruct (Z.eqb_spec (slen b) 0) as [E0|E0].
  - assert (Hno : (forall n k, 0 < k -> 0 < io_fread n k) -> False).
    { intros Hpr. specialize (Hpr (tf_calls f) (Z.min (payload - slen a) 1048576) ltac:(lia)). specialize (Hpos Hpr ltac:(lia)). lia. }
    destruct (io_ferror (tf_calls f)); eexists _, f'; (split; [reflexivity|]); (split; [right; by eexists|]); intros Hpr; by destruct (Hno Hpr).
  - assert (Hb0 : (0 < String.length b)%nat) by (unfold slen in E0; lia). rewrite string_app_length in Hf.
    rewrite <- string_app_assoc. apply IH; [by rewrite Hd', Hd, string_app_assoc|done|by rewrite string_app_assoc|lia].
Qed.

(** What a state machine writes into the temporary file is what the
    snapshot carries.  If every write of some chunks succeeded, reading the
    file back returns, and it returns the chunks put together or an error of
    the library, never other data; when [fseek] succeeds and [fread] always
    moves some bytes, it returns the data. *)
Theorem snapshot_file_roundtrip calls chunks f : slen (joined chunks) < two32 ->
  foreachM chunks temp_Write (new_file calls) = Ret (Ok tt, f) ->
  exists res f', LoadSnapshotDataFromFile (tf_total_bytes_written_ f) f = Ret (res, f') /\
    (res = Ok (joined chunks) \/ exists msg, res = Err (EStorageOther msg)) /\
    ((forall n, io_fseek n = true) -> (forall n k, 0 < k -> 0 < io_fread n k) -> res = Ok (joined chunks)).
Proof.
  intros Hl E. unfold two32 in Hl. destruct (writes_Ok chunks "" (new_file calls) f) as (Hd & _ & Ht);
    [change ("" +:+ joined chunks)%string with (joined chunks); unfold two64; lia|done|done|].
  change ("" +:+ joined chunks)%string with (joined chunks) in *. rewrite Ht. unfold LoadSnapshotDataFromFile.
  rewrite (proj2 (Z.ltb_ge _ _)) by lia. rewrite bind_get, bind_modify. destruct (io_fseek (tf_calls f)) eqn:Es; cbn [negb].
  - rewrite bind_modify. match goal with |- context [load_loop ?n ?p ?d ?x] => destruct (load_loop_run n p "" (joined chunks) x) as (res & f' & E' & H1 & H2) end.
    + exact Hd.
    + done.
    + done.
    + unfold slen. lia.
    + exists res, f'. split; [exact E'|]. split; [exact H1|]. auto.
  - eexists _, _. split; [reflexivity|]. split; [right; by eexists|]. intros Hk. by rewrite Hk in Es.
Qed.
End TempFileProps.

(** ** Witnesses

    A server over a [MemoryStorage], with a clock that moves 60 ms a reading. *)

Fixpoint run_ops {S T} {ENV : Env} {DC : DriverCodec} {MO : MapOrder} {RT : Runtime} {IO : StdIo} {ST : Storage S}
    {WS : WritableStorage S} {SM : StateMachine T} (ops : list ServerOp) : M (Raftor S T) unit :=
  match ops with
  | [] => ret tt
  | op :: ops => server_step op ;;; run_ops ops
  end.

Lemma run_ops_run {S T} {ENV : Env} {DC : DriverCodec} {MO : MapOrder} {RT : Runtime} {IO : StdIo} {ST : Storage S}
    {WS : WritableStorage S} {SM : StateMachine T} ops (r r' : Raftor S T) : run_ops ops r = Ret (tt, r') -> server_run ops r r'.
Proof.
  revert r. induction ops as [|op ops IH]; intros r E; cbn [run_ops] in E; [injection E as <-; constructor|].
  apply bind_Ret in E as ([] & r1 & E1 & E). econstructor; [exact E1|auto].
Qed.

#[export] Instance plain_runtime : Runtime := fun n => milliseconds (60 * Z.of_nat n).

#[export] Program Instance plain_stdio : StdIo := {|
  io_tmpfile _ := true; io_fseek _ := true; io_fwrite _ k := k; io_fread _ k := Z.min k 2; io_ferror _ := false
|}.
Next Obligation. cbn. lia. Qed.
Next Obligation. cbn. lia. Qed.

Definition example_config : RaftorConfig :=
  DefaultRaftorConfig <| rc_node_id := 1 |> <| rc_listen_addr := "host:1" |> <| rc_data_dir := "data" |>.

Abbreviation example_create config := (Create (T := MockStateMachine) config new_mock (Some MemStorage.new) None 0).

(** A single node elects itself, answers a proposal and a read, and is left
    with a proposal in its queue. *)
Definition example_server_ops : list ServerOp :=
  [ OpPropose "early" (Some 6%nat); OpStart (Ok tt); OpCampaign; OpPropose "x" (Some 7%nat); OpPoll [];
    OpReadIndex "r" (Some 8%nat); OpPoll []; OpTick; OpPropose "y" (Some 9%nat) ].

Lemma example_server_run : exists r0 r, example_create example_config = Ret (Ok r0) /\ run_ops example_server_ops r0 = Ret (tt, r) /\
  pt_called_ (rp_proposal_tracker_ (ri_ready_processor_ r)) = [(6%nat, Failed (ERaft ShuttingDown)); (7%nat, Response "OK:x"); (8%nat, ReadDone)] /\
  length (ri_proposal_queue_ r) = 1%nat.
Proof. do 2 eexists. split; [vm_compute; reflexivity|]. split; [vm_compute; reflexivity|]. split; reflexivity. Qed.

Lemma requests_answered_once_witness :
  exists r r', ri_running_ r' = false /\ Stop r = Ret (tt, r') /\ length (ri_proposal_queue_ (S := MemoryStorage) (T := MockStateMachine) r) = 1%nat /\
    called (rp_proposal_tracker_ (ri_ready_processor_ r')) ≡ₚ [6; 7; 8; 9]%nat.
Proof.
  destruct example_server_run as (r0 & r & Ec & Er & _ & Hq). exists r.
  destruct (requests_answered_once example_config new_mock (Some MemStorage.new) None 0 example_server_ops r0 r Ec ltac:(vm_compute; reflexivity) (run_ops_run _ _ _ Er))
    as (_ & _ & r' & Es & Hr & Hc).
  exists r'. split; [exact Hr|]. split; [exact Es|]. split; [exact Hq|exact Hc].
Defined.

(** A follower that verifies checksums gets an entry with a wrong one. *)
Definition checked_config : RaftorConfig :=
  example_config <| rc_initial_peers := [mkPeerConfig 1 "host:1"; mkPeerConfig 2 "host:2"; mkPeerConfig 3 "host:3"] |>
    <| rc_enable_entry_checksum := true |>.

Definition bad_append : Message :=
  empty_message <| m_type := MsgAppend |> <| m_from := 2 |> <| m_to := 1 |> <| m_term := 1 |>
    <| m_entries := [mkEntry EntryNormal 1 1 "x" "2:0" 12345] |>.

Lemma example_fatal_run : exists r0 r, example_create checked_config = Ret (Ok r0) /\
  run_ops [OpStart (Ok tt); OpPropose "x" (Some 7%nat); OpPoll [MessageEvent bad_append]] r0 = Ret (tt, r) /\
  ri_terminal_error_ r = Some (ERaft ChecksumMismatch).
Proof. do 2 eexists. split; [vm_compute; reflexivity|]. split; [vm_compute; reflexivity|]. reflexivity. Qed.

Lemma fatal_error_is_final_witness :
  exists r : Raftor MemoryStorage MockStateMachine, ri_running_ r = false /\ (forall res, Start res r = Ret (Err (ERaft ChecksumMismatch), r)).
Proof.
  destruct example_fatal_run as (r0 & r & Ec & Er & Ht). exists r.
  destruct (fatal_error_is_final checked_config new_mock (Some MemStorage.new) None 0 _ r0 r _ Ec (run_ops_run _ _ _ Er) Ht) as (_ & Hr & Hs & _).
  split; [exact Hr|exact Hs].
Defined.

(** A restart over a storage with a local snapshot at index 2 and entry 3, which
    is committed. *)
Definition kept_snapshot : Snapshot := mkSnapshot "ab" (mkSnapshotMetadata (mkConfState [1; 2; 3] [] [] [] false) 2 1).

Definition kept_writable : WritableStorage MemoryStorage := {|
  wr_Append := MemStorage.Append;
  wr_SetHardState := MemStorage.SetHardState;
  wr_SetConfState := MemStorage.SetConfState;
  wr_ApplySnapshot := MemStorage.ApplySnapshot;
  wr_ApplyLocalSnapshot := MemStorage.ApplyLocalSnapshot;
  wr_Sync := ret (Ok tt);
  wr_LocalSnapshot _ := Ok (Some kept_snapshot);
  wr_LogSizeBytes _ := 0
|}.

Definition kept_state : RaftState := mkRaftState (mkHardState 1 2 3) (mkConfState [1; 2; 3] [] [] [] false).
Definition kept_store : MemoryStorage :=
  MemStorage.mkMemoryStorage kept_state [mkEntry EntryNormal 1 3 "x" "" 0] (sn_meta kept_snapshot) false false None.

Lemma example_restart : exists r s1,
  Create (WS := kept_writable) (T := MockStateMachine) example_config new_mock (Some kept_store) None 0 = Ret (Ok r) /\
  BootstrapStorageIfNeeded (WS := kept_writable) example_config kept_store = Ret (Ok tt, s1) /\ s1 = kept_store /\
  mk_last_restored_data_ (rp_state_machine_ (ri_ready_processor_ r)) = "ab"%string.
Proof. do 2 eexists. split; [vm_compute; reflexivity|]. split; [vm_compute; reflexivity|]. split; vm_compute; reflexivity. Qed.

Lemma created_server_ready_witness :
  exists r : Raftor MemoryStorage MockStateMachine,
    sm_step (CallRestore kept_snapshot) new_mock (rp_state_machine_ (ri_ready_processor_ r)) /\
    mk_last_restored_data_ (rp_state_machine_ (ri_ready_processor_ r)) = "ab"%string /\
    rp_ok 100 (ri_ready_processor_ r) /\ rp_applied_index_ (ri_ready_processor_ r) = 2.
Proof.
  destruct example_restart as (r & s1 & Ec & Eb & -> & Hd). exists r.
  destruct (created_server_ready (WS := kept_writable) example_config new_mock kept_store None 0 r kept_store kept_state 100 Ec Eb) as (Hr & Hok & Ha & _).
  - constructor; [constructor| |]; cbn; unfold v_last; cbn; unfold is_u64, two64, u64max; repeat split; try lia.
  - reflexivity.
  - vm_compute. discriminate.
  - lia.
  - vm_compute. split; [discriminate|reflexivity].
  - vm_compute. discriminate.
  - reflexivity.
  - intros _. vm_compute. discriminate.
  - exact I.
  - vm_compute. reflexivity.
  - vm_compute. reflexivity.
  - split; [exact Hr|]. split; [exact Hd|]. split; [exact Hok|exact Ha].
Defined.

Lemma snapshot_file_roundtrip_witness :
  exists f, foreachM ["ab"; ""; "cde"]%string temp_Write (new_file 0) = Ret (Ok tt, f) /\
    exists f', LoadSnapshotDataFromFile (tf_total_bytes_written_ f) f = Ret (Ok "abcde"%string, f').
Proof.
  eexists. split; [vm_compute; reflexivity|].
  match goal with |- exists f', LoadSnapshotDataFromFile _ ?f = _ =>
    destruct (snapshot_file_roundtrip 0 ["ab"; ""; "cde"]%string f) as (res & f' & E & _ & Hr) end.
  - vm_compute. reflexivity.
  - vm_compute. reflexivity.
  - exists f'. rewrite Hr in E; [exact E|reflexivity|]. intros n k Hk. cbn. lia.
Defined.

(** ** A configuration that passes [Validate] and stops the process *)

(** [RaftorConfig::Validate] does not look at the heartbeat tick, the
    window of the peers or the read mode: three configurations pass it, and
    [Create] panics in the constructor of the node. *)
Theorem validated_config_panics :
  Forall (fun config => Validate config = Ok tt /\ example_create config = Abort (Panic "invalid config"))
    [ example_config <| rc_heartbeat_tick := 0 |>; example_config <| rc_max_inflight_messages := 0 |>;
      example_config <| rc_read_only_option := LeaseBased |> <| rc_check_quorum := false |> ].
Proof. repeat constructor. Qed.
