(* ===== verification/KvHttp.v ===== *)
(** * The HTTP interface of the key-value store

    Model of [examples/kvstore/http_server.cc].  A handler runs on a thread of
    the HTTP library and blocks until the event loop answers its request, so a
    handler here ends with an answer or with what it waits for, and goes on
    with the reply in [resume].  The server reads the store that the event loop
    writes: both are the state machine inside the [Raftor].  The HTTP library
    is not part of the repository; how it matches routes is a class. *)

From stdpp Require Import pretty.
From S2P Require Import Prelude Types Errors Util Storage MemStorage ReadOnly Config RaftLog RaftCore Raft RawNode Disk Json ProposalTracker StateMachine KvStore ReadyProcessor ReadyProps Raftor RaftorProps.

Open Scope string_scope.
Open Scope Z_scope.

(** ** The library *)

Inductive Method := GET | PUT | DELETE.
#[export] Instance Method_eq_dec : EqDecision Method.
Proof. solve_decision. Defined.

(** [httplib::Request]: the captures of the pattern and its named parameters. *)
Record Request := mkRequest {
  rq_body : string;
  rq_matches : list string;
  rq_path_params : gmap string string
}.

(** [httplib::Response]; without a status the library sends 200. *)
Record HttpResponse := mkHttpResponse {
  hr_status : option Z;
  hr_content : string
}.

(** A pattern with [/:name] in it has named parameters. *)
Fixpoint has_named_param (pattern : string) : bool :=
  match pattern with
  | String "/" (String ":" _) => true
  | String _ pattern => has_named_param pattern
  | EmptyString => false
  end.

Class HttpLib := {
  (** The captures and named parameters of a path that matches a pattern. *)
  http_match : string -> string -> option (list string * gmap string string);
  (** The exception of [std::unordered_map::at]. *)
  map_at_what : string
}.

(** Patterns without names are regular expressions: they set the captures, and
    no parameter is named. *)
Class HttpLaws `{HttpLib} := {
  regex_has_no_names pattern path matches params :
    has_named_param pattern = false -> http_match pattern path = Some (matches, params) -> params = ∅
}.

(** ** The server *)

(** [server_] is there, its thread runs, and it listens. *)
Record HttpServer (S : Type) := mkHttpServer {
  ht_raftor_ : Raftor S KvStoreStateMachine;
  ht_port_ : Z;
  ht_server_ : bool;
  ht_running_ : bool;
  ht_listening : bool;
  ht_thread_ : bool;
  ht_read_counter_ : Z
}.
Arguments mkHttpServer {S}.
Arguments ht_raftor_ {S}.
Arguments ht_port_ {S}.
Arguments ht_server_ {S}.
Arguments ht_running_ {S}.
Arguments ht_listening {S}.
Arguments ht_thread_ {S}.
Arguments ht_read_counter_ {S}.
#[export] Instance HttpServer_eta S : Eta (HttpServer S) := fun h =>
  mkHttpServer (ht_raftor_ h) (ht_port_ h) (ht_server_ h) (ht_running_ h) (ht_listening h) (ht_thread_ h) (ht_read_counter_ h).

Definition kMaxBodySize : Z := 1 * 1024 * 1024.

(** What a handler waits for. *)
Inductive Waiting :=
| WaitCommand
| WaitRead (key : string).

Inductive Handled :=
| Answer (response : Try HttpResponse)
| Wait (w : Waiting).

Inductive Route := RoutePut | RouteGet | RouteDelete | RouteLeader | RouteHealth.

Section HttpServer.
Context {ENV : Env} {DC : DriverCodec} {MO : MapOrder} {RT : Runtime} {IO : StdIo}.
Context {S : Type} {ST : Storage S} {WS : WritableStorage S} {JL : JsonLib} {HL : HttpLib}.

Abbreviation H := (HttpServer S).

Definition new_server (raftor : Raftor S KvStoreStateMachine) (port : Z) : H := mkHttpServer raftor port false false false false 0.

Definition raftor {A} (m : M (Raftor S KvStoreStateMachine) A) : M H A := zoom ht_raftor_ (fun r h => h <| ht_raftor_ := r |>) m.

(** [kv_store_] is the state machine that the [Raftor] owns. *)
Definition kv_store (h : H) : KvStoreStateMachine := rp_state_machine_ (ri_ready_processor_ (ht_raftor_ h)).

Definition http_Start : M H unit :=
  set! ht_server_ := true ;;;
  set! ht_running_ := true ;;;
  set! ht_thread_ := true ;;;
  set! ht_listening := true.

Definition http_Stop : M H unit :=
  let! h := get in
  when (ht_running_ h)
    (set! ht_running_ := false ;;;
     when (ht_server_ h) (set! ht_listening := false) ;;;
     when (ht_thread_ h) (set! ht_thread_ := false)).

(** [setupRoutes] *)
Definition routes : list (Method * string * Route) :=
  [ (PUT, "/kv", RoutePut); (GET, "/kv/(.*)", RouteGet); (DELETE, "/kv/(.*)", RouteDelete);
    (GET, "/leader", RouteLeader); (GET, "/health", RouteHealth) ].

(** [err.dump()] as the content of a response. *)
Definition respond (status : option Z) (fields : gmap string Json) : Try HttpResponse :=
  let% content := json_dump (JObject fields) in inr (mkHttpResponse status content).

(** [catch (const std::exception& e)]; what it throws itself leaves it. *)
Definition caught (what : string) : Try HttpResponse := respond (Some 500) (error_response what).
Definition or_caught (response : Try HttpResponse) : Try HttpResponse :=
  match response with
  | inl what => caught what
  | inr _ => response
  end.

(** [sendCommand] until it waits for the future, and from there. *)
Definition sendCommand (callback : nat) (cmd_json : string) : M H Handled :=
  raftor (Propose cmd_json (Some callback)) ;;;
  ret (Wait WaitCommand).

Definition command_done (result : Result string) : Try HttpResponse :=
  match result with
  | Ok response => inr (mkHttpResponse None response)
  | Err e => respond (Some 500) (error_response (ToString e))
  end.

Definition put_command (key value : string) : gmap string Json :=
  <["op" := JString "put"]> (<["key" := JString key]> {["value" := JString value]}).

Definition handlePut (callback : nat) (req : Request) : M H Handled :=
  match (let% body := json_parse (rq_body req) in
         let% key := at_string "key" body in
         let% value := at_string "value" body in
         json_dump (JObject (put_command key value))) with
  | inl what => ret (Answer (caught what))
  | inr cmd_json => sendCommand callback cmd_json
  end.

Definition not_leader (leader_id : Z) : gmap string Json :=
  <["leader_id" := JNumber leader_id]> (error_response "not leader").

(** The timeout is the default of [ReadIndexSync]. *)
Definition handleGet (callback : nat) (req : Request) : M H Handled :=
  match rq_path_params req !! "1" with
  | None => ret (Answer (caught map_at_what))
  | Some key =>
      let! h := get in
      let status := GetStatus (ht_raftor_ h) in
      if negb (ns_id status =? ns_leader_id status) then
        ret (Answer (or_caught (respond (Some 503) (not_leader (ns_leader_id status)))))
      else
        set! ht_read_counter_ := (ht_read_counter_ h +! 1) ;;;
        let ctx := "http_get:" +:+ key +:+ ":" +:+ pretty (Z.to_N (ht_read_counter_ h)) in
        raftor (EnqueueReadIndex ctx (Some callback) (milliseconds 5000)) ;;;
        ret (Wait (WaitRead key))
  end.

(** The rest of [handleGet]. *)
Definition read_done (key : string) (result : Result unit) (h : H) : Try HttpResponse :=
  match result with
  | Err e => respond (Some 500) (error_response (ToString e))
  | Ok _ =>
      respond None
        match kv_Get key (kv_store h) with
        | Some value => <["value" := JString value]> (success true)
        | None => error_response "key not found"
        end
  end.

Definition del_command (key : string) : gmap string Json :=
  <["op" := JString "del"]> {["key" := JString key]}.

Definition handleDelete (callback : nat) (req : Request) : M H Handled :=
  match rq_path_params req !! "1" with
  | None => ret (Answer (caught map_at_what))
  | Some key =>
      match json_dump (JObject (del_command key)) with
      | inl what => ret (Answer (caught what))
      | inr cmd_json => sendCommand callback cmd_json
      end
  end.

Definition handleLeader (req : Request) : M H Handled :=
  let! h := get in
  let status := GetStatus (ht_raftor_ h) in
  ret (Answer (respond None (<["leader_id" := JNumber (ns_leader_id status)]>
    {["is_leader" := JBool (ns_id status =? ns_leader_id status)]}))).

Definition handleHealth (req : Request) : M H Handled :=
  let! h := get in
  let status := GetStatus (ht_raftor_ h) in
  ret (Answer (respond None (<["status" := JString "healthy"]> (<["term" := JNumber (ns_term status)]>
    (<["commit_index" := JNumber (ns_commit_index status)]> {["applied_index" := JNumber (ns_applied_index status)]}))))).

Definition handle_route (callback : nat) (route : Route) (req : Request) : M H Handled :=
  match route with
  | RoutePut => handlePut callback req
  | RouteGet => handleGet callback req
  | RouteDelete => handleDelete callback req
  | RouteLeader => handleLeader req
  | RouteHealth => handleHealth req
  end.

(** The handler goes on with the reply to its callback; the exceptions of the
    rest are caught as those of the beginning are. *)
Definition resume (w : Waiting) (reply : Reply) : M H (Try HttpResponse) :=
  let! h := get in
  match w, reply with
  | WaitCommand, Response response => ret (or_caught (command_done (Ok response)))
  | WaitCommand, Failed e => ret (or_caught (command_done (Err e)))
  | WaitRead key, ReadDone => ret (or_caught (read_done key (Ok tt) h))
  | WaitRead key, Failed e => ret (or_caught (read_done key (Err e) h))
  | _, _ => abort Undefined
  end.

(** The library serves a request that is not too long: the first route of the method whose pattern
    matches the path. *)
Fixpoint find_route (meth : Method) (path : string) (table : list (Method * string * Route)) :
    option (Route * list string * gmap string string) :=
  match table with
  | [] => None
  | (m, pattern, route) :: table =>
      if bool_decide (m = meth) then
        match http_match pattern path with
        | Some (matches, params) => Some (route, matches, params)
        | None => find_route meth path table
        end
      else find_route meth path table
  end.

Definition serve (callback : nat) (meth : Method) (path body : string) : M H Handled :=
  if kMaxBodySize <? slen body then ret (Answer (inr (mkHttpResponse (Some 413) "")))
  else
  match find_route meth path routes with
  | Some (route, matches, params) => handle_route callback route (mkRequest body matches params)
  | None => ret (Answer (inr (mkHttpResponse (Some 404) "")))
  end.

(** ** Commands of clients *)

Context {JW : JsonLaws} {HW : HttpLaws}.

Lemma at_string_fields fields key value : fields !! key = Some (JString value) -> at_string key (JObject fields) = inr value.
Proof. intros E. unfold at_string, json_at. by rewrite E. Qed.

Lemma parse_put text key value : utf8 key = true -> utf8 value = true -> json_dump (JObject (put_command key value)) = inr text ->
  parseFromJson text = Some (mkCommand OpPut key (Some value)).
Proof.
  intros Hk Hv E. unfold parseFromJson, parse_command. rewrite (parse_dump (put_command key value) text); [|repeat apply plain_insert; auto with json|done].
  - cbn [tbind]. rewrite (at_string_fields _ "op" "put") by done. cbn [tbind]. rewrite bool_decide_true by done.
    rewrite (at_string_fields _ "key" key) by done. cbn [tbind].
    assert (Hc : json_contains "value" (JObject (put_command key value)) = true) by done. rewrite Hc.
    by rewrite (at_string_fields _ "value" value).
Qed.

Lemma put_command_plain key value : utf8 key = true -> utf8 value = true -> plain_fields (put_command key value).
Proof. intros Hk Hv. repeat apply plain_insert; auto with json. Qed.

Lemma caught_answers what : utf8 what = true -> exists content,
  caught what = inr (mkHttpResponse (Some 500) content) /\ json_parse content = inr (JObject (error_response what)).
Proof.
  intros Hw. destruct (dump_plain (error_response what) (plain_error what Hw)) as [content E]. exists content.
  unfold caught, respond. rewrite E. split; [done|]. apply parse_dump; [by apply plain_error|done].
Qed.

(** C33: A put over HTTP reaches the store.  A request whose body is an object
    with texts for key and value is turned into a proposal, and a store that
    applies an entry with the data proposed holds the value under the key and
    answers success; the handler forwards the answer of the store as it is. *)
Theorem http_put_stores callback req fields key value (h : HttpServer S) : json_parse (rq_body req) = inr (JObject fields) ->
  fields !! "key" = Some (JString key) -> fields !! "value" = Some (JString value) ->
  exists cmd, handlePut callback req h = sendCommand callback cmd h /\
    forall entry k, e_data entry = cmd -> text_data (kv_data_ k) -> exists response,
      kv_Apply entry k = Ret (Ok (Some response), mkKv (<[key := value]> (kv_data_ k))) /\
      json_parse response = inr (JObject (success true)) /\
      forall h', resume WaitCommand (Response response) h' = Ret (inr (mkHttpResponse None response), h').
Proof.
  intros Ep Ek Ev. destruct (parse_utf8 _ _ _ _ Ep Ek) as [_ Hk]. destruct (parse_utf8 _ _ _ _ Ep Ev) as [_ Hv].
  destruct (dump_plain (put_command key value) (put_command_plain key value Hk Hv)) as [cmd E]. exists cmd. split.
  - unfold handlePut. rewrite Ep. cbn [tbind]. rewrite (at_string_fields _ _ _ Ek). cbn [tbind].
    rewrite (at_string_fields _ _ _ Ev). cbn [tbind]. by rewrite E.
  - intros entry k Ed Ht. pose proof (kv_Apply_spec entry k Ht) as Ha. rewrite Ed, (parse_put cmd key value Hk Hv E) in Ha.
    destruct Ha as (response & Ea & Er & _). exists response. split; [exact Ea|]. split; [exact Er|done].
Qed.

(** C38: The routes of a key never serve it.  Their pattern is a regular
    expression, which names no parameters, and the handlers look the key up
    among the named parameters: every GET or DELETE of a key is answered with
    status 500 and neither reads nor changes the store. *)
Theorem key_routes_always_fail callback meth path body matches params (h : HttpServer S) : meth = GET \/ meth = DELETE ->
  slen body <= kMaxBodySize -> http_match "/kv/(.*)" path = Some (matches, params) -> utf8 map_at_what = true ->
  exists content, serve callback meth path body h = Ret (Answer (inr (mkHttpResponse (Some 500) content)), h) /\
    json_parse content = inr (JObject (error_response map_at_what)).
Proof.
  intros Hm Hb E Hu. assert (params = ∅) as -> by (by apply (regex_has_no_names "/kv/(.*)" path matches)). destruct (caught_answers map_at_what Hu) as (content & Ec & Ep).
  exists content. split; [|done]. unfold serve. rewrite (proj2 (Z.ltb_ge _ _)) by lia.
  destruct Hm as [-> | ->]; cbn [find_route routes]; rewrite bool_decide_false by done;
    [rewrite bool_decide_true by done | rewrite bool_decide_false, bool_decide_true by done]; rewrite E;
    cbn [handle_route]; unfold handleGet, handleDelete; cbn [rq_path_params]; rewrite lookup_empty; unfold ret; by rewrite Ec.
Qed.
End HttpServer.

(** ** Witnesses

    A single node, elected, that is asked to put a key. *)
Module SampleHttp.
#[export] Instance lib : HttpLib := {|
  http_match pattern path :=
    if bool_decide (pattern = "/kv/(.*)") then
      (if bool_decide (String.substring 0 4 path = "/kv/") then Some ([path; String.substring 4 (String.length path - 4) path], ∅) else None)
    else if bool_decide (pattern = path) then Some ([path], ∅) else None;
  map_at_what := "_Map_base::at"
|}.

#[export] Instance laws : HttpLaws.
Proof. split. cbn. intros pattern path matches params _. repeat destruct (bool_decide _); by intros [= _ <-]. Qed.
End SampleHttp.

#[local] Existing Instance Sample.lib.
#[local] Existing Instance Sample.laws.
#[local] Existing Instance SampleHttp.lib.
#[local] Existing Instance SampleHttp.laws.

Definition text_of_dump (fields : gmap string Json) : string :=
  match json_dump (JObject fields) with inr s => s | inl _ => "" end.

Definition put_body : gmap string Json := <["key" := JString "k"]> {["value" := JString "v"]}.

Definition put_request : Request := mkRequest (text_of_dump put_body) ["/kv"] ∅.

Abbreviation kv_server := (HttpServer MemoryStorage).

Definition elected_server : outcome kv_server :=
  match Create (T := KvStoreStateMachine) example_config new_kv (Some MemStorage.new) None 0 with
  | Ret (Ok r) => let? (_, r) := run_ops [OpStart (Ok tt); OpCampaign; OpPoll []] r in Ret (new_server r 8080)
  | Ret (Err _) => Abort Undefined
  | Abort f => Abort f
  end.

(** The put is proposed, the event loop applies it and answers. *)
Lemma put_served : exists h0 h1 r2 response, elected_server = Ret h0 /\ handlePut 7%nat put_request h0 = Ret (Wait WaitCommand, h1) /\
  run_ops [OpPoll []] (ht_raftor_ h1) = Ret (tt, r2) /\
  pt_called_ (rp_proposal_tracker_ (ri_ready_processor_ r2)) = [(7%nat, Response response)] /\
  kv_data_ (rp_state_machine_ (ri_ready_processor_ r2)) = {["k" := "v"]}.
Proof. do 4 eexists. repeat (split; [vm_compute; reflexivity|]). vm_compute. reflexivity. Qed.

Lemma http_put_stores_witness : exists (h : kv_server) cmd, handlePut 7%nat put_request h = sendCommand 7%nat cmd h /\
  forall entry k, e_data entry = cmd -> text_data (kv_data_ k) -> exists response,
    kv_Apply entry k = Ret (Ok (Some response), mkKv (<["k" := "v"]> (kv_data_ k))).
Proof.
  destruct put_served as (h & _ & _ & _ & _). exists h.
  destruct (http_put_stores 7%nat put_request put_body "k" "v" h) as (cmd & E & Ha); [vm_compute; reflexivity|reflexivity|reflexivity|].
  exists cmd. split; [exact E|]. intros entry k Ed Ht. destruct (Ha entry k Ed Ht) as (response & Er & _). exists response. exact Er.
Defined.

Lemma key_routes_always_fail_witness : exists (h : kv_server) content,
  serve 7%nat GET "/kv/k" "" h = Ret (Answer (inr (mkHttpResponse (Some 500) content)), h).
Proof.
  destruct put_served as (h & _ & _ & _ & _). exists h.
  destruct (key_routes_always_fail 7%nat GET "/kv/k" "" ["/kv/k"; "k"] ∅ h) as (content & E & _);
    [left; reflexivity|vm_compute; discriminate|vm_compute; reflexivity|reflexivity|].
  exists content. exact E.
Defined.
