(* ===== verification/KvCli.v ===== *)
(** * The command line client of the key-value store

    Model of [examples/kvstore/cli_options.cc] and [cli.cc]: the options of the
    command line, the requests to one node or to a list of peers, and what is
    printed of the answers.  The HTTP client is a class. *)

From stdpp Require Import pretty.
From S2P Require Import Prelude Types Util Json KvStore KvHttp.

Open Scope string_scope.
Open Scope list_scope.
Open Scope Z_scope.

(** ** Programs that print, throw and exit *)

(** A line, or the beginning of one, on standard output, a line on standard
    error, and the usage text. *)
Inductive Output :=
| OutPart (text : string)
| OutLine (line : string)
| OutError (line : string)
| OutHelp.

Inductive Done (A : Type) :=
| Value (a : A)
| Throw (what : string)
| ExitWith (code : Z)
| Crash.
Arguments Value {A} a.
Arguments Throw {A} what.
Arguments ExitWith {A} code.
Arguments Crash {A}.

Definition Cli (A : Type) := (list Output * Done A)%type.

Definition cret {A} (a : A) : Cli A := ([], Value a).
Definition print (o : Output) : Cli unit := ([o], Value tt).
Definition exit {A} (code : Z) : Cli A := ([], ExitWith code).
Definition try_cli {A} (t : Try A) : Cli A := ([], match t with inr a => Value a | inl what => Throw what end).

Definition cbind {A B} (m : Cli A) (k : A -> Cli B) : Cli B :=
  match m with
  | (out, Value a) => let (out', d) := k a in (out ++ out', d)
  | (out, Throw what) => (out, Throw what)
  | (out, ExitWith code) => (out, ExitWith code)
  | (out, Crash) => (out, Crash)
  end.
Notation "'let^' x := m 'in' k" := (cbind m (fun x => k))
  (at level 10, x pattern, m at level 100, k at level 200) : monad_scope.

(** ** Options *)

Record Options := mkOptions {
  o_command : string;
  o_key : string;
  o_value : string;
  o_peers : list string;
  o_node : string;
  o_json_output : bool
}.
#[export] Instance Options_eta : Eta Options := fun o =>
  mkOptions (o_command o) (o_key o) (o_value o) (o_peers o) (o_node o) (o_json_output o).

Definition new_options : Options := mkOptions "" "" "" [] "" false.

(** [while (std::getline(ss, peer, ','))], where [line] was read so far. *)
Fixpoint getlines (line : string) (s : string) : list string :=
  match s with
  | EmptyString => if bool_decide (line = "") then [] else [line]
  | String c s => if bool_decide (c = ","%char) then line :: getlines "" s else getlines (line +:+ String c "") s
  end.

Definition split_peers (peers_str : string) : list string := filter (fun peer => peer <> "") (getlines "" peers_str).

Definition either (a x y : string) : bool := bool_decide (a = x) || bool_decide (a = y).

(** The loop over the arguments after the command. *)
Fixpoint parse_options (args : list string) (opts : Options) : Cli Options :=
  match args with
  | [] => cret opts
  | a :: args =>
      if either a "--node" "-n" then
        match args with
        | [] => let^ _ := print (OutError "Error: missing value for --node") in exit 1
        | node :: args => parse_options args (opts <| o_node := node |>)
        end
      else if either a "--peers" "-p" then
        match args with
        | [] => let^ _ := print (OutError "Error: missing value for --peers") in exit 1
        | peers_str :: args => parse_options args (opts <| o_peers := o_peers opts ++ split_peers peers_str |>)
        end
      else if either a "--json" "-j" then parse_options args (opts <| o_json_output := true |>)
      else if either a "--help" "-h" then let^ _ := print OutHelp in exit 0
      else
        let^ _ := print (OutError ("Error: unknown option '" +:+ a +:+ "'")) in
        let^ _ := print OutHelp in
        exit 1
  end.

Definition usage_error {A} (line : string) : Cli A :=
  let^ _ := print (OutError line) in
  let^ _ := print OutHelp in
  exit 1.

(** [argv] without the name of the program. *)
Definition parseArgs (argv : list string) : Cli Options :=
  match argv with
  | [] => let^ _ := print OutHelp in exit 1
  | arg :: args =>
      if either arg "--help" "-h" then let^ _ := print OutHelp in exit 0
      else if bool_decide (arg = "put") then
        match args with
        | [] => usage_error ("Error: missing key for '" +:+ arg +:+ "' command")
        | [_] => usage_error "Error: missing value for 'put' command"
        | key :: value :: args => parse_options args (new_options <| o_command := arg |> <| o_key := key |> <| o_value := value |>)
        end
      else if either arg "get" "del" then
        match args with
        | [] => usage_error ("Error: missing key for '" +:+ arg +:+ "' command")
        | key :: args => parse_options args (new_options <| o_command := arg |> <| o_key := key |>)
        end
      else if either arg "leader" "health" then parse_options args (new_options <| o_command := arg |>)
      else usage_error ("Error: unknown command '" +:+ arg +:+ "'")
  end.

(** ** Requests *)

Fixpoint is_prefix (p s : string) : bool :=
  match p, s with
  | EmptyString, _ => true
  | String a p, String b s => bool_decide (a = b) && is_prefix p s
  | String _ _, EmptyString => false
  end.

(** [s.find(sub) != std::string::npos] *)
Fixpoint contains (sub s : string) : bool :=
  is_prefix sub s || match s with EmptyString => false | String _ s => contains sub s end.

Definition normalizeAddr (addr : string) : string :=
  if contains "://" addr then addr else "http://" +:+ addr.

(** The [n]-th call of the client: the status and body of the answer, if one
    arrived. *)
Class HttpClient := http_call : nat -> string -> Method -> string -> string -> option (Z * string).

Definition method_of (method : string) : option Method :=
  if bool_decide (method = "GET") then Some GET
  else if bool_decide (method = "PUT") then Some PUT
  else if bool_decide (method = "DELETE") then Some DELETE
  else None.

Section Cli.
Context {HC : HttpClient} {JL : JsonLib}.

(** The loop of [makeRequest]. *)
Fixpoint try_peers (n : nat) (method path body : string) (peers : list string) (last_error : string) : Try string :=
  match peers with
  | [] => inl ("Request failed: " +:+ (if bool_decide (last_error = "") then "no peers available" else last_error))
  | peer :: peers =>
      match method_of method with
      | None => try_peers n method path body peers last_error
      | Some m =>
          match http_call n (normalizeAddr peer) m path body with
          | Some (status, answer) =>
              if status =? 200 then inr answer
              else try_peers (S n) method path body peers ("HTTP " +:+ pretty status)
          | None => try_peers (S n) method path body peers "connection failed"
          end
      end
  end.

Definition makeRequest (method path body : string) (peers : list string) : Try string := try_peers 0 method path body peers "".

Definition makeRequestToNode (node method path body : string) : Try string :=
  match method_of method with
  | None => inl ("unknown method: " +:+ method)
  | Some m =>
      match http_call 0 (normalizeAddr node) m path body with
      | None => inl ("connection failed to " +:+ node)
      | Some (status, answer) => if 400 <=? status then inl ("HTTP error: " +:+ pretty status) else inr answer
      end
  end.

Definition dispatchRequest (opts : Options) (method path body : string) : Try string :=
  if negb (bool_decide (o_node opts = "")) then makeRequestToNode (o_node opts) method path body
  else makeRequest method path body (o_peers opts).

(** ** Answers *)

(** The answer is an error of the server. *)
Definition print_failure (j : Json) : Cli unit :=
  let^ error := try_cli (json_value text_of "error" "unknown error" j) in
  let^ _ := print (OutError ("Error: " +:+ error)) in
  exit 1.

Definition print_json (j : Json) : Cli unit :=
  let^ text := try_cli (json_dump_indent 2 j) in
  print (OutLine text).

Definition printKvResponse (response : string) (json_output : bool) (success_msg : string) : Cli unit :=
  let^ j := try_cli (json_parse response) in
  if json_output then print_json j
  else
    let^ ok := try_cli (json_value bool_of "success" false j) in
    if ok : bool then print (OutLine success_msg) else print_failure j.

(** [j["value"]] of an object without the field is null. *)
Definition printGetResponse (response : string) (json_output : bool) : Cli unit :=
  let^ j := try_cli (json_parse response) in
  if json_output then print_json j
  else
    let^ ok := try_cli (json_value bool_of "success" false j) in
    if ok : bool then
      let^ value := try_cli (json_get_string (match json_at "value" j with inr v => v | inl _ => JNull end)) in
      print (OutLine value)
    else print_failure j.

Definition printInfoResponse (response : string) (json_output : bool) (printer : Json -> Cli unit) : Cli unit :=
  let^ j := try_cli (json_parse response) in
  if json_output then print_json j else printer j.

(** [j[key]] of a constant object must have the field. *)
Definition const_field (key : string) (j : Json) : Cli Json :=
  match j with
  | JObject fields => match fields !! key with Some v => cret v | None => ([], Crash) end
  | _ => ([], Throw (at_what key j))
  end.

(** [std::cout << label << j[key] << std::endl] *)
Definition print_field (label key : string) (j : Json) : Cli unit :=
  let^ _ := print (OutPart label) in
  let^ v := const_field key j in
  let^ text := try_cli (json_dump v) in
  print (OutLine text).

Definition print_leader (j : Json) : Cli unit :=
  let^ _ := print_field "Leader ID: " "leader_id" j in
  let^ _ := print (OutPart "Is Leader: ") in
  let^ v := const_field "is_leader" j in
  let^ leads := try_cli (match bool_of v with Some b => inr b | None => inl (get_what v) end) in
  print (OutLine (if leads : bool then "yes" else "no")).

Definition print_health (j : Json) : Cli unit :=
  let^ _ := print_field "Status: " "status" j in
  let^ _ := print_field "Term: " "term" j in
  let^ _ := print_field "Commit Index: " "commit_index" j in
  print_field "Applied Index: " "applied_index" j.

(** The body of the [try] block of [main]. *)
Definition run_command (opts : Options) : Cli unit :=
  let command := o_command opts in
  if bool_decide (command = "put") then
    let^ body := try_cli (json_dump (JObject (<["key" := JString (o_key opts)]> {["value" := JString (o_value opts)]}))) in
    let^ response := try_cli (dispatchRequest opts "PUT" "/kv" body) in
    printKvResponse response (o_json_output opts) "OK"
  else if bool_decide (command = "get") then
    let^ response := try_cli (dispatchRequest opts "GET" ("/kv/" +:+ o_key opts) "") in
    printGetResponse response (o_json_output opts)
  else if bool_decide (command = "del") then
    let^ response := try_cli (dispatchRequest opts "DELETE" ("/kv/" +:+ o_key opts) "") in
    printKvResponse response (o_json_output opts) "OK"
  else if bool_decide (command = "leader") then
    let^ response := try_cli (dispatchRequest opts "GET" "/leader" "") in
    printInfoResponse response (o_json_output opts) print_leader
  else if bool_decide (command = "health") then
    let^ response := try_cli (dispatchRequest opts "GET" "/health" "") in
    printInfoResponse response (o_json_output opts) print_health
  else cret tt.

(** The output and the exit code of the program. *)
Definition cli_main (argv : list string) : Cli Z :=
  let^ opts := parseArgs argv in
  match run_command opts with
  | (out, Value _) => (out, Value 0)
  | (out, Throw what) => (out ++ [OutError ("Error: " +:+ what)], Value 1)
  | (out, ExitWith code) => (out, ExitWith code)
  | (out, Crash) => (out, Crash)
  end.
End Cli.

(** ** The command line of options *)

Definition no_comma (s : string) : Prop := ","%char ∉ list_ascii_of_string s.

Fixpoint join (peers : list string) : string :=
  match peers with
  | [] => ""
  | [peer] => peer
  | peer :: peers => peer +:+ String "," (join peers)
  end.

(** Arguments that stand for options. *)
Definition render_flags (o : Options) : list string :=
  (if bool_decide (o_node o = "") then [] else ["--node"; o_node o]) ++
  (if bool_decide (o_peers o = []) then [] else ["--peers"; join (o_peers o)]) ++
  (if o_json_output o then ["--json"] else []).

Definition render (o : Options) : list string :=
  o_command o ::
  (if bool_decide (o_command o = "put") then [o_key o; o_value o]
   else if either (o_command o) "get" "del" then [o_key o] else []) ++
  render_flags o.

(** Options that a command line can give. *)
Record options_ok (o : Options) : Prop := {
  oo_command : o_command o ∈ ["put"; "get"; "del"; "leader"; "health"];
  oo_key : o_command o ∉ ["put"; "get"; "del"] -> o_key o = "";
  oo_value : o_command o <> "put" -> o_value o = "";
  oo_peers : Forall (fun peer => peer <> "" /\ no_comma peer) (o_peers o)
}.

Lemma string_snoc (line s : string) c : (line +:+ String c "") +:+ s = line +:+ String c s.
Proof. induction line as [|x line IH]; [done|]. exact (f_equal (String x) IH). Qed.

Lemma string_right_nil (s : string) : s +:+ "" = s.
Proof. induction s as [|x s IH]; [done|]. exact (f_equal (String x) IH). Qed.

Lemma getlines_word line word rest : no_comma word -> getlines line (word +:+ rest) = getlines (line +:+ word) rest.
Proof.
  revert line. induction word as [|c word IH]; intros line Hn; [by rewrite string_right_nil|].
  change (String c word +:+ rest) with (String c (word +:+ rest)). unfold no_comma in *. cbn in *.
  apply not_elem_of_cons in Hn as [Hc Hn]. rewrite bool_decide_false by congruence. rewrite IH by done. by rewrite string_snoc.
Qed.

Lemma split_join peers : Forall (fun peer => peer <> "" /\ no_comma peer) peers -> split_peers (join peers) = peers.
Proof.
  unfold split_peers. induction 1 as [|peer peers [Hne Hc] Hall IH]; [done|]. destruct peers as [|next peers].
  - cbn [join]. pose proof (getlines_word "" peer "" Hc) as E. rewrite string_right_nil in E. rewrite E. cbn [getlines].
    change ("" +:+ peer) with peer. rewrite bool_decide_false by done. by rewrite filter_cons_True.
  - change (join (peer :: next :: peers)) with (peer +:+ String "," (join (next :: peers))). rewrite getlines_word by done.
    cbn [getlines]. rewrite bool_decide_true by done. rewrite filter_cons_True by done. change ("" +:+ peer) with peer. by rewrite IH.
Qed.

Lemma parse_tail o base : o_node base = "" -> o_peers base = [] -> o_json_output base = false ->
  Forall (fun peer => peer <> "" /\ no_comma peer) (o_peers o) ->
  parse_options (render_flags o) base =
  cret (base <| o_node := o_node o |> <| o_peers := o_peers o |> <| o_json_output := o_json_output o |>).
Proof.
  intros Hn Hp Hj Hpeers. pose proof (split_join _ Hpeers) as Hs. destruct base as [command key value peers node json]. cbn in *. subst.
  destruct o as [c k v peers node json]. unfold render_flags. cbn [o_node o_peers o_json_output] in *.
  case_bool_decide as E1; case_bool_decide as E2; destruct json; subst; cbn [app parse_options either]; rewrite ?bool_decide_true by done;
    cbn; rewrite ?Hs; done.
Qed.

(** Comparisons of literals. *)
Ltac literals :=
  unfold either;
  repeat match goal with
  | |- context [@bool_decide (?a = ?b) ?d] =>
      let v := eval vm_compute in (@bool_decide (a = b) d) in
      match v with true => idtac | false => idtac end; change (@bool_decide (a = b) d) with v
  end.

(** The command line of every set of options is read back as these options:
    any command with its key and value, any node, any list of peers whose
    addresses are not empty and have no comma. *)
Theorem parseArgs_render o : options_ok o -> parseArgs (render o) = cret o.
Proof.
  intros [Hc Hk Hv Hp]. destruct o as [command key value peers node json]. cbn in *.
  repeat (apply elem_of_cons in Hc as [->|Hc]); [..|by apply elem_of_nil in Hc]; unfold render; cbn [o_command o_key o_value];
    rewrite ?Hk, ?Hv by (done || set_solver);
    match goal with |- context [mkOptions ?c ?k ?v ?p ?n ?j] => pose proof (parse_tail (mkOptions c k v p n j)) as Ht end;
    cbn [o_node o_peers o_json_output] in *; cbn [parseArgs]; literals; cbn -[parse_options render_flags]; rewrite Ht by done; done.
Qed.

Definition sample_options : Options := mkOptions "put" "foo" "bar" ["localhost:8080"; "localhost:8081"] "" true.

Lemma parseArgs_render_witness : render sample_options = ["put"; "foo"; "bar"; "--peers"; "localhost:8080,localhost:8081"; "--json"] /\
  parseArgs (render sample_options) = cret sample_options.
Proof.
  split; [reflexivity|]. apply parseArgs_render. constructor; cbn.
  - left.
  - intros H. exfalso. apply H. left.
  - done.
  - unfold no_comma. repeat constructor; cbn; try done; set_unfold; intuition discriminate.
Defined.

(** ** Requests to peers *)

Section Requests.
Context {HC : HttpClient}.

Definition served_by (n : nat) (m : Method) (path body peer answer : string) : Prop :=
  http_call n (normalizeAddr peer) m path body = Some (200, answer).

Lemma try_peers_spec method m path body : method_of method = Some m -> forall peers n last answer,
  try_peers n method path body peers last = inr answer <->
  exists i peer, peers !! i = Some peer /\ served_by (n + i) m path body peer answer /\
    forall j p a, (j < i)%nat -> peers !! j = Some p -> ~ served_by (n + j) m path body p a.
Proof.
  intros Hm. induction peers as [|peer peers IH]; intros n last answer; cbn [try_peers].
  { split; [done|]. intros (i & p & Hp & _). done. }
  rewrite Hm. assert (Hrest : forall last', (forall a, ~ served_by n m path body peer a) ->
    try_peers (S n) method path body peers last' = inr answer <->
    exists i p, (peer :: peers) !! i = Some p /\ served_by (n + i) m path body p answer /\
      forall j p' a, (j < i)%nat -> (peer :: peers) !! j = Some p' -> ~ served_by (n + j) m path body p' a).
  { intros last' Hno. rewrite IH. split.
    - intros (i & p & Hp & Hs & Hj). exists (S i), p. rewrite Nat.add_succ_r. split; [done|]. split; [done|].
      intros [|j] p' a Hlt Hp'; [injection Hp' as <-; rewrite Nat.add_0_r; apply Hno|]. rewrite Nat.add_succ_r. apply Hj; [lia|done].
    - intros ([|i] & p & Hp & Hs & Hj); [injection Hp as <-; rewrite Nat.add_0_r in Hs; by destruct (Hno answer)|].
      exists i, p. rewrite Nat.add_succ_r in Hs. split; [done|]. split; [done|]. intros j p' a Hlt Hp'.
      replace (S n + j)%nat with (n + S j)%nat by lia. apply (Hj (S j)); [lia|done]. }
  unfold served_by in *. destruct (http_call _ _ _ _ _) as [[status a]|] eqn:Ec; [|apply Hrest; congruence].
  destruct (Z.eqb_spec status 200) as [->|Hne]; [|apply Hrest; congruence]. split.
  - intros [= <-]. exists 0%nat, peer. rewrite Nat.add_0_r. split; [done|]. split; [done|]. lia.
  - intros ([|i] & p & Hp & Hs & Hj); [injection Hp as <-; rewrite Nat.add_0_r in Hs; congruence|].
    exfalso. apply (Hj 0%nat peer a); [lia|done|]. by rewrite Nat.add_0_r.
Qed.

(** The answer is that of the first peer that serves the request. *)
Lemma makeRequest_first method m path body peers answer : method_of method = Some m ->
  makeRequest method path body peers = inr answer <->
  exists i peer, peers !! i = Some peer /\ served_by i m path body peer answer /\
    forall j p a, (j < i)%nat -> peers !! j = Some p -> ~ served_by j m path body p a.
Proof. intros Hm. apply (try_peers_spec method m path body Hm peers 0). Qed.

(** The examples of the usage text name no node: without a node and peers no
    request is made, and the program fails. *)
Lemma no_address_fails {JL : JsonLib} argv opts : parseArgs argv = cret opts -> o_command opts ∈ ["get"; "del"; "leader"; "health"] ->
  o_node opts = "" -> o_peers opts = [] ->
  cli_main argv = ([OutError "Error: Request failed: no peers available"], Value 1).
Proof.
  intros E Hc Hn Hp. unfold cli_main. rewrite E. destruct opts. cbn in Hc, Hn, Hp. subst.
  repeat (apply elem_of_cons in Hc as [->|Hc]); [done..|by apply elem_of_nil in Hc].
Qed.
End Requests.
