(* ===== verification/Rpc.v ===== *)
(** * Frames, addresses and peers

    Model of [lib/raftor/rpc/codec.cc], which frames messages and handshakes,
    and parses [host:port]; of [lib/raftor/rpc/peer_manager.cc], which keeps the
    state of connections; and of [lib/raftor/rpc/noop_transport.cc]. *)

From stdpp Require Import pretty.
From S2P Require Import Prelude Types Util Bytes Capnp.

(** ** Frames *)

Inductive CompressionType := CompressionNone | CompressionLz4 | CompressionZstd.

Record RpcHeader := mkRpcHeader {
  h_version : Z;
  h_from_node : Z;
  h_to_node : Z;
  h_request_id : Z;
  h_compression : CompressionType;
  h_payload_size : Z;
  h_msg_type : MessageType
}.

Record RpcHandshake := mkRpcHandshake {
  hk_version : Z;
  hk_node_id : Z;
  hk_cluster_id : Z
}.

Definition kMagic : Z := 0x52415046.
Definition kHandshakeMagic : Z := 0x52415048.
Definition kPrefixSize : Z := 8.
Definition kVersion : Z := 1.
Definition kDefaultMaxMessageSize : Z := 64 * 1024 * 1024.

(** The header and the message are null when the buffer is incomplete. *)
Record DecodeResult := mkDecodeResult {
  dr_header : option RpcHeader;
  dr_message : option Message;
  dr_bytes_consumed : Z
}.

Definition incomplete : DecodeResult := mkDecodeResult None None 0.

Section Codec.
Context {SH : Serializable RpcHeader} {SMsg : Serializable Message} {SK : Serializable RpcHandshake}.

Definition frame_header (msg : Message) (from_node to_node request_id : Z) : RpcHeader :=
  mkRpcHeader kVersion from_node to_node request_id CompressionNone (u32 (zlen (toBytes msg))) (m_type msg).

Definition Encode (msg : Message) (from_node to_node request_id : Z) : list Z :=
  let msg_bytes := toBytes msg in
  let header_bytes := toBytes (frame_header msg from_node to_node request_id) in
  le 4 kMagic ++ le 4 (u32 (zlen header_bytes)) ++ header_bytes ++ msg_bytes.

Definition FrameOverhead : Z :=
  kPrefixSize + zlen (toBytes (mkRpcHeader kVersion 0 0 0 CompressionNone 0 MsgHup)).

Definition MessageOverhead : Z := zlen (toBytes (empty_message <| m_type := MsgHup |> <| m_entries := [] |>)).

(** The magic and the length behind it, if the prefix is there. *)
Definition read_prefix (magic : Z) (buffer : list Z) (max_size : Z) : Result (option Z) :=
  if zlen buffer <? kPrefixSize then Ok None
  else if negb (of_le (sub 0 4 buffer) =? magic) then Err (ERpc InvalidMagic)
  else
    let length := of_le (sub 4 4 buffer) in
    if (max_size <? kPrefixSize) || (max_size -! kPrefixSize <? length) then Err (ERpc MessageTooLarge)
    else Ok (Some length).

(** [fromWords] on [length / sizeof(word)] words at an offset. *)
Definition words_at {T} `{!Serializable T} (off length : Z) (buffer : list Z) : option T :=
  fromWords (sub off (length / kWord * kWord) buffer).

Definition FrameSize (buffer : list Z) (max_size : Z) : Result Z :=
  match read_prefix kMagic buffer max_size with
  | Err e => Err e
  | Ok None => Ok 0
  | Ok (Some header_len) =>
      let min_frame_size := kPrefixSize + header_len in
      if zlen buffer <? min_frame_size then Ok 0
      else
        match words_at (T := RpcHeader) kPrefixSize header_len buffer with
        | None => Err (ERpc HeaderParseFailed)
        | Some header =>
            if max_size -! min_frame_size <? h_payload_size header then Err (ERpc MessageTooLarge)
            else Ok (min_frame_size + h_payload_size header)
        end
  end.

Definition Decode (buffer : list Z) (max_size : Z) : Result DecodeResult :=
  match read_prefix kMagic buffer max_size with
  | Err e => Err e
  | Ok None => Ok incomplete
  | Ok (Some header_len) =>
      let header_end := kPrefixSize + header_len in
      if zlen buffer <? header_end then Ok incomplete
      else
        match words_at (T := RpcHeader) kPrefixSize header_len buffer with
        | None => Err (ERpc HeaderParseFailed)
        | Some header =>
            let payload_size := h_payload_size header in
            if max_size -! header_end <? payload_size then Err (ERpc MessageTooLarge)
            else
              let total_size := header_end + payload_size in
              if zlen buffer <? total_size then Ok incomplete
              else
                match words_at (T := Message) header_end payload_size buffer with
                | None => Err (ERpc PayloadParseFailed)
                | Some msg => Ok (mkDecodeResult (Some header) (Some msg) total_size)
                end
        end
  end.

Definition EncodeHandshake (hs : RpcHandshake) : list Z :=
  let payload_bytes := toBytes hs in
  le 4 kHandshakeMagic ++ le 4 (u32 (zlen payload_bytes)) ++ payload_bytes.

Definition DecodeHandshake (buffer : list Z) (max_size : Z) : Result (option RpcHandshake * Z) :=
  match read_prefix kHandshakeMagic buffer max_size with
  | Err e => Err e
  | Ok None => Ok (None, 0)
  | Ok (Some length) =>
      let total_size := kPrefixSize + length in
      if zlen buffer <? total_size then Ok (None, 0)
      else
        match words_at (T := RpcHandshake) kPrefixSize length buffer with
        | None => Err (ERpc HandshakeParseFailed)
        | Some hs => Ok (Some hs, total_size)
        end
  end.
End Codec.

(** ** Addresses *)

(** [rfind(':')]: what is before the last colon and behind it. *)
Fixpoint rfind_colon (addr : string) : option (string * string) :=
  match addr with
  | EmptyString => None
  | String c rest =>
      match rfind_colon rest with
      | Some (host, port) => Some (String c host, port)
      | None => if Ascii.eqb c ":" then Some (EmptyString, rest) else None
      end
  end.

Definition digit_value (c : Ascii.ascii) : option Z :=
  let n := Z.of_nat (Ascii.nat_of_ascii c) in
  if (48 <=? n) && (n <=? 57) then Some (n - 48) else None.

(** The digits from here on: their value after [acc], and what follows. *)
Fixpoint digits (acc : Z) (s : string) : Z * string :=
  match s with
  | EmptyString => (acc, EmptyString)
  | String c rest => match digit_value c with Some d => digits (acc * 10 + d) rest | None => (acc, s) end
  end.

(** [std::from_chars] for an [int]: a minus sign, at least one digit, no
    overflow; the value and what follows the number. *)
Definition from_chars (s : string) : option (Z * string) :=
  let '(negative, t) := match s with String "-" t => (true, t) | _ => (false, s) end in
  match t with
  | String c _ =>
      match digit_value c with
      | None => None
      | Some _ =>
          let '(value, rest) := digits 0 t in
          let value := if negative then - value else value in
          if (- 2147483648 <=? value) && (value <=? 2147483647) then Some (value, rest) else None
      end
  | EmptyString => None
  end.

Definition ParseAddress (addr : string) : Result (string * Z) :=
  match rfind_colon addr with
  | None => Err (ERpc AddressPortMissing)
  | Some (host, port_str) =>
      match from_chars port_str with
      | Some (port, EmptyString) =>
          if (port <=? 0) || (65535 <? port) then Err (ERpc AddressPortOutOfRange) else Ok (host, port)
      | _ => Err (ERpc AddressPortInvalid)
      end
  end.

(** ** Peers *)

Inductive PeerState := PeerDisconnected | PeerConnecting | PeerConnected.
#[export] Instance PeerState_eq_dec : EqDecision PeerState.
Proof. solve_decision. Defined.

(** Times in nanoseconds. *)
Record PeerInfo := mkPeerInfo {
  pi_id : Z;
  pi_addr : string;
  pi_state : PeerState;
  pi_last_activity : Z;
  pi_failure_count : Z;
  pi_reconnect_after : Z
}.
#[export] Instance PeerInfo_eta : Eta PeerInfo := fun p =>
  mkPeerInfo (pi_id p) (pi_addr p) (pi_state p) (pi_last_activity p) (pi_failure_count p) (pi_reconnect_after p).

Abbreviation PeerManager := (gmap Z PeerInfo).

(** [uint32_t] arithmetic; the delay in milliseconds. *)
Definition CalculateBackoff (failure_count : Z) : Z :=
  let kBaseMs := 1000 in
  let kMaxMs := 30000 in
  let delay_ms := u32 (Z.shiftl kBaseMs (Z.min (u32 (failure_count - 1)) 4)) in
  Z.min delay_ms kMaxMs.

Definition pm_AddPeer (now id : Z) (addr : string) : M PeerManager unit :=
  modify (fun m => <[id := mkPeerInfo id addr PeerDisconnected now 0 0]> m).

Definition pm_RemovePeer (id : Z) : M PeerManager unit := modify (fun m => delete id m).

Definition GetPeer (id : Z) (m : PeerManager) : option PeerInfo := m !! id.

(** A change of the peer, if there is one. *)
Definition update_info (id : Z) (f : PeerInfo -> PeerInfo) : M PeerManager unit :=
  modify (fun m => match GetPeer id m with Some p => <[id := f p]> m | None => m end).

Definition UpdateState (id : Z) (state : PeerState) : M PeerManager unit :=
  update_info id (fun p =>
    let p := p <| pi_state := state |> in
    if bool_decide (state = PeerConnected) then p <| pi_failure_count := 0 |> <| pi_reconnect_after := 0 |> else p).

Definition RecordFailure (now id : Z) : M PeerManager unit :=
  update_info id (fun p =>
    let failures := u32 (pi_failure_count p + 1) in
    p <| pi_state := PeerDisconnected |> <| pi_failure_count := failures |>
      <| pi_reconnect_after := now + 1000000 * CalculateBackoff failures |>).

Definition RecordActivity (now id : Z) : M PeerManager unit := update_info id (fun p => p <| pi_last_activity := now |>).

Definition HasPeer (id : Z) (m : PeerManager) : bool := bool_decide (is_Some (m !! id)).
Definition pm_Size (m : PeerManager) : Z := Z.of_nat (size m).

Section PeerManager.
Context {ENV : Env}.

Definition GetAllPeerIds (m : PeerManager) : list Z := (iter_map m).*1.

Definition GetPeersToReconnect (now : Z) (m : PeerManager) : list Z :=
  (filter (fun p : Z * PeerInfo => bool_decide (pi_state p.2 = PeerDisconnected) && (pi_reconnect_after p.2 <=? now) = true) (iter_map m)).*1.

Definition ConnectedCount (m : PeerManager) : Z :=
  zlen (filter (fun p : Z * PeerInfo => pi_state p.2 = PeerConnected) (iter_map m)).
End PeerManager.

(** ** No transport

    [NoopTransport]: it starts, drops what it is given and delivers nothing. *)

Record NoopTransport := mkNoop { np_running_ : bool }.
#[export] Instance NoopTransport_eta : Eta NoopTransport := fun n => mkNoop (np_running_ n).

Definition noop_Start : M NoopTransport (Result unit) := set! np_running_ := true ;;; rok tt.
Definition noop_Stop : M NoopTransport unit := set! np_running_ := false.
Definition noop_AddPeer (id : Z) (addr : string) : M NoopTransport unit := ret tt.
Definition noop_RemovePeer (id : Z) : M NoopTransport unit := ret tt.
Definition noop_Send (messages : list Message) : M NoopTransport unit := ret tt.
Definition noop_Poll (timeout : Z) : M NoopTransport (list Message) := ret [].

(** ** Frames read back *)

Section CodecProps.
Context {SH : Serializable RpcHeader} {SMsg : Serializable Message} {SK : Serializable RpcHandshake}.

Lemma prefix_read magic n tail max_size : is_u32 magic -> is_u32 n -> 8 + n <= max_size < two64 ->
  read_prefix magic (le 4 magic ++ le 4 (u32 n) ++ tail) max_size = Ok (Some n).
Proof.
  intros Hm Hn Hmax. unfold read_prefix, kPrefixSize. rewrite (is_u32_u32 n) by done.
  assert (Hl4 : forall x, zlen (le 4 x) = 4) by (intros x; by rewrite le_length).
  rewrite (proj2 (Z.ltb_ge _ _)) by (rewrite !length_app, !le_length; lia).
  rewrite (sub_prefix 4 (le 4 magic)) by (by rewrite Hl4). rewrite of_le4 by done. rewrite Z.eqb_refl. cbn [negb].
  rewrite (sub_middle 4 4 (le 4 magic) (le 4 n) tail) by (by rewrite Hl4). rewrite of_le4 by done.
  unfold is_u32, two32, two64 in *. rewrite (proj2 (Z.ltb_ge max_size _)) by lia. cbn [orb].
  rewrite (proj2 (Z.ltb_ge _ _)) by u64_lia. done.
Qed.

Lemma words_at_middle {T} `{!Serializable T} (x : T) off a c : off = zlen a -> zlen (toBytes x) <= kTraversalLimit ->
  words_at off (zlen (toBytes x)) (a ++ toBytes x ++ c) = Some x.
Proof.
  intros -> Hl. unfold words_at, fromWords, kWord. pose proof (toBytes_words x) as Hw.
  replace (zlen (toBytes x) / 8 * 8) with (zlen (toBytes x)) by (pose proof (Z.div_mod (zlen (toBytes x)) 8); lia).
  rewrite (sub_middle (zlen a) (zlen (toBytes x)) a (toBytes x) c) by done. by apply flat_read.
Qed.

(** A frame within the limit of the receiver and of the Cap'n Proto reader. *)
Record frame_ok (msg : Message) (from_node to_node request_id max_size : Z) : Prop := {
  fo_header : zlen (toBytes (frame_header msg from_node to_node request_id)) <= kTraversalLimit;
  fo_message : zlen (toBytes msg) <= kTraversalLimit;
  fo_size : zlen (Encode msg from_node to_node request_id) <= max_size < two64
}.

Lemma Encode_length msg f t id : zlen (Encode msg f t id) = 8 + zlen (toBytes (frame_header msg f t id)) + zlen (toBytes msg).
Proof. unfold Encode. cbv zeta. rewrite !length_app, !le_length. lia. Qed.

Lemma Encode_bytes msg f t id : Forall (fun b => 0 <= b < 256) (Encode msg f t id).
Proof. unfold Encode. cbv zeta. rewrite !Forall_app. split; [apply le_bytes|]. split; [apply le_bytes|]. split; apply flat_bytes. Qed.

(** The cases of a buffer that starts like a frame. *)
Lemma frame_read msg f t id max_size tail : frame_ok msg f t id max_size ->
  let h := frame_header msg f t id in
  let buffer := le 4 kMagic ++ le 4 (u32 (zlen (toBytes h))) ++ tail in
  read_prefix kMagic buffer max_size = Ok (Some (zlen (toBytes h))) /\ zlen buffer = 8 + zlen tail /\
  h_payload_size h = zlen (toBytes msg) /\ (max_size -! (kPrefixSize + zlen (toBytes h)) <? zlen (toBytes msg)) = false.
Proof.
  intros [Hh Hm [Hs Hx]] h buffer. rewrite Encode_length in Hs. fold h in Hh, Hs. unfold kTraversalLimit in *.
  split; [apply prefix_read; unfold is_u32, two32, kMagic in *; lia|]. split; [unfold buffer; rewrite !length_app, !le_length; lia|].
  split; [cbn; apply is_u32_u32; unfold is_u32, two32; lia|]. apply Z.ltb_ge. unfold kPrefixSize, two64 in *. u64_lia.
Qed.

(** A whole frame, with anything behind it. *)
Lemma Decode_Encode msg f t id max_size rest : frame_ok msg f t id max_size ->
  Decode (Encode msg f t id ++ rest) max_size =
    Ok (mkDecodeResult (Some (frame_header msg f t id)) (Some msg) (zlen (Encode msg f t id))) /\
  FrameSize (Encode msg f t id ++ rest) max_size = Ok (zlen (Encode msg f t id)).
Proof.
  intros Hok. pose proof Hok as [Hh Hm _]. set (h := frame_header msg f t id) in *.
  destruct (frame_read msg f t id max_size (toBytes h ++ toBytes msg ++ rest) Hok) as (Ep & El & Epay & Elim). fold h in Ep, El, Epay, Elim.
  rewrite Encode_length. fold h. unfold Encode, Decode, FrameSize. cbv zeta. fold h. rewrite <- !app_assoc, Ep, El.
  rewrite (proj2 (Z.ltb_ge _ _)) by (rewrite !length_app; unfold kPrefixSize; lia).
  assert (Ew : words_at kPrefixSize (zlen (toBytes h)) (le 4 kMagic ++ le 4 (u32 (zlen (toBytes h))) ++ toBytes h ++ toBytes msg ++ rest) = Some h).
  { rewrite (app_assoc (le 4 kMagic)). apply words_at_middle; [by rewrite length_app, !le_length|done]. }
  rewrite Ew, Epay, Elim. rewrite (proj2 (Z.ltb_ge _ _)) by (rewrite !length_app; unfold kPrefixSize; lia).
  assert (Em : words_at (kPrefixSize + zlen (toBytes h)) (zlen (toBytes msg))
    (le 4 kMagic ++ le 4 (u32 (zlen (toBytes h))) ++ toBytes h ++ toBytes msg ++ rest) = Some msg).
  { rewrite (app_assoc (le 4 kMagic)), (app_assoc _ (toBytes h)). apply words_at_middle; [|done].
    rewrite !length_app, !le_length. unfold kPrefixSize. lia. }
  rewrite Em. done.
Qed.

(** A frame that has not arrived in full. *)
Lemma partial_frame msg f t id max_size k : frame_ok msg f t id max_size -> (k < length (Encode msg f t id))%nat ->
  Decode (take k (Encode msg f t id)) max_size = Ok incomplete /\
  FrameSize (take k (Encode msg f t id)) max_size =
    Ok (if 8 + zlen (toBytes (frame_header msg f t id)) <=? Z.of_nat k then zlen (Encode msg f t id) else 0).
Proof.
  intros Hok Hk. pose proof Hok as [Hh Hm _]. pose proof (Encode_length msg f t id) as Hlen. set (h := frame_header msg f t id) in *.
  destruct (decide (k < 8)%nat) as [H8|H8].
  { assert (Hs : (zlen (take k (Encode msg f t id)) <? kPrefixSize) = true) by (apply Z.ltb_lt; rewrite length_take; unfold kPrefixSize; lia).
    unfold Decode, FrameSize, read_prefix. rewrite Hs. rewrite (proj2 (Z.leb_gt _ _)) by lia. done. }
  set (tail := take (k - 8) (toBytes h ++ toBytes msg)).
  assert (Et : take k (Encode msg f t id) = le 4 kMagic ++ le 4 (u32 (zlen (toBytes h))) ++ tail).
  { unfold Encode. cbv zeta. fold h. rewrite (app_assoc (le 4 kMagic)), take_app_ge by (rewrite length_app, !le_length; lia).
    rewrite length_app, !le_length. unfold tail. by rewrite app_assoc. }
  assert (Hlt : zlen tail = Z.of_nat k - 8) by (unfold tail; rewrite length_take, length_app; lia).
  destruct (frame_read msg f t id max_size tail Hok) as (Ep & El & Epay & Elim). fold h in Ep, El, Epay, Elim.
  rewrite Et. unfold Decode, FrameSize. rewrite Ep, El, Hlt. unfold kPrefixSize. destruct (Z.leb_spec (8 + zlen (toBytes h)) (Z.of_nat k)) as [Hge|Hlt'].
  2: { rewrite (proj2 (Z.ltb_lt _ _)) by lia. done. }
  rewrite (proj2 (Z.ltb_ge _ _)) by lia.
  assert (Ew : words_at 8 (zlen (toBytes h)) (le 4 kMagic ++ le 4 (u32 (zlen (toBytes h))) ++ tail) = Some h).
  { unfold tail. rewrite take_app_ge by lia. rewrite (app_assoc (le 4 kMagic)). apply words_at_middle; [by rewrite length_app, !le_length|done]. }
  unfold kPrefixSize in Elim. rewrite Ew, Epay, Elim. rewrite (proj2 (Z.ltb_lt _ _)) by lia. by rewrite Hlen.
Qed.

(** C36: Frames survive a stream.  A frame within the size limit of the receiver
    decodes to its header and message whatever follows it, and consumes exactly
    its bytes; as long as only a proper prefix of it has arrived the decoder
    asks for more, without an error; [FrameSize] agrees on a whole frame. *)
Theorem frame_roundtrip msg f t id max_size rest k : frame_ok msg f t id max_size ->
  Decode (Encode msg f t id ++ rest) max_size =
    Ok (mkDecodeResult (Some (frame_header msg f t id)) (Some msg) (zlen (Encode msg f t id))) /\
  FrameSize (Encode msg f t id ++ rest) max_size = Ok (zlen (Encode msg f t id)) /\
  ((k < length (Encode msg f t id))%nat -> Decode (take k (Encode msg f t id)) max_size = Ok incomplete).
Proof.
  intros Hok. destruct (Decode_Encode msg f t id max_size rest Hok) as [Hd Hf]. split; [done|]. split; [done|].
  intros Hk. by apply partial_frame.
Qed.

(** The length of a buffer's frame, which the documentation of [FrameSize] has
    as 0 until the frame is complete, is there once the header is. *)
Lemma frame_size_before_payload msg f t id max_size k : frame_ok msg f t id max_size ->
  8 + zlen (toBytes (frame_header msg f t id)) <= Z.of_nat k < zlen (Encode msg f t id) ->
  FrameSize (take k (Encode msg f t id)) max_size = Ok (zlen (Encode msg f t id)).
Proof.
  intros Hok Hk. destruct (partial_frame msg f t id max_size k Hok ltac:(lia)) as [_ ->]. by rewrite (proj2 (Z.leb_le _ _)) by lia.
Qed.

Lemma of_le_range l : Forall (fun b => 0 <= b < 256) l -> 0 <= of_le l.
Proof. induction 1; cbn; lia. Qed.

Lemma read_prefix_bounds magic buffer max_size n : Forall (fun b => 0 <= b < 256) buffer -> 0 <= max_size < two64 ->
  read_prefix magic buffer max_size = Ok (Some n) -> 0 <= n /\ 8 + n <= max_size.
Proof.
  intros Hb Hm. unfold read_prefix, kPrefixSize. destruct (_ <? 8); [done|]. destruct (negb _); [done|].
  destruct (_ || _) eqn:E; [done|]. intros [= <-]. apply orb_false_iff in E as [E1%Z.ltb_ge E2%Z.ltb_ge].
  assert (0 <= of_le (sub 4 4 buffer)) by (apply of_le_range; unfold sub; by apply Forall_take, Forall_drop).
  split; [done|]. rewrite u64_id in E2 by (unfold is_u64, two64 in *; lia). lia.
Qed.

(** What a peer sends cannot make the decoder look past the buffer or
    accept more than the limit: on any bytes, [Decode] returns an error, asks
    for more, or consumes a frame that lies in the buffer and is no larger than
    the limit. *)
Theorem decode_stays_in_bounds buffer max_size r : Forall (fun b => 0 <= b < 256) buffer -> 0 <= max_size < two64 ->
  Decode buffer max_size = Ok r ->
  r = incomplete \/ dr_bytes_consumed r <= zlen buffer /\ dr_bytes_consumed r <= max_size /\
    is_Some (dr_header r) /\ is_Some (dr_message r).
Proof.
  intros Hb Hm E. unfold Decode in E. destruct (read_prefix kMagic buffer max_size) as [[n|]|] eqn:Ep; [|left; by injection E as <-|done].
  destruct (read_prefix_bounds _ _ _ _ Hb Hm Ep) as [Hn Hn8]. unfold kPrefixSize in E.
  destruct (_ <? _); [left; by injection E as <-|]. destruct (words_at 8 n buffer) as [h|]; [|done].
  destruct (Z.ltb_spec (max_size -! (8 + n)) (h_payload_size h)) as [|Hle]; [done|].
  rewrite u64_id in Hle by (unfold is_u64, two64 in *; lia).
  destruct (Z.ltb_spec (zlen buffer) (8 + n + h_payload_size h)) as [|Hlen]; [left; by injection E as <-|].
  destruct (words_at _ _ buffer) as [m|]; [|done]. injection E as <-. right. cbn. split; [lia|]. split; [lia|]. by split; eexists.
Qed.

(** Handshakes. *)
Lemma DecodeHandshake_Encode hs max_size rest : zlen (toBytes hs) <= kTraversalLimit -> 8 + zlen (toBytes hs) <= max_size < two64 ->
  DecodeHandshake (EncodeHandshake hs ++ rest) max_size = Ok (Some hs, zlen (EncodeHandshake hs)).
Proof.
  intros Hl Hm. unfold EncodeHandshake, DecodeHandshake. cbv zeta. rewrite <- !app_assoc.
  rewrite prefix_read by (unfold is_u32, two32, kHandshakeMagic, kTraversalLimit in *; lia).
  rewrite !length_app, !le_length. unfold kPrefixSize. rewrite (proj2 (Z.ltb_ge _ _)) by lia.
  rewrite (app_assoc (le 4 kHandshakeMagic)), words_at_middle; [|by rewrite length_app, !le_length|done]. do 2 f_equal. lia.
Qed.
End CodecProps.

(** ** Addresses read back *)

(** No colon. *)
Fixpoint colonless (s : string) : bool :=
  match s with
  | EmptyString => true
  | String c s => negb (Ascii.eqb c ":") && colonless s
  end.

Lemma rfind_colonless s : colonless s = true -> rfind_colon s = None.
Proof.
  induction s as [|c s IH]; cbn [colonless rfind_colon]; [done|]. intros [Hc Hs]%andb_prop. rewrite IH by done.
  by destruct (Ascii.eqb c ":").
Qed.

Lemma rfind_colon_app host port : colonless port = true -> rfind_colon (host +:+ String ":" port) = Some (host, port).
Proof.
  intros Hp. induction host as [|c host IH].
  - change (rfind_colon (String ":" port) = Some (EmptyString, port)). cbn [rfind_colon]. by rewrite rfind_colonless.
  - change (rfind_colon (String c (host +:+ String ":" port)) = Some (String c host, port)). cbn [rfind_colon]. by rewrite IH.
Qed.

Lemma rfind_colon_inv s host port : rfind_colon s = Some (host, port) -> s = host +:+ String ":" port /\ colonless port = true.
Proof.
  assert (Hn : forall s, rfind_colon s = None -> colonless s = true).
  { intros t. induction t as [|c t IH]; cbn [rfind_colon colonless]; [done|]. destruct (rfind_colon t) as [[]|]; [done|].
    destruct (Ascii.eqb c ":"); [done|]. intros _. by apply IH. }
  revert host. induction s as [|c s IH]; intros host; cbn [rfind_colon]; [done|]. destruct (rfind_colon s) as [[h p]|] eqn:E.
  - intros [= <- <-]. destruct (IH _ eq_refl) as [-> Hp]. done.
  - destruct (Ascii.eqb_spec c ":") as [->|]; [|done]. intros [= <- <-]. split; [done|auto].
Qed.

Fixpoint all_digits (s : string) : bool :=
  match s with
  | EmptyString => true
  | String c s => bool_decide (is_Some (digit_value c)) && all_digits s
  end.

Lemma digit_pretty d : (d < 10)%N -> digit_value (pretty_N_char d) = Some (Z.of_N d).
Proof.
  intros Hd. assert (d = 0 \/ d = 1 \/ d = 2 \/ d = 3 \/ d = 4 \/ d = 5 \/ d = 6 \/ d = 7 \/ d = 8 \/ d = 9)%N as Hc by lia.
  repeat destruct Hc as [->|Hc]; try reflexivity. by subst d.
Qed.

Lemma pretty_step x s : (0 < x)%N -> exists d, (d < 10)%N /\ x = (x / 10 * 10 + d)%N /\ pretty_N_go x s = pretty_N_go (x / 10) (String (pretty_N_char d) s).
Proof.
  intros Hx. exists (x mod 10)%N. split; [apply N.mod_lt; lia|]. split; [pose proof (N.div_mod x 10); lia|]. by apply pretty_N_go_step.
Qed.

Lemma digits_pretty x s : digits 0 (pretty_N_go x s) = digits (Z.of_N x) s.
Proof.
  revert s. induction (N.lt_wf_0 x) as [x _ IH]; intros s. destruct (decide (x = 0%N)) as [->|Hx]; [by rewrite pretty_N_go_0|].
  destruct (pretty_step x s) as (d & Hd & Hxd & ->); [lia|]. rewrite IH by (apply N.div_lt; lia). cbn [digits]. rewrite digit_pretty by done. f_equal. lia.
Qed.

Lemma all_digits_pretty x s : all_digits s = true -> all_digits (pretty_N_go x s) = true.
Proof.
  revert s. induction (N.lt_wf_0 x) as [x _ IH]; intros s Hs. destruct (decide (x = 0%N)) as [->|Hx]; [by rewrite pretty_N_go_0|].
  destruct (pretty_step x s) as (d & Hd & _ & ->); [lia|]. apply IH; [apply N.div_lt; lia|]. cbn [all_digits]. by rewrite digit_pretty.
Qed.

Lemma all_digits_colonless s : all_digits s = true -> colonless s = true.
Proof.
  induction s as [|c s IH]; cbn [all_digits colonless]; [done|]. intros [Hc Hs]%andb_prop. rewrite IH by done. rewrite andb_true_r.
  destruct (Ascii.eqb_spec c ":") as [->|]; [done|done].
Qed.

Lemma digits_all acc s v rest : digits acc s = (v, rest) -> rest = EmptyString -> all_digits s = true.
Proof.
  revert acc. induction s as [|c s IH]; intros acc; cbn [digits all_digits]; [done|].
  destruct (digit_value c) as [d|] eqn:Ed; [|by intros [= <- <-]]. intros E Hr. by rewrite (IH _ E Hr).
Qed.

(** A string that starts with a digit is read as a number without a sign. *)
Lemma from_chars_digit c s d : digit_value c = Some d -> from_chars (String c s) =
  (let '(v, rest) := digits 0 (String c s) in if (- 2147483648 <=? v) && (v <=? 2147483647) then Some (v, rest) else None).
Proof.
  intros Hd. unfold from_chars. destruct c as [[] [] [] [] [] [] [] []]; try done; cbn [digit_value] in *; by rewrite Hd.
Qed.

Lemma pretty_nonempty x s : (0 < x)%N -> exists c t d, pretty_N_go x s = String c t /\ digit_value c = Some d.
Proof.
  revert s. induction (N.lt_wf_0 x) as [x _ IH]; intros s Hx. destruct (pretty_step x s) as (d & Hd & _ & ->); [lia|].
  destruct (decide (x / 10 = 0)%N) as [->|Hne]; [rewrite pretty_N_go_0; do 3 eexists; split; [done|by apply digit_pretty]|].
  apply IH; [apply N.div_lt; lia|by apply N.neq_0_lt_0].
Qed.

Lemma digits_nonneg acc s v rest : 0 <= acc -> digits acc s = (v, rest) -> 0 <= v.
Proof.
  revert acc. induction s as [|c s IH]; intros acc Ha; cbn [digits]; [by intros [= <- _]|].
  destruct (digit_value c) as [d|] eqn:Ed; [|by intros [= <- _]]. apply IH. unfold digit_value in Ed. destruct (_ && _) eqn:Eb; [|done].
  apply andb_prop in Eb as [E1%Z.leb_le _]. injection Ed as <-. lia.
Qed.

(** Anything else is no number, or not a positive one. *)
Lemma from_chars_other c s v rest : digit_value c = None -> from_chars (String c s) = Some (v, rest) -> v <= 0.
Proof.
  intros Hd E. assert (Hneg : c = "-"%char).
  { unfold from_chars in E. destruct c as [[] [] [] [] [] [] [] []]; try done; cbn [digit_value] in *; by rewrite Hd in E. }
  subst c. unfold from_chars in E. destruct s as [|c s]; [done|]. destruct (digit_value c); [|done].
  destruct (digits 0 (String c s)) as [w r] eqn:Ew. apply digits_nonneg in Ew; [|lia]. destruct (_ && _); [|done]. injection E as <- _. lia.
Qed.

(** Addresses are read as they are written: a host and a port between 1 and
    65535, put together with a colon, parse to this host and port, also when
    the host has colons of its own; and whatever parses has that form, with the
    port in that range. *)
Theorem address_roundtrip host port :
  (1 <= port <= 65535 -> ParseAddress (host +:+ String ":" (pretty (Z.to_N port))) = Ok (host, port)) /\
  (forall addr, ParseAddress addr = Ok (host, port) ->
     1 <= port <= 65535 /\ exists ds, addr = host +:+ String ":" ds /\ all_digits ds = true /\ digits 0 ds = (port, EmptyString)).
Proof.
  split.
  - intros Hp. unfold ParseAddress, pretty, pretty_N. rewrite decide_False by lia.
    set (ds := pretty_N_go (Z.to_N port) ""). assert (Ha : all_digits ds = true) by (by apply all_digits_pretty).
    rewrite rfind_colon_app by (by apply all_digits_colonless).
    destruct (pretty_nonempty (Z.to_N port) "") as (c & s & d & E & Hd); [lia|]. assert (Hds : digits 0 ds = (port, EmptyString)).
    { unfold ds. rewrite digits_pretty. cbn. f_equal. lia. }
    fold ds in E. rewrite E in *. rewrite (from_chars_digit _ _ _ Hd), Hds. cbv zeta beta iota.
    rewrite !(proj2 (Z.leb_le _ _)) by lia. cbn [andb]. rewrite (proj2 (Z.leb_gt _ _)), (proj2 (Z.ltb_ge _ _)) by lia. done.
  - intros addr. unfold ParseAddress. destruct (rfind_colon addr) as [[h ps]|] eqn:Er; [|done]. apply rfind_colon_inv in Er as [-> _].
    destruct (from_chars ps) as [[v rest]|] eqn:Ef; [|done]. destruct rest; [|done]. destruct (_ || _) eqn:Eb; [done|]. intros [= -> ->].
    apply orb_false_iff in Eb as [E1%Z.leb_gt E2%Z.ltb_ge]. split; [lia|]. exists ps. split; [done|].
    destruct ps as [|c ps]; [done|]. destruct (digit_value c) as [d|] eqn:Ed.
    + rewrite (from_chars_digit _ _ _ Ed) in Ef. destruct (digits 0 (String c ps)) as [v r] eqn:Ev. destruct (_ && _); [|done]. injection Ef as -> ->.
      split; [by eapply digits_all|done].
    + apply from_chars_other in Ef; [lia|done].
Qed.

(** ** Waiting before a peer is tried again *)

Lemma CalculateBackoff_cases n : CalculateBackoff n = Z.shiftl 1000 (Z.min (u32 (n - 1)) 4).
Proof.
  unfold CalculateBackoff. cbv zeta. assert (0 <= u32 (n - 1)) by (apply Z.mod_pos_bound; done).
  assert (Hc : Z.min (u32 (n - 1)) 4 = 0 \/ Z.min (u32 (n - 1)) 4 = 1 \/ Z.min (u32 (n - 1)) 4 = 2 \/
    Z.min (u32 (n - 1)) 4 = 3 \/ Z.min (u32 (n - 1)) 4 = 4) by lia.
  destruct Hc as [->|[->|[->|[->| ->]]]]; reflexivity.
Qed.

(** The delay before a peer is tried again is 1 s after the first failure,
    doubles with each further one and stays at 16 s, also when the counter
    wraps around; it never reaches the 30 s the code caps it with. *)
Theorem backoff_schedule n : 1 <= n < two32 ->
  CalculateBackoff n = 1000 * 2 ^ Z.min (n - 1) 4 /\ CalculateBackoff 0 = 16000 /\
  (n + 1 < two32 -> CalculateBackoff n <= CalculateBackoff (n + 1)) /\ CalculateBackoff n <= 16000.
Proof.
  intros Hn. assert (Hb : forall m, 1 <= m < two32 -> CalculateBackoff m = 1000 * 2 ^ Z.min (m - 1) 4).
  { intros m Hm. rewrite CalculateBackoff_cases, is_u32_u32 by (unfold is_u32; lia). apply Z.shiftl_mul_pow2. lia. }
  split; [by apply Hb|]. split; [reflexivity|]. rewrite (Hb n) by done. split.
  - intros Hn'. rewrite (Hb (n + 1)) by lia. apply Z.mul_le_mono_nonneg_l; [lia|]. apply Z.pow_le_mono_r; lia.
  - replace 16000 with (1000 * 2 ^ 4) by done. apply Z.mul_le_mono_nonneg_l; [lia|]. apply Z.pow_le_mono_r; lia.
Qed.

(** A peer that failed is not offered for a reconnect before its delay is over. *)
Lemma failure_delays `{Env} now id now' m m' : RecordFailure now id m = Ret (tt, m') -> is_Some (m !! id) ->
  now' < now + 1000000000 -> id ∉ GetPeersToReconnect now' m'.
Proof.
  intros E [p Hp] Hnow Hin. unfold RecordFailure, update_info, GetPeer in E. injection E as <-. rewrite Hp in Hin.
  unfold GetPeersToReconnect in Hin. apply list_elem_of_fmap in Hin as ([i q] & Hi & Hin). cbn in Hi. subst i.
  apply list_elem_of_filter in Hin as [[_ Hle%Z.leb_le]%andb_prop Hin]. cbn in Hle.
  unfold iter_map in Hin. apply list_elem_of_omap in Hin as (i & _ & Hl). destruct (_ !! i) as [q'|] eqn:El; [|done]. injection Hl as -> ->.
  rewrite lookup_insert_eq in El. injection El as <-. cbn in Hle. rewrite CalculateBackoff_cases in Hle.
  assert (1000 <= Z.shiftl 1000 (Z.min (u32 (u32 (pi_failure_count p + 1) - 1)) 4)); [|lia].
  assert (0 <= u32 (u32 (pi_failure_count p + 1) - 1)) by (apply Z.mod_pos_bound; done).
  rewrite Z.shiftl_mul_pow2 by lia. assert (1 <= 2 ^ Z.min (u32 (u32 (pi_failure_count p + 1) - 1)) 4); [|lia].
  apply (Z.pow_le_mono_r 2 0); lia.
Qed.

(** ** Witnesses *)

Definition message_types : list MessageType :=
  [ MsgHup; MsgBeat; MsgPropose; MsgAppend; MsgAppendResponse; MsgRequestVote; MsgRequestVoteResponse; MsgSnapshot; MsgHeartbeat;
    MsgHeartbeatResponse; MsgUnreachable; MsgSnapStatus; MsgCheckQuorum; MsgTransferLeader; MsgTimeoutNow; MsgReadIndex; MsgReadIndexResp;
    MsgRequestPreVote; MsgRequestPreVoteResponse ].

#[export] Instance Enc_MessageType : Enc MessageType.
Proof.
  refine (Enc_via (fun t => Z.of_nat (default 0%nat (fst <$> list_find (fun u => u = t) message_types)))
    (fun z => default MsgHup (message_types !! Z.to_nat z)) _).
  by intros [].
Defined.

#[export] Instance Enc_CompressionType : Enc CompressionType.
Proof.
  refine (Enc_via (fun c => match c with CompressionNone => 0 | CompressionLz4 => 1 | CompressionZstd => 2 end)
    (fun z => if z =? 0 then CompressionNone else if z =? 1 then CompressionLz4 else CompressionZstd) _).
  by intros [].
Defined.

#[export] Instance Enc_RpcHeader : Enc RpcHeader.
Proof.
  refine (Enc_via (fun h => (h_version h, (h_from_node h, (h_to_node h, (h_request_id h, (h_compression h, (h_payload_size h, h_msg_type h)))))))
    (fun p => mkRpcHeader p.1 p.2.1 p.2.2.1 p.2.2.2.1 p.2.2.2.2.1 p.2.2.2.2.2.1 p.2.2.2.2.2.2) _).
  by intros [].
Defined.

#[export] Instance Enc_RpcHandshake : Enc RpcHandshake.
Proof.
  refine (Enc_via (fun h => (hk_version h, (hk_node_id h, hk_cluster_id h))) (fun p => mkRpcHandshake p.1 p.2.1 p.2.2) _).
  by intros [].
Defined.

#[export] Instance Enc_Message : Enc Message.
Proof.
  refine (Enc_via (fun m => (m_type m, (m_to m, (m_from m, (m_term m, (m_log_term m, (m_index m, (m_entries m, (m_commit m, (m_commit_term m,
      (m_snapshot m, (m_request_snapshot m, (m_reject m, (m_reject_hint m, (m_context m, m_priority m)))))))))))))))
    (fun '(a, (b, (c, (d, (e, (f, (g, (h, (i, (j, (k, (l, (m, (n, o)))))))))))))) => mkMessage a b c d e f g h i j k l m n o) _).
  by intros [].
Defined.

#[local] Instance plain_header : Serializable RpcHeader := Enc_Serializable _.
#[local] Instance plain_message : Serializable Message := Enc_Serializable _.
#[local] Instance plain_handshake : Serializable RpcHandshake := Enc_Serializable _.

Definition example_message : Message :=
  empty_message <| m_type := MsgAppend |> <| m_to := 2 |> <| m_from := 1 |> <| m_term := 3 |> <| m_entries := [mkEntry EntryNormal 3 7 "data" "1:0" 0] |>.

Lemma example_frame : frame_ok example_message 1 2 9 kDefaultMaxMessageSize.
Proof. constructor; vm_compute; [discriminate|discriminate|split; [discriminate|reflexivity]]. Qed.

Lemma frame_roundtrip_witness :
  Decode (Encode example_message 1 2 9 ++ [1; 2; 3]) kDefaultMaxMessageSize =
    Ok (mkDecodeResult (Some (frame_header example_message 1 2 9)) (Some example_message) (zlen (Encode example_message 1 2 9))) /\
  Decode (take 20 (Encode example_message 1 2 9)) kDefaultMaxMessageSize = Ok incomplete.
Proof.
  destruct (frame_roundtrip example_message 1 2 9 kDefaultMaxMessageSize [1; 2; 3] 20 example_frame) as (Hd & _ & Hp).
  split; [exact Hd|]. apply Hp. apply Nat.ltb_lt. vm_compute. reflexivity.
Defined.

Lemma decode_stays_in_bounds_witness :
  exists r, Decode (Encode example_message 1 2 9) kDefaultMaxMessageSize = Ok r /\
    (r = incomplete \/ dr_bytes_consumed r <= zlen (Encode example_message 1 2 9) /\ dr_bytes_consumed r <= kDefaultMaxMessageSize /\
      is_Some (dr_header r) /\ is_Some (dr_message r)).
Proof.
  eexists. assert (E : Decode (Encode example_message 1 2 9) kDefaultMaxMessageSize =
    Ok (mkDecodeResult (Some (frame_header example_message 1 2 9)) (Some example_message) (zlen (Encode example_message 1 2 9)))) by (vm_compute; reflexivity).
  split; [exact E|]. apply (decode_stays_in_bounds _ _ _) in E; [exact E| |vm_compute; split; [discriminate|reflexivity]].
  apply Encode_bytes.
Defined.

Lemma backoff_schedule_witness : CalculateBackoff 3 = 4000 /\ CalculateBackoff 3 <= 16000.
Proof. split; [reflexivity|]. apply (backoff_schedule 3). unfold two32. lia. Defined.
