(* ===== verification/Transport.v ===== *)
(** * The Cap'n Proto transport

    Model of [lib/raftor/rpc/capnp_transport.cc]: bounded queues between the
    event loop of the server and the thread that runs the RPC loop.  What
    Cap'n Proto does is an input: whether a server or a client can be created,
    and how a request ends.  Each method, and each round of the loop, is one
    step; the locks make the access to a queue one step in the code as well. *)

From S2P Require Import Prelude Types Util Tracker Rpc.

(** Durations in milliseconds. *)
Record TransportConfig := mkTransportConfig {
  tc_listen_addr : string;
  tc_node_id : Z;
  tc_max_message_size : Z;
  tc_connect_timeout : Z;
  tc_reconnect_interval : Z
}.

Record OutgoingBatch := mkBatch {
  ob_peer_id : Z;
  ob_messages : list Message
}.

(** A time in nanoseconds of the steady clock. *)
Record PeerRetryState := mkRetry {
  rs_attempts : Z;
  rs_next_attempt : Z
}.

(** With [peers_] and the queues, the variables of [RpcLoop]; [ct_joinable] is
    whether [rpc_thread_] was started and not joined, [ct_sent] what was given
    to Cap'n Proto. *)
Record CapnpTransport := mkCapnpTransport {
  ct_config_ : TransportConfig;
  ct_peers_ : gmap Z string;
  ct_outgoing_queue_ : list OutgoingBatch;
  ct_incoming_queue_ : list Message;
  ct_error_queue_ : list (Z * string);
  ct_running_ : bool;
  ct_stopped_ : bool;
  ct_joinable : bool;
  ct_inflight_send_tasks : Z;
  ct_clients : gmap Z string;
  ct_retry_states : gmap Z PeerRetryState;
  ct_sent : list OutgoingBatch
}.
#[export] Instance CapnpTransport_eta : Eta CapnpTransport := fun t =>
  mkCapnpTransport (ct_config_ t) (ct_peers_ t) (ct_outgoing_queue_ t) (ct_incoming_queue_ t) (ct_error_queue_ t)
    (ct_running_ t) (ct_stopped_ t) (ct_joinable t) (ct_inflight_send_tasks t) (ct_clients t) (ct_retry_states t) (ct_sent t).

Definition kMaxPendingIncomingMessages : Z := 4096.
Definition kMaxPendingOutgoingBatches : Z := 1024.
Definition kMaxPendingErrorEvents : Z := 1024.
Definition kMaxInFlightSendTasks : Z := 4096.

Definition new_transport (config : TransportConfig) : CapnpTransport :=
  mkCapnpTransport config ∅ [] [] [] false false false 0 ∅ ∅ [].

Definition PositiveReconnectInterval (interval : Z) : Z := if interval <=? 0 then 1 else interval.

Definition ReconnectDelay (base_interval attempts : Z) : Z :=
  let kMaxReconnectMultiplier := 16 in
  let shift := Z.min attempts 30 in
  let multiplier := Z.min (Z.shiftl 1 shift) kMaxReconnectMultiplier in
  PositiveReconnectInterval base_interval * multiplier.

Abbreviation TM := (M CapnpTransport).

Definition EnqueueError (peer_id : Z) (error : string) : TM unit :=
  let! t := get in
  if kMaxPendingErrorEvents <=? zlen (ct_error_queue_ t) then ret tt
  else set! ct_error_queue_ := ct_error_queue_ t ++ [(peer_id, error)].

Definition EnqueueMessage (message : Message) : TM unit :=
  let! t := get in
  if kMaxPendingIncomingMessages <=? zlen (ct_incoming_queue_ t) then
    EnqueueError (m_from message) "incoming_queue_ overflow (capacity={}), dropping message"
  else set! ct_incoming_queue_ := ct_incoming_queue_ t ++ [message].

(** The server's [sendMessages]. *)
Definition sendMessages (messages : list Message) : TM unit := foreach messages EnqueueMessage.

Definition MarkStopped : TM unit := set! ct_running_ := false ;;; set! ct_stopped_ := true.

(** The end of [RpcLoop] by an exception. *)
Definition loop_failed (description : string) : TM unit :=
  EnqueueError 0 description ;;;
  MarkStopped.

(** [server] is the exception that creating the RPC server throws, if it does.
    Assigning to a thread that was not joined ends the process. *)
Definition ct_Start (server : option string) : TM (Result unit) :=
  let! t := get in
  if ct_running_ t then rok tt
  else
    match ParseAddress (tc_listen_addr (ct_config_ t)) with
    | Err e => rfail e
    | Ok _ =>
        set! ct_running_ := true ;;;
        set! ct_stopped_ := false ;;;
        assert (negb (ct_joinable t)) "std::terminate" ;;;
        set! ct_joinable := true ;;;
        set! ct_inflight_send_tasks := 0 ;;;
        set! ct_clients := ∅ ;;;
        set! ct_retry_states := ∅ ;;;
        match server with
        | None => rok tt
        | Some description =>
            loop_failed description ;;;
            set! ct_running_ := false ;;;
            set! ct_stopped_ := true ;;;
            set! ct_joinable := false ;;;
            rfail (ERpc BindFailed)
        end
    end.

Definition ct_Stop : TM unit :=
  let! t := get in
  if negb (ct_running_ t) || ct_stopped_ t then set! ct_joinable := false
  else
    set! ct_stopped_ := true ;;;
    set! ct_running_ := false ;;;
    set! ct_joinable := false.

Definition ct_AddPeer (id : Z) (addr : string) : TM unit := modify (fun t => t <| ct_peers_ := <[id := addr]> (ct_peers_ t) |>).
Definition ct_RemovePeer (id : Z) : TM unit := modify (fun t => t <| ct_peers_ := delete id (ct_peers_ t) |>).

Section Transport.
Context {ENV : Env}.

(** The batches of [Send], one per peer. *)
Definition batches_of (messages : list Message) : gmap Z (list Message) :=
  foldl (fun batches m => <[m_to m := default [] (batches !! m_to m) ++ [m]]> batches) ∅ messages.

(** The loop over the batches; the peers whose batch was dropped. *)
Fixpoint push_batches (batches : list (Z * list Message)) : TM (list Z) :=
  match batches with
  | [] => ret []
  | (peer_id, batch) :: rest =>
      if bool_decide (batch = []) then push_batches rest
      else
        let! t := get in
        if kMaxPendingOutgoingBatches <=? zlen (ct_outgoing_queue_ t) then
          let! dropped := push_batches rest in
          ret (peer_id :: dropped)
        else
          set! ct_outgoing_queue_ := ct_outgoing_queue_ t ++ [mkBatch peer_id batch] ;;;
          push_batches rest
  end.

Definition ct_Send (messages : list Message) : TM unit :=
  let! dropped_peers := push_batches (iter_map (batches_of messages)) in
  foreach dropped_peers (fun peer_id => EnqueueError peer_id "outgoing_queue_ overflow (capacity={}), dropping batch").

(** The messages and the errors the callbacks are called with. *)
Definition ct_Poll : TM (list Message * list (Z * string)) :=
  let! t := get in
  set! ct_incoming_queue_ := [] ;;;
  set! ct_error_queue_ := [] ;;;
  ret (ct_incoming_queue_ t, ct_error_queue_ t).

(** ** The RPC loop *)

(** Clients of peers that were removed. *)
Definition drop_stale : TM unit :=
  modify (fun t =>
    let stale := filter (fun p => bool_decide (ct_peers_ t !! p = None) = true) (iter (dom (ct_clients t))) in
    t <| ct_clients := foldr delete (ct_clients t) stale |> <| ct_retry_states := foldr delete (ct_retry_states t) stale |>).

(** The batches the budget allows. *)
Definition take_outgoing : TM (list OutgoingBatch) :=
  let! t := get in
  if ct_inflight_send_tasks t <? kMaxInFlightSendTasks then
    let budget := Z.to_nat (kMaxInFlightSendTasks - ct_inflight_send_tasks t) in
    set! ct_outgoing_queue_ := drop budget (ct_outgoing_queue_ t) ;;;
    ret (take budget (ct_outgoing_queue_ t))
  else ret [].

Definition send_request (batch : OutgoingBatch) : TM unit :=
  modify (fun t => t <| ct_inflight_send_tasks := ct_inflight_send_tasks t +! 1 |> <| ct_sent := ct_sent t ++ [batch] |>).

(** The client of a peer, created if there is none; whether there is one now.
    [connect] is the exception that creating a client throws, if it does. *)
Definition ensure_client (now : Z) (connect : Z -> string -> option string) (peer_id : Z) (addr : string) : TM bool :=
  let! t := get in
  when (match ct_clients t !! peer_id with Some a => negb (bool_decide (a = addr)) | None => false end)
    (set! ct_clients := delete peer_id (ct_clients t) ;;;
     set! ct_retry_states := delete peer_id (ct_retry_states t)) ;;;
  let! t := get in
  match ct_clients t !! peer_id with
  | Some _ => ret true
  | None =>
      let retry_state := default (mkRetry 0 0) (ct_retry_states t !! peer_id) in
      set! ct_retry_states := <[peer_id := retry_state]> (ct_retry_states t) ;;;
      if now <? rs_next_attempt retry_state then
        EnqueueError peer_id "RPC reconnect to {} delayed for {}ms" ;;;
        ret false
      else
        match connect peer_id addr with
        | None =>
            set! ct_clients := <[peer_id := addr]> (ct_clients t) ;;;
            set! ct_retry_states := delete peer_id (ct_retry_states t) ;;;
            ret true
        | Some description =>
            let attempts := rs_attempts retry_state +! 1 in
            set! ct_retry_states := <[peer_id := mkRetry attempts
              (now + 1000000 * ReconnectDelay (PositiveReconnectInterval (tc_reconnect_interval (ct_config_ t))) (attempts -! 1))]> (ct_retry_states t) ;;;
            EnqueueError peer_id description ;;;
            ret false
        end
  end.

Definition send_batch (now : Z) (connect : Z -> string -> option string) (batch : OutgoingBatch) : TM unit :=
  let! t := get in
  match ct_peers_ t !! ob_peer_id batch with
  | None => ret tt
  | Some addr =>
      let! connected := ensure_client now connect (ob_peer_id batch) addr in
      when connected (send_request batch)
  end.

(** One round of the loop. *)
Definition loop_round (now : Z) (connect : Z -> string -> option string) : TM unit :=
  let! t := get in
  if negb (ct_running_ t) || ct_stopped_ t then ret tt
  else
    drop_stale ;;;
    let! outgoing := take_outgoing in
    foreach outgoing (send_batch now connect).

(** A request that ended. *)
Definition task_done : TM unit :=
  modify (fun t => t <| ct_inflight_send_tasks := if 0 <? ct_inflight_send_tasks t then ct_inflight_send_tasks t -! 1 else ct_inflight_send_tasks t |>).

Definition send_succeeded : TM unit := task_done.

Definition send_failed (now peer_id : Z) (description : string) : TM unit :=
  task_done ;;;
  let! t := get in
  set! ct_clients := delete peer_id (ct_clients t) ;;;
  let retry_state := default (mkRetry 0 0) (ct_retry_states t !! peer_id) in
  set! ct_retry_states := <[peer_id := mkRetry (rs_attempts retry_state)
    (now + 1000000 * PositiveReconnectInterval (tc_reconnect_interval (ct_config_ t)))]> (ct_retry_states t) ;;;
  EnqueueError peer_id description.

(** What happens to a transport: its methods, the server's calls, the rounds
    of the loop and the ends of requests. *)
Inductive TransportOp :=
  | TStart (server : option string)
  | TStop
  | TAddPeer (id : Z) (addr : string)
  | TRemovePeer (id : Z)
  | TSend (messages : list Message)
  | TReceive (messages : list Message)
  | TPoll
  | TRound (now : Z) (connect : Z -> string -> option string)
  | TSent
  | TSendFailed (now peer_id : Z) (description : string)
  | TLoopFailed (description : string).

(** The messages given to the message callback. *)
Definition ct_op (op : TransportOp) : TM (list Message) :=
  match op with
  | TStart server => let! _ := ct_Start server in ret []
  | TStop => ct_Stop ;;; ret []
  | TAddPeer id addr => ct_AddPeer id addr ;;; ret []
  | TRemovePeer id => ct_RemovePeer id ;;; ret []
  | TSend messages => ct_Send messages ;;; ret []
  | TReceive messages => sendMessages messages ;;; ret []
  | TPoll => let! events := ct_Poll in ret events.1
  | TRound now connect => loop_round now connect ;;; ret []
  | TSent => send_succeeded ;;; ret []
  | TSendFailed now peer_id description => send_failed now peer_id description ;;; ret []
  | TLoopFailed description =>
      let! t := get in
      when (ct_running_ t && negb (ct_stopped_ t)) (loop_failed description) ;;;
      ret []
  end.

Fixpoint ct_run (ops : list TransportOp) : TM (list Message) :=
  match ops with
  | [] => ret []
  | op :: rest =>
      let! out := ct_op op in
      let! more := ct_run rest in
      ret (out ++ more)
  end.
End Transport.

(** ** Bounds and order *)

(** [does m t Q]: from [t], [m] returns, with a result and a state that [Q]
    accepts. *)
Definition does {A} (m : TM A) (t : CapnpTransport) (Q : A -> CapnpTransport -> Prop) : Prop :=
  exists a t', m t = Ret (a, t') /\ Q a t'.

Lemma does_bind {A B} (m : TM A) (k : A -> TM B) t P Q :
  does m t P -> (forall a t', P a t' -> does (k a) t' Q) -> does (bind m k) t Q.
Proof.
  intros (a & t1 & E & HP) H. destruct (H a t1 HP) as (b & t2 & E2 & HQ).
  exists b, t2. split; [|done]. unfold bind. by rewrite E.
Qed.

Lemma does_weaken {A} (m : TM A) t (P Q : A -> CapnpTransport -> Prop) :
  does m t P -> (forall a t', P a t' -> Q a t') -> does m t Q.
Proof. intros (a & t' & E & HP) H. exists a, t'. auto. Qed.

Lemma does_get {A} (k : CapnpTransport -> TM A) t Q : does (k t) t Q -> does (bind get k) t Q.
Proof. done. Qed.

(** The queues within their capacities. *)
Record within (t : CapnpTransport) : Prop := {
  wi_out : zlen (ct_outgoing_queue_ t) <= kMaxPendingOutgoingBatches;
  wi_in : zlen (ct_incoming_queue_ t) <= kMaxPendingIncomingMessages;
  wi_err : zlen (ct_error_queue_ t) <= kMaxPendingErrorEvents;
  wi_tasks : 0 <= ct_inflight_send_tasks t <= kMaxInFlightSendTasks
}.

(** Whether there is a thread, and what it and the methods read of each other. *)
Definition flags (t : CapnpTransport) : bool * bool * bool := (ct_joinable t, ct_running_ t, ct_stopped_ t).

(** A step that leaves the batches, the messages and the count of requests. *)
Record quiet (t t' : CapnpTransport) : Prop := {
  qu_out : ct_outgoing_queue_ t' = ct_outgoing_queue_ t;
  qu_in : ct_incoming_queue_ t' = ct_incoming_queue_ t;
  qu_sent : ct_sent t' = ct_sent t;
  qu_tasks : ct_inflight_send_tasks t' = ct_inflight_send_tasks t;
  qu_thread : flags t' = flags t;
  qu_err : zlen (ct_error_queue_ t) <= kMaxPendingErrorEvents -> zlen (ct_error_queue_ t') <= kMaxPendingErrorEvents
}.

#[export] Instance quiet_preorder : PreOrder quiet.
Proof.
  split; [by intros t; split|].
  intros a b c [O I S T J E] [O' I' S' T' J' E']. split; try congruence. auto.
Qed.

Lemma quiet_within t t' : quiet t t' -> within t -> within t'.
Proof. intros [O I S T J E] [WO WI WE WT]. split; rewrite ?O, ?I, ?T; auto. Qed.

Lemma EnqueueError_does p e t : does (EnqueueError p e) t (fun _ => quiet t).
Proof.
  unfold does, EnqueueError. msteps. destruct (_ <=? _) eqn:E; msteps; eexists _, _; (split; [done|]); [done|].
  apply Z.leb_gt in E. split; try done. intros _. unfold kMaxPendingErrorEvents in *. cbn -[Z.of_nat length Z.le]. rewrite length_app. cbn [length]. lia.
Qed.

Lemma foreach_quiet {X} (l : list X) (body : X -> TM unit) t :
  (forall x t, does (body x) t (fun _ => quiet t)) -> does (foreach l body) t (fun _ => quiet t).
Proof.
  intros H. revert t. induction l as [|x l IH]; intros t; cbn [foreach]; [by exists tt, t|].
  eapply does_bind; [apply H|]. intros [] t' Q. eapply does_weaken; [apply IH|]. intros ? t'' Q'. by transitivity t'.
Qed.

(** The messages of the batches for a peer. *)
Definition messages_for (p : Z) (batches : list OutgoingBatch) : list Message :=
  b ← batches; if ob_peer_id b =? p then ob_messages b else [].

Definition for_peer (p : Z) (messages : list Message) : list Message := filter (fun m => m_to m = p) messages.

Lemma messages_for_app p a b : messages_for p (a ++ b) = messages_for p a ++ messages_for p b.
Proof. apply bind_app. Qed.

Lemma messages_for_sublist p a b : sublist a b -> sublist (messages_for p a) (messages_for p b).
Proof.
  induction 1 as [|x a b H IH|x a b H IH]; [done| |].
  - change (x :: a) with ([x] ++ a). change (x :: b) with ([x] ++ b). rewrite !messages_for_app. by apply sublist_app.
  - change (x :: b) with ([x] ++ b). rewrite messages_for_app. by apply sublist_inserts_l.
Qed.

Arguments messages_for : simpl never.
Arguments for_peer : simpl never.

Section TransportProps.
Context {ENV : Env}.

Lemma batches_of_lookup messages p :
  batches_of messages !! p = if decide (for_peer p messages = []) then None else Some (for_peer p messages).
Proof.
  unfold batches_of, for_peer. induction messages as [|m messages IH] using rev_ind; [done|].
  rewrite foldl_app, filter_app. cbn [foldl]. destruct (decide (m_to m = p)) as [<-|N].
  - rewrite lookup_insert_eq, IH, filter_cons_True, filter_nil by done.
    rewrite (decide_False (P := _ ++ _ = [])) by (intros E; by apply app_eq_nil in E as [_ ?]).
    by case_decide as E; cbn; [rewrite E|].
  - rewrite lookup_insert_ne, filter_cons_False, filter_nil, app_nil_r by done. done.
Qed.

Lemma messages_for_pairs p kvs : NoDup (kvs.*1) ->
  messages_for p ((fun kv => mkBatch kv.1 kv.2) <$> kvs) = default [] ((list_to_map kvs : gmap Z (list Message)) !! p).
Proof.
  induction kvs as [|[k v] kvs IH]; [done|]. intros N. apply NoDup_cons in N as [N D].
  change (messages_for p (_ <$> _)) with ((if k =? p then v else []) ++ messages_for p ((fun kv => mkBatch kv.1 kv.2) <$> kvs)).
  rewrite IH, list_to_map_cons by done. cbn [fst snd]. destruct (Z.eqb_spec k p).
  - subst. rewrite lookup_insert_eq, (not_elem_of_list_to_map_1 kvs p) by done. cbn. by rewrite app_nil_r.
  - by rewrite lookup_insert_ne.
Qed.

Lemma messages_for_batches p messages :
  messages_for p ((fun kv => mkBatch kv.1 kv.2) <$> iter_map (batches_of messages)) = for_peer p messages.
Proof.
  rewrite messages_for_pairs by apply iter_map_nodup.
  destruct (list_to_map _ !! p) as [v|] eqn:E.
  - apply elem_of_list_to_map_2, iter_map_elem in E. rewrite batches_of_lookup in E. by case_decide; simplify_eq/=.
  - apply not_elem_of_list_to_map_2 in E. cbn. destruct (batches_of messages !! p) as [v|] eqn:B.
    + destruct E. apply list_elem_of_fmap. exists (p, v). split; [done|]. by apply iter_map_elem.
    + rewrite batches_of_lookup in B. by case_decide.
Qed.

(** The transport with other batches to send. *)
Definition with_out (t : CapnpTransport) (q : list OutgoingBatch) : CapnpTransport := t <| ct_outgoing_queue_ := q |>.

Lemma push_batches_does kvs t : zlen (ct_outgoing_queue_ t) <= kMaxPendingOutgoingBatches ->
  does (push_batches kvs) t (fun _ t' => exists kept, sublist kept ((fun kv => mkBatch kv.1 kv.2) <$> kvs) /\
    t' = with_out t (ct_outgoing_queue_ t ++ kept) /\ zlen (ct_outgoing_queue_ t ++ kept) <= kMaxPendingOutgoingBatches).
Proof.
  revert t. induction kvs as [|[k v] kvs IH]; intros t W; cbn [push_batches].
  { exists [], t. split; [done|]. exists []. rewrite app_nil_r. by destruct t. }
  case_bool_decide as B.
  { eapply does_weaken; [by apply IH|]. intros ? t' (kept & S & E & L). exists kept. split; [by constructor|done]. }
  unfold does. msteps. destruct (Z.leb_spec kMaxPendingOutgoingBatches (zlen (ct_outgoing_queue_ t))) as [F|F]; msteps.
  - eapply does_bind; [by apply IH|]. intros d t' (kept & S & E & L). exists (k :: d), t'. split; [done|].
    exists kept. split; [by constructor|done].
  - set (t1 := _ <| _ := _ |>). destruct (IH t1) as (d & t' & R & kept & S & -> & L).
    { subst t1. cbn -[Z.of_nat length Z.le]. rewrite length_app. cbn [length]. lia. }
    eexists d, _. split; [exact R|]. exists (mkBatch k v :: kept). split; [by constructor|].
    subst t1. cbn -[Z.of_nat length Z.le] in L |- *. rewrite <- app_assoc in L |- *. done.
Qed.

(** What a step does to the batches and the messages. *)
Record carries (sent received out : list Message) (t t' : CapnpTransport) : Prop := {
  ca_within : within t -> within t';
  ca_out p : sublist (messages_for p (ct_sent t' ++ ct_outgoing_queue_ t')) (messages_for p (ct_sent t ++ ct_outgoing_queue_ t) ++ for_peer p sent);
  ca_in : sublist (out ++ ct_incoming_queue_ t') (ct_incoming_queue_ t ++ received)
}.

Lemma quiet_carries t t' : quiet t t' -> carries [] [] [] t t'.
Proof.
  intros Q. split; [by apply quiet_within| |]; destruct Q as [O I S T J E]; [intros p|]; rewrite ?O, ?I, ?S, app_nil_r; done.
Qed.

Lemma Send_carries messages t : within t -> does (ct_Send messages) t (fun _ t' => carries messages [] [] t t' /\ flags t' = flags t).
Proof.
  intros W. unfold ct_Send. eapply does_bind; [apply push_batches_does, W|]. intros d t1 (kept & S & -> & L).
  eapply does_weaken; [apply foreach_quiet; intros p u; apply EnqueueError_does|]. intros ? t' Q.
  split; [|by rewrite (qu_thread _ _ Q)]. split.
  - intros _. apply (quiet_within _ _ Q). destruct W. by split.
  - intros p. rewrite (qu_out _ _ Q), (qu_sent _ _ Q). cbn. rewrite app_assoc, (messages_for_app p (_ ++ _)).
    apply sublist_app; [done|]. rewrite <- (messages_for_batches p messages). by apply messages_for_sublist.
  - rewrite (qu_in _ _ Q), app_nil_r. done.
Qed.

Lemma EnqueueMessage_carries m t : does (EnqueueMessage m) t (fun _ t' => carries [] [m] [] t t' /\ flags t' = flags t).
Proof.
  unfold EnqueueMessage. unfold does. msteps.
  destruct (Z.leb_spec kMaxPendingIncomingMessages (zlen (ct_incoming_queue_ t))) as [F|F]; msteps.
  - eapply does_weaken; [apply EnqueueError_does|]. intros ? t' Q. split; [|apply Q].
    destruct (quiet_carries _ _ Q) as [CW CO CI]. split; [done|done|]. rewrite (qu_in _ _ Q). by apply sublist_inserts_r.
  - eexists _, _. split; [done|]. split; [|done]. split; [|intros p; cbn; by rewrite app_nil_r|done].
    intros [WO WI WE WT]. split; [done| |done|done]. cbn -[Z.of_nat length Z.le]. rewrite length_app. cbn [length]. lia.
Qed.

Lemma carries_trans s1 r1 o1 s2 r2 o2 t t1 t2 :
  carries s1 r1 o1 t t1 -> carries s2 r2 o2 t1 t2 -> carries (s1 ++ s2) (r1 ++ r2) (o1 ++ o2) t t2.
Proof.
  intros [W O I] [W' O' I']. split; [auto|intros p|].
  - etransitivity; [apply O'|]. unfold for_peer. rewrite filter_app, app_assoc. by apply sublist_app.
  - rewrite <- app_assoc. etransitivity; [apply sublist_app; [reflexivity|exact I']|]. rewrite !app_assoc. by apply sublist_app.
Qed.

Lemma sendMessages_carries messages t :
  does (sendMessages messages) t (fun _ t' => carries [] messages [] t t' /\ flags t' = flags t).
Proof.
  unfold sendMessages. revert t. induction messages as [|m messages IH]; intros t; cbn [foreach].
  { exists tt, t. split; [done|]. split; [by apply quiet_carries|done]. }
  eapply does_bind; [apply EnqueueMessage_carries|]. intros [] t1 (C & J). eapply does_weaken; [apply IH|].
  intros ? t2 (C' & J'). split; [|congruence]. exact (carries_trans _ _ _ _ _ _ _ _ _ C C').
Qed.

(** A step that gives batches to Cap'n Proto. *)
Record sends (kept : list OutgoingBatch) (t t' : CapnpTransport) : Prop := {
  se_out : ct_outgoing_queue_ t' = ct_outgoing_queue_ t;
  se_in : ct_incoming_queue_ t' = ct_incoming_queue_ t;
  se_sent : ct_sent t' = ct_sent t ++ kept;
  se_tasks : ct_inflight_send_tasks t' = ct_inflight_send_tasks t + zlen kept;
  se_thread : flags t' = flags t;
  se_err : zlen (ct_error_queue_ t) <= kMaxPendingErrorEvents -> zlen (ct_error_queue_ t') <= kMaxPendingErrorEvents
}.

Lemma quiet_sends t t' : quiet t t' -> sends [] t t'.
Proof. intros [O I S T J E]. split; rewrite ?app_nil_r, ?Z.add_0_r; done. Qed.

Lemma sends_trans a b t t1 t2 : sends a t t1 -> sends b t1 t2 -> sends (a ++ b) t t2.
Proof.
  intros [O I S T J E] [O' I' S' T' J' E']. split; [congruence|congruence| | |congruence|auto].
  - by rewrite S', S, app_assoc.
  - rewrite T', T, length_app. lia.
Qed.

Lemma send_request_sends b t : 0 <= ct_inflight_send_tasks t < kMaxInFlightSendTasks -> sends [b] t (t <| ct_inflight_send_tasks := ct_inflight_send_tasks t +! 1 |> <| ct_sent := ct_sent t ++ [b] |>).
Proof. unfold kMaxInFlightSendTasks. intros H. split; try done. cbn. u64_lia. Qed.

Lemma ensure_client_quiet now connect peer_id addr t : does (ensure_client now connect peer_id addr) t (fun _ => quiet t).
Proof.
  unfold ensure_client. apply does_get, (does_bind _ _ _ (fun _ => quiet t)).
  { match goal with |- context [when ?c _] => destruct c end; eexists tt, _; (split; [by msteps|]); by split. }
  intros [] t1 Q. unfold does. msteps. destruct (ct_clients t1 !! peer_id); msteps; [by eexists _, _|].
  destruct (now <? _); [|destruct (connect peer_id addr)]; msteps.
  1,2: eapply does_bind; [apply EnqueueError_does|]; intros [] t2 Q2; eexists _, _; (split; [done|]); transitivity t1; [done|];
    destruct Q2; by split.
  eexists _, _. split; [done|]. transitivity t1; [done|]. by split.
Qed.

Lemma send_batch_sends now connect b t : 0 <= ct_inflight_send_tasks t < kMaxInFlightSendTasks ->
  does (send_batch now connect b) t (fun _ t' => exists kept, sublist kept [b] /\ sends kept t t').
Proof.
  intros T. unfold send_batch, does. msteps. destruct (ct_peers_ t !! ob_peer_id b) as [addr|]; msteps.
  2: { exists tt, t. split; [done|]. exists []. split; [apply sublist_nil_l|by apply quiet_sends]. }
  eapply does_bind; [apply ensure_client_quiet|]. intros c t1 Q. cbn beta in Q. rewrite <- (qu_tasks _ _ Q) in T. apply quiet_sends in Q.
  destruct c; eexists tt, _; (split; [by msteps|]).
  - exists [b]. split; [done|]. apply (sends_trans [] [b] t t1); [done|by apply send_request_sends].
  - exists []. split; [apply sublist_nil_l|done].
Qed.

Lemma send_batches_sends now connect bs t : 0 <= ct_inflight_send_tasks t -> ct_inflight_send_tasks t + zlen bs <= kMaxInFlightSendTasks ->
  does (foreach bs (send_batch now connect)) t (fun _ t' => exists kept, sublist kept bs /\ sends kept t t').
Proof.
  revert t. induction bs as [|b bs IH]; intros t T L; cbn [foreach].
  { exists tt, t. split; [done|]. exists []. split; [done|by apply quiet_sends]. }
  cbn [length] in L. eapply does_bind; [apply send_batch_sends; lia|]. intros [] t1 (k & S & K).
  pose proof (sublist_length _ _ S) as SL. cbn [length] in SL. pose proof (se_tasks _ _ _ K).
  eapply does_weaken; [apply IH; lia|]. intros ? t2 (k' & S' & K'). exists (k ++ k').
  split; [by apply (sublist_app k [b])|by eapply sends_trans].
Qed.

Lemma round_carries n kept t t1 t' : within t -> quiet t t1 ->
  n = Z.to_nat (kMaxInFlightSendTasks - ct_inflight_send_tasks t) -> sublist kept (take n (ct_outgoing_queue_ t)) ->
  sends kept (with_out t1 (drop n (ct_outgoing_queue_ t))) t' -> carries [] [] [] t t'.
Proof.
  intros W Q -> S [O I SE T J E]. pose proof (quiet_within _ _ Q W) as [WO WI WE WT].
  pose proof (sublist_length _ _ S) as SL. rewrite length_take in SL.
  cbn in O, I, SE, T, J, E. rewrite (qu_tasks _ _ Q) in WT, T. split.
  - intros _. split; rewrite ?O, ?I, ?T; [|done|auto|lia]. rewrite length_drop. rewrite (qu_out _ _ Q) in WO. lia.
  - intros p. rewrite O, SE, (qu_sent _ _ Q), app_nil_r. apply messages_for_sublist. rewrite <- app_assoc.
    apply sublist_app; [done|]. rewrite <- (take_drop (Z.to_nat (kMaxInFlightSendTasks - ct_inflight_send_tasks t)) (ct_outgoing_queue_ t)) at 2. by apply sublist_app.
  - by rewrite I, (qu_in _ _ Q), app_nil_r.
Qed.

Lemma loop_round_carries now connect t : within t ->
  does (loop_round now connect) t (fun _ t' => carries [] [] [] t t' /\ flags t' = flags t).
Proof.
  intros W. unfold loop_round. apply does_get. destruct (_ || _).
  { exists tt, t. split; [done|]. split; [by apply quiet_carries|done]. }
  apply (does_bind _ _ _ (fun _ => quiet t)); [eexists _, _; (split; [done|]); by split|]. intros [] t1 Q.
  unfold take_outgoing, does. msteps. rewrite (qu_tasks _ _ Q), (qu_out _ _ Q).
  destruct (Z.ltb_spec (ct_inflight_send_tasks t) kMaxInFlightSendTasks) as [L|L]; msteps.
  2: { exists tt, t1. split; [done|]. split; [by apply quiet_carries|apply Q]. }
  eapply does_weaken.
  - apply send_batches_sends; cbn -[Z.of_nat length Z.le Z.add]; rewrite (qu_tasks _ _ Q); [apply W|]. rewrite length_take. lia.
  - intros ? t' (kept & S & K). split; [by eapply round_carries|]. rewrite (se_thread _ _ _ K). apply Q.
Qed.

Lemma task_done_carries t : within t -> does task_done t (fun _ t' => carries [] [] [] t t' /\ flags t' = flags t).
Proof.
  intros [WO WI WE WT]. eexists _, _. split; [done|]. split; [|done]. split; [|intros p; cbn; by rewrite app_nil_r|cbn; by rewrite app_nil_r].
  intros _. split; [done..|]. unfold kMaxInFlightSendTasks in *. cbn. destruct (Z.ltb_spec 0 (ct_inflight_send_tasks t)); u64_lia.
Qed.

Lemma send_failed_carries now p d t : within t ->
  does (send_failed now p d) t (fun _ t' => carries [] [] [] t t' /\ flags t' = flags t).
Proof.
  intros W. unfold send_failed. eapply does_bind; [by apply task_done_carries|]. intros [] t1 [C J].
  unfold does. msteps. eapply does_weaken; [apply EnqueueError_does|]. intros ? t2 Q. split; [|by rewrite (qu_thread _ _ Q)].
  apply (carries_trans [] [] [] [] [] [] t t1 t2); [done|]. apply quiet_carries. destruct Q. by split.
Qed.

(** [alive failed t]: a thread that is not joined runs the loop, unless the
    loop failed. *)
Definition alive (failed : bool) (t : CapnpTransport) : Prop :=
  ct_joinable t = true -> ct_running_ t = true /\ ct_stopped_ t = false \/ failed = true.

Definition handed (op : TransportOp) : list Message := match op with TSend messages => messages | _ => [] end.
Definition received (op : TransportOp) : list Message := match op with TReceive messages => messages | _ => [] end.
Definition is_loop_failure (op : TransportOp) : bool := match op with TLoopFailed _ => true | _ => false end.

(** What is said of one operation. *)
Definition op_ok (op : TransportOp) (failed : bool) (t : CapnpTransport) (r : outcome (list Message * CapnpTransport)) : Prop :=
  match r with
  | Ret (out, t') => carries (handed op) (received op) out t t' /\ alive (failed || is_loop_failure op) t'
  | Abort f => f = Panic "std::terminate" /\ failed = true
  end.

Lemma alive_flags failed t t' : flags t' = flags t -> alive failed t -> alive failed t'.
Proof. unfold flags, alive. intros [= -> -> ->]. done. Qed.

Lemma flags_op_ok (m : TM unit) op failed t :
  ct_op op = (m ;;; ret []) -> is_loop_failure op = false -> alive failed t ->
  does m t (fun _ t' => carries (handed op) (received op) [] t t' /\ flags t' = flags t) -> op_ok op failed t (ct_op op t).
Proof.
  intros -> N A (? & t' & E & C & F). unfold bind. rewrite E. cbn. rewrite N, orb_false_r. split; [done|by eapply alive_flags].
Qed.

Lemma loop_failed_does d t : exists t', loop_failed d t = Ret (tt, t') /\ carries [] [] [] t t' /\
  ct_joinable t' = ct_joinable t /\ ct_running_ t' = false /\ ct_stopped_ t' = true.
Proof.
  unfold loop_failed. destruct (EnqueueError_does 0 d t) as ([] & t1 & E & Q). pose proof (qu_thread _ _ Q) as [= J R S].
  unfold bind at 1. rewrite E. unfold MarkStopped. msteps. eexists. split; [done|]. split; [|by rewrite <- J].
  apply quiet_carries in Q. destruct Q as [W O I]. split; [|done|done]. intros H. by destruct (W H).
Qed.

(** A step that touches no queue. *)
Lemma same_carries t t' : ct_outgoing_queue_ t' = ct_outgoing_queue_ t -> ct_incoming_queue_ t' = ct_incoming_queue_ t ->
  ct_error_queue_ t' = ct_error_queue_ t -> ct_sent t' = ct_sent t ->
  (ct_inflight_send_tasks t' = ct_inflight_send_tasks t \/ ct_inflight_send_tasks t' = 0) -> carries [] [] [] t t'.
Proof.
  intros O I E S T. split; [|intros p|]; rewrite ?O, ?I, ?S, ?app_nil_r; [|done|done].
  intros [WO WI WE WT]. split; rewrite ?O, ?I, ?E; [done..|]. unfold kMaxInFlightSendTasks in *. lia.
Qed.

Lemma Start_op_ok server failed t : alive failed t -> op_ok (TStart server) failed t (ct_op (TStart server) t).
Proof.
  intros A. cbn [ct_op]. unfold ct_Start. msteps. destruct (ct_running_ t) eqn:R.
  { unfold op_ok, rok. msteps. cbn. rewrite orb_false_r. split; [by apply same_carries; auto|done]. }
  destruct (ParseAddress _) as [x|e].
  2: { unfold op_ok, rfail. msteps. cbn. rewrite orb_false_r. split; [by apply same_carries; auto|done]. }
  msteps. unfold assert. destruct (ct_joinable t) eqn:J; cbn [negb]; msteps.
  { cbn. destruct A as [[? _]|]; [done|congruence|done]. }
  set (t1 := _ <| ct_retry_states := _ |>). assert (carries [] [] [] t t1) as C1 by (by apply same_carries; auto).
  destruct server as [d|]; [|unfold rok; msteps; cbn; split; [done|intros _; by left]].
  destruct (loop_failed_does d t1) as (t2 & E & C2 & _). unfold bind at 1. unfold bind at 1. rewrite E. unfold rfail. msteps.
  cbn. split; [|done]. apply (carries_trans [] [] [] [] [] [] t t2); [by apply (carries_trans [] [] [] [] [] [] t t1)|].
  by apply same_carries; auto.
Qed.

Lemma ct_op_ok op failed t : within t -> alive failed t -> op_ok op failed t (ct_op op t).
Proof.
  intros W A. destruct op as [server| |id addr|id|ms|ms| |now connect| |now p d|d].
  - by apply Start_op_ok.
  - cbn [ct_op]. unfold ct_Stop. msteps. destruct (_ || _); msteps; cbn; (split; [by apply same_carries; auto|done]).
  - eapply flags_op_ok; [done..|]. eexists _, _. split; [done|]. split; [by apply same_carries; auto|done].
  - eapply flags_op_ok; [done..|]. eexists _, _. split; [done|]. split; [by apply same_carries; auto|done].
  - eapply flags_op_ok; [done..|]. by apply Send_carries.
  - eapply flags_op_ok; [done..|]. by apply sendMessages_carries.
  - cbn [ct_op]. unfold ct_Poll. msteps. cbn. rewrite orb_false_r. split; [|done]. split; [|intros q; cbn; by rewrite app_nil_r|done].
    intros _. destruct W as [WO WI WE WT]. by split.
  - eapply flags_op_ok; [done..|]. by apply loop_round_carries.
  - eapply flags_op_ok; [done..|]. by apply task_done_carries.
  - eapply flags_op_ok; [done..|]. by apply send_failed_carries.
  - cbn [ct_op]. msteps. destruct (_ && _).
    + destruct (loop_failed_does d t) as (t' & E & C & _). unfold bind at 1. rewrite E. cbn. rewrite orb_true_r. split; [done|by right].
    + msteps. cbn. rewrite orb_true_r. split; [by apply same_carries; auto|by right].
Qed.

Lemma ct_run_ok ops failed t : within t -> alive failed t ->
  match ct_run ops t with
  | Ret (out, t') => carries (ops ≫= handed) (ops ≫= received) out t t'
  | Abort f => f = Panic "std::terminate" /\ (failed = true \/ existsb is_loop_failure ops = true)
  end.
Proof.
  revert failed t. induction ops as [|op ops IH]; intros failed t W A; [by apply same_carries; auto|].
  cbn [ct_run]. unfold bind at 1. pose proof (ct_op_ok op failed t W A) as H.
  destruct (ct_op op t) as [[out t1]|f]; cbn in H; [|destruct H; auto]. destruct H as [C A1].
  specialize (IH _ t1 (ca_within _ _ _ _ _ C W) A1). unfold bind. destruct (ct_run ops t1) as [[more t2]|f].
  - exact (carries_trans _ _ _ _ _ _ _ _ _ C IH).
  - destruct IH as [-> IH]. split; [done|]. cbn [existsb]. destruct failed, (is_loop_failure op); cbn in *; intuition.
Qed.


(** The capacities are reached: a message that does not fit is dropped and
    reported. *)
Lemma full_queue_reports m t : zlen (ct_incoming_queue_ t) = kMaxPendingIncomingMessages -> ct_error_queue_ t = [] ->
  exists t', EnqueueMessage m t = Ret (tt, t') /\ ct_incoming_queue_ t' = ct_incoming_queue_ t /\
    ct_error_queue_ t' = [(m_from m, "incoming_queue_ overflow (capacity={}), dropping message"%string)].
Proof.
  intros L E. unfold EnqueueMessage. msteps. rewrite L, Z.leb_refl. unfold EnqueueError. msteps. rewrite E. cbn. msteps. by eexists.
Qed.

(** [Start] after the loop failed assigns to a thread that nobody joined. *)
Lemma restart_after_loop_failure config :
  (exists host port, ParseAddress (tc_listen_addr config) = Ok (host, port)) ->
  ct_run [TStart None; TLoopFailed "failed"; TStart None] (new_transport config) = Abort (Panic "std::terminate").
Proof. intros (h & p & E). do 2 (cbv -[ParseAddress tc_listen_addr]; rewrite E). reflexivity. Qed.

(** [Stop] in between joins it. *)
Lemma stop_then_restart config :
  (exists host port, ParseAddress (tc_listen_addr config) = Ok (host, port)) ->
  exists out t, ct_run [TStart None; TLoopFailed "failed"; TStop; TStart None] (new_transport config) = Ret (out, t) /\ ct_running_ t = true.
Proof. intros (h & p & E). eexists _, _. do 2 (cbv -[ParseAddress tc_listen_addr]; rewrite E). by split. Qed.
End TransportProps.

(** The delay before another attempt to connect doubles with each failure, up
    to sixteen intervals. *)
Lemma ReconnectDelay_doubles base attempts : 0 <= attempts ->
  ReconnectDelay base attempts = Z.min (2 ^ attempts) 16 * PositiveReconnectInterval base.
Proof.
  intros H. unfold ReconnectDelay. rewrite Z.shiftl_1_l, Z.mul_comm. f_equal.
  destruct (Z.le_gt_cases attempts 30) as [L|L]; [by rewrite (Z.min_l attempts 30)|]. rewrite (Z.min_r attempts 30) by lia.
  rewrite (Z.min_r (2 ^ attempts) 16); [done|]. transitivity (2 ^ 30); [done|]. apply Z.pow_le_mono_r; lia.
Qed.
