(* ===== verification/KvMain.v ===== *)
(** * The key-value server program

    Model of [examples/kvstore/main.cc]: the options of the command line, the
    list of peers, and how the program builds the configuration, creates the
    server and starts it with its HTTP interface. *)

From stdpp Require Import pretty.
From S2P Require Import Prelude Types Errors Util Storage ReadOnly Config RaftLog RaftCore Raft RawNode Disk Metadata Record Segment WalStorage Json ProposalTracker StateMachine KvStore ReadyProcessor Raftor KvHttp KvCli Rpc.

Open Scope string_scope.
Open Scope list_scope.
Open Scope Z_scope.

(** ** Numbers of the standard library *)

(** [std::invalid_argument] and [std::out_of_range] *)
Inductive ConvError := InvalidArgument | OutOfRange.

Definition is_space (c : ascii) : bool :=
  let n := N_of_ascii c in (n =? 32)%N || ((9 <=? n)%N && (n <=? 13)%N).

Fixpoint skip_spaces (s : string) : string :=
  match s with
  | String c rest => if is_space c then skip_spaces rest else s
  | EmptyString => s
  end.

(** The sign and the digits of a number, whatever follows them. *)
Definition strto (s : string) : option (bool * Z) :=
  let '(negative, t) :=
    match skip_spaces s with
    | String "-" t => (true, t)
    | String "+" t => (false, t)
    | t => (false, t)
    end in
  match t with
  | String c _ => match digit_value c with Some _ => Some (negative, (digits 0 t).1) | None => None end
  | EmptyString => None
  end.

(** [std::stoull] negates modulo 2^64. *)
Definition std_stoull (s : string) : ConvError + Z :=
  match strto s with
  | None => inl InvalidArgument
  | Some (negative, value) =>
      if u64max <? value then inl OutOfRange else inr (if negative : bool then u64 (- value) else value)
  end.

Definition std_stoi (s : string) : ConvError + Z :=
  match strto s with
  | None => inl InvalidArgument
  | Some (negative, value) =>
      let value := if negative : bool then - value else value in
      if (value <? - 2 ^ 31) || (2 ^ 31 - 1 <? value) then inl OutOfRange else inr value
  end.

(** [static_cast<uint16_t>] *)
Definition to_uint16 (n : Z) : Z := n mod 2 ^ 16.

(** ** Options *)

Record ServerOptions := mkServerOptions {
  so_node_id : Z;
  so_port : Z;
  so_raft_port : Z;
  so_peers : string;
  so_data_dir : string
}.
#[export] Instance ServerOptions_eta : Eta ServerOptions := fun o =>
  mkServerOptions (so_node_id o) (so_port o) (so_raft_port o) (so_peers o) (so_data_dir o).

Definition new_server_options : ServerOptions := mkServerOptions 1 8080 9000 "" "./kv_data".

(** What the exceptions of the conversions say. *)
Class ConvText := conv_what : ConvError -> string.

Section Main.
Context {CT : ConvText}.

(** A conversion in a [try] block that exits. *)
Definition converted {A} (what : string) (r : ConvError + Z) (k : Z -> Cli A) : Cli A :=
  match r with
  | inr n => k n
  | inl e => let^ _ := print (OutError ("Error: invalid " +:+ what +:+ ": " +:+ conv_what e)) in exit 1
  end.

(** Arguments that are not known, and an option that is the last argument, are
    passed over. *)
Fixpoint parseServerArgs (args : list string) (opts : ServerOptions) : Cli ServerOptions :=
  match args with
  | [] => cret opts
  | arg :: rest =>
      if bool_decide (arg = "--help") then let^ _ := print OutHelp in exit 0
      else
        match rest with
        | [] => cret opts
        | value :: rest' =>
            if bool_decide (arg = "--node-id") then
              converted "node-id" (std_stoull value) (fun n => parseServerArgs rest' (opts <| so_node_id := n |>))
            else if bool_decide (arg = "--port") then
              converted "port" (std_stoi value) (fun n => parseServerArgs rest' (opts <| so_port := to_uint16 n |>))
            else if bool_decide (arg = "--raft-port") then
              converted "raft-port" (std_stoi value) (fun n => parseServerArgs rest' (opts <| so_raft_port := to_uint16 n |>))
            else if bool_decide (arg = "--peers") then parseServerArgs rest' (opts <| so_peers := value |>)
            else if bool_decide (arg = "--data-dir") then parseServerArgs rest' (opts <| so_data_dir := value |>)
            else parseServerArgs rest opts
        end
  end.

(** ** Peers *)

(** [s.find(c, pos)] *)
Fixpoint find_char (c : ascii) (s : string) : option nat :=
  match s with
  | EmptyString => None
  | String x s => if bool_decide (x = c) then Some 0%nat else S <$> find_char c s
  end.

Definition find_from (c : ascii) (s : string) (pos : nat) : option nat :=
  Nat.add pos <$> find_char c (String.substring pos (String.length s) s).

(** [s.substr(pos)] *)
Definition substr_from (pos : nat) (s : string) : string := String.substring pos (String.length s) s.

(** The body of the loop for one peer. *)
Definition parse_peer (peer : string) : Cli (option PeerConfig) :=
  match find_char ":" peer with
  | None => cret None
  | Some colon =>
      match std_stoull (String.substring 0 colon peer) with
      | inr id => cret (Some (mkPeerConfig id (substr_from (colon + 1) peer)))
      | inl e =>
          let^ _ := print (OutError ("Warning: skipping invalid peer '" +:+ peer +:+ "': " +:+ conv_what e)) in
          cret None
      end
  end.

Definition push (peers : list PeerConfig) (peer : option PeerConfig) : list PeerConfig :=
  match peer with Some p => peers ++ [p] | None => peers end.

(** [while (start < peers_str.size())] *)
Fixpoint peers_loop (fuel : nat) (peers_str : string) (start : nat) (peers : list PeerConfig) : outcome (Cli (list PeerConfig)) :=
  match fuel with
  | O => Abort NoFuel
  | S fuel' =>
      if (start <? String.length peers_str)%nat then
        let comma := find_from "," peers_str start in
        let len := match comma with Some c => (c - start)%nat | None => String.length peers_str end in
        let '(out, parsed) := parse_peer (String.substring start len peers_str) in
        let peers := match parsed with Value p => push peers p | _ => peers end in
        match comma with
        | None => Ret (out, Value peers)
        | Some c => let? (out', d) := peers_loop fuel' peers_str (c + 1) peers in Ret (out ++ out', d)
        end
      else Ret (cret peers)
  end.

Definition parsePeers (peers_str : string) : outcome (Cli (list PeerConfig)) :=
  if bool_decide (peers_str = "") then Ret (cret [])
  else peers_loop (S (String.length peers_str)) peers_str 0 [].

(** ** The program *)

Definition server_config (opts : ServerOptions) (peers : list PeerConfig) : RaftorConfig :=
  DefaultRaftorConfig <| rc_node_id := so_node_id opts |>
    <| rc_listen_addr := "0.0.0.0:" +:+ pretty (so_raft_port opts) |>
    <| rc_data_dir := so_data_dir opts |> <| rc_initial_peers := peers |>.

Context {ENV : Env} {DC : DriverCodec} {MO : MapOrder} {RT : Runtime} {IO : StdIo}.
Context {DIO : Io} {PF : Platform} {CR : Crc} {CP : Capnp} {JL : JsonLib}.

(** The program that listens, or its exit. *)
Inductive Started :=
| Serving (out : list Output) (server : HttpServer WALStorage)
| Exited (out : list Output) (code : Z).

Definition startup (out : list Output) (opts : ServerOptions) (config : RaftorConfig) (disk : Disk) (draws : nat)
    (transport_start : Result unit) : outcome Started :=
  match Raftor.Validate config with
  | Err e => Ret (Exited (out ++ [OutError ("Configuration error: " +:+ ToString e)]) 1)
  | Ok _ =>
      let? created := CreateDefault (T := KvStoreStateMachine) config new_kv disk draws in
      match created with
      | Err e => Ret (Exited (out ++ [OutError ("Failed to create Raftor: " +:+ ToString e)]) 1)
      | Ok raftor =>
          let? (started, raftor) := Start transport_start raftor in
          match started with
          | Err e => Ret (Exited (out ++ [OutError ("Failed to start Raftor: " +:+ ToString e)]) 1)
          | Ok _ =>
              let? (_, server) := http_Start (new_server raftor (so_port opts)) in
              Ret (Serving (out ++ [OutLine ("HTTP server listening on port " +:+ pretty (so_port opts));
                OutLine ("KV Store started. Node ID: " +:+ pretty (so_node_id opts) +:+ ", HTTP Port: " +:+ pretty (so_port opts) +:+
                  ", Raft Port: " +:+ pretty (so_raft_port opts))]) server)
          end
      end
  end.

(** [main] until it calls [Run]. *)
Definition server_main (argv : list string) (disk : Disk) (draws : nat) (transport_start : Result unit) : outcome Started :=
  match parseServerArgs argv new_server_options with
  | (out, Value opts) =>
      let? (out', parsed) := parsePeers (so_peers opts) in
      match parsed with
      | Value peers => startup (out ++ out') opts (server_config opts peers) disk draws transport_start
      | _ => Abort Undefined
      end
  | (out, ExitWith code) => Ret (Exited out code)
  | (out, _) => Abort Undefined
  end.

(** And after [Run] has returned. *)
Definition server_shutdown : M (HttpServer WALStorage) Z :=
  http_Stop ;;;
  raftor Stop ;;;
  ret 0.
End Main.

(** A port that is out of range is cut to sixteen bits. *)
Lemma port_truncated {CT : ConvText} : parseServerArgs ["--port"; "70000"] new_server_options = cret (new_server_options <| so_port := 4464 |>).
Proof. vm_compute. reflexivity. Qed.

(** ** Peers by pieces

    The loop of [parsePeers] walks the string with positions; the list of the
    pieces between commas is a simpler way to say what it does. *)

Fixpoint pieces (piece : string) (s : string) : list string :=
  match s with
  | EmptyString => [piece]
  | String c s => if bool_decide (c = ","%char) then piece :: pieces "" s else pieces (piece +:+ String c "") s
  end.

Fixpoint peers_of {CT : ConvText} (texts : list string) (peers : list PeerConfig) : Cli (list PeerConfig) :=
  match texts with
  | [] => cret peers
  | text :: texts =>
      let '(out, parsed) := parse_peer text in
      let peers := match parsed with Value p => push peers p | _ => peers end in
      let '(out', d) := peers_of texts peers in
      (out ++ out', d)
  end.

Lemma pieces_word piece word rest : no_comma word -> pieces piece (word +:+ rest) = pieces (piece +:+ word) rest.
Proof.
  revert piece. induction word as [|c word IH]; intros piece Hn; [by rewrite string_right_nil|].
  change (String c word +:+ rest) with (String c (word +:+ rest)). unfold no_comma in *. cbn in *.
  apply not_elem_of_cons in Hn as [Hc Hn]. rewrite bool_decide_false by congruence. rewrite IH by done. by rewrite string_snoc.
Qed.

Lemma find_char_None c s : find_char c s = None -> c ∉ list_ascii_of_string s.
Proof.
  induction s as [|x s IH]; cbn; [intros _ H; by apply elem_of_nil in H|]. case_bool_decide as E; [done|].
  destruct (find_char c s); [done|]. intros _. apply not_elem_of_cons. split; [congruence|by apply IH].
Qed.

Lemma find_char_Some c s i : find_char c s = Some i ->
  exists word rest, s = word +:+ String c rest /\ String.length word = i /\ c ∉ list_ascii_of_string word.
Proof.
  revert i. induction s as [|x s IH]; cbn; [done|]. intros i. case_bool_decide as E.
  - intros [= <-]. exists "", s. subst x. split; [done|]. split; [done|]. intros H. by apply elem_of_nil in H.
  - destruct (find_char c s) as [j|] eqn:Ej; [|done]. intros [= <-]. destruct (IH j eq_refl) as (word & rest & -> & <- & Hn).
    exists (String x word), rest. split; [done|]. split; [done|]. cbn. apply not_elem_of_cons. split; [congruence|done].
Qed.

Lemma find_char_word c word rest : c ∉ list_ascii_of_string word -> find_char c (word +:+ String c rest) = Some (String.length word).
Proof.
  induction word as [|x word IH]; intros Hn; [change ("" +:+ String c rest) with (String c rest); cbn; by rewrite bool_decide_true|].
  change (String x word +:+ String c rest) with (String x (word +:+ String c rest)). cbn in *.
  apply not_elem_of_cons in Hn as [Hx Hn]. rewrite bool_decide_false by congruence. by rewrite IH.
Qed.

Lemma substring_prefix b c : String.substring 0 (String.length b) (b +:+ c) = b.
Proof. induction b as [|x b IH]; [by destruct c|]. exact (f_equal (String x) IH). Qed.

Lemma substring_whole s n : (String.length s <= n)%nat -> String.substring 0 n s = s.
Proof.
  revert n. induction s as [|x s IH]; intros [|n] Hn; cbn in *; try done; [lia|]. rewrite IH by lia. done.
Qed.

Lemma substring_skip a s n : String.substring (String.length a) n (a +:+ s) = String.substring 0 n s.
Proof. induction a as [|x a IH]; [done|]. exact IH. Qed.

Lemma find_from_app c a s : find_from c (a +:+ s) (String.length a) = Nat.add (String.length a) <$> find_char c s.
Proof. unfold find_from. by rewrite substring_skip, substring_whole by (rewrite string_app_length; lia). Qed.

Section Peers.
Context {CT : ConvText}.

Lemma parse_peer_value text : exists out p, parse_peer text = (out, Value p).
Proof. unfold parse_peer. destruct (find_char _ _); [destruct (std_stoull _)|]; cbn; eauto. Qed.

Lemma peers_loop_pieces fuel a rest peers : (String.length rest < fuel)%nat ->
  peers_loop fuel (a +:+ rest) (String.length a) peers = Ret (peers_of (pieces "" rest) peers).
Proof.
  revert a rest peers. induction fuel as [|fuel IH]; intros a rest peers Hf; [lia|]. cbn [peers_loop].
  destruct (decide (rest = "")) as [->|Hne].
  { rewrite string_right_nil, Nat.ltb_irrefl. done. }
  assert (Hl : (0 < String.length rest)%nat) by (destruct rest; [done|cbn; lia]).
  rewrite string_app_length, (proj2 (Nat.ltb_lt _ _)) by lia. rewrite find_from_app.
  destruct (find_char "," rest) as [i|] eqn:Ei; cbn [fmap option_fmap option_map].
  - apply find_char_Some in Ei as (word & rest' & -> & <- & Hn). rewrite substring_skip.
    replace (String.length a + String.length word - String.length a)%nat with (String.length word) by lia.
    rewrite substring_prefix, pieces_word by done. cbn [pieces]. rewrite bool_decide_true by done. change ("" +:+ word) with word. cbn [peers_of].
    destruct (parse_peer word) as [out parsed]. rewrite string_app_length in Hf. cbn [String.length] in Hf.
    replace (a +:+ word +:+ String "," rest') with ((a +:+ word +:+ ",") +:+ rest').
    2:{ clear. induction a as [|x a IHa]; [|exact (f_equal (String x) IHa)]. change ("" +:+ ?s) with s. apply string_snoc. }
    replace (String.length a + String.length word + 1)%nat with (String.length (a +:+ word +:+ ",")) by (rewrite !string_app_length; cbn; lia).
    rewrite IH by lia. cbn [obind]. by destruct (peers_of _ _).
  - apply find_char_None in Ei. rewrite substring_skip, (substring_whole rest) by lia.
    pose proof (pieces_word "" rest "" Ei) as E. rewrite string_right_nil in E. rewrite E. change ("" +:+ rest) with rest. cbn [pieces peers_of].
    destruct (parse_peer rest) as [out parsed]. cbn. by rewrite app_nil_r.
Qed.

Lemma peers_loop_whole s : peers_loop (S (String.length s)) s 0 [] = Ret (peers_of (pieces "" s) []).
Proof. apply (peers_loop_pieces _ "" s). lia. Qed.

(** C34: The loop of [parsePeers], with its positions and its two ways out, ends
    and does what a split of the string at its commas does: every piece gives
    its peer, a warning, or nothing, in order.  Empty pieces, a comma at the
    end and the empty string included. *)
Theorem parsePeers_pieces peers_str : parsePeers peers_str = Ret (peers_of (pieces "" peers_str) []).
Proof.
  unfold parsePeers. case_bool_decide as E; [by subst|]. apply peers_loop_whole.
Qed.

(** ** Peers that were written down *)

Definition peer_text (p : PeerConfig) : string := pretty (Z.to_N (pc_id p)) +:+ String ":" (pc_addr p).

Lemma pretty_digits n : exists c t d, pretty n = String c t /\ digit_value c = Some d /\ digits 0 (pretty n) = (Z.of_N n, "") /\ all_digits (pretty n) = true.
Proof.
  unfold pretty, pretty_N. destruct (decide (n = 0%N)) as [->|Hn]; [by eexists _, _, _|].
  destruct (pretty_nonempty n "") as (c & t & d & E & Hd); [lia|]. exists c, t, d. split; [done|]. split; [done|].
  rewrite digits_pretty. split; [done|]. by apply all_digits_pretty.
Qed.

Lemma digit_char c d : digit_value c = Some d -> is_space c = false /\ c <> "-"%char /\ c <> "+"%char /\ c <> ":"%char /\ c <> ","%char.
Proof. destruct c as [[] [] [] [] [] [] [] []]; done. Qed.

Lemma all_digits_no c s : all_digits s = true -> digit_value c = None -> c ∉ list_ascii_of_string s.
Proof.
  intros Ha Hc. induction s as [|x s IH]; cbn in *; [intros H; by apply elem_of_nil in H|]. destruct (digit_value x) eqn:Ex; [|done].
  apply not_elem_of_cons. split; [congruence|by apply IH].
Qed.

Lemma stoull_pretty n : Z.of_N n <= u64max -> std_stoull (pretty n) = inr (Z.of_N n).
Proof.
  intros Hn. destruct (pretty_digits n) as (c & t & d & E & Hd & Hv & _). unfold std_stoull, strto. rewrite E in *.
  destruct (digit_char c d Hd) as (Hs & Hm & Hp & _). cbn [skip_spaces]. rewrite Hs.
  assert (Hsign : match String c t with String "-" t0 => (true, t0) | String "+" t0 => (false, t0) | t0 => (false, t0) end = (false, String c t)).
  { destruct c as [[] [] [] [] [] [] [] []]; done. }
  rewrite Hsign, Hd, Hv. cbn [fst]. by rewrite (proj2 (Z.ltb_ge _ _)).
Qed.

Lemma parse_peer_text p : 0 <= pc_id p <= u64max -> parse_peer (peer_text p) = cret (Some p).
Proof.
  intros Hi. destruct p as [id addr]. cbn in Hi. unfold parse_peer, peer_text. cbn [pc_id pc_addr].
  destruct (pretty_digits (Z.to_N id)) as (c & t & d & _ & _ & _ & Ha).
  rewrite find_char_word by (by apply all_digits_no). rewrite substring_prefix, stoull_pretty by lia. rewrite Z2N.id by lia.
  unfold substr_from. replace (pretty (Z.to_N id) +:+ String ":" addr) with ((pretty (Z.to_N id) +:+ ":") +:+ addr) by apply string_snoc.
  replace (String.length (pretty (Z.to_N id)) + 1)%nat with (String.length (pretty (Z.to_N id) +:+ ":")) by (rewrite string_app_length; cbn; lia).
  rewrite substring_skip, (substring_whole addr) by (rewrite ?string_app_length; lia). done.
Qed.

Lemma pieces_join texts : texts <> [] -> Forall no_comma texts -> pieces "" (join texts) = texts.
Proof.
  intros Hne Hall. induction Hall as [|text texts Hc Hall IH]; [done|]. destruct texts as [|next texts].
  - cbn [join]. pose proof (pieces_word "" text "" Hc) as E. rewrite string_right_nil in E. by rewrite E.
  - change (join (text :: next :: texts)) with (text +:+ String "," (join (next :: texts))). rewrite pieces_word by done.
    cbn [pieces]. rewrite bool_decide_true by done. by rewrite IH.
Qed.

Lemma list_ascii_app (a b : string) : list_ascii_of_string (a +:+ b) = list_ascii_of_string a ++ list_ascii_of_string b.
Proof. induction a as [|x a IH]; [done|]. exact (f_equal (cons x) IH). Qed.

Lemma peer_text_no_comma p : no_comma (pc_addr p) -> no_comma (peer_text p).
Proof.
  intros Hn. unfold no_comma, peer_text in *. rewrite list_ascii_app. cbn. destruct (pretty_digits (Z.to_N (pc_id p))) as (c & t & d & _ & _ & _ & Ha).
  rewrite not_elem_of_app, not_elem_of_cons. split; [by apply all_digits_no|done].
Qed.

(** A list of peers that is written down is read back. *)
Lemma parsePeers_join peers : Forall (fun p => 0 <= pc_id p <= u64max /\ no_comma (pc_addr p)) peers ->
  parsePeers (join (peer_text <$> peers)) = Ret (cret peers).
Proof.
  intros Hall. destruct peers as [|p peers]; [done|]. unfold parsePeers. case_bool_decide as E.
  { exfalso. cbn in E. unfold peer_text in E. destruct (pretty_digits (Z.to_N (pc_id p))) as (c & t & d & Ep & _). rewrite Ep in E. by destruct peers. }
  rewrite peers_loop_whole, pieces_join; [|done|].
  - enough (H : forall acc, peers_of (peer_text <$> p :: peers) acc = cret (acc ++ p :: peers)) by (by rewrite H).
    clear E. induction Hall as [|q qs [Hi _] _ IH]; intros acc; [by rewrite app_nil_r|]. cbn [fmap list_fmap peers_of].
    rewrite parse_peer_text by done. cbn. rewrite IH. by rewrite <- app_assoc.
  - apply Forall_fmap. eapply Forall_impl; [exact Hall|]. intros q [_ Hq]. by apply peer_text_no_comma.
Qed.
End Peers.
