(* ===== verification/MinimalNode.v ===== *)
(** * The minimal example

    Model of [examples/minimal_node/main.cc]: a state machine that keeps
    nothing, and a program that polls a node of its own until it is the leader. *)

From S2P Require Import Prelude Types Util Storage MemStorage ReadOnly Config RaftLog RaftCore Raft RawNode Bytes Capnp Disk Metadata Record Segment WalStorage ProposalTracker StateMachine ReadyProcessor ReadyProps Raftor RaftorProps.

Open Scope string_scope.
Open Scope Z_scope.

(** The state machine has no members. *)
Inductive MinimalStateMachine := minimal.

Definition min_Apply (entry : Entry) : M MinimalStateMachine (Result (option string)) := rok (Some "ok").

Definition min_TakeSnapshot (applied_index applied_term : Z) (conf_state : ConfState) {W} `{SnapshotWriter W} :
    M (MinimalStateMachine * W) (Result SnapshotMetadata) :=
  try! _ := on_snd (Write "x") in
  rok (mkSnapshotMetadata conf_state applied_index applied_term).

(** [while (true)]: all of the snapshot is read and dropped. *)
Fixpoint min_restore_loop (fuel : nat) : M (MinimalStateMachine * SnapshotDataReader) (Result unit) :=
  match fuel with
  | O => abort NoFuel
  | S fuel' =>
      try! bytes := on_snd (Read 256) in
      if slen bytes =? 0 then rok tt else min_restore_loop fuel'
  end.

Definition min_RestoreSnapshot (metadata : SnapshotMetadata) : M (MinimalStateMachine * SnapshotDataReader) (Result unit) :=
  let! (_, reader) := get in
  min_restore_loop (S (S (String.length (sr_data_ reader)))).

(** The other methods are those of the base class, which do nothing. *)
#[export] Instance minimal_state_machine : StateMachine MinimalStateMachine := {|
  sm_Apply := min_Apply;
  sm_TakeSnapshot := @min_TakeSnapshot;
  sm_RestoreSnapshot := min_RestoreSnapshot;
  sm_OnLeadershipChange _ _ _ := ret tt;
  sm_OnPeerUnreachable _ := ret tt
|}.

(** The restore ends for snapshots of any size, with all of it read. *)
Lemma min_restore_loop_ends fuel a rest : slen (a +:+ rest) < two64 -> (S (String.length rest) <= fuel)%nat ->
  min_restore_loop fuel (minimal, mkSnapshotDataReader (a +:+ rest) (slen a)) =
  Ret (Ok tt, (minimal, mkSnapshotDataReader (a +:+ rest) (slen (a +:+ rest)))).
Proof.
  revert a rest. induction fuel as [|fuel IH]; intros a rest Hl Hf; [lia|]. cbn [min_restore_loop]. unfold mrbind, on_snd.
  destruct (Read_chunk a rest 256 Hl ltac:(unfold two64; lia)) as (b & c & -> & Eb & Er).
  erewrite bind_run by (unfold zoom; cbn [snd]; rewrite Er; reflexivity). cbv beta iota. cbn [fst].
  unfold slen in *. rewrite !string_app_length in *. destruct (Z.eqb_spec (Z.of_nat (String.length b)) 0) as [E0|E0].
  - destruct b; [|done]. cbn [String.length] in *. destruct c; [|cbn in *; lia]. change ("" +:+ "") with "".
    unfold rok, ret. by do 3 f_equal.
  - rewrite <- string_app_assoc. specialize (IH (a +:+ b) c). rewrite !string_app_length in IH. rewrite !Nat.add_assoc. apply IH; lia.
Qed.

Lemma min_RestoreSnapshot_ends metadata data : slen data < two64 ->
  min_RestoreSnapshot metadata (minimal, new_reader data) = Ret (Ok tt, (minimal, mkSnapshotDataReader data (slen data))).
Proof.
  intros Hl. unfold min_RestoreSnapshot. rewrite bind_get. apply (min_restore_loop_ends _ "" data); [done|]. cbn. lia.
Qed.

(** ** The program *)

Definition minimal_config : RaftorConfig :=
  DefaultRaftorConfig <| rc_node_id := 1 |> <| rc_listen_addr := "127.0.0.1:9001" |>
    <| rc_data_dir := "./minimal-node-data" |> <| rc_tick_interval := milliseconds 100 |>.

Section Minimal.
Context {ENV : Env} {DC : DriverCodec} {MO : MapOrder} {RT : Runtime} {IO : StdIo}.
Context {S : Type} {ST : Storage S} {WS : WritableStorage S}.

(** The polls that remain, each with what the transport delivers, and the exit
    code. *)
Fixpoint poll_loop (polls : list (list TransportEvent)) : M (Raftor S MinimalStateMachine) Z :=
  match polls with
  | [] => Stop ;;; ret 1
  | events :: polls =>
      Poll events ;;;
      let! r := get in
      if bool_decide (ns_role (GetStatus r) = Leader) then Stop ;;; ret 0 else poll_loop polls
  end.

(** [main] after the server is created; it polls twenty times. *)
Definition minimal_run (transport_start : Result unit) (polls : list (list TransportEvent)) : M (Raftor S MinimalStateMachine) Z :=
  let! started := Start transport_start in
  match started with
  | Err _ => ret 1
  | Ok _ => poll_loop (take 20 polls)
  end.

Context {DIO : Io} {PF : Platform} {CR : Crc} {CP : Capnp}.

(** A program that succeeds was the leader before it stopped. *)
Lemma poll_loop_leads polls (r r' : Raftor S MinimalStateMachine) : poll_loop polls r = Ret (0, r') ->
  exists r1, ns_role (GetStatus r1) = Leader /\ Stop r1 = Ret (tt, r').
Proof.
  revert r. induction polls as [|events polls IH]; intros r E; cbn [poll_loop] in E.
  - apply bind_Ret in E as (? & r1 & _ & E). done.
  - apply bind_Ret in E as (? & r1 & _ & E). rewrite bind_get in E. case_bool_decide as Hl; [|by eapply IH].
    apply bind_Ret in E as ([] & r2 & E2 & [= <-]). by exists r1.
Qed.
End Minimal.

Definition minimal_main {ENV : Env} {DC : DriverCodec} {MO : MapOrder} {RT : Runtime} {IO : StdIo}
    {DIO : Io} {PF : Platform} {CR : Crc} {CP : Capnp}
    (disk : Disk) (draws : nat) (transport_start : Result unit) (polls : list (list TransportEvent)) : outcome Z :=
  let? created := CreateDefault minimal_config minimal disk draws in
  match created with
  | Err _ => Ret 1
  | Ok raftor => let? (code, _) := minimal_run transport_start polls raftor in Ret code
  end.

(** Over a storage in memory, with a clock that is read every 60 milliseconds,
    the node is elected within the twenty polls. *)
Lemma minimal_elected : exists r0 r, Create minimal_config minimal (Some MemStorage.new) None 0 = Ret (Ok r0) /\
  minimal_run (Ok tt) (replicate 20 []) r0 = Ret (0, r) /\ ri_running_ r = false.
Proof. do 2 eexists. split; [vm_compute; reflexivity|]. split; vm_compute; reflexivity. Qed.
